(* ===== verification/_CoqProject ===== *)
-Q . S2P
Prelude.v
Effects.v
Bitmap.v
ReqHistory.v
AtMostOnce.v
SCSet.v
Recover.v
Smasher.v
Certificate.v
Reply.v
Switcher.v
ZlReplica.v
ZlSystem.v
Bytes.v
ChainAuth.v
Chain.v
ChainSystem.v
CkptStore.v
Quorum.v
QuorumGroup.v
CBFT.v
CBFTGroup.v
MesQueue.v
Ring.v
RingGroup.v
RingSched.v
PLog.v
PCert.v
PReqQueue.v
PPrepared.v
PBFT.v
PBFTGroup.v
ZlClient.v
QClient.v
OClient.v
QuorumRoundTrip.v
CClient.v
MBFT.v
Intset.v
Adlist.v
Dict.v
Sds.v
Zipmap.v
Util.v
Glob.v
Ziplist.v
Skiplist.v
StrObj.v
