(* ===== verification/Prelude.v ===== *)
(** * Abstract BFT: a verification library

    The repository is a family of Byzantine-fault-tolerant replication protocols
    that can switch from one to another (the Abstract framework: ZLight, Quorum,
    Chain, CBFT, Ring, with PBFT and Aardvark as fallbacks), and carries a Redis
    server as an application.  This library models the protocols ZLight, Quorum,
    Chain, CBFT and Ring, the clients of the first four, the ordering of requests
    by PBFT in a view, the parts the protocols share, the switching between
    protocols, and the data structures of Redis.

    The parts and how they interact.  A client sends a request through the
    library ([MBFT_invoke]), which calls the client of the current protocol.  The
    replicas of that protocol execute it, log it in a request history whose
    digest the replies carry, and take checkpoints that truncate the history.  A
    replica that panics broadcasts its history in an abort message; from enough
    aborts the smasher merges one history, the replica asks the others for the
    requests it lacks, stops, and the switcher enables the next protocol; the
    clients learn of it from a reply with the switch flag.  The service behind
    [exec_command] is a parameter of the protocol models.

    ** The files

    Paths are under [src/src/]; names are those of the code.

    - [Prelude]: machine integers ([wrapu], [to_signed]), lists, tactics and the
      hint base [bft].
    - [Effects]: the monad of the handlers (state, outputs, faults), [wp] for
      "ends without a fault in", [wlp] for "if it ends without a fault, in",
      [wpe] for "ends in, or with one of these faults".

    What the protocols share:
    - [Bitmap]: [common/Bitmap.h].
    - [ReqHistory]: [protocols/common/Request_history.h], [DSum.cc].
    - [SCSet]: [protocols/common/SCSet.h].
    - [Switcher]: [common/Switcher.h], nodes in a heap.
    - [AtMostOnce]: the specification of a replica, an at-most-once state machine.
    - [Recover]: the loops that rebuild the history after an abort, which the
      replicas of all protocols repeat.
    - [CkptStore]: [protocols/common/Set.h] and the checkpoint store of
      [O_Replica.h].

    ZLight ([protocols/zlight/]):
    - [Smasher]: [zl_Smasher.cc], [zl_Abort_certificate.*] (Chain's are the same).
    - [Certificate], [Reply]: [zl_Certificate.*], [zl_Reply.*]; the message class
      of the template is the type class [CertMsg].
    - [ZlReplica]: [zl_Replica.*] with [zl_Rep_info.*] and the verification of
      messages; [handle] is the dispatch, one definition per handler.
    - [ZlSystem]: a group of replicas as a step relation.
    - [ZlClient]: [zl_Client.cc], [zlight_libbyz.cc] and the identifiers.

    Chain ([protocols/chain/]):
    - [ChainAuth]: the authenticators of [C_Node.cc], [C_Request.cc], [C_Reply.cc].
    - [Chain]: [C_Replica.*] with [C_Rep_info.*], [C_Abort.cc],
      [C_Abort_certificate.cc], [C_Checkpoint.cc].
    - [ChainSystem]: replicas in a row as a step relation.
    - [CClient]: [C_Client.cc], [chain_libbyz.cc].
    - [MBFT]: [modular_bft/libmodular_BFT.cc].

    Quorum ([protocols/quorum/]):
    - [Quorum]: [Q_Replica.*] with [Q_Rep_info.*], [Q_Request.cc],
      [Q_Abort.cc], [Q_Abort_certificate.cc], [Q_Checkpoint.cc].
    - [QuorumGroup]: replicas without an order between them, as a step relation.
    - [QClient]: [Q_Client.cc], [quorum_libbyz.cc].
    - [QuorumRoundTrip]: a client with its replicas, from call to result.

    CBFT ([protocols/cbft/]):
    - [CBFT]: [O_Replica.*] with [O_Rep_info.*], [O_Request.cc], [O_Reply.cc],
      [O_Abort.cc], [O_Missing.cc], [O_Get_a_grip.cc].
    - [CBFTGroup]: the primary, the backups and their clients as a step
      relation, with messages going where [O_Node::send] sends them.
    - [OClient]: [O_Client.cc], [cbft_libbyz.cc].

    Ring ([protocols/ring/]):
    - [MesQueue]: [R_Mes_queue.*] (and the same code in the other protocols), nodes
      in a heap; the type class [FifoQueue] is what the receiving loop uses.
    - [Ring]: [R_Replica.*] with [R_Rep_info.*] and [R_Types.h], as built.
    - [RingGroup]: replicas in a ring as a step relation.
    - [RingSched]: the receiving loop [do_recv_from_queue].

    PBFT ([protocols/pbft/], its replica in [replica/PBFT_R_*]):
    - [PLog]: [Log.h], [Log.t], the circular log of certificates.
    - [PCert]: [Certificate.*]; the message class of the template is the type
      class [PMsg].
    - [PReqQueue]: [Req_queue.*], an array of linked nodes.
    - [PPrepared]: the ordering messages, [Big_req_table.*] ([BigReqs]),
      [Pre_prepare_info.*] ([PPInfo]) and [Prepared_cert.*] ([Prepared]).
    - [PBFT]: of [Replica.cc] the handlers of requests, pre-prepares, prepares,
      commits and checkpoints, batching, tentative and final execution, stable
      checkpoints and the change of keys, with [Rep_info.*]; [PBFT_R_State] is the
      type class [StateOps].
    - [PBFTGroup]: correct and faulty replicas in one view, as a step relation.

    Redis ([redis/src/]):
    - [Bytes]: heap blocks as lists of bytes; loads, stores, moves, [realloc].
    - [Intset], [Adlist], [Dict], [Sds], [Zipmap], [Ziplist]: the files of those
      names; [Util] and [Glob]: [util.c].
    - [Skiplist]: the skip lists of [t_zset.c], proved against the type classes
      [ScoreOrder] and [ObjOrder]; [StrObj]: the string objects of [object.c],
      whose comparison discharges [ObjOrder].

    ** What the theorems show

    - Switching: the merged history keeps every duplicate-free prefix common to
      the correct replicas, contains only entries of correct replicas, and the
      missing list is exact; the switcher is a table.
    - ZLight: a replica refines an at-most-once state machine on every sequence
      of events whose messages fit their sizes, and does not fault on them; a
      group whose replicas start from one order agrees (logs are prefixes of the
      primary's); primary and backup make progress; a call of a client returns a
      result only when every replica has backed it, and returns when they have.
    - Chain, with correct clients: agreement along the chain, a reply is backed by
      the whole chain; progress while no request is parked; the state stays well formed, the in-place check of the shifting
      authenticators is the condition it stands for and honest requests pass.
    - Quorum: a replica refines the at-most-once specification; replicas that
      answered with one history digest had executed the same requests (though
      not in the same order); a call returns only what all replicas back, and
      the round trip from call to result succeeds.
    - Recovery: replicas that rebuild their history from the same merged one end
      with the same requests, order and digests, and do not fault where the
      requests they lack have been fetched.
    - CBFT: a replica refines the at-most-once specification and counts what it
      executes, up to the overflow of the counter; backups execute requests that
      arrive in any order in theirs; the log of a backup is a prefix of the
      primary's, whatever the schedule, when all count from one number; a call
      returns only what all replicas back, and returns when they have answered;
      a panic leaves a backup stuck for ever.
    - Ring: replicas execute in the order of the numbers; the log of a replica is a
      prefix of that of replica 0; the receiving loop serves each source in order
      and comes to rest.  But no client is answered, requests that enter elsewhere
      than at replica 0 stall the replicas from their entry on, and clients starve
      while the predecessor keeps sending.
    - PBFT: the log is a window of entries and the request queue a queue; a
      complete certificate is evidence of messages of that many replicas; in a
      group with at most [f] faulty replicas of [3f + 1] the batches that correct
      replicas execute under one number are the same, as long as no correct replica
      changes its keys and no number reaches 2^31.  After such a change a backup
      prepares a second batch under a number it has prepared, and an example runs
      a group in which two correct replicas commit different batches.
    - Shared structures: truncation is exact, the checkpoint store and the message
      queues are queues, iteration over bitmaps terminates and is complete.
    - Redis: the dictionary implements a map whatever the state of its
      incremental rehashing, which loses nothing and ends; the intset a set; the
      lists, strings, zipmaps and ziplists the sequences and maps they encode,
      with every access inside the block; printing and splitting of arguments
      are inverse on printable strings; the glob matcher decides a declarative
      relation; the integer test accepts exactly decimal texts; skip lists are
      sorted lists, whatever the levels drawn, and their spans give positions;
      string objects are their texts in either encoding.
    - Defects: theorems that show behaviour the code should not have (deadlocks,
      failed assertions a client can cause, accesses outside messages and
      blocks, replies accepted without their MACs, diverging replicas).

    ** Modelling choices and bounds

    - The build is 32-bit ([-m32]): [long] and [size_t] have 32 bits, [long long]
      64, structures the i386 layout.
    - An operation that can fail returns an option or runs in the monad: a failed
      assertion, a null or dangling pointer, an access outside an object, and a
      mutex the thread already holds are values, so a theorem with [wp] or
      [= Some _] says that none of them happens.  A digest or MAC over a length
      that the message itself states is a checked read ([in_bounds]): a length
      beyond the message is a fault, and theorems about the absence of faults
      assume lengths that fit ([request_fits], [order_fits], [size_fits],
      [reads_inside]); examples show the faults.  Arithmetic that can exceed an
      [int] of the protocols ends in the fault [Overflow].
    - Memory the source leaves uninitialised is a parameter of the first state
      ([junk] of a ZLight replica, [order0] of a CBFT replica, [unset_order]), one
      value per replica; a theorem that needs equal values says so, and examples
      show what happens otherwise.  Memory that has been deleted and is read
      again is a fault where the read decides about pointers ([Recover]), and an
      input of the event, with any content, where it is a message ([OClient]).
    - Handlers are atomic: threads interleave whole handler runs.  Cryptography
      (MD5, UMAC, signatures), the service, and the verdicts of the robust
      monitor are parameters; unforgeability enters the group models as the
      condition on which messages can be delivered.  No protocol keeps a client
      from sending two commands under one identifier: the group theorems of
      Chain, CBFT and Ring say which clients they assume.
    - Recursion is on the data where the code walks it; loops that count have
      the count as fuel, and the theorems show that it is enough.  The iterator
      of a bitmap is given one step more than its bits; a rehashing ends within
      one step more than the buckets of the old table.  A Ring request is shared by
      at most two states, so releasing one takes two levels; the receiving loop
      empties its queues within two passes per message and 57 more.  The loops of a
      PBFT replica are given [loop_fuel] passes, which is a parameter: the theorems
      hold for every number of passes.
    - PBFT is modelled in one view, whose new-view the replica has, at a replica
      that does not recover itself; fetching the state ends at the request for it.
      In the group a prepare that verifies under the name of a correct replica was
      sent by it, and a pre-prepare that verifies under a correct primary has the
      header of one that it sent; all other messages are arbitrary.
    - The Redis structures are exact below the sizes at which the C arithmetic
      wraps: dictionaries of 2^28 entries, strings of 2^30 bytes, zipmaps and
      ziplists of 2^31 bytes, intsets of 2^29 - 1 elements, skip lists of
      2^32 - 2.  Ziplists are exact with entries below 250 bytes; above 254 a
      theorem shows how they break.
    - The group models cover a protocol instance until a replica stops; the
      histories that cross the switch are the subject of the smasher's theorems.

    ** Not modelled

    Sockets, configuration files, process and thread start-up, wall-clock
    measurements (the robust monitor), MD5 and UMAC themselves; the view
    changes of PBFT, its recovery, state transfer and client; Aardvark, sfslite,
    LDAP and the benchmarks (third-party in origin); Ring's client, and its
    batching, checkpoints and authentication, which are not built; the command
    layer of Redis. *)

From stdpp Require Export base tactics list numbers option gmap.
From Stdlib Require Export ZArith Lia.

#[global] Set Warnings "-notation-overridden".

Create HintDb bft.

(** ** Heaps *)

(** An address above all those in use. *)
Definition bump_alloc {V} (h : gmap positive V) : positive :=
  Pos.succ (map_fold (fun k _ m => Pos.max k m) 1%positive h).

Lemma bump_alloc_fresh {V} (h : gmap positive V) : h !! bump_alloc h = None.
Proof.
  destruct (h !! bump_alloc h) as [x|] eqn:E; [|done]. exfalso.
  assert (forall a y, h !! a = Some y -> (a <= map_fold (fun k _ m => Pos.max k m) 1 h)%positive) as Hle.
  { apply (map_fold_weak_ind (fun r m => forall a y, m !! a = Some y -> (a <= r)%positive)).
    - intros a y. by rewrite lookup_empty.
    - intros k x' m r Hk IH a y. rewrite lookup_insert_Some. intros [[<- <-]|[_ Ha]]; [lia|].
      apply IH in Ha. lia. }
  apply Hle in E. unfold bump_alloc in E. lia.
Qed.

(** ** Machine integers *)

(** An unsigned [w]-bit value; a signed value is read back with [to_signed]. *)
Definition wrapu (w z : Z) : Z := z mod 2 ^ w.
Definition to_signed (w z : Z) : Z :=
  let u := wrapu w z in if (u <? 2 ^ (w - 1))%Z then u else (u - 2 ^ w)%Z.
Definition in_u (w z : Z) : Prop := (0 <= z < 2 ^ w)%Z.
Definition in_s (w z : Z) : Prop := (- 2 ^ (w - 1) <= z < 2 ^ (w - 1))%Z.

(** Message sizes are rounded up to the alignment, 8 bytes. *)
Definition ALIGNED_SIZE (sz : Z) : Z := (if (sz mod 8 =? 0)%Z then sz else sz - sz mod 8 + 8)%Z.

Lemma wrapu_range w z : (0 <= w)%Z -> in_u w (wrapu w z).
Proof. intros. apply Z.mod_pos_bound. lia. Qed.

Lemma ALIGNED_SIZE_le sz m : (m mod 8 = 0)%Z -> (sz <= m)%Z -> (ALIGNED_SIZE sz <= m)%Z.
Proof.
  intros Hm Hle. unfold ALIGNED_SIZE. pose proof (Z.div_mod m 8 ltac:(lia)). pose proof (Z.div_mod sz 8 ltac:(lia)).
  pose proof (Z.mod_pos_bound sz 8 ltac:(lia)). destruct (Z.eqb_spec (sz mod 8) 0); lia.
Qed.

Lemma wrapu_id w z : in_u w z -> wrapu w z = z.
Proof. intros. by apply Z.mod_small. Qed.

Lemma to_signed_id w z : (0 < w)%Z -> in_s w z -> to_signed w z = z.
Proof.
  intros Hw [Hlo Hhi]. unfold to_signed, wrapu.
  assert (Hp : (2 ^ w = 2 * 2 ^ (w - 1))%Z)
    by (rewrite <- Z.pow_succ_r by lia; f_equal; lia).
  destruct (decide (0 <= z)%Z).
  - rewrite Z.mod_small by lia. destruct (Z.ltb_spec z (2 ^ (w - 1))); lia.
  - assert (E : (z mod 2 ^ w = z + 2 ^ w)%Z).
    { symmetry. apply Z.mod_unique with (-1)%Z; lia. }
    rewrite E. destruct (Z.ltb_spec (z + 2 ^ w) (2 ^ (w - 1))); lia.
Qed.

Lemma to_signed_mod w z : (0 <= w)%Z -> to_signed w (z mod 2 ^ w) = to_signed w z.
Proof. intros. unfold to_signed, wrapu. by rewrite Zmod_mod. Qed.

Lemma to_signed_cong w z : (0 <= w)%Z -> exists k, to_signed w z = (z + k * 2 ^ w)%Z.
Proof.
  intros Hw. unfold to_signed, wrapu. pose proof (Z.div_mod z (2 ^ w) ltac:(lia)).
  destruct (_ <? _)%Z; [exists (- (z / 2 ^ w))%Z|exists (- (z / 2 ^ w) - 1)%Z]; lia.
Qed.

Lemma to_signed_add_l w a b : (0 <= w)%Z -> to_signed w (to_signed w a + b) = to_signed w (a + b).
Proof.
  intros Hw. destruct (to_signed_cong w a Hw) as [k ->]. rewrite <- (to_signed_mod w (a + b)), <- (to_signed_mod w (_ + b)) by done.
  by rewrite <- Z.add_assoc, (Z.add_comm (k * _)), Z.add_assoc, Z_mod_plus_full.
Qed.

Lemma to_signed_range w z : (0 < w)%Z -> in_s w (to_signed w z).
Proof.
  intros Hw. unfold to_signed.
  assert (Hp : (2 ^ w = 2 * 2 ^ (w - 1))%Z)
    by (rewrite <- Z.pow_succ_r by lia; f_equal; lia).
  pose proof (wrapu_range w z ltac:(lia)) as [? ?].
  unfold in_s. destruct (Z.ltb_spec (wrapu w z) (2 ^ (w - 1))); lia.
Qed.

Lemma in_u_lxor w a b : in_u w a -> in_u w b -> in_u w (Z.lxor a b).
Proof.
  intros [Ha0 Ha] [Hb0 Hb]. split; [by apply Z.lxor_nonneg|].
  destruct (decide (Z.lxor a b = 0)%Z) as [->|Hne]; [lia|].
  assert (0 <= Z.lxor a b)%Z by (by apply Z.lxor_nonneg).
  assert (Hl : forall x, (0 <= x < 2 ^ w)%Z -> (x = 0 \/ Z.log2 x < w)%Z).
  { intros x [Hx Hx']. destruct (decide (x = 0)%Z) as [|]; [by left|right]. apply Z.log2_lt_pow2; lia. }
  apply Z.log2_lt_pow2; [lia|]. eapply Z.le_lt_trans; [by apply Z.log2_lxor|].
  pose proof (Z.log2_nonneg a). pose proof (Z.log2_nonneg b).
  assert (0 < w)%Z.
  { destruct (decide (0 < w)%Z) as [|Hw]; [done|]. assert (2 ^ w <= 2 ^ 0)%Z by (apply Z.pow_le_mono_r; lia).
    assert (a = 0 /\ b = 0)%Z as [-> ->] by lia. done. }
  destruct (Hl a) as [->|], (Hl b) as [->|]; simpl; lia.
Qed.

Lemma in_u_shiftr w a n : in_u w a -> (0 <= n)%Z -> in_u w (Z.shiftr a n).
Proof.
  intros [Ha0 Ha] Hn. rewrite Z.shiftr_div_pow2 by done. pose proof (Z.pow_pos_nonneg 2 n).
  split; [apply Z.div_pos; lia|]. eapply Z.le_lt_trans; [|exact Ha]. apply Z.div_le_upper_bound; nia.
Qed.

#[export] Hint Resolve in_u_lxor in_u_shiftr : bft.
#[export] Hint Resolve wrapu_range to_signed_range : bft.
#[export] Hint Rewrite wrapu_id to_signed_id using (done || lia) : bft.

(** ** Lists *)

Lemma prefix_lookup {A} (L P : list A) : (forall j a, L !! j = Some a -> P !! j = Some a) -> L `prefix_of` P.
Proof.
  revert P. induction L as [|a L IH]; intros P H; [apply prefix_nil|].
  destruct P as [|b P]; [discriminate (H 0%nat a eq_refl)|].
  pose proof (H 0%nat a eq_refl) as H0. simpl in H0. injection H0 as ->.
  apply prefix_cons, IH. intros j x Hx. exact (H (Datatypes.S j) x Hx).
Qed.

Lemma filter_none {A} (P : A -> Prop) `{forall x, Decision (P x)} (l : list A) :
  (forall x, x ∈ l -> ~ P x) -> filter P l = [].
Proof.
  induction l as [|x l IH]; intros Hn; [done|]. rewrite filter_cons.
  rewrite decide_False by (apply Hn; set_solver). apply IH. intros. apply Hn. set_solver.
Qed.

Lemma filter_every {A} (P : A -> Prop) `{forall x, Decision (P x)} (l : list A) :
  Forall P l -> filter P l = l.
Proof. induction 1 as [|x l Hx _ IH]; [done|]. rewrite filter_cons, decide_True by done. by f_equal. Qed.

Lemma length_filter_full {A} (P : A -> Prop) `{forall x, Decision (P x)} (l : list A) :
  (length l <= length (filter P l))%nat -> Forall P l.
Proof.
  induction l as [|x l IH]; intros Hl; [constructor|]. rewrite filter_cons in Hl.
  pose proof (length_filter P l).
  case_decide; simpl in *; [constructor; [done|]; apply IH; lia|lia].
Qed.

(** ** Tactics *)

(** Split every boolean test or option match of the goal and simplify. *)
Ltac case_bool :=
  match goal with
  | |- context [if ?b then _ else _] => destruct b eqn:?
  | H : context [if ?b then _ else _] |- _ => destruct b eqn:?
  end.

(** [L] is a prefix of [P] when each of its elements is the one of [P] at its place. *)
Ltac bsimp :=
  repeat match goal with
  | H : (_ && _)%bool = true |- _ => apply andb_true_iff in H; destruct H
  | H : (_ || _)%bool = false |- _ => apply orb_false_iff in H; destruct H
  | H : negb _ = true |- _ => apply negb_true_iff in H
  | H : negb _ = false |- _ => apply negb_false_iff in H
  | H : (_ =? _)%Z = true |- _ => apply Z.eqb_eq in H
  | H : (_ =? _)%Z = false |- _ => apply Z.eqb_neq in H
  | H : (_ <? _)%Z = true |- _ => apply Z.ltb_lt in H
  | H : (_ <? _)%Z = false |- _ => apply Z.ltb_ge in H
  | H : (_ <=? _)%Z = true |- _ => apply Z.leb_le in H
  | H : (_ <=? _)%Z = false |- _ => apply Z.leb_gt in H
  | H : bool_decide _ = true |- _ => apply bool_decide_eq_true in H
  | H : bool_decide _ = false |- _ => apply bool_decide_eq_false in H
  end; simplify_eq/=.
