(* ===== verification/Effects.v ===== *)
(** * Handlers

    The monad of the replicas' message handlers: a computation threads the
    state, accumulates the outputs (messages sent, calls to the service and to
    the monitor), and may end in a [fault]: a failed [th_assert], a null or
    out-of-bounds access, [exit], locking a mutex the thread already holds, or a
    loop that never ends.

    [wp m Q s] says that [m] ends from [s] without a fault in a result that
    satisfies [Q]; [wlp m Q s] says so of the runs that do not fault, and
    [wpe E m Q s] of all runs but those that end in a fault of [E].  The tactics
    [wp_step], [wlp_step] and [wpe_step] take one primitive step. *)

From S2P Require Import Prelude.

Inductive fault := AssertFailed | OutOfBounds | NullDeref | Deadlock | ExitCalled | Hang | Overflow.

Declare Scope handler_scope.
Delimit Scope handler_scope with handler.

Section effects.
Context {state output : Type}.

Inductive res (A : Type) :=
| Done (a : A) (s : state) (o : list output)
| Fault (e : fault).
Arguments Done {A}.
Arguments Fault {A}.

Definition M (A : Type) := state -> res A.

Definition ret {A} (a : A) : M A := fun s => Done a s [].
Definition bind {A B} (m : M A) (k : A -> M B) : M B := fun s =>
  match m s with
  | Done a s1 o1 =>
    match k a s1 with
    | Done b s2 o2 => Done b s2 (o1 ++ o2)
    | Fault e => Fault e
    end
  | Fault e => Fault e
  end.
Definition gets {A} (f : state -> A) : M A := fun s => Done (f s) s [].
Definition modify (f : state -> state) : M unit := fun s => Done tt (f s) [].
Definition emit (o : output) : M unit := fun s => Done tt s [o].
Definition fail {A} (e : fault) : M A := fun _ => Fault e.
Definition of_option {A} (e : fault) (o : option A) : M A :=
  match o with Some a => ret a | None => fail e end.
Definition of_sum {A} (r : fault + A) : M A :=
  match r with inr a => ret a | inl e => fail e end.
Definition assert_ (b : bool) : M unit := if b then ret tt else fail AssertFailed.
(** An access that stays within its object when [b]. *)
Definition in_bounds (b : bool) : M unit := if b then ret tt else fail OutOfBounds.

Definition wp {A} (m : M A) (Q : A -> state -> list output -> Prop) (s : state) : Prop :=
  match m s with Done a s' o => Q a s' o | Fault _ => False end.

Definition wlp {A} (m : M A) (Q : A -> state -> list output -> Prop) (s : state) : Prop :=
  match m s with Done a s' o => Q a s' o | Fault _ => True end.

Lemma wp_bind {A B} (m : M A) (k : A -> M B) Q s :
  wp m (fun a s1 o1 => wp (k a) (fun b s2 o2 => Q b s2 (o1 ++ o2)) s1) s -> wp (bind m k) Q s.
Proof.
  unfold wp, bind. destruct (m s) as [a s1 o1|]; [|done]. by destruct (k a s1).
Qed.

Lemma wp_mono {A} (m : M A) (Q R : A -> state -> list output -> Prop) s :
  wp m Q s -> (forall a s' o, Q a s' o -> R a s' o) -> wp m R s.
Proof. unfold wp. destruct (m s); auto. Qed.

Lemma wp_ret {A} (a : A) (Q : A -> state -> list output -> Prop) s : Q a s [] -> wp (ret a) Q s.
Proof. done. Qed.

Lemma wp_gets {A} (f : state -> A) (Q : A -> state -> list output -> Prop) s :
  Q (f s) s [] -> wp (gets f) Q s.
Proof. done. Qed.

Lemma wp_modify f (Q : unit -> state -> list output -> Prop) s :
  Q tt (f s) [] -> wp (modify f) Q s.
Proof. done. Qed.

Lemma wp_emit x (Q : unit -> state -> list output -> Prop) s : Q tt s [x] -> wp (emit x) Q s.
Proof. done. Qed.

Lemma wp_of_option {A} e (o : option A) a Q s : o = Some a -> Q a s [] -> wp (of_option e o) Q s.
Proof. by intros ->. Qed.

Lemma wp_assert b (Q : unit -> state -> list output -> Prop) s : b = true -> Q tt s [] -> wp (assert_ b) Q s.
Proof. by intros ->. Qed.

Lemma wp_in_bounds b (Q : unit -> state -> list output -> Prop) s : b = true -> Q tt s [] -> wp (in_bounds b) Q s.
Proof. by intros ->. Qed.

Lemma wp_done {A} (m : M A) Q a s' o s : m s = Done a s' o -> Q a s' o -> wp m Q s.
Proof. unfold wp. by intros ->. Qed.

Lemma wlp_bind {A B} (m : M A) (k : A -> M B) Q s :
  wlp m (fun a s1 o1 => wlp (k a) (fun b s2 o2 => Q b s2 (o1 ++ o2)) s1) s -> wlp (bind m k) Q s.
Proof.
  unfold wlp, bind. destruct (m s) as [a s1 o1|]; [|done]. by destruct (k a s1).
Qed.

Lemma wlp_mono {A} (m : M A) (Q R : A -> state -> list output -> Prop) s :
  wlp m Q s -> (forall a s' o, Q a s' o -> R a s' o) -> wlp m R s.
Proof. unfold wlp. destruct (m s); auto. Qed.

Lemma wlp_ret {A} (a : A) (Q : A -> state -> list output -> Prop) s : Q a s [] -> wlp (ret a) Q s.
Proof. done. Qed.

Lemma wlp_gets {A} (f : state -> A) (Q : A -> state -> list output -> Prop) s :
  Q (f s) s [] -> wlp (gets f) Q s.
Proof. done. Qed.

Lemma wlp_modify f (Q : unit -> state -> list output -> Prop) s :
  Q tt (f s) [] -> wlp (modify f) Q s.
Proof. done. Qed.

Lemma wlp_emit x (Q : unit -> state -> list output -> Prop) s : Q tt s [x] -> wlp (emit x) Q s.
Proof. done. Qed.

Lemma wlp_fail {A} e (Q : A -> state -> list output -> Prop) s : wlp (fail e) Q s.
Proof. done. Qed.

Lemma wlp_of_option {A} e (o : option A) (Q : A -> state -> list output -> Prop) s :
  (forall a, o = Some a -> Q a s []) -> wlp (of_option e o) Q s.
Proof. destruct o as [a|]; [|done]. intros H. by apply H. Qed.

Lemma wlp_of_sum {A} (r : fault + A) (Q : A -> state -> list output -> Prop) s :
  (forall a, r = inr a -> Q a s []) -> wlp (of_sum r) Q s.
Proof. destruct r as [e|a]; [done|]. intros H. by apply H. Qed.

Lemma wlp_assert b (Q : unit -> state -> list output -> Prop) s : (b = true -> Q tt s []) -> wlp (assert_ b) Q s.
Proof. destruct b; [|done]. intros H. by apply H. Qed.

Lemma wlp_in_bounds b (Q : unit -> state -> list output -> Prop) s : (b = true -> Q tt s []) -> wlp (in_bounds b) Q s.
Proof. destruct b; [|done]. intros H. by apply H. Qed.

Lemma wlp_of_wp {A} (m : M A) (Q : A -> state -> list output -> Prop) s : wp m Q s -> wlp m Q s.
Proof. unfold wp, wlp. by destruct (m s). Qed.

(** Only the faults of [E] can happen. *)
Definition wpe {A} (E : fault -> Prop) (m : M A) (Q : A -> state -> list output -> Prop) (s : state) : Prop :=
  match m s with Done a s' o => Q a s' o | Fault e => E e end.

Lemma wpe_bind {A B} E (m : M A) (k : A -> M B) Q s :
  wpe E m (fun a s1 o1 => wpe E (k a) (fun b s2 o2 => Q b s2 (o1 ++ o2)) s1) s -> wpe E (bind m k) Q s.
Proof. unfold wpe, bind. destruct (m s) as [a s1 o1|]; [|done]. by destruct (k a s1). Qed.

Lemma wpe_mono {A} E (m : M A) (Q R : A -> state -> list output -> Prop) s :
  wpe E m Q s -> (forall a s' o, Q a s' o -> R a s' o) -> wpe E m R s.
Proof. unfold wpe. destruct (m s); auto. Qed.

Lemma wpe_fault {A} (E E' : fault -> Prop) (m : M A) (Q : A -> state -> list output -> Prop) s :
  wpe E m Q s -> (forall e, E e -> E' e) -> wpe E' m Q s.
Proof. unfold wpe. destruct (m s); auto. Qed.

Lemma wpe_done {A} E (m : M A) (Q : A -> state -> list output -> Prop) s a s' o : wpe E m Q s -> m s = Done a s' o -> Q a s' o.
Proof. unfold wpe. by destruct (m s); intros H [= -> -> ->]. Qed.

Lemma wp_wpe {A} E (m : M A) (Q : A -> state -> list output -> Prop) s : wp m Q s -> wpe E m Q s.
Proof. unfold wp, wpe. by destruct (m s). Qed.

Lemma wpe_wp {A} (m : M A) (Q : A -> state -> list output -> Prop) s : wpe (fun _ => False) m Q s -> wp m Q s.
Proof. done. Qed.

Lemma wpe_no_fault {A} (E : fault -> Prop) (m : M A) (Q : A -> state -> list output -> Prop) s :
  wpe E m Q s -> (forall e, ~ E e) -> wp m Q s.
Proof. unfold wpe, wp. destruct (m s); [done|]. intros He Hn. by apply Hn in He. Qed.

End effects.
Arguments Done {state output A}.
Arguments Fault {state output A}.
Arguments res : clear implicits.
Arguments M : clear implicits.

Notation "x <- m ;; k" := (bind m (fun x => k))
  (at level 100, m at next level, right associativity) : handler_scope.
Notation "m ;;; k" := (bind m (fun _ => k)) (at level 100, right associativity) : handler_scope.

(** One primitive step of a handler. *)
Ltac wp_step :=
  lazymatch goal with
  | |- wp (bind _ _) _ _ => apply wp_bind
  | |- wp (gets _) _ _ => apply wp_gets
  | |- wp (modify _) _ _ => apply wp_modify
  | |- wp (emit _) _ _ => apply wp_emit
  | |- wp (ret _) _ _ => apply wp_ret
  end; cbv beta.
Ltac wp_steps := repeat wp_step.

Ltac wlp_step :=
  lazymatch goal with
  | |- wlp (bind _ _) _ _ => apply wlp_bind
  | |- wlp (gets _) _ _ => apply wlp_gets
  | |- wlp (modify _) _ _ => apply wlp_modify
  | |- wlp (emit _) _ _ => apply wlp_emit
  | |- wlp (ret _) _ _ => apply wlp_ret
  | |- wlp (fail _) _ _ => apply wlp_fail
  end; cbv beta.
Ltac wlp_steps := repeat wlp_step.

Ltac wpe_step :=
  lazymatch goal with
  | |- wpe _ (bind _ _) _ _ => apply wpe_bind
  | |- wpe _ (gets _) _ _ => apply wp_wpe, wp_gets
  | |- wpe _ (modify _) _ _ => apply wp_wpe, wp_modify
  | |- wpe _ (emit _) _ _ => apply wp_wpe, wp_emit
  | |- wpe _ (ret _) _ _ => apply wp_wpe, wp_ret
  end; cbv beta.
Ltac wpe_steps := repeat wpe_step.
