(* ===== verification/Bitmap.v ===== *)
(** * Bitmap: fixed-size bit vectors over 32-bit chunks

    Models [src/common/Bitmap.h]: class [Bitmap] (the set of replicas whose
    message a certificate already holds) and its iterator [Bitmap::Iter].
    [th_assert] failures are [None].  The abstraction of a bitmap is the
    function [bit]; every operation is specified through it, and the
    chunk-skipping iterator is proved to enumerate exactly the set (or clear)
    indices in increasing order. *)

From S2P Require Import Prelude.
Local Open Scope Z_scope.

Module Bitmap.

Definition ChunkBits : Z := 32.
Definition wordsize : Z := 32.
Definition uint : Z := 32.

Record t := mk { num : Z; chunks : list Z; nc : Z }.

Definition ones : Z := 2 ^ wordsize - 1.

(** [Bitmap::Bitmap(Uint sz, bool value)] *)
Definition create (sz : Z) (value : bool) : t :=
  let n := (sz + ChunkBits - 1) / ChunkBits in
  mk sz (replicate (Z.to_nat n) (if value then ones else 0)) n.

Definition bitSelector (i : Z) : Z := wrapu wordsize (Z.shiftl 1 (i mod ChunkBits)).

Definition valBitSelector (i : Z) (val : bool) : Z :=
  wrapu wordsize (Z.shiftl (Z.b2z val) (i mod ChunkBits)).

Definition clear (b : t) : t := mk (num b) (replicate (Z.to_nat (nc b)) 0) (nc b).

Definition setAll (b : t) : t := mk (num b) (replicate (Z.to_nat (nc b)) ones) (nc b).

(** [chunks[i / ChunkBits]] *)
Definition chunk (b : t) (i : Z) : Z := default 0 (chunks b !! Z.to_nat (i / ChunkBits)).

Definition set_chunk (b : t) (i c : Z) : t :=
  mk (num b) (<[Z.to_nat (i / ChunkBits) := c]> (chunks b)) (nc b).

Definition test (b : t) (i : Z) : option bool :=
  if i <? num b then Some (negb (Z.land (chunk b i) (bitSelector i) =? 0)) else None.

Definition size (b : t) : Z := num b.

Definition set (b : t) (i : Z) : option t :=
  if i <? num b then Some (set_chunk b i (Z.lor (chunk b i) (bitSelector i))) else None.

(** [x & ~m] on unsigned long *)
Definition andnot (x m : Z) : Z := Z.land x (wrapu wordsize (Z.lnot m)).

Definition assign (b : t) (i : Z) (val : bool) : option t :=
  if i <? num b then
    let b1 := set_chunk b i (andnot (chunk b i) (bitSelector i)) in
    Some (set_chunk b1 i (Z.lor (chunk b1 i) (valBitSelector i val)))
  else None.

Definition reset (b : t) (i : Z) : option t :=
  if i <? num b then Some (set_chunk b i (andnot (chunk b i) (bitSelector i))) else None.

(** [for (Uint i = min; i < max; i++) f(i)] *)
Fixpoint range_loop (f : t -> Z -> option t) (b : t) (i : Z) (n : nat) : option t :=
  match n with
  | O => Some b
  | S n' => b' ← f b i; range_loop f b' (i + 1) n'
  end.

Definition setRange (b : t) (lo hi : Z) : option t :=
  if (lo <? num b) && (hi <? num b) then range_loop set b lo (Z.to_nat (hi - lo)) else None.

Definition resetRange (b : t) (lo hi : Z) : option t :=
  if (lo <? num b) && (hi <? num b) then range_loop reset b lo (Z.to_nat (hi - lo)) else None.

Fixpoint total_set_loop (b : t) (i : Z) (n : nat) (retval : Z) : option Z :=
  match n with
  | O => Some retval
  | S n' => v ← test b i;
            total_set_loop b (i + 1) n' (if (v : bool) then retval + 1 else retval)
  end.

Definition total_set (b : t) : option Z := total_set_loop b 0 (Z.to_nat (size b)) 0.

Definition all_zero (b : t) : bool := forallb (fun c => c =? 0) (chunks b).

(** [Bitmap::Iter]: the state is the next index; [ignoreValue] follows from
    the searched value. *)
Definition ignoreValue (v : bool) : Z := if v then 0 else ones.

(** [Bitmap::Iter::get]: [None] is an exhausted fuel, [Some (None, _)] the
    [false] result.  [index] is an [unsigned int]. *)
Fixpoint iter_get (fuel : nat) (b : t) (v : bool) (index : Z) : option (option Z * Z) :=
  match fuel with
  | O => None
  | S fuel' =>
    if index <? num b then
      if chunk b index =? ignoreValue v
      then iter_get fuel' b v (wrapu uint (index + ChunkBits))
      else
        this_value ← test b index;
        if Bool.eqb this_value v
        then Some (Some index, wrapu uint (index + 1))
        else iter_get fuel' b v (wrapu uint (index + 1))
    else Some (None, index)
  end.

(** The client loop [while (it.get(i)) ...], collecting the indices. *)
Fixpoint iter_all (fuel : nat) (b : t) (v : bool) (index : Z) : option (list Z) :=
  match fuel with
  | O => None
  | S fuel' =>
    '(r, index') ← iter_get (S (Z.to_nat (num b))) b v index;
    match r with
    | None => Some []
    | Some i => rest ← iter_all fuel' b v index'; Some (i :: rest)
    end
  end.

(** ** The representation invariant and the abstract view *)

Definition wf (b : t) : Prop :=
  0 <= num b < 2 ^ uint /\ nc b = (num b + ChunkBits - 1) / ChunkBits /\
  Z.of_nat (length (chunks b)) = nc b /\ Forall (in_u wordsize) (chunks b).

Definition bit (b : t) (i : Z) : bool := Z.testbit (chunk b i) (i mod ChunkBits).

Lemma bitSelector_eq i : bitSelector i = 2 ^ (i mod ChunkBits).
Proof.
  unfold bitSelector, wordsize, ChunkBits. rewrite Z.shiftl_1_l.
  pose proof (Z.mod_pos_bound i 32). apply wrapu_id. split; [lia|].
  apply Z.pow_lt_mono_r; lia.
Qed.

Lemma selector_bit i j :
  Z.testbit (bitSelector i) (j mod ChunkBits) = bool_decide (i mod ChunkBits = j mod ChunkBits).
Proof.
  rewrite bitSelector_eq. unfold ChunkBits.
  pose proof (Z.mod_pos_bound i 32). pose proof (Z.mod_pos_bound j 32).
  case_bool_decide as E.
  - rewrite E. apply Z.pow2_bits_true; lia.
  - apply Z.pow2_bits_false; lia.
Qed.

Lemma land_selector c i :
  negb (Z.land c (bitSelector i) =? 0) = Z.testbit c (i mod ChunkBits).
Proof.
  pose proof (Z.mod_pos_bound i 32). rewrite bitSelector_eq. unfold ChunkBits.
  destruct (Z.testbit c (i mod 32)) eqn:E.
  - apply negb_true_iff, Z.eqb_neq. intros H0.
    assert (Z.testbit (Z.land c (2 ^ (i mod 32))) (i mod 32) = true)
      by (rewrite Z.land_spec, E, Z.pow2_bits_true; [done|lia]).
    rewrite H0, Z.bits_0 in *. done.
  - apply negb_false_iff, Z.eqb_eq. apply Z.bits_inj'. intros n Hn.
    rewrite Z.land_spec, Z.bits_0, Z.pow2_bits_eqb by lia.
    destruct (Z.eqb_spec (i mod 32) n); subst; [rewrite E|]; by rewrite ?andb_false_r.
Qed.

(** Bits of [x & ~m], below the word size. *)
Lemma andnot_bit x m k : 0 <= k < wordsize ->
  Z.testbit (andnot x m) k = Z.testbit x k && negb (Z.testbit m k).
Proof.
  intros Hk. unfold andnot, wrapu. rewrite Z.land_spec, Z.mod_pow2_bits_low by lia.
  by rewrite Z.lnot_spec by lia.
Qed.

Lemma chunk_index_lt b i : wf b -> 0 <= i < num b ->
  (Z.to_nat (i / ChunkBits) < length (chunks b))%nat.
Proof.
  unfold wf, ChunkBits. intros (Hn & Hnc & Hl & _) Hi.
  assert (i / 32 < nc b); [|pose proof (Z.div_pos i 32); lia].
  rewrite Hnc. apply Z.div_lt_upper_bound; [lia|].
  pose proof (Z.div_mod (num b + 32 - 1) 32 ltac:(lia)).
  pose proof (Z.mod_pos_bound (num b + 32 - 1) 32 ltac:(lia)). lia.
Qed.

Lemma chunk_set_chunk b i j c : wf b -> 0 <= i < num b -> 0 <= j ->
  chunk (set_chunk b i c) j = if decide (i / ChunkBits = j / ChunkBits) then c else chunk b j.
Proof.
  intros Hwf Hi Hj. pose proof (chunk_index_lt b i Hwf Hi).
  unfold chunk, set_chunk, ChunkBits in *; simpl.
  pose proof (Z.div_pos i 32 ltac:(lia) ltac:(lia)).
  pose proof (Z.div_pos j 32 ltac:(lia) ltac:(lia)).
  case_decide as E.
  - rewrite E in *. by rewrite list_lookup_insert_eq by lia.
  - by rewrite list_lookup_insert_ne by lia.
Qed.

Lemma chunk_range b i : wf b -> in_u wordsize (chunk b i).
Proof.
  intros (_ & _ & _ & Hf). unfold chunk.
  destruct (chunks b !! _) eqn:E; simpl.
  - by apply (Forall_lookup_1 _ _ _ _ Hf E).
  - unfold in_u, wordsize. lia.
Qed.

Lemma set_chunk_wf b i c : wf b -> in_u wordsize c -> wf (set_chunk b i c).
Proof.
  intros (Hn & Hnc & Hl & Hf) Hc. repeat split; simpl; try done; try lia.
  - by rewrite length_insert.
  - by apply Forall_insert.
Qed.

(** A word operation computed bit by bit stays in range. *)
Lemma in_u_bits w x : 0 <= w -> 0 <= x -> (forall k, w <= k -> Z.testbit x k = false) -> in_u w x.
Proof.
  intros Hw Hx Hb. split; [done|].
  destruct (decide (x = 0)) as [->|]; [apply Z.pow_pos_nonneg; lia|].
  apply Z.log2_lt_pow2; [lia|].
  destruct (decide (Z.log2 x < w)); [done|].
  pose proof (Z.bit_log2 x ltac:(lia)). rewrite Hb in *; [done|lia].
Qed.

Lemma in_u_bit w x k : 0 <= w -> in_u w x -> w <= k -> Z.testbit x k = false.
Proof.
  intros Hw [H0 H1] Hk. destruct (decide (x = 0)) as [->|]; [apply Z.bits_0|].
  apply Z.bits_above_log2; [lia|].
  assert (Z.log2 x < w) by (apply Z.log2_lt_pow2; lia). lia.
Qed.

Lemma selector_range i : in_u wordsize (bitSelector i).
Proof. by apply wrapu_range. Qed.

Lemma lor_range x y : in_u wordsize x -> in_u wordsize y -> in_u wordsize (Z.lor x y).
Proof.
  unfold wordsize. intros Hx Hy. apply in_u_bits; [lia| |].
  - apply Z.lor_nonneg. split; [apply Hx|apply Hy].
  - intros k Hk. rewrite Z.lor_spec. by rewrite !(in_u_bit 32) by (lia || done).
Qed.

Lemma andnot_range x m : in_u wordsize x -> in_u wordsize (andnot x m).
Proof.
  unfold wordsize. intros Hx. apply in_u_bits; [lia| |].
  - apply Z.land_nonneg. left. apply Hx.
  - intros k Hk. unfold andnot. rewrite Z.land_spec. by rewrite (in_u_bit 32 x) by (lia || done).
Qed.

#[local] Hint Resolve selector_range lor_range andnot_range chunk_range : core.

Lemma index_split i j : i / ChunkBits = j / ChunkBits -> i mod ChunkBits = j mod ChunkBits -> i = j.
Proof.
  unfold ChunkBits. intros Hd Hm.
  rewrite (Z.div_mod i 32), (Z.div_mod j 32) by lia. lia.
Qed.

(** The effect on the abstract view of overwriting the chunk of [i]. *)
Lemma bit_set_chunk b i j c : wf b -> 0 <= i < num b -> 0 <= j ->
  bit (set_chunk b i c) j =
  if decide (i / ChunkBits = j / ChunkBits) then Z.testbit c (j mod ChunkBits) else bit b j.
Proof.
  intros. unfold bit. rewrite chunk_set_chunk by done. by case_decide.
Qed.

Lemma test_spec b i : i < num b -> test b i = Some (bit b i).
Proof.
  intros Hi. unfold test. rewrite (proj2 (Z.ltb_lt _ _)) by done.
  by rewrite land_selector.
Qed.

Lemma set_spec b i : wf b -> 0 <= i < num b ->
  exists b', set b i = Some b' /\ wf b' /\ num b' = num b /\
    forall j, 0 <= j -> bit b' j = bool_decide (i = j) || bit b j.
Proof.
  intros Hwf Hi. unfold set. rewrite (proj2 (Z.ltb_lt _ _)) by lia.
  eexists; split; [done|]. split; [auto using set_chunk_wf|]. split; [done|].
  intros j Hj. rewrite bit_set_chunk by done. case_decide as E.
  - rewrite Z.lor_spec, selector_bit, orb_comm. unfold bit, chunk. rewrite E.
    f_equal. apply bool_decide_ext. split; [eauto using index_split|by intros ->].
  - rewrite bool_decide_eq_false_2; [done|congruence].
Qed.

Lemma reset_spec b i : wf b -> 0 <= i < num b ->
  exists b', reset b i = Some b' /\ wf b' /\ num b' = num b /\
    forall j, 0 <= j -> bit b' j = negb (bool_decide (i = j)) && bit b j.
Proof.
  intros Hwf Hi. unfold reset. rewrite (proj2 (Z.ltb_lt _ _)) by lia.
  eexists; split; [done|]. split; [auto using set_chunk_wf|]. split; [done|].
  intros j Hj. rewrite bit_set_chunk by done.
  pose proof (Z.mod_pos_bound j 32 ltac:(lia)). case_decide as E.
  - rewrite andnot_bit by done. rewrite selector_bit, andb_comm. unfold bit, chunk. rewrite E.
    do 2 f_equal. apply bool_decide_ext. split; [eauto using index_split|by intros ->].
  - rewrite bool_decide_eq_false_2; [done|congruence].
Qed.

Lemma assign_spec b i v : wf b -> 0 <= i < num b ->
  exists b', assign b i v = Some b' /\ wf b' /\ num b' = num b /\
    forall j, 0 <= j -> bit b' j = if decide (i = j) then v else bit b j.
Proof.
  intros Hwf Hi. destruct (reset_spec b i Hwf Hi) as (b1 & Hr & Hwf1 & Hn1 & Hb1).
  unfold reset in Hr. unfold assign. rewrite (proj2 (Z.ltb_lt _ _)) in * by lia.
  injection Hr as <-. simpl in Hn1.
  eexists; split; [done|]. split; [|split; [done|]].
  { apply set_chunk_wf, lor_range; auto. by apply wrapu_range. }
  intros j Hj. rewrite bit_set_chunk by done. case_decide as E.
  - rewrite Z.lor_spec. specialize (Hb1 j Hj).
    assert (Hc : Z.testbit (chunk (set_chunk b i (andnot (chunk b i) (bitSelector i))) i)
                   (j mod ChunkBits) = negb (bool_decide (i = j)) && bit b j).
    { rewrite <- Hb1. unfold bit, chunk. by rewrite E. }
    rewrite Hc. destruct v.
    + change (valBitSelector i true) with (bitSelector i). rewrite selector_bit.
      rewrite (bool_decide_ext (i mod ChunkBits = j mod ChunkBits) (i = j));
        [|split; [eauto using index_split|by intros ->]].
      case_bool_decide; case_decide; try done; simpl; by rewrite ?orb_false_r.
    + replace (valBitSelector i false) with 0.
      2:{ unfold valBitSelector. by rewrite Z.shiftl_0_l. }
      rewrite Z.bits_0, orb_false_r. case_bool_decide; by case_decide.
  - rewrite Hb1 by done. rewrite bool_decide_eq_false_2 by congruence. by case_decide; subst.
Qed.

(** ** Range operations *)

(** Running a per-index operation with an abstract effect over a range. *)
Lemma range_loop_spec f (g : bool -> bool) n b lo :
  (forall b i, wf b -> 0 <= i < num b -> exists b', f b i = Some b' /\ wf b' /\ num b' = num b /\
     forall j, 0 <= j -> bit b' j = if decide (i = j) then g (bit b j) else bit b j) ->
  wf b -> 0 <= lo -> lo + Z.of_nat n <= num b ->
  exists b', range_loop f b lo n = Some b' /\ wf b' /\ num b' = num b /\
    forall j, 0 <= j ->
      bit b' j = if decide (lo <= j < lo + Z.of_nat n) then g (bit b j) else bit b j.
Proof.
  intros Hf. revert b lo. induction n as [|n IH]; intros b lo Hwf Hlo Hhi; simpl.
  - exists b. repeat split; try done; try apply Hwf. intros. by rewrite decide_False by lia.
  - destruct (Hf b lo Hwf ltac:(lia)) as (b1 & -> & Hwf1 & Hn1 & Hb1). simpl.
    destruct (IH b1 (lo + 1) Hwf1 ltac:(lia) ltac:(lia)) as (b2 & -> & Hwf2 & Hn2 & Hb2).
    exists b2. repeat split; try apply Hwf2; try congruence.
    intros j Hj. rewrite Hb2, Hb1 by done.
    repeat case_decide; try done; try lia.
Qed.

(** [set] and [reset] in the shape [range_loop_spec] wants. *)
Lemma set_spec' b i : wf b -> 0 <= i < num b ->
  exists b', set b i = Some b' /\ wf b' /\ num b' = num b /\
    forall j, 0 <= j -> bit b' j = if decide (i = j) then true else bit b j.
Proof.
  intros Hwf Hi. destruct (set_spec b i Hwf Hi) as (b' & ? & ? & ? & Hb).
  exists b'. repeat (split; [done|]). intros j Hj. rewrite Hb by done.
  case_bool_decide; by case_decide.
Qed.

Lemma reset_spec' b i : wf b -> 0 <= i < num b ->
  exists b', reset b i = Some b' /\ wf b' /\ num b' = num b /\
    forall j, 0 <= j -> bit b' j = if decide (i = j) then false else bit b j.
Proof.
  intros Hwf Hi. destruct (reset_spec b i Hwf Hi) as (b' & ? & ? & ? & Hb).
  exists b'. repeat (split; [done|]). intros j Hj. rewrite Hb by done.
  case_bool_decide; by case_decide.
Qed.

Lemma setRange_spec b lo hi : wf b -> 0 <= lo < num b -> lo <= hi < num b ->
  exists b', setRange b lo hi = Some b' /\ wf b' /\ num b' = num b /\
    forall j, 0 <= j -> bit b' j = if decide (lo <= j < hi) then true else bit b j.
Proof.
  intros Hwf Hlo Hhi. unfold setRange.
  rewrite (proj2 (Z.ltb_lt lo _)), (proj2 (Z.ltb_lt hi _)) by lia. simpl.
  destruct (range_loop_spec set (fun _ => true) (Z.to_nat (hi - lo)) b lo set_spec' Hwf)
    as (b' & ? & ? & ? & Hb); try lia.
  exists b'. repeat (split; [done|]). intros j Hj. rewrite Hb by done.
  repeat case_decide; try done; lia.
Qed.

Lemma resetRange_spec b lo hi : wf b -> 0 <= lo < num b -> lo <= hi < num b ->
  exists b', resetRange b lo hi = Some b' /\ wf b' /\ num b' = num b /\
    forall j, 0 <= j -> bit b' j = if decide (lo <= j < hi) then false else bit b j.
Proof.
  intros Hwf Hlo Hhi. unfold resetRange.
  rewrite (proj2 (Z.ltb_lt lo _)), (proj2 (Z.ltb_lt hi _)) by lia. simpl.
  destruct (range_loop_spec reset (fun _ => false) (Z.to_nat (hi - lo)) b lo reset_spec' Hwf)
    as (b' & ? & ? & ? & Hb); try lia.
  exists b'. repeat (split; [done|]). intros j Hj. rewrite Hb by done.
  repeat case_decide; try done; lia.
Qed.

(** ** Counting and iterating *)

(** The indices of [lo, lo + n) whose bit equals [v]. *)
Definition indices (b : t) (v : bool) (lo : Z) (n : nat) : list Z :=
  filter (fun i => bit b i = v) (seqZ lo (Z.of_nat n)).

Lemma indices_cons b v lo n :
  indices b v lo (S n) =
  if decide (bit b lo = v) then lo :: indices b v (lo + 1) n else indices b v (lo + 1) n.
Proof.
  unfold indices. rewrite seqZ_cons by lia. simpl.
  replace (Z.succ lo) with (lo + 1) by lia.
  replace (Z.pred (Z.of_nat (S n))) with (Z.of_nat n) by lia.
  rewrite filter_cons. by case_decide.
Qed.

Lemma total_set_loop_spec b n lo r : lo + Z.of_nat n <= num b ->
  total_set_loop b lo n r = Some (r + Z.of_nat (length (indices b true lo n))).
Proof.
  revert lo r. induction n as [|n IH]; intros lo r Hb; simpl.
  - f_equal. unfold indices. simpl. lia.
  - rewrite test_spec by lia. simpl. rewrite IH by lia. rewrite indices_cons.
    f_equal. destruct (bit b lo) eqn:E; case_decide; simplify_eq/=; lia.
Qed.

Lemma total_set_spec b : wf b ->
  total_set b = Some (Z.of_nat (length (indices b true 0 (Z.to_nat (num b))))).
Proof. intros ((? & ?) & _). unfold total_set, size. by rewrite total_set_loop_spec by lia. Qed.

Lemma create_wf sz v : 0 <= sz < 2 ^ uint -> wf (create sz v).
Proof.
  intros Hsz. repeat split; simpl; try lia.
  - rewrite length_replicate. rewrite Z2Nat.id; [done|]. apply Z.div_pos; unfold ChunkBits; lia.
  - apply Forall_replicate. destruct v; unfold in_u, ones, wordsize; lia.
Qed.

Lemma create_bit sz v i : 0 <= sz < 2 ^ uint -> 0 <= i < sz -> bit (create sz v) i = v.
Proof.
  intros Hsz Hi. pose proof (chunk_index_lt _ i (create_wf sz v Hsz) Hi) as Hl.
  simpl in Hl. rewrite length_replicate in Hl. unfold bit, chunk. simpl.
  rewrite lookup_replicate_2 by done. simpl.
  pose proof (Z.mod_pos_bound i ChunkBits ltac:(done)).
  destruct v; [|apply Z.bits_0]. unfold ones, wordsize.
  replace (2 ^ 32 - 1) with (Z.ones 32) by done.
  apply Z.ones_spec_low. unfold ChunkBits in *. lia.
Qed.

(** In a chunk equal to [ignoreValue v] no bit has the value [v]. *)
Lemma ignored_chunk b v i j : chunk b i = ignoreValue v -> i / ChunkBits = j / ChunkBits ->
  bit b j <> v.
Proof.
  intros Hc E. unfold bit. replace (chunk b j) with (chunk b i) by (unfold chunk; by rewrite E).
  rewrite Hc. pose proof (Z.mod_pos_bound j ChunkBits ltac:(done)).
  destruct v; simpl; [by rewrite Z.bits_0|].
  replace ones with (Z.ones 32) by done. unfold ChunkBits in *.
  by rewrite Z.ones_spec_low by lia.
Qed.

Lemma indices_skip b v lo k n :
  (forall j, lo <= j < lo + Z.of_nat k -> bit b j <> v) ->
  indices b v lo n = indices b v (lo + Z.of_nat k) (n - k).
Proof.
  revert lo n. induction k as [|k IH]; intros lo n Hno.
  - by rewrite Z.add_0_r, Nat.sub_0_r.
  - destruct n as [|n]; [done|]. rewrite indices_cons.
    rewrite decide_False by (apply Hno; lia). rewrite IH by (intros; apply Hno; lia).
    f_equal. lia.
Qed.

(** The iterator is only ever inside a chunk that holds a searched value: it
    enters every chunk at its first index. *)
Definition aligned (b : t) (v : bool) (i : Z) : Prop :=
  chunk b i = ignoreValue v -> i mod ChunkBits = 0.

Lemma aligned_next b v i : 0 <= i -> chunk b i <> ignoreValue v -> aligned b v (i + 1).
Proof.
  intros Hi Hc Hn. destruct (decide ((i + 1) / ChunkBits = i / ChunkBits)) as [E|E].
  - exfalso. apply Hc. unfold chunk in *. by rewrite <- E.
  - unfold ChunkBits in *.
    pose proof (Z.div_mod i 32 ltac:(lia)). pose proof (Z.div_mod (i + 1) 32 ltac:(lia)).
    pose proof (Z.mod_pos_bound i 32 ltac:(lia)). pose proof (Z.mod_pos_bound (i + 1) 32 ltac:(lia)).
    lia.
Qed.

(** One call of [get]: the first remaining index, if any; [get] always returns. *)
Lemma iter_get_spec b v m index fuel :
  wf b -> num b <= 2 ^ uint - ChunkBits -> 0 <= index < 2 ^ uint -> aligned b v index ->
  m = Z.to_nat (num b - index) -> (m < fuel)%nat ->
  match indices b v index m with
  | [] => exists e, num b <= e /\ iter_get fuel b v index = Some (None, e)
  | i :: _ => iter_get fuel b v index = Some (Some i, i + 1) /\
              index <= i < num b /\ aligned b v (i + 1) /\
              indices b v index m = i :: indices b v (i + 1) (Z.to_nat (num b - (i + 1)))
  end.
Proof.
  intros Hwf Hnum. revert index fuel.
  induction m as [m IH] using lt_wf_ind. intros index fuel Hi Hal Hm Hfuel.
  destruct fuel as [|fuel]; [lia|].
  simpl iter_get. unfold uint, ChunkBits in *. destruct (Z.ltb_spec index (num b)) as [Hlt|Hge].
  2:{ replace m with O by lia. exists index. done. }
  destruct (Z.eqb_spec (chunk b index) (ignoreValue v)) as [Hc|Hc].
  - specialize (Hal Hc). unfold ChunkBits in *.
    assert (Hno : forall j, index <= j < index + Z.of_nat 32 -> bit b j <> v).
    { intros j Hj. eapply ignored_chunk; [done|]. unfold ChunkBits.
      apply Z.div_unique with (j - index); [lia|].
      pose proof (Z.div_mod index 32 ltac:(lia)). lia. }
    rewrite (indices_skip _ _ _ 32 m Hno). change (Z.of_nat 32) with 32.
    rewrite wrapu_id by (split; lia).
    specialize (IH (m - 32)%nat ltac:(lia) (index + 32) fuel ltac:(lia)).
    destruct (indices b v (index + 32) (m - 32)) as [|i r] eqn:E.
    + apply IH; try lia. intros _. unfold ChunkBits.
      replace (index + 32) with (index + 1 * 32) by lia. by rewrite Z.mod_add by lia.
    + destruct IH as (-> & ? & ? & ?); try lia.
      { intros _. unfold ChunkBits.
        replace (index + 32) with (index + 1 * 32) by lia. by rewrite Z.mod_add by lia. }
      repeat split; try done; lia.
  - rewrite test_spec by done. simpl. rewrite wrapu_id by (split; lia).
    destruct m as [|m]; [lia|]. rewrite indices_cons.
    pose proof (aligned_next b v index ltac:(lia) Hc).
    case_decide as Hb.
    + rewrite Hb, Bool.eqb_reflx. repeat split; try done; try lia.
      do 2 f_equal. lia.
    + assert (Bool.eqb (bit b index) v = false) as -> by (by apply Bool.eqb_false_iff).
      specialize (IH m ltac:(lia) (index + 1) fuel ltac:(lia) ltac:(done) ltac:(lia) ltac:(lia)).
      destruct (indices b v (index + 1) m) as [|i r]; [done|].
      destruct IH as (-> & ? & ? & ?). repeat split; try done; lia.
Qed.

Lemma iter_all_from b v m index fuel :
  wf b -> num b <= 2 ^ uint - ChunkBits -> 0 <= index < 2 ^ uint -> aligned b v index ->
  m = Z.to_nat (num b - index) -> (m < fuel)%nat ->
  iter_all fuel b v index = Some (indices b v index m).
Proof.
  intros Hwf Hnum. revert index fuel.
  induction m as [m IH] using lt_wf_ind. intros index fuel Hi Hal Hm Hfuel.
  destruct fuel as [|fuel]; [lia|]. cbn [iter_all].
  pose proof (iter_get_spec b v m index (S (Z.to_nat (num b))) Hwf Hnum Hi Hal Hm ltac:(lia)) as Hg.
  destruct (indices b v index m) as [|i r] eqn:E.
  - destruct Hg as (e & He & ->). done.
  - destruct Hg as (-> & Hi' & Hal' & ->). cbn [mbind option_bind].
    rewrite (IH (Z.to_nat (num b - (i + 1)))); try done; try lia.
    unfold uint, ChunkBits in *. lia.
Qed.

(** Iterating from a fresh [Iter] terminates and yields exactly the indices
    whose bit is [v], in increasing order. *)
Theorem iter_all_spec b v :
  wf b -> num b <= 2 ^ uint - ChunkBits ->
  iter_all (S (Z.to_nat (num b))) b v 0 = Some (filter (fun i => bit b i = v) (seqZ 0 (num b))).
Proof.
  intros Hwf Hnum. pose proof Hwf as ((? & ?) & _).
  rewrite (iter_all_from b v (Z.to_nat (num b))); try done; try lia.
  unfold indices. by rewrite Z2Nat.id by lia.
Qed.

Definition ex_bitmap : option t := b ← set (create 130 false) 3; b ← set b 32; set b 129.

Lemma iter_all_spec_witness :
  exists b, ex_bitmap = Some b /\ iter_all (S (Z.to_nat (num b))) b true 0 = Some [3; 32; 129].
Proof.
  eexists. split; [vm_compute; reflexivity|].
  rewrite iter_all_spec; [vm_compute; reflexivity| |vm_compute; congruence].
  repeat split; try done. repeat constructor; unfold in_u, wordsize; lia.
Defined.

End Bitmap.
