(* ===== verification/ReqHistory.v ===== *)
(** * Request histories

    Models [src/protocols/common/DSum.{h,cc}] (AdHash sums of digests) and
    [src/protocols/common/Request_history.h] (classes [Rh_entry] and
    [Req_history_log], the log of executed requests every Abstract instance
    keeps).  The request class of the template is the type class [AReq]; MD5
    and the modulus are section variables.  Pointers to requests are options:
    [None] is [NULL].  The main results: [DSum::add] is addition modulo [M],
    the history digest is a function of the multiset of requests only, and the
    in-place [truncate_history] is [drop] on the reference list. *)

From Stdlib Require Import Sorted.
From S2P Require Import Prelude.
Local Open Scope Z_scope.

(** What [Req_history_log] asks of its request class. *)
Class AReq (R : Type) := {
  client_id : R -> Z;
  request_id : R -> Z;
  req_digest : R -> Z
}.

Module DSum.

Definition nbits : Z := 256.
Definition digest_bits : Z := 128.
Definition limb_bits : Z := 32.
Definition dlimbs : Z := 4.

(** [mpn_add] returns the carry, [th_assert(ret == 0)] refuses it: [None]. *)
Definition add (M sum d : Z) : option Z :=
  let s := sum + d in
  if 2 ^ nbits <=? s then None
  else Some (if M <=? s then s - M else s).

(** [sub]: [gt] tells whether a limb above the digest is non-zero; the
    comparison reads the [dlimbs] limbs of [sum] from [dlimbs - 1] on. *)
Definition sub (M sum d : Z) : option Z :=
  let gt := negb (Z.shiftr sum digest_bits =? 0) in
  let window := wrapu digest_bits (Z.shiftr sum ((dlimbs - 1) * limb_bits)) in
  let sum1 := if negb gt && (window <? d) then sum + M else sum in
  if 2 ^ nbits <=? sum1 then None
  else if sum1 <? d then None
  else Some (sum1 - d).

Lemma add_mod M sum d : 0 < M < 2 ^ (nbits - 1) -> 0 <= sum < M -> 0 <= d < M ->
  add M sum d = Some ((sum + d) mod M).
Proof.
  unfold add, nbits. intros HM Hs Hd.
  destruct (Z.leb_spec (2 ^ 256) (sum + d)).
  { assert (2 ^ 256 = 2 * 2 ^ (256 - 1)) by (rewrite <- Z.pow_succ_r by lia; f_equal; lia). lia. }
  f_equal. destruct (Z.leb_spec M (sum + d)).
  - apply Z.mod_unique with 1; lia.
  - symmetry. apply Z.mod_small. lia.
Qed.

(** Summing a list of digests. *)
Fixpoint add_all (M sum : Z) (ds : list Z) : option Z :=
  match ds with
  | [] => Some sum
  | d :: ds' => s ← add M sum d; add_all M s ds'
  end.

Lemma add_all_mod M ds : 0 < M < 2 ^ (nbits - 1) -> Forall (fun d => 0 <= d < M) ds ->
  forall sum, 0 <= sum < M -> add_all M sum ds = Some ((sum + foldr Z.add 0 ds) mod M).
Proof.
  intros HM Hds. induction Hds as [|d ds Hd Hds IH]; intros sum Hs; simpl.
  - by rewrite Z.add_0_r, Z.mod_small by lia.
  - rewrite add_mod by done. simpl. rewrite IH by (apply Z.mod_pos_bound; lia).
    by rewrite Z.add_mod_idemp_l, Z.add_assoc by lia.
Qed.

(** [sub] computes the right class modulo [M], but not the representative:
    when the high half of the digest-sized sum is below [d], [M] is added even
    though [sum >= d]. *)
Lemma sub_congr M sum d r : 0 < M -> sub M sum d = Some r -> r mod M = (sum - d) mod M.
Proof.
  unfold sub. intros HM Hr. repeat case_bool; simplify_eq; try done.
  replace (sum + M - d) with (sum - d + 1 * M) by lia. by rewrite Z.mod_add by lia.
Qed.

End DSum.

Module ReqHistory.
Section history.
Context {R : Type} `{AReq R}.

Record Rh_entry := mk_entry { req : option R; seq : Z; d_h : Z }.

(** [rh] is the array, [rh_d] the AdHash sum, of a history whose modulus
    ([my_dsum]) is [M]. *)
Record t := mk { rh : list Rh_entry; rh_d : Z }.

Context (M : Z) (MD5 : Z -> Z).

Definition TRUNCATE_SIZE : Z := 1024.
Definition MAX_NB_REQS_CHKPT : Z := 256.

Definition empty : t := mk [] 0.

Definition size (l : t) : Z := Z.of_nat (length (rh l)).

Definition rh_digest (l : t) : Z := MD5 (rh_d l).

Definition get_top_seqno (l : t) : Z :=
  match last (rh l) with None => 0 | Some e => seq e end.

(** Returns the log and the digest written through the reference [d]. *)
Definition add_request (l : t) (r : R) (s : Z) : option (t * Z) :=
  sum ← DSum.add M (rh_d l) (req_digest r);
  let d := MD5 sum in
  Some (mk (rh l ++ [mk_entry (Some r) s d]) sum, d).

(** [for (i = 0; i < rh.size(); i++) if (rh[i].seqno() == seq) ...] *)
Fixpoint find_seq (l : list Rh_entry) (s : Z) : option nat :=
  match l with
  | [] => None
  | e :: l' => if seq e =? s then Some O else S <$> find_seq l' s
  end.

Definition nullify (e : Rh_entry) : Rh_entry := mk_entry None 0 (d_h e).

(** A loop writing [f (l[i + off])] into [l[i]] for [n] indices from [i]. *)
Fixpoint write_loop (f : Rh_entry -> Rh_entry) (off i n : nat) (l : list Rh_entry)
    : list Rh_entry :=
  match n with
  | O => l
  | S n' =>
    match l !! (i + off)%nat with
    | Some e => write_loop f off (S i) n' (<[i := f e]> l)
    | None => l
    end
  end.

(** The requests the first loop deletes. *)
Definition deleted (l : list Rh_entry) : list R :=
  omap (fun e => match req e with
                 | Some r => if seq e =? 0 then None else Some r
                 | None => None end) l.

(** [truncate_history(seq)]: the log, the returned flag and the requests freed. *)
Definition truncate_history (l : t) (s : Z) : t * bool * list R :=
  match find_seq (rh l) s with
  | None => (l, false, [])
  | Some pos =>
    let sz := length (rh l) in
    let freed := deleted (take (S pos) (rh l)) in
    let a := write_loop nullify 0 0 (S pos) (rh l) in
    let a := write_loop id (S pos) 0 (sz - S pos) a in
    let a := write_loop nullify 0 (sz - pos) pos a in
    (mk (take (sz - pos - 1) a) (rh_d l), true, freed)
  end.

Definition should_checkpoint (l : t) : bool :=
  negb (size l =? 0) && (size l mod TRUNCATE_SIZE =? 0).

Definition max_nb_requests_while_checkpointing : Z := MAX_NB_REQS_CHKPT.

Definition entry_is (cid rid : Z) (e : Rh_entry) : bool :=
  match req e with
  | Some r => (client_id r =? cid) && (request_id r =? rid)
  | None => false
  end.

Definition find (l : t) (cid rid : Z) : option Rh_entry := List.find (entry_is cid rid) (rh l).

(** ** The digest of a history *)

(** A history built by [add_request] alone, in order. *)
Fixpoint add_requests (l : t) (rs : list (R * Z)) : option t :=
  match rs with
  | [] => Some l
  | (r, s) :: rs' => '(l', _) ← add_request l r s; add_requests l' rs'
  end.

Lemma add_requests_sum rs : forall l l', add_requests l rs = Some l' ->
  DSum.add_all M (rh_d l) (req_digest ∘ fst <$> rs) = Some (rh_d l').
Proof.
  induction rs as [|[r s] rs IH]; intros l l' Hl; simpl in *; [congruence|].
  unfold add_request in Hl. destruct (DSum.add M (rh_d l) _) as [x|]; simplify_eq/=.
  by apply IH in Hl.
Qed.

Lemma foldr_add_perm (l1 l2 : list Z) : l1 ≡ₚ l2 -> foldr Z.add 0 l1 = foldr Z.add 0 l2.
Proof. induction 1; simpl; lia. Qed.

Hypothesis M_bound : 0 < M < 2 ^ (DSum.nbits - 1).

(** Two histories of the same requests in any two orders have the same
    digest: the AdHash sum forgets the order. *)
Theorem digest_permutation rs1 rs2 l1 l2 :
  Forall (fun x => 0 <= req_digest x.1 < M) rs1 ->
  rs1.*1 ≡ₚ rs2.*1 ->
  add_requests empty rs1 = Some l1 -> add_requests empty rs2 = Some l2 ->
  rh_digest l1 = rh_digest l2.
Proof.
  intros Hd Hp H1 H2. unfold rh_digest. f_equal.
  apply add_requests_sum in H1, H2. simpl in *.
  rewrite list_fmap_compose in H1, H2.
  rewrite DSum.add_all_mod in H1, H2; try done; try lia.
  - rewrite (foldr_add_perm _ (req_digest <$> rs2.*1)) in H1 by (by rewrite Hp). congruence.
  - rewrite <- Hp. rewrite Forall_fmap, Forall_fmap. done.
  - rewrite Forall_fmap, Forall_fmap. done.
Qed.

(** ** In-place truncation is [drop] *)

Lemma find_seq_spec l s :
  match find_seq l s with
  | Some pos => (exists e, l !! pos = Some e /\ seq e = s) /\
                forall i e, (i < pos)%nat -> l !! i = Some e -> seq e <> s
  | None => forall i e, l !! i = Some e -> seq e <> s
  end.
Proof.
  induction l as [|e l IH]; simpl; [done|].
  destruct (Z.eqb_spec (seq e) s) as [E|E].
  - split; [by exists e|]. lia.
  - destruct (find_seq l s) as [pos|]; simpl.
    + destruct IH as [(e' & ? & ?) IH]. split; [by exists e'|].
      intros [|i] e'' Hi; simpl; intros; simplify_eq; [done|]. eapply IH; [|done]. lia.
    + intros [|i] e'' Hi; simplify_eq/=; eauto.
Qed.

Lemma write_loop_length f off n : forall i l, length (write_loop f off i n l) = length l.
Proof.
  induction n as [|n IH]; intros i l; simpl; [done|].
  destruct (l !! _); [|done]. by rewrite IH, length_insert.
Qed.

(** A forward copy reads each source cell before overwriting it. *)
Lemma write_loop_lookup f off n : forall i l j,
  (i + off + n <= length l)%nat ->
  write_loop f off i n l !! j =
  if decide (i <= j < i + n)%nat then f <$> l !! (j + off)%nat else l !! j.
Proof.
  induction n as [|n IH]; intros i l j Hl; simpl.
  - by rewrite decide_False by lia.
  - destruct (lookup_lt_is_Some_2 l (i + off)) as [e He]; [lia|]. rewrite He.
    rewrite IH by (rewrite length_insert; lia).
    destruct (decide (j = i)) as [->|Hne].
    + rewrite decide_False by lia. rewrite decide_True by lia.
      rewrite list_lookup_insert_eq by lia. by rewrite He.
    + destruct (decide (S i <= j < S i + n)%nat).
      * rewrite decide_True by lia. rewrite list_lookup_insert_ne; [done|lia].
      * rewrite decide_False by lia. by rewrite list_lookup_insert_ne.
Qed.

Lemma truncate_array_drop l pos : (pos < length l)%nat ->
  let a := write_loop nullify 0 0 (S pos) l in
  let a := write_loop id (S pos) 0 (length l - S pos) a in
  let a := write_loop nullify 0 (length l - pos) pos a in
  take (length l - pos - 1) a = drop (S pos) l.
Proof.
  intros Hpos a1 a2 a3. apply list_eq. intros j.
  destruct (decide (j < length l - S pos)%nat) as [Hj|Hj].
  - rewrite lookup_take_lt by lia. rewrite lookup_drop. subst a3.
    rewrite write_loop_lookup by (unfold a2, a1; rewrite !write_loop_length; lia).
    rewrite decide_False by lia. subst a2.
    rewrite write_loop_lookup by (unfold a1; rewrite !write_loop_length; lia).
    rewrite decide_True by lia. subst a1.
    rewrite write_loop_lookup by lia. rewrite decide_False by lia.
    rewrite option_fmap_id. f_equal. lia.
  - rewrite (proj2 (lookup_ge_None _ j)).
    + symmetry. apply lookup_ge_None. rewrite length_drop. lia.
    + rewrite length_take. subst a3 a2 a1. rewrite !write_loop_length. lia.
Qed.

(** [truncate_history] returns false and changes nothing when no entry has the
    sequence number, and otherwise removes exactly the entries up to the first
    one that has it; the running digest is kept. *)
Lemma truncate_history_spec l s :
  match find_seq (rh l) s with
  | None => truncate_history l s = (l, false, [])
  | Some pos =>
    truncate_history l s =
    (mk (drop (S pos) (rh l)) (rh_d l), true, deleted (take (S pos) (rh l)))
  end.
Proof.
  unfold truncate_history. pose proof (find_seq_spec (rh l) s) as Hf.
  destruct (find_seq (rh l) s) as [pos|]; [|done].
  destruct Hf as [(e & He & _) _]. apply lookup_lt_Some in He.
  by rewrite (truncate_array_drop _ _ He).
Qed.

Lemma filter_all {A} (P : A -> Prop) `{forall x, Decision (P x)} (l : list A) :
  Forall P l -> filter P l = l.
Proof. induction 1; [done|]. rewrite filter_cons, decide_True by done. by f_equal. Qed.

Lemma sorted_lookup (l : list Rh_entry) i j a b : StronglySorted (fun x y => seq x < seq y) l ->
  (i < j)%nat -> l !! i = Some a -> l !! j = Some b -> seq a < seq b.
Proof.
  intros Hs. revert i j. induction Hs as [|x l Hs IH Hx]; intros i j Hij Ha Hb; [done|].
  destruct i as [|i], j as [|j]; simplify_eq/=; try lia.
  - by eapply (Forall_lookup_1 _ _ _ _ Hx).
  - eapply (IH i j); [lia|done..].
Qed.

(** C23. Truncating at a checkpoint's number: in a history whose numbers
    increase, exactly the entries above the number stay, in order, and the
    running digest is kept; a number not in the history changes nothing. *)
Theorem truncate_keeps_above l s : StronglySorted (fun a b => seq a < seq b) (rh l) ->
  rh_d (truncate_history l s).1.1 = rh_d l /\
  rh (truncate_history l s).1.1 =
    if decide (s ∈ seq <$> rh l) then filter (fun e => s < seq e) (rh l) else rh l.
Proof.
  intros Hs. pose proof (truncate_history_spec l s) as Ht. pose proof (find_seq_spec (rh l) s) as Hf.
  destruct (find_seq (rh l) s) as [pos|]; rewrite Ht; simpl; (split; [done|]).
  - destruct Hf as [(e & He & Hes) _].
    rewrite decide_True by (apply list_elem_of_fmap; exists e; split; [done|by eapply list_elem_of_lookup_2]).
    rewrite <- (take_drop (S pos) (rh l)) at 2. rewrite filter_app.
    rewrite filter_none, filter_all; [done|..].
    + apply Forall_lookup. intros i a Ha. rewrite lookup_drop in Ha.
      rewrite <- Hes. eapply (sorted_lookup _ pos (S pos + i)); [done|lia|done..].
    + intros x Hx. apply list_elem_of_lookup in Hx as [i Hi].
      apply lookup_take_Some in Hi as [Hi Hlt].
      destruct (decide (i = pos)) as [->|]; [simplify_eq; lia|].
      pose proof (sorted_lookup _ i pos _ _ Hs ltac:(lia) Hi He). lia.
  - rewrite decide_False; [done|]. intros (e & -> & He)%list_elem_of_fmap.
    apply list_elem_of_lookup in He as [i Hi]. by eapply Hf.
Qed.

Lemma find_spec l cid rid :
  match find l cid rid with
  | Some e => e ∈ rh l /\ exists r, req e = Some r /\ client_id r = cid /\ request_id r = rid
  | None => forall e r, e ∈ rh l -> req e = Some r -> ~ (client_id r = cid /\ request_id r = rid)
  end.
Proof.
  unfold find. destruct (List.find _ _) as [e|] eqn:E.
  - apply find_some in E. destruct E as [Hin He]. split; [by apply list_elem_of_In|].
    unfold entry_is in He. destruct (req e) as [r|]; [|done]. bsimp. by exists r.
  - intros e r He Hr [Hc Hi]. apply list_elem_of_In in He.
    pose proof (find_none _ _ E e He) as Hn. unfold entry_is in Hn. rewrite Hr in Hn.
    rewrite (proj2 (Z.eqb_eq _ _) Hc), (proj2 (Z.eqb_eq _ _) Hi) in Hn. done.
Qed.

(** ** Consecutive sequence numbers *)

(** The history is a run of consecutive sequence numbers ending in [last]. *)
Definition contiguous (l : list Rh_entry) (last : Z) : Prop :=
  seq <$> l = seqZ (last - Z.of_nat (length l) + 1) (Z.of_nat (length l)).

Lemma contiguous_drop l last k : contiguous l last -> contiguous (drop k l) last.
Proof.
  unfold contiguous. intros Hc.
  apply list_eq. intros i. rewrite list_lookup_fmap, lookup_drop, <- list_lookup_fmap, Hc.
  rewrite length_drop.
  destruct (decide (k + i < length l)%nat).
  - rewrite !lookup_seqZ_lt by lia. f_equal. lia.
  - rewrite !lookup_seqZ_ge by lia. done.
Qed.

Lemma contiguous_snoc l last e : contiguous l last -> (l <> [] -> seq e = last + 1) ->
  contiguous (l ++ [e]) (seq e).
Proof.
  unfold contiguous. intros Hc He. rewrite fmap_app, Hc, length_app. simpl.
  destruct l as [|x l].
  - simpl. rewrite seqZ_cons by lia. simpl. f_equal. lia.
  - rewrite He by done. replace (Z.of_nat (length (x :: l) + 1)) with (Z.of_nat (length (x :: l)) + 1) by lia.
    rewrite seqZ_app by lia. f_equal; [f_equal; lia|].
    rewrite seqZ_cons by lia. simpl. f_equal. lia.
Qed.

Lemma truncate_drop (l : t) sq :
  exists k, rh (truncate_history l sq).1.1 = drop k (rh l) /\ rh_d (truncate_history l sq).1.1 = rh_d l.
Proof.
  pose proof (truncate_history_spec l sq) as Ht.
  destruct (find_seq _ _); rewrite Ht; simpl; [by eexists|by exists O].
Qed.

(** Truncating at the top empties a history. *)
Lemma truncate_top l : rh l <> [] -> NoDup (seq <$> rh l) -> rh (truncate_history l (get_top_seqno l)).1.1 = [].
Proof.
  intros Hne Hnd. pose proof (truncate_history_spec l (get_top_seqno l)) as Ht.
  pose proof (find_seq_spec (rh l) (get_top_seqno l)) as Hf.
  destruct (exists_last Hne) as (l' & e & El).
  assert (Htop : get_top_seqno l = seq e) by (unfold get_top_seqno; by rewrite El, last_snoc).
  assert (Hlast : rh l !! length l' = Some e) by (rewrite El; apply list_lookup_middle; done).
  destruct (find_seq _ _) as [pos|]; rewrite Ht; simpl.
  - destruct Hf as [(e' & He' & Hs) _].
    assert (pos = length l') as ->.
    { eapply (NoDup_lookup _ _ _ (seq e)); [exact Hnd|..]; rewrite list_lookup_fmap; [by rewrite He', <- Htop, <- Hs|by rewrite Hlast]. }
    apply drop_ge. rewrite El, length_app. simpl. lia.
  - exfalso. by eapply Hf; [exact Hlast|].
Qed.

Lemma contiguous_NoDup l last : contiguous l last -> NoDup (seq <$> l).
Proof. unfold contiguous. intros ->. apply NoDup_seqZ. Qed.

End history.
Arguments Rh_entry : clear implicits.
Arguments t : clear implicits.

#[local] Instance AReq_triple : AReq (Z * Z * Z) :=
  { client_id := fun r => r.1.1; request_id := fun r => r.1.2; req_digest := fun r => r.2 }.

Definition ex_log : t (Z * Z * Z) :=
  mk [mk_entry (Some (4, 1, 10)) 7 10; mk_entry (Some (5, 1, 20)) 8 30; mk_entry (Some (4, 2, 5)) 9 35] 35.

Lemma truncate_keeps_above_witness :
  rh (truncate_history ex_log 8).1.1 = [mk_entry (Some (4, 2, 5)) 9 35].
Proof.
  destruct (truncate_keeps_above ex_log 8) as [_ ->]; [|reflexivity].
  repeat constructor; simpl; lia.
Defined.

Lemma digest_permutation_witness :
  exists l1 l2,
    add_requests 1000 id empty [((4, 1, 10), 1); ((5, 1, 20), 2)] = Some l1 /\
    add_requests 1000 id empty [((5, 1, 20), 1); ((4, 1, 10), 2)] = Some l2 /\
    rh_digest id l1 = rh_digest id l2.
Proof.
  eexists _, _. split; [reflexivity|]. split; [reflexivity|].
  eapply (digest_permutation 1000 id) with
    (rs1 := [((4, 1, 10), 1); ((5, 1, 20), 2)]) (rs2 := [((5, 1, 20), 1); ((4, 1, 10), 2)]);
    [unfold DSum.nbits; lia|repeat constructor; simpl; lia|apply Permutation_swap|reflexivity..].
Defined.

End ReqHistory.
