(* ===== verification/AtMostOnce.v ===== *)
(** * At-most-once execution

    The contract of a replica towards its clients, as an executable
    specification: a service and, for every client, the identifier of its last
    executed request ([Q_Rep_info::req_id]).  A step executes one request; it is
    undefined for a request that is not newer than the client's last one. *)

From Stdlib Require Import Sorted.
From S2P Require Import Prelude ReqHistory.
Local Open Scope Z_scope.

Module AtMostOnce.
Section spec.
Context {R S : Type} `{AReq R} (command : R -> list Z) (exec : S -> Z -> list Z -> S * list Z).

Record spec := mk_spec { sp_rids : list Z; sp_service : S }.

Definition spec_step (x : spec) (r : R) : option spec :=
  if client_id r <? 0 then None else
  old ← sp_rids x !! Z.to_nat (client_id r);
  if old <? request_id r then
    Some (mk_spec (<[Z.to_nat (client_id r) := request_id r]> (sp_rids x))
                  (exec (sp_service x) (client_id r) (command r)).1)
  else None.

Fixpoint spec_run (x : spec) (rs : list R) : option spec :=
  match rs with [] => Some x | r :: rs' => y ← spec_step x r; spec_run y rs' end.

Lemma spec_run_app x rs rs' : spec_run x (rs ++ rs') = y ← spec_run x rs; spec_run y rs'.
Proof. revert x. induction rs as [|r rs IH]; intros x; simpl; [done|]. destruct (spec_step x r) as [y|]; simpl; [apply IH|done]. Qed.

Lemma spec_step_Some x r y : spec_step x r = Some y ->
  exists old, 0 <= client_id r /\ sp_rids x !! Z.to_nat (client_id r) = Some old /\ old < request_id r /\
    y = mk_spec (<[Z.to_nat (client_id r) := request_id r]> (sp_rids x))
                (exec (sp_service x) (client_id r) (command r)).1.
Proof.
  unfold spec_step. intros Hs. case_bool; [done|]. destruct (sp_rids x !! _) as [old|]; simpl in Hs; [|done].
  case_bool; [|done]. bsimp. by exists old.
Qed.

(** The service is the result of applying the executed requests in order. *)
Lemma spec_run_service x rs y : spec_run x rs = Some y ->
  sp_service y = foldl (fun sv r => (exec sv (client_id r) (command r)).1) (sp_service x) rs.
Proof.
  revert x. induction rs as [|r rs IH]; intros x; simpl; [by intros [= ->]|].
  destruct (spec_step x r) as [z|] eqn:E; simpl; [|done]. intros Hr. rewrite (IH _ Hr).
  by destruct (spec_step_Some _ _ _ E) as (old & _ & _ & _ & ->).
Qed.

(** The requests of a client carry strictly increasing identifiers, above the
    one the run starts from. *)
Lemma spec_run_increasing x rs y c : spec_run x rs = Some y -> 0 <= c ->
  (forall old, sp_rids x !! Z.to_nat c = Some old ->
     Forall (fun i => old < i) (request_id <$> filter (fun r => client_id r = c) rs)) /\
  StronglySorted Z.lt (request_id <$> filter (fun r => client_id r = c) rs).
Proof.
  intros Hr Hc. revert x Hr. induction rs as [|r rs IH]; intros x Hr; [by repeat constructor|]. simpl in Hr.
  destruct (spec_step x r) as [z|] eqn:E; simpl in Hr; [|done].
  destruct (spec_step_Some _ _ _ E) as (old & Hr0 & Hold & Hlt & ->). destruct (IH _ Hr) as [IH1 IH2].
  rewrite filter_cons. case_decide as Ec.
  - subst c. rewrite fmap_cons.
    assert (Hrest : Forall (fun i => request_id r < i) (request_id <$> filter (fun r' => client_id r' = client_id r) rs)).
    { apply IH1. simpl. apply list_lookup_insert_eq. by eapply lookup_lt_Some. }
    split; [|by constructor]. intros old' Hold'. simplify_eq. constructor; [done|].
    eapply Forall_impl; [done|]. simpl. lia.
  - split; [|done]. intros old' Hold'. apply IH1. simpl. rewrite list_lookup_insert_ne by lia. done.
Qed.

(** No request is executed twice. *)
Lemma spec_run_NoDup x rs y : spec_run x rs = Some y -> Forall (fun r => 0 <= client_id r) rs ->
  NoDup ((fun r => (client_id r, request_id r)) <$> rs).
Proof.
  intros Hr Hc. revert x Hr. induction Hc as [|r rs Hr0 Hc IH]; intros x Hr; [constructor|].
  pose proof (spec_run_increasing x (r :: rs) y _ Hr Hr0) as [_ Hs]. simpl in Hr.
  destruct (spec_step x r) as [z|]; simpl in Hr; [|done]. apply NoDup_cons. split; [|by eapply IH].
  intros Hin. apply list_elem_of_fmap in Hin as (r' & E & Hin). injection E as Ec Ei.
  rewrite filter_cons, decide_True in Hs by done. rewrite fmap_cons in Hs. inversion_clear Hs as [|? ? _ Hall].
  rewrite Forall_forall in Hall. pose proof (Hall (request_id r')).
  assert (request_id r < request_id r'); [|lia]. apply Hall. apply list_elem_of_fmap_2, list_elem_of_filter. by rewrite Ec.
Qed.

Lemma spec_run_clients x rs y : spec_run x rs = Some y -> Forall (fun r => 0 <= client_id r) rs.
Proof.
  revert x. induction rs as [|r rs IH]; intros x; simpl; [done|]. destruct (spec_step x r) as [z|] eqn:E; simpl; [|done].
  intros Hr. constructor; [by destruct (spec_step_Some _ _ _ E) as (old & ? & _)|by eapply IH].
Qed.

Lemma spec_run_once x rs y : spec_run x rs = Some y -> NoDup ((fun r => (client_id r, request_id r)) <$> rs).
Proof. intros Hr. eapply spec_run_NoDup; [exact Hr|by eapply spec_run_clients]. Qed.
End spec.
End AtMostOnce.
