(* ===== verification/SCSet.v ===== *)
(** * Counting sets

    Models [src/protocols/common/SCSet.h] (a bounded set whose members carry
    the number of times they were stored) and
    [src/protocols/common/AbortHistoryElement.h].  [elems] and [counter] are
    the two C arrays of [max_size] cells, a null pointer is [None], and a read
    or write outside the arrays (or through a null pointer) is [None] in the
    result.  [view] abstracts a set to its members with their counts in
    insertion order; [store_all_spec] says what a run of [store]s counts. *)

From S2P Require Import Prelude.
Local Open Scope Z_scope.

(** [AbortHistoryElement]: [operator==] compares the three fields. *)
Record AbortHistoryElement := AHE { cid : Z; rid : Z; d : Z }.

#[export] Instance ahe_eq_dec : EqDecision AbortHistoryElement.
Proof. solve_decision. Defined.

Module SCSet.
Section scset.
Context {T : Type} `{EqDecision T}.

Record t := mk { max_size : nat; elems : list (option T); counter : list Z; cur_size : nat }.

Definition create (sz : nat) : t := mk sz (replicate sz None) (replicate sz 0) 0.

Definition size (s : t) : nat := cur_size s.

Definition full (s : t) : bool := bool_decide (cur_size s = max_size s).

(** The search loop of [store] and [has] from index [i] over [n] cells: the
    index of the first equal member; the outer [None] is a null dereference. *)
Fixpoint search (es : list (option T)) (i n : nat) (e : T) : option (option nat) :=
  match n with
  | O => Some None
  | S n' =>
    x ← mjoin (es !! i);
    if decide (e = x) then Some (Some i) else search es (S i) n' e
  end.

Definition store (s : t) (e : T) : option (t * bool) :=
  r ← search (elems s) 0 (cur_size s) e;
  match r with
  | Some i =>
    c ← counter s !! i;
    Some (mk (max_size s) (elems s) (<[i := wrapu 32 (c + 1)]> (counter s)) (cur_size s), false)
  | None =>
    if decide (cur_size s = max_size s) then Some (s, false)
    else Some (mk (max_size s) (<[cur_size s := Some e]> (elems s))
                  (<[cur_size s := 1]> (counter s)) (S (cur_size s)), true)
  end.

Definition has (s : t) (e : T) : option bool :=
  r ← search (elems s) 0 (cur_size s) e;
  Some (bool_decide (is_Some r)).

Definition bad_id (s : t) (id : Z) : bool :=
  (Z.of_nat (max_size s) <=? id) || (Z.of_nat (cur_size s) <? id) || (id <? 0).

Definition fetch (s : t) (id : Z) : option T :=
  if bad_id s id then None else mjoin (elems s !! Z.to_nat id).

Definition fetch_count (s : t) (id : Z) : Z :=
  if bad_id s id then 0
  else match mjoin (elems s !! Z.to_nat id) with
       | None => 0
       | Some _ => default 0 (counter s !! Z.to_nat id)
       end.

(** The shifting loop of [remove]. *)
Fixpoint shift_loop (i n : nat) (s : t) : t :=
  match n with
  | O => s
  | S n' =>
    shift_loop (S i) n'
      (mk (max_size s) (<[i := mjoin (elems s !! S i)]> (elems s))
          (<[i := default 0 (counter s !! S i)]> (counter s)) (cur_size s))
  end.

(** [remove] then writes the cells [elems[cur_size]] and [counter[cur_size]]:
    past the end of the arrays when the set is full (the outer [None]). *)
Definition remove (s : t) (id : Z) : option (option T * t) :=
  if bad_id s id then Some (None, s)
  else match mjoin (elems s !! Z.to_nat id) with
       | None => Some (None, s)
       | Some ret =>
         let s1 := shift_loop (Z.to_nat id) (cur_size s - 1 - Z.to_nat id) s in
         if decide (cur_size s < max_size s)%nat then
           Some (Some ret, mk (max_size s) (<[cur_size s := None]> (elems s1))
                              (<[cur_size s := 0]> (counter s1)) (cur_size s - 1))
         else None
       end.

Definition clear (s : t) : t :=
  mk (max_size s) (replicate (max_size s) None) (replicate (max_size s) 0) 0.

(** [non_destructive_clear] differs from [clear] only in not deleting. *)
Definition non_destructive_clear (s : t) : t := clear s.

(** ** Abstract view *)

Definition wf (s : t) : Prop :=
  (cur_size s <= max_size s)%nat /\ length (elems s) = max_size s /\
  length (counter s) = max_size s.

(** [rep s l]: the members of [s] are [l], with their counts, in order. *)
Definition rep (s : t) (l : list (T * Z)) : Prop :=
  wf s /\ length l = cur_size s /\ NoDup l.*1 /\
  forall i e c, l !! i = Some (e, c) -> elems s !! i = Some (Some e) /\ counter s !! i = Some c.

(** What [store] does to the members. *)
Fixpoint bump (l : list (T * Z)) (e : T) : list (T * Z) :=
  match l with
  | [] => [(e, 1)]
  | (x, c) :: l' => if decide (e = x) then (x, wrapu 32 (c + 1)) :: l' else (x, c) :: bump l' e
  end.

Lemma bump_keys l e : (bump l e).*1 = if decide (e ∈ l.*1) then l.*1 else l.*1 ++ [e].
Proof.
  induction l as [|[x c] l IH]; csimpl; [done|].
  destruct (decide (e = x)) as [->|Hne]; csimpl.
  - rewrite decide_True by set_solver. done.
  - rewrite IH. destruct (decide (e ∈ l.*1)).
    + rewrite decide_True by set_solver. done.
    + rewrite decide_False by set_solver. done.
Qed.

Lemma bump_length l e :
  length (bump l e) = if decide (e ∈ l.*1) then length l else S (length l).
Proof.
  rewrite <- (length_fmap fst (bump l e)), bump_keys.
  case_decide; rewrite ?length_app, length_fmap; simpl; lia.
Qed.

Lemma create_rep sz : rep (create sz) [].
Proof.
  repeat split; simpl; rewrite ?length_replicate; try lia; try done; constructor.
Qed.

Lemma clear_rep s l : rep s l -> rep (clear s) [].
Proof. intros [(? & ? & ?) _]. repeat split; simpl; rewrite ?length_replicate; try lia; try done; constructor. Qed.

(** The search finds the position of the key among the members. *)
Lemma search_spec s l e : rep s l ->
  search (elems s) 0 (cur_size s) e = Some (fst <$> list_find (fun p => e = p.1) l).
Proof.
  intros (_ & Hl & _ & Hlk). rewrite <- Hl. clear Hl.
  assert (forall (k : list (T * Z)) i, (forall j e c, k !! j = Some (e, c) -> elems s !! (i + j)%nat = Some (Some e)) ->
    search (elems s) i (length k) e = Some ((λ p, i + fst p)%nat <$> list_find (fun p => e = p.1) k)) as Hgen.
  { induction k as [|[x c] k IH]; intros i Hk; simpl; [done|].
    pose proof (Hk O x c eq_refl) as Hx. rewrite Nat.add_0_r in Hx. rewrite Hx. simpl.
    destruct (decide (e = x)); simpl; [by rewrite Nat.add_0_r|].
    rewrite (IH (S i)).
    - f_equal. destruct (list_find _ k) as [[j y]|]; simpl; [|done]. f_equal. lia.
    - intros j y c' Hj. rewrite <- (Hk (S j) y c' Hj). f_equal. lia. }
  rewrite (Hgen l O); [done|]. intros j x c Hj. by apply Hlk in Hj as [? _].
Qed.

Lemma list_find_bump l e i p : list_find (fun q => e = q.1) l = Some (i, p) ->
  bump l e = <[i := (p.1, wrapu 32 (p.2 + 1))]> l /\ p.1 = e /\ l !! i = Some p.
Proof.
  revert i. induction l as [|[x c] l IH]; intros i Hf; simpl in *; [done|].
  destruct (decide (e = x)) as [->|]; simplify_eq/=; [done|].
  destruct (list_find _ l) as [[j q]|]; simplify_eq/=.
  destruct (IH j eq_refl) as (-> & ? & ?). done.
Qed.

Lemma list_find_bump_None l e : list_find (fun q => e = q.1) l = None ->
  bump l e = l ++ [(e, 1)] /\ e ∉ l.*1.
Proof.
  induction l as [|[x c] l IH]; intros Hf; simpl in *; [split; [done|set_solver]|].
  destruct (decide (e = x)) as [->|]; simplify_eq/=.
  destruct (list_find _ l) as [[j q]|]; simplify_eq/=.
  destruct (IH eq_refl) as [-> ?]. split; [done|]. set_solver.
Qed.

(** [store] never faults on a well-formed set; it reports [true] exactly when
    it inserts a new member, and refuses a new member of a full set. *)
Lemma store_spec s l e : rep s l ->
  if decide (e ∈ l.*1) then exists s', store s e = Some (s', false) /\ rep s' (bump l e) /\ max_size s' = max_size s
  else if decide (length l = max_size s) then store s e = Some (s, false)
  else exists s', store s e = Some (s', true) /\ rep s' (bump l e) /\ max_size s' = max_size s.
Proof.
  intros Hr. pose proof Hr as ((Hcs & Hle & Hlc) & Hl & Hnd & Hlk).
  unfold store. rewrite (search_spec s l e Hr). simpl.
  destruct (list_find (fun p => e = p.1) l) as [[i p]|] eqn:Hf; simpl.
  - destruct (list_find_bump l e i p Hf) as (Hb & He & Hi). destruct p as [x c]. simpl in He. subst x.
    rewrite decide_True.
    2:{ apply list_elem_of_fmap. exists (e, c). split; [done|]. by apply list_elem_of_lookup_2 in Hi. }
    destruct (Hlk i e c Hi) as [Hei Hci]. rewrite Hci. simpl. eexists; split; [done|].
    split; [|done]. repeat split; simpl; rewrite ?length_insert; try done; try lia.
    + rewrite Hb, length_insert. done.
    + rewrite bump_keys. rewrite decide_True; [done|].
      apply list_elem_of_fmap. exists (e, c). split; [done|]. by apply list_elem_of_lookup_2 in Hi.
    + rewrite Hb in *. intros. apply list_lookup_insert_Some in H.
      destruct H as [(-> & ? & ?)|[? ?]]; simplify_eq; [done|]. by eapply Hlk.
    + rewrite Hb in *. apply list_lookup_insert_Some in H.
      destruct H as [(-> & ? & ?)|[? ?]]; simplify_eq.
      * apply list_lookup_insert_eq. apply lookup_lt_Some in Hi. lia.
      * rewrite list_lookup_insert_ne by done. by eapply Hlk.
  - destruct (list_find_bump_None l e Hf) as (Hb & He). rewrite decide_False by done.
    rewrite <- Hl. destruct (decide (length l = max_size s)); [done|].
    eexists; split; [done|]. split; [|done]. rewrite Hb.
    repeat split; simpl; rewrite ?length_insert, ?length_app; simpl; try done; try lia.
    + rewrite fmap_app. apply NoDup_app. split; [done|]. split; [set_solver|]. apply NoDup_singleton.
    + rewrite Hl in *. apply lookup_app_Some in H as [H|[Hge H]].
      * rewrite list_lookup_insert_ne; [by eapply Hlk|]. apply lookup_lt_Some in H. lia.
      * apply list_lookup_singleton_Some in H as [? H]; simplify_eq.
        replace i with (cur_size s) by lia. apply list_lookup_insert_eq. lia.
    + rewrite Hl in *. apply lookup_app_Some in H as [H|[Hge H]].
      * rewrite list_lookup_insert_ne; [by eapply Hlk|]. apply lookup_lt_Some in H. lia.
      * apply list_lookup_singleton_Some in H as [? H]; simplify_eq.
        replace i with (cur_size s) by lia. apply list_lookup_insert_eq. lia.
Qed.

Lemma has_spec s l e : rep s l -> has s e = Some (bool_decide (e ∈ l.*1)).
Proof.
  intros Hr. unfold has. rewrite (search_spec s l e Hr). simpl. f_equal.
  apply bool_decide_ext.
  destruct (list_find (fun p => e = p.1) l) as [[i p]|] eqn:Hf; simpl.
  - destruct (list_find_bump l e i p Hf) as (_ & He & Hi). split; [|eauto].
    intros _. apply list_elem_of_fmap. exists p. split; [done|]. by apply list_elem_of_lookup_2 in Hi.
  - destruct (list_find_bump_None l e Hf) as [_ He]. split; [by intros [? ?]|done].
Qed.

Lemma fetch_spec s l i : rep s l -> (i < length l)%nat -> fetch s (Z.of_nat i) = fst <$> l !! i.
Proof.
  intros ((Hcs & Hle & Hlc) & Hl & Hnd & Hlk) Hi. unfold fetch, bad_id.
  destruct (lookup_lt_is_Some_2 l i Hi) as [[e c] Hec]. rewrite Hec. simpl.
  destruct (Hlk _ _ _ Hec) as [He Hc].
  rewrite (proj2 (Z.leb_gt _ _)), (proj2 (Z.ltb_ge _ _)), (proj2 (Z.ltb_ge _ _)) by lia. simpl.
  by rewrite Nat2Z.id, He.
Qed.

Lemma fetch_count_spec s l i : rep s l -> (i < length l)%nat ->
  Some (fetch_count s (Z.of_nat i)) = snd <$> l !! i.
Proof.
  intros ((Hcs & Hle & Hlc) & Hl & Hnd & Hlk) Hi. unfold fetch_count, bad_id.
  destruct (lookup_lt_is_Some_2 l i Hi) as [[e c] Hec]. rewrite Hec. simpl.
  destruct (Hlk _ _ _ Hec) as [He Hc].
  rewrite (proj2 (Z.leb_gt _ _)), (proj2 (Z.ltb_ge _ _)), (proj2 (Z.ltb_ge _ _)) by lia. simpl.
  by rewrite Nat2Z.id, He, Hc.
Qed.

(** ** Runs of stores *)

(** The number of times [x] occurs in [l]. *)
Definition occ (x : T) (l : list T) : nat := length (filter (fun y => y = x) l).

Lemma occ_cons x y l : occ x (y :: l) = if decide (y = x) then S (occ x l) else occ x l.
Proof. unfold occ. rewrite filter_cons. by case_decide. Qed.

Lemma occ_pos x l : (0 < occ x l)%nat <-> x ∈ l.
Proof.
  induction l as [|y l IH]; [by unfold occ; simpl; split; [lia|set_solver]|].
  rewrite occ_cons, elem_of_cons, <- IH.
  case_decide; [split; [by left|lia]|split; [auto|by intros [?|?]]].
Qed.

Lemma occ_le x l : (occ x l <= length l)%nat.
Proof. apply length_filter. Qed.

(** The count of a key, 0 when absent. *)
Fixpoint getc (l : list (T * Z)) (x : T) : Z :=
  match l with
  | [] => 0
  | (y, c) :: l' => if decide (y = x) then c else getc l' x
  end.

Lemma getc_bump l e x :
  getc (bump l e) x = if decide (e = x) then wrapu 32 (getc l x + 1) else getc l x.
Proof.
  induction l as [|[y c] l IH]; simpl; [by case_decide|].
  destruct (decide (e = y)) as [->|]; simpl; repeat case_decide; simplify_eq; done.
Qed.

Lemma getc_lookup l i x c : NoDup l.*1 -> l !! i = Some (x, c) -> getc l x = c.
Proof.
  revert i. induction l as [|[y c'] l IH]; intros i Hnd Hi; simpl in *; [done|].
  apply NoDup_cons in Hnd as [Hy Hnd]. destruct i as [|i]; simplify_eq/=.
  - by rewrite decide_True.
  - rewrite decide_False; [by eapply IH|]. intros ->. apply Hy.
    apply list_elem_of_fmap. exists (x, c). split; [done|]. by apply list_elem_of_lookup_2 in Hi.
Qed.

Lemma foldl_bump_getc L : forall l x, in_u 32 (getc l x) ->
  getc (foldl bump l L) x = wrapu 32 (getc l x + Z.of_nat (occ x L)).
Proof.
  induction L as [|e L IH]; intros l x Hx; simpl.
  - by rewrite Z.add_0_r, wrapu_id.
  - rewrite IH; rewrite getc_bump; [|case_decide; [by apply wrapu_range|done]].
    rewrite occ_cons. case_decide; [|done]. unfold wrapu.
    rewrite Z.add_mod_idemp_l by lia. f_equal. lia.
Qed.

Lemma foldl_bump_keys L : forall l x, x ∈ (foldl bump l L).*1 <-> x ∈ l.*1 \/ x ∈ L.
Proof.
  induction L as [|e L IH]; intros l x; simpl; [set_solver|].
  rewrite IH, bump_keys. case_decide; set_solver.
Qed.

(** [for each e: store(e)] *)
Fixpoint store_all (s : t) (L : list T) : option t :=
  match L with
  | [] => Some s
  | e :: L' => '(s', _) ← store s e; store_all s' L'
  end.

Lemma bump_length_le l e : (length (bump l e) <= S (length l))%nat.
Proof. rewrite bump_length. case_decide; lia. Qed.

(** With room for every element the run never refuses one: the members are
    the distinct elements and every count is the number of occurrences. *)
Lemma store_all_spec s l L : rep s l -> (length l + length L <= max_size s)%nat ->
  exists s', store_all s L = Some s' /\ rep s' (foldl bump l L) /\ max_size s' = max_size s.
Proof.
  revert s l. induction L as [|e L IH]; intros s l Hr Hc; simpl in *; [by exists s|].
  pose proof (bump_length_le l e).
  pose proof (store_spec s l e Hr) as Hs.
  destruct (decide (e ∈ l.*1)).
  - destruct Hs as (s' & -> & Hr' & Hm). simpl.
    destruct (IH s' (bump l e) Hr' ltac:(lia)) as (s2 & -> & ? & ?).
    exists s2. split; [done|]. split; [done|congruence].
  - rewrite decide_False in Hs by lia. destruct Hs as (s' & -> & Hr' & Hm). simpl.
    destruct (IH s' (bump l e) Hr' ltac:(lia)) as (s2 & -> & ? & ?).
    exists s2. split; [done|]. split; [done|congruence].
Qed.

Lemma rep_counts L s i x c : rep s (foldl bump [] L) -> Z.of_nat (length L) < 2 ^ 32 ->
  foldl bump [] L !! i = Some (x, c) -> c = Z.of_nat (occ x L).
Proof.
  intros (_ & _ & Hnd & _) HL Hi. rewrite <- (getc_lookup _ _ _ _ Hnd Hi).
  rewrite foldl_bump_getc by (simpl; unfold in_u; lia). simpl.
  apply wrapu_id. pose proof (occ_le x L). unfold in_u. lia.
Qed.

(** Counting votes: storing a list into a fresh set with room for it never
    faults or refuses an element; the set then has exactly the list's elements,
    and the count of each member is its number of occurrences. *)
Theorem store_all_counts L n : (length L <= n)%nat -> Z.of_nat (length L) < 2 ^ 32 ->
  exists s, store_all (create n) L = Some s /\
    (forall x, has s x = Some (bool_decide (x ∈ L))) /\
    (forall i, (i < size s)%nat -> exists x, fetch s (Z.of_nat i) = Some x /\
       fetch_count s (Z.of_nat i) = Z.of_nat (occ x L)).
Proof.
  intros Hn HL. destruct (store_all_spec (create n) [] L (create_rep n) Hn) as (s & Hs & Hr & _).
  exists s. split; [done|]. split.
  - intros x. rewrite (has_spec _ _ _ Hr). f_equal. apply bool_decide_ext.
    rewrite foldl_bump_keys. set_solver.
  - intros i Hi. unfold size in Hi. pose proof Hr as (_ & Hl & _). rewrite <- Hl in Hi.
    destruct (lookup_lt_is_Some_2 _ i Hi) as [[x c] Hx]. exists x.
    rewrite (fetch_spec _ _ _ Hr Hi), Hx. split; [done|].
    pose proof (fetch_count_spec _ _ _ Hr Hi) as Hc. rewrite Hx in Hc. injection Hc as ->.
    by eapply rep_counts.
Qed.

(** [remove] on a full set writes one cell past both arrays. *)
Theorem remove_full_overflows s l id : rep s l -> cur_size s = max_size s ->
  0 <= id < Z.of_nat (length l) -> remove s id = None.
Proof.
  intros Hr Hf Hid. pose proof (fetch_spec s l (Z.to_nat id) Hr ltac:(lia)) as Hfe.
  rewrite Z2Nat.id in Hfe by lia. unfold fetch in Hfe.
  destruct (lookup_lt_is_Some_2 l (Z.to_nat id) ltac:(lia)) as [[e c] He]. rewrite He in Hfe.
  unfold remove. destruct (bad_id s id); [done|]. rewrite Hfe. simpl.
  by rewrite decide_False by lia.
Qed.

End scset.
Arguments t : clear implicits.

Lemma store_all_counts_witness :
  exists s, store_all (create 5) [3; 1; 3; 3] = Some s /\
    (forall x, has s x = Some (bool_decide (x ∈ [3; 1; 3; 3]))) /\
    (forall i, (i < size s)%nat -> exists x, fetch s (Z.of_nat i) = Some x /\
       fetch_count s (Z.of_nat i) = Z.of_nat (occ x [3; 1; 3; 3])).
Proof. apply (store_all_counts (T := Z)); simpl; lia. Defined.

Definition full_set : t Z := mk 2 [Some 3; Some 1] [2; 1] 2.

Lemma remove_full_overflows_witness : store_all (create 2) [3; 1; 3] = Some full_set /\ remove full_set 0 = None.
Proof.
  split; [reflexivity|]. apply (remove_full_overflows full_set [(3, 2); (1, 1)]); [|done|simpl; lia].
  repeat split; try done.
  - repeat constructor; set_solver.
  - by destruct i as [|[|]]; simplify_eq/=.
  - by destruct i as [|[|]]; simplify_eq/=.
Defined.

End SCSet.
