(* ===== verification/Recover.v ===== *)
(** * Rebuilding a history from an abort history

    Models the loops of [zl_Replica.cc], [Q_Replica.cc] and [C_Replica.cc]
    (handlers of the last [Abort] and of the last [Get_a_grip]) that replace the
    request history by the merged one, [ah_2]: an element is taken from the old
    history, or from the requests received on demand ([missing_store]).  The
    three protocols share the loop up to two choices: whether a taken entry is
    nulled ([rhe->req = NULL]), and whether an element that is nowhere in the
    history is dereferenced all the same.  The old history is deleted afterwards, with
    the requests its entries still point to.

    [add_request] returns the digest of the history through a reference.  For an
    entry of the old history the reference is the entry's own digest, which is
    freed afterwards; for a stored request it is the digest {i of the request},
    so the request changes, wherever it is shared: a building history therefore
    refers to stored requests by their slot.

    The theorems: when every element of [ah_2] is at hand with its digest, the
    loop that nulls what it takes succeeds and what it builds depends on [ah_2] alone, so
    that recovering replicas agree on the requests, their order and the history digest; and
    (findings) a replica whose own entry has another digest keeps its own,
    stored requests leave with a digest that is not theirs, and the loop that does not
    null (the last one of ZLight) keeps requests that are then deleted. *)

From S2P Require Import Prelude Effects ReqHistory SCSet.
Local Open Scope Z_scope.

Module Recover.
Section recover.
Context {R : Type} `{AReq R} (with_digest : Z -> R -> R).
Context (modulus : Z) (MD5_sum : Z -> Z).

Abbreviation entry := (ReqHistory.Rh_entry R).

(** A request of the new history: moved from the old array, or the one in a
    slot of [missing_store]. *)
Inductive source := Logged (r : R) | Stored (j : nat).

Record building := mk_building {
  b_entries : list (source * Z * Z);  (* request, sequence number, digest *)
  b_sum : Z;
  b_old : list entry;
  b_store : list (option R)
}.

(** [rh->find(cid, rid)]: the position of the entry in the array. *)
Fixpoint find_pos (l : list entry) (cid rid : Z) : option nat :=
  match l with
  | [] => None
  | e :: l' => if ReqHistory.entry_is cid rid e then Some O else S <$> find_pos l' cid rid
  end.

(** The first slot of [missing_store] with the client and the request id; an
    empty slot before it is dereferenced. *)
Fixpoint find_stored (st : list (option R)) (a : AbortHistoryElement) (j : nat) : fault + option nat :=
  match st with
  | [] => inr None
  | None :: _ => inl NullDeref
  | Some r :: st' =>
    if (client_id r =? cid a) && (request_id r =? rid a) then inr (Some j) else find_stored st' a (S j)
  end.

(** [newrh->add_request(r, seq, ...)]: the sum, the entry and its digest. *)
Definition append (b : building) (src : source) (r : R) (sq : Z) : fault + building :=
  match DSum.add modulus (b_sum b) (req_digest r) with
  | None => inl AssertFailed
  | Some sum => inr (mk_building (b_entries b ++ [(src, sq, MD5_sum sum)]) sum (b_old b) (b_store b))
  end.

Definition take_logged (nulls : bool) (b : building) (i : nat) : fault + building :=
  match b_old b !! i with
  | Some (ReqHistory.mk_entry (Some r) sq dg) =>
    match append b (Logged r) r sq with
    | inl e => inl e
    | inr b' =>
      inr (mk_building (b_entries b') (b_sum b')
             (if nulls then <[i := ReqHistory.mk_entry None sq dg]> (b_old b') else b_old b') (b_store b'))
    end
  | _ => inl NullDeref
  end.

Definition take_stored (sq : list Z) (b : building) (j : nat) : fault + building :=
  match mjoin (b_store b !! j), sq !! j with
  | Some r, Some s =>
    match append b (Stored j) r s with
    | inl e => inl e
    | inr b' => inr (mk_building (b_entries b') (b_sum b') (b_old b')
                       (<[j := Some (with_digest (MD5_sum (b_sum b')) r)]> (b_store b')))
    end
  | _, _ => inl OutOfBounds
  end.

(** One turn of the loop. *)
Definition step (nulls strict : bool) (sq : list Z) (b : building) (a : AbortHistoryElement)
    : fault + building :=
  match find_pos (b_old b) (cid a) (rid a) with
  | Some i => take_logged nulls b i
  | None =>
    if strict then inl NullDeref
    else match find_stored (b_store b) a 0 with
         | inl e => inl e
         | inr None => inr b
         | inr (Some j) => take_stored sq b j
         end
  end.

Fixpoint loop (nulls strict : bool) (sq : list Z) (ah : list AbortHistoryElement) (b : building)
    : fault + building :=
  match ah with
  | [] => inr b
  | a :: ah' => match step nulls strict sq b a with inl e => inl e | inr b' => loop nulls strict sq ah' b' end
  end.

Definition resolve (b : building) (x : source * Z * Z) : entry :=
  ReqHistory.mk_entry (match x.1.1 with Logged r => Some r | Stored j => mjoin (b_store b !! j) end) x.1.2 x.2.

Definition finish (b : building) : ReqHistory.t R :=
  ReqHistory.mk (resolve b <$> b_entries b) (b_sum b).

(** The history that replaces [rh].  Deleting [rh] deletes the requests that were taken from
    it and not nulled; the new history is then left with dangling pointers, and the fault
    of their next use, if only by its own destructor, is taken here. *)
Definition is_logged (x : source * Z * Z) : bool := match x.1.1 with Logged _ => true | Stored _ => false end.

Definition rebuild (nulls strict : bool) (ah : list AbortHistoryElement) (old : ReqHistory.t R)
    (store : list (option R)) (sq : list Z) : fault + ReqHistory.t R :=
  match loop nulls strict sq ah (mk_building [] 0 (ReqHistory.rh old) store) with
  | inl e => inl e
  | inr b => if negb nulls && existsb is_logged (b_entries b) then inl NullDeref else inr (finish b)
  end.

(** ** Elements at hand *)

Definition key (r : R) : Z * Z := (client_id r, request_id r).
Definition akey (a : AbortHistoryElement) : Z * Z := (cid a, rid a).

Lemma find_pos_spec l c i :
  match find_pos l c i with
  | Some n => exists e r, l !! n = Some e /\ ReqHistory.req e = Some r /\ key r = (c, i)
  | None => forall e r, e ∈ l -> ReqHistory.req e = Some r -> key r <> (c, i)
  end.
Proof.
  induction l as [|e l IH]; simpl; [set_solver|].
  unfold ReqHistory.entry_is at 1. destruct (ReqHistory.req e) as [r|] eqn:He.
  - destruct ((client_id r =? c) && (request_id r =? i)) eqn:E; bsimp; [by exists e, r|].
    destruct (find_pos l c i) as [n|]; simpl; [done|].
    intros e' r' [->|Hin]%elem_of_cons Hr'; [|by eapply IH].
    simplify_eq. unfold key. intros [= <- <-]. by rewrite !Z.eqb_refl in E.
  - destruct (find_pos l c i) as [n|]; simpl; [done|].
    intros e' r' [->|Hin]%elem_of_cons Hr'; [congruence|by eapply IH].
Qed.

Lemma find_stored_elem st a : forall m k, find_stored st a m = inr (Some k) ->
  exists n r, k = (m + n)%nat /\ st !! n = Some (Some r) /\ key r = akey a.
Proof.
  induction st as [|[r|] st IH]; intros m k; simpl; [done| |done].
  destruct ((client_id r =? cid a) && (request_id r =? rid a)) eqn:E; bsimp.
  - intros [= <-]. exists O, r. split; [lia|]. split; [done|]. unfold key, akey. congruence.
  - intros (n & x & -> & ? & ?)%IH. exists (S n), x. split; [lia|done].
Qed.

(** The element is at hand with its digest: the first entry of the old history
    with its client and request id has it, or there is none and the first such
    stored request has it. *)
Definition at_hand (old : list entry) (st : list (option R)) (a : AbortHistoryElement) : Prop :=
  match find_pos old (cid a) (rid a) with
  | Some i => exists sq dg r, old !! i = Some (ReqHistory.mk_entry (Some r) sq dg) /\ req_digest r = d a
  | None => exists j r, find_stored st a 0 = inr (Some j) /\ st !! j = Some (Some r) /\ req_digest r = d a
  end.

(** What [ah_2] prescribes: clients, request ids and digests of the history. *)
Fixpoint outline_of (sum : Z) (ah : list AbortHistoryElement) : list (option (Z * Z) * Z) :=
  match ah with
  | [] => []
  | a :: ah' => let s := (sum + d a) mod modulus in (Some (akey a), MD5_sum s) :: outline_of s ah'
  end.

Definition outline (h : ReqHistory.t R) : list (option (Z * Z) * Z) :=
  (fun e => (key <$> ReqHistory.req e, ReqHistory.d_h e)) <$> ReqHistory.rh h.

Hypothesis with_digest_key : forall dg r, key (with_digest dg r) = key r.
Hypothesis modulus_ok : 2 ^ 128 <= modulus < 2 ^ (DSum.nbits - 1).

Lemma entry_is_key e c i : ReqHistory.entry_is c i e = bool_decide (key <$> ReqHistory.req e = Some (c, i)).
Proof.
  unfold ReqHistory.entry_is. destruct (ReqHistory.req e) as [r|]; [|done]; simpl.
  unfold key. apply eq_true_iff_eq. rewrite bool_decide_eq_true, andb_true_iff, !Z.eqb_eq. naive_solver congruence.
Qed.

(** Nulling an entry, or changing the digest of a stored request, does not
    move the elements with another client or request id. *)
Lemma find_pos_insert l i e e' c rr : l !! i = Some e ->
  key <$> ReqHistory.req e <> Some (c, rr) -> ReqHistory.req e' = None ->
  find_pos (<[i := e']> l) c rr = find_pos l c rr.
Proof.
  revert i. induction l as [|x l IH]; intros [|i] Hi Hk He'; simplify_eq/=.
  - rewrite !entry_is_key, He'. rewrite (bool_decide_eq_false_2 (_ <$> ReqHistory.req e = _)) by done.
    by rewrite bool_decide_eq_false_2.
  - by rewrite (IH i).
Qed.

Lemma find_stored_insert st j r r' a k : st !! j = Some (Some r) -> key r' = key r ->
  find_stored (<[j := Some r']> st) a k = find_stored st a k.
Proof.
  intros Hj Hk. unfold key in Hk. injection Hk as Hc Hr. revert j k Hj. induction st as [|o st IH]; intros [|j] k Hj; simplify_eq/=.
  - by rewrite Hc, Hr.
  - destruct o as [x|]; [|done]. by rewrite IH.
Qed.

(** Taking an element leaves the others at hand. *)
Lemma at_hand_null old st i r sq dg a : old !! i = Some (ReqHistory.mk_entry (Some r) sq dg) ->
  key r <> akey a -> at_hand old st a -> at_hand (<[i := ReqHistory.mk_entry None sq dg]> old) st a.
Proof.
  intros Hi Hk. unfold at_hand.
  rewrite (find_pos_insert _ _ _ _ _ _ Hi) by (simpl; unfold akey in Hk; congruence).
  destruct (find_pos old (cid a) (rid a)) as [n|] eqn:Hf; [|done].
  intros (sq' & dg' & r' & Hn & Hd). exists sq', dg', r'. split; [|done].
  destruct (decide (n = i)) as [->|]; [|by rewrite list_lookup_insert_ne].
  pose proof (find_pos_spec old (cid a) (rid a)) as Hs. rewrite Hf in Hs.
  destruct Hs as (e & r0 & He & Hr0 & Hk0). simplify_eq/=.
Qed.

Lemma at_hand_store old st j r r' a : st !! j = Some (Some r) -> key r' = key r -> key r <> akey a ->
  at_hand old st a -> at_hand old (<[j := Some r']> st) a.
Proof.
  intros Hj Hk Ha. unfold at_hand. destruct (find_pos old (cid a) (rid a)) as [n|]; [done|].
  rewrite (find_stored_insert _ _ r r' a 0) by done.
  intros (k & x & Hf & Hx & Hd). exists k, x. split; [done|]. split; [|done].
  destruct (decide (k = j)) as [->|]; [|by rewrite list_lookup_insert_ne by congruence].
  apply find_stored_elem in Hf as (n & y & -> & Hy & Hky). simpl in Hj. congruence.
Qed.

(** The element is in the old history. *)
Definition own (old : list entry) (a : AbortHistoryElement) : Prop := is_Some (find_pos old (cid a) (rid a)).

Lemma own_null old i r sq dg a : old !! i = Some (ReqHistory.mk_entry (Some r) sq dg) ->
  key r <> akey a -> own old a -> own (<[i := ReqHistory.mk_entry None sq dg]> old) a.
Proof.
  intros Hi Hk. unfold own. by rewrite (find_pos_insert _ _ _ _ _ _ Hi) by (simpl; unfold akey in Hk; congruence).
Qed.

(** The state of the loop between elements. *)
Record ready (strict : bool) (sq : list Z) (b : building) (ah : list AbortHistoryElement) : Prop := {
  ready_hand : Forall (at_hand (b_old b) (b_store b)) ah;
  ready_own : strict = true -> Forall (own (b_old b)) ah;
  ready_dup : NoDup (akey <$> ah);
  ready_range : Forall (fun a => 0 <= d a < 2 ^ 128) ah;
  ready_sum : 0 <= b_sum b < modulus;
  ready_seq : length sq = length (b_store b)
}.

Definition store_keys (b : building) : list (option (Z * Z)) := (fun o : option R => key <$> o) <$> b_store b.

Definition source_key (keys : list (option (Z * Z))) (x : source) : option (Z * Z) :=
  match x with Logged r => Some (key r) | Stored j => mjoin (keys !! j) end.

(** One turn appends the element [ah_2] prescribes. *)
Lemma step_ok nulls strict sq b a ah : ready strict sq b (a :: ah) ->
  exists b' src s, step nulls strict sq b a = inr b' /\ ready strict sq b' ah /\
    b_sum b' = (b_sum b + d a) mod modulus /\ store_keys b' = store_keys b /\
    b_entries b' = b_entries b ++ [(src, s, MD5_sum (b_sum b'))] /\
    source_key (store_keys b) src = Some (akey a).
Proof.
  intros [Hh Hown Hnd Hrg Hs Hsq]. apply Forall_cons in Hh as [Ha Hh].
  apply NoDup_cons in Hnd as [Hnin Hnd]. apply Forall_cons in Hrg as [Hra Hrg].
  assert (Hoth : forall k, k = akey a -> Forall (fun x => k <> akey x) ah).
  { intros k ->. apply Forall_forall. intros x Hx E. apply Hnin. rewrite E. by apply list_elem_of_fmap_2. }
  assert (Hmod : 0 <= (b_sum b + d a) mod modulus < modulus) by (apply Z.mod_pos_bound; lia).
  unfold step. unfold at_hand in Ha.
  destruct (find_pos (b_old b) (cid a) (rid a)) as [i|] eqn:Hf.
  - destruct Ha as (sq' & dg & r & Hi & Hd). pose proof (find_pos_spec (b_old b) (cid a) (rid a)) as Hp.
    rewrite Hf in Hp. destruct Hp as (e & r0 & He & Hr0 & Hk). simplify_eq/=.
    unfold take_logged. rewrite Hi. unfold append. rewrite Hd, DSum.add_mod by lia. cbn -[Z.pow].
    eexists _, (Logged r0), sq'. split; [done|].
    split; [|split; [done|split; [done|split; [done|simpl; by rewrite Hk]]]].
    constructor; try done; [destruct nulls; [|done]; cbn -[Z.pow]|intros Es; specialize (Hown Es); apply Forall_cons in Hown as [_ Hown]; destruct nulls; [|done]; cbn -[Z.pow]].
    + apply Forall_forall. intros x Hx. eapply at_hand_null; [done| |by eapply (proj1 (Forall_forall _ _) Hh)].
      by eapply (proj1 (Forall_forall _ _) (Hoth _ Hk)).
    + apply Forall_forall. intros x Hx. eapply own_null; [done| |by eapply (proj1 (Forall_forall _ _) Hown)].
      by eapply (proj1 (Forall_forall _ _) (Hoth _ Hk)).
  - destruct strict.
    { specialize (Hown eq_refl). apply Forall_cons in Hown as [Hown _]. unfold own in Hown. rewrite Hf in Hown. by destruct Hown. }
    destruct Ha as (j & r & Hf' & Hj & Hd). rewrite Hf'.
    unfold take_stored. rewrite Hj. destruct (lookup_lt_is_Some_2 sq j) as [s Hsj].
    { rewrite Hsq. by eapply lookup_lt_Some. }
    rewrite Hsj. cbn -[Z.pow]. unfold append. rewrite Hd, DSum.add_mod by lia. cbn -[Z.pow].
    assert (Hk : key r = akey a).
    { apply find_stored_elem in Hf' as (n & y & -> & Hy & Hky). simpl in Hj. congruence. }
    eexists _, (Stored j), s. split; [done|].
    split; [constructor; try done; cbn -[Z.pow]|split; [done|split]].
    + apply Forall_forall. intros x Hx. eapply at_hand_store; [done| | |by eapply (proj1 (Forall_forall _ _) Hh)].
      * apply with_digest_key.
      * by eapply (proj1 (Forall_forall _ _) (Hoth _ Hk)).
    + by rewrite length_insert.
    + unfold store_keys. cbn -[Z.pow]. rewrite list_fmap_insert. apply list_insert_id.
      rewrite list_lookup_fmap, Hj. cbn. by rewrite with_digest_key.
    + split; [done|]. cbn. unfold store_keys. rewrite list_lookup_fmap, Hj. cbn. by rewrite Hk.
Qed.

Lemma loop_ok nulls strict sq ah : forall b, ready strict sq b ah ->
  exists b' es, loop nulls strict sq ah b = inr b' /\ b_entries b' = b_entries b ++ es /\
    store_keys b' = store_keys b /\
    (fun x => (source_key (store_keys b) x.1.1, x.2)) <$> es = outline_of (b_sum b) ah /\
    b_sum b' = (b_sum b + foldr Z.add 0 (d <$> ah)) mod modulus.
Proof.
  induction ah as [|a ah IH]; intros b Hr; simpl.
  { exists b, []. rewrite app_nil_r, Z.add_0_r. destruct Hr. by rewrite Z.mod_small by lia. }
  destruct (step_ok nulls strict sq b a ah Hr) as (b1 & src & s & -> & Hr1 & Hs1 & Hk1 & He1 & Hsrc).
  destruct (IH b1 Hr1) as (b' & es & Hl & He & Hk & Ho & Hs).
  exists b', ((src, s, MD5_sum (b_sum b1)) :: es). split; [done|]. split; [by rewrite He, He1, <- app_assoc|].
  split; [congruence|]. rewrite fmap_cons. cbn [fst snd]. rewrite Hsrc, <- Hk1, Ho, Hs, Hs1. split; [done|].
  rewrite Z.add_mod_idemp_l by lia. f_equal. symmetry. apply Z.add_assoc.
Qed.

(** The replica holds every element of [ah], each with its digest; when nothing is missing
    ([strict], the last abort of ZLight), all of them in its own log. *)
Definition holds (strict : bool) (old : ReqHistory.t R) (store : list (option R)) (sq : list Z)
    (ah : list AbortHistoryElement) : Prop :=
  Forall (at_hand (ReqHistory.rh old) store) ah /\ (strict = true -> Forall (own (ReqHistory.rh old)) ah) /\
  length sq = length store.

Lemma rebuild_outline strict ah old store sq : NoDup (akey <$> ah) ->
  Forall (fun a => 0 <= d a < 2 ^ 128) ah -> holds strict old store sq ah ->
  exists h, rebuild true strict ah old store sq = inr h /\ outline h = outline_of 0 ah /\
    ReqHistory.rh_d h = foldr Z.add 0 (d <$> ah) mod modulus.
Proof.
  intros Hnd Hrg (Hh & Hown & Hl). unfold rebuild.
  destruct (loop_ok true strict sq ah (mk_building [] 0 (ReqHistory.rh old) store))
    as (b' & es & -> & He & Hk & Ho & Hs); [constructor; simpl; try done; lia|].
  eexists. split; [done|]. split; [|exact Hs]. simpl in He.
  cbn [b_sum] in Ho. rewrite <- Ho. unfold outline, finish. cbn [ReqHistory.rh]. rewrite He, <- list_fmap_compose.
  apply list_fmap_ext. intros _ [[src s] dg] _. unfold resolve, compose. cbn [fst snd ReqHistory.req ReqHistory.d_h].
  f_equal. rewrite <- Hk. destruct src as [r|j]; [done|]. unfold source_key, store_keys.
  rewrite list_lookup_fmap. by destruct (b_store b' !! j) as [[r|]|].
Qed.

(** C10. Replicas that rebuild their histories from the same merged history, whose elements
    differ in client or request id, each holding every element of it, with its digest, in its
    own log (the first entry with that client and request id) or else among the requests it was
    sent, agree: both succeed, their new histories list the same requests in the
    order of [ah_2], with the same running digests, and have the same digest,
    whatever else the replicas had logged.  This is for the loops that null the entries they take:
    all but that of the last get-a-grip of ZLight. *)
Theorem recovery_agreement b1 b2 ah old1 old2 st1 st2 sq1 sq2 : NoDup (akey <$> ah) ->
  Forall (fun a => 0 <= d a < 2 ^ 128) ah -> holds b1 old1 st1 sq1 ah -> holds b2 old2 st2 sq2 ah ->
  exists h1 h2, rebuild true b1 ah old1 st1 sq1 = inr h1 /\ rebuild true b2 ah old2 st2 sq2 = inr h2 /\
    outline h1 = outline_of 0 ah /\ outline h2 = outline h1 /\
    ReqHistory.rh_digest MD5_sum h2 = ReqHistory.rh_digest MD5_sum h1.
Proof.
  intros Hnd Hrg H1 H2.
  destruct (rebuild_outline b1 ah _ _ _ Hnd Hrg H1) as (h1 & ? & Ho1 & Hs1).
  destruct (rebuild_outline b2 ah _ _ _ Hnd Hrg H2) as (h2 & ? & Ho2 & Hs2).
  exists h1, h2. unfold ReqHistory.rh_digest. by rewrite Ho1, Ho2, Hs1, Hs2.
Qed.

(** ** Totality *)

(** What is known of every request: its digest is in range, and overwriting the
    digest with that of a sum keeps it so. *)
Context (in_range : R -> Prop).
Hypothesis in_range_digest : forall r, in_range r -> 0 <= req_digest r < 2 ^ 128.
Hypothesis in_range_with : forall x r, in_range r -> in_range (with_digest (MD5_sum x) r).

Definition entry_ok (e : entry) : Prop := forall r, ReqHistory.req e = Some r -> in_range r.
Definition slot_ok (o : option R) : Prop := exists r, o = Some r /\ in_range r.

(** The invariant of the loop, whatever the merged history is. *)
Record sound (n : nat) (b : building) : Prop := {
  sound_sum : 0 <= b_sum b < modulus;
  sound_old : Forall entry_ok (b_old b);
  sound_store : Forall slot_ok (b_store b);
  sound_len : length (b_store b) = n;
  sound_entries : Forall (fun x => match x.1.1 with Logged r => in_range r | Stored j => (j < n)%nat end) (b_entries b)
}.

Lemma append_sound n b src r s : sound n b -> in_range r ->
  match src with Logged r' => in_range r' | Stored j => (j < n)%nat end ->
  exists b', append b src r s = inr b' /\ sound n b' /\ b_old b' = b_old b /\ b_store b' = b_store b.
Proof.
  intros [] Hr Hsrc. unfold append. pose proof (in_range_digest _ Hr). rewrite DSum.add_mod by lia.
  eexists. split; [done|]. split; [|done]. constructor; simpl; try done.
  - apply Z.mod_pos_bound. lia.
  - apply Forall_app. split; [done|]. by repeat constructor.
Qed.

Lemma find_stored_total st a m : Forall slot_ok st -> exists o, find_stored st a m = inr o.
Proof.
  intros Hs. revert m. induction Hs as [|o st (r & -> & _) _ IH]; intros m; [by eexists|]. simpl.
  case_bool; [by eexists|apply IH].
Qed.

Lemma step_sound nulls sq n b a : sound n b -> length sq = n ->
  exists b', step nulls false sq b a = inr b' /\ sound n b'.
Proof.
  intros Hs Hl. unfold step. destruct (find_pos (b_old b) (cid a) (rid a)) as [i|] eqn:Ef.
  - pose proof (find_pos_spec (b_old b) (cid a) (rid a)) as Hsp. rewrite Ef in Hsp.
    destruct Hsp as ([o s dg] & r & He & Hr0 & _). simpl in Hr0. subst o. unfold take_logged. rewrite He.
    assert (Hr : in_range r) by (by apply (Forall_lookup_1 _ _ _ _ (sound_old _ _ Hs) He)).
    destruct (append_sound n b (Logged r) r s Hs Hr Hr) as (b' & -> & [] & Ho & Hst).
    eexists. split; [done|]. constructor; simpl; try done.
    destruct nulls; [|done]. apply Forall_insert; [done|]. by intros ? [=].
  - destruct (find_stored_total (b_store b) a 0 (sound_store _ _ Hs)) as [o Ho].
    rewrite Ho. destruct o as [j|]; [|by eexists].
    destruct (find_stored_elem _ _ _ _ Ho) as (m & r & -> & Hj & _). set (j := (0 + m)%nat).
    change m with j in Hj. destruct (Forall_lookup_1 _ _ _ _ (sound_store _ _ Hs) Hj) as (r' & [= <-] & Hr).
    assert (Hjn : (j < n)%nat) by (rewrite <- (sound_len _ _ Hs); by eapply lookup_lt_Some).
    unfold take_stored. rewrite Hj. simpl.
    destruct (lookup_lt_is_Some_2 sq j ltac:(lia)) as [s Hsq]. rewrite Hsq.
    destruct (append_sound n b (Stored j) r s Hs Hr Hjn) as (b' & -> & [] & Hold & Hst).
    eexists. split; [done|]. constructor; simpl; try done; [|by rewrite length_insert].
    apply Forall_insert; [done|]. eexists. split; [done|]. by apply in_range_with.
Qed.

Lemma loop_sound nulls sq n ah : length sq = n -> forall b, sound n b ->
  exists b', loop nulls false sq ah b = inr b' /\ sound n b'.
Proof.
  intros Hl. induction ah as [|a ah IH]; intros b Hs; [by exists b|]. simpl.
  destruct (step_sound nulls sq n b a Hs Hl) as (b1 & -> & Hs1). by apply IH.
Qed.

(** With every slot of [missing_store] filled the loop never faults, and the
    digests of the new history stay in range. *)
Lemma rebuild_total ah old store sq : Forall entry_ok (ReqHistory.rh old) -> Forall slot_ok store ->
  length sq = length store ->
  exists h, rebuild true false ah old store sq = inr h /\ 0 <= ReqHistory.rh_d h < modulus /\
    Forall (fun e => slot_ok (ReqHistory.req e)) (ReqHistory.rh h).
Proof.
  intros Ho Hst Hl. unfold rebuild.
  destruct (loop_sound true sq (length store) ah Hl (mk_building [] 0 (ReqHistory.rh old) store)) as (b & -> & Hs).
  { constructor; simpl; try done; lia. }
  eexists. split; [done|]. split; [apply Hs|]. unfold finish. simpl. apply Forall_fmap.
  eapply Forall_impl; [apply Hs|]. intros [[[r|j] s] dg] Hx; simpl in *; [by exists r|].
  rewrite <- (sound_len _ _ Hs) in Hx. destruct (lookup_lt_is_Some_2 _ _ Hx) as [o Hj]. rewrite Hj.
  by apply (Forall_lookup_1 _ _ _ _ (sound_store _ _ Hs) Hj).
Qed.
End recover.

(** ** Two replicas, one request exchanged *)

Definition with3 (dg : Z) (r : Z * Z * Z) : Z * Z * Z := (r.1.1, r.1.2, dg).
#[local] Instance AReq_ex : AReq (Z * Z * Z) :=
  { client_id := fun r => r.1.1; request_id := fun r => r.1.2; req_digest := fun r => r.2 }.

Definition log_of (l : list (Z * Z * Z)) : ReqHistory.t (Z * Z * Z) :=
  ReqHistory.mk ((fun r => ReqHistory.mk_entry (Some r) 1 0) <$> l) 0.
Definition merged : list AbortHistoryElement := [AHE 4 1 10; AHE 5 1 20].
Definition rebuild_ex := rebuild with3 (2 ^ 200) id true false merged.

Lemma recovery_agreement_witness :
  exists h1 h2, rebuild_ex (log_of [(4, 1, 10); (5, 1, 20)]) [] [] = inr h1 /\
    rebuild_ex (log_of [(6, 3, 7); (4, 1, 10)]) [Some (5, 1, 20)] [9] = inr h2 /\
    outline h1 = [(Some (4, 1), 10); (Some (5, 1), 30)] /\ outline h2 = outline h1.
Proof.
  destruct (recovery_agreement with3 (2 ^ 200) id ltac:(done) ltac:(unfold DSum.nbits; lia) false false merged
    (log_of [(4, 1, 10); (5, 1, 20)]) (log_of [(6, 3, 7); (4, 1, 10)]) [] [Some (5, 1, 20)] [] [9])
    as (h1 & h2 & H1 & H2 & Ho & Ho' & _).
  - repeat constructor; set_solver.
  - repeat constructor; simpl; lia.
  - split; [|by split]. repeat constructor; (eexists _, _, _; split; [reflexivity|done]).
  - split; [|by split]. repeat constructor; [by eexists _, _, _|]. by exists O, (5, 1, 20).
  - exists h1, h2. split; [exact H1|]. split; [exact H2|]. split; [|exact Ho']. rewrite Ho. reflexivity.
Defined.

(** A replica that logged another request under the same client and request id
    keeps it, although it was sent the one the others agreed on: it ends with
    another history digest. *)
Lemma own_entry_wins :
  exists h1 h2, rebuild_ex (log_of [(4, 1, 10); (5, 1, 20)]) [] [] = inr h1 /\
    rebuild_ex (log_of [(4, 1, 10); (5, 1, 21)]) [Some (5, 1, 20)] [9] = inr h2 /\
    ReqHistory.rh_digest id h1 = 30 /\ ReqHistory.rh_digest id h2 = 31.
Proof. eexists _, _. split; [reflexivity|]. split; [reflexivity|]. split; reflexivity. Qed.

(** Without the nulling, a request taken from the old history is deleted with it. *)
Lemma taken_request_freed :
  rebuild with3 (2 ^ 200) id false false merged (log_of [(4, 1, 10)]) [Some (5, 1, 20)] [9] = inl NullDeref.
Proof. reflexivity. Qed.

(** A stored request leaves with the digest of the history (30) instead of its
    own (20). *)
Lemma stored_digest_overwritten :
  exists h e, rebuild_ex (log_of [(4, 1, 10)]) [Some (5, 1, 20)] [9] = inr h /\
    ReqHistory.find h 5 1 = Some e /\ ReqHistory.req e = Some (5, 1, 30).
Proof. eexists _, _. split; [reflexivity|]. split; reflexivity. Qed.

End Recover.
