(* ===== verification/Smasher.v ===== *)
(** * Merging abort histories

    Models [src/protocols/zlight/zl_Smasher.cc] (class [zl_Smasher]),
    [zl_Abort_certificate.{h,cc}] and the accessors of [zl_Abort.h] they use.
    An abort message is seen through the tuples [cid, rid, digest] that follow
    its header: [entry_at a j] is what the bytes at tuple position [j] decode
    to.  Positions below [hist_size] are the sender's history; the bytes at
    position [hist_size] are the signature, and the code reads them (the test
    is [hist_size() < j]), so the model keeps [entry_at] total.

    The theorems: [process] never faults; what it selects at a position was
    voted by more than [t] aborts, hence by a correct replica; a history prefix
    common to the correct replicas survives the merge; [missing] is exactly
    the part of the merged history the replica does not have. *)

From S2P Require Import Prelude SCSet.
Local Open Scope Z_scope.

Module Smasher.

Record zl_Abort := mk_abort {
  a_id : Z; a_rid : Z; hist_size : nat; entry_at : nat -> AbortHistoryElement
}.

(** The sender's history. *)
Definition history (a : zl_Abort) : list AbortHistoryElement :=
  entry_at a <$> seq 0 (hist_size a).

(** ** [zl_Abort_certificate] *)

Record Abort_certificate := mk_cert { ac : list (option zl_Abort); count : Z; complete : Z }.

Definition ac_create (comp : Z) (num_rep : nat) : Abort_certificate :=
  mk_cert (replicate num_rep None) 0 comp.

(** [add]: the outer [None] is the bounds assertion of [Array::operator[]]. *)
Definition ac_add (c : Abort_certificate) (a : zl_Abort) : option (Abort_certificate * bool) :=
  if a_id a <? 0 then None else
  e ← ac c !! Z.to_nat (a_id a);
  match e with
  | Some _ => Some (c, false)
  | None => Some (mk_cert (<[Z.to_nat (a_id a) := Some a]> (ac c)) (count c + 1) (complete c), true)
  end.

Definition ac_is_complete (c : Abort_certificate) : bool := complete c <=? count c.

Definition ac_clear (c : Abort_certificate) : Abort_certificate :=
  mk_cert (replicate (length (ac c)) None) 0 (complete c).

(** ** [zl_Smasher::process] *)

Abbreviation set := (SCSet.t AbortHistoryElement).

(** The elements stored in [seeder] for position [j], in the order of the
    certificate. *)
Definition votes (aborts : list (option zl_Abort)) (j : nat) : list AbortHistoryElement :=
  omap (fun oa : option zl_Abort =>
          a ← oa; if (hist_size a <? j)%nat then None else Some (entry_at a j)) aborts.

(** [for (i = 0; i < seeder.size(); i++) if (seeder.fetch_count(i) >= t+1) ...] *)
Fixpoint first_voted (seeder : set) (t : Z) (i n : nat) : option AbortHistoryElement :=
  match n with
  | O => None
  | S n' => if t + 1 <=? SCSet.fetch_count seeder (Z.of_nat i)
            then SCSet.fetch seeder (Z.of_nat i)
            else first_voted seeder t (S i) n'
  end.

(** Phase 1: [while (!stop && j < size)], [n] iterations left. *)
Fixpoint phase1 (n : nat) (t : Z) (aborts : list (option zl_Abort)) (seeder : set) (j : nat)
    : option (list AbortHistoryElement) :=
  match n with
  | O => Some []
  | S n' =>
    seeder' ← SCSet.store_all (SCSet.clear seeder) (votes aborts j);
    match first_voted seeder' t 0 (SCSet.size seeder') with
    | None => Some []
    | Some x => rest ← phase1 n' t aborts seeder' (S j); Some (x :: rest)
    end
  end.

(** Phase 2: keep the first occurrence of every element. *)
Fixpoint phase2 (ah1 : list AbortHistoryElement) (seen : set)
    : option (list AbortHistoryElement * set) :=
  match ah1 with
  | [] => Some ([], seen)
  | x :: ah1' =>
    b ← SCSet.has seen x;
    if (b : bool) then phase2 ah1' seen
    else
      '(seen', _) ← SCSet.store seen x;
      '(ah2, seen'') ← phase2 ah1' seen';
      Some (x :: ah2, seen'')
  end.

(** Phase 3: count again the elements of the replica's own history. *)
Fixpoint phase3 (own : list AbortHistoryElement) (seen : set) : option set :=
  match own with
  | [] => Some seen
  | x :: own' =>
    b ← SCSet.has seen x;
    if (b : bool) then '(seen', _) ← SCSet.store seen x; phase3 own' seen'
    else phase3 own' seen
  end.

(** Phase 4: the members whose count is 1. *)
Fixpoint phase4 (seen : set) (i n : nat) : list AbortHistoryElement :=
  match n with
  | O => []
  | S n' =>
    if SCSet.fetch_count seen (Z.of_nat i) =? 1
    then match SCSet.fetch seen (Z.of_nat i) with
         | Some x => x :: phase4 seen (S i) n'
         | None => phase4 seen (S i) n'
         end
    else phase4 seen (S i) n'
  end.

(** [process(id)] of a smasher built with [(size, t, aborts)]: the merged
    history [AH_2] and the missing requests. *)
Definition process (size : nat) (t : Z) (aborts : list (option zl_Abort)) (id : nat)
    : option (list AbortHistoryElement * list AbortHistoryElement) :=
  ah1 ← phase1 size t aborts (SCSet.create (length aborts)) 0;
  '(ah2, seen) ← phase2 ah1 (SCSet.create (length ah1));
  me ← mjoin (aborts !! id);
  seen' ← phase3 (history me) seen;
  Some (ah2, phase4 seen' 0 (SCSet.size seen')).

(** The maximum of the history sizes, as computed by the caller. *)
Definition max_hist_size (aborts : list (option zl_Abort)) : nat :=
  foldl (fun m (oa : option zl_Abort) =>
           match oa with Some a => if (m <? hist_size a)%nat then hist_size a else m | None => m end)
        O aborts.

(** ** Phase 1 *)

(** The reference choice: the first distinct vote with more than [t] votes. *)
Definition winner (t : Z) (V : list AbortHistoryElement) (x : AbortHistoryElement) : Prop :=
  t + 1 <= Z.of_nat (SCSet.occ x V).

Lemma votes_length aborts j : (length (votes aborts j) <= length aborts)%nat.
Proof.
  unfold votes. induction aborts as [|oa l IH]; [done|]. csimpl.
  destruct oa as [a|]; simpl; [|lia]. destruct (hist_size a <? j)%nat; csimpl; lia.
Qed.

Lemma first_voted_spec seeder V t : SCSet.rep seeder (foldl SCSet.bump [] V) ->
  Z.of_nat (length V) < 2 ^ 32 -> 0 <= t ->
  match first_voted seeder t 0 (SCSet.size seeder) with
  | Some x => x ∈ V /\ winner t V x
  | None => forall x, ~ winner t V x
  end.
Proof.
  intros Hr HV Ht. pose proof Hr as (_ & Hl & Hnd & _).
  unfold SCSet.size. rewrite <- Hl. set (l := foldl SCSet.bump [] V) in *.
  assert (Hgen : forall k i, (i + k = length l)%nat ->
    (forall x, x ∈ take i l.*1 -> ~ winner t V x) ->
    match first_voted seeder t i k with
    | Some x => x ∈ V /\ winner t V x
    | None => forall x, ~ winner t V x
    end).
  { induction k as [|k IH]; intros i Hi Hno; simpl.
    - intros x Hw. destruct (decide (x ∈ V)) as [HxV|HxV].
      + apply (Hno x); [|done]. rewrite take_ge by (rewrite length_fmap; lia).
        apply (SCSet.foldl_bump_keys V [] x). by right.
      + unfold winner in Hw. rewrite <- SCSet.occ_pos in HxV. lia.
    - destruct (lookup_lt_is_Some_2 l i ltac:(lia)) as [[x c] Hx].
      pose proof (SCSet.fetch_spec _ _ i Hr ltac:(lia)) as Hf.
      pose proof (SCSet.fetch_count_spec _ _ i Hr ltac:(lia)) as Hfc.
      fold l in Hf, Hfc. rewrite Hx in Hf, Hfc. simpl in Hf, Hfc. injection Hfc as ->.
      pose proof (SCSet.rep_counts V _ i x c Hr HV Hx) as ->.
      destruct (Z.leb_spec (t + 1) (Z.of_nat (SCSet.occ x V))).
      + rewrite Hf. split; [|done]. apply SCSet.occ_pos. lia.
      + apply IH; [lia|]. intros y Hy.
        rewrite (take_S_r _ _ x) in Hy by (by rewrite list_lookup_fmap, Hx).
        apply elem_of_app in Hy as [Hy|Hy]; [by eapply Hno|].
        apply list_elem_of_singleton in Hy as ->. unfold winner. lia. }
  apply Hgen; [lia|]. intros x Hx. simpl in Hx. set_solver.
Qed.

(** One position: [clear], then the stores. *)
Lemma seed_spec seeder l aborts j : SCSet.rep seeder l -> SCSet.max_size seeder = length aborts ->
  exists s', SCSet.store_all (SCSet.clear seeder) (votes aborts j) = Some s' /\
    SCSet.rep s' (foldl SCSet.bump [] (votes aborts j)) /\ SCSet.max_size s' = length aborts.
Proof.
  intros Hr Hm. pose proof (votes_length aborts j).
  destruct (SCSet.store_all_spec _ _ (votes aborts j) (SCSet.clear_rep _ _ Hr)) as (s' & ? & ? & Hm').
  { simpl. lia. }
  exists s'. repeat (split; [done|]). by rewrite Hm'.
Qed.

(** The result of phase 1: position by position a winner, stopping early only
    where no element has more than [t] votes. *)
Lemma phase1_spec t aborts n : 0 <= t -> Z.of_nat (length aborts) < 2 ^ 32 ->
  forall seeder l j, SCSet.rep seeder l -> SCSet.max_size seeder = length aborts ->
  exists ah1, phase1 n t aborts seeder j = Some ah1 /\ (length ah1 <= n)%nat /\
    (forall k x, ah1 !! k = Some x -> winner t (votes aborts (j + k)) x) /\
    (length ah1 < n -> forall x, ~ winner t (votes aborts (j + length ah1)) x)%nat.
Proof.
  intros Ht Hlen. induction n as [|n IH]; intros seeder l j Hr Hm; simpl.
  { exists []. repeat split; simpl; try done; lia. }
  destruct (seed_spec seeder l aborts j Hr Hm) as (s' & -> & Hr' & Hm'). simpl.
  pose proof (votes_length aborts j).
  pose proof (first_voted_spec s' _ t Hr' ltac:(lia) Ht) as Hf.
  destruct (first_voted s' t 0 (SCSet.size s')) as [x|].
  - destruct (IH s' _ (S j) Hr' Hm') as (rest & -> & Hl & Hw & Hs). simpl.
    exists (x :: rest). repeat split; simpl; try lia.
    + intros [|k] y Hy; simplify_eq/=; [rewrite Nat.add_0_r; apply Hf|].
      rewrite <- Nat.add_succ_comm. by apply Hw.
    + intros. rewrite <- Nat.add_succ_comm. apply Hs. lia.
  - exists []. repeat split; simpl; try done; try lia.
    intros _. by rewrite Nat.add_0_r.
Qed.

(** ** Votes of correct and faulty replicas *)

Definition vote (j : nat) (a : zl_Abort) : option AbortHistoryElement :=
  if (hist_size a <? j)%nat then None else Some (entry_at a j).

(** The aborts present in the certificate. *)
Definition present (aborts : list (option zl_Abort)) : list zl_Abort := omap id aborts.

Lemma votes_present aborts j : votes aborts j = omap (vote j) (present aborts).
Proof.
  unfold votes, present. induction aborts as [|[a|] l IH]; [done| |]; csimpl; [|done].
  unfold vote. destruct (hist_size a <? j)%nat; by rewrite IH.
Qed.

Lemma occ_app {A} `{EqDecision A} (x : A) l1 l2 :
  SCSet.occ x (l1 ++ l2) = (SCSet.occ x l1 + SCSet.occ x l2)%nat.
Proof. unfold SCSet.occ. by rewrite filter_app, length_app. Qed.

Lemma occ_perm {A} `{EqDecision A} (x : A) l1 l2 : l1 ≡ₚ l2 -> SCSet.occ x l1 = SCSet.occ x l2.
Proof. intros Hp. unfold SCSet.occ. by rewrite Hp. Qed.

(** More than [t] votes with at most [t] faulty voters include a correct one. *)
Lemma winner_has_correct t aborts good bad j x :
  present aborts ≡ₚ good ++ bad -> Z.of_nat (length bad) <= t ->
  winner t (votes aborts j) x ->
  exists a, a ∈ good /\ (j <= hist_size a)%nat /\ entry_at a j = x.
Proof.
  intros Hp Hbad Hw. unfold winner in Hw.
  rewrite votes_present, (occ_perm x _ (omap (vote j) (good ++ bad))) in Hw by (by rewrite Hp).
  rewrite omap_app, occ_app in Hw.
  assert (SCSet.occ x (omap (vote j) bad) <= length bad)%nat.
  { etrans; [apply SCSet.occ_le|]. clear. induction bad as [|a l IH]; [done|]. csimpl.
    destruct (vote j a); csimpl; lia. }
  assert (Hg : (0 < SCSet.occ x (omap (vote j) good))%nat) by lia.
  apply SCSet.occ_pos, list_elem_of_omap in Hg as (a & Ha & Hv).
  exists a. split; [done|]. unfold vote in Hv.
  destruct (Nat.ltb_spec (hist_size a) j); simplify_eq. split; [lia|done].
Qed.

Lemma history_lookup a j : (j < hist_size a)%nat -> history a !! j = Some (entry_at a j).
Proof. intros Hj. unfold history. by rewrite list_lookup_fmap, lookup_seq_lt. Qed.

(** Where the correct replicas agree, their common element wins, and nothing
    else does. *)
Lemma common_winner t aborts good bad P j x :
  present aborts ≡ₚ good ++ bad -> Z.of_nat (length bad) <= t < Z.of_nat (length good) ->
  Forall (fun a => P `prefix_of` history a) good -> P !! j = Some x ->
  forall y, winner t (votes aborts j) y <-> y = x.
Proof.
  intros Hp Hcnt Hpre Hj y. unfold winner.
  rewrite votes_present, (occ_perm y _ (omap (vote j) (good ++ bad))) by (by rewrite Hp).
  rewrite omap_app, occ_app.
  assert (Hgood : omap (vote j) good = replicate (length good) x).
  { clear Hp Hcnt. induction Hpre as [|a l Ha Hl IH]; [done|]. csimpl.
    pose proof (prefix_lookup_Some _ _ _ _ Hj Ha) as Hx.
    assert (j < hist_size a)%nat.
    { apply lookup_lt_Some in Hx. unfold history in Hx. by rewrite length_fmap, length_seq in Hx. }
    rewrite history_lookup in Hx by done. simplify_eq. rewrite IH. unfold vote.
    destruct (Nat.ltb_spec (hist_size a) j); [lia|done]. }
  assert (Hocc : SCSet.occ y (replicate (length good) x) = if decide (x = y) then length good else O).
  { generalize (length good). intros n. induction n as [|n IH]; simpl; [by case_decide|].
    rewrite SCSet.occ_cons, IH. by case_decide. }
  assert (SCSet.occ y (omap (vote j) bad) <= length bad)%nat.
  { etrans; [apply SCSet.occ_le|]. clear. induction bad as [|a l IH]; [done|]. csimpl.
    destruct (vote j a); csimpl; lia. }
  rewrite Hgood, Hocc. case_decide; split; intros; subst; try done; lia.
Qed.

Lemma max_hist_size_ge aborts a : Some a ∈ aborts -> (hist_size a <= max_hist_size aborts)%nat.
Proof.
  intros Ha. unfold max_hist_size.
  assert (Hgen : forall l m, (m <= foldl (fun m (oa : option zl_Abort) =>
      match oa with Some a => if (m <? hist_size a)%nat then hist_size a else m | None => m end) m l)%nat).
  { induction l as [|[b|] l IH]; intros m; cbn [foldl]; [done| |done].
    etrans; [|apply IH]. destruct (Nat.ltb_spec m (hist_size b)); lia. }
  apply list_elem_of_split in Ha as (l1 & l2 & ->). rewrite foldl_app. cbn [foldl].
  etrans; [|apply Hgen]. case_match eqn:E; [done|]. by apply Nat.ltb_ge in E.
Qed.

(** ** Phases 2 to 4 *)

(** The first occurrences, in order, of the elements not already in [acc]. *)
Fixpoint firsts (acc l : list AbortHistoryElement) : list AbortHistoryElement :=
  match l with
  | [] => []
  | x :: l' => if decide (x ∈ acc) then firsts acc l' else x :: firsts (acc ++ [x]) l'
  end.

Lemma firsts_elem acc l x : x ∈ firsts acc l <-> x ∈ l /\ x ∉ acc.
Proof.
  revert acc. induction l as [|y l IH]; intros acc; simpl; [set_solver|].
  case_decide.
  - rewrite IH, elem_of_cons. naive_solver.
  - rewrite !elem_of_cons, IH, elem_of_app, list_elem_of_singleton.
    destruct (decide (x = y)); naive_solver.
Qed.

Lemma firsts_NoDup acc l : NoDup (firsts acc l).
Proof.
  revert acc. induction l as [|y l IH]; intros acc; simpl; [constructor|].
  case_decide; [done|]. constructor; [|done]. rewrite firsts_elem. set_solver.
Qed.

(** A duplicate-free prefix is kept as it is. *)
Lemma firsts_prefix acc P l : NoDup (acc ++ P) -> P `prefix_of` firsts acc (P ++ l).
Proof.
  revert acc. induction P as [|x P IH]; intros acc Hnd; simpl; [apply prefix_nil|].
  rewrite decide_False.
  - apply prefix_cons. apply IH. by rewrite <- app_assoc.
  - apply NoDup_app in Hnd as (_ & Hd & _). intros ?. eapply Hd; [done|set_solver].
Qed.

Lemma phase2_spec ah1 : forall seen l, SCSet.rep seen l -> Forall (fun p => p.2 = 1) l ->
  (length l + length ah1 <= SCSet.max_size seen)%nat ->
  exists seen' l', phase2 ah1 seen = Some (firsts l.*1 ah1, seen') /\ SCSet.rep seen' l' /\
    l'.*1 = l.*1 ++ firsts l.*1 ah1 /\ Forall (fun p => p.2 = 1) l'.
Proof.
  induction ah1 as [|x ah1 IH]; intros seen l Hr H1 Hc; simpl in *.
  { exists seen, l. by rewrite app_nil_r. }
  rewrite (SCSet.has_spec seen l x Hr). simpl.
  pose proof (SCSet.store_spec seen l x Hr) as Hs.
  case_bool_decide as Hx.
  - rewrite decide_True by done. apply (IH seen l Hr H1). lia.
  - rewrite decide_False in Hs by done. rewrite decide_False in Hs by lia.
    destruct Hs as (s' & -> & Hr' & Hm). rewrite decide_False by done. cbn [mbind option_bind].
    assert (Hb : SCSet.bump l x = l ++ [(x, 1)]).
    { apply SCSet.list_find_bump_None. apply list_find_None.
      apply Forall_forall. intros [y c] Hy ->. apply Hx. apply list_elem_of_fmap. by exists (y, c). }
    rewrite Hb in Hr'.
    destruct (IH s' (l ++ [(x, 1)]) Hr') as (s2 & l2 & Hp & Hr2 & Hk & H2).
    + apply Forall_app. split; [done|]. by constructor.
    + rewrite length_app. simpl. lia.
    + rewrite fmap_app in Hp, Hk. simpl in Hp, Hk. rewrite Hp. simpl.
      exists s2, l2. split; [done|]. split; [done|]. split; [|done].
      by rewrite Hk, <- app_assoc.
Qed.

Lemma phase3_spec own : forall seen l, SCSet.rep seen l ->
  (forall x, in_u 32 (SCSet.getc l x)) ->
  exists seen' l', phase3 own seen = Some seen' /\ SCSet.rep seen' l' /\ l'.*1 = l.*1 /\
    forall x, x ∈ l.*1 -> SCSet.getc l' x = wrapu 32 (SCSet.getc l x + Z.of_nat (SCSet.occ x own)).
Proof.
  induction own as [|y own IH]; intros seen l Hr Hg; simpl.
  { exists seen, l. repeat (split; [done|]). intros x _. by rewrite Z.add_0_r, wrapu_id. }
  rewrite (SCSet.has_spec seen l y Hr). simpl.
  pose proof (SCSet.store_spec seen l y Hr) as Hs.
  case_bool_decide as Hy.
  - rewrite decide_True in Hs by done. destruct Hs as (s' & -> & Hr' & _). simpl.
    destruct (IH s' (SCSet.bump l y) Hr') as (s2 & l2 & -> & Hr2 & Hk & Hc).
    { intros x. rewrite SCSet.getc_bump. case_decide; [by apply wrapu_range|done]. }
    rewrite SCSet.bump_keys, decide_True in Hk, Hc by done.
    exists s2, l2. repeat (split; [done|]). intros x Hx. rewrite Hc by done.
    rewrite SCSet.getc_bump, SCSet.occ_cons. case_decide; [|done].
    unfold wrapu. rewrite Z.add_mod_idemp_l by lia. f_equal. lia.
  - destruct (IH seen l Hr Hg) as (s2 & l2 & -> & Hr2 & Hk & Hc).
    exists s2, l2. repeat (split; [done|]). intros x Hx. rewrite Hc by done.
    rewrite SCSet.occ_cons, decide_False by (intros ->; done). done.
Qed.

Lemma phase4_spec seen l : SCSet.rep seen l ->
  phase4 seen 0 (SCSet.size seen) = (filter (fun p => p.2 = 1) l).*1.
Proof.
  intros Hr. pose proof Hr as (_ & Hl & _). unfold SCSet.size. rewrite <- Hl.
  assert (Hgen : forall k i, (i + k = length l)%nat ->
    phase4 seen i k = (filter (fun p => p.2 = 1) (drop i l)).*1).
  { induction k as [|k IH]; intros i Hi; simpl.
    - by rewrite drop_ge by lia.
    - destruct (lookup_lt_is_Some_2 l i ltac:(lia)) as [[x c] Hx].
      pose proof (SCSet.fetch_spec _ _ i Hr ltac:(lia)) as Hf.
      pose proof (SCSet.fetch_count_spec _ _ i Hr ltac:(lia)) as Hfc.
      rewrite Hx in Hf, Hfc. simpl in Hf, Hfc. injection Hfc as ->. rewrite Hf.
      rewrite (drop_S _ _ _ Hx), filter_cons. simpl.
      destruct (Z.eqb_spec c 1); [rewrite decide_True by done|rewrite decide_False by done];
        csimpl; rewrite IH by lia; done. }
  by rewrite Hgen by lia.
Qed.

(** ** [process] *)

Lemma rep_all_ones (l : list (AbortHistoryElement * Z)) x : Forall (fun p => p.2 = 1) l -> in_u 32 (SCSet.getc l x) /\
  (x ∈ l.*1 -> SCSet.getc l x = 1).
Proof.
  induction 1 as [|[y c] l Hy Hl IH]; simpl in *; [split; [unfold in_u; lia|set_solver]|].
  subst c. case_decide as E; [done|]. split; [apply IH|].
  intros [?|?]%elem_of_cons; [congruence|]. by apply IH.
Qed.

Lemma filter_missing (l : list (AbortHistoryElement * Z)) own : NoDup l.*1 ->
  (forall x, x ∈ l.*1 -> SCSet.getc l x = 1 + Z.of_nat (SCSet.occ x own)) ->
  (filter (fun p => p.2 = 1) l).*1 = filter (fun x => x ∉ own) l.*1.
Proof.
  intros Hnd Hc.
  assert (Hp : forall p, p ∈ l -> (p.2 = 1 <-> p.1 ∉ own)).
  { intros [x c] Hx. simpl. apply list_elem_of_lookup in Hx as [i Hi].
    pose proof (SCSet.getc_lookup _ _ _ _ Hnd Hi) as Hg. rewrite Hc in Hg.
    - rewrite <- SCSet.occ_pos. lia.
    - apply list_elem_of_fmap. exists (x, c). split; [done|]. by apply list_elem_of_lookup_2 in Hi. }
  clear Hnd Hc. induction l as [|p l IH]; [done|]. csimpl. rewrite !filter_cons.
  assert (Hpp : p.2 = 1 <-> p.1 ∉ own) by (apply Hp; set_solver).
  destruct (decide (p.2 = 1)); [rewrite decide_True by tauto|rewrite decide_False by tauto];
    csimpl; rewrite IH by (intros; apply Hp; set_solver); done.
Qed.

(** What [process] computes, on any certificate holding the replica's own
    abort: it never faults, [AH_1] is a sequence of winners, [AH_2] its first
    occurrences, and [missing] the part of [AH_2] outside the own history. *)
Lemma process_run size t aborts id me :
  0 <= t -> Z.of_nat (length aborts) < 2 ^ 32 -> aborts !! id = Some (Some me) ->
  Z.of_nat (hist_size me) < 2 ^ 16 ->
  exists ah1, (length ah1 <= size)%nat /\
    (forall k x, ah1 !! k = Some x -> winner t (votes aborts k) x) /\
    (length ah1 < size -> forall x, ~ winner t (votes aborts (length ah1)) x)%nat /\
    process size t aborts id =
      Some (firsts [] ah1, filter (fun x => x ∉ history me) (firsts [] ah1)).
Proof.
  intros Ht Hlen Hme Hh. unfold process.
  destruct (phase1_spec t aborts size Ht Hlen _ [] O (SCSet.create_rep (length aborts)) eq_refl)
    as (ah1 & -> & Hl & Hw & Hs).
  exists ah1. repeat (split; [done|]). simpl.
  destruct (phase2_spec ah1 _ [] (SCSet.create_rep (length ah1)) (Forall_nil_2 _))
    as (seen & l & -> & Hr & Hk & H1); [simpl; lia|].
  simpl in Hk. simpl. rewrite Hme. simpl.
  destruct (phase3_spec (history me) seen l Hr) as (seen' & l' & -> & Hr' & Hk' & Hc').
  { intros x. by apply rep_all_ones. }
  simpl. rewrite (phase4_spec _ _ Hr'). do 2 f_equal.
  rewrite filter_missing with (own := history me); [by rewrite Hk', Hk|apply Hr'|].
  rewrite Hk'. intros x Hx. rewrite Hc' by done.
  rewrite (proj2 (rep_all_ones l x H1) Hx). apply wrapu_id.
  pose proof (SCSet.occ_le x (history me)) as Ho. unfold history in Ho at 2.
  rewrite length_fmap, length_seq in Ho. unfold in_u. lia.
Qed.

(** ** The certificate *)

Definition ac_wf (c : Abort_certificate) : Prop :=
  count c = Z.of_nat (length (present (ac c))).

Lemma present_insert l i a : l !! i = Some None ->
  length (present (<[i := Some a]> l)) = S (length (present l)).
Proof.
  revert i. induction l as [|oa l IH]; intros [|i] Hi; simplify_eq/=; [done|].
  unfold present in *. csimpl. destruct oa; csimpl; by rewrite (IH i Hi).
Qed.

Lemma ac_add_wf c a c' b : ac_wf c -> ac_add c a = Some (c', b) -> ac_wf c'.
Proof.
  unfold ac_wf, ac_add. intros Hwf Ha. case_bool; [done|].
  destruct (ac c !! Z.to_nat (a_id a)) as [[x|]|] eqn:E; simplify_eq/=; [done|].
  rewrite (present_insert _ _ a E). lia.
Qed.

Lemma present_length_le l : (length (present l) <= length l)%nat.
Proof.
  unfold present. induction l as [|[a|] l IH]; csimpl; lia.
Qed.

(** With [complete = 3f+1 =] the number of replicas, a complete certificate
    has an abort of every replica. *)
Lemma ac_complete_all c i : ac_wf c -> complete c = Z.of_nat (length (ac c)) ->
  ac_is_complete c = true -> (i < length (ac c))%nat -> exists a, ac c !! i = Some (Some a).
Proof.
  unfold ac_wf, ac_is_complete. intros Hwf Hc Hd Hi. bsimp.
  assert (Hfull : length (present (ac c)) = length (ac c))
    by (pose proof (present_length_le (ac c)); lia).
  clear -Hfull Hi. revert i Hi. induction (ac c) as [|oa l IH]; intros i Hi; [simpl in Hi; lia|].
  pose proof (present_length_le l). unfold present in *.
  destruct oa as [a|]; csimpl in Hfull; [|simpl in Hfull; lia].
  destruct i as [|i]; [by exists a|]. apply IH; simpl in *; lia.
Qed.

(** ** Safety of the switch *)

(** C1. Nothing committed is lost by a switch: when at most [t] of the aborts
    come from faulty replicas and more than [t] come from correct ones, and the
    replica's own abort is there, any
    duplicate-free prefix common to the histories of all the correct replicas
    is a prefix of the merged history [AH_2], whatever the faulty aborts hold. *)
Theorem process_keeps_common_prefix t aborts id me good bad P :
  Z.of_nat (length aborts) < 2 ^ 32 -> aborts !! id = Some (Some me) ->
  Z.of_nat (hist_size me) < 2 ^ 16 ->
  present aborts ≡ₚ good ++ bad ->
  0 <= t -> Z.of_nat (length bad) <= t < Z.of_nat (length good) ->
  NoDup P -> Forall (fun a => P `prefix_of` history a) good ->
  exists ah2 missing,
    process (max_hist_size aborts) t aborts id = Some (ah2, missing) /\ P `prefix_of` ah2.
Proof.
  intros Hlen Hme Hh Hp Ht Hcnt Hnd Hpre.
  destruct (process_run (max_hist_size aborts) t aborts id me Ht Hlen Hme Hh)
    as (ah1 & Hl & Hw & Hs & ->).
  eexists _, _; split; [done|].
  assert (Hmax : (length P <= max_hist_size aborts)%nat).
  { destruct good as [|a good]; [simpl in Hcnt; lia|].
    inversion_clear Hpre as [|? ? Ha _]. apply prefix_length in Ha.
    unfold history in Ha. rewrite length_fmap, length_seq in Ha.
    etrans; [done|]. apply max_hist_size_ge.
    assert (Hin : a ∈ present aborts) by (rewrite Hp; set_solver).
    unfold present in Hin. apply list_elem_of_omap in Hin as (oa & ? & ?). simpl in *. by subst. }
  assert (HP : P = take (length P) ah1).
  { apply list_eq. intros j. destruct (P !! j) as [x|] eqn:Hj.
    - pose proof (common_winner t aborts good bad P j x Hp Hcnt Hpre Hj) as Hcw.
      assert (j < length P)%nat by (by apply lookup_lt_Some in Hj).
      rewrite lookup_take_lt by done. destruct (ah1 !! j) as [y|] eqn:Hy.
      + symmetry. f_equal. apply Hcw. by apply Hw.
      + apply lookup_ge_None in Hy.
        destruct (P !! length ah1) as [z|] eqn:Hz.
        * exfalso. apply (Hs ltac:(lia) z).
          by apply (common_winner t aborts good bad P _ z Hp Hcnt Hpre Hz).
        * apply lookup_ge_None in Hz. lia.
    - symmetry. apply lookup_take_None. right. by apply lookup_ge_None in Hj. }
  rewrite <- (take_drop (length P) ah1), <- HP. apply firsts_prefix. by simpl.
Qed.

(** Every element of the merged history was read from the abort of a
    correct replica, at a position not beyond that replica's history. *)
Theorem process_elements_correct size t aborts id me good bad :
  Z.of_nat (length aborts) < 2 ^ 32 -> aborts !! id = Some (Some me) ->
  Z.of_nat (hist_size me) < 2 ^ 16 ->
  present aborts ≡ₚ good ++ bad -> Z.of_nat (length bad) <= t ->
  exists ah2 missing, process size t aborts id = Some (ah2, missing) /\
    forall x, x ∈ ah2 -> exists a j, a ∈ good /\ (j <= hist_size a)%nat /\ entry_at a j = x.
Proof.
  intros Hlen Hme Hh Hp Hbad.
  destruct (process_run size t aborts id me ltac:(lia) Hlen Hme Hh) as (ah1 & Hl & Hw & _ & ->).
  eexists _, _; split; [done|]. intros x Hx. apply firsts_elem in Hx as [Hx _].
  apply list_elem_of_lookup in Hx as [k Hk].
  destruct (winner_has_correct t aborts good bad k x Hp Hbad (Hw k x Hk)) as (a & ? & ? & ?). eauto.
Qed.

(** C22. When the replica's own abort is in the certificate, [AH_2] has no duplicates and [missing] lists, in order, exactly its
    elements that the replica's own history lacks; [process] never faults. *)
Theorem process_missing_exact size t aborts id me :
  0 <= t -> Z.of_nat (length aborts) < 2 ^ 32 -> aborts !! id = Some (Some me) ->
  Z.of_nat (hist_size me) < 2 ^ 16 ->
  exists ah2, process size t aborts id = Some (ah2, filter (fun x => x ∉ history me) ah2) /\
    NoDup ah2 /\ (length ah2 <= size)%nat.
Proof.
  intros Ht Hlen Hme Hh.
  destruct (process_run size t aborts id me Ht Hlen Hme Hh) as (ah1 & Hl & _ & _ & ->).
  exists (firsts [] ah1). split; [done|]. split; [apply firsts_NoDup|].
  etrans; [|done]. clear. generalize (@nil AbortHistoryElement).
  induction ah1 as [|x l IH]; intros acc; simpl; [done|]. case_decide; simpl; [|specialize (IH (acc ++ [x])); lia].
  specialize (IH acc). lia.
Qed.

(** ** Witnesses: f = 1, four replicas, replica 3 faulty *)

Definition e1 := AHE 10 1 111.
Definition e2 := AHE 11 1 222.
Definition e3 := AHE 12 7 333.
Definition junk := AHE 99 99 999.
Definition abort_of (i : Z) (l : list AbortHistoryElement) : zl_Abort :=
  mk_abort i 1 (length l) (fun j => default junk (l !! j)).
Definition ex_good := [abort_of 0 [e1; e2]; abort_of 1 [e1; e2; e3]; abort_of 2 [e1; e2]].
Definition ex_bad := [abort_of 3 [e3; e3; e2; e1]].
Definition ex_aborts : list (option zl_Abort) := Some <$> (ex_good ++ ex_bad).

Example process_keeps_common_prefix_witness : exists ah2 missing,
  process (max_hist_size ex_aborts) 1 ex_aborts 0 = Some (ah2, missing) /\ [e1; e2] `prefix_of` ah2.
Proof.
  apply (process_keeps_common_prefix 1 ex_aborts 0 (abort_of 0 [e1; e2]) ex_good ex_bad [e1; e2]);
    try done.
  - apply NoDup_cons; split; [|apply NoDup_singleton]. rewrite list_elem_of_singleton. discriminate.
  - repeat constructor; [by exists []|by exists [e3]|by exists []].
Defined.

Example process_elements_correct_witness : exists ah2 missing,
  process 4 1 ex_aborts 0 = Some (ah2, missing) /\
  forall x, x ∈ ah2 -> exists a j, a ∈ ex_good /\ (j <= hist_size a)%nat /\ entry_at a j = x.
Proof.
  apply (process_elements_correct 4 1 ex_aborts 0 (abort_of 0 [e1; e2]) ex_good ex_bad); done.
Defined.

Example process_missing_exact_witness : exists ah2,
  process 4 1 ex_aborts 0 = Some (ah2, filter (fun x => x ∉ history (abort_of 0 [e1; e2])) ah2) /\
  NoDup ah2 /\ (length ah2 <= 4)%nat.
Proof. apply (process_missing_exact 4 1 ex_aborts 0 (abort_of 0 [e1; e2])); done. Defined.

(** [hist_size() < j] skips only the positions beyond the one past the
    history, so [process] also reads the bytes after the last entry (the start
    of the signature): two aborts of correct replicas whose signatures start
    alike put an element into [AH_2] that no replica executed. *)
Theorem process_reads_past_history :
  process (max_hist_size ex_aborts) 1 ex_aborts 0 = Some ([e1; e2; junk], [junk]) /\
  Forall (fun a => junk ∉ history a) (ex_good ++ ex_bad).
Proof.
  split; [vm_compute; reflexivity|]. apply Forall_forall. intros a Ha.
  rewrite <- (bool_decide_eq_true _). revert a Ha. rewrite <- Forall_forall.
  by repeat constructor.
Qed.

End Smasher.
