(* ===== verification/Certificate.v ===== *)
(** * Reply certificates

    Models [src/protocols/zlight/zl_Certificate.{h,t}] (a certificate is a set
    of matching messages of different replicas).  The message class of the
    template is the type class [CertMsg], which [Reply] instantiates; the
    message's [verify] is a parameter.

    The lemmas: adding never faults, [count] is the number of replicas marked
    in the bitmap, every accepted message matches the value when it was added,
    and a complete certificate has a verified message of every replica. *)

From S2P Require Import Prelude Bitmap.
Local Open Scope Z_scope.

Definition Max_num_replicas : Z := 32.

(** The methods a certificate asks of its message class. *)
Class CertMsg (T : Type) := {
  msg_id : T -> Z;
  msg_match : T -> T -> bool;
  msg_full : T -> bool
}.

Module Certificate.
Section certificate.
Context {T : Type} `{CertMsg T}.
(** The node: its id, the number of replicas, and message verification. *)
Context (node_id num_replicas : Z) (verify : T -> bool).

Record t := mk { complete : Z; count : Z; bmap : Bitmap.t; value : option T }.

Definition is_replica (id : Z) : bool := (0 <=? id) && (id <? num_replicas).

Definition create (comp : Z) : t := mk comp 0 (Bitmap.create Max_num_replicas false) None.

Definition cvalue (c : t) : option T := value c.
Definition is_complete (c : t) : bool := complete c <=? count c.
Definition clear (c : t) : t := mk (complete c) 0 (Bitmap.clear (bmap c)) None.
Definition set_complete (c : t) (k : Z) : t := mk k (count c) (bmap c) (value c).

(** Marking the sender; [None] is the bounds assertion of the bitmap. *)
Definition mark (c : t) (id : Z) : option t :=
  b ← Bitmap.test (bmap c) id;
  if (b : bool) then Some c
  else bm ← Bitmap.set (bmap c) id; Some (mk (complete c) (count c + 1) bm (value c)).

(** The message kept: a full one replaces an empty one. *)
Definition keep (old : option T) (m : T) : option T :=
  match old with
  | Some v => if negb (msg_full v) && msg_full m then Some m else Some v
  | None => Some m
  end.

Definition matches (old : option T) (m : T) : bool :=
  match old with None => true | Some v => msg_match v m end.

Definition add (c : t) (m : T) : option (t * bool) :=
  if msg_id m =? node_id then Some (c, false)
  else if verify m && is_replica (msg_id m) then
    if matches (value c) m then
      c1 ← mark c (msg_id m);
      Some (mk (complete c1) (count c1) (bmap c1) (keep (value c1) m), true)
    else Some (c, false)
  else Some (c, false).

Definition add_mine (c : t) (m : T) : option (t * bool) :=
  if negb (msg_id m =? node_id) then None
  else if is_replica (msg_id m) then
    if matches (value c) m then
      c1 ← mark c (msg_id m);
      Some (mk (complete c1) (count c1) (bmap c1) (keep (value c1) m), true)
    else Some (c, false)
  else Some (c, false).

(** Feeding a sequence of messages, as the receive loops do: the certificate
    and the messages it accepted. *)
Fixpoint adds (c : t) (ms : list T) : option (t * list T) :=
  match ms with
  | [] => Some (c, [])
  | m :: ms' =>
    '(c1, b) ← add c m;
    '(c2, acc) ← adds c1 ms';
    Some (c2, if (b : bool) then m :: acc else acc)
  end.

(** ** Invariant *)

(** [inv c acc]: [c] is what accepting [acc] makes of an empty certificate. *)
Record inv (c : t) (acc : list T) : Prop := {
  inv_wf : Bitmap.wf (bmap c);
  inv_num : Bitmap.num (bmap c) = Max_num_replicas;
  inv_count : count c = Z.of_nat (length (Bitmap.indices (bmap c) true 0 32));
  inv_bits : forall i, 0 <= i < Max_num_replicas ->
    Bitmap.bit (bmap c) i = true <-> exists m, m ∈ acc /\ msg_id m = i;
  inv_acc : forall m, m ∈ acc -> verify m = true /\ is_replica (msg_id m) = true;
  inv_value : match value c with
    | None => acc = []
    | Some v => v ∈ acc /\
        (forall m, m ∈ acc -> msg_full m = true -> msg_full v = true /\ msg_match v m = true)
    end
}.

Lemma create_inv comp : inv (create comp) [].
Proof.
  assert (Hb : forall i, 0 <= i < Max_num_replicas ->
    Bitmap.bit (Bitmap.create Max_num_replicas false) i = false)
    by (intros; apply Bitmap.create_bit; unfold Max_num_replicas, Bitmap.uint in *; lia).
  constructor; simpl; try done.
  - apply Bitmap.create_wf. unfold Max_num_replicas, Bitmap.uint. lia.
  - intros i Hi. rewrite Hb by done. split; [done|]. intros (m & ? & _). set_solver.
  - intros m Hm. set_solver.
Qed.

(** Setting a clear bit adds one to the number of set indices. *)
Lemma indices_set b b' i n lo : 0 <= lo -> lo <= i < lo + Z.of_nat n ->
  Bitmap.bit b i = false ->
  (forall j, 0 <= j -> Bitmap.bit b' j = bool_decide (i = j) || Bitmap.bit b j) ->
  length (Bitmap.indices b' true lo n) = S (length (Bitmap.indices b true lo n)).
Proof.
  intros Hlo Hi Hc Hb. revert lo Hlo Hi.
  assert (Hsame : forall k lo, i < lo -> 0 <= lo ->
    Bitmap.indices b' true lo k = Bitmap.indices b true lo k).
  { induction k as [|n' IH]; intros lo Hlt H0; [done|]. rewrite !Bitmap.indices_cons.
    rewrite Hb by lia. rewrite bool_decide_eq_false_2 by lia. simpl.
    rewrite IH by lia. done. }
  induction n as [|n' IH]; intros lo Hlo Hi; [lia|]. rewrite !Bitmap.indices_cons, Hb by done.
  destruct (decide (i = lo)) as [->|Hne].
  - rewrite bool_decide_eq_true_2 by done. simpl. rewrite Hc. simpl.
    by rewrite Hsame by lia.
  - rewrite bool_decide_eq_false_2 by done. simpl.
    destruct (decide (Bitmap.bit b lo = true)); simpl; rewrite IH by lia; done.
Qed.

Lemma mark_inv c acc id : inv c acc -> 0 <= id < Max_num_replicas ->
  exists c', mark c id = Some c' /\ complete c' = complete c /\ value c' = value c /\
    Bitmap.wf (bmap c') /\ Bitmap.num (bmap c') = Max_num_replicas /\
    count c' = Z.of_nat (length (Bitmap.indices (bmap c') true 0 32)) /\
    forall j, 0 <= j -> Bitmap.bit (bmap c') j = bool_decide (id = j) || Bitmap.bit (bmap c) j.
Proof.
  intros Hi Hid. destruct Hi. unfold mark. rewrite Bitmap.test_spec by lia. simpl.
  destruct (Bitmap.bit (bmap c) id) eqn:Hb.
  - exists c. repeat (split; [done|]). intros j Hj. case_bool_decide; subst; by rewrite ?Hb.
  - destruct (Bitmap.set_spec (bmap c) id inv_wf0 ltac:(lia)) as (bm & -> & Hwf & Hn & Hbit).
    simpl. eexists; split; [done|]. simpl. split_and!; try done; try congruence.
    rewrite (indices_set (bmap c) bm id 32 0); try done; unfold Max_num_replicas in *; lia.
Qed.

Hypothesis nrep : 0 <= num_replicas <= Max_num_replicas.
Hypothesis match_refl : forall m, msg_match m m = true.

Lemma add_inv c acc m : inv c acc ->
  exists c' b, add c m = Some (c', b) /\ complete c' = complete c /\
    inv c' (if b then acc ++ [m] else acc).
Proof.
  intros Hinv. pose proof Hinv as Hinv0. destruct Hinv0. unfold add.
  case_bool; [by exists c, false|].
  destruct (verify m && is_replica (msg_id m)) eqn:Hv; [|by exists c, false].
  destruct (matches (value c) m) eqn:Hm; [|by exists c, false].
  apply andb_true_iff in Hv as [Hv Hrep]. pose proof Hrep as Hrep0.
  unfold is_replica in Hrep0. bsimp.
  assert (Hid : 0 <= msg_id m < Max_num_replicas) by lia.
  destruct (mark_inv c acc (msg_id m) Hinv Hid)
    as (c1 & -> & Hcomp & Hval & Hwf & Hnum & Hcnt & Hbit).
  simpl. eexists _, true. split; [done|]. split; [done|]. constructor; simpl; try done.
  - intros i Hi. rewrite Hbit by lia. rewrite orb_true_iff, bool_decide_eq_true, inv_bits0 by done.
    split.
    + intros [<-|(m' & ? & ?)]; [exists m|exists m']; set_solver.
    + intros (m' & Hin & <-). apply elem_of_app in Hin as [?| ->%list_elem_of_singleton]; eauto.
  - intros m' [?| ->%list_elem_of_singleton]%elem_of_app; auto.
  - rewrite Hval. unfold keep. unfold matches in Hm. destruct (value c) as [v|].
    + destruct inv_value0 as [Hin Hall].
      destruct (msg_full v) eqn:Hfv; simpl; [|destruct (msg_full m) eqn:Hfm];
        (split; [set_solver|]); intros m' [Hm'| ->%list_elem_of_singleton]%elem_of_app Hf;
        try destruct (Hall m' Hm' Hf); naive_solver.
    + subst acc. split; [set_solver|]. simpl. intros m' ->%list_elem_of_singleton Hf. auto.
Qed.

Lemma adds_inv ms : forall c acc, inv c acc ->
  exists c' acc', adds c ms = Some (c', acc') /\ complete c' = complete c /\ inv c' (acc ++ acc').
Proof.
  induction ms as [|m ms IH]; intros c acc Hi; simpl.
  { exists c, []. by rewrite app_nil_r. }
  destruct (add_inv c acc m Hi) as (c1 & b & -> & Hc1 & Hi1). simpl.
  destruct (IH c1 _ Hi1) as (c2 & acc2 & -> & Hc2 & Hi2). simpl.
  exists c2, (if b then m :: acc2 else acc2). split; [done|]. split; [congruence|].
  destruct b; [by rewrite <- app_assoc in Hi2|done].
Qed.

(** A count of at least [k] messages of replicas below [k] covers them all. *)
Lemma inv_complete_all c acc : inv c acc -> num_replicas <= count c ->
  forall i, 0 <= i < num_replicas -> exists m, m ∈ acc /\ msg_id m = i.
Proof.
  intros Hi Hc. destruct Hi.
  assert (Hup : forall j, num_replicas <= j < Max_num_replicas -> Bitmap.bit (bmap c) j <> true).
  { intros j Hj Hb. apply inv_bits0 in Hb as (m & Hm & <-); [|lia].
    destruct (inv_acc0 m Hm) as [_ Hr]. unfold is_replica in Hr. bsimp. lia. }
  unfold Max_num_replicas in *.
  assert (Hsplit : seqZ 0 32 = seqZ 0 num_replicas ++ seqZ num_replicas (32 - num_replicas)).
  { replace 32 with (num_replicas + (32 - num_replicas)) at 1 by lia. rewrite seqZ_app by lia. done. }
  unfold Bitmap.indices in inv_count0. change (Z.of_nat 32) with 32 in inv_count0.
  rewrite Hsplit, filter_app, length_app in inv_count0.
  rewrite (filter_none _ (seqZ num_replicas _)) in inv_count0.
  2:{ intros j Hj. apply elem_of_seqZ in Hj. apply Hup. lia. }
  rewrite Nat.add_0_r in inv_count0.
  assert (Hall : Forall (fun i => Bitmap.bit (bmap c) i = true) (seqZ 0 num_replicas)).
  { refine (length_filter_full _ _ _). rewrite length_seqZ. lia. }
  intros i Hir. apply inv_bits0; [lia|].
  rewrite Forall_forall in Hall. apply Hall. apply elem_of_seqZ. lia.
Qed.

(** Clearing gives back an empty certificate. *)
Lemma clear_create c acc : inv c acc -> clear c = create (complete c).
Proof.
  intros Hi. destruct Hi. unfold clear, create, Bitmap.clear, Bitmap.create. destruct inv_wf0 as (_ & Hn & _).
  rewrite inv_num0 in *. by rewrite Hn.
Qed.

(** Messages of all the replicas count as many. *)
Lemma inv_all_count c acc : inv c acc -> (forall i, 0 <= i < num_replicas -> exists m, m ∈ acc /\ msg_id m = i) -> num_replicas <= count c.
Proof.
  intros Hi Hall. destruct Hi. unfold Max_num_replicas in *. rewrite inv_count0. unfold Bitmap.indices. change (Z.of_nat 32) with 32.
  replace 32 with (num_replicas + (32 - num_replicas)) by lia. rewrite seqZ_app, filter_app, length_app by lia.
  rewrite (filter_every _ (seqZ 0 num_replicas)); [rewrite length_seqZ; lia|].
  apply Forall_forall. intros i Hir%elem_of_seqZ. apply inv_bits0; [lia|]. apply Hall. lia.
Qed.

End certificate.
Arguments t : clear implicits.
End Certificate.
