(* ===== verification/Reply.v ===== *)
(** * Replies

    Models [src/protocols/zlight/zl_Reply.{h,cc}] (the [match] and [verify] of a
    reply) as an instance of the certificate's message class, and the protocol
    names of [src/common/libbyz.h].  The MAC check and MD5 are parameters.

    The theorems: the full replies a certificate accepts agree, a complete
    certificate has a verified reply of every replica, and (findings) an empty
    reply vouches for nothing, so one full reply decides the outcome, and the
    size test of [verify] wraps around. *)

From S2P Require Import Prelude Bitmap Certificate.
Local Open Scope Z_scope.

Inductive protocols_e := quorum | chain | pbft | zlight | ring | aardvark.

Module Reply.

(** [zl_Reply_rep] and, after it, the reply bytes; [msg_size] is the size
    field of the message header. *)
Record t := mk {
  v : Z; rid : Z; rh_digest : Z; digest : Z; replica : Z; reply_size : Z; cid : Z;
  should_switch : bool; instance_id : protocols_e; msg_size : Z; body : list Z
}.

Definition sizeof_rep : Z := 80.
Definition MAC_size : Z := 16.

Definition full (r : t) : bool := 0 <=? reply_size r.

Definition matches (a b : t) : bool :=
  if (reply_size b <? 0) || (reply_size a <? 0) then true
  else (rh_digest a =? rh_digest b) && (v a =? v b) && (cid a =? cid b) && (rid a =? rid b)
       && ((reply_size b <? 0) || (reply_size a <? 0) || (digest a =? digest b)).

Definition set_instance_id (r : t) (nextp : protocols_e) : t :=
  mk (v r) (rid r) (rh_digest r) (digest r) (replica r) (reply_size r) (cid r) true nextp
     (msg_size r) (body r).

(** The size test of [verify]: [size()] is unsigned, so the differences are
    taken modulo 2^32. *)
Definition size_ok (r : t) : bool :=
  let rep_size := if full r then reply_size r else 0 in
  negb (wrapu 32 (wrapu 32 (msg_size r - sizeof_rep) - rep_size) <? MAC_size).

(** What [verify] reads, the reply and the MAC behind it, lies within the message (which
    [convert] has trimmed to its size).  It does not when the size test has wrapped;
    who verifies a reply has the access [in_bounds] of this first. *)
Definition reads_inside (num_replicas : Z) (r : t) : bool :=
  let rep_size := if full r then reply_size r else 0 in
  negb (Certificate.is_replica num_replicas (replica r)) || negb (size_ok r) || (sizeof_rep + rep_size + MAC_size <=? msg_size r).

(** [verify], with MD5 and the MAC check as parameters. *)
Definition verify (MD5 : list Z -> Z) (mac_ok : t -> bool) (num_replicas : Z) (r : t) : bool :=
  if negb (Certificate.is_replica num_replicas (replica r)) then false
  else if negb (size_ok r) then false
  else if full r && negb (MD5 (take (Z.to_nat (reply_size r)) (body r)) =? digest r) then false
  else mac_ok r.

#[export] Instance Reply_CertMsg : CertMsg t :=
  { msg_id := replica; msg_match := matches; msg_full := full }.

Lemma matches_refl (r : t) : msg_match r r = true.
Proof. simpl. unfold matches. destruct (reply_size r <? 0); [done|]. by rewrite !Z.eqb_refl. Qed.

(** What two full replies agree on when they match. *)
Definition key (r : t) := (rh_digest r, v r, cid r, rid r, digest r).

Lemma matches_full a b : full a = true -> full b = true -> matches a b = true <-> key a = key b.
Proof.
  unfold full, matches, key. intros Ha Hb. bsimp.
  rewrite (proj2 (Z.ltb_ge _ _)) by lia. rewrite (proj2 (Z.ltb_ge (reply_size a) _)) by lia. simpl.
  rewrite !andb_true_iff, !Z.eqb_eq. split.
  - intros ((((-> & ->) & ->) & ->) & ->). done.
  - intros. simplify_eq. done.
Qed.

Section reply_certificate.
Context (MD5 : list Z -> Z) (mac_ok : t -> bool) (num_replicas node_id : Z).
Hypothesis nrep : 0 <= num_replicas <= Max_num_replicas.

Abbreviation cert_adds := (Certificate.adds node_id num_replicas (verify MD5 mac_ok num_replicas)).

Lemma reply_adds_inv ms comp : exists c acc,
  cert_adds (Certificate.create comp) ms = Some (c, acc) /\ Certificate.complete c = comp /\
  Certificate.inv num_replicas (verify MD5 mac_ok num_replicas) c acc.
Proof.
  destruct (Certificate.adds_inv node_id num_replicas (verify MD5 mac_ok num_replicas) nrep
    matches_refl ms _ [] (Certificate.create_inv num_replicas _ comp)) as (c & acc & ? & ? & ?).
  by exists c, acc.
Qed.

(** A client's certificate over any sequence of replies never faults; when
    it becomes complete with [complete] at least the number of replicas, every
    replica has sent a reply that verified; and all the full replies accepted
    carry the same history digest, reply digest, view and request id as the
    value returned. *)
Theorem certificate_sound ms comp : num_replicas <= comp ->
  exists c acc, cert_adds (Certificate.create comp) ms = Some (c, acc) /\
    (Certificate.is_complete c = true ->
      (forall i, 0 <= i < num_replicas -> exists m, m ∈ acc /\ replica m = i /\
         verify MD5 mac_ok num_replicas m = true)) /\
    (forall m m', m ∈ acc -> m' ∈ acc -> full m = true -> full m' = true -> key m = key m') /\
    (forall m v, m ∈ acc -> Certificate.cvalue c = Some v -> full m = true ->
       full v = true /\ key v = key m).
Proof.
  intros Hcomp. destruct (reply_adds_inv ms comp) as (c & acc & -> & Hc & Hinv).
  pose proof Hinv as Hinv0. destruct Hinv0.
  assert (Hval : forall m v, m ∈ acc -> Certificate.cvalue c = Some v -> full m = true ->
    full v = true /\ key v = key m).
  { intros m v Hm Hv Hf. unfold Certificate.cvalue in Hv. rewrite Hv in inv_value.
    destruct inv_value as [_ Hall]. destruct (Hall m Hm Hf) as [Hfv Hmv].
    split; [done|]. by apply matches_full. }
  exists c, acc. split; [done|]. split; [|split; [|done]].
  - intros Hd i Hi. unfold Certificate.is_complete in Hd. bsimp.
    destruct (Certificate.inv_complete_all num_replicas _ nrep c acc Hinv ltac:(lia) i Hi)
      as (m & Hm & <-).
    exists m. repeat split; [done|]. by apply inv_acc.
  - intros m m' Hm Hm' Hf Hf'.
    destruct (Certificate.value c) as [v|] eqn:Hv; [|subst acc; set_solver].
    destruct (Hval m v Hm Hv Hf), (Hval m' v Hm' Hv Hf'). congruence.
Qed.

End reply_certificate.

(** ** Findings *)

(** An empty reply, and a full reply with an arbitrary payload. *)
Definition empty_reply (i : Z) : t := mk 0 7 0 0 i (-1) 5 false zlight 96 [].
Definition forged_reply (i : Z) (payload : list Z) (h : Z) : t :=
  mk 0 7 12345 h i (Z.of_nat (length payload)) 5 false zlight
     (96 + Z.of_nat (length payload)) payload.

(** Empty replies match anything, so in a group of [n] replicas a single
    replica that sends the only full reply decides the certificate: [n - 1]
    empty replies and one full reply with any payload complete it. *)
Theorem one_full_reply_decides (payload : list Z) :
  Z.of_nat (length payload) <= 1000 ->
  let MD5 := fun l : list Z => foldr Z.add 0 l in
  exists c acc,
    Certificate.adds 9 4 (verify MD5 (fun _ => true) 4)
      (Certificate.create 4)
      [empty_reply 0; empty_reply 1; empty_reply 2; forged_reply 3 payload (MD5 payload)]
    = Some (c, acc) /\
    Certificate.is_complete c = true /\
    Certificate.cvalue c = Some (forged_reply 3 payload (MD5 payload)).
Proof.
  intros Hp MD5.
  assert (Hf : full (forged_reply 3 payload (MD5 payload)) = true) by (apply Z.leb_le; simpl; lia).
  assert (Hv : verify MD5 (fun _ => true) 4 (forged_reply 3 payload (MD5 payload)) = true).
  { unfold verify. rewrite Hf. unfold size_ok. rewrite Hf.
    cbn -[Z.sub Z.add wrapu Z.ltb]. rewrite Nat2Z.id, firstn_all, Z.eqb_refl. simpl.
    unfold sizeof_rep, MAC_size. rewrite (wrapu_id 32 (96 + _ - 80)) by (unfold in_u; lia).
    rewrite wrapu_id by (unfold in_u; lia).
    rewrite (proj2 (Z.ltb_ge _ _)) by lia. done. }
  set (fr := forged_reply 3 payload (MD5 payload)) in *.
  assert (Hid : replica fr = 3) by done.
  assert (Hm : forall i, matches (empty_reply i) fr = true).
  { intros i. unfold matches. simpl. by rewrite orb_true_r. }
  assert (Hadd : forall c, Certificate.value c = Some (empty_reply 0) ->
    Certificate.add 9 4 (verify MD5 (fun _ => true) 4) c fr =
    c1 ← Certificate.mark c 3;
    Some (Certificate.mk (Certificate.complete c1) (Certificate.count c1) (Certificate.bmap c1)
            (Certificate.keep (Certificate.value c1) fr), true)).
  { intros c Hc. unfold Certificate.add. change (msg_id fr) with 3. rewrite Hv, Hc.
    cbn -[fr]. by rewrite Hm. }
  cbn [Certificate.adds].
  do 3 (match goal with |- context [Certificate.add 9 4 ?V ?c (empty_reply ?i)] =>
    let r := eval vm_compute in (Certificate.add 9 4 V c (empty_reply i)) in
    replace (Certificate.add 9 4 V c (empty_reply i)) with r by (vm_compute; reflexivity) end;
    cbn [mbind option_bind]).
  rewrite Hadd by done.
  match goal with |- context [Certificate.mark ?c 3] =>
    let r := eval vm_compute in (Certificate.mark c 3) in
    replace (Certificate.mark c 3) with r by (vm_compute; reflexivity) end.
  cbn [mbind option_bind]. unfold Certificate.keep. cbn [Certificate.value].
  change (msg_full fr) with (full fr). rewrite Hf. simpl.
  by eexists _, _.
Qed.

(** The length test of [verify] is computed in unsigned arithmetic: a
    message shorter than its header plus the announced reply passes it. *)
Theorem size_check_wraps (r : t) :
  sizeof_rep <= msg_size r < 2 ^ 31 -> 0 < reply_size r < 2 ^ 31 ->
  msg_size r < sizeof_rep + reply_size r -> size_ok r = true.
Proof.
  unfold size_ok, full, sizeof_rep, MAC_size. intros Hm Hr Hlt.
  rewrite (proj2 (Z.leb_le _ _)) by lia.
  rewrite (wrapu_id 32 (msg_size r - 80)) by (unfold in_u; lia).
  assert (E : wrapu 32 (msg_size r - 80 - reply_size r) = msg_size r - 80 - reply_size r + 2 ^ 32).
  { unfold wrapu. symmetry. apply Z.mod_unique with (-1); lia. }
  rewrite E. rewrite (proj2 (Z.ltb_ge _ _)) by lia. done.
Qed.

Lemma size_check_wraps_witness :
  size_ok (mk 0 1 0 0 0 5000 5 false zlight 90 []) = true.
Proof. apply size_check_wraps; unfold sizeof_rep; simpl; lia. Defined.

Lemma one_full_reply_decides_witness :
  exists c acc,
    Certificate.adds 9 4 (verify (fun l => foldr Z.add 0 l) (fun _ => true) 4) (Certificate.create 4)
      [empty_reply 0; empty_reply 1; empty_reply 2; forged_reply 3 [6; 6; 6] 18] = Some (c, acc) /\
    Certificate.is_complete c = true /\ Certificate.cvalue c = Some (forged_reply 3 [6; 6; 6] 18).
Proof. apply (one_full_reply_decides [6; 6; 6]). simpl. lia. Defined.

Lemma certificate_sound_witness :
  exists c acc,
    Certificate.adds 9 4 (verify (fun l => foldr Z.add 0 l) (fun _ => true) 4) (Certificate.create 4)
      ((fun i => forged_reply i [1; 2] 3) <$> [2; 0; 1; 3]) = Some (c, acc) /\
    Certificate.is_complete c = true /\
    (exists m, m ∈ acc /\ replica m = 2 /\ verify (fun l => foldr Z.add 0 l) (fun _ => true) 4 m = true).
Proof.
  destruct (certificate_sound (fun l => foldr Z.add 0 l) (fun _ => true) 4 9
              ltac:(unfold Max_num_replicas; lia)
              ((fun i => forged_reply i [1; 2] 3) <$> [2; 0; 1; 3]) 4 ltac:(lia))
    as (c & acc & Hr & Hc & _).
  exists c, acc. split; [exact Hr|].
  assert (Hd : Certificate.is_complete c = true) by (vm_compute in Hr; by injection Hr as <- <-).
  split; [exact Hd|]. apply Hc; [exact Hd|lia].
Defined.

End Reply.
