(* ===== verification/Switcher.v ===== *)
(** * The switcher

    [src/common/Switcher.h]: the list of the protocols of a process and of the
    functions that enable or disable them.  The elements are nodes of a heap, a
    [NULL] pointer is [None], and reading a pointer that is [NULL] or whose node
    was deleted is the [None] of the operation, as is a walk that does not end.
    [new] is a parameter that returns an address not in use. *)

From S2P Require Import Prelude Reply.
Local Open Scope Z_scope.

Module Switcher.

#[export] Instance protocols_e_eq : EqDecision protocols_e.
Proof. solve_decision. Defined.

Section switcher.
(** The functions, and the allocator. *)
Context {F : Type}.

Abbreviation ptr := (option positive).

Record LE := mk_le { protocol : protocols_e; func : F; next : ptr }.

Abbreviation heap := (gmap positive LE).

(** The heap and the member [list]. *)
Record t := mk_sw { mem : heap; head : ptr }.

Context (new_ : heap -> positive).

Definition create (h : heap) : t := mk_sw h None.

(** The walk from [p]; [Some None] is [NULL]. *)
Fixpoint find_loop (fuel : nat) (h : heap) (p : ptr) (protocol_ : protocols_e) : option ptr :=
  match fuel with
  | O => None
  | S fuel' =>
    match p with
    | None => Some None
    | Some a => x ← h !! a; if decide (protocol x = protocol_) then Some (Some a) else find_loop fuel' h (next x) protocol_
    end
  end.

(** A list without a cycle is not longer than the heap. *)
Definition find (sw : t) (protocol_ : protocols_e) : option ptr := find_loop (S (size (mem sw))) (mem sw) (head sw) protocol_.

Definition register_switcher (sw : t) (protocol_ : protocols_e) (f : F) : option t :=
  p ← find sw protocol_;
  let a := match p with Some a => a | None => new_ (mem sw) end in
  Some (mk_sw (<[a := mk_le protocol_ f (head sw)]> (mem sw)) (Some a)).

(** [while (ptr2->next && ptr2->next != ptr) ptr2 = ptr2->next]. *)
Fixpoint before_loop (fuel : nat) (h : heap) (p2 a : positive) : option positive :=
  match fuel with
  | O => None
  | S fuel' =>
    x ← h !! p2;
    match next x with
    | None => Some p2
    | Some b => if decide (b = a) then Some p2 else before_loop fuel' h b a
    end
  end.

Definition deregister_switcher (sw : t) (protocol_ : protocols_e) : option t :=
  p ← find sw protocol_;
  match p with
  | None => Some sw
  | Some a =>
    x ← mem sw !! a;
    if decide (Some a = head sw) then Some (mk_sw (delete a (mem sw)) (next x))
    else
      b ← head sw;
      p2 ← before_loop (S (size (mem sw))) (mem sw) b a;
      y ← mem sw !! p2;
      Some (mk_sw (delete a (<[p2 := mk_le (protocol y) (func y) (next x)]> (mem sw))) (head sw))
  end.

(** The call made, if any: the function and its argument. *)
Definition switch_state (sw : t) (protocol_ : protocols_e) (state : bool) : option (option (F * bool)) :=
  p ← find sw protocol_;
  match p with None => Some None | Some a => x ← mem sw !! a; Some (Some (func x, state)) end.

(** [~Switcher]: the loop reads [list->next] after deleting the node. *)
Fixpoint destroy_loop (fuel : nat) (h : heap) (p list : ptr) : option t :=
  match fuel with
  | O => None
  | S fuel' =>
    match p with
    | None => Some (mk_sw h None)
    | Some a =>
      let h := delete a h in
      l ← list; x ← h !! l;
      destroy_loop fuel' h (next x) (next x)
    end
  end.

Definition destroy (sw : t) : option t := destroy_loop (S (size (mem sw))) (mem sw) (head sw) (head sw).

(** ** Representation *)

(** The nodes from [p], as addresses, protocols and functions. *)
Fixpoint path (h : heap) (p : ptr) (l : list (positive * protocols_e * F)) : Prop :=
  match l with
  | [] => p = None
  | (a, k, f) :: l' => p = Some a /\ exists q, h !! a = Some (mk_le k f q) /\ path h q l'
  end.

Definition addrs (l : list (positive * protocols_e * F)) : list positive := (fun e => e.1.1) <$> l.
Definition entries (l : list (positive * protocols_e * F)) : list (protocols_e * F) := (fun e => (e.1.2, e.2)) <$> l.

(** The switcher holds the entries [es], each protocol once. *)
Definition rep (sw : t) (es : list (protocols_e * F)) : Prop :=
  exists l, path (mem sw) (head sw) l /\ NoDup (addrs l) /\ entries l = es /\ NoDup es.*1.

Lemma addrs_app l1 l2 : addrs (l1 ++ l2) = addrs l1 ++ addrs l2.
Proof. apply fmap_app. Qed.

Lemma path_frame h p l a x : path h p l -> a ∉ addrs l -> path (<[a := x]> h) p l.
Proof.
  revert p. induction l as [|[[b k] f] l IH]; intros p Hp Hn; [done|]. destruct Hp as (-> & q & Hb & Hp).
  apply not_elem_of_cons in Hn as [Hne Hn]. split; [done|]. exists q. split; [by rewrite lookup_insert_ne|]. by apply IH.
Qed.

Lemma path_delete h p l a : path h p l -> a ∉ addrs l -> path (delete a h) p l.
Proof.
  revert p. induction l as [|[[b k] f] l IH]; intros p Hp Hn; [done|]. destruct Hp as (-> & q & Hb & Hp).
  apply not_elem_of_cons in Hn as [Hne Hn]. split; [done|]. exists q. split; [by rewrite lookup_delete_ne|]. by apply IH.
Qed.

Lemma path_dom h p l a : path h p l -> a ∈ addrs l -> is_Some (h !! a).
Proof.
  revert p. induction l as [|[[b k] f] l IH]; intros p Hp Hin; [by apply elem_of_nil in Hin|]. destruct Hp as (-> & q & Hb & Hp).
  apply elem_of_cons in Hin as [->|Hin]; [by eexists|]. by eapply IH.
Qed.

Lemma path_size h p l : path h p l -> NoDup (addrs l) -> (length l <= size h)%nat.
Proof.
  intros Hp Hd. rewrite <- size_dom. replace (length l) with (size (list_to_set (C := gset positive) (addrs l))).
  - apply subseteq_size. intros a Ha. apply elem_of_list_to_set in Ha. apply elem_of_dom. by eapply path_dom.
  - rewrite size_list_to_set by done. unfold addrs. by rewrite length_fmap.
Qed.

(** The entry of a protocol: its place on the path. *)
Lemma find_loop_ok h k l : forall p fuel, path h p l -> (length l < fuel)%nat ->
  (k ∉ (entries l).*1 /\ find_loop fuel h p k = Some None) \/
  exists l1 a f l2, l = l1 ++ (a, k, f) :: l2 /\ k ∉ (entries l1).*1 /\ find_loop fuel h p k = Some (Some a).
Proof.
  induction l as [|[[b k'] f] l IH]; intros p fuel Hp Hf; (destruct fuel as [|fuel]; [simpl in Hf; lia|]).
  - left. rewrite Hp. split; [apply not_elem_of_nil|done].
  - destruct Hp as (-> & q & Hb & Hp). cbn [find_loop]. rewrite Hb. cbn [mbind option_bind protocol next].
    destruct (decide (k' = k)) as [->|Hne].
    + right. exists [], b, f, l. split; [done|]. split; [apply not_elem_of_nil|done].
    + destruct (IH q fuel Hp) as [[Hn ->]|(l1 & a & f' & l2 & -> & Hn & ->)]; [simpl in Hf; lia|left|right].
      * split; [|done]. apply not_elem_of_cons. split; [by intros ->|done].
      * exists ((b, k', f) :: l1), a, f', l2. split; [done|]. split; [|done]. apply not_elem_of_cons. split; [by intros ->|done].
Qed.

Lemma switcher_find_ok sw l k : path (mem sw) (head sw) l -> NoDup (addrs l) ->
  (k ∉ (entries l).*1 /\ find sw k = Some None) \/
  exists l1 a f l2, l = l1 ++ (a, k, f) :: l2 /\ k ∉ (entries l1).*1 /\ find sw k = Some (Some a).
Proof. intros Hp Hd. apply find_loop_ok; [done|]. pose proof (path_size _ _ _ Hp Hd). lia. Qed.

Lemma before_ok h a k f l2 l1 : forall b fuel, path h (Some b) (l1 ++ (a, k, f) :: l2) -> l1 <> [] ->
  NoDup (addrs (l1 ++ (a, k, f) :: l2)) -> (length l1 < fuel)%nat ->
  exists l0 p2 k2 f2, l1 = l0 ++ [(p2, k2, f2)] /\ before_loop fuel h b a = Some p2.
Proof.
  induction l1 as [|[[b1 k1] f1] l1 IH]; intros b fuel Hp Hne Hd Hf; [done|]. destruct fuel as [|fuel]; [simpl in Hf; lia|].
  destruct Hp as ([= ->] & q & Hb & Hp). cbn [before_loop]. rewrite Hb. cbn [mbind option_bind next].
  apply NoDup_cons in Hd as [_ Hd].
  destruct l1 as [|[[b2 k2] f2] l1].
  - destruct Hp as (-> & _). rewrite decide_True by done. by exists [], b1, k1, f1.
  - pose proof Hp as (-> & _). rewrite decide_False.
    + destruct (IH b2 fuel Hp) as (l0 & p2 & k3 & f3 & E & Hrun); [done|done|simpl in *; lia|].
      exists ((b1, k1, f1) :: l0), p2, k3, f3. split; [by rewrite E|done].
    + intros ->. apply NoDup_cons in Hd as [Hn _]. apply Hn. change (a ∈ addrs (l1 ++ (a, k, f) :: l2)). rewrite addrs_app. apply elem_of_app. right. apply elem_of_cons. by left.
Qed.

Lemma path_unlink h a k f p2 k2 f2 l2 : forall l0 p, path h p (l0 ++ (p2, k2, f2) :: (a, k, f) :: l2) ->
  NoDup (addrs (l0 ++ (p2, k2, f2) :: (a, k, f) :: l2)) ->
  exists q, h !! a = Some (mk_le k f q) /\ (exists q2, h !! p2 = Some (mk_le k2 f2 q2)) /\
    path (delete a (<[p2 := mk_le k2 f2 q]> h)) p (l0 ++ (p2, k2, f2) :: l2).
Proof.
  induction l0 as [|[[b1 k1] f1] l0 IH]; intros p Hp Hd.
  - destruct Hp as (-> & q2 & H2 & -> & q & Ha & Hp). exists q. split; [done|]. split; [by eexists|].
    apply NoDup_cons in Hd as [Hn2 Hd]. apply NoDup_cons in Hd as [Hna _]. apply not_elem_of_cons in Hn2 as [Hne Hn2].
    split; [done|]. exists q. split; [rewrite lookup_delete_ne by done; by rewrite lookup_insert_eq|].
    apply path_delete; [|done]. by apply path_frame.
  - destruct Hp as (-> & q1 & H1 & Hp). apply NoDup_cons in Hd as [Hn Hd].
    destruct (IH q1 Hp Hd) as (q & Ha & H2 & Hp'). exists q. split; [done|]. split; [done|].
    change (b1 ∉ addrs (l0 ++ (p2, k2, f2) :: (a, k, f) :: l2)) in Hn. rewrite addrs_app in Hn. apply not_elem_of_app in Hn as [_ Hn]. apply not_elem_of_cons in Hn as [Hn2 Hn]. apply not_elem_of_cons in Hn as [Hna _].
    split; [done|]. exists q1. split; [|done]. rewrite lookup_delete_ne, lookup_insert_ne by done. done.
Qed.

Fixpoint assoc (k : protocols_e) (es : list (protocols_e * F)) : option F :=
  match es with [] => None | (k', f) :: es' => if decide (k' = k) then Some f else assoc k es' end.

Lemma assoc_absent k es : k ∉ es.*1 -> assoc k es = None.
Proof.
  induction es as [|[k' f] es IH]; intros Hn; [done|]. cbn in Hn. apply not_elem_of_cons in Hn as [Hne Hn]. cbn.
  rewrite decide_False by (by intros ->). by apply IH.
Qed.

Lemma assoc_found k f es1 es2 : k ∉ es1.*1 -> assoc k (es1 ++ (k, f) :: es2) = Some f.
Proof.
  induction es1 as [|[k' f'] es1 IH]; intros Hn; cbn; [by rewrite decide_True|]. cbn in Hn. apply not_elem_of_cons in Hn as [Hne Hn].
  rewrite decide_False by (by intros ->). by apply IH.
Qed.

Lemma entries_app l1 l2 : entries (l1 ++ l2) = entries l1 ++ entries l2.
Proof. apply fmap_app. Qed.

Lemma filter_absent k (es : list (protocols_e * F)) : k ∉ es.*1 -> filter (fun e => e.1 <> k) es = es.
Proof.
  induction es as [|e es IH]; intros Hn; [done|]. apply not_elem_of_cons in Hn as [Hne Hn].
  rewrite filter_cons, decide_True by (by intros <-). f_equal. by apply IH.
Qed.

(** Removing an entry from a list where its protocol occurs once. *)
Lemma filter_found k f (es1 es2 : list (protocols_e * F)) : NoDup (es1 ++ (k, f) :: es2).*1 -> filter (fun e => e.1 <> k) (es1 ++ (k, f) :: es2) = es1 ++ es2.
Proof.
  intros Hd. rewrite fmap_app, fmap_cons in Hd. apply NoDup_app in Hd as (_ & Hx & Hd). apply NoDup_cons in Hd as [Hn _].
  rewrite filter_app, filter_cons, decide_False by (simpl; tauto). f_equal; apply filter_absent; [|done].
  intros Hin. apply (Hx k Hin). apply elem_of_cons. by left.
Qed.

Lemma NoDup_drop_middle {A} (l1 l2 : list A) x : NoDup (l1 ++ x :: l2) -> NoDup (l1 ++ l2).
Proof.
  intros (H1 & Hx & H2)%NoDup_app. apply NoDup_cons in H2 as [_ H2]. apply NoDup_app. split; [done|]. split; [|done].
  intros y Hy Hy2. apply (Hx y Hy). apply elem_of_cons. by right.
Qed.

Lemma deregister_found sw l1 a k f l2 : path (mem sw) (head sw) (l1 ++ (a, k, f) :: l2) -> NoDup (addrs (l1 ++ (a, k, f) :: l2)) ->
  find sw k = Some (Some a) -> exists sw', deregister_switcher sw k = Some sw' /\ path (mem sw') (head sw') (l1 ++ l2).
Proof.
  intros Hp Hd Hfind. unfold deregister_switcher. rewrite Hfind. cbn [mbind option_bind]. destruct l1 as [|[[b k1] f1] l1].
  - destruct Hp as (Hh & q & Ha & Hp). rewrite Ha. cbn [mbind option_bind]. rewrite decide_True by done.
    eexists. split; [done|]. apply path_delete; [done|]. by apply NoDup_cons in Hd as [? _].
  - pose proof Hp as (Hh & _). pose proof (path_size _ _ _ Hp Hd) as Hsz. rewrite length_app in Hsz. rewrite Hh in Hp |- *.
    destruct (before_ok (mem sw) a k f l2 ((b, k1, f1) :: l1) b (S (size (mem sw))) Hp) as (l0 & p2 & k2 & f2 & E & Hrun); [done|done|simpl in *; lia|].
    rewrite E in *. rewrite <- app_assoc in *. cbn [app] in *.
    destruct (path_unlink _ _ _ _ _ _ _ _ _ _ Hp Hd) as (q & Ha & (q2 & H2) & Hp'). rewrite Ha. cbn [mbind option_bind].
    rewrite decide_False.
    + cbn [mbind option_bind]. rewrite Hrun. cbn [mbind option_bind]. rewrite H2. cbn [mbind option_bind protocol func next].
      eexists. split; [done|]. exact Hp'.
    + intros [= ->]. destruct l0 as [|[[b3 k3] f3] l0]; simpl in E; simplify_eq; apply NoDup_cons in Hd as [Hn _]; apply Hn;
        [apply elem_of_cons; by left|]. change (b3 ∈ addrs (l0 ++ (p2, k2, f2) :: (b3, k, f) :: l2)). rewrite addrs_app. apply elem_of_app. right. apply elem_of_cons. right. apply elem_of_cons. by left.
Qed.

Context (new_fresh : forall h, h !! new_ h = None).

(** With each protocol registered once, the switcher is a table: switching
    a protocol calls its function and no other, deregistering one removes
    exactly it, and registering a new one adds it. *)
Theorem switcher_table sw es k f state : rep sw es ->
  switch_state sw k state = Some ((., state) <$> assoc k es) /\
  (exists sw', deregister_switcher sw k = Some sw' /\ rep sw' (filter (fun e => e.1 <> k) es)) /\
  (k ∉ es.*1 -> exists sw', register_switcher sw k f = Some sw' /\ rep sw' ((k, f) :: es)).
Proof.
  intros (l & Hp & Hd & <- & Hes). unfold switch_state.
  destruct (switcher_find_ok sw l k Hp Hd) as [[Hn Hf]|(l1 & a & f' & l2 & -> & Hn & Hf)].
  - split; [rewrite Hf, assoc_absent by done; done|]. split.
    + unfold deregister_switcher. rewrite Hf. eexists. split; [done|]. exists l. split; [done|]. split; [done|].
      by rewrite filter_absent.
    + intros _. unfold register_switcher. rewrite Hf. cbn [mbind option_bind]. eexists. split; [done|].
      assert (Hna : new_ (mem sw) ∉ addrs l).
      { intros Hin. destruct (path_dom _ _ _ _ Hp Hin) as [x Hx]. by rewrite new_fresh in Hx. }
      exists ((new_ (mem sw), k, f) :: l). split; [|split; [by apply NoDup_cons|split; [done|by apply NoDup_cons]]].
      split; [done|]. eexists. split; [apply lookup_insert_eq|]. by apply path_frame.
  - split; [|split].
    + rewrite Hf. cbn [mbind option_bind]. rewrite entries_app. change (entries ((a, k, f') :: l2)) with ((k, f') :: entries l2). rewrite assoc_found by done.
      assert (Ha : exists q, mem sw !! a = Some (mk_le k f' q)).
      { clear Hd Hes Hn Hf. revert Hp. generalize (head sw). induction l1 as [|[[b k1] f1] l1 IH]; intros p Hp.
        - destruct Hp as (_ & q & Hq & _). by exists q.
        - destruct Hp as (_ & q & _ & Hp). by eapply IH. }
      destruct Ha as [q ->]. done.
    + destruct (deregister_found sw l1 a k f' l2 Hp Hd Hf) as (sw' & -> & Hp'). exists sw'. split; [done|]. exists (l1 ++ l2).
      rewrite !entries_app in *. change (entries ((a, k, f') :: l2)) with ((k, f') :: entries l2) in *. rewrite filter_found by done.
      split; [done|]. split; [rewrite addrs_app in *; by eapply NoDup_drop_middle|]. split; [done|].
      rewrite !fmap_app in *. by eapply NoDup_drop_middle.
    + intros Hn'. exfalso. apply Hn'. rewrite entries_app, fmap_app. apply elem_of_app. right. apply elem_of_cons. by left.
Qed.

(** Registering again a protocol that heads the list makes its node its own
    successor: looking up a protocol that is not registered then never ends,
    and destroying a switcher that is not empty reads a deleted node. *)
Theorem switcher_breaks h a k f f' q k2 : h !! a = Some (mk_le k f q) -> k2 <> k ->
  destroy (mk_sw h (Some a)) = None /\
  exists sw', register_switcher (mk_sw h (Some a)) k f' = Some sw' /\
    (forall fuel, find_loop fuel (mem sw') (head sw') k2 = None).
Proof.
  intros Ha Hk. split.
  - unfold destroy. cbn [mem head destroy_loop mbind option_bind]. by rewrite lookup_delete_eq.
  - unfold register_switcher, find. cbn [mem head find_loop]. rewrite Ha. cbn [mbind option_bind protocol]. rewrite decide_True by done.
    eexists. split; [done|]. cbn [mem head]. induction fuel as [|fuel IH]; [done|]. cbn [find_loop]. rewrite lookup_insert_eq. cbn [mbind option_bind protocol next].
    by rewrite decide_False.
Qed.

End switcher.

(** ** Examples *)

Definition ex_new (h : gmap positive (@LE nat)) : positive := fresh (elements (dom h : gset positive)).

Lemma ex_new_fresh h : h !! ex_new h = None.
Proof. apply (not_elem_of_dom (D := gset positive)). intros Hin. apply elem_of_elements in Hin. by apply infinite_is_fresh in Hin. Qed.

Definition ex_sw : @t nat := mk_sw (<[1%positive := mk_le zlight 7%nat (Some 2%positive)]> {[ 2%positive := mk_le chain 8%nat None ]}) (Some 1%positive).

Lemma ex_sw_rep : rep ex_sw [(zlight, 7%nat); (chain, 8%nat)].
Proof.
  exists [(1%positive, zlight, 7%nat); (2%positive, chain, 8%nat)].
  split; [|split; [|split; [done|]]].
  - split; [done|]. eexists. split; [done|]. split; [done|]. by eexists.
  - apply NoDup_cons. split; [by intros ?%list_elem_of_singleton|]. apply NoDup_singleton.
  - apply NoDup_cons. split; [by intros ?%list_elem_of_singleton|]. apply NoDup_singleton.
Qed.

Lemma switcher_table_witness : switch_state ex_sw chain true = Some (Some (8%nat, true)).
Proof. apply (switcher_table ex_new ex_new_fresh ex_sw _ chain 9%nat true ex_sw_rep). Defined.

Lemma switcher_breaks_witness : destroy ex_sw = None.
Proof. eapply (switcher_breaks ex_new (mem ex_sw) 1%positive zlight 7%nat 9%nat (Some 2%positive) chain); done. Defined.

End Switcher.
