(* ===== verification/ZlReplica.v ===== *)
(** * The ZLight replica

    Models [src/protocols/zlight/zl_Replica.{h,cc}] (every message handler,
    [execute_request], the switching operations), with the parts it is built
    from: [CheckpointSet], [zl_Rep_info.{h,cc}] (the last reply of every
    client), [zl_Request::verify], [zl_Order_request] and the states of
    [zl_ITimer].

    A handler is a computation of the monad [M]: it threads the replica state,
    accumulates the messages it sends, and may end in a [fault] (a failed
    [th_assert], a null or out-of-bounds access, [exit], or locking a mutex the
    thread already holds).  The cryptography, the replicated service
    ([exec_command]) and the robust monitor's verdict are parameters.  Handlers
    are atomic: the model interleaves whole handler runs. *)

From Stdlib Require Import Sorted.
From S2P Require Import Prelude Effects ReqHistory SCSet Recover Smasher Certificate Reply.
Local Open Scope Z_scope.

(** ** Messages *)

(** [q_command] is the [command_size] bytes from the end of the header on, whether or
    not they lie within the [q_size] bytes of the message. *)
Record zl_Request := mk_request {
  q_cid : Z; q_rid : Z; q_od : Z; q_extra : Z; q_command : list Z; q_size : Z
}.

#[export] Instance request_AReq : AReq zl_Request :=
  { client_id := q_cid; request_id := q_rid; req_digest := q_od }.

Definition zl_with_od (d : Z) (r : zl_Request) : zl_Request :=
  mk_request (q_cid r) (q_rid r) d (q_extra r) (q_command r) (q_size r).

(** The header fields the primary authenticates, and the piggybacked request. *)
Record zl_Order_request := mk_order {
  o_view : Z; o_seqno : Z; o_cid : Z; o_rid : Z; o_request : zl_Request
}.

Record zl_Checkpoint := mk_checkpoint { c_id : Z; c_seqno : Z; c_digest : Z }.
Record zl_Panic := mk_panic { p_cid : Z; p_rid : Z }.
Record zl_Missing := mk_missing { m_replica : Z; m_list : list (Z * Z) }.
Record zl_Get_a_grip := mk_gag { g_cid : Z; g_rid : Z; g_replica : Z; g_seqno : Z; g_request : zl_Request }.
Record zl_Client_notification := mk_notif { n_op : Z }.

(** [convert] succeeds on the tag of the message: the sum of the eight kinds. *)
Inductive zl_Message :=
| Request_msg (m : zl_Request)
| Order_request_msg (m : zl_Order_request)
| Checkpoint_msg (m : zl_Checkpoint)
| Panic_msg (m : zl_Panic)
| Abort_msg (m : Smasher.zl_Abort)
| Missing_msg (m : zl_Missing)
| Get_a_grip_msg (m : zl_Get_a_grip)
| Client_notification_msg (m : zl_Client_notification)
| Unknown_msg.

Inductive replica_state :=
| replica_state_NORMAL | replica_state_PANICKING | replica_state_MISWAITING
| replica_state_STOP | replica_state_ABORTING.

#[export] Instance replica_state_eq_dec : EqDecision replica_state.
Proof. solve_decision. Defined.

(** ** Timers: [zl_ITimer] *)

Inductive timer_state := stopped | running | expired.

Definition timer_restart (t : timer_state) : timer_state :=
  match t with stopped | expired => running | running => running end.
Definition timer_start (t : timer_state) : timer_state :=
  match t with stopped => timer_restart t | _ => t end.
Definition timer_stop (t : timer_state) : timer_state :=
  match t with running => stopped | _ => t end.

(** ** [CheckpointSet] *)

Module CheckpointSet.

Record t := mk { elems : list (option zl_Checkpoint); n : Z; s : Z; complete : Z }.

Definition create (sz : nat) (c : Z) (seqno : Z) : t := mk (replicate sz None) 0 seqno c.

(** [add]: the outer [None] is the range assertion. *)
Definition add (cs : t) (i : Z) (c : zl_Checkpoint) : option (t * bool) :=
  if i <? 0 then None else
  e ← elems cs !! Z.to_nat i;
  if bool_decide (is_Some e) || negb (c_seqno c =? s cs) then Some (cs, false)
  else Some (mk (<[Z.to_nat i := Some c]> (elems cs)) (n cs + 1) (s cs) (complete cs), true).

Definition get (cs : t) (i : Z) : option (option zl_Checkpoint) :=
  if i <? 0 then None else elems cs !! Z.to_nat i.

Definition is_complete (cs : t) : bool := n cs =? complete cs.

Definition count (cs : t) : Z := n cs.

Definition get_seqno (cs : t) : Z := s cs.

End CheckpointSet.

Abbreviation CheckpointSet := CheckpointSet.t.

(** ** [zl_Rep_info]: one reply per principal *)

Record Rep_entry := mk_rep {
  rr_rid : Z; rr_reply_size : Z; rr_cid : Z; rr_rh_digest : Z; rr_digest : Z; rr_body : list Z
}.

Definition rep_initial : Rep_entry := mk_rep 0 (-1) (-1) 0 0 [].

(** ** State and monad *)

(** Where a message goes: one principal, all the replicas (multicast), or the
    robust monitor's TCP connections (a replica, or all of them). *)
Inductive output :=
| Executed (r : zl_Request)
| Send_reply (dest : Z) (r : Reply.t)
| Send_order (o : zl_Order_request)
| Send_panic (p : zl_Panic)
| Monitor_checkpoint (c : zl_Checkpoint)
| Monitor_panic (p : zl_Panic)
| Monitor_abort (a : Smasher.zl_Abort)
| Monitor_missing (m : zl_Missing)
| Monitor_gag (dest : Z) (g : zl_Get_a_grip)
| Monitor_req_notif
| Monitor_rep_notif
| Monitor_switch (p : protocols_e)
| Switch_other (p : protocols_e) (b : bool).

Module Replica.
Section replica.
Context {S : Type}.

Record state := mk_state {
  node_id : Z;
  seqno : Z;
  last_seqno : Z;
  req_count_switch : Z;
  replies : list Rep_entry;
  nb_retransmissions : Z;
  nb_sent_replies : Z;
  max_history_size : Z;
  rh : ReqHistory.t zl_Request;
  checkpoint_in_progress : bool;
  current_nb_requests_while_checkpointing : Z;
  current_checkpoints : gmap Z CheckpointSet;
  last_chkp_seqno : Z;
  checkpointing_mutex : bool;
  switching_mutex : bool;
  cur_state : replica_state;
  aborts : Smasher.Abort_certificate;
  ah_2 : option (list AbortHistoryElement);
  missing : option (list AbortHistoryElement);
  num_missing : Z;
  missing_mask : list bool;
  missing_store : list (option zl_Request);
  missing_store_seq : list Z;
  rtimer : timer_state;
  ctimer : timer_state;
  outstanding : list (Z * Z);
  service : S
}.

Definition set_seqno (x : Z) (s : state) : state :=
  mk_state (node_id s) x (last_seqno s) (req_count_switch s) (replies s) (nb_retransmissions s)
    (nb_sent_replies s) (max_history_size s) (rh s) (checkpoint_in_progress s)
    (current_nb_requests_while_checkpointing s) (current_checkpoints s) (last_chkp_seqno s)
    (checkpointing_mutex s) (switching_mutex s) (cur_state s) (aborts s) (ah_2 s) (missing s)
    (num_missing s) (missing_mask s) (missing_store s) (missing_store_seq s) (rtimer s) (ctimer s)
    (outstanding s) (service s).
Definition set_last_seqno (x : Z) (s : state) : state :=
  mk_state (node_id s) (seqno s) x (req_count_switch s) (replies s) (nb_retransmissions s)
    (nb_sent_replies s) (max_history_size s) (rh s) (checkpoint_in_progress s)
    (current_nb_requests_while_checkpointing s) (current_checkpoints s) (last_chkp_seqno s)
    (checkpointing_mutex s) (switching_mutex s) (cur_state s) (aborts s) (ah_2 s) (missing s)
    (num_missing s) (missing_mask s) (missing_store s) (missing_store_seq s) (rtimer s) (ctimer s)
    (outstanding s) (service s).
Definition set_req_count_switch (x : Z) (s : state) : state :=
  mk_state (node_id s) (seqno s) (last_seqno s) x (replies s) (nb_retransmissions s)
    (nb_sent_replies s) (max_history_size s) (rh s) (checkpoint_in_progress s)
    (current_nb_requests_while_checkpointing s) (current_checkpoints s) (last_chkp_seqno s)
    (checkpointing_mutex s) (switching_mutex s) (cur_state s) (aborts s) (ah_2 s) (missing s)
    (num_missing s) (missing_mask s) (missing_store s) (missing_store_seq s) (rtimer s) (ctimer s)
    (outstanding s) (service s).
Definition set_replies (x : list Rep_entry) (s : state) : state :=
  mk_state (node_id s) (seqno s) (last_seqno s) (req_count_switch s) x (nb_retransmissions s)
    (nb_sent_replies s) (max_history_size s) (rh s) (checkpoint_in_progress s)
    (current_nb_requests_while_checkpointing s) (current_checkpoints s) (last_chkp_seqno s)
    (checkpointing_mutex s) (switching_mutex s) (cur_state s) (aborts s) (ah_2 s) (missing s)
    (num_missing s) (missing_mask s) (missing_store s) (missing_store_seq s) (rtimer s) (ctimer s)
    (outstanding s) (service s).
Definition set_nb_retransmissions (x : Z) (s : state) : state :=
  mk_state (node_id s) (seqno s) (last_seqno s) (req_count_switch s) (replies s) x
    (nb_sent_replies s) (max_history_size s) (rh s) (checkpoint_in_progress s)
    (current_nb_requests_while_checkpointing s) (current_checkpoints s) (last_chkp_seqno s)
    (checkpointing_mutex s) (switching_mutex s) (cur_state s) (aborts s) (ah_2 s) (missing s)
    (num_missing s) (missing_mask s) (missing_store s) (missing_store_seq s) (rtimer s) (ctimer s)
    (outstanding s) (service s).
Definition set_nb_sent_replies (x : Z) (s : state) : state :=
  mk_state (node_id s) (seqno s) (last_seqno s) (req_count_switch s) (replies s)
    (nb_retransmissions s) x (max_history_size s) (rh s) (checkpoint_in_progress s)
    (current_nb_requests_while_checkpointing s) (current_checkpoints s) (last_chkp_seqno s)
    (checkpointing_mutex s) (switching_mutex s) (cur_state s) (aborts s) (ah_2 s) (missing s)
    (num_missing s) (missing_mask s) (missing_store s) (missing_store_seq s) (rtimer s) (ctimer s)
    (outstanding s) (service s).
Definition set_max_history_size (x : Z) (s : state) : state :=
  mk_state (node_id s) (seqno s) (last_seqno s) (req_count_switch s) (replies s)
    (nb_retransmissions s) (nb_sent_replies s) x (rh s) (checkpoint_in_progress s)
    (current_nb_requests_while_checkpointing s) (current_checkpoints s) (last_chkp_seqno s)
    (checkpointing_mutex s) (switching_mutex s) (cur_state s) (aborts s) (ah_2 s) (missing s)
    (num_missing s) (missing_mask s) (missing_store s) (missing_store_seq s) (rtimer s) (ctimer s)
    (outstanding s) (service s).
Definition set_rh (x : ReqHistory.t zl_Request) (s : state) : state :=
  mk_state (node_id s) (seqno s) (last_seqno s) (req_count_switch s) (replies s)
    (nb_retransmissions s) (nb_sent_replies s) (max_history_size s) x (checkpoint_in_progress s)
    (current_nb_requests_while_checkpointing s) (current_checkpoints s) (last_chkp_seqno s)
    (checkpointing_mutex s) (switching_mutex s) (cur_state s) (aborts s) (ah_2 s) (missing s)
    (num_missing s) (missing_mask s) (missing_store s) (missing_store_seq s) (rtimer s) (ctimer s)
    (outstanding s) (service s).
Definition set_checkpoint_in_progress (x : bool) (s : state) : state :=
  mk_state (node_id s) (seqno s) (last_seqno s) (req_count_switch s) (replies s)
    (nb_retransmissions s) (nb_sent_replies s) (max_history_size s) (rh s) x
    (current_nb_requests_while_checkpointing s) (current_checkpoints s) (last_chkp_seqno s)
    (checkpointing_mutex s) (switching_mutex s) (cur_state s) (aborts s) (ah_2 s) (missing s)
    (num_missing s) (missing_mask s) (missing_store s) (missing_store_seq s) (rtimer s) (ctimer s)
    (outstanding s) (service s).
Definition set_current_nb_requests_while_checkpointing (x : Z) (s : state) : state :=
  mk_state (node_id s) (seqno s) (last_seqno s) (req_count_switch s) (replies s)
    (nb_retransmissions s) (nb_sent_replies s) (max_history_size s) (rh s) (checkpoint_in_progress
    s) x (current_checkpoints s) (last_chkp_seqno s) (checkpointing_mutex s) (switching_mutex s)
    (cur_state s) (aborts s) (ah_2 s) (missing s) (num_missing s) (missing_mask s) (missing_store
    s) (missing_store_seq s) (rtimer s) (ctimer s) (outstanding s) (service s).
Definition set_current_checkpoints (x : gmap Z CheckpointSet) (s : state) : state :=
  mk_state (node_id s) (seqno s) (last_seqno s) (req_count_switch s) (replies s)
    (nb_retransmissions s) (nb_sent_replies s) (max_history_size s) (rh s) (checkpoint_in_progress
    s) (current_nb_requests_while_checkpointing s) x (last_chkp_seqno s) (checkpointing_mutex s)
    (switching_mutex s) (cur_state s) (aborts s) (ah_2 s) (missing s) (num_missing s)
    (missing_mask s) (missing_store s) (missing_store_seq s) (rtimer s) (ctimer s) (outstanding s)
    (service s).
Definition set_last_chkp_seqno (x : Z) (s : state) : state :=
  mk_state (node_id s) (seqno s) (last_seqno s) (req_count_switch s) (replies s)
    (nb_retransmissions s) (nb_sent_replies s) (max_history_size s) (rh s) (checkpoint_in_progress
    s) (current_nb_requests_while_checkpointing s) (current_checkpoints s) x (checkpointing_mutex
    s) (switching_mutex s) (cur_state s) (aborts s) (ah_2 s) (missing s) (num_missing s)
    (missing_mask s) (missing_store s) (missing_store_seq s) (rtimer s) (ctimer s) (outstanding s)
    (service s).
Definition set_checkpointing_mutex (x : bool) (s : state) : state :=
  mk_state (node_id s) (seqno s) (last_seqno s) (req_count_switch s) (replies s)
    (nb_retransmissions s) (nb_sent_replies s) (max_history_size s) (rh s) (checkpoint_in_progress
    s) (current_nb_requests_while_checkpointing s) (current_checkpoints s) (last_chkp_seqno s) x
    (switching_mutex s) (cur_state s) (aborts s) (ah_2 s) (missing s) (num_missing s)
    (missing_mask s) (missing_store s) (missing_store_seq s) (rtimer s) (ctimer s) (outstanding s)
    (service s).
Definition set_switching_mutex (x : bool) (s : state) : state :=
  mk_state (node_id s) (seqno s) (last_seqno s) (req_count_switch s) (replies s)
    (nb_retransmissions s) (nb_sent_replies s) (max_history_size s) (rh s) (checkpoint_in_progress
    s) (current_nb_requests_while_checkpointing s) (current_checkpoints s) (last_chkp_seqno s)
    (checkpointing_mutex s) x (cur_state s) (aborts s) (ah_2 s) (missing s) (num_missing s)
    (missing_mask s) (missing_store s) (missing_store_seq s) (rtimer s) (ctimer s) (outstanding s)
    (service s).
Definition set_cur_state (x : replica_state) (s : state) : state :=
  mk_state (node_id s) (seqno s) (last_seqno s) (req_count_switch s) (replies s)
    (nb_retransmissions s) (nb_sent_replies s) (max_history_size s) (rh s) (checkpoint_in_progress
    s) (current_nb_requests_while_checkpointing s) (current_checkpoints s) (last_chkp_seqno s)
    (checkpointing_mutex s) (switching_mutex s) x (aborts s) (ah_2 s) (missing s) (num_missing s)
    (missing_mask s) (missing_store s) (missing_store_seq s) (rtimer s) (ctimer s) (outstanding s)
    (service s).
Definition set_aborts (x : Smasher.Abort_certificate) (s : state) : state :=
  mk_state (node_id s) (seqno s) (last_seqno s) (req_count_switch s) (replies s)
    (nb_retransmissions s) (nb_sent_replies s) (max_history_size s) (rh s) (checkpoint_in_progress
    s) (current_nb_requests_while_checkpointing s) (current_checkpoints s) (last_chkp_seqno s)
    (checkpointing_mutex s) (switching_mutex s) (cur_state s) x (ah_2 s) (missing s) (num_missing
    s) (missing_mask s) (missing_store s) (missing_store_seq s) (rtimer s) (ctimer s) (outstanding
    s) (service s).
Definition set_ah_2 (x : option (list AbortHistoryElement)) (s : state) : state :=
  mk_state (node_id s) (seqno s) (last_seqno s) (req_count_switch s) (replies s)
    (nb_retransmissions s) (nb_sent_replies s) (max_history_size s) (rh s) (checkpoint_in_progress
    s) (current_nb_requests_while_checkpointing s) (current_checkpoints s) (last_chkp_seqno s)
    (checkpointing_mutex s) (switching_mutex s) (cur_state s) (aborts s) x (missing s)
    (num_missing s) (missing_mask s) (missing_store s) (missing_store_seq s) (rtimer s) (ctimer s)
    (outstanding s) (service s).
Definition set_missing (x : option (list AbortHistoryElement)) (s : state) : state :=
  mk_state (node_id s) (seqno s) (last_seqno s) (req_count_switch s) (replies s)
    (nb_retransmissions s) (nb_sent_replies s) (max_history_size s) (rh s) (checkpoint_in_progress
    s) (current_nb_requests_while_checkpointing s) (current_checkpoints s) (last_chkp_seqno s)
    (checkpointing_mutex s) (switching_mutex s) (cur_state s) (aborts s) (ah_2 s) x (num_missing
    s) (missing_mask s) (missing_store s) (missing_store_seq s) (rtimer s) (ctimer s) (outstanding
    s) (service s).
Definition set_num_missing (x : Z) (s : state) : state :=
  mk_state (node_id s) (seqno s) (last_seqno s) (req_count_switch s) (replies s)
    (nb_retransmissions s) (nb_sent_replies s) (max_history_size s) (rh s) (checkpoint_in_progress
    s) (current_nb_requests_while_checkpointing s) (current_checkpoints s) (last_chkp_seqno s)
    (checkpointing_mutex s) (switching_mutex s) (cur_state s) (aborts s) (ah_2 s) (missing s) x
    (missing_mask s) (missing_store s) (missing_store_seq s) (rtimer s) (ctimer s) (outstanding s)
    (service s).
Definition set_missing_mask (x : list bool) (s : state) : state :=
  mk_state (node_id s) (seqno s) (last_seqno s) (req_count_switch s) (replies s)
    (nb_retransmissions s) (nb_sent_replies s) (max_history_size s) (rh s) (checkpoint_in_progress
    s) (current_nb_requests_while_checkpointing s) (current_checkpoints s) (last_chkp_seqno s)
    (checkpointing_mutex s) (switching_mutex s) (cur_state s) (aborts s) (ah_2 s) (missing s)
    (num_missing s) x (missing_store s) (missing_store_seq s) (rtimer s) (ctimer s) (outstanding
    s) (service s).
Definition set_missing_store (x : list (option zl_Request)) (s : state) : state :=
  mk_state (node_id s) (seqno s) (last_seqno s) (req_count_switch s) (replies s)
    (nb_retransmissions s) (nb_sent_replies s) (max_history_size s) (rh s) (checkpoint_in_progress
    s) (current_nb_requests_while_checkpointing s) (current_checkpoints s) (last_chkp_seqno s)
    (checkpointing_mutex s) (switching_mutex s) (cur_state s) (aborts s) (ah_2 s) (missing s)
    (num_missing s) (missing_mask s) x (missing_store_seq s) (rtimer s) (ctimer s) (outstanding s)
    (service s).
Definition set_missing_store_seq (x : list Z) (s : state) : state :=
  mk_state (node_id s) (seqno s) (last_seqno s) (req_count_switch s) (replies s)
    (nb_retransmissions s) (nb_sent_replies s) (max_history_size s) (rh s) (checkpoint_in_progress
    s) (current_nb_requests_while_checkpointing s) (current_checkpoints s) (last_chkp_seqno s)
    (checkpointing_mutex s) (switching_mutex s) (cur_state s) (aborts s) (ah_2 s) (missing s)
    (num_missing s) (missing_mask s) (missing_store s) x (rtimer s) (ctimer s) (outstanding s)
    (service s).
Definition set_rtimer (x : timer_state) (s : state) : state :=
  mk_state (node_id s) (seqno s) (last_seqno s) (req_count_switch s) (replies s)
    (nb_retransmissions s) (nb_sent_replies s) (max_history_size s) (rh s) (checkpoint_in_progress
    s) (current_nb_requests_while_checkpointing s) (current_checkpoints s) (last_chkp_seqno s)
    (checkpointing_mutex s) (switching_mutex s) (cur_state s) (aborts s) (ah_2 s) (missing s)
    (num_missing s) (missing_mask s) (missing_store s) (missing_store_seq s) x (ctimer s)
    (outstanding s) (service s).
Definition set_ctimer (x : timer_state) (s : state) : state :=
  mk_state (node_id s) (seqno s) (last_seqno s) (req_count_switch s) (replies s)
    (nb_retransmissions s) (nb_sent_replies s) (max_history_size s) (rh s) (checkpoint_in_progress
    s) (current_nb_requests_while_checkpointing s) (current_checkpoints s) (last_chkp_seqno s)
    (checkpointing_mutex s) (switching_mutex s) (cur_state s) (aborts s) (ah_2 s) (missing s)
    (num_missing s) (missing_mask s) (missing_store s) (missing_store_seq s) (rtimer s) x
    (outstanding s) (service s).
Definition set_outstanding (x : list (Z * Z)) (s : state) : state :=
  mk_state (node_id s) (seqno s) (last_seqno s) (req_count_switch s) (replies s)
    (nb_retransmissions s) (nb_sent_replies s) (max_history_size s) (rh s) (checkpoint_in_progress
    s) (current_nb_requests_while_checkpointing s) (current_checkpoints s) (last_chkp_seqno s)
    (checkpointing_mutex s) (switching_mutex s) (cur_state s) (aborts s) (ah_2 s) (missing s)
    (num_missing s) (missing_mask s) (missing_store s) (missing_store_seq s) (rtimer s) (ctimer s)
    x (service s).
Definition set_service (x : S) (s : state) : state :=
  mk_state (node_id s) (seqno s) (last_seqno s) (req_count_switch s) (replies s)
    (nb_retransmissions s) (nb_sent_replies s) (max_history_size s) (rh s) (checkpoint_in_progress
    s) (current_nb_requests_while_checkpointing s) (current_checkpoints s) (last_chkp_seqno s)
    (checkpointing_mutex s) (switching_mutex s) (cur_state s) (aborts s) (ah_2 s) (missing s)
    (num_missing s) (missing_mask s) (missing_store s) (missing_store_seq s) (rtimer s) (ctimer s)
    (outstanding s) x.

Local Abbreviation M := (Effects.M state output).
Local Open Scope handler_scope.

(** [pthread_mutex_lock] on a default mutex held by the calling thread. *)
Definition lock_switching : M unit :=
  b <- gets switching_mutex ;;
  if (b : bool) then fail Deadlock else modify (set_switching_mutex true).
Definition unlock_switching : M unit := modify (set_switching_mutex false).
Definition lock_checkpointing : M unit :=
  b <- gets checkpointing_mutex ;;
  if (b : bool) then fail Deadlock else modify (set_checkpointing_mutex true).
Definition unlock_checkpointing : M unit := modify (set_checkpointing_mutex false).

(** ** Parameters *)

(** The group: [num_replicas], [max_faulty], [num_principals]. *)
Context (num_replicas max_faulty num_principals : Z).
(** The modulus of the history sums, MD5 of a sum and of a reply. *)
Context (modulus : Z) (MD5_sum : Z -> Z) (MD5_reply : list Z -> Z).
(** MD5 of the client id, request id and command of a request. *)
Context (MD5_request : Z -> Z -> list Z -> Z).
(** [verify_auth] of a request and of an order header by node [i], and the
    signature checks of checkpoints and aborts. *)
Context (request_auth : Z -> zl_Request -> bool) (order_auth : Z -> zl_Order_request -> bool).
Context (checkpoint_sig : zl_Checkpoint -> bool) (abort_verify : Smasher.zl_Abort -> bool).
(** What the bytes after the tuples of an abort signed by node [i] decode to. *)
Context (signature_entry : Z -> list AbortHistoryElement -> nat -> AbortHistoryElement) (sig_size : Z).
(** [exec_command]: the service state, the client and the command. *)
Context (exec_command : S -> Z -> list Z -> S * list Z).

Definition primary : Z := 0.
Definition is_replica (i : Z) : bool := (0 <=? i) && (i <? num_replicas).
Definition is_principal (i : Z) : bool := (0 <=? i) && (i <? num_principals).
Definition instance_id : protocols_e := zlight.
Definition next_instance_id : protocols_e := chain.
Definition history_size (s : state) : Z := ReqHistory.size (rh s).

(** [zl_Request::verify] on node [nid]; the length test is unsigned. *)
Definition sizeof_request_rep : Z := 40.
Definition auth_size : Z := num_replicas * 8 + 8.
Definition is_read_only (m : zl_Request) : bool := Z.odd (q_extra m).
Definition request_verify (nid : Z) (m : zl_Request) : bool :=
  let old_size := sizeof_request_rep + Z.of_nat (length (q_command m)) in
  if is_principal (q_cid m) && (MD5_request (q_cid m) (q_rid m) (q_command m) =? q_od m) then
    if negb (q_cid m =? nid) && (num_replicas <=? q_cid m)
       && (auth_size <=? wrapu 32 (q_size m - old_size))
    then request_auth nid m else false
  else false.

Definition Max_message_size : Z := 60000.

(** [comp_digest] reads the command, in a buffer trimmed to the size of the message. *)
Definition command_inside (m : zl_Request) : bool :=
  sizeof_request_rep + Z.of_nat (length (q_command m)) <=? q_size m.
Definition verify_request (nid : Z) (m : zl_Request) : M bool :=
  in_bounds (command_inside m) ;;; ret (request_verify nid m).

(** An order holds its header, an authenticator and the request. *)
Definition sizeof_order_rep : Z := 40.
Definition order_size (m : zl_Request) : Z := sizeof_order_rep + q_size m + auth_size.
Definition order_fits (m : zl_Request) : bool := order_size m <=? Max_message_size.

(** The constructor of [zl_Order_request]: the request is copied into the buffer, then [set_size] asserts that all fits. *)
Definition new_order (v s : Z) (m : zl_Request) : M zl_Order_request :=
  in_bounds (order_fits m) ;;;
  assert_ (ALIGNED_SIZE (order_size m) <=? Max_message_size) ;;;
  ret (mk_order v s (q_cid m) (q_rid m) m).

(** [zl_Order_request::verify]: [verify_auth(0, ...)]; a node never verifies
    its own authenticator. *)
Definition order_verify (nid : Z) (o : zl_Order_request) : bool :=
  if nid =? 0 then false else order_auth nid o.

Definition checkpoint_verify (nid : Z) (c : zl_Checkpoint) : bool :=
  if negb (is_replica (c_id c)) then false
  else if c_id c =? nid then true
  else checkpoint_sig c.

(** ** Replies *)

(** [reps[pid]] *)
Definition rep_of (cid : Z) : M Rep_entry :=
  l <- gets replies ;;
  if cid <? 0 then fail OutOfBounds else of_option OutOfBounds (l !! Z.to_nat cid).

Definition set_rep (cid : Z) (r : Rep_entry) : M unit :=
  modify (fun s => set_replies (<[Z.to_nat cid := r]> (replies s)) s).

Definition req_id (cid : Z) : M Z := r <- rep_of cid ;; ret (rr_rid r).
Definition rep_digest (cid : Z) : M Z := r <- rep_of cid ;; ret (rr_digest r).

Definition new_reply (cid : Z) : M unit :=
  r <- rep_of cid ;;
  set_rep cid (mk_rep (rr_rid r) (-1) (rr_cid r) (rr_rh_digest r) (rr_digest r) (rr_body r)).

Definition end_reply (cid rid sz : Z) (d : Z) (body : list Z) : M unit :=
  r <- rep_of cid ;;
  assert_ (rr_reply_size r =? -1) ;;;
  set_rep cid (mk_rep rid sz (-1) d (MD5_reply (take (Z.to_nat sz) body)) body).

(** The fields [v], [replica] and [cid] are set for the send and undone. *)
Definition send_reply (dest v src : Z) : M unit :=
  r <- rep_of dest ;;
  assert_ (negb (rr_reply_size r =? -1)) ;;;
  assert_ (rr_cid r =? -1) ;;;
  emit (Send_reply dest
    (Reply.mk v (rr_rid r) (rr_rh_digest r) (rr_digest r) src (rr_reply_size r) (-1)
       false instance_id (ALIGNED_SIZE (Reply.sizeof_rep + rr_reply_size r + Reply.MAC_size)) (rr_body r))).

(** [zl_Reply(view, req, replica, d, p, cid)]: [p->pid()] needs a principal. *)
Definition empty_reply (v rid d cid : Z) : M Reply.t :=
  me <- gets node_id ;;
  if is_principal cid then
    ret (Reply.mk v rid 0 d me (-1) cid false instance_id (Reply.sizeof_rep + Reply.MAC_size) [])
  else fail NullDeref.

(** [set_instance_id(next); authenticate(p, 0)]: an abort indication. *)
Definition switch_reply (rid cid : Z) : M Reply.t :=
  d <- rep_digest cid ;;
  r <- empty_reply 0 rid d cid ;;
  let r := Reply.set_instance_id r next_instance_id in
  ret (Reply.mk (Reply.v r) (Reply.rid r) (Reply.rh_digest r) (MD5_reply []) (Reply.replica r) 0
         (Reply.cid r) (Reply.should_switch r) (Reply.instance_id r)
         (Reply.sizeof_rep + Reply.MAC_size) []).

(** ** Switching *)

Definition enable_replica (b : bool) : M unit :=
  lock_switching ;;;
  st <- gets cur_state ;;
  (if bool_decide (st = replica_state_NORMAL) || bool_decide (st = replica_state_STOP) then
     if b then
       (if bool_decide (st = replica_state_NORMAL) then ret tt
        else modify (fun s =>
               set_rh ReqHistory.empty (set_current_checkpoints ∅ (set_outstanding []
                 (set_seqno 0 (set_last_seqno 0 (set_req_count_switch 0 s))))))) ;;;
       modify (set_cur_state replica_state_NORMAL) ;;;
       emit (Monitor_switch instance_id) ;;;
       modify (fun s => set_ctimer (timer_stop (ctimer s)) s)
     else
       modify (set_cur_state replica_state_STOP) ;;;
       modify (fun s => set_ctimer (timer_stop (ctimer s)) s)
   else ret tt) ;;;
  unlock_switching.

(** [great_switcher->switch_state]: the callback of this instance is
    [enable_replica]. *)
Definition switch_state (p : protocols_e) (b : bool) : M unit :=
  match p with
  | zlight => enable_replica b
  | _ => emit (Switch_other p b)
  end.

(** The last request id of every outstanding client, in client order. *)
Definition omap_insert (l : list (Z * Z)) (p : Z * Z) : list (Z * Z) :=
  let fix go l :=
    match l with
    | [] => [p]
    | q :: l' =>
      if p.1 =? q.1 then (if q.2 <? p.2 then p :: l' else q :: l')
      else if p.1 <? q.1 then p :: q :: l'
      else q :: go l'
    end in go l.

Fixpoint notify_all (l : list (Z * Z)) : M unit :=
  match l with
  | [] => ret tt
  | (cid, rid) :: l' =>
    r <- switch_reply rid cid ;;
    emit (Send_reply cid r) ;;;
    notify_all l'
  end.

Definition notify_outstanding : M unit :=
  lock_switching ;;;
  l <- gets outstanding ;;
  notify_all (foldl omap_insert [] l) ;;;
  modify (set_outstanding []) ;;;
  unlock_switching.

(** ** Panic: the body after the early return is dead code *)

Definition handle_panic (m : zl_Panic) : M unit := ret tt.

(** ** Checkpoints *)

(** The comparison loop of the completed set; its verdict [same] is unused. *)
Definition all_match (c : zl_Checkpoint) (cs : CheckpointSet) : bool :=
  forallb (fun o : option zl_Checkpoint =>
             match o with Some cc => c_digest c =? c_digest cc | None => true end)
          (CheckpointSet.elems cs).

Definition complete_checkpoint (should_panic : bool) (cset : CheckpointSet) : M unit :=
  modify (fun s => set_max_history_size
            (if max_history_size s <? history_size s then history_size s else max_history_size s) s) ;;;
  modify (fun s => set_rh (ReqHistory.truncate_history (rh s) (CheckpointSet.get_seqno cset)).1.1 s) ;;;
  modify (set_current_nb_requests_while_checkpointing 0) ;;;
  modify (set_checkpoint_in_progress false) ;;;
  modify (set_last_chkp_seqno (CheckpointSet.get_seqno cset)) ;;;
  modify (fun s => set_current_checkpoints
            (delete (CheckpointSet.get_seqno cset) (current_checkpoints s)) s) ;;;
  modify (fun s => set_ctimer (timer_start (timer_stop (ctimer s))) s) ;;;
  (if should_panic then me <- gets node_id ;; handle_panic (mk_panic me 0) else ret tt).

Definition handle_checkpoint (should_panic : bool) (c : zl_Checkpoint) : M unit :=
  me <- gets node_id ;;
  if negb (checkpoint_verify me c) then ret tt
  else
    lock_checkpointing ;;;
    last <- gets last_chkp_seqno ;;
    if c_seqno c <=? last then unlock_checkpointing
    else
      cks <- gets current_checkpoints ;;
      let cset := default (CheckpointSet.create (Z.to_nat num_replicas) (2 * max_faulty + 1) (c_seqno c))
                          (cks !! c_seqno c) in
      modify (fun s => set_current_checkpoints (<[c_seqno c := cset]> (current_checkpoints s)) s) ;;;
      r <- of_option AssertFailed (CheckpointSet.add cset (c_id c) c) ;;
      if negb r.2 then unlock_checkpointing
      else
        modify (fun s => set_current_checkpoints (<[c_seqno c := r.1]> (current_checkpoints s)) s) ;;;
        (if CheckpointSet.is_complete r.1 then complete_checkpoint should_panic r.1 else ret tt) ;;;
        unlock_checkpointing.

(** ** Executing a request *)

(** The reply buffer after padding the result to [ALIGNMENT_BYTES = 2]. *)
Definition pad (out : list Z) : list Z :=
  if Z.odd (Z.of_nat (length out)) then out ++ [0] else out.

Definition execute_request (should_panic : bool) (req : zl_Request) : M bool :=
  let cid := q_cid req in
  let rid := q_rid req in
  me <- gets node_id ;;
  last <- req_id cid ;;
  if rid <? last then ret false
  else if last =? rid then send_reply cid 0 me ;;; ret false
  else
    new_reply cid ;;;
    sv <- gets service ;;
    let '(sv', out) := exec_command sv cid (q_command req) in
    modify (set_service sv') ;;;
    emit (Executed req) ;;;
    let sz := Z.of_nat (length out) in
    sq <- gets seqno ;;
    modify (set_last_seqno sq) ;;;
    h <- gets rh ;;
    hd <- of_option AssertFailed (ReqHistory.add_request modulus MD5_sum h req sq) ;;
    modify (set_rh hd.1) ;;;
    end_reply cid rid sz hd.2 (pad out) ;;;
    (if (sz <? 50) || (rid mod num_replicas =? me) then send_reply cid 0 me
     else d <- rep_digest cid ;; r <- empty_reply 0 rid d cid ;; emit (Send_reply cid r)) ;;;
    modify (fun s => set_nb_sent_replies (nb_sent_replies s + 1) s) ;;;
    h' <- gets rh ;;
    (if ReqHistory.should_checkpoint h' then
       let chkp := mk_checkpoint me (ReqHistory.get_top_seqno h') (ReqHistory.rh_digest MD5_sum h') in
       modify (set_checkpoint_in_progress true) ;;;
       emit (Monitor_checkpoint chkp) ;;;
       handle_checkpoint should_panic chkp
     else ret tt) ;;;
    ret true.

(** ** Requests *)

(** The admission test while a checkpoint is in progress: [false] drops the
    request. *)
Definition checkpoint_admit : M bool :=
  lock_checkpointing ;;;
  inprog <- gets checkpoint_in_progress ;;
  k <- gets current_nb_requests_while_checkpointing ;;
  (if inprog then
     if k <? ReqHistory.MAX_NB_REQS_CHKPT then
       modify (set_current_nb_requests_while_checkpointing (k + 1)) ;;;
       unlock_checkpointing ;;; ret true
     else unlock_checkpointing ;;; ret false
   else unlock_checkpointing ;;; ret true).

Definition bump_retransmissions : M unit :=
  modify (fun s => set_nb_retransmissions (nb_retransmissions s + 1) s).

Definition handle_request (should_panic : bool) (m : zl_Request) : M unit :=
  st <- gets cur_state ;;
  me <- gets node_id ;;
  let cid := q_cid m in
  let rid := q_rid m in
  if bool_decide (st = replica_state_STOP) then
    r <- switch_reply rid cid ;; emit (Send_reply cid r)
  else if negb (bool_decide (st = replica_state_NORMAL)) then
    lock_switching ;;;
    modify (fun s => set_outstanding (outstanding s ++ [(cid, rid)]) s) ;;;
    unlock_switching
  else
    modify (fun s => set_ctimer (timer_restart (ctimer s)) s) ;;;
    modify (fun s => set_req_count_switch (req_count_switch s + 1) s) ;;;
    v <- verify_request me m ;;
    if negb v then ret tt
    else if is_read_only m then ret tt
    else
      ok <- checkpoint_admit ;;
      if negb ok then ret tt
      else
        last_rid <- req_id cid ;;
        if me =? primary then
          if last_rid <=? rid then
            (if last_rid =? rid then bump_retransmissions
             else modify (fun s => set_seqno (seqno s + 1) s)) ;;;
            done_ <- execute_request should_panic m ;;
            if negb done_ then ret tt
            else sq <- gets seqno ;; o <- new_order 0 sq m ;; emit (Send_order o)
          else ret tt
        else
          if last_rid =? rid then
            bump_retransmissions ;;; execute_request should_panic m ;;; ret tt
          else ret tt.

(** ** Order requests *)

(** The request is copied out of the buffer of the order, of [Max_message_size] bytes. *)
Definition handle_order (should_panic : bool) (m : zl_Order_request) : M unit :=
  me <- gets node_id ;;
  if order_verify me m then
    last_rid <- req_id (o_cid m) ;;
    if last_rid <=? o_rid m then
      in_bounds (order_fits (o_request m)) ;;;
      last <- gets last_seqno ;;
      if negb (o_seqno m =? last + 1) then ret tt
      else
        v <- verify_request me (o_request m) ;;
        if negb v then ret tt
        else
          modify (set_seqno (last + 1)) ;;;
          execute_request should_panic (o_request m) ;;; ret tt
    else ret tt
  else ret tt.

Definition handle_client_notification (m : zl_Client_notification) : M unit :=
  lock_checkpointing ;;;
  (if n_op m =? 0 then emit Monitor_req_notif
   else if n_op m =? 1 then emit Monitor_rep_notif else ret tt) ;;;
  unlock_checkpointing.

(** ** Aborts and the switch *)

Abbreviation entry := (ReqHistory.Rh_entry zl_Request).

(** The constructor of [zl_Missing] keeps twelve bytes for each element and room
    for a signature. *)
Definition sizeof_missing_rep : Z := 36.
Definition missing_fits (mis : list AbortHistoryElement) : bool :=
  match mis with
  | [] => true
  | _ => sizeof_missing_rep + Z.of_nat (length mis) * 12 <=? Max_message_size - sig_size
  end.

(** The constructor of [zl_Get_a_grip] copies the request, and [set_size] asserts
    that it fits. *)
Definition sizeof_gag_rep : Z := 32.
Definition gag_fits (q : zl_Request) : bool := ALIGNED_SIZE (sizeof_gag_rep + q_size q) <=? Max_message_size.

(** Install the new history and hand over to the next instance. *)
Definition stop_and_switch (newrh : ReqHistory.t zl_Request) : M unit :=
  modify (set_missing_store []) ;;; modify (set_missing_store_seq []) ;;;
  modify (set_missing_mask []) ;;; modify (set_num_missing 0) ;;;
  modify (set_rh newrh) ;;;
  modify (set_seqno (ReqHistory.get_top_seqno newrh + 1)) ;;;
  modify (set_cur_state replica_state_STOP) ;;;
  switch_state instance_id false ;;;
  switch_state next_instance_id true ;;;
  notify_outstanding.

Definition handle_abort (m : Smasher.zl_Abort) : M unit :=
  lock_switching ;;;
  st <- gets cur_state ;;
  if negb (bool_decide (st = replica_state_PANICKING)) then unlock_switching
  else if negb (abort_verify m) then unlock_switching
  else
    ac <- gets aborts ;;
    r <- of_option AssertFailed (Smasher.ac_add ac m) ;;
    if negb r.2 then unlock_switching
    else
      modify (set_aborts r.1) ;;;
      if negb (Smasher.ac_is_complete r.1) then unlock_switching
      else
        modify (fun s => set_rtimer (timer_stop (rtimer s)) s) ;;;
        me <- gets node_id ;;
        let l := Smasher.ac r.1 in
        p <- of_option AssertFailed
               (Smasher.process (Smasher.max_hist_size l) max_faulty l (Z.to_nat me)) ;;
        let '(ah2, mis) := p in
        modify (set_ah_2 (Some ah2)) ;;; modify (set_missing (Some mis)) ;;;
        modify (set_missing_mask (replicate (length mis) true)) ;;;
        modify (set_missing_store (replicate (length mis) None)) ;;;
        modify (set_missing_store_seq (replicate (length mis) 0)) ;;;
        modify (set_num_missing (Z.of_nat (length mis))) ;;;
        modify (set_aborts (Smasher.ac_clear r.1)) ;;;
        if (length mis =? 0)%nat then
          h <- gets rh ;;
          newrh <- of_sum (Recover.rebuild zl_with_od modulus MD5_sum true true ah2 h [] []) ;;
          modify (set_missing None) ;;;
          stop_and_switch newrh ;;;
          unlock_switching
        else
          (if missing_fits mis then ret tt else fail ExitCalled) ;;;
          emit (Monitor_missing (mk_missing me ((fun a => (cid a, rid a)) <$> mis))) ;;;
          modify (set_cur_state replica_state_MISWAITING) ;;;
          unlock_switching.

Definition retransmit_panic : M unit :=
  me <- gets node_id ;;
  emit (Send_panic (mk_panic me 0)) ;;;
  lock_switching ;;;
  modify (set_cur_state replica_state_PANICKING) ;;;
  unlock_switching ;;;
  modify (fun s => set_rtimer (timer_restart (rtimer s)) s).

(** ** Missing requests *)

Fixpoint answer_missing (dest : Z) (l : list (Z * Z)) : M unit :=
  match l with
  | [] => ret tt
  | (c, r) :: l' =>
    h <- gets rh ;;
    me <- gets node_id ;;
    (match ReqHistory.find h c r with
     | Some e => q <- of_option NullDeref (ReqHistory.req e) ;;
                 assert_ (gag_fits q) ;;;
                 emit (Monitor_gag dest (mk_gag c r me (ReqHistory.seq e) q))
     | None => ret tt
     end) ;;;
    answer_missing dest l'
  end.

Definition handle_missing (m : zl_Missing) : M unit := answer_missing (m_replica m) (m_list m).

(** The first missing, still masked element the message provides. *)
Fixpoint match_missing (mis : list AbortHistoryElement) (mask : list bool) (i : nat)
    (g : zl_Get_a_grip) : option nat :=
  match mis, mask with
  | a :: mis', b :: mask' =>
    if b && (cid a =? g_cid g) && (rid a =? g_rid g) && (d a =? q_od (g_request g))
    then Some i else match_missing mis' mask' (Datatypes.S i) g
  | _, _ => None
  end.

Definition handle_get_a_grip (m : zl_Get_a_grip) : M unit :=
  lock_switching ;;;
  st <- gets cur_state ;;
  if negb (bool_decide (st = replica_state_MISWAITING)) then unlock_switching
  else
    mi <- gets missing ;;
    mis <- of_option NullDeref mi ;;
    mask <- gets missing_mask ;;
    match match_missing mis mask 0 m with
    | None => unlock_switching
    | Some i =>
      modify (fun s => set_missing_mask (<[i := false]> (missing_mask s)) s) ;;;
      modify (fun s => set_missing_store (<[i := Some (g_request m)]> (missing_store s)) s) ;;;
      modify (fun s => set_missing_store_seq (<[i := g_seqno m]> (missing_store_seq s)) s) ;;;
      modify (fun s => set_num_missing (num_missing s - 1) s) ;;;
      k <- gets num_missing ;;
      (if k =? 0 then
         ah <- gets ah_2 ;;
         ah2 <- of_option NullDeref ah ;;
         h <- gets rh ;;
         store <- gets missing_store ;;
         sq <- gets missing_store_seq ;;
         newrh <- of_sum (Recover.rebuild zl_with_od modulus MD5_sum false false ah2 h store sq) ;;
         stop_and_switch newrh
       else ret tt) ;;;
      unlock_switching
    end.

(** ** Broadcasting the own abort *)

Definition sizeof_abort_rep : Z := 60.
Definition tuple_size : Z := 28.

Fixpoint abort_tuples (l : list entry) (offset : Z) : M (list AbortHistoryElement) :=
  match l with
  | [] => ret []
  | e :: l' =>
    if Max_message_size - sig_size <? offset + tuple_size then fail ExitCalled
    else
      r <- of_option NullDeref (ReqHistory.req e) ;;
      rest <- abort_tuples l' (offset + tuple_size) ;;
      ret (AHE (q_cid r) (q_rid r) (q_od r) :: rest)
  end.

Definition broadcast_abort (out_rid : Z) : M unit :=
  me <- gets node_id ;;
  h <- gets rh ;;
  ts <- abort_tuples (ReqHistory.rh h) sizeof_abort_rep ;;
  let a := Smasher.mk_abort me out_rid (length ts)
             (fun j => default (signature_entry me ts j) (ts !! j)) in
  emit (Monitor_abort a) ;;;
  lock_switching ;;;
  ac <- gets aborts ;;
  r <- of_option AssertFailed (Smasher.ac_add ac a) ;;
  modify (set_aborts r.1) ;;;
  unlock_switching.

Definition no_checkpoint_timeout : M unit :=
  modify (fun s => set_ctimer (timer_stop (ctimer s)) s) ;;;
  me <- gets node_id ;;
  handle_panic (mk_panic me 0).

(** ** Dispatch *)

Definition handle (should_panic : bool) (msg : zl_Message) : M unit :=
  match msg with
  | Request_msg m => handle_request should_panic m
  | Order_request_msg m => handle_order should_panic m
  | Checkpoint_msg m => handle_checkpoint should_panic m
  | Panic_msg m => handle_panic m
  | Abort_msg m => handle_abort m
  | Missing_msg m => handle_missing m
  | Get_a_grip_msg m => handle_get_a_grip m
  | Client_notification_msg m => handle_client_notification m
  | Unknown_msg => ret tt
  end.

(** The state the constructor leaves; [junk] is the indeterminate initial
    value of [last_seqno], which it does not initialise. *)
Definition initial (nid junk : Z) (sv : S) : state :=
  mk_state nid 0 junk 0 (replicate (Z.to_nat num_principals) rep_initial) 0 0 0 ReqHistory.empty
    false 0 ∅ 0 false false replica_state_NORMAL
    (Smasher.ac_create (3 * max_faulty + 1) (Z.to_nat (3 * max_faulty + 1)))
    None None 0 [] [] [] stopped stopped [] sv.

(** An event of a replica: a message, a switcher call, or an expired timer. *)
Inductive event :=
| Deliver (should_panic : bool) (m : zl_Message)
| Switch (b : bool)
| Checkpoint_timer
| Abort_timer.

(** A timer fires only when running, and is [expired] while its handler runs. *)
Definition run_event (ev : event) : M unit :=
  match ev with
  | Deliver sp m => handle sp m
  | Switch b => enable_replica b
  | Checkpoint_timer =>
    t <- gets ctimer ;;
    match t with
    | running => modify (set_ctimer expired) ;;; no_checkpoint_timeout
    | _ => ret tt
    end
  | Abort_timer =>
    t <- gets rtimer ;;
    match t with
    | running => modify (set_rtimer expired) ;;; retransmit_panic
    | _ => ret tt
    end
  end.

(** ** The replica invariant *)

(** A reply slot is either fresh or holds a completed reply. *)
Definition rep_ok (r : Rep_entry) : Prop :=
  rr_cid r = -1 /\
  ((rr_rid r = 0 /\ rr_reply_size r = -1) \/ (0 < rr_rid r /\ 0 <= rr_reply_size r)).

Definition cset_ok (k : Z) (cs : CheckpointSet) : Prop :=
  length (CheckpointSet.elems cs) = Z.to_nat num_replicas /\ CheckpointSet.get_seqno cs = k.

Record wf (s : state) : Prop := {
  inv_switching : switching_mutex s = false;
  inv_checkpointing : checkpointing_mutex s = false;
  inv_state : cur_state s = replica_state_NORMAL \/ cur_state s = replica_state_STOP;
  inv_rtimer : rtimer s = stopped;
  inv_replies : length (replies s) = Z.to_nat num_principals /\ Forall rep_ok (replies s);
  inv_sum : 0 <= ReqHistory.rh_d (rh s) < modulus;
  inv_reqs : Forall (fun e => exists q, ReqHistory.req e = Some q /\ gag_fits q = true) (ReqHistory.rh (rh s));
  inv_contig : ReqHistory.contiguous (ReqHistory.rh (rh s)) (last_seqno s);
  inv_csets : forall k cs, current_checkpoints s !! k = Some cs -> cset_ok k cs
}.

(** At rest, the primary's counter is the number of its last request. *)
Definition inv (s : state) : Prop :=
  wf s /\ (node_id s = primary -> ReqHistory.rh (rh s) <> [] -> seqno s = last_seqno s).

(** What checkpointing leaves alone. *)
Definition same_core (s s' : state) : Prop :=
  node_id s' = node_id s /\ seqno s' = seqno s /\ last_seqno s' = last_seqno s /\
  replies s' = replies s /\ service s' = service s /\ cur_state s' = cur_state s /\
  exists k, ReqHistory.rh (rh s') = drop k (ReqHistory.rh (rh s)).

Hypothesis group : 0 < num_replicas <= num_principals.
Hypothesis modulus_ok : 2 ^ 128 <= modulus < 2 ^ (DSum.nbits - 1).

Lemma cset_add_ok cs k i c : cset_ok k cs -> 0 <= i < num_replicas ->
  exists cs' b, CheckpointSet.add cs i c = Some (cs', b) /\ cset_ok k cs'.
Proof.
  intros [Hl Hk] Hi. unfold CheckpointSet.add. rewrite (proj2 (Z.ltb_ge _ _)) by lia.
  destruct (lookup_lt_is_Some_2 (CheckpointSet.elems cs) (Z.to_nat i)) as [e He]; [lia|].
  rewrite He. simpl. case_bool; eexists _, _; (split; [done|]); split; try done.
  simpl. by rewrite length_insert.
Qed.

Lemma handle_checkpoint_ok sp c s : wf s ->
  exists s', handle_checkpoint sp c s = Done tt s' [] /\ wf s' /\ same_core s s'.
Proof.
  intros Hi. pose proof Hi as [Hsw Hck Hst Hrt Hrp Hsum Hrq Hct Hcs].
  assert (Hrefl : same_core s s).
  { repeat split. exists O. done. }
  unfold handle_checkpoint, bind at 1, gets at 1.
  destruct (checkpoint_verify (node_id s) c) eqn:Hv; simpl; [|by exists s].
  assert (Hid : 0 <= c_id c < num_replicas).
  { unfold checkpoint_verify, is_replica in Hv. repeat case_bool; try done; bsimp; lia. }
  unfold bind, gets, modify, lock_checkpointing, unlock_checkpointing, bind, gets, modify. simpl.
  rewrite Hck. simpl.
  destruct (Z.leb_spec (c_seqno c) (last_chkp_seqno s)) as [Hle|Hgt]; simpl.
  { eexists; split; [done|]. split; [by constructor|by repeat split; exists O]. }
  set (cset := default _ _).
  assert (Hcok : cset_ok (c_seqno c) cset).
  { unfold cset. destruct (current_checkpoints s !! c_seqno c) as [cs|] eqn:E; simpl; [by apply Hcs|].
    split; [|done]. simpl. by rewrite length_replicate. }
  destruct (cset_add_ok cset _ (c_id c) c Hcok Hid) as (cs' & b & -> & Hok'). simpl.
  assert (Hins : forall k cs0 cs1, cset_ok (c_seqno c) cs1 ->
    (<[c_seqno c := cs1]> (current_checkpoints s)) !! k = Some cs0 -> cset_ok k cs0).
  { intros k cs0 cs1 H1 Hk. apply lookup_insert_Some in Hk as [[<- <-]|[_ Hk]]; [done|]. by apply Hcs. }
  destruct b; simpl.
  2:{ eexists; split; [done|]. split; [|by repeat split; exists O].
      constructor; simpl; try done. intros; by eapply Hins; [|eassumption]. }
  rewrite insert_insert_eq.
  destruct (CheckpointSet.is_complete cs'); simpl.
  2:{ eexists; split; [done|]. split; [|by repeat split; exists O].
      constructor; simpl; try done. intros; by eapply Hins; [|eassumption]. }
  unfold complete_checkpoint, handle_panic, bind, modify, gets, ret.
  destruct (ReqHistory.truncate_drop (rh s) (CheckpointSet.get_seqno cs')) as (k & Hk & Hkd).
  simpl. destruct sp; simpl; (eexists; split; [done|]; split; [constructor; simpl; try done|]);
    rewrite ?Hk, ?Hkd; try done;
    try (by apply Forall_drop); try (by apply ReqHistory.contiguous_drop);
    try (intros j cs0 Hj; apply lookup_delete_Some in Hj as [_ Hj]; by eapply Hins; [|eassumption]);
    repeat split; by exists k.
Qed.

(** ** What handlers output *)

(** The requests a run of a handler hands to the service. *)
Definition executed (o : list output) : list zl_Request :=
  omap (fun x => match x with Executed r => Some r | _ => None end) o.

Lemma executed_app o1 o2 : executed (o1 ++ o2) = executed o1 ++ executed o2.
Proof. apply omap_app. Qed.

(** The orders it sends to the backups. *)
Definition orders (o : list output) : list zl_Order_request :=
  omap (fun x => match x with Send_order r => Some r | _ => None end) o.

Lemma orders_app o1 o2 : orders (o1 ++ o2) = orders o1 ++ orders o2.
Proof. apply omap_app. Qed.

(** The last request identifier replied to, by client. *)
Definition rids (s : state) : list Z := rr_rid <$> replies s.

Lemma wp_rep_of c Q s r : replies s !! Z.to_nat c = Some r -> 0 <= c -> Q r s [] -> wp (rep_of c) Q s.
Proof.
  intros Hr Hc HQ. unfold wp, rep_of, bind, gets. rewrite (proj2 (Z.ltb_ge _ _)) by lia. by rewrite Hr.
Qed.

Lemma wp_req_id c Q s r : replies s !! Z.to_nat c = Some r -> 0 <= c -> Q (rr_rid r) s [] ->
  wp (req_id c) Q s.
Proof. intros. apply wp_bind. by eapply wp_rep_of. Qed.

Lemma principal_rep s c : wf s -> is_principal c = true ->
  0 <= c /\ exists r, replies s !! Z.to_nat c = Some r /\ rep_ok r.
Proof.
  intros Hs Hc. unfold is_principal in Hc. bsimp. split; [lia|].
  destruct (inv_replies _ Hs) as [Hl Hf].
  destruct (lookup_lt_is_Some_2 (replies s) (Z.to_nat c)) as [r Hr]; [lia|].
  exists r. split; [done|]. by eapply Forall_lookup_1.
Qed.

(** The message [send_reply] builds from a completed slot. *)
Definition full_reply (me : Z) (r : Rep_entry) : Reply.t :=
  Reply.mk 0 (rr_rid r) (rr_rh_digest r) (rr_digest r) me (rr_reply_size r) (-1)
    false instance_id (ALIGNED_SIZE (Reply.sizeof_rep + rr_reply_size r + Reply.MAC_size)) (rr_body r).

Lemma wp_send_reply c me Q s r : replies s !! Z.to_nat c = Some r -> 0 <= c ->
  rr_reply_size r <> -1 -> rr_cid r = -1 ->
  Q tt s [Send_reply c (full_reply me r)] -> wp (send_reply c 0 me) Q s.
Proof.
  intros Hr Hc Hsz Hcid HQ. apply wp_bind. eapply wp_rep_of; [done..|].
  rewrite (proj2 (Z.eqb_neq _ _)) by done. by rewrite Hcid.
Qed.

Lemma wf_set_replies s c r : wf s -> rep_ok r -> wf (set_replies (<[c := r]> (replies s)) s).
Proof.
  intros [? ? ? ? [Hl Hf]] Hr. constructor; try done. simpl. rewrite length_insert.
  split; [done|by apply Forall_insert].
Qed.

Lemma rids_insert s c r : rids (set_replies (<[c := r]> (replies s)) s) = <[c := rr_rid r]> (rids s).
Proof. unfold rids. simpl. apply list_fmap_insert. Qed.

(** ** Executing a request *)

(** The slot a fresh execution fills, and the reply sent for it: the full one
    when the result is short or this replica is the designated replier, an
    empty one (digest only) otherwise. *)
Definition new_slot (r : zl_Request) (dg : Z) (out : list Z) : Rep_entry :=
  mk_rep (q_rid r) (Z.of_nat (length out)) (-1) dg (MD5_reply out) (pad out).

Definition answer (me : Z) (r : zl_Request) (e : Rep_entry) : Reply.t :=
  if (rr_reply_size e <? 50) || (q_rid r mod num_replicas =? me) then full_reply me e
  else Reply.mk 0 (q_rid r) 0 (rr_digest e) me (-1) (q_cid r) false instance_id
         (Reply.sizeof_rep + Reply.MAC_size) [].

(** What [execute_request] does from [s], by its verdict: a fresh request is
    executed, logged and answered; one already executed is answered from the
    slot; an older one is ignored. *)
Definition exec_post (s : state) (r : zl_Request) (b : bool) (s' : state) (o : list output) : Prop :=
  wf s' /\ node_id s' = node_id s /\ seqno s' = seqno s /\ cur_state s' = cur_state s /\
  exists old, replies s !! Z.to_nat (q_cid r) = Some old /\
  if b then
    let '(sv', out) := exec_command (service s) (q_cid r) (q_command r) in
    exists dg rest,
      rr_rid old < q_rid r /\
      o = Executed r :: Send_reply (q_cid r) (answer (node_id s) r (new_slot r dg out)) :: rest /\
      executed rest = [] /\ orders rest = [] /\
      replies s' = <[Z.to_nat (q_cid r) := new_slot r dg out]> (replies s) /\
      service s' = sv' /\ last_seqno s' = seqno s
  else
    s' = s /\ q_rid r <= rr_rid old /\
    o = if q_rid r =? rr_rid old then [Send_reply (q_cid r) (full_reply (node_id s) old)] else [].

Lemma take_pad (out : list Z) : take (Z.to_nat (Z.of_nat (length out))) (pad out) = out.
Proof.
  rewrite Nat2Z.id. unfold pad. case_bool; [by rewrite take_app_length|by rewrite take_ge].
Qed.

Lemma wf_service s x : wf s -> wf (set_service x s).
Proof. intros []. by constructor. Qed.

(** The logging step: the sum stays reduced and the sequence consecutive. *)
(** A digest has its width, and the request fits a get-a-grip message. *)
Definition loggable (r : zl_Request) : Prop := 0 <= q_od r < 2 ^ 128 /\ gag_fits r = true.

Lemma log_ok r s : wf s -> loggable r ->
  (ReqHistory.rh (rh s) <> [] -> seqno s = last_seqno s + 1) ->
  exists h d, ReqHistory.add_request modulus MD5_sum (rh s) r (seqno s) = Some (h, d) /\
    wf (set_rh h (set_last_seqno (seqno s) s)).
Proof.
  intros Hs [Hd Hfit] Hsq. pose proof Hs as [? ? ? ? ? Hsum Hrq Hct ?].
  unfold ReqHistory.add_request. simpl.
  rewrite DSum.add_mod by lia. simpl. eexists _, _. split; [done|].
  constructor; simpl; try done.
  - apply Z.mod_pos_bound. lia.
  - apply Forall_app. split; [done|]. constructor; [by exists r|constructor].
  - by apply (ReqHistory.contiguous_snoc _ _ (ReqHistory.mk_entry (Some r) (seqno s) _) Hct).
Qed.

(** Taking a checkpoint after an execution. *)
Lemma checkpoint_tail_ok sp me s : wf s ->
  wp (h' <- gets rh ;;
      (if ReqHistory.should_checkpoint h' then
         let chkp := mk_checkpoint me (ReqHistory.get_top_seqno h')
                                   (ReqHistory.rh_digest MD5_sum h') in
         modify (set_checkpoint_in_progress true) ;;;
         emit (Monitor_checkpoint chkp) ;;;
         handle_checkpoint sp chkp
       else ret tt) ;;;
      ret true)
    (fun b s' o => b = true /\ wf s' /\ same_core s s' /\ executed o = [] /\ orders o = []) s.
Proof.
  intros Hs. apply wp_bind. unfold wp, gets.
  case_bool.
  2:{ simpl. split; [done|]. split; [done|]. split; [by repeat split; exists O|done]. }
  destruct (handle_checkpoint_ok sp
    (mk_checkpoint me (ReqHistory.get_top_seqno (rh s)) (ReqHistory.rh_digest MD5_sum (rh s)))
    (set_checkpoint_in_progress true s)) as (s' & Hr & Hw & Hc).
  { destruct Hs. by constructor. }
  unfold bind, modify, emit, ret. simpl. simpl in Hr. rewrite Hr. simpl.
  split; [done|]. split; [done|]. split; [exact Hc|done].
Qed.

Lemma wp_answer c me r e s Q : replies s !! Z.to_nat c = Some e -> is_principal c = true ->
  c = q_cid r -> q_rid r = rr_rid e -> node_id s = me ->
  0 <= rr_reply_size e -> rr_cid e = -1 ->
  Q tt s [Send_reply c (answer me r e)] ->
  wp (if (rr_reply_size e <? 50) || (q_rid r mod num_replicas =? me) then send_reply c 0 me
      else d <- rep_digest c ;; x <- empty_reply 0 (q_rid r) d c ;; emit (Send_reply c x)) Q s.
Proof.
  intros He Hp -> Hrid Hme Hsz Hc HQ.
  assert (0 <= q_cid r) by (unfold is_principal in Hp; bsimp; lia).
  unfold answer in HQ. case_bool.
  - eapply wp_send_reply; [done|done|lia|done|done].
  - apply wp_bind, wp_bind. eapply wp_rep_of; [done|done|].
    unfold wp, ret, empty_reply, bind, gets, emit. rewrite Hp, Hme. done.
Qed.

Lemma wp_end_reply c x sz dg body e s Q : replies s !! Z.to_nat c = Some e -> 0 <= c ->
  rr_reply_size e = -1 ->
  Q tt (set_replies (<[Z.to_nat c := mk_rep x sz (-1) dg (MD5_reply (take (Z.to_nat sz) body)) body]>
                       (replies s)) s) [] ->
  wp (end_reply c x sz dg body) Q s.
Proof.
  intros He Hc Hsz HQ. apply wp_bind. eapply wp_rep_of; [done..|]. by rewrite Hsz.
Qed.

Lemma execute_request_ok sp r s : wf s -> is_principal (q_cid r) = true -> 0 < q_rid r ->
  loggable r ->
  (ReqHistory.rh (rh s) <> [] -> (forall old, replies s !! Z.to_nat (q_cid r) = Some old ->
     rr_rid old < q_rid r -> seqno s = last_seqno s + 1)) ->
  wp (execute_request sp r) (exec_post s r) s.
Proof.
  intros Hs Hp Hrid Hd Hsq.
  destruct (principal_rep s _ Hs Hp) as (Hc & old & Hold & Hcid & Hok).
  assert (Hpost : forall o, q_rid r <= rr_rid old ->
    o = (if q_rid r =? rr_rid old then [Send_reply (q_cid r) (full_reply (node_id s) old)] else []) ->
    exec_post s r false s o).
  { intros o Hle Ho. split; [done|]. do 3 (split; [done|]). by exists old. }
  unfold execute_request. wp_steps. eapply wp_req_id; [done..|].
  destruct (Z.ltb_spec (q_rid r) (rr_rid old)).
  { apply Hpost; [lia|]. by rewrite (proj2 (Z.eqb_neq _ _)) by lia. }
  destruct (Z.eqb_spec (rr_rid old) (q_rid r)) as [E|E].
  { apply wp_bind. eapply wp_send_reply; [done|done|lia|done|].
    apply Hpost; [lia|]. by rewrite E, Z.eqb_refl. }
  destruct (log_ok r s Hs Hd) as (h & d & Hadd & Hlog); [intros; eapply Hsq; [done..|lia]|].
  apply wp_bind. unfold new_reply. apply wp_bind. eapply wp_rep_of; [done..|].
  unfold set_rep.
  wp_steps. simpl service. unfold exec_post.
  destruct (exec_command (service s) (q_cid r) (q_command r)) as [sv' out].
  wp_steps. eapply wp_of_option; [exact Hadd|].
  wp_steps. eapply wp_end_reply;
    [simpl; by rewrite list_lookup_insert_eq by (by eapply lookup_lt_Some)|done|done|].
  rewrite take_pad. wp_steps.
  eapply (wp_answer (q_cid r) (node_id s) r (new_slot r d out)); try done; [|simpl; lia|].
  { simpl. rewrite list_lookup_insert_eq; [done|]. rewrite length_insert. by eapply lookup_lt_Some. }
  do 2 wp_step.
  eapply wp_mono; [apply checkpoint_tail_ok|].
  - destruct Hlog as [? ? ? ? [Hl Hf]]. constructor; try done. simpl. rewrite list_insert_insert_eq, length_insert.
    split; [done|]. apply Forall_insert; [done|]. split; [done|]. right. simpl. lia.
  - simpl. intros b s' o (-> & Hw & (Hn & Hsq' & Hls & Hrep & Hsv & Hst & _) & Ho & Ho').
    rewrite list_insert_insert_eq in Hrep. split; [done|]. do 3 (split; [done|]). exists old. split; [done|].
    exists d, o. repeat split; try done. lia.
Qed.

(** ** Handlers *)

(** The effect of one event on the clients and the service: nothing, or the
    execution of the one request [c] the event may cause, when it is newer than
    its client's last. *)
Inductive effect (c : option zl_Request) (s s' : state) : list zl_Request -> Prop :=
| effect_none : rids s' = rids s -> service s' = service s -> effect c s s' []
| effect_exec r old :
    c = Some r ->
    rids s !! Z.to_nat (q_cid r) = Some old -> old < q_rid r -> is_principal (q_cid r) = true ->
    rids s' = <[Z.to_nat (q_cid r) := q_rid r]> (rids s) ->
    service s' = (exec_command (service s) (q_cid r) (q_command r)).1 ->
    effect c s s' [r].

(** The numbering: the primary gives an executed request the next number and
    orders exactly it under that number; a backup gives it the number after its
    last one, and orders nothing. *)
Definition numbered (s s' : state) (o : list output) : Prop :=
  match executed o with
  | [] => last_seqno s' = last_seqno s /\ orders o = [] /\
          (node_id s = primary -> seqno s' = seqno s)
  | _ => last_seqno s' = seqno s' /\
         if node_id s =? primary
         then seqno s' = seqno s + 1 /\
              orders o = (fun r => mk_order 0 (seqno s') (q_cid r) (q_rid r) r) <$> executed o
         else seqno s' = last_seqno s + 1 /\ orders o = []
  end.

Definition step_post (c : option zl_Request) (s s' : state) (o : list output) : Prop :=
  inv s' /\ node_id s' = node_id s /\ effect c s s' (executed o) /\ numbered s s' o.

(** The messages a handler trusts: the client of a request or of an order is a
    principal, request identifiers are positive, the command of a request lies within
    its message, and the request fits an order. *)
Definition request_fits (m : zl_Request) : Prop := command_inside m = true /\ order_fits m = true.
Definition event_ok (ev : event) : Prop :=
  match ev with
  | Deliver _ (Request_msg m) => is_principal (q_cid m) = true /\ 0 < q_rid m /\ request_fits m
  | Deliver _ (Order_request_msg m) => is_principal (o_cid m) = true /\ 0 < q_rid (o_request m) /\ request_fits (o_request m)
  | _ => True
  end.

Lemma fits_gag m : request_fits m -> gag_fits m = true.
Proof.
  intros [_ Ho]. unfold order_fits, order_size, auth_size, sizeof_order_rep in Ho. unfold gag_fits, sizeof_gag_rep. bsimp.
  apply Z.leb_le, ALIGNED_SIZE_le; [done|]. lia.
Qed.

Lemma send_order_done m s : request_fits m ->
  (sq <- gets seqno ;; o <- new_order 0 sq m ;; emit (Send_order o)) s
    = Done tt s [Send_order (mk_order 0 (seqno s) (q_cid m) (q_rid m) m)].
Proof.
  intros [_ Ho]. unfold new_order, bind, gets. rewrite Ho. cbn [in_bounds ret].
  unfold order_fits in Ho. rewrite (proj2 (Z.leb_le _ _)); [done|]. apply ALIGNED_SIZE_le; [done|]. by apply Z.leb_le.
Qed.

Lemma wp_verify_request nid m Q s : request_fits m -> Q (request_verify nid m) s [] -> wp (verify_request nid m) Q s.
Proof. intros [Hc _] HQ. unfold verify_request. wp_step. by apply wp_in_bounds. Qed.

Hypothesis MD5_range : forall c r cmd, 0 <= MD5_request c r cmd < 2 ^ 128.

Lemma request_verify_ok nid m : request_verify nid m = true ->
  is_principal (q_cid m) = true /\ 0 <= q_od m < 2 ^ 128.
Proof.
  unfold request_verify. destruct (is_principal (q_cid m)); [|done]. simpl.
  destruct (Z.eqb_spec (MD5_request (q_cid m) (q_rid m) (q_command m)) (q_od m)) as [<-|]; [|done].
  intros _. split; [done|]. apply MD5_range.
Qed.

(** An execution seen from outside. *)
Lemma exec_effect c s0 s r b s' o : exec_post s r b s' o -> is_principal (q_cid r) = true ->
  replies s = replies s0 -> service s = service s0 ->
  (forall old, replies s0 !! Z.to_nat (q_cid r) = Some old -> rr_rid old < q_rid r -> c = Some r) ->
  effect c s0 s' (executed o).
Proof.
  intros (_ & _ & _ & _ & old & Hold & Hb) Hp Hrep Hsv Hcause.
  destruct b.
  - destruct (exec_command (service s) (q_cid r) (q_command r)) as [sv' out] eqn:E.
    destruct Hb as (dg & rest & Hlt & -> & Hrest & _ & Hr & Hs & _). simpl. rewrite Hrest.
    eapply effect_exec; [|..|exact Hlt|done| |].
    + eapply Hcause; [|exact Hlt]. by rewrite <- Hrep.
    + unfold rids. by rewrite <- Hrep, list_lookup_fmap, Hold.
    + unfold rids. by rewrite Hr, list_fmap_insert, Hrep.
    + by rewrite Hs, <- Hsv, E.
  - destruct Hb as (-> & _ & ->).
    replace (executed _) with (@nil zl_Request) by (by case_bool).
    apply effect_none; [by unfold rids; rewrite Hrep|done].
Qed.

Lemma exec_inv s0 s r b s' o : exec_post s r b s' o -> inv s0 -> node_id s = node_id s0 ->
  (b = false -> rh s = rh s0 /\ last_seqno s = last_seqno s0 /\
     (node_id s0 = primary -> seqno s = seqno s0)) -> inv s'.
Proof.
  intros (Hw & Hn & Hsq & _ & old & Hold & Hb) [_ Hp] Hn0 Hf. split; [done|]. intros Hpr Hne.
  destruct b.
  - destruct (exec_command _ _ _). destruct Hb as (dg & rest & _ & _ & _ & _ & _ & _ & Hl). congruence.
  - destruct Hb as (-> & _ & _). destruct (Hf eq_refl) as (Hrh & Hl & Hs).
    rewrite Hl, Hs by congruence. apply Hp; congruence.
Qed.

Lemma step_refl c s : inv s -> step_post c s s [].
Proof. intros. split; [done|]. split; [done|]. by split; [apply effect_none|]. Qed.

Lemma wp_checkpoint_admit s Q : checkpointing_mutex s = false ->
  (forall k b, Q b (set_current_nb_requests_while_checkpointing k s) []) -> wp checkpoint_admit Q s.
Proof.
  intros Hm HQ.
  unfold wp, checkpoint_admit, lock_checkpointing, unlock_checkpointing, bind, gets, modify, ret.
  rewrite Hm. simpl. destruct s; simpl in *. subst. case_bool; [case_bool|]; apply HQ.
Qed.

Lemma wp_switch_reply c rid s Q : wf s -> is_principal c = true ->
  (forall r, Reply.rid r = rid -> Reply.should_switch r = true -> Reply.instance_id r = chain ->
     Q r s []) -> wp (switch_reply rid c) Q s.
Proof.
  intros Hs Hp HQ. destruct (principal_rep s c Hs Hp) as (Hc & r & Hr & _).
  unfold switch_reply. wp_step. apply wp_bind. eapply wp_rep_of; [done..|]. wp_step.
  unfold empty_reply. wp_steps. rewrite Hp. wp_steps. by apply HQ.
Qed.

(** The part of the state the invariant and the effect of an event depend on. *)
Definition same_view (s s' : state) : Prop :=
  node_id s' = node_id s /\ last_seqno s' = last_seqno s /\ replies s' = replies s /\
  rh s' = rh s /\ cur_state s' = cur_state s /\ switching_mutex s' = switching_mutex s /\
  checkpointing_mutex s' = checkpointing_mutex s /\ rtimer s' = rtimer s /\
  current_checkpoints s' = current_checkpoints s /\ service s' = service s.

Lemma same_view_wf s s' : same_view s s' -> wf s -> wf s'.
Proof.
  intros (? & Hl & Hr & Hh & Hc & Hs & Hk & Ht & Hcc & ?) [].
  constructor; rewrite ?Hl, ?Hr, ?Hh, ?Hc, ?Hs, ?Hk, ?Ht, ?Hcc; done.
Qed.

Lemma same_view_step c s s' o : same_view s s' -> seqno s' = seqno s -> executed o = [] -> orders o = [] -> inv s ->
  step_post c s s' o.
Proof.
  intros Hv Hsq Ho Ho' [Hw Hp]. split; [split|].
  - by eapply same_view_wf.
  - destruct Hv as (Hn & Hl & _ & Hh & _). by rewrite Hn, Hl, Hh, Hsq.
  - destruct Hv as (? & ? & Hr & ? & ? & ? & ? & ? & ? & ?). split; [done|]. unfold numbered. rewrite Ho.
    split; [apply effect_none; [unfold rids; congruence|done]|done].
Qed.

Lemma exec_numbered s0 s r b s' o : exec_post s r b s' o -> same_view s0 s ->
  (node_id s0 = primary -> forall old, replies s0 !! Z.to_nat (q_cid r) = Some old ->
     q_rid r <= rr_rid old -> seqno s = seqno s0) ->
  (node_id s0 = primary -> forall old, replies s0 !! Z.to_nat (q_cid r) = Some old ->
     rr_rid old < q_rid r -> seqno s = seqno s0 + 1) ->
  (node_id s0 <> primary -> forall old, replies s0 !! Z.to_nat (q_cid r) = Some old ->
     rr_rid old < q_rid r -> seqno s = last_seqno s0 + 1) ->
  forall o', executed o' = [] ->
  orders o' = (if b && (node_id s0 =? primary)
               then [mk_order 0 (seqno s') (q_cid r) (q_rid r) r] else []) ->
  numbered s0 s' (o ++ o').
Proof.
  intros (_ & Hn & Hsq & _ & old & Hold & Hb) (Hn0 & Hl & Hrp & _) H1 H2 H3 o' He' Ho'.
  rewrite Hrp in Hold. unfold numbered. rewrite executed_app, orders_app, He', app_nil_r, Ho'.
  destruct b.
  - destruct (exec_command _ _ _) as [sv' out].
    destruct Hb as (dg & rest & Hlt & -> & He & Ho & _ & _ & Hls).
    assert (E : forall x y, executed (Executed r :: Send_reply x y :: rest) = [r])
      by (intros; simpl; by rewrite He).
    assert (E' : forall x y, orders (Executed r :: Send_reply x y :: rest) = [])
      by (intros; simpl; by rewrite Ho).
    rewrite E, E', Hsq. destruct (Z.eqb_spec (node_id s0) primary);
      (split; [congruence|]); (split; [|done]); [by eapply H2|by eapply H3].
  - destruct Hb as (-> & Hle & ->). 
    destruct (q_rid r =? rr_rid old); simpl; (split; [done|]; split; [done|]; intros; by eapply H1).
Qed.

(** Running [execute_request] from a state that sees the same history. *)
Lemma execute_step c sp r s0 s (k : bool -> M unit) :
  inv s0 -> same_view s0 s -> is_principal (q_cid r) = true -> 0 < q_rid r ->
  loggable r ->
  (forall old, replies s0 !! Z.to_nat (q_cid r) = Some old -> rr_rid old < q_rid r ->
     ReqHistory.rh (rh s0) <> [] -> seqno s = last_seqno s0 + 1) ->
  (node_id s0 = primary -> forall old, replies s0 !! Z.to_nat (q_cid r) = Some old ->
     q_rid r <= rr_rid old -> seqno s = seqno s0) ->
  (node_id s0 = primary -> forall old, replies s0 !! Z.to_nat (q_cid r) = Some old ->
     rr_rid old < q_rid r -> seqno s = seqno s0 + 1) ->
  (node_id s0 <> primary -> forall old, replies s0 !! Z.to_nat (q_cid r) = Some old ->
     rr_rid old < q_rid r -> seqno s = last_seqno s0 + 1) ->
  (forall old, replies s0 !! Z.to_nat (q_cid r) = Some old -> rr_rid old < q_rid r -> c = Some r) ->
  (forall (b : bool) s1, exists o, k b s1 = Done tt s1 o /\ executed o = [] /\
     orders o = if b && (node_id s0 =? primary)
                then [mk_order 0 (seqno s1) (q_cid r) (q_rid r) r] else []) ->
  wp (bind (execute_request sp r) k) (fun _ s' o => step_post c s0 s' o) s.
Proof.
  intros Hi Hv Hp Hr Hd Hsq Hsq' Hsp Hsb Hcause Hk. pose proof Hv as (Hn & Hl & Hrp & Hh & Hst & _ & _ & _ & _ & Hsv).
  apply wp_bind. eapply wp_mono; [apply execute_request_ok; try done|].
  - eapply same_view_wf; [done|]. by destruct Hi.
  - intros Hne old Hold Hlt. rewrite Hrp in Hold. rewrite Hh in Hne. rewrite Hl. by eapply Hsq.
  - intros b s1 o Hpost. destruct (Hk b s1) as (o' & Hk' & Ho' & Hord). unfold wp. rewrite Hk'.
    split; [|split; [|split]].
    + eapply exec_inv; [done..|]. intros ->. split; [done|]. split; [done|]. intros Hpr.
      destruct Hpost as (_ & _ & _ & _ & old & Hold & _ & Hle & _). rewrite Hrp in Hold. by eapply Hsq'.
    + destruct Hpost as (_ & -> & _). done.
    + rewrite executed_app, Ho', app_nil_r. by eapply exec_effect.
    + by eapply exec_numbered.
Qed.

Ltac view := repeat split.

Lemma handle_request_ok sp m s : inv s -> is_principal (q_cid m) = true -> 0 < q_rid m -> request_fits m ->
  wp (handle_request sp m)
     (fun _ s' o => step_post (if node_id s =? primary then Some m else None) s s' o) s.
Proof.
  intros Hi Hp Hr Hfit. pose proof Hi as [Hw Hpr]. unfold handle_request. wp_steps.
  destruct (inv_state _ Hw) as [Hst|Hst]; rewrite Hst; simpl.
  2:{ wp_step. apply wp_switch_reply; [done..|]. intros. wp_steps. by apply same_view_step. }
  wp_steps. apply wp_verify_request; [done|].
  destruct (request_verify (node_id s) m) eqn:Hv; simpl; [|wp_steps; by apply same_view_step].
  apply request_verify_ok in Hv as [_ Hd]. assert (Hlog : loggable m) by (split; [done|by apply fits_gag]).
  destruct (is_read_only m); [wp_steps; by apply same_view_step|].
  wp_step. apply wp_checkpoint_admit; [exact (inv_checkpointing _ Hw)|]. intros k b.
  destruct b; simpl; [|wp_steps; by apply same_view_step].
  destruct (principal_rep s _ Hw Hp) as (Hc & old & Hold & _).
  wp_step. eapply wp_req_id; [done..|].
  destruct (Z.eqb_spec (node_id s) primary) as [Hme|Hme].
  - destruct (Z.leb_spec (rr_rid old) (q_rid m)); [|wp_steps; by apply same_view_step].
    wp_step. destruct (Z.eqb_spec (rr_rid old) (q_rid m)) as [E|E].
    + unfold bump_retransmissions. wp_step.
      eapply execute_step; try done; try (intros; simplify_eq; lia).
      rewrite Hme. intros [] s1; [|by eexists]. cbn [negb]. rewrite send_order_done by done. by eexists.
    + wp_step. eapply execute_step; try done; try (intros; simplify_eq; lia).
      * intros. simpl. by rewrite Hpr.
      * rewrite Hme. intros [] s1; [|by eexists]. cbn [negb]. rewrite send_order_done by done. by eexists.
  - destruct (Z.eqb_spec (rr_rid old) (q_rid m)) as [E|E]; [|wp_steps; by apply same_view_step].
    unfold bump_retransmissions. do 2 wp_step.
    eapply execute_step; try done; try (intros; simplify_eq; lia).
    rewrite (proj2 (Z.eqb_neq _ _) Hme). intros [] s1; by eexists.
Qed.

Lemma handle_order_ok sp m s : inv s -> is_principal (o_cid m) = true -> 0 < q_rid (o_request m) -> request_fits (o_request m) ->
  wp (handle_order sp m)
     (fun _ s' o =>
        step_post (if o_seqno m =? last_seqno s + 1 then Some (o_request m) else None) s s' o) s.
Proof.
  intros Hi Hp Hr Hfit. pose proof Hi as [Hw Hpr]. unfold handle_order. wp_steps.
  destruct (order_verify (node_id s) m) eqn:Hv; [|wp_steps; by apply same_view_step].
  destruct (principal_rep s _ Hw Hp) as (Hc & old & Hold & _).
  wp_step. eapply wp_req_id; [done..|].
  destruct (Z.leb_spec (rr_rid old) (o_rid m)); [|wp_steps; by apply same_view_step].
  wp_step. apply wp_in_bounds; [apply Hfit|].
  wp_steps. destruct (Z.eqb_spec (o_seqno m) (last_seqno s + 1)); simpl;
    [|wp_steps; by apply same_view_step].
  wp_step. apply wp_verify_request; [done|].
  destruct (request_verify (node_id s) (o_request m)) eqn:Hq; simpl;
    [|wp_steps; by apply same_view_step].
  apply request_verify_ok in Hq as [Hq Hd]. assert (Hlog : loggable (o_request m)) by (split; [done|by apply fits_gag]). wp_step. wp_step.
  assert (Hme : node_id s <> primary) by (intros Hme; unfold order_verify in Hv; by rewrite Hme in Hv).
  eapply execute_step; try done.
  rewrite (proj2 (Z.eqb_neq _ _) Hme). intros [] s1; by eexists.
Qed.

Lemma handle_checkpoint_step sp c s : inv s ->
  wp (handle_checkpoint sp c) (fun _ s' o => step_post None s s' o) s.
Proof.
  intros [Hw Hp].
  destruct (handle_checkpoint_ok sp c s Hw) as (s' & Hr & Hw' & Hn & Hsq & Hl & Hrp & Hsv & Hst & k & Hk).
  eapply wp_done; [done|]. split; [split; [done|]|split; [done|split; [|done]]].
  - rewrite Hn, Hsq, Hl, Hk. intros Hpr Hne. apply Hp; [done|]. intros Hnil.
    by rewrite Hnil, drop_nil in Hne.
  - apply effect_none; [by unfold rids; rewrite Hrp|done].
Qed.

Lemma answer_missing_ok dest l s : inv s ->
  wp (answer_missing dest l) (fun _ s' o => s' = s /\ executed o = [] /\ orders o = []) s.
Proof.
  intros Hi. pose proof Hi as [Hw _]. induction l as [|[c r] l IH]; [done|]. simpl. wp_steps.
  destruct (ReqHistory.find (rh s) c r) as [e|] eqn:Hf.
  - apply List.find_some in Hf as [Hin _]. apply list_elem_of_In in Hin.
    destruct (proj1 (Forall_forall _ _) (inv_reqs _ Hw) e Hin) as (q & Hq & Hfit).
    wp_step. eapply wp_of_option; [done|]. rewrite Hfit. unfold assert_. wp_steps.
    eapply wp_mono; [exact IH|]. simpl. intros _ s' o (-> & Ho & Ho'). done.
  - wp_steps. eapply wp_mono; [exact IH|]. done.
Qed.

Lemma lock_switching_ok s Q : switching_mutex s = false -> Q tt (set_switching_mutex true s) [] ->
  wp lock_switching Q s.
Proof. intros Hm HQ. unfold wp, lock_switching, bind, gets. by rewrite Hm. Qed.

Lemma enable_replica_ok b s : inv s ->
  wp (enable_replica b) (fun _ s' o => inv s' /\ node_id s' = node_id s /\ effect None s s' (executed o)) s.
Proof.
  intros Hi. pose proof Hi as [Hw Hp]. unfold enable_replica. wp_step.
  apply lock_switching_ok; [apply Hw|]. wp_steps. simpl.
  assert (Hm := inv_switching _ Hw).
  destruct (inv_state _ Hw) as [Hst|Hst]; rewrite Hst; simpl; destruct b; unfold unlock_switching;
    wp_steps; simpl;
    (split; [split; [destruct Hw; constructor; simpl; try done; auto; try lia;
       by intros ? ? ?%lookup_empty_Some|done]|
             split; [done|]; by apply effect_none]).
Qed.

Lemma idle_switching s (m : M unit) :
  inv s -> m (set_switching_mutex true s) = Done tt (set_switching_mutex false s) [] ->
  wp (lock_switching ;;; m) (fun _ s' o => step_post None s s' o) s.
Proof.
  intros Hi Hm. pose proof Hi as [Hw _]. wp_step. apply lock_switching_ok; [apply Hw|].
  unfold wp. rewrite Hm. simpl. apply same_view_step; [|done..]. view. symmetry. apply Hw.
Qed.

(** The request an event may make the replica execute: on the primary the one
    delivered, on a backup the one ordered under the next number. *)
Definition cause_of (s : state) (ev : event) : option zl_Request :=
  match ev with
  | Deliver _ (Request_msg m) => if node_id s =? primary then Some m else None
  | Deliver _ (Order_request_msg m) => if o_seqno m =? last_seqno s + 1 then Some (o_request m) else None
  | _ => None
  end.

Definition is_switch (ev : event) : bool := match ev with Switch _ => true | _ => false end.

(** Every handler is total on well-formed states and preserves the invariant. *)
Lemma run_event_ok ev s : inv s -> event_ok ev ->
  wp (run_event ev) (fun _ s' o => inv s' /\ node_id s' = node_id s /\ effect (cause_of s ev) s s' (executed o) /\
                       (is_switch ev = false -> numbered s s' o)) s.
Proof.
  intros Hi Hev. pose proof Hi as [Hw _].
  assert (Hst := inv_state _ Hw).
  destruct (is_switch ev) eqn:Hsw; [destruct ev; try done|
    eapply (wp_mono _ (fun _ s' o => step_post (cause_of s ev) s s' o)); [|by intros _ s' o (? & ? & ? & ?)]].
  { eapply wp_mono; [by apply enable_replica_ok|by intros _ s' o (? & ? & ?)]. }
  destruct ev as [sp [m|m|m|m|m|m|m|m|]|b| |]; simpl in *; try done.
  - destruct Hev as (? & ? & ?). by apply handle_request_ok.
  - destruct Hev as (? & ? & ?). by apply handle_order_ok.
  - by apply handle_checkpoint_step.
  - by apply step_refl.
  - apply idle_switching; [done|]. unfold bind, gets. simpl. by destruct Hst as [->| ->].
  - eapply wp_mono; [by apply answer_missing_ok|]. intros _ s' o (-> & Ho & Ho'). by apply same_view_step.
  - apply idle_switching; [done|]. unfold bind, gets. simpl. by destruct Hst as [->| ->].
  - unfold handle_client_notification, lock_checkpointing, wp, bind, gets.
    rewrite (inv_checkpointing _ Hw). simpl.
    repeat case_bool; simpl; apply same_view_step; try done; view; symmetry; apply Hw.
  - by apply step_refl.
  - wp_step. wp_step. destruct (ctimer s); wp_steps; by apply same_view_step.
  - wp_step. wp_step. rewrite (inv_rtimer _ Hw). wp_steps. by apply same_view_step.
Qed.

(** ** Runs *)

Fixpoint run (evs : list event) : M unit :=
  match evs with [] => ret tt | ev :: evs' => run_event ev ;;; run evs' end.

Lemma initial_inv nid junk sv : inv (initial nid junk sv).
Proof.
  split; [|done]. constructor; simpl; try done; auto; try lia.
  rewrite length_replicate. split; [done|]. apply Forall_replicate. split; [done|]. by left.
Qed.

(** The specification of a replica: its service and, per client, the last
    request executed. *)
Record spec := mk_spec { sp_rids : list Z; sp_service : S }.

Definition view_of (s : state) : spec := mk_spec (rids s) (service s).

Inductive spec_exec : spec -> list zl_Request -> spec -> Prop :=
| spec_nil x : spec_exec x [] x
| spec_cons x r rs y old :
    sp_rids x !! Z.to_nat (q_cid r) = Some old -> old < q_rid r -> is_principal (q_cid r) = true ->
    spec_exec (mk_spec (<[Z.to_nat (q_cid r) := q_rid r]> (sp_rids x))
                       (exec_command (sp_service x) (q_cid r) (q_command r)).1) rs y ->
    spec_exec x (r :: rs) y.

Lemma spec_exec_app x rs y rs' z : spec_exec x rs y -> spec_exec y rs' z -> spec_exec x (rs ++ rs') z.
Proof. induction 1; [done|]. intros. by eapply spec_cons; eauto. Qed.

Lemma effect_spec c s s' rs : effect c s s' rs -> spec_exec (view_of s) rs (view_of s').
Proof.
  destruct 1 as [Hr Hs|r old _ Hold Hlt Hp Hr Hs].
  - unfold view_of. rewrite Hr, Hs. constructor.
  - eapply spec_cons; [done..|]. unfold view_of. rewrite Hr, Hs. constructor.
Qed.

Lemma run_ok evs : forall s, inv s -> Forall event_ok evs ->
  wp (run evs) (fun _ s' o => inv s' /\ node_id s' = node_id s /\
                  spec_exec (view_of s) (executed o) (view_of s')) s.
Proof.
  induction evs as [|ev evs IH]; intros s Hi Hev; [split; [done|]; split; [done|]; apply spec_nil|].
  inversion_clear Hev. apply wp_bind. eapply wp_mono; [by apply run_event_ok|].
  intros _ s1 o1 (Hi1 & Hn1 & He1 & _). eapply wp_mono; [by apply IH|].
  intros _ s2 o2 (Hi2 & Hn2 & He2). split; [done|]. split; [congruence|].
  rewrite executed_app. eapply spec_exec_app; [by eapply effect_spec|done].
Qed.

(** In a specification run the requests of a client are strictly increasing,
    and above its initial identifier. *)
Lemma spec_exec_increasing x rs y c : spec_exec x rs y -> 0 <= c ->
  (forall old, sp_rids x !! Z.to_nat c = Some old ->
     Forall (fun i => old < i) (q_rid <$> filter (fun r => q_cid r = c) rs)) /\
  StronglySorted Z.lt (q_rid <$> filter (fun r => q_cid r = c) rs).
Proof.
  intros H Hc. induction H as [x|x r rs y old Hold Hlt Hp H [IH1 IH2]]; [by repeat constructor|].
  unfold is_principal in Hp. bsimp. rewrite filter_cons. case_decide as E.
  - subst c. rewrite fmap_cons.
    assert (Hrest : Forall (fun i => q_rid r < i) (q_rid <$> filter (fun r' => q_cid r' = q_cid r) rs)).
    { apply IH1. simpl. apply list_lookup_insert_eq. by eapply lookup_lt_Some. }
    split; [|by constructor]. intros old' Hold'. simplify_eq. constructor; [done|].
    eapply Forall_impl; [done|]. simpl. lia.
  - split; [|done]. intros old' Hold'. apply IH1. simpl. rewrite list_lookup_insert_ne by lia. done.
Qed.

Lemma spec_exec_service x rs y : spec_exec x rs y ->
  sp_service y = foldl (fun sv r => (exec_command sv (q_cid r) (q_command r)).1) (sp_service x) rs.
Proof. by induction 1. Qed.


(** At most once: in any such run, the requests executed for a client
    carry strictly increasing identifiers. *)
Theorem at_most_once evs nid junk sv c s o : Forall event_ok evs -> 0 <= c ->
  run evs (initial nid junk sv) = Done tt s o ->
  StronglySorted Z.lt (q_rid <$> filter (fun r => q_cid r = c) (executed o)).
Proof.
  intros Hev Hc Hr. pose proof (run_ok evs _ (initial_inv nid junk sv) Hev) as H. unfold wp in H.
  rewrite Hr in H. destruct H as (_ & _ & He). by eapply spec_exec_increasing.
Qed.

(** ** Progress *)

Lemma wp_and {A} (m : M A) (Q R : A -> state -> list output -> Prop) s :
  wp m Q s -> wp m R s -> wp m (fun a s' o => Q a s' o /\ R a s' o) s.
Proof. unfold wp. destruct (m s); auto. Qed.

Lemma wp_checkpoint_admit_idle s Q : checkpointing_mutex s = false ->
  checkpoint_in_progress s = false -> Q true s [] -> wp checkpoint_admit Q s.
Proof.
  intros Hm Hc HQ.
  unfold wp, checkpoint_admit, lock_checkpointing, unlock_checkpointing, bind, gets, modify, ret.
  rewrite Hm. simpl. rewrite Hc. destruct s; simpl in *. by subst.
Qed.

Lemma effect_inv c s s' r rs : effect c s s' (r :: rs) ->
  c = Some r /\ rs = [] /\ service s' = (exec_command (service s) (q_cid r) (q_command r)).1.
Proof. inversion 1; by subst. Qed.

(** A fresh request is executed, whatever runs before and after. *)
Lemma execute_fresh sp r s (k : bool -> M unit) old :
  wf s -> is_principal (q_cid r) = true -> 0 < q_rid r -> loggable r ->
  replies s !! Z.to_nat (q_cid r) = Some old -> rr_rid old < q_rid r ->
  (ReqHistory.rh (rh s) <> [] -> seqno s = last_seqno s + 1) ->
  (forall s1, exists s2 o, k true s1 = Done tt s2 o) ->
  wp (bind (execute_request sp r) k) (fun _ _ o => exists rep o', o = Executed r :: Send_reply (q_cid r) rep :: o' /\
     Reply.rid rep = q_rid r) s.
Proof.
  intros Hw Hp Hr Hd Hold Hlt Hsq Hk. apply wp_bind.
  eapply wp_mono; [apply execute_request_ok; try done; intros; by apply Hsq|].
  intros b s1 o (_ & _ & _ & _ & old' & Hold' & Hb). simplify_eq.
  destruct b; [|destruct Hb as (_ & Hle & _); lia].
  destruct (exec_command _ _ _) as [sv' out]. destruct Hb as (dg & rest & _ & -> & _).
  destruct (Hk s1) as (s2 & o2 & Hk2). unfold wp. rewrite Hk2.
  eexists _, _. split; [done|]. unfold answer. by case_bool.
Qed.

(** A verified, writing request newer than its client's last one, delivered
    to the primary in normal operation, is executed, answered under its
    identifier, and ordered under the next sequence number. *)
Theorem primary_executes sp m s old : inv s -> node_id s = primary ->
  cur_state s = replica_state_NORMAL -> checkpoint_in_progress s = false ->
  request_verify primary m = true -> is_read_only m = false -> 0 < q_rid m -> request_fits m ->
  replies s !! Z.to_nat (q_cid m) = Some old -> rr_rid old < q_rid m ->
  exists s' rep o, run_event (Deliver sp (Request_msg m)) s = Done tt s' (Executed m :: Send_reply (q_cid m) rep :: o) /\
    Reply.rid rep = q_rid m /\
    orders o = [mk_order 0 (seqno s + 1) (q_cid m) (q_rid m) m] /\ seqno s' = seqno s + 1 /\
    service s' = (exec_command (service s) (q_cid m) (q_command m)).1.
Proof.
  intros Hi Hme Hst Hck Hv Hro Hr Hfit Hold Hlt. pose proof Hi as [Hw Hpr].
  pose proof (request_verify_ok _ _ Hv) as [Hp Hd]. assert (Hlog : loggable m) by (split; [done|by apply fits_gag]).
  assert (Hex : wp (handle_request sp m) (fun _ _ o => exists rep o',
            o = Executed m :: Send_reply (q_cid m) rep :: o' /\ Reply.rid rep = q_rid m) s).
  { unfold handle_request. wp_steps. rewrite Hst. simpl. wp_steps. apply wp_verify_request; [done|]. rewrite Hme, Hv, Hro. simpl. wp_step.
    apply wp_checkpoint_admit_idle; [apply Hw|done|]. simpl.
    apply wp_bind. eapply wp_req_id; [done|unfold is_principal in Hp; bsimp; lia|].
    rewrite (proj2 (Z.leb_le (rr_rid old) _)) by lia.
    rewrite (proj2 (Z.eqb_neq (rr_rid old) _)) by lia. do 2 wp_step.
    eapply execute_fresh; try done.
    - destruct Hw. by constructor.
    - simpl. intros. by rewrite Hpr.
    - intros s1. cbn [negb]. rewrite send_order_done by done. by eexists _, _. }
  pose proof (wp_and _ _ _ _ Hex (handle_request_ok sp m s Hi Hp Hr Hfit)) as H.
  unfold wp in H. simpl. destruct (handle_request sp m s) as [[] s' o|]; [|done].
  destruct H as [(rep & o' & -> & Hrid) (_ & _ & He & Hn)]. exists s', rep, o'. split; [done|].
  split; [done|]. unfold numbered in Hn.
  rewrite Hme in He, Hn. simpl in He, Hn.
  destruct (effect_inv _ _ _ _ _ He) as (Hc & Hrest & Hsv). rewrite Hrest in Hn.
  destruct Hn as (_ & Hsq & Hord). rewrite Hsq in Hord. done.
Qed.

(** A backup that receives the next order, with a request it verifies and
    has not executed, executes it under that number. *)
Theorem backup_executes sp m s old : inv s -> order_verify (node_id s) m = true ->
  request_verify (node_id s) (o_request m) = true -> 0 < q_rid (o_request m) -> request_fits (o_request m) ->
  o_seqno m = last_seqno s + 1 -> o_cid m = q_cid (o_request m) -> o_rid m = q_rid (o_request m) ->
  replies s !! Z.to_nat (o_cid m) = Some old -> rr_rid old < o_rid m ->
  exists s' rep o, run_event (Deliver sp (Order_request_msg m)) s
      = Done tt s' (Executed (o_request m) :: Send_reply (o_cid m) rep :: o) /\
    Reply.rid rep = o_rid m /\ last_seqno s' = o_seqno m /\
    service s' = (exec_command (service s) (o_cid m) (q_command (o_request m))).1.
Proof.
  intros Hi Hov Hv Hr Hfit Hsq Hc Hrid Hold Hlt. pose proof Hi as [Hw Hpr].
  pose proof (request_verify_ok _ _ Hv) as [Hp Hd]. assert (Hlog : loggable (o_request m)) by (split; [done|by apply fits_gag]). rewrite <- Hc in Hp.
  assert (Hme : node_id s <> primary) by (intros E; unfold order_verify in Hov; by rewrite E in Hov).
  assert (Hex : wp (handle_order sp m) (fun _ _ o => exists rep o',
            o = Executed (o_request m) :: Send_reply (q_cid (o_request m)) rep :: o' /\
            Reply.rid rep = q_rid (o_request m)) s).
  { unfold handle_order. wp_steps. rewrite Hov. wp_step.
    eapply wp_req_id; [done|unfold is_principal in Hp; bsimp; lia|].
    rewrite (proj2 (Z.leb_le _ _)) by lia. wp_step. apply wp_in_bounds; [apply Hfit|]. wp_steps.
    rewrite Hsq, Z.eqb_refl. simpl. wp_step. apply wp_verify_request; [done|]. rewrite Hv. simpl. do 2 wp_step.
    eapply execute_fresh; try done.
    - destruct Hw. by constructor.
    - by rewrite <- Hc.
    - by rewrite <- Hc.
    - lia.
    - intros s1. by eexists _, _. }
  pose proof (wp_and _ _ _ _ Hex (handle_order_ok sp m s Hi Hp Hr Hfit)) as H.
  unfold wp in H. simpl. destruct (handle_order sp m s) as [[] s' o|]; [|done].
  destruct H as [(rep & o' & -> & Hrr) (_ & _ & He & Hn)]. exists s', rep, o'.
  rewrite Hc, Hrid. split; [done|]. split; [done|].
  unfold numbered in Hn. rewrite (proj2 (Z.eqb_neq _ _) Hme) in Hn.
  rewrite Hsq, Z.eqb_refl in He. simpl in He, Hn.
  destruct (effect_inv _ _ _ _ _ He) as (Hcs & Hrest & Hsv). split; [lia|done].
Qed.

(** ** Where the conditions on events are needed *)

(** A request with identifier 0 crashes a replica that never answered its
    client: it is taken for a retransmission, and [send_reply] asserts that a
    reply is there. *)
Theorem rid_zero_crashes sp m nid junk sv : request_verify nid m = true -> command_inside m = true -> is_read_only m = false ->
  q_rid m = 0 ->
  run_event (Deliver sp (Request_msg m)) (initial nid junk sv) = Fault AssertFailed.
Proof.
  intros Hv Hin Hro Hr. apply request_verify_ok in Hv as Hp. destruct Hp as [Hp _].
  pose proof Hp as Hp'. unfold is_principal in Hp'. bsimp.
  assert (Hrep : forall s, replies s = replies (initial nid junk sv) ->
            rep_of (q_cid m) s = Done rep_initial s []).
  { intros s E. unfold rep_of, bind, gets. rewrite E. simpl. rewrite (proj2 (Z.ltb_ge _ _)) by lia.
    rewrite lookup_replicate_2 by lia. done. }
  assert (Hex : forall s, replies s = replies (initial nid junk sv) ->
            execute_request sp m s = Fault AssertFailed).
  { intros s E. unfold execute_request, req_id, send_reply, bind, gets. rewrite (Hrep s E). simpl.
    rewrite Hr. simpl. by rewrite (Hrep s E). }
  simpl. unfold handle_request, bind at 1, gets at 1. simpl.
  unfold verify_request, bind, gets, modify. simpl. rewrite Hin. simpl. rewrite Hv, Hro. simpl.
  unfold req_id, bind. rewrite Hrep by done. simpl. rewrite Hr.
  destruct (nid =? primary); simpl; by rewrite Hex by done.
Qed.

(** A stopped replica answers unverified requests, and indexes the reply
    table with the client they claim. *)
Theorem stopped_trusts_cid sp m s : cur_state s = replica_state_STOP ->
  Z.of_nat (length (replies s)) <= q_cid m ->
  run_event (Deliver sp (Request_msg m)) s = Fault OutOfBounds.
Proof.
  intros Hst Hc. simpl. unfold handle_request, bind at 1, gets at 1. rewrite Hst. simpl.
  unfold switch_reply, rep_digest, rep_of, bind, gets. rewrite (proj2 (Z.ltb_ge _ _)) by lia.
  rewrite lookup_ge_None_2 by lia. done.
Qed.

(** The two handlers that end the recovery ([handle_abort] with nothing
    missing, [handle_get_a_grip] with the last missing request) hold
    [switching_mutex] when they switch, and [switch_state] calls back
    [enable_replica], which locks it again. *)
Theorem switch_deadlocks newrh s : switching_mutex s = true -> stop_and_switch newrh s = Fault Deadlock.
Proof.
  intros Hm. unfold stop_and_switch, bind, modify, switch_state, enable_replica, lock_switching, bind, gets.
  simpl. by rewrite Hm.
Qed.

End replica.
End Replica.


(** ** A concrete group: four replicas, two clients, a log as the service *)

Module ZlExample.
Import Replica.

Definition sum_bytes (l : list Z) : Z := foldr Z.add 0 l.
Definition md5_sum (x : Z) : Z := x mod 2 ^ 128.
Definition md5_reply (l : list Z) : Z := sum_bytes l mod 2 ^ 128.
Definition md5_request (c r : Z) (cmd : list Z) : Z := (c + 64 * r + 4096 * sum_bytes cmd) mod 2 ^ 128.
Definition log_service (sv : list Z) (c : Z) (cmd : list Z) : list Z * list Z := (sv ++ cmd, cmd).
Definition yes {A B} (_ : A) (_ : B) : bool := true.
Definition sig_yes {A} (_ : A) : bool := true.
Definition no_entry (_ : Z) (_ : list AbortHistoryElement) (_ : nat) : AbortHistoryElement := AHE 0 0 0.

Definition mod_ex : Z := 2 ^ 200.

Abbreviation run_ex :=
  (run 4 1 6 mod_ex md5_sum md5_reply md5_request yes yes sig_yes sig_yes 40 log_service).
Abbreviation run_event_ex :=
  (run_event 4 1 6 mod_ex md5_sum md5_reply md5_request yes yes sig_yes sig_yes 40 log_service).
Abbreviation init nid := (initial 1 6 nid 0 (@nil Z)).

Definition request (c r : Z) (cmd : list Z) : zl_Request :=
  mk_request c r (md5_request c r cmd) 0 cmd (40 + Z.of_nat (length cmd) + 40).

Lemma group_ex : 0 < 4 <= 6.
Proof. lia. Qed.
Lemma mod_ex_ok : 2 ^ 128 <= mod_ex < 2 ^ (DSum.nbits - 1).
Proof. unfold mod_ex, DSum.nbits. lia. Qed.
Lemma md5_request_range c r cmd : 0 <= md5_request c r cmd < 2 ^ 128.
Proof. apply Z.mod_pos_bound. lia. Qed.

(** Two clients, a retransmission and an old request. *)
Definition trace : list event :=
  [Deliver false (Request_msg (request 4 1 [7])); Deliver false (Request_msg (request 5 3 [8; 9]));
   Deliver false (Request_msg (request 4 1 [7])); Deliver true (Request_msg (request 5 2 [1]));
   Deliver false (Request_msg (request 4 2 [6])); Checkpoint_timer; Switch false;
   Deliver false (Request_msg (request 4 3 [5]))].

Lemma trace_ok : Forall (event_ok 4 6) trace.
Proof. by repeat constructor. Qed.


Lemma at_most_once_witness :
  StronglySorted Z.lt [1; 2] /\ exists s o, run_ex trace (init 0) = Done tt s o.
Proof.
  destruct (run_ex trace (init 0)) as [[] s o|e] eqn:Hr; [|vm_compute in Hr; discriminate].
  assert (H := at_most_once 4 1 6 mod_ex md5_sum md5_reply md5_request yes yes sig_yes sig_yes 40
                 log_service group_ex mod_ex_ok md5_request_range trace 0 0 [] 4 s o trace_ok
                 ltac:(lia) Hr).
  split; [|by exists s, o].
  assert (E : q_rid <$> filter (fun r => q_cid r = 4) (executed o) = [1; 2]).
  { vm_compute in Hr. injection Hr as <- <-. vm_compute. reflexivity. }
  by rewrite E in H.
Defined.

Lemma init_inv nid : inv 4 6 mod_ex (init nid).
Proof. apply initial_inv. exact mod_ex_ok. Qed.

Lemma primary_executes_witness :
  exists s' rep o,
    run_event_ex (Deliver false (Request_msg (request 4 1 [7]))) (init 0)
      = Done tt s' (Executed (request 4 1 [7]) :: Send_reply 4 rep :: o) /\
    Reply.rid rep = 1 /\ orders o = [mk_order 0 1 4 1 (request 4 1 [7])] /\ seqno s' = 1 /\
    service s' = [7].
Proof.
  apply (primary_executes 4 1 6 mod_ex md5_sum md5_reply md5_request yes yes sig_yes sig_yes 40
           log_service group_ex mod_ex_ok md5_request_range false (request 4 1 [7]) (init 0) rep_initial
           (init_inv 0)); first [reflexivity|split; reflexivity].
Defined.

Lemma backup_executes_witness :
  exists s' rep o,
    run_event_ex (Deliver false (Order_request_msg (mk_order 0 1 4 1 (request 4 1 [7])))) (init 2)
      = Done tt s' (Executed (request 4 1 [7]) :: Send_reply 4 rep :: o) /\
    Reply.rid rep = 1 /\ last_seqno s' = 1 /\ service s' = [7].
Proof.
  apply (backup_executes 4 1 6 mod_ex md5_sum md5_reply md5_request yes yes sig_yes sig_yes 40
           log_service group_ex mod_ex_ok md5_request_range false
           (mk_order 0 1 4 1 (request 4 1 [7])) (init 2) rep_initial (init_inv 2)); first [reflexivity|split; reflexivity].
Defined.

Lemma rid_zero_crashes_witness :
  run_event_ex (Deliver false (Request_msg (request 4 0 [7]))) (init 0) = Fault AssertFailed.
Proof.
  apply (rid_zero_crashes 4 1 6 mod_ex md5_sum md5_reply md5_request yes yes sig_yes sig_yes 40
           log_service md5_request_range false (request 4 0 [7]) 0 0 []); reflexivity.
Defined.

Definition stopped_replica := set_cur_state replica_state_STOP (init 1).

Lemma stopped_trusts_cid_witness :
  run_event_ex (Deliver false (Request_msg (request 6 1 [7]))) stopped_replica = Fault OutOfBounds.
Proof.
  apply (stopped_trusts_cid 4 1 6 mod_ex md5_sum md5_reply md5_request yes yes sig_yes sig_yes 40
           log_service false (request 6 1 [7]) stopped_replica); vm_compute; congruence.
Defined.

Definition recovering_replica := set_switching_mutex true (init 1).

Lemma switch_deadlocks_witness :
  stop_and_switch 6 md5_reply ReqHistory.empty recovering_replica = Fault Deadlock.
Proof. apply (switch_deadlocks 6 md5_reply ReqHistory.empty recovering_replica). reflexivity. Defined.

(** Three checkpoints with the same number complete a set and truncate
    the history, whatever their digests: the comparison's result is unused. *)
Theorem checkpoint_digests_ignored d1 d2 d3 :
  exists s o,
    run_ex ([Deliver false (Request_msg (request 4 1 [7]))] ++
            ((fun c => Deliver false (Checkpoint_msg c)) <$>
               [mk_checkpoint 1 1 d1; mk_checkpoint 2 1 d2; mk_checkpoint 3 1 d3])) (init 0)
      = Done tt s o /\ last_chkp_seqno s = 1 /\ ReqHistory.rh (rh s) = [].
Proof. eexists _, _. split; [vm_compute; reflexivity|]. split; vm_compute; reflexivity. Qed.

End ZlExample.
