(* ===== verification/ZlSystem.v ===== *)
(** * A ZLight group

    A primary (node 0) and its backups, each running the replica of
    [ZlReplica], and the orders in the network.  A step runs one event at one
    replica; an order delivered is one the primary sent (it may be delayed,
    reordered, duplicated or lost).  The switcher is not used: the group stays
    in this instance.  The theorem is agreement: the requests a replica
    executes are a prefix of those the primary executes, so replicas that have
    executed as many requests have equal services. *)

From S2P Require Import Prelude Effects ReqHistory SCSet Smasher Certificate Reply ZlReplica.
Local Open Scope Z_scope.

Module ZlSystem.
Import Replica.
Section system.
Context {S : Type}.
Context (num_replicas max_faulty num_principals : Z).
Context (modulus : Z) (MD5_sum : Z -> Z) (MD5_reply : list Z -> Z).
Context (MD5_request : Z -> Z -> list Z -> Z).
Context (request_auth : Z -> zl_Request -> bool) (order_auth : Z -> zl_Order_request -> bool).
Context (checkpoint_sig : zl_Checkpoint -> bool) (abort_verify : Smasher.zl_Abort -> bool) (sig_size : Z).
Context (exec_command : S -> Z -> list Z -> S * list Z).

Local Abbreviation state := (@state S).
Local Abbreviation run_event := (run_event num_replicas max_faulty num_principals modulus MD5_sum
  MD5_reply MD5_request request_auth order_auth checkpoint_sig abort_verify sig_size exec_command).
Local Abbreviation event_ok := (event_ok num_replicas num_principals).
Local Abbreviation inv := (inv num_replicas num_principals modulus).
Local Abbreviation spec_exec := (spec_exec num_principals exec_command).

(** [logs] records what each node has executed so far. *)
Record system := mk_system {
  nodes : list state; net : list zl_Order_request; logs : list (list zl_Request)
}.

(** Orders are authenticated by the primary: those accepted were sent. *)
Definition deliverable (n : list zl_Order_request) (ev : event) : Prop :=
  match ev with
  | Deliver _ (Order_request_msg m) => m ∈ n
  | _ => True
  end.

(** The constructor does not initialise [last_seqno]: [junk i] is what replica [i]
    finds there. *)
Definition start (n : nat) (junk : Z -> Z) (sv : S) : system :=
  mk_system ((fun i => initial max_faulty num_principals i (junk i) sv) <$> seqZ 0 (Z.of_nat n)) []
            (replicate n []).

Inductive step : system -> system -> Prop :=
| step_event x i s l ev s' o :
    nodes x !! i = Some s -> logs x !! i = Some l ->
    event_ok ev -> deliverable (net x) ev -> is_switch ev = false ->
    run_event ev s = Done tt s' o ->
    step x (mk_system (<[i := s']> (nodes x)) (net x ++ orders o) (<[i := l ++ executed o]> (logs x))).

(** The step as a function. *)
Definition fire (x : system) (i : nat) (ev : event) : option system :=
  s ← nodes x !! i; l ← logs x !! i;
  match run_event ev s with
  | Done _ s' o =>
    Some (mk_system (<[i := s']> (nodes x)) (net x ++ orders o) (<[i := l ++ executed o]> (logs x)))
  | Fault _ => None
  end.

Lemma fire_step x i ev y : fire x i ev = Some y -> event_ok ev -> deliverable (net x) ev ->
  is_switch ev = false -> step x y.
Proof.
  unfold fire. intros Hf Hev Hd Hsw. destruct (nodes x !! i) as [s|] eqn:Hs; [|done].
  simpl in Hf. destruct (logs x !! i) as [l|] eqn:Hl; [|done]. simpl in Hf.
  destruct (run_event ev s) as [[] s' o|] eqn:Hr; [|done]. simplify_eq. by eapply step_event.
Qed.

(** Runs of the group: a schedule of events, legal when each event is. *)
Fixpoint fire_all (x : system) (l : list (nat * event)) : option system :=
  match l with
  | [] => Some x
  | (i, ev) :: l' => y ← fire x i ev; fire_all y l'
  end.

Fixpoint legal (x : system) (l : list (nat * event)) : Prop :=
  match l with
  | [] => True
  | (i, ev) :: l' =>
    event_ok ev /\ deliverable (net x) ev /\ is_switch ev = false /\
    match fire x i ev with Some y => legal y l' | None => False end
  end.

Lemma fire_all_rtc l : forall x y, legal x l -> fire_all x l = Some y -> rtc step x y.
Proof.
  induction l as [|[i ev] l IH]; simpl; intros x y Hl Hf; [simplify_eq; apply rtc_refl|].
  destruct Hl as (He & Hd & Hs & Hl). destruct (fire x i ev) as [z|] eqn:Hz; [|done].
  eapply rtc_l; [by eapply fire_step|by apply IH].
Qed.

(** Node [i] of a group whose primary has executed [P]. *)
Record node_ok (sv : S) (P : list zl_Request) (i : nat) (s : state) (l : list zl_Request) : Prop := {
  nk_inv : inv s;
  nk_id : node_id s = Z.of_nat i;
  nk_prefix : l `prefix_of` P;
  nk_spec : spec_exec (mk_spec (replicate (Z.to_nat num_principals) 0) sv) l (view_of s);
  nk_seq : if (i =? 0)%nat then l = P /\ seqno s = Z.of_nat (length P)
           else last_seqno s = Z.of_nat (length l)
}.

Definition order_for (P : list zl_Request) (m : zl_Order_request) : Prop :=
  exists k r, P !! k = Some r /\ m = mk_order 0 (Z.of_nat k + 1) (q_cid r) (q_rid r) r.

Definition group_ok (sv : S) (x : system) : Prop :=
  exists P, length (nodes x) = length (logs x) /\ logs x !! 0%nat = Some P /\
    (forall i s l, nodes x !! i = Some s -> logs x !! i = Some l -> node_ok sv P i s l) /\
    Forall (order_for P) (net x).

Context (group : 0 < num_replicas <= num_principals).
Context (modulus_ok : 2 ^ 128 <= modulus < 2 ^ (DSum.nbits - 1)).
Context (MD5_range : forall c r cmd, 0 <= MD5_request c r cmd < 2 ^ 128).

Lemma spec_exec_det x rs y z : spec_exec x rs y -> spec_exec x rs z -> y = z.
Proof.
  intros H. revert z. induction H as [|x r rs y old Ho Hl Hp H IH]; intros z Hz;
    inversion Hz; subst; [done|by apply IH].
Qed.

(** A step of a run and the numbering it follows, for the two roles. *)
Lemma step_facts ev s s' o : inv s -> event_ok ev -> is_switch ev = false ->
  run_event ev s = Done tt s' o ->
  inv s' /\ node_id s' = node_id s /\
  effect num_principals exec_command (cause_of s ev) s s' (executed o) /\ numbered s s' o.
Proof.
  intros Hi Hev Hsw Hr.
  pose proof (run_event_ok num_replicas max_faulty num_principals modulus MD5_sum MD5_reply
    MD5_request request_auth order_auth checkpoint_sig abort_verify sig_size exec_command group modulus_ok
    MD5_range ev s Hi Hev) as H.
  unfold wp in H. rewrite Hr in H. destruct H as (? & ? & ? & Hn). auto.
Qed.

Lemma node_grow sv P rs i s l : i <> 0%nat -> node_ok sv P i s l -> node_ok sv (P ++ rs) i s l.
Proof.
  intros Hi [Hv Hid Hp Hs Hq]. constructor; try done; [by apply prefix_app_r|].
  by destruct i.
Qed.

Lemma prefix_snoc {A} (l P : list A) x : l `prefix_of` P -> P !! length l = Some x ->
  l ++ [x] `prefix_of` P.
Proof.
  intros [k ->] Hx. rewrite lookup_app_r, Nat.sub_diag in Hx by lia.
  destruct k as [|y k]; simplify_eq/=. apply prefix_app, prefix_cons, prefix_nil.
Qed.

Lemma orders_grow P rs m : order_for P m -> order_for (P ++ rs) m.
Proof. intros (k & r & Hk & ->). exists k, r. split; [|done]. by apply lookup_app_l_Some. Qed.

(** The primary extends the log, and orders what it added. *)
Lemma primary_step sv P s ev s' o : node_ok sv P 0 s P -> event_ok ev -> is_switch ev = false ->
  run_event ev s = Done tt s' o ->
  node_ok sv (P ++ executed o) 0 s' (P ++ executed o) /\ Forall (order_for (P ++ executed o)) (orders o).
Proof.
  intros [Hi Hid _ Hs [_ Hq]] Hev Hsw Hr.
  destruct (step_facts _ _ _ _ Hi Hev Hsw Hr) as (Hi' & Hid' & He & Hn).
  assert (Hsp := spec_exec_app _ _ _ _ _ _ _ Hs (effect_spec _ _ _ _ _ _ He)).
  revert Hn Hsp. unfold numbered. rewrite Hid. simpl.
  destruct He as [_ _|r old _ _ _ _ _ _]; intros Hn Hsp; simpl in Hn.
  - destruct Hn as (_ & -> & Hsq). rewrite app_nil_r in *. split; [|done].
    constructor; try done; [by rewrite Hid'|]. split; [done|]. by rewrite Hsq.
  - destruct Hn as (_ & Hsq & ->). split.
    + constructor; try done; [by rewrite Hid'|]. split; [done|]. rewrite length_app. simpl. lia.
    + repeat constructor. exists (length P), r. split; [by rewrite lookup_app_r, Nat.sub_diag by lia|].
      f_equal. lia.
Qed.

(** A backup follows: it only executes the request ordered under its next
    number. *)
Lemma backup_step sv P ns i s l ev s' o : i <> 0%nat -> node_ok sv P i s l ->
  event_ok ev -> deliverable ns ev -> Forall (order_for P) ns -> is_switch ev = false ->
  run_event ev s = Done tt s' o ->
  node_ok sv P i s' (l ++ executed o) /\ orders o = [].
Proof.
  intros H0 [Hi Hid Hpre Hs Hq] Hev Hdel Hns Hsw Hr.
  rewrite (proj2 (Nat.eqb_neq _ _) H0) in Hq.
  assert (Hnp : (node_id s =? primary) = false) by (apply Z.eqb_neq; unfold primary; lia).
  destruct (step_facts _ _ _ _ Hi Hev Hsw Hr) as (Hi' & Hid' & He & Hn).
  assert (Hsp := spec_exec_app _ _ _ _ _ _ _ Hs (effect_spec _ _ _ _ _ _ He)).
  revert Hn Hsp. unfold numbered. rewrite Hnp.
  destruct He as [_ _|r old Hc _ _ _ _ _]; intros Hn Hsp.
  - destruct Hn as (Hl & -> & _). rewrite app_nil_r in *. split; [|done].
    constructor; try done; [by rewrite Hid'|]. rewrite (proj2 (Nat.eqb_neq _ _) H0). by rewrite Hl.
  - destruct Hn as (Hl & Hsq & ->). split; [|done].
    assert (Hr' : P !! length l = Some r).
    { destruct ev as [sp [m|m|m|m|m|m|m|m|]|b| |]; simpl in Hc; rewrite ?Hnp in Hc; try done.
      destruct (Z.eqb_spec (o_seqno m) (last_seqno s + 1)) as [Em|]; simplify_eq.
      destruct (proj1 (Forall_forall _ _) Hns m Hdel) as (k & r & Hk & ->). simpl in *.
      by replace (length l) with k by lia. }
    constructor; try done; [by rewrite Hid'|by apply prefix_snoc|].
    rewrite (proj2 (Nat.eqb_neq _ _) H0), length_app. simpl. lia.
Qed.

Lemma start_ok n junk sv : (0 < n)%nat -> (forall i, 0 < i -> junk i = 0) -> group_ok sv (start n junk sv).
Proof.
  intros Hn Hj. exists []. unfold start. simpl. split; [by rewrite length_fmap, length_seqZ, length_replicate, Nat2Z.id|].
  split; [by rewrite lookup_replicate_2 by lia|]. split; [|done].
  intros i s l Hs [-> Hi]%lookup_replicate. rewrite list_lookup_fmap in Hs.
  rewrite lookup_seqZ_lt in Hs by lia. simplify_eq/=. constructor; try done.
  - apply initial_inv; done.
  - simpl. replace (view_of _) with (mk_spec (replicate (Z.to_nat num_principals) 0) sv); [constructor|].
    unfold view_of, rids. simpl. f_equal. by rewrite fmap_replicate.
  - destruct i; [done|]. simpl. rewrite Hj by lia. done.
Qed.

Lemma group_step_ok sv x y : step x y -> group_ok sv x -> group_ok sv y.
Proof.
  destruct 1 as [x i s l ev s' o Hs Hl Hev Hdel Hsw Hr]. intros (P & Hlen & HP & Hok & Hnet).
  destruct (decide (i = 0%nat)) as [->|Hi0].
  - simplify_eq. destruct (primary_step sv l s ev s' o) as [Hp Ho]; try done; [by apply Hok|].
    exists (l ++ executed o). simpl. rewrite !length_insert. split; [done|].
    split; [apply list_lookup_insert_eq; by eapply lookup_lt_Some|]. split.
    + intros i t k Ht Hk.
      apply list_lookup_insert_Some in Ht as [(<- & <- & _)|(Hne & Ht)].
      * rewrite list_lookup_insert_eq in Hk by (by eapply lookup_lt_Some). by simplify_eq.
      * rewrite list_lookup_insert_ne in Hk by done. apply node_grow; auto.
    + apply Forall_app. split; [|done]. eapply Forall_impl; [done|]. apply orders_grow.
  - destruct (backup_step sv P (net x) i s l ev s' o) as [Hb ->]; try done; [by apply Hok|].
    exists P. simpl. rewrite !length_insert, app_nil_r. split; [done|].
    split; [by rewrite list_lookup_insert_ne|]. split; [|done].
    intros j t k Ht Hk. apply list_lookup_insert_Some in Ht as [(<- & <- & _)|(Hne & Ht)].
    + rewrite list_lookup_insert_eq in Hk by (by eapply lookup_lt_Some). by simplify_eq.
    + rewrite list_lookup_insert_ne in Hk by done. auto.
Qed.

(** C2. Agreement: when the backups find 0 in [last_seqno], which the constructor
    does not initialise, then in every state the group can reach what a replica has
    executed is a prefix of what the primary has executed, and its service is the
    result of executing exactly those requests.  The steps of the group: any event at any
    replica but a call of the switcher; requests name a principal, have a
    positive identifier, hold their command and fit an order; and the orders delivered are among those
    the primary has sent. *)
Theorem agreement n junk sv x : (forall i, 0 < i -> junk i = 0) -> rtc step (start n junk sv) x ->
  forall i s l P, nodes x !! i = Some s -> logs x !! i = Some l -> logs x !! 0%nat = Some P ->
  l `prefix_of` P /\
  service s = foldl (fun t r => (exec_command t (q_cid r) (q_command r)).1) sv l.
Proof.
  intros Hj Hx i s l P Hs Hl HP.
  assert (Hn : (0 < n)%nat).
  { destruct n; [|lia]. exfalso. inversion Hx as [|? y ? Hst]; subst; [done|].
    by inversion Hst as [? ? ? ? ? ? ? Hs0]; subst. }
  assert (Hg : group_ok sv x).
  { revert Hx. generalize (start_ok n junk sv Hn Hj). generalize (start n junk sv).
    intros a Ha Hx. induction Hx; [done|]. eauto using group_step_ok. }
  destruct Hg as (P' & _ & HP' & Hok & _). simplify_eq.
  destruct (Hok i s l Hs Hl) as [_ _ Hp Hsp _]. split; [done|].
  by apply spec_exec_service in Hsp.
Qed.

End system.

(** The primary executes two requests; backup 2 has received both orders, the
    second one twice. *)
Section example.
Import ZlExample.

Local Abbreviation fire_all_ex :=
  (fire_all 4 1 6 mod_ex md5_sum md5_reply md5_request yes yes sig_yes sig_yes 40 log_service).

Definition zeros (_ : Z) : Z := 0.
Definition q1 := request 4 1 [7].
Definition q2 := request 5 1 [8; 9].
Definition order_of (k : Z) (q : zl_Request) := mk_order 0 k (q_cid q) (q_rid q) q.

Definition example_run : list (nat * event) :=
  [(0%nat, Deliver false (Request_msg q1)); (0%nat, Deliver false (Request_msg q2));
   (2%nat, Deliver false (Order_request_msg (order_of 2 q2)));
   (2%nat, Deliver false (Order_request_msg (order_of 1 q1)));
   (2%nat, Deliver false (Order_request_msg (order_of 2 q2)))].

Lemma example_legal :
  legal 4 1 6 mod_ex md5_sum md5_reply md5_request yes yes sig_yes sig_yes 40 log_service
    (start 1 6 4 zeros []) example_run.
Proof. vm_compute. repeat split; repeat constructor. Qed.

Lemma agreement_witness :
  exists x s, fire_all_ex (start 1 6 4 zeros []) example_run = Some x /\ nodes x !! 2%nat = Some s /\
    logs x = [[q1; q2]; []; [q1; q2]; []] /\ service s = [7; 8; 9].
Proof.
  destruct (fire_all_ex (start 1 6 4 zeros []) example_run) as [x|] eqn:Hx; [|vm_compute in Hx; discriminate].
  assert (Hl : logs x = [[q1; q2]; []; [q1; q2]; []]) by (vm_compute in Hx; by injection Hx as <-).
  destruct (nodes x !! 2%nat) as [s|] eqn:Hs; [|vm_compute in Hx; injection Hx as <-; discriminate].
  exists x, s. split; [done|]. split; [done|]. split; [done|].
  assert (H := agreement 4 1 6 mod_ex md5_sum md5_reply md5_request yes yes sig_yes sig_yes 40 log_service
           group_ex mod_ex_ok md5_request_range 4 zeros [] x (fun _ _ => eq_refl)
           (fire_all_rtc _ _ _ _ _ _ _ _ _ _ _ _ _ _ _ _ example_legal Hx)
           2%nat s [q1; q2] [q1; q2] Hs ltac:(by rewrite Hl) ltac:(by rewrite Hl)).
  destruct H as [_ ->]. reflexivity.
Defined.

(** With 1 in [last_seqno] a backup takes the second order first, and never the first. *)
Definition skipped_run : list (nat * event) :=
  [(0%nat, Deliver false (Request_msg q1)); (0%nat, Deliver false (Request_msg q2));
   (2%nat, Deliver false (Order_request_msg (order_of 1 q1)));
   (2%nat, Deliver false (Order_request_msg (order_of 2 q2)))].

Example uninitialised_diverges :
  logs <$> fire_all_ex (start 1 6 4 (fun _ => 1) []) skipped_run = Some [[q1; q2]; []; [q2]; []].
Proof. vm_compute. reflexivity. Qed.

(** An authenticator over the order's header, as [zl_Order_request::verify]
    checks it: the headers of the two orders above and no other. *)
Definition header_auth (_ : Z) (m : zl_Order_request) : bool :=
  bool_decide ((o_seqno m, o_cid m, o_rid m) ∈ [(1, 4, 1); (2, 5, 1)]).

(** The header does not bind the request it carries: a backup given the two
    authentic headers with the requests exchanged executes them in the other
    order than the primary. *)
Theorem swapped_requests_accepted :
  exists s o,
    run 4 1 6 mod_ex md5_sum md5_reply md5_request yes header_auth sig_yes sig_yes 40 log_service
      [Deliver false (Order_request_msg (mk_order 0 1 (q_cid q1) (q_rid q1) q2));
       Deliver false (Order_request_msg (mk_order 0 2 (q_cid q2) (q_rid q2) q1))]
      (initial 1 6 1 0 []) = Done tt s o /\
    executed o = [q2; q1] /\ service s = [8; 9; 7].
Proof. eexists _, _. split; [vm_compute; reflexivity|]. split; vm_compute; reflexivity. Qed.

End example.
End ZlSystem.
