(* ===== verification/Bytes.v ===== *)
(** * Byte buffers

    Little-endian words and the C memory operations the Redis data structures
    use on a heap block: loads and stores of words, [memcpy]/[memmove] inside
    the block and [realloc].  A block is the list of its bytes (each in
    [0..255]); an access outside it is [None].  The machine is the one the code
    is built for (x86: little-endian, two's complement). *)

From S2P Require Import Prelude.
Local Open Scope Z_scope.

Module Bytes.

Abbreviation block := (list Z).

(** ** Words *)

Fixpoint le_encode (n : nat) (z : Z) : list Z :=
  match n with
  | O => []
  | S n' => z mod 256 :: le_encode n' (z / 256)
  end.

Fixpoint le_decode (l : list Z) : Z :=
  match l with
  | [] => 0
  | b :: l' => b + 256 * le_decode l'
  end.

Lemma le_encode_length n z : length (le_encode n z) = n.
Proof. revert z. induction n; intros; simpl; auto. Qed.

Lemma le_encode_bytes n z : Forall (in_u 8) (le_encode n z).
Proof.
  revert z. induction n as [|n IH]; intros z; simpl; constructor; [|apply IH].
  apply (Z.mod_pos_bound z 256). lia.
Qed.

Lemma le_decode_encode n z : le_decode (le_encode n z) = z mod 2 ^ (8 * Z.of_nat n).
Proof.
  revert z. induction n as [|n IH]; intros z; simpl le_decode; [by rewrite Z.mod_1_r|].
  simpl le_encode. simpl le_decode. rewrite IH.
  replace (8 * Z.of_nat (S n)) with (8 + 8 * Z.of_nat n) by lia.
  rewrite Z.pow_add_r by lia. change (2 ^ 8) with 256.
  rewrite Z.rem_mul_r by lia. lia.
Qed.

Lemma le_decode_range l : Forall (in_u 8) l -> 0 <= le_decode l < 2 ^ (8 * Z.of_nat (length l)).
Proof.
  induction 1 as [|b l Hb Hl IH]; simpl; [lia|]. unfold in_u in Hb.
  replace (8 * Z.of_nat (S (length l))) with (8 + 8 * Z.of_nat (length l)) by lia.
  rewrite Z.pow_add_r by lia. change (2 ^ 8) with 256 in *. nia.
Qed.

Lemma le_encode_decode l : Forall (in_u 8) l -> le_encode (length l) (le_decode l) = l.
Proof.
  induction 1 as [|b l Hb Hl IH]; simpl; [done|]. unfold in_u in Hb. change (2 ^ 8) with 256 in *.
  rewrite (Z.mul_comm 256), Z_mod_plus_full, Z.mod_small by lia.
  rewrite Z.div_add, Z.div_small by lia. by rewrite Z.add_0_l, IH.
Qed.

(** ** Loads, stores, moves *)

Definition read (b : block) (off n : Z) : option (list Z) :=
  if (0 <=? off) && (0 <=? n) && (off + n <=? Z.of_nat (length b))
  then Some (take (Z.to_nat n) (drop (Z.to_nat off) b)) else None.

Definition write (b : block) (off : Z) (d : list Z) : option block :=
  if (0 <=? off) && (off + Z.of_nat (length d) <=? Z.of_nat (length b))
  then Some (take (Z.to_nat off) b ++ d ++ drop (Z.to_nat off + length d) b) else None.

(** [memmove(b + dst, b + src, n)]; [memcpy] when the ranges are disjoint. *)
Definition memmove (b : block) (dst src n : Z) : option block :=
  d ← read b src n; write b dst d.

(** [realloc(b, n)]: the bytes beyond the old size are indeterminate. *)
Definition realloc (junk : Z) (b : block) (n : Z) : block :=
  take (Z.to_nat n) b ++ replicate (Z.to_nat n - length b) junk.

Lemma read_app pre d post : read (pre ++ d ++ post) (Z.of_nat (length pre)) (Z.of_nat (length d)) = Some d.
Proof.
  unfold read. rewrite !length_app.
  rewrite (proj2 (Z.leb_le _ _)), (proj2 (Z.leb_le 0 (Z.of_nat (length d)))), (proj2 (Z.leb_le (_ + _) _)) by lia.
  simpl. by rewrite !Nat2Z.id, drop_app_length, take_app_length.
Qed.

Lemma write_app pre d d' post : length d = length d' ->
  write (pre ++ d ++ post) (Z.of_nat (length pre)) d' = Some (pre ++ d' ++ post).
Proof.
  intros Hl. unfold write. rewrite !length_app.
  rewrite (proj2 (Z.leb_le _ _)), (proj2 (Z.leb_le (_ + _) _)) by lia. simpl.
  rewrite Nat2Z.id, take_app_length, <- drop_drop, drop_app_length, <- Hl, drop_app_length. done.
Qed.

(** The same with the offset and size given by equations. *)
Lemma read_at b pre d post off n : b = pre ++ d ++ post -> off = Z.of_nat (length pre) ->
  n = Z.of_nat (length d) -> read b off n = Some d.
Proof. intros -> -> ->. apply read_app. Qed.

Lemma write_at b pre d d' post off : b = pre ++ d ++ post -> off = Z.of_nat (length pre) ->
  length d = length d' -> write b off d' = Some (pre ++ d' ++ post).
Proof. intros -> ->. apply write_app. Qed.

Lemma read_Some b off n d : read b off n = Some d ->
  0 <= off /\ 0 <= n /\ off + n <= Z.of_nat (length b) /\ Z.of_nat (length d) = n.
Proof.
  unfold read. case_bool; [|done]. bsimp. intros [= <-].
  rewrite length_take, length_drop. lia.
Qed.

Lemma write_length b off d b' : write b off d = Some b' -> length b' = length b.
Proof.
  unfold write. case_bool; [|done]. bsimp. intros [= <-].
  rewrite !length_app, length_take, length_drop. lia.
Qed.

Lemma memmove_length b dst src n b' : memmove b dst src n = Some b' -> length b' = length b.
Proof.
  unfold memmove. destruct (read b src n); [|done]. simpl. apply write_length.
Qed.

Lemma write_take_drop b off d : 0 <= off -> off + Z.of_nat (length d) <= Z.of_nat (length b) ->
  write b off d = Some (take (Z.to_nat off) b ++ d ++ drop (Z.to_nat off + length d) b).
Proof.
  intros. unfold write. by rewrite (proj2 (Z.leb_le 0 off)), (proj2 (Z.leb_le (_ + _) _)) by lia.
Qed.

(** Moving [d] up over the free bytes [pad], and down over [gap]. *)
Lemma memmove_up pre d pad post dst src n :
  dst = Z.of_nat (length pre + length pad) -> src = Z.of_nat (length pre) -> n = Z.of_nat (length d) ->
  memmove (pre ++ d ++ pad ++ post) dst src n = Some (pre ++ take (length pad) (d ++ pad) ++ d ++ post).
Proof.
  intros -> -> ->. unfold memmove. rewrite read_app. simpl.
  rewrite write_take_drop by (rewrite ?length_app; lia).
  rewrite Nat2Z.id. f_equal.
  rewrite take_app_add, <- !app_assoc. f_equal.
  rewrite <- Nat.add_assoc, drop_app_add.
  rewrite (app_assoc d pad post), take_app_le by (rewrite length_app; lia). f_equal. f_equal.
  replace (length pad + length d)%nat with (length (d ++ pad)) by (rewrite length_app; lia).
  by rewrite drop_app_length.
Qed.

Lemma memmove_down pre gap d post dst src n :
  dst = Z.of_nat (length pre) -> src = Z.of_nat (length pre + length gap) -> n = Z.of_nat (length d) ->
  memmove (pre ++ gap ++ d ++ post) dst src n = Some (pre ++ d ++ drop (length d) (gap ++ d) ++ post).
Proof.
  intros -> -> ->. unfold memmove.
  rewrite (read_at _ (pre ++ gap) d post) by (rewrite ?length_app, ?app_assoc; done). simpl.
  rewrite write_take_drop by (rewrite ?length_app; lia).
  rewrite Nat2Z.id, take_app_length. f_equal. f_equal. f_equal.
  rewrite drop_app_add, (app_assoc gap d post), drop_app_le by (rewrite length_app; lia). done.
Qed.

Lemma realloc_length junk b n : 0 <= n -> Z.of_nat (length (realloc junk b n)) = n.
Proof. intros. unfold realloc. rewrite length_app, length_take, length_replicate. lia. Qed.

Lemma realloc_grow junk b n : Z.of_nat (length b) <= n ->
  realloc junk b n = b ++ replicate (Z.to_nat n - length b) junk.
Proof. intros. unfold realloc. by rewrite take_ge by lia. Qed.

Lemma realloc_shrink junk b1 b2 n : n = Z.of_nat (length b1) -> realloc junk (b1 ++ b2) n = b1.
Proof.
  intros ->. unfold realloc. rewrite Nat2Z.id, take_app_length, length_app.
  replace (length b1 - (length b1 + length b2))%nat with O by lia. by rewrite app_nil_r.
Qed.

(** ** Bytes and comparison *)

Definition get (b : block) (i : Z) : option Z := if i <? 0 then None else b !! Z.to_nat i.

(** The sign of [memcmp]'s result. *)
Fixpoint memcmp (a b : list Z) : Z :=
  match a, b with
  | x :: a', y :: b' => if x =? y then memcmp a' b' else if x <? y then -1 else 1
  | _, _ => 0
  end.

Lemma get_app (l : list Z) c r i : i = Z.of_nat (length l) -> get (l ++ c :: r) i = Some c.
Proof.
  intros ->. unfold get. rewrite (proj2 (Z.ltb_ge _ _)) by lia. rewrite Nat2Z.id. by apply list_lookup_middle.
Qed.

Lemma memcmp_eq a : forall b, length a = length b -> memcmp a b = 0 <-> a = b.
Proof.
  induction a as [|x a IH]; intros [|y b] Hl; simpl in *; [done..|].
  destruct (Z.eqb_spec x y) as [->|Hne]; [rewrite IH by lia; split; [by intros ->|by intros [=]]|].
  destruct (x <? y); split; try done; by intros [=].
Qed.

Lemma read_prefix t n : 0 <= n <= Z.of_nat (length t) -> read t 0 n = Some (take (Z.to_nat n) t).
Proof.
  intros Hn. unfold read. rewrite (proj2 (Z.leb_le 0 n)), (proj2 (Z.leb_le (0 + n) _)) by lia. simpl. by rewrite drop_0.
Qed.

(** ** Lengths as integers *)

Definition zlen (l : list Z) : Z := Z.of_nat (length l).

Lemma zlen_app a b : zlen (a ++ b) = zlen a + zlen b.
Proof. unfold zlen. rewrite length_app. lia. Qed.

Lemma zlen_cons c l : zlen (c :: l) = 1 + zlen l.
Proof. unfold zlen. simpl length. lia. Qed.

Lemma zlen_nonneg a : 0 <= zlen a.
Proof. unfold zlen. lia. Qed.

Lemma get_zlen (pre : list Z) c post p : p = zlen pre -> get (pre ++ c :: post) p = Some c.
Proof. apply get_app. Qed.

Lemma cut (r : list Z) n m : zlen r = n + m -> 0 <= n -> 0 <= m -> exists a b, r = a ++ b /\ zlen a = n /\ zlen b = m.
Proof.
  intros Hr Hn Hm. exists (take (Z.to_nat n) r), (drop (Z.to_nat n) r). split; [by rewrite take_drop|].
  unfold zlen in *. rewrite length_take, length_drop. lia.
Qed.

Lemma write_zlen zm pre d d' post p : zm = pre ++ d ++ post -> p = zlen pre -> zlen d = zlen d' ->
  write zm p d' = Some (pre ++ d' ++ post).
Proof. intros -> -> Hd. apply (write_at _ pre d); [done|done|unfold zlen in Hd; lia]. Qed.

(** ** Arrays of words *)

(** The array of the words [vs], [w] bytes each. *)
Definition words (w : nat) (vs : list Z) : list Z := vs ≫= le_encode w.

Lemma words_app w vs vs' : words w (vs ++ vs') = words w vs ++ words w vs'.
Proof. apply bind_app. Qed.

Lemma words_cons w v vs : words w (v :: vs) = le_encode w v ++ words w vs.
Proof. done. Qed.

Lemma words_length w vs : length (words w vs) = (length vs * w)%nat.
Proof. induction vs as [|v vs IH]; simpl; [done|]. by rewrite length_app, le_encode_length, IH. Qed.

Lemma words_split w vs i v : vs !! i = Some v ->
  words w vs = words w (take i vs) ++ le_encode w v ++ words w (drop (S i) vs).
Proof. intros Hi. rewrite <- (take_drop_middle _ _ _ Hi) at 1. by rewrite words_app. Qed.

Lemma read_words w vs i v post : vs !! i = Some v ->
  read (words w vs ++ post) (Z.of_nat i * Z.of_nat w) (Z.of_nat w) = Some (le_encode w v).
Proof.
  intros Hi. pose proof (lookup_lt_Some _ _ _ Hi).
  eapply (read_at _ (words w (take i vs)) _ (words w (drop (S i) vs) ++ post)).
  - by rewrite (words_split w vs i v Hi), <- !app_assoc.
  - rewrite words_length, length_take. nia.
  - by rewrite le_encode_length.
Qed.

Lemma write_words w vs i v v' post : vs !! i = Some v ->
  write (words w vs ++ post) (Z.of_nat i * Z.of_nat w) (le_encode w v')
    = Some (words w (<[i := v']> vs) ++ post).
Proof.
  intros Hi. pose proof (lookup_lt_Some _ _ _ Hi).
  rewrite (write_at _ (words w (take i vs)) (le_encode w v) _ (words w (drop (S i) vs) ++ post)).
  - rewrite insert_take_drop by lia. by rewrite words_app, words_cons, <- !app_assoc.
  - by rewrite (words_split w vs i v Hi), <- !app_assoc.
  - rewrite words_length, length_take. nia.
  - by rewrite !le_encode_length.
Qed.

End Bytes.
