(* ===== verification/ChainAuth.v ===== *)
(** * Chain: authenticators

    The authenticators that a request of Chain carries along the replicas:
    [C_Node::gen_auth], [verify_auth_from_client] and [verify_auth]
    ([src/protocols/chain/C_Node.cc]), [C_Request::finalize], [authenticate] and
    [verify] ([C_Request.cc]) and [C_Reply::verify] ([C_Reply.cc]).

    Nonces and UMACs have eight bytes ([C_Cryptography.h]) and every length and
    offset is a multiple of them, so the buffer that follows the command is a
    list of eight-byte words, from the start of the authenticator to the end of
    the allocated block; an access outside it is [None].  [UMAC] is a
    parameter: the word for a source, a destination, the authenticated bytes
    and a nonce. *)

From S2P Require Import Prelude Bytes Reply.
Local Open Scope Z_scope.

(** The message of a client, [C_Request_rep] and what follows it; [c_auth] is
    the buffer after the command. *)
Record C_Request := mk_creq {
  cq_extra : Z; cq_size : Z; cq_listnum : Z; cq_od : Z; cq_seqno : Z; cq_cid : Z; cq_rid : Z;
  cq_command : list Z; cq_auth : list Z
}.

(** [C_Reply_rep], and the reply bytes; [cr_seq] is the member [seq_num]. *)
Record C_Reply := mk_crep {
  cr_size : Z; cr_v : Z; cr_rid : Z; cr_rh_digest : Z; cr_digest : Z; cr_replica : Z; cr_reply_size : Z;
  cr_cid : Z; cr_should_switch : bool; cr_instance_id : protocols_e; cr_body : list Z; cr_seq : Z
}.

(** The bytes a MAC covers: the header of a request or of a reply. *)
Inductive mac_data :=
| Request_hdr (extra size listnum od seqno command_size cid rid : Z)
| Reply_hdr (size v rid rh_digest digest replica reply_size cid : Z) (should_switch : bool) (instance_id : protocols_e).

Definition request_hdr (r : C_Request) : mac_data :=
  Request_hdr (cq_extra r) (cq_size r) (cq_listnum r) (cq_od r) (cq_seqno r) (Z.of_nat (length (cq_command r))) (cq_cid r) (cq_rid r).

Definition reply_hdr (r : C_Reply) : mac_data :=
  Reply_hdr (cr_size r) (cr_v r) (cr_rid r) (cr_rh_digest r) (cr_digest r) (cr_replica r) (cr_reply_size r) (cr_cid r)
    (cr_should_switch r) (cr_instance_id r).

Definition with_seqno (q : Z) (r : C_Request) : C_Request :=
  mk_creq (cq_extra r) (cq_size r) (cq_listnum r) (cq_od r) q (cq_cid r) (cq_rid r) (cq_command r) (cq_auth r).
Definition with_listnum (l : Z) (r : C_Request) : C_Request :=
  mk_creq (cq_extra r) (cq_size r) l (cq_od r) (cq_seqno r) (cq_cid r) (cq_rid r) (cq_command r) (cq_auth r).
Definition with_auth (a : list Z) (r : C_Request) : C_Request :=
  mk_creq (cq_extra r) (cq_size r) (cq_listnum r) (cq_od r) (cq_seqno r) (cq_cid r) (cq_rid r) (cq_command r) a.

Module ChainAuth.
Import Bytes.

Section auth.
Context (UMAC : Z -> Z -> mac_data -> Z -> Z).
(** [f()], [n()] and the number of principals. *)
Context (f n num_principals : Z).

(** Lengths, in words. *)
Definition UMAC_size : Z := 1.
Definition UNonce_size : Z := 1.
Definition auth_size : Z := UMAC_size * ((f + 1) * (f + 2)) / 2 + UNonce_size * (f + 1).

(** [C_my_principal->gen_mac] on node [me], and [principals[p]->verify_mac];
    the keys of the pair are those of the constructor of [C_Principal]. *)
Definition gen_mac (me dest_pid : Z) (s : mac_data) (unonce : Z) : Z := UMAC me dest_pid s unonce.
Definition verify_mac (me p : Z) (s : mac_data) (mac unonce : Z) : option bool :=
  if (0 <=? p) && (p <? num_principals) then Some (UMAC p me s unonce =? mac) else None.

(** The MACs for the next replicas, from [dest] on. *)
Fixpoint put_macs (k : nat) (me pid j : Z) (s : mac_data) (unonce : Z) (b : block) (dest : Z) : option (block * Z) :=
  match k with
  | O => Some (b, dest)
  | S k' =>
    b ← write b dest [gen_mac me (pid + j + 1) s unonce];
    put_macs k' me pid (j + 1) s unonce b (dest + UMAC_size)
  end.

Definition gen_auth (me : Z) (s : mac_data) (b : block) (dest : Z) (rr : option mac_data) (principal_id cid unonce : Z) : option block :=
  b ← write b dest [unonce];
  let nb_MACs_for_replicas := Z.min (f + 1) (n - (principal_id + 1)) in
  '(b, dest) ← put_macs (Z.to_nat nb_MACs_for_replicas) me principal_id 0 s unonce b (dest + UNonce_size);
  if nb_MACs_for_replicas <? f + 1 then
    rr ← rr; write b dest [gen_mac me cid rr unonce]
  else Some b.

(** The result, the buffer and [*authentication_offset]. *)
Definition verify_auth_from_client (me cid : Z) (s : mac_data) (b : block) (offset : Z) : option (bool * block * Z) :=
  if n <? me then Some (true, b, offset)
  else if f <? me then Some (true, b, offset)
  else
    let i := me + 1 in
    unonce ← get b 0; mac ← get b UNonce_size;
    ok ← verify_mac me cid s mac unonce;
    if negb ok then Some (false, b, offset)
    else
      let nb := Z.min (f + 2 - i) (n - me + 1) in
      if nb =? 1 then
        b ← memmove b 0 (UNonce_size + UMAC_size) (auth_size - (UNonce_size + UMAC_size));
        Some (true, b, 0)
      else
        b ← memmove b UNonce_size (UNonce_size + UMAC_size) (auth_size - (UNonce_size + UMAC_size));
        Some (true, b, UNonce_size + (nb - 1) * UMAC_size).

(** [while (i > 0)]. *)
Fixpoint verify_loop (i : nat) (me n_id cid : Z) (s : mac_data) (b : block) (dest remaining_size : Z) : option (bool * block * Z) :=
  match i with
  | O => Some (true, b, dest)
  | S i' =>
    let p_id := if n_id - Z.of_nat i <? 0 then cid else n_id - Z.of_nat i in
    ok ← (if p_id =? cid then Some true
          else unonce ← get b dest; mac ← get b (dest + UNonce_size); verify_mac me p_id s mac unonce);
    if negb ok then Some (false, b, dest)
    else
      let nb := Z.min (f + 2 - Z.of_nat i) (n - n_id + 1) in
      if nb =? 1 then
        let remaining_size := remaining_size - (UNonce_size + UMAC_size) in
        b ← (if p_id =? cid then Some b else memmove b dest (dest + UNonce_size + UMAC_size) remaining_size);
        verify_loop i' me n_id cid s b dest remaining_size
      else
        b ← memmove b (dest + UNonce_size) (dest + UNonce_size + UMAC_size) (remaining_size - (UNonce_size + UMAC_size));
        let w := if p_id =? cid then 0 else UNonce_size + (nb - 1) * UMAC_size in
        verify_loop i' me n_id cid s b (dest + w) (remaining_size - w)
  end.

Definition verify_auth (me n_id cid : Z) (s : mac_data) (b : block) (offset : Z) : option (bool * block * Z) :=
  let remaining_size := if n_id <? n then auth_size else (f + 1) * (UNonce_size + UMAC_size) in
  verify_loop (Z.to_nat (Z.min (f + 1) (n_id + 1))) me n_id cid s b offset remaining_size.

(** ** Requests *)

(** MD5 of the client, the identifier and the command. *)
Context (MD5_request : Z -> Z -> list Z -> Z).

Definition comp_digest (r : C_Request) : Z := MD5_request (cq_cid r) (cq_rid r) (cq_command r).

(** [authenticate(id, offset, rr)] on node [me]. *)
Definition authenticate (me id offset unonce : Z) (rr : option mac_data) (r : C_Request) : option C_Request :=
  a ← gen_auth me (request_hdr (with_listnum 0 r)) (cq_auth r) offset rr id (cq_cid r) unonce;
  Some (with_auth a r).

(** [verify(&offset)] on node [me]; the offset starts at 0. *)
Definition verify (me : Z) (r : C_Request) : option (bool * C_Request * Z) :=
  let r0 := with_listnum 0 r in
  if negb (comp_digest r =? cq_od r) then Some (false, r0, 0)
  else
    '(ok, a, offset) ← verify_auth_from_client me (cq_cid r) (request_hdr (with_seqno 0 r0)) (cq_auth r) 0;
    if negb ok then Some (false, with_auth a (with_seqno 0 r0), offset)
    else
      '(ok, a, offset) ← verify_auth me me (cq_cid r) (request_hdr r0) a offset;
      if negb ok then Some (false, with_auth a r0, offset)
      else Some (true, with_auth a r, offset).

(** ** Replies *)

Context (MD5 : list Z -> Z).

Definition sizeof_Reply_rep : Z := 88.

(** [C_Reply::verify] on client [me]: the MACs [macs] are checked, and the
    result of the check is not used.  The digest reads [reply_size] bytes of
    what follows the header. *)
Definition reply_verify (me : Z) (r : C_Reply) (macs : block) : option bool :=
  if negb ((0 <=? cr_replica r) && (cr_replica r <? n)) then Some false
  else if cr_size r - sizeof_Reply_rep - cr_reply_size r <? (f + 1) * 16 then Some false
  else
    bytes ← read (cr_body r) 0 (cr_reply_size r);
    if negb (MD5 bytes =? cr_digest r) then Some false else
    '(ret, _, _) ← verify_auth me n (cr_replica r) (reply_hdr r) macs 0;
    if negb (cr_cid r =? -1) then Some true else Some true.

(** What a replica of the chain does to a request: [verify], then [set_seqno]
    and [authenticate] in [C_Replica::handle]. *)
Definition relay (me unonce seqno : Z) (rr : mac_data) (r : C_Request) : option C_Request :=
  '(ok, r, offset) ← verify me r;
  if ok : bool then authenticate me me offset unonce (Some rr) (with_seqno seqno r) else None.

(** ** A longer block *)

Lemma get_frame b rest i w : get b i = Some w -> get (b ++ rest) i = Some w.
Proof. unfold get. case_bool; [done|]. intros. by apply lookup_app_l_Some. Qed.

Lemma read_frame b rest o k d : read b o k = Some d -> read (b ++ rest) o k = Some d.
Proof.
  unfold read. destruct (_ && _) eqn:E; [|done]. intros [= <-]. rewrite !andb_true_iff, !Z.leb_le in E. destruct E as [[Ho Hk] Hl].
  rewrite length_app, !(proj2 (Z.leb_le _ _)) by lia. cbn [andb]. rewrite drop_app_le, take_app_le by (rewrite ?length_drop; lia). done.
Qed.

Lemma write_frame b rest o d b' : write b o d = Some b' -> write (b ++ rest) o d = Some (b' ++ rest).
Proof.
  unfold write. destruct (_ && _) eqn:E; [|done]. intros [= <-]. rewrite andb_true_iff, !Z.leb_le in E. destruct E as [Ho Hl].
  rewrite length_app, !(proj2 (Z.leb_le _ _)) by lia. cbn [andb]. rewrite take_app_le, drop_app_le by lia. by rewrite <- !app_assoc.
Qed.

Lemma memmove_frame b rest dst src k b' : memmove b dst src k = Some b' -> memmove (b ++ rest) dst src k = Some (b' ++ rest).
Proof. unfold memmove. intros (d & Hr & Hw)%bind_Some. rewrite (read_frame _ _ _ _ _ Hr). by apply write_frame. Qed.

Lemma put_macs_frame rest k : forall me pid j s u b dest b' dest', put_macs k me pid j s u b dest = Some (b', dest') ->
  put_macs k me pid j s u (b ++ rest) dest = Some (b' ++ rest, dest').
Proof.
  induction k as [|k IH]; intros me pid j s u b dest b' dest' H; cbn [put_macs] in *; [by simplify_eq|].
  apply bind_Some in H as (b1 & Hw & H). rewrite (write_frame _ _ _ _ _ Hw). by apply IH.
Qed.

Lemma gen_auth_frame rest me s b dest rr pid cid u b' : gen_auth me s b dest rr pid cid u = Some b' ->
  gen_auth me s (b ++ rest) dest rr pid cid u = Some (b' ++ rest).
Proof.
  unfold gen_auth. intros (b1 & Hw & ([b2 d2] & Hp & H)%bind_Some)%bind_Some. rewrite (write_frame _ _ _ _ _ Hw). cbn [mbind option_bind].
  rewrite (put_macs_frame _ _ _ _ _ _ _ _ _ _ _ Hp). cbn [mbind option_bind]. case_bool; [|by simplify_eq].
  apply bind_Some in H as (r & -> & H). by apply write_frame.
Qed.

Lemma from_client_frame rest me cid s b o ok b' o' : verify_auth_from_client me cid s b o = Some (ok, b', o') ->
  verify_auth_from_client me cid s (b ++ rest) o = Some (ok, b' ++ rest, o').
Proof.
  unfold verify_auth_from_client. do 2 (case_bool; [by intros [= <- <- <-]|]).
  intros (u & Hu & (mac & Hm & (k & Hk & H)%bind_Some)%bind_Some)%bind_Some.
  rewrite (get_frame _ _ _ _ Hu). cbn [mbind option_bind]. rewrite (get_frame _ _ _ _ Hm). cbn [mbind option_bind]. rewrite Hk. cbn [mbind option_bind].
  destruct k; cbn [negb] in *; [|by simplify_eq].
  case_bool; apply bind_Some in H as (b1 & Hb & H); rewrite (memmove_frame _ _ _ _ _ _ Hb); cbn [mbind option_bind]; by simplify_eq.
Qed.

Lemma verify_loop_frame rest i : forall me n_id cid s b dest rem ok b' o', verify_loop i me n_id cid s b dest rem = Some (ok, b', o') ->
  verify_loop i me n_id cid s (b ++ rest) dest rem = Some (ok, b' ++ rest, o').
Proof.
  induction i as [|i IH]; intros me n_id cid s b dest rem ok b' o' H; [cbn in *; by simplify_eq|]. cbn [verify_loop] in *.
  set (p := if _ <? 0 then cid else _) in *. apply bind_Some in H as (k & Hk & H).
  assert (Hk' : (if p =? cid then Some true else unonce ← get (b ++ rest) dest; mac ← get (b ++ rest) (dest + UNonce_size); verify_mac me p s mac unonce) = Some k).
  { destruct (p =? cid); [done|]. apply bind_Some in Hk as (u & Hu & (mac & Hm & Hv)%bind_Some).
    rewrite (get_frame _ _ _ _ Hu). cbn [mbind option_bind]. rewrite (get_frame _ _ _ _ Hm). done. }
  rewrite Hk'. cbn [mbind option_bind]. destruct k; cbn [negb] in *; [|by simplify_eq].
  case_bool; apply bind_Some in H as (b1 & Hb & H).
  - destruct (p =? cid); [injection Hb as <-|rewrite (memmove_frame _ _ _ _ _ _ Hb)]; cbn [mbind option_bind]; by apply IH.
  - rewrite (memmove_frame _ _ _ _ _ _ Hb). cbn [mbind option_bind]. by apply IH.
Qed.

Definition extend (rest : list Z) (r : C_Request) : C_Request := with_auth (cq_auth r ++ rest) r.

Lemma authenticate_frame rest me id o u rr r r' : authenticate me id o u rr r = Some r' ->
  authenticate me id o u rr (extend rest r) = Some (extend rest r').
Proof.
  unfold authenticate. intros (a & Ha & [= <-])%bind_Some. cbn [extend with_auth cq_auth with_listnum request_hdr cq_extra cq_size cq_listnum cq_od cq_seqno cq_cid cq_rid cq_command].
  apply (gen_auth_frame rest) in Ha. unfold request_hdr in *. cbn in *. rewrite Ha. done.
Qed.

Lemma verify_frame rest me r ok r' o : verify me r = Some (ok, r', o) -> verify me (extend rest r) = Some (ok, extend rest r', o).
Proof.
  unfold verify, comp_digest, request_hdr. cbn. destruct (negb _); [by intros [= <- <- <-]|].
  intros ([[k a] o1] & Hc & H)%bind_Some. rewrite (from_client_frame _ _ _ _ _ _ _ _ _ Hc). cbn [mbind option_bind].
  destruct k; cbn [negb] in *; [|by simplify_eq]. apply bind_Some in H as ([[k2 a2] o2] & Hv & H). unfold verify_auth in *.
  rewrite (verify_loop_frame _ _ _ _ _ _ _ _ _ _ _ _ Hv). cbn [mbind option_bind]. destruct k2; cbn [negb] in *; by simplify_eq.
Qed.

Lemma relay_frame rest me u k rr r r' : relay me u k rr r = Some r' -> relay me u k rr (extend rest r) = Some (extend rest r').
Proof.
  unfold relay. intros ([[ok r1] o] & Hv & H)%bind_Some. rewrite (verify_frame _ _ _ _ _ _ Hv). cbn [mbind option_bind]. destruct ok; [|done].
  apply (authenticate_frame rest) in H. done.
Qed.

End auth.

(** Evaluating the reads and moves of a concrete buffer. *)
Ltac run_words := repeat (match goal with
  | |- context [?l !! Z.to_nat ?k] => let r := eval vm_compute in (l !! Z.to_nat k) in change (l !! Z.to_nat k) with r
  | |- context [memmove ?l ?i ?j ?k] => let r := eval vm_compute in (memmove l i j k) in change (memmove l i j k) with r
  | |- context [verify_loop ?u ?f ?n ?np (Z.to_nat ?k)] =>
    let r := eval vm_compute in (Z.to_nat k) in change (Z.to_nat k) with r; cbn [verify_loop]
  | |- context [?a - Z.of_nat ?i] => let r := eval vm_compute in (a - Z.of_nat i) in change (a - Z.of_nat i) with r
  | |- context [?a <? 0] => let r := eval vm_compute in (a <? 0) in change (a <? 0) with r
  | |- context [Z.min ?a ?b =? ?c] => let r := eval vm_compute in (Z.min a b =? c) in change (Z.min a b =? c) with r
  end; cbn [mbind option_bind negb]; cbv iota beta).

(** ** The group of four *)

Section four.
Context (UMAC : Z -> Z -> mac_data -> Z -> Z) (MD5_request : Z -> Z -> list Z -> Z) (num_principals : Z).
Hypothesis principals_ok : 4 <= num_principals.

Abbreviation authenticate4 := (authenticate UMAC 1 4).
Abbreviation relay4 := (relay UMAC 1 4 num_principals MD5_request).
Abbreviation verify4 := (verify UMAC 1 4 num_principals MD5_request).

Lemma replica_principal p : 0 <= p < 4 -> (0 <=? p) && (p <? num_principals) = true.
Proof. intros. rewrite (proj2 (Z.leb_le _ _)), (proj2 (Z.ltb_lt _ _)) by lia. done. Qed.

Context (cid : Z) (cid_ok : 4 <= cid < num_principals).

Lemma client_principal : (0 <=? cid) && (cid <? num_principals) = true.
Proof. rewrite (proj2 (Z.leb_le _ _)), (proj2 (Z.ltb_lt _ _)) by lia. done. Qed.

Lemma client_not p : p < 4 -> (p =? cid) = false.
Proof. intros. apply Z.eqb_neq. lia. Qed.

Abbreviation from_client4 := (verify_auth_from_client UMAC 1 4 num_principals).
Abbreviation verify_auth4 := (verify_auth UMAC 1 4 num_principals).

(** The steps on the five words of the authenticator and two more. *)

Lemma gen_client s nc a b c d e x y : gen_auth UMAC 1 4 cid s [a; b; c; d; e; x; y] 0 None (-1) cid nc =
  Some [nc; UMAC cid 0 s nc; UMAC cid 1 s nc; d; e; x; y].
Proof. reflexivity. Qed.

Lemma gen_replica me s u a b c d e x y rr : 0 <= me <= 1 ->
  gen_auth UMAC 1 4 me s [a; b; c; d; e; x; y] 2 rr me cid u = Some [a; b; u; UMAC me (me + 1) s u; UMAC me (me + 2) s u; x; y].
Proof. intros. assert (me = 0 \/ me = 1) as [-> | ->] by lia; reflexivity. Qed.

Lemma gen_replica2 s u a b c d e x y rr :
  gen_auth UMAC 1 4 2 s [a; b; c; d; e; x; y] 2 (Some rr) 2 cid u = Some [a; b; u; UMAC 2 3 s u; UMAC 2 cid rr u; x; y].
Proof. reflexivity. Qed.

Lemma gen_replica3 s u a b c d e x y rr :
  gen_auth UMAC 1 4 3 s [a; b; c; d; e; x; y] 2 (Some rr) 3 cid u = Some [a; b; u; UMAC 3 cid rr u; e; x; y].
Proof. reflexivity. Qed.

Lemma from_client0 s a b c d e x y : from_client4 0 cid s [a; b; c; d; e; x; y] 0 =
  Some (if UMAC cid 0 s a =? b then (true, [a; c; d; e; e; x; y], 2) else (false, [a; b; c; d; e; x; y], 0)).
Proof. unfold verify_auth_from_client, verify_mac. cbn. rewrite client_principal. run_words. destruct (_ =? _); [|done]. run_words. done. Qed.

Lemma verify_auth0 s a b c d e x y : verify_auth4 0 0 cid s [a; b; c; d; e; x; y] 2 = Some (true, [a; b; c; e; x; y; y], 2).
Proof. unfold verify_auth. run_words. rewrite Z.eqb_refl. run_words. done. Qed.

(** The others stay within the five words. *)

Lemma gen_five me s u a b c d e rr : 0 <= me <= 3 ->
  exists w z, gen_auth UMAC 1 4 me s [a; b; c; d; e] 2 (Some rr) me cid u = Some [a; b; u; w; z].
Proof. intros. assert (me = 0 \/ me = 1 \/ me = 2 \/ me = 3) as [-> | [-> | [-> | ->]]] by lia; by eexists _, _. Qed.

Lemma from_client1 s a b c d e : from_client4 1 cid s [a; b; c; d; e] 0 =
  Some (if UMAC cid 1 s a =? b then (true, [c; d; e; d; e], 0) else (false, [a; b; c; d; e], 0)).
Proof. unfold verify_auth_from_client, verify_mac. cbn. rewrite client_principal. run_words. destruct (_ =? _); [|done]. run_words. done. Qed.

Lemma verify_auth1 s a b c d e : verify_auth4 1 1 cid s [a; b; c; d; e] 0 =
  Some (if UMAC 0 1 s a =? b then (true, [a; c; c; d; e], 2) else (false, [a; b; c; d; e], 0)).
Proof.
  unfold verify_auth. run_words. rewrite Z.eqb_refl, client_not by lia. unfold verify_mac. rewrite replica_principal by lia. run_words.
  unfold get. cbn [Z.ltb Z.compare]. run_words. destruct (_ =? _); [|done]. run_words. done.
Qed.

(** At the last two replicas. *)
Lemma verify_auth23 me s a b c d e : 2 <= me <= 3 -> verify_auth4 me me cid s [a; b; c; d; e] 0 =
  Some (if UMAC (me - 2) me s a =? b then
          if UMAC (me - 1) me s c =? d then (true, [c; e; e; d; e], 2) else (false, [c; d; e; d; e], 0)
        else (false, [a; b; c; d; e], 0)).
Proof.
  intros. unfold verify_auth. assert (me = 2 \/ me = 3) as [-> | ->] by lia; run_words; rewrite !client_not by lia; unfold verify_mac;
    rewrite !replica_principal by lia; run_words; unfold get; cbn [Z.ltb Z.compare]; run_words;
    cbn [Z.sub Z.add Z.opp Z.pos_sub Pos.pred_double]; (destruct (_ =? b); cbn [negb]; [|done]); by destruct (_ =? d).
Qed.

(** The header that the client and the replicas authenticate. *)
Definition hdr (r : C_Request) (q : Z) : mac_data := request_hdr (with_seqno q (with_listnum 0 r)).

(** What a replica of a group of four checks of the words [a b c d]: the MAC of
    the client at the first two replicas, those of its predecessors. *)
Definition authentic (me : Z) (r : C_Request) (a b c d : Z) : Prop :=
  comp_digest MD5_request r = cq_od r /\
  (me <= 1 -> b = UMAC cid me (hdr r 0) a) /\
  (me = 1 -> d = UMAC 0 1 (hdr r (cq_seqno r)) c) /\
  (2 <= me -> b = UMAC (me - 2) me (hdr r (cq_seqno r)) a /\ d = UMAC (me - 1) me (hdr r (cq_seqno r)) c).

Lemma hdr_own r : hdr r (cq_seqno r) = request_hdr (with_listnum 0 r).
Proof. by destruct r. Qed.

(** The words after the check, at offset 2. *)
Lemma verify_head r a b c d e x y : cq_cid r = cid -> cq_auth r = [a; b; c; d; e; x; y] ->
  exists ok r' o, verify4 0 r = Some (ok, r', o) /\ (ok = true <-> authentic 0 r a b c d) /\
    (ok = true -> o = 2 /\ exists l, length l = 5%nat /\ r' = with_auth (a :: c :: l) r).
Proof.
  intros Hc Ha. unfold verify, authentic, hdr. rewrite Hc, Ha. destruct (Z.eqb_spec (comp_digest MD5_request r) (cq_od r)) as [E|E]; cbn [negb].
  2:{ eexists _, _, _. split; [done|]. split; [|done]. split; [done|]. by intros [? _]. }
  rewrite from_client0. set (h := request_hdr (with_seqno 0 _)). destruct (Z.eqb_spec (UMAC cid 0 h a) b) as [Eb|Eb]; cbn [mbind option_bind negb].
  2:{ eexists _, _, _. split; [done|]. split; [|done]. split; [done|]. intros (_ & Hb & _). by destruct Eb; rewrite Hb. }
  rewrite verify_auth0. cbn [mbind option_bind negb]. eexists _, _, _. split; [done|]. split; [|intros _; split; [done|by eexists [_; _; _; _; _]]].
  split; [|done]. intros _. split; [done|]. split; [by intros|]. split; lia.
Qed.

Lemma verify_five me r a b c d e : 1 <= me <= 3 -> cq_cid r = cid -> cq_auth r = [a; b; c; d; e] ->
  exists ok r' o, verify4 me r = Some (ok, r', o) /\ (ok = true <-> authentic me r a b c d) /\
    (ok = true -> o = 2 /\ exists l, length l = 3%nat /\ r' = with_auth (c :: e :: l) r).
Proof.
  intros Hme Hc Ha. unfold verify, authentic, hdr. rewrite Hc, Ha. destruct (Z.eqb_spec (comp_digest MD5_request r) (cq_od r)) as [E|E]; cbn [negb].
  2:{ eexists _, _, _. split; [done|]. split; [|done]. split; [done|]. by intros [? _]. }
  change (with_seqno (cq_seqno r) (with_listnum 0 r)) with (with_listnum 0 r).
  assert (me = 1 \/ 2 <= me <= 3) as [-> | H23] by lia.
  - rewrite from_client1. set (h := request_hdr (with_seqno 0 _)). destruct (Z.eqb_spec (UMAC cid 1 h a) b) as [Eb|Eb]; cbn [mbind option_bind negb].
    2:{ eexists _, _, _. split; [done|]. split; [|done]. split; [done|]. intros (_ & Hb & _). by destruct Eb; rewrite Hb. }
    rewrite verify_auth1. set (h' := request_hdr _). destruct (Z.eqb_spec (UMAC 0 1 h' c) d) as [Ed|Ed]; cbn [mbind option_bind negb].
    2:{ eexists _, _, _. split; [done|]. split; [|done]. split; [done|]. intros (_ & _ & Hd & _). by destruct Ed; rewrite Hd. }
    eexists _, _, _. split; [done|]. split; [|intros _; split; [done|by eexists [_; _; _]]].
    split; [|done]. intros _. split; [done|]. split; [by intros|]. split; [by intros|lia].
  - assert (Hfc : forall h, from_client4 me cid h [a; b; c; d; e] 0 = Some (true, [a; b; c; d; e], 0)).
    { intros h. assert (me = 2 \/ me = 3) as [-> | ->] by lia; done. }
    rewrite Hfc. cbn [mbind option_bind negb]. rewrite verify_auth23 by done. set (h' := request_hdr _).
    destruct (Z.eqb_spec (UMAC (me - 2) me h' a) b) as [Eb|Eb]; cbn [mbind option_bind negb].
    2:{ eexists _, _, _. split; [done|]. split; [|done]. split; [done|]. intros (_ & _ & _ & Hb). destruct Eb. by rewrite (proj1 (Hb ltac:(lia))). }
    destruct (Z.eqb_spec (UMAC (me - 1) me h' c) d) as [Ed|Ed]; cbn [mbind option_bind negb].
    2:{ eexists _, _, _. split; [done|]. split; [|done]. split; [done|]. intros (_ & _ & _ & Hb). destruct Ed. by rewrite (proj2 (Hb ltac:(lia))). }
    eexists _, _, _. split; [done|]. split; [|intros _; split; [done|by eexists [_; _; _]]].
    split; [|done]. intros _. split; [done|]. split; [lia|]. split; [lia|by intros].
Qed.

Lemma extend_nil r a rest : cq_auth r = a ++ rest -> r = extend rest (with_auth a r).
Proof. intros E. destruct r. cbn in *. by subst. Qed.

(** With the five words of the authenticator, and two more for the head. *)
Lemma verify_words me r a b c d e rest : 0 <= me <= 3 -> cq_cid r = cid -> cq_auth r = [a; b; c; d; e] ++ rest ->
  (me = 0 -> (2 <= length rest)%nat) ->
  exists ok r' o, verify4 me r = Some (ok, r', o) /\ (ok = true <-> authentic me r a b c d) /\
    (ok = true -> o = 2 /\ exists l, length l = (3 + length rest)%nat /\
      r' = with_auth ((if me =? 0 then [a; c] else [c; e]) ++ l) r).
Proof.
  intros Hme Hc Ha Hrest. assert (Hau : forall l, authentic me (with_auth l r) a b c d <-> authentic me r a b c d) by (by destruct r).
  destruct (Z.eq_dec me 0) as [->|Hne].
  - destruct rest as [|x [|y rest]]; try (specialize (Hrest eq_refl); cbn in Hrest; lia).
    destruct (verify_head (with_auth [a; b; c; d; e; x; y] r) a b c d e x y) as (ok & r' & o & Hv & Hok & Hr); [done|done|].
    exists ok, (extend rest r'), o. rewrite (extend_nil r [a; b; c; d; e; x; y] rest Ha) at 1. split; [by apply verify_frame|].
    rewrite Hok. split; [apply Hau|]. intros E. destruct (Hr (proj2 Hok E)) as (-> & l & Hl & ->). split; [done|].
    exists (l ++ rest). rewrite length_app, Hl. by destruct r.
  - destruct (verify_five me (with_auth [a; b; c; d; e] r) a b c d e) as (ok & r' & o & Hv & Hok & Hr); [lia|done|done|].
    exists ok, (extend rest r'), o. rewrite (extend_nil r [a; b; c; d; e] rest Ha) at 1. split; [by apply verify_frame|].
    rewrite Hok. split; [apply Hau|]. intros E. destruct (Hr (proj2 Hok E)) as (-> & l & Hl & ->). split; [done|].
    exists (l ++ rest). rewrite length_app, Hl, (proj2 (Z.eqb_neq _ _)) by done. by destruct r.
Qed.

(** C30. In a group of four, a replica accepts a request exactly when its digest
    is that of its client, identifier and command, the MAC of the client is
    right (at the first two replicas, for the request without its sequence
    number) and so are those of its two predecessors, for the request with the
    number assigned by the head.  The request has the five words of its
    authenticator, the check reads nothing else of it at the replicas 1 to 3, and at the head
    the two words that must follow. *)
Theorem verify_authentic me r a b c d e rest : 0 <= me <= 3 -> cq_cid r = cid ->
  cq_auth r = [a; b; c; d; e] ++ rest -> (me = 0 -> (2 <= length rest)%nat) ->
  exists ok r' o, verify4 me r = Some (ok, r', o) /\ (ok = true <-> authentic me r a b c d).
Proof. intros Hme Hc Ha Hrest. destruct (verify_words me r a b c d e rest) as (ok & r' & o & Hv & Hok & _); try done. by exists ok, r', o. Qed.

(** What a replica makes of the words it leaves. *)
Lemma authenticate_words me q u rr r p1 p2 l : 0 <= me <= 3 -> cq_cid r = cid -> (3 <= length l)%nat ->
  exists r', authenticate UMAC 1 4 me me 2 u (Some rr) (with_seqno q (with_auth ([p1; p2] ++ l) r)) = Some r' /\ (5 <= length (cq_auth r'))%nat.
Proof.
  intros Hme Hc Hl. destruct l as [|x [|y [|z rest]]]; try (cbn in Hl; lia).
  assert (Hx : with_seqno q (with_auth ([p1; p2] ++ x :: y :: z :: rest) r) = extend rest (with_seqno q (with_auth [p1; p2; x; y; z] r))) by done.
  destruct (gen_five me (request_hdr (with_listnum 0 (with_seqno q (with_auth [p1; p2; x; y; z] r)))) u p1 p2 x y z rr Hme) as (w & v & Hg).
  assert (Hau : authenticate UMAC 1 4 me me 2 u (Some rr) (with_seqno q (with_auth [p1; p2; x; y; z] r)) =
    Some (with_auth [p1; p2; u; w; v] (with_seqno q (with_auth [p1; p2; x; y; z] r)))).
  { unfold authenticate. change (cq_cid (with_seqno q _)) with (cq_cid r). cbn [cq_auth with_seqno with_auth]. by rewrite Hc, Hg. }
  rewrite Hx. eexists. split; [by apply authenticate_frame|]. cbn. lia.
Qed.

(** A replica that accepts: the words it leaves for the next one. *)
Lemma relay_seven me u k rr r a b c d e x y : 0 <= me <= 3 -> cq_cid r = cid -> cq_auth r = [a; b; c; d; e; x; y] -> authentic me r a b c d ->
  exists z x' y', relay4 me u k rr r = Some (with_auth
    [if me =? 0 then a else c; if me =? 0 then c else e; u;
     if me =? 3 then UMAC 3 cid rr u else UMAC me (me + 1) (hdr r k) u; z; x'; y'] (with_seqno k r)) /\
    (me <= 1 -> z = UMAC me (me + 2) (hdr r k) u) /\ (me = 2 -> z = UMAC 2 cid rr u).
Proof.
  intros Hme Hc Ha Hau. destruct (verify_words me r a b c d e [x; y] Hme Hc Ha ltac:(cbn; lia)) as (ok & r' & o & Hv & Hok & Hr). apply Hok in Hau as ->.
  destruct (Hr eq_refl) as (-> & l & Hl & ->). destruct l as [|w [|x' [|y' [|z' [|w' [|? ?]]]]]]; try done. unfold relay. rewrite Hv. cbn [mbind option_bind]. unfold authenticate.
  assert (Hh : forall l, request_hdr (with_listnum 0 (with_seqno k (with_auth l r))) = hdr r k) by done. rewrite Hh.
  change (cq_cid (with_seqno k _)) with (cq_cid r). change (cq_auth (with_seqno k (with_auth ?l r))) with l. rewrite Hc.
  assert (me = 0 \/ me = 1 \/ me = 2 \/ me = 3) as [-> | [-> | [-> | ->]]] by lia; cbn [Z.eqb Pos.eqb app];
    rewrite ?gen_replica, ?gen_replica2, ?gen_replica3 by lia; cbn [mbind option_bind]; eexists _, _, _; (split; [reflexivity|split; intros; (done || lia)]).
Qed.

(** The check of the MACs of a reply, from the last two replicas. *)
Lemma verify_reply rr a b c d : verify_auth4 cid 4 0 rr [a; b; c; d] 0 =
  Some (if UMAC 2 cid rr a =? b then
          if UMAC 3 cid rr c =? d then (true, [c; d; c; d], 0) else (false, [c; d; c; d], 0)
        else (false, [a; b; c; d], 0)).
Proof.
  unfold verify_auth. run_words. cbn [Z.eqb]. unfold verify_mac. rewrite !replica_principal by lia. unfold get. cbn [Z.ltb Z.compare]. run_words.
  destruct (_ =? b); [|done]. run_words. by destruct (_ =? d).
Qed.

(** The whole chain, from the client to the reply. *)
Definition pass_chain (nc n0 n1 n2 n3 k : Z) (rr : mac_data) (r : C_Request) : option C_Request :=
  r ← authenticate4 cid (-1) 0 nc None r;
  r ← relay4 0 n0 k rr r; r ← relay4 1 n1 k rr r; r ← relay4 2 n2 k rr r; relay4 3 n3 k rr r.

Lemma pass_chain_seven nc n0 n1 n2 n3 k rr r a b c d e x y : cq_cid r = cid -> cq_seqno r = 0 -> comp_digest MD5_request r = cq_od r ->
  cq_auth r = [a; b; c; d; e; x; y] ->
  exists z x' y', pass_chain nc n0 n1 n2 n3 k rr r =
    Some (with_auth [n2; UMAC 2 cid rr n2; n3; UMAC 3 cid rr n3; z; x'; y'] (with_seqno k r)).
Proof.
  intros Hc Hs Hd Ha. unfold pass_chain, authenticate. rewrite Ha, Hc, gen_client. cbn [mbind option_bind].
  set (w := request_hdr (with_listnum 0 r)). assert (Hw : w = hdr r 0) by (unfold w; rewrite <- hdr_own, Hs; done). rewrite Hw. clear w Hw.
  match goal with |- context [relay4 0 n0 k rr ?R] => destruct (relay_seven 0 n0 k rr R nc (UMAC cid 0 (hdr r 0) nc) (UMAC cid 1 (hdr r 0) nc) d e x y) as (z0 & x0 & y0 & -> & Hz0 & _);
    [lia|done|done|split; [done|]; split; [by intros _|]; split; lia|] end.
  cbn [mbind option_bind Z.eqb Pos.eqb]. rewrite (Hz0 ltac:(lia)).
  match goal with |- context [relay4 1 n1 k rr ?R] => edestruct (relay_seven 1 n1 k rr R) as (z1 & x1 & y1 & -> & Hz1 & _);
    [lia|done|reflexivity|split; [done|]; split; [by intros _|]; split; [by intros _|lia]|] end.
  cbn [mbind option_bind Z.eqb Pos.eqb]. rewrite (Hz1 ltac:(lia)).
  match goal with |- context [relay4 2 n2 k rr ?R] => edestruct (relay_seven 2 n2 k rr R) as (z2 & x2 & y2 & -> & _ & Hz2);
    [lia|done|reflexivity|split; [done|]; split; [lia|]; split; [lia|by intros _]|] end.
  cbn [mbind option_bind Z.eqb Pos.eqb]. rewrite (Hz2 eq_refl).
  match goal with |- context [relay4 3 n3 k rr ?R] => edestruct (relay_seven 3 n3 k rr R) as (z3 & x3 & y3 & -> & _ & _);
    [lia|done|reflexivity|split; [done|]; split; [lia|]; split; [lia|by intros _]|] end.
  by exists z3, x3, y3.
Qed.

Lemma pass_chain_frame rest nc n0 n1 n2 n3 k rr r r' : pass_chain nc n0 n1 n2 n3 k rr r = Some r' ->
  pass_chain nc n0 n1 n2 n3 k rr (extend rest r) = Some (extend rest r').
Proof.
  unfold pass_chain. intros (r1 & H1 & (r2 & H2 & (r3 & H3 & (r4 & H4 & H5)%bind_Some)%bind_Some)%bind_Some)%bind_Some.
  rewrite (authenticate_frame _ _ _ rest _ _ _ _ _ _ _ H1). cbn [mbind option_bind].
  rewrite (relay_frame _ _ _ _ _ rest _ _ _ _ _ _ H2). cbn [mbind option_bind].
  rewrite (relay_frame _ _ _ _ _ rest _ _ _ _ _ _ H3). cbn [mbind option_bind].
  rewrite (relay_frame _ _ _ _ _ rest _ _ _ _ _ _ H4). cbn [mbind option_bind].
  exact (relay_frame _ _ _ _ _ rest _ _ _ _ _ _ H5).
Qed.

Lemma pass_accepted nc n0 n1 n2 n3 k rr r : cq_cid r = cid -> cq_seqno r = 0 -> comp_digest MD5_request r = cq_od r ->
  (7 <= length (cq_auth r))%nat ->
  exists r' w o, pass_chain nc n0 n1 n2 n3 k rr r = Some r' /\ with_auth [] r' = with_auth [] (with_seqno k r) /\
    verify_auth4 cid 4 0 rr (take 4 (cq_auth r')) 0 = Some (true, w, o).
Proof.
  intros Hc Hs Hd Hl. destruct (cq_auth r) as [|a [|b [|c [|d [|e [|x [|y rest]]]]]]] eqn:Ha; try (simpl in Hl; lia).
  change (a :: b :: c :: d :: e :: x :: y :: rest) with ([a; b; c; d; e; x; y] ++ rest) in Ha. rewrite (extend_nil r _ _ Ha).
  destruct (pass_chain_seven nc n0 n1 n2 n3 k rr (with_auth [a; b; c; d; e; x; y] r) a b c d e x y) as (z & x' & y' & Hp); [done..|].
  eexists _, _, _. split; [by apply pass_chain_frame|]. split; [done|]. cbn [extend with_auth cq_auth app take].
  rewrite verify_reply, !Z.eqb_refl. done.
Qed.

(** In a group of four, a request that its client authenticated is accepted by
    every replica of the chain, whatever the nonces, and comes out with the
    number the head gave it; the four words the last replica copies into the
    reply are the MACs of the last two replicas that the client checks. *)
Theorem chain_authenticates nc n0 n1 n2 n3 k rr r : cq_cid r = cid -> cq_seqno r = 0 -> comp_digest MD5_request r = cq_od r ->
  (7 <= length (cq_auth r))%nat ->
  exists r' w o, pass_chain nc n0 n1 n2 n3 k rr r = Some r' /\ with_auth [] r' = with_auth [] (with_seqno k r) /\
    verify_auth4 cid 4 0 rr (take 4 (cq_auth r')) 0 = Some (true, w, o).
Proof. intros. by apply pass_accepted. Qed.

(** The same, from the message the client sends. *)
Lemma chain_authenticates_sent nc n0 n1 n2 n3 k rr r : cq_cid r = cid -> cq_seqno r = 0 -> comp_digest MD5_request r = cq_od r ->
  (7 <= length (cq_auth r))%nat ->
  exists q r' w o, authenticate4 cid (-1) 0 nc None r = Some q /\ with_auth [] q = with_auth [] r /\
    (x ← relay4 0 n0 k rr q; x ← relay4 1 n1 k rr x; x ← relay4 2 n2 k rr x; relay4 3 n3 k rr x) = Some r' /\
    verify_auth4 cid 4 0 rr (take 4 (cq_auth r')) 0 = Some (true, w, o).
Proof.
  intros Hc Hs Hd Hl. destruct (pass_accepted nc n0 n1 n2 n3 k rr r Hc Hs Hd Hl) as (r' & w & o & Hp & _ & Hv).
  unfold pass_chain in Hp. apply bind_Some in Hp as (q & Hq & Hp). exists q, r', w, o. split; [done|]. split; [|done].
  unfold authenticate in Hq. by apply bind_Some in Hq as (a & _ & [= <-]).
Qed.

(** The MACs of a reply are computed and not used: whatever they are, a reply
    with the right length and digest is accepted. *)
Lemma reply_macs_unused MD5 r macs : length macs = 4%nat -> 0 <= cr_replica r <= 1 -> 32 <= cr_size r - sizeof_Reply_rep - cr_reply_size r ->
  0 <= cr_reply_size r <= zlen (cr_body r) -> MD5 (take (Z.to_nat (cr_reply_size r)) (cr_body r)) = cr_digest r ->
  reply_verify UMAC 1 4 num_principals MD5 cid r macs = Some true.
Proof.
  intros Hm Hr Hs Hb Hd. destruct macs as [|a [|b [|c [|d []]]]]; try done. unfold reply_verify.
  rewrite (proj2 (Z.leb_le 0 _)), (proj2 (Z.ltb_lt _ 4)) by lia. cbn [andb negb]. rewrite (proj2 (Z.ltb_ge _ _)) by lia.
  rewrite read_prefix by (unfold zlen in Hb; lia). cbn [mbind option_bind]. rewrite Hd, Z.eqb_refl. cbn [negb].
  assert (E : verify_auth4 cid 4 (cr_replica r) (reply_hdr r) [a; b; c; d] 0 = verify_auth4 cid 4 0 (reply_hdr r) [a; b; c; d] 0).
  { assert (cr_replica r = 0 \/ cr_replica r = 1) as [-> | ->] by lia; [done|]. unfold verify_auth. by run_words. }
  rewrite E, verify_reply. destruct (UMAC 2 cid (reply_hdr r) a =? b); [destruct (UMAC 3 cid (reply_hdr r) c =? d)|]; by destruct (negb (cr_cid r =? -1)).
Qed.

End four.

(** ** Larger groups and the bounds of the message *)

Section bounds.
Context (UMAC : Z -> Z -> mac_data -> Z -> Z) (MD5_request : Z -> Z -> list Z -> Z) (f n num_principals : Z).

Lemma memmove_past b dst src k : zlen b < src + k -> memmove b dst src k = None.
Proof.
  intros H. unfold memmove, read. destruct (_ && _) eqn:E; [|done]. rewrite !andb_true_iff, !Z.leb_le in E. unfold zlen in H. lia.
Qed.

(** With at least one faulty replica tolerated, the head of the chain reads and
    writes past the end of every request whose client MAC is right: after
    checking the client it moves the words that follow the authenticator, and
    the message ends with the authenticator. *)
Theorem head_overflows r : 1 <= f -> f + 2 <= n -> 0 <= cq_cid r < num_principals -> comp_digest MD5_request r = cq_od r ->
  zlen (cq_auth r) = auth_size f ->
  (exists a b rest, cq_auth r = a :: b :: rest /\ b = UMAC (cq_cid r) 0 (hdr r 0) a) ->
  verify UMAC f n num_principals MD5_request 0 r = None.
Proof.
  intros Hf Hn Hc Hd Hl (a & b & rest & Ha & Hb). unfold verify. rewrite Hd, Z.eqb_refl. cbn [negb]. unfold verify_auth_from_client.
  assert (Hsz : f + 3 <= auth_size f) by (unfold auth_size, UMAC_size, UNonce_size; assert (2 * (f + 1) <= (f + 1) * (f + 2)) by nia;
    assert (2 <= 1 * ((f + 1) * (f + 2)) / 2) by (apply Z.div_le_lower_bound; lia); lia).
  rewrite !(proj2 (Z.ltb_ge _ 0)) by lia. rewrite Ha. change (get (a :: b :: rest) 0) with (Some a). change (get (a :: b :: rest) UNonce_size) with (Some b).
  cbn [mbind option_bind]. unfold verify_mac. rewrite (proj2 (Z.leb_le _ _)), (proj2 (Z.ltb_lt _ _)) by lia. cbn [andb mbind option_bind].
  unfold hdr in Hb. rewrite Hb, Z.eqb_refl. cbn [negb]. rewrite Z.min_l by lia. rewrite (proj2 (Z.eqb_neq _ 1)) by lia. rewrite <- Hb, <- Ha.
  destruct (memmove (cq_auth r) UNonce_size (UNonce_size + UMAC_size) (auth_size f - (UNonce_size + UMAC_size))) as [w|] eqn:Hw; [|done].
  cbn [mbind option_bind negb]. apply memmove_length in Hw. unfold verify_auth. rewrite Z.min_r by lia. change (Z.to_nat (0 + 1)) with 1%nat.
  cbn [verify_loop]. change (0 - Z.of_nat 1 <? 0) with true. cbv iota. rewrite Z.eqb_refl. cbn [mbind option_bind negb].
  change (Z.of_nat 1) with 1. rewrite Z.min_l by lia. rewrite (proj2 (Z.eqb_neq _ 1)) by lia.
  rewrite memmove_past; [done|]. unfold zlen in *. rewrite Hw. rewrite (proj2 (Z.ltb_lt 0 n)) by lia. unfold UNonce_size, UMAC_size in *. lia.
Qed.

End bounds.

(** ** A group of seven *)

Section seven.
Context (UMAC : Z -> Z -> mac_data -> Z -> Z) (MD5_request : Z -> Z -> list Z -> Z) (num_principals cid : Z).
Hypothesis cid_ok7 : 7 <= cid < num_principals.

Lemma mac_ok7 me p s m u : (p = cid \/ 0 <= p < 7) -> verify_mac UMAC num_principals me p s m u = Some (UMAC p me s u =? m).
Proof. intros. unfold verify_mac. by rewrite (proj2 (Z.leb_le _ _)), (proj2 (Z.ltb_lt _ _)) by lia. Qed.

Lemma from_client7 me s a b c d e g h i j k l m : 0 <= me <= 1 -> UMAC cid me s a = b ->
  verify_auth_from_client UMAC 2 7 num_principals me cid s [a; b; c; d; e; g; h; i; j; k; l; m] 0 =
  Some (true, [a; c; d; e; g; h; i; j; j; k; l; m], 3 - me).
Proof.
  intros Hme Hb. unfold verify_auth_from_client. unfold get. assert (me = 0 \/ me = 1) as [-> | ->] by lia; cbn [Z.ltb Z.compare Pos.compare Pos.compare_cont]; run_words;
    rewrite mac_ok7 by (by left); rewrite Hb, Z.eqb_refl; run_words; done.
Qed.

Lemma verify_auth7_0 s a b c d e g h i j k l m :
  verify_auth UMAC 2 7 num_principals 0 0 cid s [a; b; c; d; e; g; h; i; j; k; l; m] 3 = Some (true, [a; b; c; d; g; h; i; j; k; l; m; m], 3).
Proof. unfold verify_auth. run_words. rewrite Z.eqb_refl. run_words. done. Qed.

Lemma verify_auth7_1 s a b c d e g h i j k l m : UMAC 0 1 s c <> e ->
  verify_auth UMAC 2 7 num_principals 1 1 cid s [a; b; c; d; e; g; h; i; j; k; l; m] 2 = Some (false, [a; b; c; e; g; h; i; j; k; l; l; m], 2).
Proof.
  intros Hne. unfold verify_auth. run_words. rewrite Z.eqb_refl. run_words. rewrite (proj2 (Z.eqb_neq 0 cid)) by lia.
  unfold get. cbn [Z.ltb Z.compare Z.add Pos.add]. run_words. rewrite mac_ok7 by (right; lia). rewrite (proj2 (Z.eqb_neq _ _) Hne). run_words. done.
Qed.

(** In a group of seven the second replica rejects every request that the
    client and the head have authenticated, unless two MACs of the head
    collide: skipping the client's part, it also drops the first MAC of the
    head, and compares the second. *)
Theorem seven_rejects r nc n0 k rr : cq_cid r = cid -> cq_seqno r = 0 -> comp_digest MD5_request r = cq_od r -> length (cq_auth r) = 12%nat ->
  UMAC 0 1 (hdr r k) n0 <> UMAC 0 2 (hdr r k) n0 ->
  exists r1 r2 o, (r ← authenticate UMAC 2 7 cid (-1) 0 nc None r; relay UMAC 2 7 num_principals MD5_request 0 n0 k rr r) = Some r1 /\
    verify UMAC 2 7 num_principals MD5_request 1 r1 = Some (false, r2, o).
Proof.
  intros Hc Hs Hd Hl Hne. destruct (cq_auth r) as [|a [|b [|c [|d [|e [|g [|h [|i [|j [|w [|l [|m []]]]]]]]]]]]] eqn:Ha; try done.
  assert (Hh : hdr r 0 = request_hdr (with_listnum 0 r)) by (rewrite <- hdr_own, Hs; done).
  set (U := UMAC) in |- * at 1. unfold authenticate. rewrite Ha, Hc, <- Hh. unfold U.
  change (gen_auth UMAC 2 7 cid (hdr r 0) _ 0 None (-1) cid nc) with
    (Some [nc; UMAC cid 0 (hdr r 0) nc; UMAC cid 1 (hdr r 0) nc; UMAC cid 2 (hdr r 0) nc; e; g; h; i; j; w; l; m]).
  cbn [mbind option_bind]. unfold relay, verify. cbn [with_auth comp_digest cq_od cq_cid cq_auth]. rewrite Hc.
  change (comp_digest MD5_request (with_auth ?x r)) with (comp_digest MD5_request r). rewrite Hd, Z.eqb_refl. cbn [negb].
  change (request_hdr (with_seqno 0 (with_listnum 0 (with_auth ?x r)))) with (hdr r 0). rewrite from_client7 by (done || lia). cbn [mbind option_bind negb].
  change (3 - 0) with 3. rewrite verify_auth7_0. cbn [mbind option_bind negb]. unfold authenticate.
  change (cq_cid (with_seqno ?q (with_auth ?x (with_auth ?y r)))) with (cq_cid r). rewrite Hc.
  change (request_hdr (with_listnum 0 (with_seqno k (with_auth ?x (with_auth ?y r))))) with (hdr r k).
  cbn [cq_auth with_seqno with_auth].
  match goal with |- context [gen_auth UMAC 2 7 0 (hdr r k) [nc; ?x1; ?x2; ?x3; ?x4; ?x5; ?x6; ?x7; ?x8; ?x9; ?x10; ?x11] 3 (Some rr) 0 cid n0] =>
    change (gen_auth UMAC 2 7 0 (hdr r k) [nc; x1; x2; x3; x4; x5; x6; x7; x8; x9; x10; x11] 3 (Some rr) 0 cid n0) with
      (Some [nc; x1; x2; n0; UMAC 0 1 (hdr r k) n0; UMAC 0 2 (hdr r k) n0; UMAC 0 3 (hdr r k) n0; x7; x8; x9; x10; x11]) end.
  cbn [mbind option_bind]. eexists _, _, _. split; [done|]. cbn [with_auth with_seqno cq_cid cq_auth cq_od]. rewrite Hc.
  match goal with |- context [comp_digest MD5_request ?R] => change (comp_digest MD5_request R) with (comp_digest MD5_request r) end.
  rewrite Hd, Z.eqb_refl. cbn [negb]. rewrite from_client7 by (done || lia). cbn [mbind option_bind negb]. change (3 - 1) with 2.
  match goal with |- context [verify_auth UMAC 2 7 num_principals 1 1 cid ?H _ 2] => change H with (hdr r k) end.
  rewrite verify_auth7_1 by done. cbn [mbind option_bind negb]. reflexivity.
Qed.

End seven.

(** ** Examples *)

Definition ex_UMAC (src dst : Z) (s : mac_data) (u : Z) : Z := 1000000 + 10000 * src + 100 * dst + u.
Definition ex_MD5 (cid rid : Z) (command : list Z) : Z := 0.
(** A request of client 9, with [k] words for the authenticator. *)
Definition ex_request (w : list Z) : C_Request := mk_creq 0 104 0 0 0 9 1 [7] w.

Lemma verify_authentic_witness : exists ok r' o,
  verify ex_UMAC 1 4 20 ex_MD5 2 (ex_request ([5; 1000205; 6; 1010206; 0] ++ [])) = Some (ok, r', o) /\
  (ok = true <-> authentic ex_UMAC ex_MD5 9 2 (ex_request ([5; 1000205; 6; 1010206; 0] ++ [])) 5 1000205 6 1010206).
Proof. apply (verify_authentic ex_UMAC ex_MD5 20 ltac:(lia) 9 ltac:(lia) 2 _ 5 1000205 6 1010206 0 []); [lia|reflexivity|reflexivity|discriminate]. Defined.

Lemma chain_authenticates_witness : exists r' w o,
  pass_chain ex_UMAC ex_MD5 20 9 1 2 3 4 5 6 (hdr (ex_request []) 0) (ex_request (replicate 7 0)) = Some r' /\
  with_auth [] r' = with_auth [] (with_seqno 6 (ex_request (replicate 7 0))) /\
  verify_auth ex_UMAC 1 4 20 9 4 0 (hdr (ex_request []) 0) (take 4 (cq_auth r')) 0 = Some (true, w, o).
Proof. apply (chain_authenticates ex_UMAC ex_MD5 20 ltac:(lia) 9 ltac:(lia)); [reflexivity|reflexivity|reflexivity|vm_compute; lia]. Defined.

Lemma head_overflows_witness : verify ex_UMAC 1 4 20 ex_MD5 0 (ex_request [5; 1090005; 1090105; 0; 0]) = None.
Proof.
  apply (head_overflows ex_UMAC ex_MD5 1 4 20); [lia|lia|cbn; lia|reflexivity|reflexivity|].
  exists 5, 1090005, [1090105; 0; 0]. split; reflexivity.
Defined.

Lemma seven_rejects_witness : exists r1 r2 o,
  (r ← authenticate ex_UMAC 2 7 9 (-1) 0 1 None (ex_request (replicate 12 0)); relay ex_UMAC 2 7 20 ex_MD5 0 2 3 (hdr (ex_request []) 0) r) = Some r1 /\
  verify ex_UMAC 2 7 20 ex_MD5 1 r1 = Some (false, r2, o).
Proof. apply (seven_rejects ex_UMAC ex_MD5 20 9 ltac:(lia)); [reflexivity|reflexivity|reflexivity|reflexivity|vm_compute; discriminate]. Defined.

End ChainAuth.
