(* ===== verification/Chain.v ===== *)
(** * The Chain replica

    Models [src/protocols/chain/C_Replica.{h,cc}] (every message handler, the
    robust thread, [execute_request], the timers and the switching), with
    [C_Rep_info.{h,cc}] and the constructor of [C_Abort].  The state machine has
    the shape of the ZLight replica and shares its timers, checkpoint sets and
    smasher; requests travel along the chain with the authenticators of
    [ChainAuth].

    A replica of the chain verifies a request, executes it if it is new and in
    order, authenticates it for its successors and forwards it; the last one
    answers the client.  The executed requests are logged later, by the thread
    that also exchanges checkpoints.  Handlers are atomic; the service, MD5, the
    signatures and the verdicts of the robust monitor are parameters. *)

From Stdlib Require Import Sorted.
From S2P Require Import Prelude Effects Bytes ReqHistory SCSet Recover Smasher Certificate Reply ZlReplica ChainAuth.
Local Open Scope Z_scope.

#[export] Instance C_Request_AReq : AReq C_Request :=
  { client_id := cq_cid; request_id := cq_rid; req_digest := cq_od }.

Definition with_od (d : Z) (r : C_Request) : C_Request :=
  mk_creq (cq_extra r) (cq_size r) (cq_listnum r) d (cq_seqno r) (cq_cid r) (cq_rid r) (cq_command r) (cq_auth r).

Record C_Get_a_grip := mk_cgag { cg_cid : Z; cg_rid : Z; cg_replica : Z; cg_seqno : Z; cg_request : C_Request }.

(** The messages, by tag; checkpoints, panics, aborts, missing lists and
    notifications have the fields of those of ZLight. *)
Inductive C_Message :=
| C_Request_msg (m : C_Request)
| C_Checkpoint_msg (m : zl_Checkpoint)
| C_Panic_msg (m : zl_Panic)
| C_Abort_msg (m : Smasher.zl_Abort)
| C_Missing_msg (m : zl_Missing)
| C_Get_a_grip_msg (m : C_Get_a_grip)
| C_Client_notification_msg (m : zl_Client_notification)
| C_Unknown_msg.

(** What a replica sends: along the chain, to a client on a socket, or through
    the robust monitor. *)
Inductive C_output :=
| C_Executed (r : C_Request)
| Forward (r : C_Request)
| Reply_client (socket : Z) (r : C_Reply) (macs : list Z)
| CM_req (cid rid : Z)
| CM_notif (request : bool)
| CM_checkpoint (c : zl_Checkpoint)
| CM_panic (p : zl_Panic)
| CM_abort (a : Smasher.zl_Abort)
| CM_missing (m : zl_Missing)
| CM_gag (dest : Z) (g : C_Get_a_grip)
| CM_switch (p : protocols_e)
| C_Switch_other (p : protocols_e) (b : bool).

Module Chain.
Import Bytes.
Section chain.
Context {S : Type}.

Record state := mk_state {
  node_id : Z;
  seqno : Z;
  last_seqno : Z;
  req_count_switch : Z;
  replies : list C_Reply;
  nb_sent_replies : Z;
  max_history_size : Z;
  rh : ReqHistory.t C_Request;
  checkpoint_in_progress : bool;
  current_nb_requests_while_checkpointing : Z;
  current_checkpoints : gmap Z CheckpointSet;
  pending_requests : list (Z * C_Request);
  primary_pending_requests : list C_Request;
  last_chkp_seqno : Z;
  checkpointing_mutex : bool;
  cur_state : replica_state;
  aborts : Smasher.Abort_certificate;
  ah_2 : option (list AbortHistoryElement);
  missing : option (list AbortHistoryElement);
  num_missing : Z;
  missing_mask : list bool;
  missing_store : list (option C_Request);
  missing_store_seq : list Z;
  robust_messages_queue : list C_Message;
  ctimer : timer_state;
  ftimer : timer_state;
  connectlist : list Z;
  umac_nonce : Z;
  service : S
}.

Definition set_seqno (x : Z) (s : state) : state :=
  mk_state (node_id s) x (last_seqno s) (req_count_switch s) (replies s) (nb_sent_replies s) (max_history_size s) (rh s)
  (checkpoint_in_progress s) (current_nb_requests_while_checkpointing s) (current_checkpoints s) (pending_requests s)
  (primary_pending_requests s) (last_chkp_seqno s) (checkpointing_mutex s) (cur_state s) (aborts s) (ah_2 s) (missing s)
  (num_missing s) (missing_mask s) (missing_store s) (missing_store_seq s) (robust_messages_queue s) (ctimer s) (ftimer
  s) (connectlist s) (umac_nonce s) (service s).
Definition set_last_seqno (x : Z) (s : state) : state :=
  mk_state (node_id s) (seqno s) x (req_count_switch s) (replies s) (nb_sent_replies s) (max_history_size s) (rh s)
  (checkpoint_in_progress s) (current_nb_requests_while_checkpointing s) (current_checkpoints s) (pending_requests s)
  (primary_pending_requests s) (last_chkp_seqno s) (checkpointing_mutex s) (cur_state s) (aborts s) (ah_2 s) (missing s)
  (num_missing s) (missing_mask s) (missing_store s) (missing_store_seq s) (robust_messages_queue s) (ctimer s) (ftimer
  s) (connectlist s) (umac_nonce s) (service s).
Definition set_req_count_switch (x : Z) (s : state) : state :=
  mk_state (node_id s) (seqno s) (last_seqno s) x (replies s) (nb_sent_replies s) (max_history_size s) (rh s)
  (checkpoint_in_progress s) (current_nb_requests_while_checkpointing s) (current_checkpoints s) (pending_requests s)
  (primary_pending_requests s) (last_chkp_seqno s) (checkpointing_mutex s) (cur_state s) (aborts s) (ah_2 s) (missing s)
  (num_missing s) (missing_mask s) (missing_store s) (missing_store_seq s) (robust_messages_queue s) (ctimer s) (ftimer
  s) (connectlist s) (umac_nonce s) (service s).
Definition set_replies (x : list C_Reply) (s : state) : state :=
  mk_state (node_id s) (seqno s) (last_seqno s) (req_count_switch s) x (nb_sent_replies s) (max_history_size s) (rh s)
  (checkpoint_in_progress s) (current_nb_requests_while_checkpointing s) (current_checkpoints s) (pending_requests s)
  (primary_pending_requests s) (last_chkp_seqno s) (checkpointing_mutex s) (cur_state s) (aborts s) (ah_2 s) (missing s)
  (num_missing s) (missing_mask s) (missing_store s) (missing_store_seq s) (robust_messages_queue s) (ctimer s) (ftimer
  s) (connectlist s) (umac_nonce s) (service s).
Definition set_nb_sent_replies (x : Z) (s : state) : state :=
  mk_state (node_id s) (seqno s) (last_seqno s) (req_count_switch s) (replies s) x (max_history_size s) (rh s)
  (checkpoint_in_progress s) (current_nb_requests_while_checkpointing s) (current_checkpoints s) (pending_requests s)
  (primary_pending_requests s) (last_chkp_seqno s) (checkpointing_mutex s) (cur_state s) (aborts s) (ah_2 s) (missing s)
  (num_missing s) (missing_mask s) (missing_store s) (missing_store_seq s) (robust_messages_queue s) (ctimer s) (ftimer
  s) (connectlist s) (umac_nonce s) (service s).
Definition set_max_history_size (x : Z) (s : state) : state :=
  mk_state (node_id s) (seqno s) (last_seqno s) (req_count_switch s) (replies s) (nb_sent_replies s) x (rh s)
  (checkpoint_in_progress s) (current_nb_requests_while_checkpointing s) (current_checkpoints s) (pending_requests s)
  (primary_pending_requests s) (last_chkp_seqno s) (checkpointing_mutex s) (cur_state s) (aborts s) (ah_2 s) (missing s)
  (num_missing s) (missing_mask s) (missing_store s) (missing_store_seq s) (robust_messages_queue s) (ctimer s) (ftimer
  s) (connectlist s) (umac_nonce s) (service s).
Definition set_rh (x : ReqHistory.t C_Request) (s : state) : state :=
  mk_state (node_id s) (seqno s) (last_seqno s) (req_count_switch s) (replies s) (nb_sent_replies s) (max_history_size
  s) x (checkpoint_in_progress s) (current_nb_requests_while_checkpointing s) (current_checkpoints s) (pending_requests
  s) (primary_pending_requests s) (last_chkp_seqno s) (checkpointing_mutex s) (cur_state s) (aborts s) (ah_2 s) (missing
  s) (num_missing s) (missing_mask s) (missing_store s) (missing_store_seq s) (robust_messages_queue s) (ctimer s)
  (ftimer s) (connectlist s) (umac_nonce s) (service s).
Definition set_checkpoint_in_progress (x : bool) (s : state) : state :=
  mk_state (node_id s) (seqno s) (last_seqno s) (req_count_switch s) (replies s) (nb_sent_replies s) (max_history_size
  s) (rh s) x (current_nb_requests_while_checkpointing s) (current_checkpoints s) (pending_requests s)
  (primary_pending_requests s) (last_chkp_seqno s) (checkpointing_mutex s) (cur_state s) (aborts s) (ah_2 s) (missing s)
  (num_missing s) (missing_mask s) (missing_store s) (missing_store_seq s) (robust_messages_queue s) (ctimer s) (ftimer
  s) (connectlist s) (umac_nonce s) (service s).
Definition set_current_nb_requests_while_checkpointing (x : Z) (s : state) : state :=
  mk_state (node_id s) (seqno s) (last_seqno s) (req_count_switch s) (replies s) (nb_sent_replies s) (max_history_size
  s) (rh s) (checkpoint_in_progress s) x (current_checkpoints s) (pending_requests s) (primary_pending_requests s)
  (last_chkp_seqno s) (checkpointing_mutex s) (cur_state s) (aborts s) (ah_2 s) (missing s) (num_missing s)
  (missing_mask s) (missing_store s) (missing_store_seq s) (robust_messages_queue s) (ctimer s) (ftimer s) (connectlist
  s) (umac_nonce s) (service s).
Definition set_current_checkpoints (x : gmap Z CheckpointSet) (s : state) : state :=
  mk_state (node_id s) (seqno s) (last_seqno s) (req_count_switch s) (replies s) (nb_sent_replies s) (max_history_size
  s) (rh s) (checkpoint_in_progress s) (current_nb_requests_while_checkpointing s) x (pending_requests s)
  (primary_pending_requests s) (last_chkp_seqno s) (checkpointing_mutex s) (cur_state s) (aborts s) (ah_2 s) (missing s)
  (num_missing s) (missing_mask s) (missing_store s) (missing_store_seq s) (robust_messages_queue s) (ctimer s) (ftimer
  s) (connectlist s) (umac_nonce s) (service s).
Definition set_pending_requests (x : list (Z * C_Request)) (s : state) : state :=
  mk_state (node_id s) (seqno s) (last_seqno s) (req_count_switch s) (replies s) (nb_sent_replies s) (max_history_size
  s) (rh s) (checkpoint_in_progress s) (current_nb_requests_while_checkpointing s) (current_checkpoints s) x
  (primary_pending_requests s) (last_chkp_seqno s) (checkpointing_mutex s) (cur_state s) (aborts s) (ah_2 s) (missing s)
  (num_missing s) (missing_mask s) (missing_store s) (missing_store_seq s) (robust_messages_queue s) (ctimer s) (ftimer
  s) (connectlist s) (umac_nonce s) (service s).
Definition set_primary_pending_requests (x : list C_Request) (s : state) : state :=
  mk_state (node_id s) (seqno s) (last_seqno s) (req_count_switch s) (replies s) (nb_sent_replies s) (max_history_size
  s) (rh s) (checkpoint_in_progress s) (current_nb_requests_while_checkpointing s) (current_checkpoints s)
  (pending_requests s) x (last_chkp_seqno s) (checkpointing_mutex s) (cur_state s) (aborts s) (ah_2 s) (missing s)
  (num_missing s) (missing_mask s) (missing_store s) (missing_store_seq s) (robust_messages_queue s) (ctimer s) (ftimer
  s) (connectlist s) (umac_nonce s) (service s).
Definition set_last_chkp_seqno (x : Z) (s : state) : state :=
  mk_state (node_id s) (seqno s) (last_seqno s) (req_count_switch s) (replies s) (nb_sent_replies s) (max_history_size
  s) (rh s) (checkpoint_in_progress s) (current_nb_requests_while_checkpointing s) (current_checkpoints s)
  (pending_requests s) (primary_pending_requests s) x (checkpointing_mutex s) (cur_state s) (aborts s) (ah_2 s) (missing
  s) (num_missing s) (missing_mask s) (missing_store s) (missing_store_seq s) (robust_messages_queue s) (ctimer s)
  (ftimer s) (connectlist s) (umac_nonce s) (service s).
Definition set_checkpointing_mutex (x : bool) (s : state) : state :=
  mk_state (node_id s) (seqno s) (last_seqno s) (req_count_switch s) (replies s) (nb_sent_replies s) (max_history_size
  s) (rh s) (checkpoint_in_progress s) (current_nb_requests_while_checkpointing s) (current_checkpoints s)
  (pending_requests s) (primary_pending_requests s) (last_chkp_seqno s) x (cur_state s) (aborts s) (ah_2 s) (missing s)
  (num_missing s) (missing_mask s) (missing_store s) (missing_store_seq s) (robust_messages_queue s) (ctimer s) (ftimer
  s) (connectlist s) (umac_nonce s) (service s).
Definition set_cur_state (x : replica_state) (s : state) : state :=
  mk_state (node_id s) (seqno s) (last_seqno s) (req_count_switch s) (replies s) (nb_sent_replies s) (max_history_size
  s) (rh s) (checkpoint_in_progress s) (current_nb_requests_while_checkpointing s) (current_checkpoints s)
  (pending_requests s) (primary_pending_requests s) (last_chkp_seqno s) (checkpointing_mutex s) x (aborts s) (ah_2 s)
  (missing s) (num_missing s) (missing_mask s) (missing_store s) (missing_store_seq s) (robust_messages_queue s) (ctimer
  s) (ftimer s) (connectlist s) (umac_nonce s) (service s).
Definition set_aborts (x : Smasher.Abort_certificate) (s : state) : state :=
  mk_state (node_id s) (seqno s) (last_seqno s) (req_count_switch s) (replies s) (nb_sent_replies s) (max_history_size
  s) (rh s) (checkpoint_in_progress s) (current_nb_requests_while_checkpointing s) (current_checkpoints s)
  (pending_requests s) (primary_pending_requests s) (last_chkp_seqno s) (checkpointing_mutex s) (cur_state s) x (ah_2 s)
  (missing s) (num_missing s) (missing_mask s) (missing_store s) (missing_store_seq s) (robust_messages_queue s) (ctimer
  s) (ftimer s) (connectlist s) (umac_nonce s) (service s).
Definition set_ah_2 (x : option (list AbortHistoryElement)) (s : state) : state :=
  mk_state (node_id s) (seqno s) (last_seqno s) (req_count_switch s) (replies s) (nb_sent_replies s) (max_history_size
  s) (rh s) (checkpoint_in_progress s) (current_nb_requests_while_checkpointing s) (current_checkpoints s)
  (pending_requests s) (primary_pending_requests s) (last_chkp_seqno s) (checkpointing_mutex s) (cur_state s) (aborts s)
  x (missing s) (num_missing s) (missing_mask s) (missing_store s) (missing_store_seq s) (robust_messages_queue s)
  (ctimer s) (ftimer s) (connectlist s) (umac_nonce s) (service s).
Definition set_missing (x : option (list AbortHistoryElement)) (s : state) : state :=
  mk_state (node_id s) (seqno s) (last_seqno s) (req_count_switch s) (replies s) (nb_sent_replies s) (max_history_size
  s) (rh s) (checkpoint_in_progress s) (current_nb_requests_while_checkpointing s) (current_checkpoints s)
  (pending_requests s) (primary_pending_requests s) (last_chkp_seqno s) (checkpointing_mutex s) (cur_state s) (aborts s)
  (ah_2 s) x (num_missing s) (missing_mask s) (missing_store s) (missing_store_seq s) (robust_messages_queue s) (ctimer
  s) (ftimer s) (connectlist s) (umac_nonce s) (service s).
Definition set_num_missing (x : Z) (s : state) : state :=
  mk_state (node_id s) (seqno s) (last_seqno s) (req_count_switch s) (replies s) (nb_sent_replies s) (max_history_size
  s) (rh s) (checkpoint_in_progress s) (current_nb_requests_while_checkpointing s) (current_checkpoints s)
  (pending_requests s) (primary_pending_requests s) (last_chkp_seqno s) (checkpointing_mutex s) (cur_state s) (aborts s)
  (ah_2 s) (missing s) x (missing_mask s) (missing_store s) (missing_store_seq s) (robust_messages_queue s) (ctimer s)
  (ftimer s) (connectlist s) (umac_nonce s) (service s).
Definition set_missing_mask (x : list bool) (s : state) : state :=
  mk_state (node_id s) (seqno s) (last_seqno s) (req_count_switch s) (replies s) (nb_sent_replies s) (max_history_size
  s) (rh s) (checkpoint_in_progress s) (current_nb_requests_while_checkpointing s) (current_checkpoints s)
  (pending_requests s) (primary_pending_requests s) (last_chkp_seqno s) (checkpointing_mutex s) (cur_state s) (aborts s)
  (ah_2 s) (missing s) (num_missing s) x (missing_store s) (missing_store_seq s) (robust_messages_queue s) (ctimer s)
  (ftimer s) (connectlist s) (umac_nonce s) (service s).
Definition set_missing_store (x : list (option C_Request)) (s : state) : state :=
  mk_state (node_id s) (seqno s) (last_seqno s) (req_count_switch s) (replies s) (nb_sent_replies s) (max_history_size
  s) (rh s) (checkpoint_in_progress s) (current_nb_requests_while_checkpointing s) (current_checkpoints s)
  (pending_requests s) (primary_pending_requests s) (last_chkp_seqno s) (checkpointing_mutex s) (cur_state s) (aborts s)
  (ah_2 s) (missing s) (num_missing s) (missing_mask s) x (missing_store_seq s) (robust_messages_queue s) (ctimer s)
  (ftimer s) (connectlist s) (umac_nonce s) (service s).
Definition set_missing_store_seq (x : list Z) (s : state) : state :=
  mk_state (node_id s) (seqno s) (last_seqno s) (req_count_switch s) (replies s) (nb_sent_replies s) (max_history_size
  s) (rh s) (checkpoint_in_progress s) (current_nb_requests_while_checkpointing s) (current_checkpoints s)
  (pending_requests s) (primary_pending_requests s) (last_chkp_seqno s) (checkpointing_mutex s) (cur_state s) (aborts s)
  (ah_2 s) (missing s) (num_missing s) (missing_mask s) (missing_store s) x (robust_messages_queue s) (ctimer s) (ftimer
  s) (connectlist s) (umac_nonce s) (service s).
Definition set_robust_messages_queue (x : list C_Message) (s : state) : state :=
  mk_state (node_id s) (seqno s) (last_seqno s) (req_count_switch s) (replies s) (nb_sent_replies s) (max_history_size
  s) (rh s) (checkpoint_in_progress s) (current_nb_requests_while_checkpointing s) (current_checkpoints s)
  (pending_requests s) (primary_pending_requests s) (last_chkp_seqno s) (checkpointing_mutex s) (cur_state s) (aborts s)
  (ah_2 s) (missing s) (num_missing s) (missing_mask s) (missing_store s) (missing_store_seq s) x (ctimer s) (ftimer s)
  (connectlist s) (umac_nonce s) (service s).
Definition set_ctimer (x : timer_state) (s : state) : state :=
  mk_state (node_id s) (seqno s) (last_seqno s) (req_count_switch s) (replies s) (nb_sent_replies s) (max_history_size
  s) (rh s) (checkpoint_in_progress s) (current_nb_requests_while_checkpointing s) (current_checkpoints s)
  (pending_requests s) (primary_pending_requests s) (last_chkp_seqno s) (checkpointing_mutex s) (cur_state s) (aborts s)
  (ah_2 s) (missing s) (num_missing s) (missing_mask s) (missing_store s) (missing_store_seq s) (robust_messages_queue
  s) x (ftimer s) (connectlist s) (umac_nonce s) (service s).
Definition set_ftimer (x : timer_state) (s : state) : state :=
  mk_state (node_id s) (seqno s) (last_seqno s) (req_count_switch s) (replies s) (nb_sent_replies s) (max_history_size
  s) (rh s) (checkpoint_in_progress s) (current_nb_requests_while_checkpointing s) (current_checkpoints s)
  (pending_requests s) (primary_pending_requests s) (last_chkp_seqno s) (checkpointing_mutex s) (cur_state s) (aborts s)
  (ah_2 s) (missing s) (num_missing s) (missing_mask s) (missing_store s) (missing_store_seq s) (robust_messages_queue
  s) (ctimer s) x (connectlist s) (umac_nonce s) (service s).
Definition set_connectlist (x : list Z) (s : state) : state :=
  mk_state (node_id s) (seqno s) (last_seqno s) (req_count_switch s) (replies s) (nb_sent_replies s) (max_history_size
  s) (rh s) (checkpoint_in_progress s) (current_nb_requests_while_checkpointing s) (current_checkpoints s)
  (pending_requests s) (primary_pending_requests s) (last_chkp_seqno s) (checkpointing_mutex s) (cur_state s) (aborts s)
  (ah_2 s) (missing s) (num_missing s) (missing_mask s) (missing_store s) (missing_store_seq s) (robust_messages_queue
  s) (ctimer s) (ftimer s) x (umac_nonce s) (service s).
Definition set_umac_nonce (x : Z) (s : state) : state :=
  mk_state (node_id s) (seqno s) (last_seqno s) (req_count_switch s) (replies s) (nb_sent_replies s) (max_history_size
  s) (rh s) (checkpoint_in_progress s) (current_nb_requests_while_checkpointing s) (current_checkpoints s)
  (pending_requests s) (primary_pending_requests s) (last_chkp_seqno s) (checkpointing_mutex s) (cur_state s) (aborts s)
  (ah_2 s) (missing s) (num_missing s) (missing_mask s) (missing_store s) (missing_store_seq s) (robust_messages_queue
  s) (ctimer s) (ftimer s) (connectlist s) x (service s).
Definition set_service (x : S) (s : state) : state :=
  mk_state (node_id s) (seqno s) (last_seqno s) (req_count_switch s) (replies s) (nb_sent_replies s) (max_history_size
  s) (rh s) (checkpoint_in_progress s) (current_nb_requests_while_checkpointing s) (current_checkpoints s)
  (pending_requests s) (primary_pending_requests s) (last_chkp_seqno s) (checkpointing_mutex s) (cur_state s) (aborts s)
  (ah_2 s) (missing s) (num_missing s) (missing_mask s) (missing_store s) (missing_store_seq s) (robust_messages_queue
  s) (ctimer s) (ftimer s) (connectlist s) (umac_nonce s) x.

Local Abbreviation M := (Effects.M state C_output).
Local Open Scope handler_scope.

(** ** Parameters *)

Context (num_replicas max_faulty num_principals : Z).
Context (modulus : Z) (MD5_sum : Z -> Z) (MD5_reply : list Z -> Z) (MD5_request : Z -> Z -> list Z -> Z).
Context (UMAC : Z -> Z -> mac_data -> Z -> Z).
Context (checkpoint_sig : zl_Checkpoint -> bool) (abort_verify : Smasher.zl_Abort -> bool) (abort_digest : Smasher.zl_Abort -> Z).
Context (signature_entry : Z -> list AbortHistoryElement -> nat -> AbortHistoryElement) (sig_size : Z).
Context (exec_command : S -> Z -> list Z -> S * list Z).

Definition is_replica (i : Z) : bool := (0 <=? i) && (i <? num_replicas).
Definition instance_id : protocols_e := chain.
Definition next_instance_id : protocols_e := aardvark.

Definition lock_checkpointing : M unit :=
  b <- gets checkpointing_mutex ;;
  if (b : bool) then fail Deadlock else modify (set_checkpointing_mutex true).
Definition unlock_checkpointing : M unit := modify (set_checkpointing_mutex false).

(** ** [C_Rep_info] *)

Definition rep_initial (seq : Z) : C_Reply := mk_crep 0 0 0 0 0 0 (-1) 0 false quorum [] seq.

Definition rep_of (cid : Z) : M C_Reply :=
  l <- gets replies ;;
  if cid <? 0 then fail OutOfBounds else of_option OutOfBounds (l !! Z.to_nat cid).
Definition set_rep (cid : Z) (r : C_Reply) : M unit := modify (fun s => set_replies (<[Z.to_nat cid := r]> (replies s)) s).

Definition req_id (cid : Z) : M Z := r <- rep_of cid ;; ret (cr_rid r).
Definition sent_seqno (cid : Z) : M Z := r <- rep_of cid ;; ret (cr_seq r).

Definition new_reply (cid seq : Z) : M unit :=
  r <- rep_of cid ;;
  set_rep cid (mk_crep (cr_size r) (cr_v r) (cr_rid r) (cr_rh_digest r) (cr_digest r) (cr_replica r) (-1) (cr_cid r)
    (cr_should_switch r) (cr_instance_id r) (cr_body r) seq).

(** The MACs at the end of a reply, in bytes. *)
Definition reply_macs_size : Z := (max_faulty + 1) * 16.

Definition end_reply (cid rid : Z) (body : list Z) : M unit :=
  r <- rep_of cid ;;
  assert_ (cr_reply_size r =? -1) ;;;
  set_rep cid (mk_crep (ALIGNED_SIZE (ChainAuth.sizeof_Reply_rep + zlen body + reply_macs_size)) 0 rid (cr_rh_digest r) (MD5_reply body) 0
    (zlen body) (-1) (cr_should_switch r) (cr_instance_id r) body (cr_seq r)).

(** [MACs] are copied behind the reply; [rr.extra] stays 0. *)
Definition send_reply (cid socket : Z) (req : C_Request) : M unit :=
  r <- rep_of cid ;;
  let r := mk_crep (cr_size r) (cr_v r) (cr_rid r) (cr_rh_digest r) (cr_digest r) (cr_replica r) (cr_reply_size r) (-1)
    (cr_should_switch r) (cr_instance_id r) (cr_body r) (cr_seq r) in
  set_rep cid r ;;;
  assert_ (negb (cr_reply_size r =? -1)) ;;;
  assert_ ((cr_v r =? 0) && (cr_replica r =? 0)) ;;;
  macs <- of_option OutOfBounds (read (cq_auth req) 0 ((max_faulty + 1) * 2)) ;;
  emit (Reply_client socket r macs).

(** [set_instance_id(next)] and [reset_switch()]. *)
Definition set_switch (cid : Z) (b : bool) (p : protocols_e) : M unit :=
  r <- rep_of cid ;;
  set_rep cid (mk_crep (cr_size r) (cr_v r) (cr_rid r) (cr_rh_digest r) (cr_digest r) (cr_replica r) (cr_reply_size r) (cr_cid r)
    b p (cr_body r) (cr_seq r)).

(** [connectlist[listnum]]; 0 is no connection, and ends the process. *)
Definition connection (listnum : Z) : M Z :=
  l <- gets connectlist ;;
  c <- (if listnum <? 0 then fail OutOfBounds else of_option OutOfBounds (l !! Z.to_nat listnum)) ;;
  if c =? 0 then fail ExitCalled else ret c.

(** ** Panic and abort *)

Definition tuple_size : Z := 28.
Definition sizeof_abort_rep : Z := 68.
Definition C_Max_message_size : Z := 60000.

(** The tuples of the entries that still have a request, and the size of the
    message, doubled when a tuple does not fit before the signature. *)
Fixpoint abort_tuples (l : list (ReqHistory.Rh_entry C_Request)) (offset size : Z) : list AbortHistoryElement * Z :=
  match l with
  | [] => ([], size)
  | e :: l' =>
    match ReqHistory.req e with
    | None => abort_tuples l' offset size
    | Some r =>
      let size := if size - sig_size <? offset + tuple_size then size * 2 else size in
      let '(ts, size) := abort_tuples l' (offset + tuple_size) size in
      (AHE (cq_cid r) (cq_rid r) (cq_od r) :: ts, size)
    end
  end.

(** [C_Abort_certificate::add]: a duplicate of the abort held is accepted. *)
Definition ac_add (c : Smasher.Abort_certificate) (a : Smasher.zl_Abort) : option (Smasher.Abort_certificate * bool) :=
  if Smasher.a_id a <? 0 then None else
  e ← Smasher.ac c !! Z.to_nat (Smasher.a_id a);
  match e with
  | None => Smasher.ac_add c a
  | Some b => Some (c, (Smasher.a_id b =? Smasher.a_id a) && (abort_digest b =? abort_digest a) && (Smasher.a_rid b =? Smasher.a_rid a))
  end.

(** The length of the history is that of the array, with the entries skipped;
    [sign] needs room for the signature. *)
Definition broadcast_abort (out_rid : Z) : M unit :=
  me <- gets node_id ;;
  h <- gets rh ;;
  let '(ts, size) := abort_tuples (ReqHistory.rh h) sizeof_abort_rep C_Max_message_size in
  let old_size := sizeof_abort_rep + ReqHistory.size h * tuple_size in
  (if wrapu 32 (size - old_size) <? sig_size then fail ExitCalled else ret tt) ;;;
  assert_ (ALIGNED_SIZE (old_size + sig_size) <=? size) ;;;
  let a := Smasher.mk_abort me out_rid (length (ReqHistory.rh h)) (fun j => default (signature_entry me ts j) (ts !! j)) in
  emit (CM_abort a) ;;;
  ac <- gets aborts ;;
  r <- of_option AssertFailed (ac_add ac a) ;;
  modify (set_aborts r.1).

Definition handle_panic (m : zl_Panic) : M unit :=
  me <- gets node_id ;;
  st <- gets cur_state ;;
  (if bool_decide (st = replica_state_PANICKING) || bool_decide (st = replica_state_STOP) then ret tt
   else emit (CM_panic (mk_panic me (p_rid m))) ;;; modify (set_cur_state replica_state_PANICKING)) ;;;
  st <- gets cur_state ;;
  if negb (is_replica (p_cid m)) && bool_decide (st = replica_state_STOP) then ret tt
  else broadcast_abort (p_rid m).

(** ** Checkpoints *)

Definition checkpoint_verify (nid : Z) (c : zl_Checkpoint) : bool :=
  if negb (is_replica (c_id c)) then false
  else if c_id c =? nid then true
  else checkpoint_sig c.

Definition complete_checkpoint (should_panic : bool) (cset : CheckpointSet) : M unit :=
  modify (fun s => set_max_history_size (Z.max (ReqHistory.size (rh s)) (max_history_size s)) s) ;;;
  modify (fun s => set_rh (ReqHistory.truncate_history (rh s) (CheckpointSet.get_seqno cset)).1.1 s) ;;;
  modify (set_current_nb_requests_while_checkpointing 0) ;;;
  modify (set_checkpoint_in_progress false) ;;;
  modify (set_last_chkp_seqno (CheckpointSet.get_seqno cset)) ;;;
  modify (fun s => set_current_checkpoints (delete (CheckpointSet.get_seqno cset) (current_checkpoints s)) s) ;;;
  modify (fun s => set_ctimer (timer_start (timer_stop (ctimer s))) s) ;;;
  (if should_panic then me <- gets node_id ;; handle_panic (mk_panic me 0) else ret tt).

Definition handle_checkpoint (should_panic : bool) (c : zl_Checkpoint) : M unit :=
  me <- gets node_id ;;
  last <- gets last_chkp_seqno ;;
  if negb (checkpoint_verify me c) then ret tt
  else if c_seqno c <=? last then ret tt
  else
    lock_checkpointing ;;;
    cks <- gets current_checkpoints ;;
    let cset := default (CheckpointSet.create (Z.to_nat num_replicas) (2 * max_faulty + 1) (c_seqno c)) (cks !! c_seqno c) in
    modify (fun s => set_current_checkpoints (<[c_seqno c := cset]> (current_checkpoints s)) s) ;;;
    r <- of_option AssertFailed (CheckpointSet.add cset (c_id c) c) ;;
    if negb r.2 then unlock_checkpointing
    else
      modify (fun s => set_current_checkpoints (<[c_seqno c := r.1]> (current_checkpoints s)) s) ;;;
      (if CheckpointSet.is_complete r.1 then complete_checkpoint should_panic r.1 else ret tt) ;;;
      unlock_checkpointing.

Definition handle_client_notification (m : zl_Client_notification) : M unit :=
  lock_checkpointing ;;;
  modify (fun s => set_ctimer (timer_restart (ctimer s)) s) ;;;
  (if n_op m =? 0 then emit (CM_notif true) else if n_op m =? 1 then emit (CM_notif false) else ret tt) ;;;
  unlock_checkpointing.

(** ** Requests *)

Definition is_old (req : C_Request) : M bool := last <- req_id (cq_cid req) ;; ret (cq_rid req <? last).
Definition is_seen (req : C_Request) : M bool := last <- req_id (cq_cid req) ;; ret (cq_rid req <=? last).

Definition execute_request (req : C_Request) : M unit :=
  sq <- gets seqno ;;
  new_reply (cq_cid req) sq ;;;
  sv <- gets service ;;
  let '(sv', out) := exec_command sv (cq_cid req) (cq_command req) in
  modify (set_service sv') ;;;
  emit (C_Executed req) ;;;
  modify (set_last_seqno sq) ;;;
  modify (fun s => set_robust_messages_queue (robust_messages_queue s ++ [C_Request_msg req]) s) ;;;
  end_reply (cq_cid req) (cq_rid req) out.

(** A parked request: the head keeps them in order of arrival, the others in a
    [std::map] by sequence number that keeps the first. *)
Fixpoint map_insert (q : Z) (r : C_Request) (l : list (Z * C_Request)) : list (Z * C_Request) :=
  match l with
  | [] => [(q, r)]
  | (q', r') :: l' => if q <? q' then (q, r) :: l else if q =? q' then l else (q', r') :: map_insert q r l'
  end.

Definition park (req : C_Request) : M unit :=
  me <- gets node_id ;;
  if me =? 0 then modify (fun s => set_primary_pending_requests (primary_pending_requests s ++ [req]) s)
  else modify (fun s => set_pending_requests (map_insert (cq_seqno req) req (pending_requests s)) s).

(** The admission under [checkpointing_mutex]; [false] parks the request.
    [drain] handles the parked requests when no checkpoint is in progress. *)
Definition admit_ (drain : M unit) (req : C_Request) : M bool :=
  lock_checkpointing ;;;
  inprog <- gets checkpoint_in_progress ;;
  k <- gets current_nb_requests_while_checkpointing ;;
  if inprog : bool then
    if k <? ReqHistory.MAX_NB_REQS_CHKPT then
      modify (set_current_nb_requests_while_checkpointing (k + 1)) ;;; unlock_checkpointing ;;; ret true
    else park req ;;; unlock_checkpointing ;;; ret false
  else drain ;;; unlock_checkpointing ;;; ret true.

(** The role of the node: the request to forward, or [None] to drop it. *)
Definition process_request (req : C_Request) : M (option C_Request) :=
  me <- gets node_id ;;
  seen <- is_seen req ;;
  if me =? 0 then
    if negb seen then
      modify (fun s => set_seqno (seqno s + 1) s) ;;;
      sq <- gets seqno ;;
      let req := with_seqno sq req in
      execute_request req ;;; ret (Some req)
    else
      old <- is_old req ;;
      if old : bool then ret None
      else sq <- sent_seqno (cq_cid req) ;; ret (Some (with_seqno sq req))
  else
    if negb seen then
      last <- gets last_seqno ;;
      if negb (cq_seqno req =? last + 1) then ret None
      else modify (set_seqno (last + 1)) ;;; execute_request req ;;; ret (Some req)
    else ret (Some req).

(** Forwarding, or the reply by the last replica. *)
Definition forward_or_reply (req : C_Request) : M unit :=
  me <- gets node_id ;;
  if me <? num_replicas - 1 then emit (Forward req)
  else
    socket <- connection (cq_listnum req) ;;
    st <- gets cur_state ;;
    (if bool_decide (st = replica_state_STOP) then set_switch (cq_cid req) true next_instance_id else ret tt) ;;;
    modify (fun s => set_nb_sent_replies (nb_sent_replies s + 1) s) ;;;
    send_reply (cq_cid req) socket req ;;;
    (if bool_decide (st = replica_state_STOP) then set_switch (cq_cid req) false instance_id else ret tt).

Definition handle_request_ (drain : M unit) (req : C_Request) : M unit :=
  me <- gets node_id ;;
  st <- gets cur_state ;;
  if bool_decide (st = replica_state_STOP) then
    if me <? num_replicas - 1 then emit (Forward req)
    else
      socket <- connection (cq_listnum req) ;;
      set_switch (cq_cid req) true next_instance_id ;;;
      send_reply (cq_cid req) socket req ;;;
      set_switch (cq_cid req) false instance_id
  else if negb (bool_decide (st = replica_state_NORMAL)) then ret tt
  else
    ok <- admit_ drain req ;;
    if negb ok then ret tt
    else
      modify (fun s => set_ctimer (timer_restart (ctimer s)) s) ;;;
      modify (fun s => set_ftimer (timer_restart (ftimer s)) s) ;;;
      emit (CM_req (cq_cid req) (cq_rid req)) ;;;
      modify (fun s => set_req_count_switch (req_count_switch s + 1) s) ;;;
      if Z.odd (cq_extra req) then ret tt
      else
        v <- of_option OutOfBounds (ChainAuth.verify UMAC max_faulty num_replicas num_principals MD5_request me req) ;;
        let '(ok, req, offset) := v in
        if negb ok then ret tt
        else
          o <- process_request req ;;
          match o with
          | None => ret tt
          | Some req =>
            rr <- rep_of (cq_cid req) ;;
            modify (fun s => set_umac_nonce (umac_nonce s + 1) s) ;;;
            u <- gets umac_nonce ;;
            req <- of_option OutOfBounds (ChainAuth.authenticate UMAC max_faulty num_replicas me me offset u (Some (reply_hdr rr)) req) ;;
            forward_or_reply req
          end.

(** [handle(r, true)] for each parked request, then the list is cleared. *)
Fixpoint handle_each (l : list C_Request) : M unit :=
  match l with
  | [] => ret tt
  | r :: l' => handle_request_ (ret tt) r ;;; handle_each l'
  end.

Definition drain_pending : M unit :=
  me <- gets node_id ;;
  if me =? 0 then
    l <- gets primary_pending_requests ;; handle_each l ;;; modify (set_primary_pending_requests [])
  else
    l <- gets pending_requests ;; handle_each l.*2 ;;; modify (set_pending_requests []).

Definition handle_request (req : C_Request) : M unit := handle_request_ drain_pending req.

(** ** Aborts and the switch *)

Definition enable_replica (b : bool) : M unit :=
  st <- gets cur_state ;;
  if bool_decide (st = replica_state_NORMAL) || bool_decide (st = replica_state_STOP) then
    if b then
      (if bool_decide (st = replica_state_NORMAL) then ret tt
       else
         modify (set_rh ReqHistory.empty) ;;;
         lock_checkpointing ;;;
         modify (fun s => set_current_checkpoints ∅ (set_primary_pending_requests [] (set_pending_requests [] s))) ;;;
         modify (fun s => set_rh (ReqHistory.truncate_history (rh s) (ReqHistory.get_top_seqno (rh s))).1.1 s) ;;;
         modify (fun s => set_ctimer (timer_stop (ctimer s)) (set_ftimer (timer_stop (ftimer s)) (set_checkpoint_in_progress false s))) ;;;
         unlock_checkpointing ;;;
         modify (fun s => set_seqno 0 (set_last_seqno 0 (set_req_count_switch 0 s)))) ;;;
      modify (set_cur_state replica_state_NORMAL) ;;;
      emit (CM_switch instance_id)
    else
      modify (set_cur_state replica_state_STOP) ;;;
      lock_checkpointing ;;;
      modify (fun s => set_ctimer (timer_stop (ctimer s)) (set_ftimer (timer_stop (ftimer s)) (set_checkpoint_in_progress false s))) ;;;
      unlock_checkpointing
  else ret tt.

(** [great_switcher->switch_state]. *)
Definition switch_state (p : protocols_e) (b : bool) : M unit :=
  match p with
  | chain => enable_replica b
  | _ => emit (C_Switch_other p b)
  end.

Abbreviation entry := (ReqHistory.Rh_entry C_Request).

(** [add_request(req, seq, req->digest())]: the digest of the request is the
    reference through which the digest of the history is returned. *)
Definition log_request (h : ReqHistory.t C_Request) (req : C_Request) (sq : Z) : option (ReqHistory.t C_Request) :=
  '(h', d) ← ReqHistory.add_request modulus MD5_sum h req sq;
  Some (ReqHistory.mk (ReqHistory.rh h ++ [ReqHistory.mk_entry (Some (with_od d req)) sq d]) (ReqHistory.rh_d h')).

Definition stop_and_switch (newrh : ReqHistory.t C_Request) : M unit :=
  modify (set_missing_store []) ;;; modify (set_missing_store_seq []) ;;;
  modify (set_missing_mask []) ;;; modify (set_num_missing 0) ;;;
  modify (set_rh newrh) ;;;
  modify (set_seqno (ReqHistory.get_top_seqno newrh + 1)) ;;;
  modify (set_missing None) ;;;
  modify (set_cur_state replica_state_STOP) ;;;
  switch_state instance_id false ;;;
  switch_state next_instance_id true.

Definition handle_abort (m : Smasher.zl_Abort) : M unit :=
  st <- gets cur_state ;;
  if negb (bool_decide (st = replica_state_PANICKING)) then ret tt
  else if negb (abort_verify m) then ret tt
  else
    ac <- gets aborts ;;
    r <- of_option AssertFailed (ac_add ac m) ;;
    if negb r.2 then ret tt
    else
      modify (set_aborts r.1) ;;;
      if negb (Smasher.ac_is_complete r.1) then ret tt
      else
        me <- gets node_id ;;
        let l := Smasher.ac r.1 in
        p <- of_option AssertFailed (Smasher.process (Smasher.max_hist_size l) max_faulty l (Z.to_nat me)) ;;
        let '(ah2, mis) := p in
        modify (set_ah_2 (Some ah2)) ;;; modify (set_missing (Some mis)) ;;;
        modify (set_missing_mask (replicate (length mis) true)) ;;;
        modify (set_missing_store (replicate (length mis) None)) ;;;
        modify (set_missing_store_seq (replicate (length mis) 0)) ;;;
        modify (set_num_missing (Z.of_nat (length mis))) ;;;
        modify (set_aborts (Smasher.ac_clear r.1)) ;;;
        if (length mis =? 0)%nat then
          h <- gets rh ;;
          newrh <- of_sum (Recover.rebuild with_od modulus MD5_sum true false ah2 h [] []) ;;
          stop_and_switch newrh
        else
          emit (CM_missing (mk_missing me ((fun a => (cid a, rid a)) <$> mis))) ;;;
          modify (set_cur_state replica_state_MISWAITING).

(** The constructor of [C_Get_a_grip] copies the request, and [set_size] asserts
    that it fits. *)
Definition sizeof_gag_rep : Z := 32.
Definition gag_fits (q : C_Request) : bool := ALIGNED_SIZE (sizeof_gag_rep + cq_size q) <=? C_Max_message_size.

Fixpoint answer_missing (dest : Z) (l : list (Z * Z)) : M unit :=
  match l with
  | [] => ret tt
  | (c, r) :: l' =>
    h <- gets rh ;;
    me <- gets node_id ;;
    (match ReqHistory.find h c r with
     | Some e => q <- of_option NullDeref (ReqHistory.req e) ;;
                 assert_ (gag_fits q) ;;;
                 emit (CM_gag dest (mk_cgag c r me (ReqHistory.seq e) q))
     | None => ret tt
     end) ;;;
    answer_missing dest l'
  end.

Definition handle_missing (m : zl_Missing) : M unit := answer_missing (m_replica m) (m_list m).

(** The first missing, still masked element the message provides. *)
Fixpoint match_missing (mis : list AbortHistoryElement) (mask : list bool) (i : nat) (g : C_Get_a_grip) : option nat :=
  match mis, mask with
  | a :: mis', b :: mask' =>
    if b && (cid a =? cg_cid g) && (rid a =? cg_rid g) && (d a =? cq_od (cg_request g))
    then Some i else match_missing mis' mask' (Datatypes.S i) g
  | _, _ => None
  end.

Definition handle_get_a_grip (m : C_Get_a_grip) : M unit :=
  st <- gets cur_state ;;
  if negb (bool_decide (st = replica_state_MISWAITING)) then ret tt
  else
    mi <- gets missing ;;
    mis <- of_option NullDeref mi ;;
    mask <- gets missing_mask ;;
    match match_missing mis mask 0 m with
    | None => ret tt
    | Some i =>
      modify (fun s => set_missing_mask (<[i := false]> (missing_mask s)) s) ;;;
      modify (fun s => set_missing_store (<[i := Some (cg_request m)]> (missing_store s)) s) ;;;
      modify (fun s => set_missing_store_seq (<[i := cg_seqno m]> (missing_store_seq s)) s) ;;;
      modify (fun s => set_num_missing (num_missing s - 1) s) ;;;
      k <- gets num_missing ;;
      if k =? 0 then
        ah <- gets ah_2 ;;
        ah2 <- of_option NullDeref ah ;;
        h <- gets rh ;;
        store <- gets missing_store ;;
        sq <- gets missing_store_seq ;;
        newrh <- of_sum (Recover.rebuild with_od modulus MD5_sum true false ah2 h store sq) ;;
        stop_and_switch newrh
      else ret tt
    end.

(** ** Dispatch, threads and timers *)

Definition handle (should_panic : bool) (msg : C_Message) : M unit :=
  match msg with
  | C_Request_msg m => handle_request m
  | C_Checkpoint_msg m => handle_checkpoint should_panic m
  | C_Panic_msg m => handle_panic m
  | C_Abort_msg m => handle_abort m
  | C_Missing_msg m => handle_missing m
  | C_Get_a_grip_msg m => handle_get_a_grip m
  | C_Client_notification_msg m => handle_client_notification m
  | C_Unknown_msg => ret tt
  end.

(** An executed request is logged, and a checkpoint taken when it is due. *)
Definition log_executed (should_panic : bool) (req : C_Request) : M unit :=
  st <- gets cur_state ;;
  if negb (bool_decide (st = replica_state_NORMAL)) then ret tt
  else
    h <- gets rh ;;
    h <- of_option AssertFailed (log_request h req (cq_seqno req)) ;;
    modify (set_rh h) ;;;
    if ReqHistory.should_checkpoint h then
      last <- gets last_chkp_seqno ;;
      if ReqHistory.get_top_seqno h <=? last then modify (set_rh (ReqHistory.truncate_history h last).1.1)
      else
        me <- gets node_id ;;
        let chkp := mk_checkpoint me (ReqHistory.get_top_seqno h) (ReqHistory.rh_digest MD5_sum h) in
        lock_checkpointing ;;; modify (set_checkpoint_in_progress true) ;;; unlock_checkpointing ;;;
        emit (CM_checkpoint chkp) ;;;
        handle_checkpoint should_panic chkp
    else ret tt.

(** One turn of [robust_handler]; it waits while the queue is empty. *)
Definition robust_handler (should_panic : bool) : M unit :=
  q <- gets robust_messages_queue ;;
  match q with
  | [] => ret tt
  | m :: q' =>
    modify (set_robust_messages_queue q') ;;;
    match m with
    | C_Request_msg req => log_executed should_panic req
    | _ => handle should_panic m
    end
  end.

(** [handle_robust_monitor_message]. *)
Definition enqueue_robust (m : C_Message) : M unit :=
  modify (fun s => set_robust_messages_queue (robust_messages_queue s ++ [m]) s).

Definition no_checkpoint_timeout : M unit :=
  modify (fun s => set_ctimer (timer_stop (ctimer s)) s) ;;;
  st <- gets cur_state ;;
  if negb (bool_decide (st = replica_state_NORMAL)) then ret tt
  else
    lock_checkpointing ;;; unlock_checkpointing ;;;
    me <- gets node_id ;; handle_panic (mk_panic me 0).

Definition no_request_timeout (not_enough_requests : bool) : M unit :=
  modify (fun s => set_ftimer (timer_stop (ftimer s)) s) ;;;
  st <- gets cur_state ;;
  (if bool_decide (st = replica_state_NORMAL) && not_enough_requests
   then me <- gets node_id ;; handle_panic (mk_panic me 0) else ret tt) ;;;
  modify (fun s => set_ftimer (timer_start (ftimer s)) s).

(** A connection from the principal of address [listnum]. *)
Definition handle_new_connection (listnum connection : Z) : M unit :=
  if (0 <=? listnum) && (listnum <? num_principals) then
    l <- gets connectlist ;;
    if listnum <? Z.of_nat (length l) then modify (set_connectlist (<[Z.to_nat listnum := connection]> l)) else fail OutOfBounds
  else ret tt.

Definition MAX_CONNECTIONS : nat := 1000.

(** The state the constructor leaves; [junk] is the initial [seq_num] of the
    replies, which is not initialised. *)
Definition initial (nid junk : Z) (sv : S) : state :=
  mk_state nid 0 0 0 (replicate (Z.to_nat num_principals) (rep_initial junk)) 0 0 ReqHistory.empty false 0 ∅ [] [] 0 false
    replica_state_NORMAL (Smasher.ac_create (3 * max_faulty + 1) (Z.to_nat (3 * max_faulty + 1))) None None 0 [] [] [] []
    stopped stopped (replicate MAX_CONNECTIONS 0) 0 sv.

(** The events of a replica: a message from the chain or a client, one from the
    monitor, a turn of the robust thread, a timer, a connection, the switcher. *)
Inductive event :=
| Deliver (should_panic : bool) (m : C_Message)
| Monitor (m : C_Message)
| Robust (should_panic : bool)
| Checkpoint_timer
| Request_timer (not_enough_requests : bool)
| Connect (listnum connection : Z)
| Switch (b : bool).

Definition run_event (ev : event) : M unit :=
  match ev with
  | Deliver sp m => handle sp m
  | Monitor m => enqueue_robust m
  | Robust sp => robust_handler sp
  | Checkpoint_timer =>
    t <- gets ctimer ;;
    match t with running => modify (set_ctimer expired) ;;; no_checkpoint_timeout | _ => ret tt end
  | Request_timer b =>
    t <- gets ftimer ;;
    match t with running => modify (set_ftimer expired) ;;; no_request_timeout b | _ => ret tt end
  | Connect i c => handle_new_connection i c
  | Switch b => enable_replica b
  end.

(** ** What an event leaves alone *)

Definition executed (o : list C_output) : list C_Request := omap (fun x => match x with C_Executed r => Some r | _ => None end) o.
Definition forwards (o : list C_output) : list C_Request := omap (fun x => match x with Forward r => Some r | _ => None end) o.
Definition answers (o : list C_output) : list C_Reply := omap (fun x => match x with Reply_client _ r _ => Some r | _ => None end) o.

(** The part of a replica that decides what is executed and answered: the
    numbers, the identifier, number and bytes of the reply to each client, and
    the service. *)
Definition slot (r : C_Reply) : Z * Z * list Z := (cr_rid r, cr_seq r, cr_body r).
Record core := mk_core { k_id : Z; k_seqno : Z; k_last : Z; k_slots : list (Z * Z * list Z); k_service : S }.
Definition core_of (s : state) : core := mk_core (node_id s) (seqno s) (last_seqno s) (slot <$> replies s) (service s).

Definition calm (s : state) : Prop := cur_state s = replica_state_NORMAL \/ cur_state s = replica_state_PANICKING.
Definition silent (o : list C_output) : Prop := executed o = [] /\ forwards o = [] /\ answers o = [].
Definition keeps (s s' : state) (o : list C_output) : Prop := core_of s' = core_of s /\ calm s' /\ silent o.
Definition quiet {A} (m : M A) : Prop := forall s, calm s -> wlp m (fun _ s' o => keeps s s' o) s.

Lemma silent_app o1 o2 : silent o1 -> silent o2 -> silent (o1 ++ o2).
Proof.
  unfold silent, executed, forwards, answers. rewrite !omap_app. intros (-> & -> & ->) (-> & -> & ->). done.
Qed.

Lemma keeps_refl s : calm s -> keeps s s [].
Proof. done. Qed.

Lemma keeps_trans s1 s2 s3 o1 o2 : keeps s1 s2 o1 -> keeps s2 s3 o2 -> keeps s1 s3 (o1 ++ o2).
Proof. intros (E1 & C1 & S1) (E2 & C2 & S2). split; [by rewrite E2|]. split; [done|by apply silent_app]. Qed.

Lemma quiet_bind {A B} (m : M A) (k : A -> M B) : quiet m -> (forall a, quiet (k a)) -> quiet (x <- m ;; k x).
Proof.
  intros Hm Hk s Hs. apply wlp_bind. eapply wlp_mono; [by apply Hm|]. intros a s1 o1 H1.
  eapply wlp_mono; [apply Hk; by destruct H1 as (_ & ? & _)|]. intros ? ? ? H2. exact (keeps_trans _ _ _ _ _ H1 H2).
Qed.

Lemma quiet_ret {A} (a : A) : quiet (ret a).
Proof. intros s Hs. by apply wlp_ret. Qed.

Lemma quiet_gets {A} (f : state -> A) : quiet (gets f).
Proof. intros s Hs. by apply wlp_gets. Qed.

Lemma quiet_modify f : (forall s, core_of (f s) = core_of s) -> (forall s, calm s -> calm (f s)) -> quiet (modify f).
Proof. intros Hf Hc s Hs. apply wlp_modify. split; [apply Hf|]. split; [by apply Hc|done]. Qed.

Lemma quiet_emit x : silent [x] -> quiet (emit x).
Proof. intros Hx s Hs. by apply wlp_emit. Qed.

Lemma quiet_fail {A} e : quiet (A := A) (fail e).
Proof. intros s Hs. done. Qed.

Lemma quiet_of_option {A} e (o : option A) : quiet (of_option e o).
Proof. destruct o; [apply quiet_ret|apply quiet_fail]. Qed.

Lemma quiet_assert b : quiet (assert_ b).
Proof. destruct b; [apply quiet_ret|apply quiet_fail]. Qed.

(** The steps of a handler that does not execute requests. *)
Ltac quiet_step :=
  lazymatch goal with
  | |- quiet (bind _ _) => apply quiet_bind; [|intros ?]
  | |- quiet (gets _) => apply quiet_gets
  | |- quiet (ret _) => apply quiet_ret
  | |- quiet (emit _) => apply quiet_emit; done
  | |- quiet (fail _) => apply quiet_fail
  | |- quiet (of_option _ _) => apply quiet_of_option
  | |- quiet (assert_ _) => apply quiet_assert
  | |- quiet (modify _) => apply quiet_modify; [by intros []|by intros []; (done || by (right))]
  | |- quiet (if ?b then _ else _) => destruct b
  | |- quiet (let '(_, _) := ?p in _) => destruct p
  | |- quiet (match ?o with Some _ => _ | None => _ end) => destruct o as [?|]
  | |- quiet lock_checkpointing => unfold lock_checkpointing
  | |- quiet unlock_checkpointing => unfold unlock_checkpointing
  end; cbv beta zeta.
Ltac quiet_steps := cbv zeta; repeat quiet_step.

Lemma panic_quiet m : quiet (handle_panic m).
Proof. unfold handle_panic, broadcast_abort. quiet_steps. Qed.

Lemma checkpoint_quiet sp c : quiet (handle_checkpoint sp c).
Proof. unfold handle_checkpoint, complete_checkpoint. quiet_steps; apply panic_quiet. Qed.

Lemma notification_quiet m : quiet (handle_client_notification m).
Proof. unfold handle_client_notification. quiet_steps. Qed.

Lemma missing_quiet m : quiet (handle_missing m).
Proof.
  unfold handle_missing. generalize (m_replica m) as dest. intros dest. induction (m_list m) as [|[c r] l IH]; cbn [answer_missing]; [apply quiet_ret|].
  quiet_steps; apply IH.
Qed.

Lemma grip_quiet m : quiet (handle_get_a_grip m).
Proof.
  intros s Hs. unfold handle_get_a_grip. wlp_steps. rewrite bool_decide_false by (by destruct Hs as [-> | ->]).
  by apply wlp_ret.
Qed.

Lemma log_quiet sp req : quiet (log_executed sp req).
Proof. unfold log_executed. quiet_steps; apply checkpoint_quiet. Qed.

(** Requests that are refused before they are looked at. *)
Lemma park_quiet req : quiet (park req).
Proof. unfold park. quiet_steps. Qed.

(** ** What a request does *)

Definition body_of (r : C_Request) : C_Request := with_auth [] r.

(** The request [m] executed under number [q]. *)
Definition core_exec (q : Z) (m : C_Request) (c : core) : core :=
  let r := exec_command (k_service c) (cq_cid m) (cq_command m) in
  mk_core (k_id c) q q (<[Z.to_nat (cq_cid m) := (cq_rid m, q, r.2)]> (k_slots c)) r.1.

(** The request goes to the successor, or the last replica answers with the
    reply it holds for the client. *)
Definition passed_on (c : core) (req : C_Request) (o : list C_output) : Prop :=
  if k_id c <? num_replicas - 1
  then answers o = [] /\ exists r, forwards o = [r] /\ body_of r = body_of req
  else forwards o = [] /\ exists rep, answers o = [rep] /\ k_slots c !! Z.to_nat (cq_cid req) = Some (slot rep).

Inductive request_effect (m : C_Request) (c c' : core) (o : list C_output) : Prop :=
| Req_dropped : c' = c -> silent o -> request_effect m c c' o
| Req_executed q sl req :
    0 <= cq_cid m -> k_slots c !! Z.to_nat (cq_cid m) = Some sl -> sl.1.1 < cq_rid m ->
    q = (if k_id c =? 0 then k_seqno c else k_last c) + 1 -> (k_id c <> 0 -> cq_seqno m = q) ->
    c' = core_exec q m c -> executed o = [req] -> body_of req = body_of (with_seqno q m) ->
    passed_on c' (with_seqno q m) o -> request_effect m c c' o
| Req_repeated q sl :
    0 <= cq_cid m -> k_slots c !! Z.to_nat (cq_cid m) = Some sl -> cq_rid m <= sl.1.1 ->
    (k_id c = 0 -> cq_rid m = sl.1.1 /\ q = sl.1.2) -> (k_id c <> 0 -> q = cq_seqno m) ->
    c' = c -> executed o = [] -> passed_on c (with_seqno q m) o -> request_effect m c c' o.

Lemma wlp_chain_rep c (Q : C_Reply -> state -> list C_output -> Prop) s :
  (forall r, 0 <= c -> replies s !! Z.to_nat c = Some r -> Q r s []) -> wlp (rep_of c) Q s.
Proof.
  intros H. unfold rep_of. wlp_steps. case_bool; [done|]. apply wlp_of_option. intros r Hr. bsimp. by apply H.
Qed.

Lemma slots_set (l : list C_Reply) (c : nat) r r0 : l !! c = Some r0 -> slot r = slot r0 -> slot <$> <[c := r]> l = slot <$> l.
Proof. intros Hl E. rewrite list_fmap_insert, E. apply list_insert_id. by rewrite list_lookup_fmap, Hl. Qed.

(** A change of the record that keeps the slot. *)
Lemma core_set_replies s c r r0 : replies s !! c = Some r0 -> slot r = slot r0 -> core_of (set_replies (<[c := r]> (replies s)) s) = core_of s.
Proof. intros Hl E. unfold core_of. cbn. by rewrite (slots_set _ _ _ _ Hl E). Qed.

Definition still (s s' : state) : Prop := core_of s' = core_of s /\ cur_state s' = cur_state s.

Lemma send_reply_wlp c socket req s : wlp (send_reply c socket req)
  (fun _ s' o => still s s' /\ executed o = [] /\ forwards o = [] /\
     exists rep, answers o = [rep] /\ k_slots (core_of s) !! Z.to_nat c = Some (slot rep)) s.
Proof.
  unfold send_reply, set_rep. wlp_step. apply wlp_chain_rep. intros r Hc Hr. wlp_step. apply wlp_modify. wlp_step. apply wlp_assert. intros _.
  wlp_step. apply wlp_assert. intros _. wlp_step. apply wlp_of_option. intros macs _. apply wlp_emit. cbn [app]. split.
  - split; [|done]. by eapply core_set_replies.
  - do 2 (split; [done|]). eexists. split; [done|]. cbn. by rewrite list_lookup_fmap, Hr.
Qed.

Lemma connection_wlp i s : wlp (connection i) (fun _ s' o => s' = s /\ o = []) s.
Proof.
  unfold connection. wlp_steps. case_bool; [done|]. apply wlp_of_option. intros x _. case_bool; [done|]. by apply wlp_ret.
Qed.

Lemma forward_or_reply_wlp req s : cur_state s = replica_state_NORMAL -> wlp (forward_or_reply req)
  (fun _ s' o => still s s' /\ executed o = [] /\ passed_on (core_of s) req o) s.
Proof.
  intros Hn. unfold forward_or_reply, passed_on. cbn [core_of k_id]. wlp_steps. case_bool.
  - apply wlp_emit. split; [done|]. split; [done|]. split; [done|]. by exists req.
  - wlp_step. eapply wlp_mono; [apply connection_wlp|]. intros sk s1 o1 [-> ->]. wlp_steps. rewrite bool_decide_false by (by rewrite Hn). wlp_steps.
    eapply wlp_mono; [apply send_reply_wlp|]. intros _ s2 o2 ([E1 E2] & He & Hf & rep & Ha & Hs). wlp_step. rewrite app_nil_r. cbn [app].
    split; [by split|]. split; [done|]. split; [done|]. by exists rep.
Qed.

Lemma execute_request_wlp req s : wlp (execute_request req)
  (fun _ s' o => 0 <= cq_cid req /\ (exists sl, k_slots (core_of s) !! Z.to_nat (cq_cid req) = Some sl) /\
     core_of s' = core_exec (seqno s) req (core_of s) /\ cur_state s' = cur_state s /\ o = [C_Executed req]) s.
Proof.
  unfold execute_request, new_reply, end_reply, set_rep. wlp_steps. apply wlp_chain_rep. intros r Hc Hr. wlp_step. wlp_steps.
  unfold core_exec. cbn [core_of k_service service set_replies].
  destruct (exec_command _ _ _) as [sv out] eqn:Hx. wlp_steps. apply wlp_chain_rep. cbn. intros r2 _ Hr2. wlp_step. apply wlp_assert. intros _. wlp_steps.
  split; [done|]. split; [by eexists; rewrite list_lookup_fmap, Hr|].
  rewrite list_lookup_insert_eq in Hr2 by (by eapply lookup_lt_Some). simplify_eq. split; [|done].
  unfold core_of. cbn. rewrite list_insert_insert_eq, list_fmap_insert. done.
Qed.

Lemma is_seen_wlp req s (Q : bool -> state -> list C_output -> Prop) :
  (forall sl, 0 <= cq_cid req -> k_slots (core_of s) !! Z.to_nat (cq_cid req) = Some sl -> Q (cq_rid req <=? sl.1.1) s []) ->
  wlp (is_seen req) Q s.
Proof.
  intros H. unfold is_seen, req_id. wlp_steps. apply wlp_chain_rep. intros r Hc Hr. wlp_steps. cbn [app]. apply (H (slot r) Hc).
  cbn. by rewrite list_lookup_fmap, Hr.
Qed.

(** Executed, or seen before and passed on with the number it had. *)
Definition processed (m : C_Request) (s : state) (r : option C_Request) (s' : state) (o : list C_output) : Prop :=
  match r with
  | None => still s s' /\ o = []
  | Some req => cur_state s' = cur_state s /\ 0 <= cq_cid m /\ exists q sl,
    req = with_seqno q m /\ k_slots (core_of s) !! Z.to_nat (cq_cid m) = Some sl /\
    ((sl.1.1 < cq_rid m /\ q = (if node_id s =? 0 then seqno s else last_seqno s) + 1 /\ (node_id s <> 0 -> cq_seqno m = q) /\
      core_of s' = core_exec q m (core_of s) /\ o = [C_Executed req]) \/
     (cq_rid m <= sl.1.1 /\ (node_id s = 0 -> cq_rid m = sl.1.1 /\ q = sl.1.2) /\ (node_id s <> 0 -> q = cq_seqno m) /\
      core_of s' = core_of s /\ o = []))
  end.

Lemma with_seqno_own m : with_seqno (cq_seqno m) m = m.
Proof. by destruct m. Qed.

Lemma process_request_wlp m s : wlp (process_request m) (processed m s) s.
Proof.
  unfold process_request. wlp_steps. apply is_seen_wlp. intros sl Hc Hsl. case_bool; case_bool.
  - wlp_steps. eapply wlp_mono; [apply execute_request_wlp|]. intros _ s2 o2 (_ & _ & E & Ec & ->). wlp_step.
    split; [done|]. split; [done|]. exists (seqno s + 1), sl. split; [done|]. split; [done|]. left. rewrite Heqb. bsimp. repeat split; (done || lia).
  - unfold is_old, req_id. wlp_steps. apply wlp_chain_rep. intros r _ Hr. wlp_steps.
    assert (slot r = sl) as <- by (cbn in Hsl; rewrite list_lookup_fmap, Hr in Hsl; by injection Hsl). case_bool; [by apply wlp_ret; repeat split|].
    unfold sent_seqno. wlp_steps. apply wlp_chain_rep. intros r' _ Hr'. simplify_eq. wlp_steps. split; [done|]. split; [done|].
    exists (cr_seq r), (slot r). split; [done|]. split; [done|]. right. bsimp. repeat split; (done || lia).
  - wlp_steps. case_bool; [by apply wlp_ret; repeat split|]. wlp_steps. eapply wlp_mono; [apply execute_request_wlp|]. intros _ s2 o2 (_ & _ & E & Ec & ->). wlp_step.
    split; [done|]. split; [done|]. exists (last_seqno s + 1), sl. bsimp. split; [rewrite <- Heqb1; by rewrite with_seqno_own|]. split; [done|]. left.
    rewrite (proj2 (Z.eqb_neq _ _)) by done. repeat split; (done || lia).
  - apply wlp_ret. split; [done|]. split; [done|]. exists (cq_seqno m), sl. rewrite with_seqno_own. split; [done|]. split; [done|]. right. bsimp.
    repeat split; (done || lia).
Qed.

(** The thread holds [checkpointing_mutex] while it handles parked requests. *)
Lemma locked_request drain r s : cur_state s = replica_state_NORMAL -> checkpointing_mutex s = true ->
  handle_request_ drain r s = Fault Deadlock.
Proof.
  intros Hn Hm. unfold handle_request_, admit_, lock_checkpointing, bind, gets. rewrite Hn, bool_decide_false, bool_decide_true by done. cbn. by rewrite Hm.
Qed.

(** The requests that wait at a node. *)
Definition parked (s : state) : list C_Request :=
  if node_id s =? 0 then primary_pending_requests s else (pending_requests s).*2.

Lemma drain_pending_eq s : cur_state s = replica_state_NORMAL -> checkpointing_mutex s = true ->
  drain_pending s = match parked s with
    | [] => Done tt (if node_id s =? 0 then set_primary_pending_requests [] s else set_pending_requests [] s) []
    | _ => Fault Deadlock
    end.
Proof.
  intros Hn Hm. unfold drain_pending, parked, bind at 1, gets at 1. cbn. destruct (node_id s =? 0).
  - unfold bind at 1, gets. destruct (primary_pending_requests s) as [|r l]; [done|]. cbn [handle_each]. unfold bind. by rewrite locked_request.
  - unfold bind at 1, gets. destruct (pending_requests s).*2 as [|r l]; [done|]. cbn [handle_each]. unfold bind. by rewrite locked_request.
Qed.

Lemma drain_wlp s : cur_state s = replica_state_NORMAL -> checkpointing_mutex s = true ->
  wlp drain_pending (fun _ s' o => still s s' /\ o = []) s.
Proof.
  intros Hn Hm. unfold wlp. rewrite drain_pending_eq by done. destruct (parked s); [|done]. destruct (node_id s =? 0); repeat split.
Qed.

Lemma admit_wlp req s : cur_state s = replica_state_NORMAL -> wlp (admit_ drain_pending req) (fun _ s' o => still s s' /\ o = []) s.
Proof.
  intros Hn. unfold admit_, lock_checkpointing, unlock_checkpointing. wlp_steps. destruct (checkpointing_mutex s); [done|]. wlp_steps. case_bool.
  - case_bool; wlp_steps; [by repeat split|]. unfold park. wlp_steps. case_bool; wlp_steps; by repeat split.
  - wlp_step. eapply wlp_mono; [by apply drain_wlp|]. intros _ s1 o1 [[E1 E2] ->]. wlp_steps. split; [|done]. split; [|exact E2].
    transitivity (core_of s1); [done|]. by rewrite E1.
Qed.

Lemma verify_body me m r o : ChainAuth.verify UMAC max_faulty num_replicas num_principals MD5_request me m = Some (true, r, o) ->
  exists a, r = with_auth a m.
Proof.
  unfold ChainAuth.verify. destruct (negb _); [done|]. intros ([[k a] o1] & _ & H)%bind_Some. destruct k; [|done]. cbn [negb] in H.
  apply bind_Some in H as ([[k a2] o2] & _ & H). destruct k; [|done]. cbn [negb] in H. simplify_eq. by eexists.
Qed.

Lemma authenticate_body me id off u rr m r : ChainAuth.authenticate UMAC max_faulty num_replicas me id off u rr m = Some r -> body_of r = body_of m.
Proof. unfold ChainAuth.authenticate. by intros (a & _ & [= <-])%bind_Some. Qed.

Lemma chain_executed_app o1 o2 : executed (o1 ++ o2) = executed o1 ++ executed o2.
Proof. apply omap_app. Qed.

Lemma passed_on_app c req o1 o2 : forwards o1 = [] -> answers o1 = [] -> passed_on c req o2 -> passed_on c req (o1 ++ o2).
Proof. unfold passed_on, forwards, answers. rewrite !omap_app. by intros -> ->. Qed.

Lemma passed_on_body c r r' o : body_of r = body_of r' -> passed_on c r o -> passed_on c r' o.
Proof.
  unfold passed_on. intros E. assert (Ec : cq_cid r = cq_cid r') by (change (cq_cid (body_of r) = cq_cid (body_of r')); by rewrite E).
  case_bool; [|by rewrite Ec]. by rewrite E.
Qed.

Lemma body_seqno q a m : body_of (with_seqno q (with_auth a m)) = body_of (with_seqno q m).
Proof. by destruct m. Qed.

(** From a processed request to the effect: what is sent before does not count. *)
Lemma processed_effect m a s req s1 o0 o1 c2 o2 : processed (with_auth a m) s (Some req) s1 o1 ->
  silent o0 -> c2 = core_of s1 -> executed o2 = [] -> passed_on c2 req o2 -> request_effect m (core_of s) c2 (o0 ++ o1 ++ o2).
Proof.
  intros (_ & Hc & q & sl & -> & Hsl & H) Hs -> He Hp. cbn in Hc, Hsl. apply (passed_on_body _ _ _ _ (body_seqno q a m)) in Hp.
  destruct Hs as (S1 & S2 & S3). destruct H as [(Hr & Hq & Hne & E & ->)|(Hr & H0 & Hne & E & ->)].
  - eapply (Req_executed _ _ _ _ q sl (with_seqno q (with_auth a m))); try done; [by rewrite !chain_executed_app, S1, He|]. apply passed_on_app; [done..|]. by apply passed_on_app.
  - eapply (Req_repeated _ _ _ _ q sl); try done; [by rewrite !chain_executed_app, S1, He|]. rewrite <- E. apply passed_on_app; [done..|]. by apply passed_on_app.
Qed.

Lemma handle_request_wlp m s : cur_state s = replica_state_NORMAL ->
  wlp (handle_request m) (fun _ s' o => cur_state s' = replica_state_NORMAL /\ request_effect m (core_of s) (core_of s') o) s.
Proof.
  intros Hn. unfold handle_request, handle_request_. wlp_steps. rewrite Hn. rewrite bool_decide_false, bool_decide_true by done. cbn [negb].
  wlp_step. eapply wlp_mono; [by apply admit_wlp|]. intros ok s1 o1 [[E1 E2] ->]. rewrite Hn in E2.
  assert (Hd : forall s2 o2, cur_state s2 = replica_state_NORMAL -> core_of s2 = core_of s1 -> silent o2 ->
    cur_state s2 = replica_state_NORMAL /\ request_effect m (core_of s) (core_of s2) o2).
  { intros s2 o2 Hs2 E Hs. split; [done|]. apply Req_dropped; [by rewrite E|done]. }
  destruct ok; cbn [negb]; [|apply wlp_ret; by apply Hd]. wlp_steps. case_bool; [apply wlp_ret; by apply Hd|]. wlp_steps.
  apply wlp_of_option. intros [[ok r] off] Hv. destruct ok; cbn [negb]; [|apply wlp_ret; by apply Hd].
  apply verify_body in Hv as [a ->]. wlp_step. eapply wlp_mono; [apply process_request_wlp|]. intros [req|] s2 o2 Hp; cbn [app].
  2:{ destruct Hp as [[E3 E4] ->]. apply wlp_ret. apply Hd; [by rewrite E4|by rewrite E3|done]. }
  wlp_step. apply wlp_chain_rep. intros rr _ _. wlp_steps. apply wlp_of_option. intros req' Ha. apply authenticate_body in Ha.
  match goal with |- wlp _ _ ?st => eapply wlp_mono; [apply (forward_or_reply_wlp req' st)|] end; [destruct Hp as [E _]; cbn in *; congruence|].
  intros _ s3 o3 ([E5 E6] & He & Hpo). cbn in E6. split; [destruct Hp as [E _]; cbn in *; congruence|].
  match type of Hp with processed _ ?st _ _ _ => assert (Ec : core_of st = core_of s) by (rewrite <- E1; done) end.
  rewrite <- Ec. apply (processed_effect m a _ req s2 [_] o2 _ o3 Hp); [done|done|done|].
  rewrite E5. by apply (passed_on_body _ req').
Qed.

(** An abort certificate that is not complete changes nothing; a complete one
    ends the instance. *)
Lemma stop_and_switch_wlp newrh s : wlp (stop_and_switch newrh) (fun _ s' _ => ~ calm s') s.
Proof.
  unfold stop_and_switch, switch_state. cbn [instance_id next_instance_id]. wlp_steps. unfold enable_replica. wlp_steps. cbn [cur_state set_cur_state].
  rewrite bool_decide_false, bool_decide_true by done. cbn [orb]. unfold lock_checkpointing, unlock_checkpointing. wlp_steps.
  case_bool; [done|]. wlp_steps. intros []; done.
Qed.

Lemma wlp_any {A} (m : M A) (Q : A -> state -> list C_output -> Prop) s : (forall a s' o, Q a s' o) -> wlp m Q s.
Proof. intros H. unfold wlp. destruct (m s); [apply H|done]. Qed.

Lemma handle_abort_wlp m s : calm s -> wlp (handle_abort m) (fun _ s' o => calm s' -> keeps s s' o) s.
Proof.
  intros Hs. unfold handle_abort. wlp_steps. case_bool; [by apply wlp_ret|]. case_bool; [by apply wlp_ret|]. wlp_steps.
  apply wlp_of_option. intros r _. case_bool; [by apply wlp_ret|]. wlp_steps. case_bool; [by apply wlp_ret|]. wlp_steps.
  apply wlp_of_option. intros [ah2 mis] _. wlp_steps. case_bool.
  - wlp_steps. apply wlp_any. intros h s1 o1. eapply wlp_mono; [apply stop_and_switch_wlp|]. done.
  - wlp_steps. intros []; done.
Qed.

Lemma enable_wlp b s : calm s -> wlp (enable_replica b) (fun _ s' o => calm s' -> keeps s s' o) s.
Proof.
  intros Hs. unfold enable_replica. wlp_steps. case_bool; [|by apply wlp_ret]. destruct b.
  - assert (Hn : cur_state s = replica_state_NORMAL) by (destruct Hs as [Hs|Hs]; [done|]; rewrite Hs in *; done).
    rewrite bool_decide_true by done. wlp_steps. intros _. split; [done|]. split; [by left|done].
  - unfold lock_checkpointing, unlock_checkpointing. wlp_steps. case_bool; [done|]. wlp_steps. intros []; done.
Qed.

Lemma quiet_wlp {A} (m : M A) s : quiet m -> calm s -> wlp m (fun _ s' o => calm s' -> keeps s s' o) s.
Proof. intros Hm Hs. eapply wlp_mono; [by apply Hm|]. done. Qed.

Lemma handle_quiet sp msg s : calm s -> (forall m, msg <> C_Request_msg m) -> wlp (handle sp msg) (fun _ s' o => calm s' -> keeps s s' o) s.
Proof.
  intros Hs Hne. destruct msg as [m|m|m|m|m|m|m|]; cbn [handle]; [by destruct (Hne m)|..|by apply wlp_ret]; try by apply handle_abort_wlp.
  all: apply quiet_wlp; [|done].
  - apply checkpoint_quiet.
  - apply panic_quiet.
  - apply missing_quiet.
  - apply grip_quiet.
  - apply notification_quiet.
Qed.

Definition event_effect (ev : event) (s s' : state) (o : list C_output) : Prop :=
  match ev with
  | Deliver _ (C_Request_msg m) => request_effect m (core_of s) (core_of s') o
  | _ => core_of s' = core_of s /\ silent o
  end.

(** As long as the replica has not stopped, a request delivered has the effect
    above, and another event executes, forwards and answers nothing. *)
Lemma run_event_wlp ev s : calm s -> wlp (run_event ev) (fun _ s' o => calm s' -> event_effect ev s s' o) s.
Proof.
  intros Hs. assert (Hk : forall m : M unit, wlp m (fun _ s' o => calm s' -> keeps s s' o) s ->
    wlp m (fun _ s' o => calm s' -> core_of s' = core_of s /\ silent o) s).
  { intros m Hm. eapply wlp_mono; [exact Hm|]. intros ? s' o H Hc. destruct (H Hc) as (E & _ & Hs'). by split. }
  destruct ev as [sp msg|msg|sp| |b|i c|b]; cbn [run_event event_effect].
  - destruct msg as [m|m|m|m|m|m|m|]; [|apply Hk; by apply handle_quiet..]. cbn [handle]. destruct Hs as [Hs|Hs].
    + eapply wlp_mono; [by apply handle_request_wlp|]. intros ? s' o [_ ?] _; done.
    + unfold handle_request, handle_request_. wlp_steps. rewrite Hs, !bool_decide_false by done. apply wlp_ret. intros _. by apply Req_dropped.
  - apply Hk, quiet_wlp; [|done]. unfold enqueue_robust. quiet_steps.
  - apply Hk. unfold robust_handler. wlp_steps. destruct (robust_messages_queue s) as [|m q]; [by apply wlp_ret|]. wlp_steps.
    set (t := set_robust_messages_queue q s). assert (Ht : calm t) by done.
    assert (Hw : wlp match m with C_Request_msg req => log_executed sp req | _ => handle sp m end (fun _ s' o => calm s' -> keeps t s' o) t).
    { destruct m; try (by apply handle_quiet). apply quiet_wlp; [apply log_quiet|done]. }
    exact Hw.
  - apply Hk, quiet_wlp; [|done]. unfold no_checkpoint_timeout. apply quiet_bind; [apply quiet_gets|intros []]; quiet_steps; apply panic_quiet.
  - apply Hk, quiet_wlp; [|done]. unfold no_request_timeout. apply quiet_bind; [apply quiet_gets|intros []]; quiet_steps; apply panic_quiet.
  - apply Hk, quiet_wlp; [|done]. unfold handle_new_connection. quiet_steps.
  - apply Hk. by apply enable_wlp.
Qed.

(** A request that waited for a checkpoint deadlocks the replica: the next
    request handled after the checkpoint locks [checkpointing_mutex] and then
    handles the parked ones, each of which locks it again. *)
Theorem pending_deadlocks m s : cur_state s = replica_state_NORMAL -> checkpointing_mutex s = false ->
  checkpoint_in_progress s = false -> parked s <> [] -> handle_request m s = Fault Deadlock.
Proof.
  intros Hn Hm Hc Hp. unfold handle_request, handle_request_, admit_, lock_checkpointing, bind, gets.
  rewrite Hn, bool_decide_false, bool_decide_true by done. cbn [negb]. rewrite Hm. unfold modify.
  cbn [checkpoint_in_progress set_checkpointing_mutex]. rewrite Hc.
  rewrite drain_pending_eq by done. change (parked (set_checkpointing_mutex true s)) with (parked s). by destruct (parked s).
Qed.

(** ** Progress *)

Lemma wp_wlp {A} (m : M A) (Q R : A -> state -> list C_output -> Prop) s :
  wp m Q s -> wlp m R s -> wp m (fun a s' o => Q a s' o /\ R a s' o) s.
Proof. unfold wp, wlp. destruct (m s); [done|done]. Qed.

Lemma wp_chain_rep c (Q : C_Reply -> state -> list C_output -> Prop) s r :
  replies s !! Z.to_nat c = Some r -> 0 <= c -> Q r s [] -> wp (rep_of c) Q s.
Proof. intros Hr Hc H. unfold rep_of. wp_steps. rewrite (proj2 (Z.ltb_ge _ _)) by done. by eapply wp_of_option. Qed.

(** A reply that can be sent. *)
Definition ready (c : Z) (s : state) : Prop :=
  exists r, replies s !! Z.to_nat c = Some r /\ cr_reply_size r <> -1 /\ cr_v r = 0 /\ cr_replica r = 0.

Lemma execute_request_wp req s r : replies s !! Z.to_nat (cq_cid req) = Some r -> 0 <= cq_cid req ->
  wp (execute_request req) (fun _ s' o => o = [C_Executed req] /\ connectlist s' = connectlist s /\ node_id s' = node_id s /\
    cur_state s' = cur_state s /\ ready (cq_cid req) s') s.
Proof.
  intros Hr Hc. unfold execute_request, new_reply, end_reply, set_rep. wp_steps. eapply wp_chain_rep; [done..|]. wp_steps.
  destruct (exec_command _ _ _) as [sv out]. wp_steps.
  assert (Hlt := lookup_lt_Some _ _ _ Hr).
  eapply wp_chain_rep; [cbn; by rewrite list_lookup_insert_eq|done|]. wp_step. apply wp_assert; [done|]. wp_steps.
  split; [done|]. do 3 (split; [done|]). eexists. cbn. rewrite list_insert_insert_eq, list_lookup_insert_eq by done. split; [done|]. unfold zlen. cbn. lia.
Qed.

(** The request is new and in its turn. *)
Definition in_turn (m : C_Request) (s : state) : Prop :=
  0 <= cq_cid m /\ (exists r, replies s !! Z.to_nat (cq_cid m) = Some r /\ cr_rid r < cq_rid m) /\ (node_id s <> 0 -> cq_seqno m = last_seqno s + 1).

Lemma process_request_wp m s : in_turn m s ->
  wp (process_request m) (fun r s' o => exists q, r = Some (with_seqno q m) /\ executed o <> [] /\ connectlist s' = connectlist s /\ node_id s' = node_id s /\
    cur_state s' = cur_state s /\ ready (cq_cid m) s') s.
Proof.
  intros (Hc & (r & Hr & Hlt) & Hq). unfold process_request, is_seen, req_id. wp_steps. eapply wp_chain_rep; [done..|]. wp_steps.
  rewrite (proj2 (Z.leb_gt _ _)) by done. cbn [negb]. case_bool; bsimp.
  - wp_steps. eapply wp_mono; [by eapply execute_request_wp|]. intros _ s' o (-> & H). wp_steps. exists (seqno s + 1). done.
  - wp_steps. rewrite (Hq ltac:(done)), Z.eqb_refl. cbn [negb]. wp_steps. eapply wp_mono; [by eapply execute_request_wp|]. intros _ s' o (-> & H). wp_steps.
    exists (last_seqno s + 1). rewrite <- (Hq ltac:(done)), with_seqno_own. done.
Qed.

(** The socket of the client of a request. *)
Definition connected (m : C_Request) (s : state) : Prop :=
  0 <= cq_listnum m /\ exists c, connectlist s !! Z.to_nat (cq_listnum m) = Some c /\ c <> 0.

Lemma forward_or_reply_wp req s macs : cur_state s = replica_state_NORMAL -> ready (cq_cid req) s -> 0 <= cq_cid req ->
  (num_replicas - 1 <= node_id s -> connected req s /\ read (cq_auth req) 0 ((max_faulty + 1) * 2) = Some macs) ->
  wp (forward_or_reply req) (fun _ _ _ => True) s.
Proof.
  intros Hn (r & Hr & Hsz & Hv & Hrep) Hc Ht. unfold forward_or_reply. wp_steps. case_bool; [by apply wp_emit|]. bsimp. destruct (Ht Heqb) as ((Hl & c & Hlc & Hnz) & Hm).
  unfold connection. wp_steps. rewrite (proj2 (Z.ltb_ge _ _)) by done. eapply wp_of_option; [done|]. rewrite (proj2 (Z.eqb_neq _ _)) by done. wp_steps.
  rewrite bool_decide_false by (by rewrite Hn). wp_steps. unfold send_reply, set_rep. wp_steps. eapply wp_chain_rep; [done..|]. wp_steps. cbn.
  apply wp_assert; [by rewrite (proj2 (Z.eqb_neq _ _))|]. wp_steps. apply wp_assert; [by rewrite Hv, Hrep|]. wp_steps. eapply wp_of_option; [done|]. by wp_steps.
Qed.

(** Nothing keeps the replica from taking the request. *)
Definition admits (s : state) : Prop :=
  cur_state s = replica_state_NORMAL /\ checkpointing_mutex s = false /\
  if checkpoint_in_progress s then current_nb_requests_while_checkpointing s < ReqHistory.MAX_NB_REQS_CHKPT else parked s = [].

Lemma admit_wp m s : admits s -> wp (admit_ drain_pending m) (fun b s' o => b = true /\ silent o /\
  connectlist s' = connectlist s /\ node_id s' = node_id s /\ last_seqno s' = last_seqno s /\ replies s' = replies s /\ cur_state s' = cur_state s) s.
Proof.
  intros (Hn & Hm & Ha). unfold admit_, lock_checkpointing, unlock_checkpointing. wp_steps. rewrite Hm. wp_steps. cbn [checkpoint_in_progress set_checkpointing_mutex].
  destruct (checkpoint_in_progress s).
  - cbn. rewrite (proj2 (Z.ltb_lt _ _)) by done. by wp_steps.
  - wp_steps. unfold wp at 1. rewrite drain_pending_eq by done. change (parked (set_checkpointing_mutex true s)) with (parked s). rewrite Ha.
    wp_steps. change (node_id (set_checkpointing_mutex true s)) with (node_id s). by destruct (node_id s =? 0).
Qed.

(** [verify] and [authenticate] succeed on the request. *)
Definition accepts (me : Z) (m : C_Request) : Prop :=
  exists a off, ChainAuth.verify UMAC max_faulty num_replicas num_principals MD5_request me m = Some (true, with_auth a m, off) /\
  forall q u rr, exists r macs, ChainAuth.authenticate UMAC max_faulty num_replicas me me off u (Some rr) (with_seqno q (with_auth a m)) = Some r /\
    read (cq_auth r) 0 ((max_faulty + 1) * 2) = Some macs.

Lemma handle_request_wp m s : admits s -> in_turn m s -> Z.even (cq_extra m) = true -> accepts (node_id s) m ->
  (num_replicas - 1 <= node_id s -> connected m s) -> wp (handle_request m) (fun _ s' o => executed o <> []) s.
Proof.
  intros Had Hin Hev (a & off & Hv & Hau) Hcon. destruct Had as (Hn & Hrest). unfold handle_request, handle_request_. wp_steps.
  rewrite Hn, bool_decide_false, bool_decide_true by done. cbn [negb]. wp_steps. eapply wp_mono; [by apply admit_wp|].
  intros b s1 o1 (-> & (S1 & _) & E1 & E2 & E3 & E4 & E5). cbn [negb]. wp_steps. rewrite <- Z.negb_even, Hev. cbn [negb]. wp_steps.
  eapply wp_of_option; [done|]. cbn [negb]. wp_steps. eapply wp_mono.
  { apply process_request_wp. destruct Hin as (Hc & (r & Hr & Hlt) & Hq). split; [done|]. split; [exists r; cbn; by rewrite E4|]. cbn. rewrite E2, E3. exact Hq. }
  intros x s2 o2 (q & -> & He & C1 & C2 & C3 & Hrd). wp_steps. destruct Hin as (Hc & _). pose proof Hrd as (rr & Hrr & _).
  eapply wp_chain_rep; [done..|]. wp_steps. cbn [umac_nonce set_umac_nonce].
  destruct (Hau q (umac_nonce s2 + 1) (reply_hdr rr)) as (r & macs & Hr & Hm). eapply wp_of_option; [done|].
  assert (Eb := authenticate_body _ _ _ _ _ _ _ Hr). assert (Ec : cq_cid r = cq_cid m /\ cq_listnum r = cq_listnum m).
  { split; [change (cq_cid (body_of r) = cq_cid m)|change (cq_listnum (body_of r) = cq_listnum m)]; by rewrite Eb. }
  destruct Ec as [Ec El]. cbn in C1, C2, C3. eapply wp_mono; [apply (forward_or_reply_wp r _ macs)|].
  - cbn. by rewrite C3, E5.
  - by rewrite Ec.
  - by rewrite Ec.
  - cbn. rewrite C2, E2. intros Ht. split; [|done]. destruct (Hcon Ht) as (? & c & ? & ?). unfold connected. cbn. rewrite El, C1, E1. by eauto.
  - intros _ s3 o3 _. rewrite !chain_executed_app, S1. cbn. by destruct (executed o2).
Qed.

(** A stopped last replica that never executed a request of the client fails an
    assertion instead of telling it to switch: the reply it has for that client
    was never filled in. *)
Theorem stopped_tail_crashes m s r : cur_state s = replica_state_STOP -> num_replicas - 1 <= node_id s -> connected m s ->
  0 <= cq_cid m -> replies s !! Z.to_nat (cq_cid m) = Some r -> cr_reply_size r = -1 -> handle_request m s = Fault AssertFailed.
Proof.
  intros Hst Ht (Hl & c & Hlc & Hnz) Hc Hr Hsz. unfold handle_request, handle_request_, connection, set_switch, send_reply, set_rep, rep_of, bind, gets, modify.
  rewrite Hst, bool_decide_true by done. rewrite (proj2 (Z.ltb_ge _ _) Ht), !(proj2 (Z.ltb_ge _ 0)) by done. cbn. rewrite Hlc. cbn. rewrite (proj2 (Z.eqb_neq _ _)) by done.
  cbn. rewrite Hr. cbn. rewrite list_lookup_insert_eq by (by eapply lookup_lt_Some). cbn. rewrite Hsz. done.
Qed.

(** ** Well-formed states *)

(** Between events the mutex is free, and the tables have the sizes the
    constructor gave them. *)
Definition same_tables (s s' : state) : Prop :=
  node_id s' = node_id s /\ length (replies s') = length (replies s) /\ length (connectlist s') = length (connectlist s).
Definition well_formed (nid : Z) (s : state) : Prop :=
  node_id s = nid /\ checkpointing_mutex s = false /\ length (replies s) = Z.to_nat num_principals /\ length (connectlist s) = MAX_CONNECTIONS.

(** [m] leaves the mutex as it finds it; or finds it locked and unlocks it. *)
Definition balanced {A} (m : M A) : Prop :=
  forall s, wlp m (fun _ s' _ => same_tables s s' /\ checkpointing_mutex s' = checkpointing_mutex s) s.
Definition releasing {A} (m : M A) : Prop :=
  forall s, checkpointing_mutex s = true -> wlp m (fun _ s' _ => same_tables s s' /\ checkpointing_mutex s' = false) s.

Lemma same_tables_trans s1 s2 s3 : same_tables s1 s2 -> same_tables s2 s3 -> same_tables s1 s3.
Proof. unfold same_tables. intuition congruence. Qed.

Lemma balanced_bind {A B} (m : M A) (k : A -> M B) : balanced m -> (forall a, balanced (k a)) -> balanced (x <- m ;; k x).
Proof.
  intros Hm Hk s. apply wlp_bind. eapply wlp_mono; [apply Hm|]. intros a s1 o1 [H1 E1]. eapply wlp_mono; [apply Hk|]. intros b s2 o2 [H2 E2].
  split; [by eapply same_tables_trans|congruence].
Qed.

Lemma releasing_after {A B} (m : M A) (k : A -> M B) : balanced m -> (forall a, releasing (k a)) -> releasing (x <- m ;; k x).
Proof.
  intros Hm Hk s Hs. apply wlp_bind. eapply wlp_mono; [apply Hm|]. intros a s1 o1 [H1 E1]. eapply wlp_mono; [apply Hk; congruence|]. intros b s2 o2 [H2 E2].
  split; [by eapply same_tables_trans|done].
Qed.

Lemma releasing_first {A B} (m : M A) (k : A -> M B) : releasing m -> (forall a, balanced (k a)) -> releasing (x <- m ;; k x).
Proof.
  intros Hm Hk s Hs. apply wlp_bind. eapply wlp_mono; [by apply Hm|]. intros a s1 o1 [H1 E1]. eapply wlp_mono; [apply Hk|]. intros b s2 o2 [H2 E2].
  split; [by eapply same_tables_trans|congruence].
Qed.

Lemma balanced_lock {A} (m : M A) : releasing m -> balanced (lock_checkpointing ;;; m).
Proof.
  intros Hm s. unfold lock_checkpointing. wlp_steps. destruct (checkpointing_mutex s) eqn:E; [done|]. wlp_steps.
  eapply wlp_mono; [by apply Hm|]. intros a s2 o2 [H2 E2]. done.
Qed.

Lemma releasing_unlock : releasing unlock_checkpointing.
Proof. intros s Hs. unfold unlock_checkpointing. by wlp_steps. Qed.

Lemma balanced_ret {A} (a : A) : balanced (ret a).
Proof. intros s. by apply wlp_ret. Qed.
Lemma balanced_gets {A} (f : state -> A) : balanced (gets f).
Proof. intros s. by apply wlp_gets. Qed.
Lemma balanced_emit x : balanced (emit x).
Proof. intros s. by apply wlp_emit. Qed.
Lemma balanced_of_option {A} e (o : option A) : balanced (of_option e o).
Proof. intros s. apply wlp_of_option. done. Qed.
Lemma balanced_fail {A} e : balanced (A := A) (fail e).
Proof. intros s. done. Qed.
Lemma balanced_assert b : balanced (assert_ b).
Proof. intros s. apply wlp_assert. done. Qed.
Lemma balanced_modify f : (forall s, same_tables s (f s) /\ checkpointing_mutex (f s) = checkpointing_mutex s) -> balanced (modify f).
Proof. intros H s. apply wlp_modify, H. Qed.

Lemma balanced_set_rep c r : balanced (set_rep c r).
Proof. apply balanced_modify. intros s. unfold same_tables. cbn. by rewrite length_insert. Qed.

Ltac balanced_step :=
  lazymatch goal with
  | |- balanced (bind lock_checkpointing _) => apply balanced_lock
  | |- balanced (bind _ _) => apply balanced_bind; [|intros ?]
  | |- releasing (bind unlock_checkpointing _) => apply releasing_first; [apply releasing_unlock|intros ?]
  | |- releasing (bind _ _) => apply releasing_after; [|intros ?]
  | |- releasing unlock_checkpointing => apply releasing_unlock
  | |- balanced (gets _) => apply balanced_gets
  | |- balanced (ret _) => apply balanced_ret
  | |- balanced (emit _) => apply balanced_emit
  | |- balanced (fail _) => apply balanced_fail
  | |- balanced (of_option _ _) => apply balanced_of_option
  | |- balanced (assert_ _) => apply balanced_assert
  | |- balanced (set_rep _ _) => apply balanced_set_rep
  | |- balanced (modify _) => apply balanced_modify; by intros []
  | |- _ (if ?b then _ else _) => destruct b
  | |- _ (let '(_, _) := ?p in _) => destruct p
  | |- _ (match ?o with Some _ => _ | None => _ end) => destruct o as [?|]
  end; cbv beta zeta.
Ltac balanced_steps := cbv zeta; repeat balanced_step; try done.

Lemma panic_balanced m : balanced (handle_panic m).
Proof. unfold handle_panic, broadcast_abort. balanced_steps. Qed.

Lemma checkpoint_balanced sp c : balanced (handle_checkpoint sp c).
Proof. unfold handle_checkpoint, complete_checkpoint. balanced_steps; apply panic_balanced. Qed.

Lemma rep_of_balanced c : balanced (rep_of c).
Proof. unfold rep_of. balanced_steps. Qed.

Lemma execute_balanced req : balanced (execute_request req).
Proof. unfold execute_request, new_reply, end_reply. balanced_steps; apply rep_of_balanced. Qed.

Lemma reply_balanced c b p sk req : balanced (set_switch c b p ;;; send_reply c sk req).
Proof. unfold set_switch, send_reply. balanced_steps; apply rep_of_balanced. Qed.

Lemma connection_balanced i : balanced (connection i).
Proof. unfold connection. balanced_steps. Qed.

Lemma request_balanced drain req : balanced drain -> balanced (handle_request_ drain req).
Proof.
  intros Hd. unfold handle_request_, admit_, park, process_request, is_seen, is_old, req_id, sent_seqno, forward_or_reply, set_switch, send_reply.
  balanced_steps; try apply rep_of_balanced; try apply connection_balanced; try apply execute_balanced.
  all: repeat balanced_step.
Qed.

Lemma drain_balanced : balanced drain_pending.
Proof.
  assert (He : forall l, balanced (handle_each l)).
  { induction l as [|r l IH]; cbn [handle_each]; [apply balanced_ret|]. apply balanced_bind; [apply request_balanced, balanced_ret|done]. }
  unfold drain_pending. balanced_steps.
Qed.

Lemma enable_balanced b : balanced (enable_replica b).
Proof. unfold enable_replica. balanced_steps. Qed.

Lemma of_sum_balanced {A} (r : fault + A) : balanced (of_sum r).
Proof. destruct r; [by apply balanced_fail|apply balanced_ret]. Qed.

Lemma stop_balanced newrh : balanced (stop_and_switch newrh).
Proof. unfold stop_and_switch, switch_state. cbn [instance_id next_instance_id]. balanced_steps; apply enable_balanced. Qed.

Lemma abort_balanced m : balanced (handle_abort m).
Proof. unfold handle_abort. balanced_steps; try apply of_sum_balanced; apply stop_balanced. Qed.

Lemma grip_balanced m : balanced (handle_get_a_grip m).
Proof. unfold handle_get_a_grip. balanced_steps; try apply of_sum_balanced; apply stop_balanced. Qed.

Lemma handle_balanced sp msg : balanced (handle sp msg).
Proof.
  destruct msg as [m|m|m|m|m|m|m|]; cbn [handle].
  - apply request_balanced, drain_balanced.
  - apply checkpoint_balanced.
  - apply panic_balanced.
  - apply abort_balanced.
  - unfold handle_missing. generalize (m_replica m) as dest. intros dest. induction (m_list m) as [|[c r] l IH]; cbn [answer_missing]; balanced_steps.
  - apply grip_balanced.
  - unfold handle_client_notification. balanced_steps.
  - apply balanced_ret.
Qed.

Lemma event_balanced ev : balanced (run_event ev).
Proof.
  destruct ev as [sp msg|msg|sp| |b|i c|b]; cbn [run_event].
  - apply handle_balanced.
  - unfold enqueue_robust. balanced_steps.
  - unfold robust_handler. balanced_steps. destruct a as [|m q]; [apply balanced_ret|]. balanced_steps.
    destruct m; try apply handle_balanced. unfold log_executed. balanced_steps; apply checkpoint_balanced.
  - balanced_steps. destruct a; [apply balanced_ret| |apply balanced_ret]. unfold no_checkpoint_timeout. balanced_steps; apply panic_balanced.
  - balanced_steps. destruct a; [apply balanced_ret| |apply balanced_ret]. unfold no_request_timeout. balanced_steps; apply panic_balanced.
  - intros s. unfold handle_new_connection. case_bool; wlp_steps; try done. case_bool; wlp_steps. unfold same_tables. cbn. by rewrite length_insert.
  - apply enable_balanced.
Qed.

(** A run of events; [None] after a fault. *)
Fixpoint run (evs : list event) : M unit :=
  match evs with
  | [] => ret tt
  | ev :: evs' => run_event ev ;;; run evs'
  end.

(** C31. The state of a Chain replica stays well formed: after any sequence of
    events that does not fault, whatever the messages are, the checkpointing
    mutex is free, the reply table has an entry for each principal, the
    connection table keeps its size and the identity of the node is unchanged. *)
Theorem chain_well_formed evs nid junk sv : wlp (run evs) (fun _ s _ => well_formed nid s) (initial nid junk sv).
Proof.
  assert (H0 : well_formed nid (initial nid junk sv)) by (split; [done|]; split; [done|]; split; [apply length_replicate|apply length_replicate]).
  revert H0. generalize (initial nid junk sv). induction evs as [|ev evs IH]; intros s Hs; cbn [run]; [by apply wlp_ret|]. wlp_step.
  eapply wlp_mono; [apply event_balanced|]. intros ? s1 o1 [(E1 & E2 & E3) E4]. eapply wlp_mono; [apply IH|]; [|done].
  destruct Hs as (H1 & H2 & H3 & H4). unfold well_formed. by rewrite E1, E2, E3, E4.
Qed.

End chain.

(** ** Progress in a group of four *)

Section four.
Context {S : Type} (num_principals : Z) (modulus : Z) (MD5_sum : Z -> Z) (MD5_reply : list Z -> Z) (MD5_request : Z -> Z -> list Z -> Z).
Context (UMAC : Z -> Z -> mac_data -> Z -> Z) (exec_command : S -> Z -> list Z -> S * list Z).
Hypothesis principals4 : 4 <= num_principals.

Abbreviation handle4 := (handle_request 4 1 num_principals MD5_reply MD5_request UMAC exec_command).

Lemma accepts_authentic me m cid a b c d e rest : 0 <= me <= 3 -> 4 <= cid < num_principals -> cq_cid m = cid ->
  cq_auth m = [a; b; c; d; e] ++ rest -> (me = 0 -> (2 <= length rest)%nat) -> ChainAuth.authentic UMAC MD5_request cid me m a b c d ->
  accepts 4 1 num_principals MD5_request UMAC me m.
Proof.
  intros Hme Hcid Hc Ha Hrest Hau.
  destruct (ChainAuth.verify_words UMAC MD5_request num_principals ltac:(lia) cid Hcid me m a b c d e rest) as (ok & r' & o & Hv & Hok & Hr); [done..|].
  apply Hok in Hau as ->. destruct (Hr eq_refl) as (-> & l & Hl & ->). eexists _, 2. split; [exact Hv|]. intros q u rr.
  destruct (ChainAuth.authenticate_words UMAC cid me q u rr m (if me =? 0 then a else c) (if me =? 0 then c else e) l Hme Hc ltac:(lia)) as (r & Hx & Hlr).
  exists r. eexists. split; [by destruct (me =? 0)|]. apply read_prefix. lia.
Qed.


End four.

(** ** Examples: four replicas, twenty principals, client 9 *)

Module ChainExample.
Import ZlExample.

Definition ex_initial (nid : Z) : @state (list Z) := initial 1 20 nid 0 [].
Definition client_words : list Z := [5; 1090005; 1090105; 0; 0; 0; 0].
Definition ex_new : C_Request := ChainAuth.ex_request client_words.
Abbreviation handle_ex := (handle_request 4 1 20 md5_reply ChainAuth.ex_MD5 ChainAuth.ex_UMAC log_service).

Lemma pending_deadlocks_witness : handle_ex ex_new (set_primary_pending_requests [ex_new] (ex_initial 0)) = Fault Deadlock.
Proof. apply pending_deadlocks; [reflexivity|reflexivity|reflexivity|discriminate]. Defined.

Definition ex_stopped : @state (list Z) := set_cur_state replica_state_STOP (set_connectlist [6] (ex_initial 3)).

Lemma stopped_tail_crashes_witness : handle_ex ex_new ex_stopped = Fault AssertFailed.
Proof.
  apply (stopped_tail_crashes _ _ _ _ _ _ _ _ _ (rep_initial 0)); [reflexivity|cbn; lia| |cbn; lia|reflexivity|reflexivity].
  split; [cbn; lia|]. exists 6. split; [reflexivity|lia].
Defined.


End ChainExample.

End Chain.
