(* ===== verification/ChainSystem.v ===== *)
(** * A Chain group

    The replicas of [Chain] in a row.  Node 0 receives the requests of clients;
    another node receives what its predecessor forwarded, as its MACs establish
    (a message may be delayed, reordered, duplicated or lost, and the words of
    its authenticator are arbitrary).  A step runs one event of any kind at one
    replica that has not stopped.  The theorems are those of a chain: what a
    replica has executed is a prefix of what each of its predecessors has, and a
    reply carries the result of a request that every replica has executed at the
    same position.  Clients are correct here: a client uses an identifier for
    one command; the last example shows what happens when one does not. *)

From S2P Require Import Prelude Effects ReqHistory SCSet Smasher Certificate Reply ZlReplica ChainAuth Chain.
Local Open Scope Z_scope.

Module ChainSystem.
Import Chain.
Section system.
Context {S : Type}.
Context (num_replicas max_faulty num_principals : Z).
Context (modulus : Z) (MD5_sum : Z -> Z) (MD5_reply : list Z -> Z) (MD5_request : Z -> Z -> list Z -> Z).
Context (UMAC : Z -> Z -> mac_data -> Z -> Z).
Context (checkpoint_sig : zl_Checkpoint -> bool) (abort_verify : Smasher.zl_Abort -> bool) (abort_digest : Smasher.zl_Abort -> Z).
Context (signature_entry : Z -> list AbortHistoryElement -> nat -> AbortHistoryElement) (sig_size : Z).
Context (exec_command : S -> Z -> list Z -> S * list Z).
(** The command a client means by an identifier. *)
Context (command : Z -> Z -> list Z).

Local Abbreviation state := (@state S).
Local Abbreviation run_event := (run_event num_replicas max_faulty num_principals modulus MD5_sum MD5_reply MD5_request UMAC
  checkpoint_sig abort_verify abort_digest signature_entry sig_size exec_command).

(** What is executed, without the authenticator and the number. *)
Record op := mk_op { op_cid : Z; op_rid : Z; op_command : list Z }.
Definition op_of (r : C_Request) : op := mk_op (cq_cid r) (cq_rid r) (cq_command r).

(** [sent] holds what each node has forwarded, [answered] the replies with the
    client of the request, [logs] what each node has executed. *)
Record system := mk_system {
  nodes : list state; sent : list (list C_Request); answered : list (Z * C_Reply); logs : list (list op)
}.

Definition good_op (o : op) : Prop := 0 < op_rid o /\ op_command o = command (op_cid o) (op_rid o).

Definition deliverable (x : system) (i : nat) (ev : event) : Prop :=
  match ev with
  | Deliver _ (C_Request_msg m) =>
    match i with
    | O => good_op (op_of m)
    | Datatypes.S j => exists ms r, sent x !! j = Some ms /\ r ∈ ms /\ cq_seqno r = cq_seqno m /\ op_of r = op_of m
    end
  | _ => True
  end.

Definition answers_of (ev : event) (o : list C_output) : list (Z * C_Reply) :=
  match ev with
  | Deliver _ (C_Request_msg m) => (fun r => (cq_cid m, r)) <$> answers o
  | _ => []
  end.

(** The group after event [ev] at node [i]. *)
Definition after (x : system) (i : nat) (ev : event) (s' : state) (o : list C_output) (ms : list C_Request) (l : list op) : system :=
  mk_system (<[i := s']> (nodes x)) (<[i := ms ++ forwards o]> (sent x)) (answered x ++ answers_of ev o)
    (<[i := l ++ (op_of <$> executed o)]> (logs x)).

Inductive step : system -> system -> Prop :=
| step_event x i s ms l ev s' o :
    nodes x !! i = Some s -> sent x !! i = Some ms -> logs x !! i = Some l -> deliverable x i ev ->
    run_event ev s = Done tt s' o -> calm s' -> step x (after x i ev s' o ms l).

(** The step as a function; [hand_over] delivers at node [j + 1] the last
    message node [j] forwarded. *)
Definition fire (x : system) (i : nat) (ev : event) : option system :=
  s ← nodes x !! i; ms ← sent x !! i; l ← logs x !! i;
  match run_event ev s with
  | Done _ s' o => Some (after x i ev s' o ms l)
  | Fault _ => None
  end.

Definition hand_over (x : system) (j : nat) : option system :=
  ms ← sent x !! j; m ← last ms; fire x (Datatypes.S j) (Deliver false (C_Request_msg m)).

Definition all_calm (x : system) : Prop := Forall calm (nodes x).

Lemma fire_chain x i ev y : fire x i ev = Some y -> deliverable x i ev -> all_calm y -> step x y.
Proof.
  unfold fire. intros (s & Hs & (ms & Hm & (l & Hl & H)%bind_Some)%bind_Some)%bind_Some Hd Hc.
  destruct (run_event ev s) as [[] s' o|] eqn:Hr; [|done]. injection H as <-. eapply step_event; try done.
  apply (Forall_lookup_1 _ _ i s' Hc). cbn. apply list_lookup_insert_eq. by eapply lookup_lt_Some.
Qed.

Lemma hand_over_chain x j y : hand_over x j = Some y -> all_calm y -> step x y.
Proof.
  unfold hand_over. intros (ms & Hm & (m & Hl & H)%bind_Some)%bind_Some Hc. eapply fire_chain; [done| |done].
  exists ms, m. split; [done|]. split; [|done]. apply last_Some in Hl as [l' ->]. set_solver.
Qed.

Definition start (n : nat) (sv : S) : system :=
  mk_system ((fun i => initial max_faulty num_principals i 0 sv) <$> seqZ 0 (Z.of_nat n)) (replicate n []) [] (replicate n []).

(** ** The meaning of a log *)

Definition run_log (sv : S) (l : list op) : S := foldl (fun t o => (exec_command t (op_cid o) (op_command o)).1) sv l.
Definition result (sv : S) (l : list op) (o : op) : list Z := (exec_command (run_log sv l) (op_cid o) (op_command o)).2.

(** The identifiers of a client increase along the log. *)
Definition rising (l : list op) : Prop :=
  forall j k o o', (j < k)%nat -> l !! j = Some o -> l !! k = Some o' -> op_cid o = op_cid o' -> op_rid o < op_rid o'.

(** The slot of client [c]: its last operation, where it is and its result. *)
Definition at_index (sv : S) (l : list op) (c : Z) (sl : Z * Z * list Z) : Prop :=
  exists k o, l !! k = Some o /\ op_cid o = c /\ op_rid o = sl.1.1 /\ sl.1.2 = Z.of_nat k + 1 /\ sl.2 = result sv (take k l) o.

Record core_ok (sv : S) (i : nat) (c : core) (l : list op) : Prop := {
  ck_id : k_id c = Z.of_nat i;
  ck_last : k_last c = Z.of_nat (length l);
  ck_seqno : i = 0%nat -> k_seqno c = Z.of_nat (length l);
  ck_service : k_service c = run_log sv l;
  ck_rising : rising l;
  ck_good : Forall good_op l;
  ck_newest : forall k o sl, l !! k = Some o -> 0 <= op_cid o -> k_slots c !! Z.to_nat (op_cid o) = Some sl -> op_rid o <= sl.1.1;
  ck_slots : forall j sl, k_slots c !! j = Some sl -> sl.1.1 = 0 \/ at_index sv l (Z.of_nat j) sl;
  ck_cids : Forall (fun o => 0 <= op_cid o) l
}.

Lemma at_index_grow sv l c sl o : at_index sv l c sl -> at_index sv (l ++ [o]) c sl.
Proof.
  intros (k & o' & Hk & Hc & Hr & Hq & Hb). exists k, o'. assert (Hlt := lookup_lt_Some _ _ _ Hk).
  rewrite lookup_app_l, take_app_le by lia. done.
Qed.

Lemma rising_snoc l o : rising l -> (forall k o', l !! k = Some o' -> op_cid o' = op_cid o -> op_rid o' < op_rid o) -> rising (l ++ [o]).
Proof.
  intros Hl Ho j k o1 o2 Hjk H1 H2 Hc. assert (Hk := lookup_lt_Some _ _ _ H2). rewrite length_app in Hk. cbn in Hk.
  rewrite lookup_app_l in H1 by lia. destruct (decide (k = length l)) as [->|Hne].
  - rewrite lookup_app_r, Nat.sub_diag in H2 by lia. injection H2 as <-. by eapply Ho.
  - rewrite lookup_app_l in H2 by lia. by eapply (Hl j k).
Qed.

(** Executing a new request keeps the meaning. *)
Lemma core_exec_ok sv i c l m sl : core_ok sv i c l -> 0 <= cq_cid m -> k_slots c !! Z.to_nat (cq_cid m) = Some sl -> sl.1.1 < cq_rid m ->
  good_op (op_of m) -> core_ok sv i (core_exec exec_command (Z.of_nat (length l) + 1) m c) (l ++ [op_of m]).
Proof.
  intros [Hid Hlast Hseq Hsv Hris Hgood Hnew Hsl Hci] Hc Hm Hr Hg. assert (Hlt := lookup_lt_Some _ _ _ Hm).
  assert (Hold : forall k o', l !! k = Some o' -> op_cid o' = cq_cid m -> op_rid o' < cq_rid m).
  { intros k o' Hk E. eapply Z.le_lt_trans; [|exact Hr]. eapply (Hnew k); [done|lia|by rewrite E]. }
  constructor; unfold core_exec; cbn [k_id k_last k_seqno k_service k_slots].
  - done.
  - rewrite length_app. cbn. lia.
  - intros _. rewrite length_app. cbn. lia.
  - unfold run_log. rewrite foldl_snoc. by rewrite Hsv.
  - apply rising_snoc; done.
  - apply Forall_app. split; [done|]. by constructor.
  - intros k o sl' Hk Ho Hs. destruct (decide (op_cid o = cq_cid m)) as [E|E].
    + rewrite E, list_lookup_insert_eq in Hs by done. injection Hs as <-. cbn. apply lookup_app_Some in Hk as [Hk|[_ Hk]].
      * apply Z.lt_le_incl. by eapply Hold.
      * apply list_lookup_singleton_Some in Hk as [_ <-]. cbn. lia.
    + rewrite list_lookup_insert_ne in Hs by lia. apply lookup_app_Some in Hk as [Hk|[_ Hk]]; [by eapply Hnew|].
      apply list_lookup_singleton_Some in Hk as [_ <-]. done.
  - intros j sl' Hj. destruct (decide (j = Z.to_nat (cq_cid m))) as [->|Hne].
    + rewrite list_lookup_insert_eq in Hj by done. injection Hj as <-. right. exists (length l), (op_of m). cbn.
      rewrite lookup_app_r, Nat.sub_diag, take_app_length by lia. unfold result. cbn. rewrite Hsv. repeat split. lia.
    + rewrite list_lookup_insert_ne in Hj by done. destruct (Hsl j sl' Hj) as [?|?]; [by left|right]. by apply at_index_grow.
  - apply Forall_app. split; [done|]. by constructor.
Qed.

(** ** A request at a node *)

(** Position of a forwarded request in the log of its sender. *)
Definition indexed (l : list op) (r : C_Request) : Prop :=
  exists k, l !! k = Some (op_of r) /\ cq_seqno r = Z.of_nat k + 1.

Definition answer_ok (sv : S) (l : list op) (p : Z * C_Reply) : Prop :=
  exists k o, l !! k = Some o /\ op_cid o = p.1 /\ op_rid o = cr_rid p.2 /\ cr_body p.2 = result sv (take k l) o.

Lemma op_eq o o' : good_op o -> good_op o' -> op_cid o = op_cid o' -> op_rid o = op_rid o' -> o = o'.
Proof. destruct o, o'. unfold good_op. cbn. intros [_ ->] [_ ->] -> ->. done. Qed.

Lemma body_op r r' : body_of r = body_of r' -> op_of r = op_of r' /\ cq_seqno r = cq_seqno r'.
Proof. intros E. change (op_of (body_of r) = op_of (body_of r') /\ cq_seqno (body_of r) = cq_seqno (body_of r')). by rewrite E. Qed.

Lemma passed_on_ok sv l i c q m o : core_ok sv i c l -> passed_on num_replicas c (with_seqno q m) o -> 0 <= cq_cid m -> 0 < cq_rid m ->
  (forall sl, k_slots c !! Z.to_nat (cq_cid m) = Some sl -> cq_rid m <= sl.1.1) -> indexed l (with_seqno q m) ->
  Forall (indexed l) (forwards o) /\ Forall (answer_ok sv l) ((fun r => (cq_cid m, r)) <$> answers o) /\
  (answers o <> [] -> num_replicas - 1 <= Z.of_nat i).
Proof.
  intros Hck Hp Hc Hr Hsl Hi. unfold passed_on in Hp. rewrite (ck_id _ _ _ _ Hck) in Hp. case_bool.
  - destruct Hp as (-> & r & -> & E). split; [|done]. constructor; [|done]. apply body_op in E as [E1 E2]. unfold indexed. rewrite E1, E2. done.
  - destruct Hp as (-> & rep & -> & Hs). split; [done|]. bsimp. split; [|done]. constructor; [|done]. cbn in Hs. specialize (Hsl _ Hs).
    destruct (ck_slots _ _ _ _ Hck _ _ Hs) as [Hz|(k & o' & Hk & Hci & Hri & _ & Hb)]; [lia|].
    exists k, o'. cbn in *. repeat split; [done|lia|done..].
Qed.

(** What a request delivered in its turn does: the log keeps its meaning and
    stays a prefix of the predecessor's, and what is sent is in it. *)
Lemma request_ok sv i c c' l m o (lp : list op) : core_ok sv i c l -> request_effect num_replicas exec_command m c c' o -> good_op (op_of m) ->
  (i <> 0%nat -> rising lp /\ l `prefix_of` lp /\ indexed lp m) ->
  let l' := l ++ (op_of <$> executed o) in
  core_ok sv i c' l' /\ (i <> 0%nat -> l' `prefix_of` lp) /\ Forall (indexed l') (forwards o) /\
  Forall (answer_ok sv l') ((fun r => (cq_cid m, r)) <$> answers o) /\ (answers o <> [] -> num_replicas - 1 <= Z.of_nat i).
Proof.
  intros Hck He Hg Hp. cbv zeta. assert (Hid := ck_id _ _ _ _ Hck). destruct He as [-> (-> & -> & ->)|q sl req Hc Hs Hr Hq Hne -> He Hb Hpo|q sl Hc Hs Hr H0 Hne -> He Hpo].
  - cbn. rewrite app_nil_r. split; [done|]. split; [intros Hi; by apply Hp|]. done.
  - assert (Eq : q = Z.of_nat (length l) + 1).
    { rewrite Hq, Hid. destruct (Z.eqb_spec (Z.of_nat i) 0); [rewrite (ck_seqno _ _ _ _ Hck) by lia|rewrite (ck_last _ _ _ _ Hck)]; done. }
    apply body_op in Hb as [Eo _]. rewrite He. cbn. rewrite Eo. change (op_of (with_seqno q m)) with (op_of m).
    rewrite Eq in *. assert (Hck' := core_exec_ok sv i c l m sl Hck Hc Hs Hr Hg). split; [done|]. split.
    { intros Hi. destruct (Hp Hi) as (_ & Hpre & k & Hk & Ek). rewrite Hne in Ek by lia. destruct Hpre as [z ->].
      rewrite lookup_app_r in Hk by lia. replace (k - length l)%nat with 0%nat in Hk by lia. destruct z as [|y z]; [done|]. injection Hk as ->.
      apply prefix_app, prefix_cons, prefix_nil. }
    eapply passed_on_ok; [done|done|done|by destruct Hg| |].
    + intros sl' Hs'. unfold core_exec in Hs'. cbn in Hs'. rewrite list_lookup_insert_eq in Hs' by (by eapply lookup_lt_Some). injection Hs' as <-. done.
    + exists (length l). cbn. by rewrite lookup_app_r, Nat.sub_diag by lia.
  - rewrite He. cbn. rewrite app_nil_r. split; [done|]. split; [intros Hi; by apply Hp|].
    assert (Hat : at_index sv l (cq_cid m) sl).
    { destruct (ck_slots _ _ _ _ Hck _ _ Hs) as [Hz|Hat]; [destruct Hg as [Hg _]; cbn in Hg; lia|]. by rewrite Z2Nat.id in Hat. }
    eapply passed_on_ok; [done|done|done|by destruct Hg| |].
    + intros sl' Hs'. rewrite Hs in Hs'. by injection Hs' as <-.
    + destruct Hat as (k & o' & Hk & Hci & Hri & Hq & _). destruct (decide (i = 0%nat)) as [->|Hi].
      * destruct (H0 Hid) as [E1 E2]. exists k. split; [|cbn; lia]. change (op_of (with_seqno q m)) with (op_of m). rewrite Hk. f_equal.
        apply op_eq; [|done|done|cbn; lia]. exact (Forall_lookup_1 _ _ _ _ (ck_good _ _ _ _ Hck) Hk).
      * destruct (Hp Hi) as (Hris & Hpre & k' & Hk' & Ek). rewrite (Hne ltac:(lia)). rewrite with_seqno_own. exists k'. split; [|done].
        destruct (decide (k' < length l)%nat) as [Hlt|Hge]; [by rewrite (prefix_lookup_lt _ _ _ Hlt Hpre)|]. exfalso.
        assert (Hlt := lookup_lt_Some _ _ _ Hk). apply (prefix_lookup_Some _ _ _ _ Hk) in Hpre.
        assert (Hx := Hris k k' o' (op_of m) ltac:(lia) Hpre Hk' Hci). cbn in Hx. lia.
Qed.

(** ** The group *)

Record group_ok (sv : S) (n : nat) (x : system) : Prop := {
  gk_nodes : length (nodes x) = n;
  gk_sent : length (sent x) = n;
  gk_logs : length (logs x) = n;
  gk_core : forall i s l, nodes x !! i = Some s -> logs x !! i = Some l -> calm s /\ core_ok sv i (core_of s) l;
  gk_prefix : forall i lp l, logs x !! i = Some lp -> logs x !! Datatypes.S i = Some l -> l `prefix_of` lp;
  gk_indexed : forall i ms l, sent x !! i = Some ms -> logs x !! i = Some l -> Forall (indexed l) ms;
  gk_answered : forall l, logs x !! (n - 1)%nat = Some l -> Forall (answer_ok sv l) (answered x)
}.

Lemma indexed_grow l z r : indexed l r -> indexed (l ++ z) r.
Proof. intros (k & Hk & E). exists k. split; [|done]. by apply lookup_app_l_Some. Qed.

Lemma answer_grow sv l z p : answer_ok sv l p -> answer_ok sv (l ++ z) p.
Proof.
  intros (k & o & Hk & H). assert (Hlt := lookup_lt_Some _ _ _ Hk). exists k, o. rewrite lookup_app_l, take_app_le by lia. done.
Qed.

Lemma start_group n sv : group_ok sv n (start n sv).
Proof.
  constructor; cbn [start nodes sent logs answered].
  - by rewrite length_fmap, length_seqZ, Nat2Z.id.
  - by rewrite length_replicate.
  - by rewrite length_replicate.
  - intros i s l Hs [-> Hi]%lookup_replicate. rewrite list_lookup_fmap, lookup_seqZ_lt in Hs by lia. injection Hs as <-. split; [by left|].
    constructor; try done. intros j sl Hj. cbn in Hj. rewrite list_lookup_fmap in Hj. destruct (replicate _ _ !! j) as [r|] eqn:Hr; [|done].
    apply lookup_replicate in Hr as [-> _]. injection Hj as <-. by left.
  - intros i lp l _ [-> _]%lookup_replicate. apply prefix_nil.
  - intros i ms l [-> _]%lookup_replicate _. done.
  - intros l _. done.
Qed.

(** One event at node [i]. *)
Lemma event_group sv n x i s ms l ev s' o : group_ok sv n x -> nodes x !! i = Some s -> sent x !! i = Some ms -> logs x !! i = Some l ->
  deliverable x i ev -> run_event ev s = Done tt s' o -> calm s' ->
  let l' := l ++ (op_of <$> executed o) in
  core_ok sv i (core_of s') l' /\ (forall j lp, i = Datatypes.S j -> logs x !! j = Some lp -> l' `prefix_of` lp) /\
  Forall (indexed l') (forwards o) /\ Forall (answer_ok sv l') (answers_of ev o) /\ (answers_of ev o <> [] -> num_replicas - 1 <= Z.of_nat i).
Proof.
  intros Hg Hs Hm Hl Hd Hr Hc'. cbv zeta. destruct (gk_core _ _ _ Hg _ _ _ Hs Hl) as [Hc Hck].
  assert (He := run_event_wlp num_replicas max_faulty num_principals modulus MD5_sum MD5_reply MD5_request UMAC checkpoint_sig abort_verify
    abort_digest signature_entry sig_size exec_command ev s Hc).
  unfold wlp in He. rewrite Hr in He. specialize (He Hc').
  assert (Hq : core_of s' = core_of s -> silent o -> answers_of ev o = [] ->
    core_ok sv i (core_of s') (l ++ (op_of <$> executed o)) /\ (forall j lp, i = Datatypes.S j -> logs x !! j = Some lp -> l ++ (op_of <$> executed o) `prefix_of` lp) /\
    Forall (indexed (l ++ (op_of <$> executed o))) (forwards o) /\ Forall (answer_ok sv (l ++ (op_of <$> executed o))) (answers_of ev o) /\
    (answers_of ev o <> [] -> num_replicas - 1 <= Z.of_nat i)).
  { intros -> (-> & -> & _) ->. cbn. rewrite app_nil_r. split; [done|]. split; [intros j lp -> Hj; by eapply gk_prefix|]. done. }
  destruct ev as [sp msg|msg|sp| |b|k c|b]; try (destruct He; by apply Hq). destruct msg as [m|m|m|m|m|m|m|]; try (destruct He; by apply Hq).
  cbn in Hd, He. clear Hq. destruct i as [|j].
  - destruct (request_ok sv 0 _ _ l m o [] Hck He Hd) as (H1 & _ & H2); [done|]. split; [done|]. split; [done|]. cbn [answers_of]. destruct H2 as (? & ? & Ha).
    split; [done|]. split; [done|]. intros Hne. apply Ha. by destruct (answers o).
  - destruct Hd as (ms' & r & Hms & Hin & Eq & Eo).
    assert (Hlp : is_Some (logs x !! j)) by (apply lookup_lt_is_Some; apply lookup_lt_Some in Hl; lia). destruct Hlp as [lp Hlp].
    assert (Hns : is_Some (nodes x !! j)).
    { apply lookup_lt_is_Some. apply lookup_lt_Some in Hs. lia. } destruct Hns as [sj Hsj].
    destruct (gk_core _ _ _ Hg _ _ _ Hsj Hlp) as [_ Hckj]. assert (Hix := proj1 (Forall_forall _ _) (gk_indexed _ _ _ Hg _ _ _ Hms Hlp) r Hin).
    destruct Hix as (k & Hk & Ek). assert (Hgo : good_op (op_of m)) by (rewrite <- Eo; exact (Forall_lookup_1 _ _ _ _ (ck_good _ _ _ _ Hckj) Hk)).
    destruct (request_ok sv (Datatypes.S j) _ _ l m o lp Hck He Hgo) as (H1 & H2 & H3 & H4 & H5).
    { intros _. split; [exact (ck_rising _ _ _ _ Hckj)|]. split; [by eapply gk_prefix|]. exists k. by rewrite <- Eo, <- Eq. }
    split; [done|]. split; [intros j' lp' [= <-] Hlp'; simplify_eq; by apply H2|]. split; [done|]. split; [done|].
    cbn [answers_of]. intros Hne. apply H5. by destruct (answers o).
Qed.

Hypothesis replicas_ok : 0 < num_replicas.

Lemma step_group sv x y : step x y -> group_ok sv (Z.to_nat num_replicas) x -> group_ok sv (Z.to_nat num_replicas) y.
Proof.
  intros Hst Hg. destruct Hst as [x i s ms l ev s' o Hs Hm Hl Hd Hr Hc].
  destruct (event_group sv _ x i s ms l ev s' o Hg Hs Hm Hl Hd Hr Hc) as (H1 & H2 & H3 & H4 & H5).
  assert (Hil := lookup_lt_Some _ _ _ Hl). assert (Him := lookup_lt_Some _ _ _ Hm). assert (Hin := lookup_lt_Some _ _ _ Hs).
  assert (Hlog : forall j k, <[i := l ++ (op_of <$> executed o)]> (logs x) !! j = Some k ->
    (j = i /\ k = l ++ (op_of <$> executed o)) \/ (j <> i /\ logs x !! j = Some k)).
  { intros j k Hj. apply list_lookup_insert_Some in Hj as [(-> & <- & _)|(? & ?)]; [by left|right; done]. }
  constructor; cbn [after nodes sent logs answered]; rewrite ?length_insert; try apply Hg.
  - intros j t k Ht Hk. apply Hlog in Hk as [[-> ->]|[Hne Hk]].
    + rewrite list_lookup_insert_eq in Ht by done. injection Ht as <-. done.
    + rewrite list_lookup_insert_ne in Ht by done. by eapply gk_core.
  - intros j lp k Hlp Hk. apply Hlog in Hlp as [[-> ->]|[Hne Hlp]]; apply Hlog in Hk as [[? ->]|[Hne' Hk]]; [lia| | |by eapply gk_prefix].
    + apply prefix_app_r. by eapply gk_prefix.
    + by eapply H2.
  - intros j ms' k Hms Hk. apply Hlog in Hk as [[-> ->]|[Hne Hk]].
    + rewrite list_lookup_insert_eq in Hms by done. injection Hms as <-. apply Forall_app. split; [|done].
      eapply Forall_impl; [by eapply gk_indexed|]. intros. by apply indexed_grow.
    + rewrite list_lookup_insert_ne in Hms by done. by eapply gk_indexed.
  - intros k Hk. rewrite (gk_logs _ _ _ Hg) in Hil. apply Hlog in Hk as [[Ei ->]|[Hne Hk]]; apply Forall_app; (split; [|]).
    + eapply Forall_impl; [eapply gk_answered; [done|by rewrite Ei]|]. intros. by apply answer_grow.
    + done.
    + by eapply gk_answered.
    + destruct (answers_of ev o) as [|a la]; [done|]. assert (num_replicas - 1 <= Z.of_nat i) by (by apply H5). lia.
Qed.

Lemma reachable_ok sv x : rtc step (start (Z.to_nat num_replicas) sv) x -> group_ok sv (Z.to_nat num_replicas) x.
Proof.
  intros Hx. assert (H0 := start_group (Z.to_nat num_replicas) sv). revert H0 Hx. generalize (start (Z.to_nat num_replicas) sv).
  intros a Ha Hx. induction Hx; [done|]. eauto using step_group.
Qed.

Lemma prefix_chain sv x i d : group_ok sv (Z.to_nat num_replicas) x -> forall lp l,
  logs x !! i = Some lp -> logs x !! (i + d)%nat = Some l -> l `prefix_of` lp.
Proof.
  intros Hg. induction d as [|d IH]; intros lp l Hlp Hl.
  - rewrite Nat.add_0_r in Hl. by simplify_eq.
  - assert (is_Some (logs x !! (i + d)%nat)) as [k Hk] by (apply lookup_lt_is_Some; apply lookup_lt_Some in Hl; lia).
    transitivity k; [|by apply IH]. replace (i + Datatypes.S d)%nat with (Datatypes.S (i + d)) in Hl by lia. by eapply gk_prefix.
Qed.

(** C5. Agreement along the chain: in every reachable state of the group, whose clients
    use an identifier for one command and whose replicas have not stopped, what a
    replica has executed is a prefix of what every predecessor has executed, its
    service is the result of executing exactly those commands, and no client's
    identifier is executed twice. *)
Theorem chain_agreement sv x : rtc step (start (Z.to_nat num_replicas) sv) x ->
  forall i j s li lj, (i <= j)%nat -> logs x !! i = Some li -> logs x !! j = Some lj -> nodes x !! j = Some s ->
  lj `prefix_of` li /\ service s = run_log sv lj /\ rising lj.
Proof.
  intros Hx i j s li lj Hij Hi Hj Hs. apply reachable_ok in Hx. split.
  - replace j with (i + (j - i))%nat in Hj by lia. by eapply prefix_chain.
  - destruct (gk_core _ _ _ Hx _ _ _ Hs Hj) as [_ Hck]. split; [exact (ck_service _ _ _ _ Hck)|exact (ck_rising _ _ _ _ Hck)].
Qed.

(** C6. In a group with correct clients (one command per identifier) and replicas that are
    in their normal state, a reply of the last replica is backed by the whole chain: there is one
    position at which every replica has executed the command of that client with
    the identifier of the reply, and the reply is its result. *)
Theorem chain_answers sv x c rep : rtc step (start (Z.to_nat num_replicas) sv) x -> (c, rep) ∈ answered x ->
  exists k o, (forall i l, logs x !! i = Some l -> l !! k = Some o /\ cr_body rep = result sv (take k l) o) /\
    op_cid o = c /\ op_rid o = cr_rid rep.
Proof.
  intros Hx Hin. apply reachable_ok in Hx. set (t := (Z.to_nat num_replicas - 1)%nat).
  assert (is_Some (logs x !! t)) as [lt Ht] by (apply lookup_lt_is_Some; rewrite (gk_logs _ _ _ Hx); lia).
  destruct (proj1 (Forall_forall _ _) (gk_answered _ _ _ Hx lt Ht) _ Hin) as (k & o & Hk & Hc & Hr & Hb). cbn in *.
  exists k, o. split; [|done]. intros i l Hl. assert (Hi := lookup_lt_Some _ _ _ Hl). rewrite (gk_logs _ _ _ Hx) in Hi.
  assert (Hp : lt `prefix_of` l) by (eapply (prefix_chain sv x i (t - i)); [done..|by replace (i + (t - i))%nat with t by lia]).
  split; [by eapply prefix_lookup_Some|]. rewrite Hb. f_equal. destruct Hp as [z ->]. apply lookup_lt_Some in Hk. by rewrite take_app_le by lia.
Qed.

End system.

(** ** Examples *)

Section example.
Import ZlExample ChainExample.

Definition ex_entry (_ : Z) (_ : list AbortHistoryElement) (_ : nat) : AbortHistoryElement := AHE 0 0 0.
Definition ex_digest (_ : Smasher.zl_Abort) : Z := 0.
Definition ex_command (_ _ : Z) : list Z := [7].
Local Abbreviation fire_ex := (fire 4 1 20 mod_ex md5_sum md5_reply ChainAuth.ex_MD5 ChainAuth.ex_UMAC sig_yes sig_yes ex_digest ex_entry 128 log_service).
Local Abbreviation hand_ex := (hand_over 4 1 20 mod_ex md5_sum md5_reply ChainAuth.ex_MD5 ChainAuth.ex_UMAC sig_yes sig_yes ex_digest ex_entry 128 log_service).
Local Abbreviation step_ex := (step 4 1 20 mod_ex md5_sum md5_reply ChainAuth.ex_MD5 ChainAuth.ex_UMAC sig_yes sig_yes ex_digest ex_entry 128 log_service ex_command).

(** Client 9 connects to the last replica, and its request passes the chain. *)
Definition ex_start : system := start 1 20 4 (@nil Z).
Definition ex_run : option system :=
  x ← fire_ex ex_start 3 (Connect 0 6); x ← fire_ex x 0 (Deliver false (C_Request_msg ex_new));
  x ← hand_ex x 0; x ← hand_ex x 1; hand_ex x 2.

Definition ex_end : system := default ex_start ex_run.

Ltac calm_nodes := vm_compute; repeat constructor.

Lemma ex_reachable : rtc step_ex (start 1 20 (Z.to_nat 4) []) ex_end.
Proof.
  assert (H : exists x1 x2 x3 x4 x5, fire_ex ex_start 3 (Connect 0 6) = Some x1 /\ fire_ex x1 0 (Deliver false (C_Request_msg ex_new)) = Some x2 /\
    hand_ex x2 0 = Some x3 /\ hand_ex x3 1 = Some x4 /\ hand_ex x4 2 = Some x5 /\ ex_end = x5 /\
    all_calm x1 /\ all_calm x2 /\ all_calm x3 /\ all_calm x4 /\ all_calm x5).
  { eexists _, _, _, _, _. do 5 (split; [vm_compute; reflexivity|]). split; [vm_compute; reflexivity|].
    repeat (split; [calm_nodes|]). calm_nodes. }
  destruct H as (x1 & x2 & x3 & x4 & x5 & H1 & H2 & H3 & H4 & H5 & -> & C1 & C2 & C3 & C4 & C5).
  eapply rtc_l; [by eapply fire_chain|]. eapply rtc_l; [eapply fire_chain; [done| |done]; by vm_compute|].
  do 2 (eapply rtc_l; [by eapply hand_over_chain|]). apply rtc_once. by eapply hand_over_chain.
Qed.

Lemma ex_logs : logs ex_end = replicate 4 [mk_op 9 1 [7]].
Proof. vm_compute. reflexivity. Qed.

Lemma chain_agreement_witness : exists s, nodes ex_end !! 3%nat = Some s /\ service s = [7].
Proof.
  destruct (nodes ex_end !! 3%nat) as [s|] eqn:Hs; [|vm_compute in Hs; discriminate]. exists s. split; [done|].
  assert (H := chain_agreement 4 1 20 mod_ex md5_sum md5_reply ChainAuth.ex_MD5 ChainAuth.ex_UMAC sig_yes sig_yes ex_digest ex_entry 128 log_service ex_command
    ltac:(lia) [] ex_end ex_reachable 0%nat 3%nat s [mk_op 9 1 [7]] [mk_op 9 1 [7]] ltac:(lia) ltac:(by rewrite ex_logs) ltac:(by rewrite ex_logs) Hs).
  destruct H as (_ & -> & _). reflexivity.
Defined.

Lemma chain_answers_witness : exists rep k o, answered ex_end = [(9, rep)] /\
  (forall i l, logs ex_end !! i = Some l -> l !! k = Some o /\ cr_body rep = result log_service [] (take k l) o) /\ op_cid o = 9 /\ op_rid o = cr_rid rep.
Proof.
  destruct (answered ex_end) as [|[c rep] []] eqn:Ha; try (vm_compute in Ha; discriminate).
  assert (c = 9) as -> by (vm_compute in Ha; congruence). exists rep.
  assert (Hin : (9, rep) ∈ answered ex_end) by (rewrite Ha; apply list_elem_of_here).
  destruct (chain_answers 4 1 20 mod_ex md5_sum md5_reply ChainAuth.ex_MD5 ChainAuth.ex_UMAC sig_yes sig_yes ex_digest ex_entry 128 log_service ex_command
    ltac:(lia) [] ex_end 9 rep ex_reachable Hin) as (k & o & H). exists k, o. split; [reflexivity|exact H].
Defined.

(** Two requests of client 9 with one identifier: the words of the first have no
    MAC for replica 1. *)
Definition ex_bad : C_Request := ChainAuth.ex_request [5; 1090005; 0; 0; 0; 0; 0].
Definition ex_other : C_Request := mk_creq 0 104 0 0 0 9 1 [8] client_words.

(** Replicas 0 and 1 agree only on the requests of correct clients: a client
    that sends two commands under one identifier, the first without the MAC for
    replica 1, makes the head execute the first and replica 1 the second under
    the same number. *)
Theorem faulty_client_diverges : exists x y z w,
  fire_ex ex_start 0 (Deliver false (C_Request_msg ex_bad)) = Some x /\ hand_ex x 0 = Some y /\
  fire_ex y 0 (Deliver false (C_Request_msg ex_other)) = Some z /\ hand_ex z 0 = Some w /\
  logs w !! 0%nat = Some [mk_op 9 1 [7]] /\ logs w !! 1%nat = Some [mk_op 9 1 [8]].
Proof. eexists _, _, _, _. do 4 (split; [vm_compute; reflexivity|]). split; vm_compute; reflexivity. Qed.

End example.
End ChainSystem.
