(* ===== verification/CkptStore.v ===== *)
(** * Checkpoint stores

    Models [src/protocols/common/Set.h] (a set of messages with one slot per
    replica) and the class [O_Checkpoint_Store] of
    [src/protocols/cbft/O_Replica.h]: the checkpoint sets collected so far, in
    two parallel arrays of which the part between [lower] and [upper] is live,
    compacted when [lower] passes a threshold.  [Array::operator[]] asserts its
    index: every access is checked.

    The store implements a queue of numbered sets: [find] is the first set with
    the number, [remove] drops it and everything before it. *)

From S2P Require Import Prelude.
Local Open Scope Z_scope.

(** ** [Set<T>] *)

Module CSet.
Section cset.
Context {T : Type} (id : T -> Z).

Record t := mk { elems : list (option T); cur_size : Z }.

Definition create (sz : nat) : t := mk (replicate sz None) 0.
Definition size (s : t) : Z := cur_size s.

(** The slot of an identifier: [None] outside the array. *)
Definition slot (s : t) (i : Z) : option (option T) :=
  if i <? 0 then None else elems s !! Z.to_nat i.

Definition store (s : t) (e : T) : t * bool :=
  match slot s (id e) with
  | Some None => (mk (<[Z.to_nat (id e) := Some e]> (elems s)) (cur_size s + 1), true)
  | _ => (s, false)
  end.

Definition fetch (s : t) (i : Z) : option T := mjoin (slot s i).

Definition remove (s : t) (i : Z) : t * option T :=
  match slot s i with
  | Some (Some e) => (mk (<[Z.to_nat i := None]> (elems s)) (cur_size s - 1), Some e)
  | _ => (s, None)
  end.

(** [clear] leaves [cur_size] as it is. *)
Definition clear (s : t) : t := mk (replicate (length (elems s)) None) (cur_size s).

(** ** The size counts the slots in use *)

Definition members (s : t) : list T := omap Datatypes.id (elems s).

Record wf (s : t) : Prop := {
  wf_size : cur_size s = Z.of_nat (length (members s));
  wf_slots : forall i e, elems s !! i = Some (Some e) -> id e = Z.of_nat i
}.

Lemma members_le s : (length (members s) <= length (elems s))%nat.
Proof. unfold members. induction (elems s) as [|[a|] l IH]; csimpl; lia. Qed.

Lemma omap_insert_Some (l : list (option T)) i a : l !! i = Some None ->
  length (omap Datatypes.id (<[i := Some a]> l)) = S (length (omap Datatypes.id l)).
Proof.
  revert i. induction l as [|oa l IH]; intros [|i] Hi; simplify_eq/=; [done|].
  destruct oa; csimpl; by rewrite (IH i Hi).
Qed.

Lemma cset_create_wf n : wf (create n).
Proof.
  split.
  - unfold members, create. simpl. by induction n as [|n IH]; csimpl.
  - intros i e [[=] _]%lookup_replicate.
Qed.

Lemma store_wf s e : wf s -> wf (store s e).1 /\ length (elems (store s e).1) = length (elems s).
Proof.
  intros Hs. unfold store, slot. case_bool; [done|].
  destruct (elems s !! Z.to_nat (id e)) as [[x|]|] eqn:E; simpl; [done| |done].
  bsimp. split; [|by rewrite length_insert]. destruct Hs as [Hsz Hsl]. split.
  - unfold members. simpl. rewrite (omap_insert_Some _ _ e E), Hsz. unfold members. lia.
  - intros i y Hy. apply list_lookup_insert_Some in Hy as [(<- & Hy & _)|(_ & Hy)]; [|by apply Hsl].
    injection Hy as <-. lia.
Qed.

(** A full set has a message of every replica. *)
Lemma full_fetch s i : wf s -> cur_size s = Z.of_nat (length (elems s)) -> 0 <= i < cur_size s ->
  exists e, fetch s i = Some e /\ id e = i.
Proof.
  intros [Hsz Hsl] Hf Hi. rewrite Hf in Hsz, Hi. unfold members in Hsz. unfold fetch, slot.
  rewrite (proj2 (Z.ltb_ge _ _)) by lia.
  assert (Hall : forall l : list (option T), length l = length (omap Datatypes.id l) ->
            forall k, (k < length l)%nat -> exists e, l !! k = Some (Some e)).
  { induction l as [|[a|] l IH]; intros Hl k Hk; csimpl in *; [lia| |].
    - destruct k as [|k]; [by exists a|]. apply IH; lia.
    - exfalso. assert (length (omap Datatypes.id l) <= length l)%nat; [|lia].
      clear. induction l as [|[a|] l IH]; csimpl; lia. }
  destruct (Hall (elems s) ltac:(lia) (Z.to_nat i) ltac:(lia)) as [e He]. rewrite He.
  exists e. split; [done|]. rewrite (Hsl _ _ He). lia.
Qed.

(** After [clear] the set is empty but counts as many elements as before. *)
Lemma clear_keeps_size s : members (clear s) = [] /\ size (clear s) = size s.
Proof. split; [|done]. unfold members, clear. simpl. by induction (length (elems s)); csimpl. Qed.
End cset.
Arguments t : clear implicits.
End CSet.

(** ** [O_Checkpoint_Store] *)

Module CkptStore.
Section store.
Context {A : Type} (TRUNCATE_SIZE : nat).

Record t := mk {
  by_chk_id : list Z; by_set : list A; size : nat; lower : nat; upper : nat; last_removed : Z
}.

Definition create : t := mk [] [] 0 0 0 0.
Definition clear_all (_ : t) : t := mk [] [] 0 0 0 0.
Definition last (st : t) : Z := last_removed st.

Definition add (st : t) (sq : Z) (x : A) : t :=
  mk (by_chk_id st ++ [sq]) (by_set st ++ [x]) (S (size st)) (lower st) (S (upper st)) (last_removed st).

(** [while (pos < upper)], [n] positions left: the outer [None] is a failed
    bounds assertion. *)
Fixpoint find_from (st : t) (sq : Z) (pos n : nat) : option (option nat) :=
  match n with
  | O => Some None
  | S n' => k ← by_chk_id st !! pos;
            if k =? sq then Some (Some pos) else find_from st sq (S pos) n'
  end.

(** [find(seq, &set)]: the position of the set, which the caller updates in
    place. *)
Definition find (st : t) (sq : Z) : option (option (nat * A)) :=
  r ← find_from st sq (lower st) (upper st - lower st);
  match r with
  | None => Some None
  | Some pos => x ← by_set st !! pos; Some (Some (pos, x))
  end.

Definition set_at (st : t) (pos : nat) (x : A) : t :=
  mk (by_chk_id st) (<[pos := x]> (by_set st)) (size st) (lower st) (upper st) (last_removed st).

(** [for (i = 0; i < size; i++) a[i] = a[i+lower]], from [i] on. *)
Fixpoint shift {B} (l : list B) (low i n : nat) : option (list B) :=
  match n with
  | O => Some l
  | S n' => x ← l !! (i + low)%nat;
            if (i <? length l)%nat then shift (<[i := x]> l) low (S i) n' else None
  end.

Definition remove (st : t) (sq : Z) : option t :=
  r ← find_from st sq (lower st) (upper st - lower st);
  match r with
  | None => Some st
  | Some pos =>
    let size' := (size st - (pos - lower st + 1))%nat in
    let lower' := S pos in
    if (TRUNCATE_SIZE <? lower')%nat then
      ids ← shift (by_chk_id st) lower' 0 size';
      sets ← shift (by_set st) lower' 0 size';
      Some (mk (take size' ids) (take size' sets) size' 0 (upper st - lower') sq)
    else Some (mk (by_chk_id st) (by_set st) size' lower' (upper st) sq)
  end.

(** ** The queue it implements *)

Record wf (st : t) : Prop := {
  wf_ids : length (by_chk_id st) = upper st;
  wf_sets : length (by_set st) = upper st;
  wf_low : (lower st <= upper st)%nat;
  wf_count : size st = (upper st - lower st)%nat
}.

Definition contents (st : t) : list (Z * A) := drop (lower st) (zip (by_chk_id st) (by_set st)).

(** The specification of [find] and [remove] on the queue. *)
Fixpoint lookup (q : list (Z * A)) (sq : Z) : option (nat * A) :=
  match q with
  | [] => None
  | (k, x) :: q' => if k =? sq then Some (O, x) else prod_map S Datatypes.id <$> lookup q' sq
  end.

Definition drop_to (q : list (Z * A)) (sq : Z) : list (Z * A) :=
  match lookup q sq with None => q | Some (i, _) => drop (S i) q end.

Lemma contents_length st : wf st -> length (contents st) = (upper st - lower st)%nat.
Proof. intros [Hi Hs _ _]. unfold contents. rewrite length_drop, length_zip. lia. Qed.

Lemma contents_cons st pos n : wf st -> (pos + S n = upper st)%nat ->
  exists k x, by_chk_id st !! pos = Some k /\ by_set st !! pos = Some x /\
    drop pos (zip (by_chk_id st) (by_set st)) = (k, x) :: drop (S pos) (zip (by_chk_id st) (by_set st)).
Proof.
  intros [Hi Hs _ _] Hp.
  destruct (lookup_lt_is_Some_2 (by_chk_id st) pos ltac:(lia)) as [k Hk].
  destruct (lookup_lt_is_Some_2 (by_set st) pos ltac:(lia)) as [x Hx].
  exists k, x. split; [done|]. split; [done|]. apply drop_S. apply lookup_zip_with_Some. eauto.
Qed.

Lemma find_from_ok st sq n : wf st -> forall pos, (pos + n = upper st)%nat ->
  match lookup (drop pos (zip (by_chk_id st) (by_set st))) sq with
  | None => find_from st sq pos n = Some None
  | Some (i, x) => find_from st sq pos n = Some (Some (pos + i)%nat) /\ by_set st !! (pos + i)%nat = Some x /\
                   (pos + i < upper st)%nat
  end.
Proof.
  intros Hw. induction n as [|n IH]; intros pos Hp.
  - destruct Hw. rewrite drop_ge by (rewrite length_zip; lia). done.
  - destruct (contents_cons st pos n Hw Hp) as (k & x & Hk & Hx & ->). simpl. rewrite Hk. simpl.
    destruct (k =? sq); simpl; [rewrite Nat.add_0_r; split; [done|]; split; [done|lia]|].
    specialize (IH (S pos) ltac:(lia)).
    destruct (lookup (drop (S pos) _) sq) as [[i y]|]; simpl; [|done].
    by rewrite <- Nat.add_succ_comm.
Qed.

Lemma find_ok st sq : wf st ->
  match lookup (contents st) sq with
  | None => find st sq = Some None
  | Some (i, x) => find st sq = Some (Some ((lower st + i)%nat, x)) /\
                   find_from st sq (lower st) (upper st - lower st) = Some (Some (lower st + i)%nat) /\
                   (lower st + i < upper st)%nat
  end.
Proof.
  intros Hw. pose proof (find_from_ok st sq (upper st - lower st) Hw (lower st)) as H.
  unfold contents, find. destruct Hw. specialize (H ltac:(lia)).
  destruct (lookup _ sq) as [[i x]|]; [|by rewrite H]. destruct H as (-> & Hx & ?). simpl. by rewrite Hx.
Qed.

(** Compaction moves the live part to the front. *)
Lemma shift_ok {B} (l : list B) low n : forall i, (0 < low)%nat -> (i + low + n <= length l)%nat ->
  exists l', shift l low i n = Some l' /\ length l' = length l /\
    take (i + n) l' = take i l ++ take n (drop (i + low) l) .
Proof.
  revert l. induction n as [|n IH]; intros l i Hlow Hn.
  - exists l. split; [done|]. split; [done|]. by rewrite Nat.add_0_r, take_0, app_nil_r.
  - simpl. destruct (lookup_lt_is_Some_2 l (i + low)%nat ltac:(lia)) as [x Hx]. rewrite Hx. simpl.
    rewrite (proj2 (Nat.ltb_lt _ _)) by lia.
    destruct (IH (<[i := x]> l) (S i) Hlow ltac:(rewrite length_insert; lia)) as (l' & -> & Hl & Ht).
    exists l'. split; [done|]. rewrite length_insert in Hl. split; [done|].
    replace (i + S n)%nat with (S i + n)%nat by lia. rewrite Ht.
    rewrite drop_insert_lt by lia. rewrite (drop_S _ _ _ Hx). simpl.
    rewrite (take_S_r _ _ x) by (apply list_lookup_insert_eq; lia).
    rewrite take_insert_ge by lia. by rewrite <- app_assoc.
Qed.

Lemma zip_take {B C} (l : list B) (k : list C) n : zip (take n l) (take n k) = take n (zip l k).
Proof. revert l k. induction n as [|n IH]; intros [|x l] [|y k]; simpl; try done. by rewrite IH. Qed.

Lemma zip_drop {B C} (l : list B) (k : list C) n : zip (drop n l) (drop n k) = drop n (zip l k).
Proof.
  revert l k. induction n as [|n IH]; intros [|x l] [|y k]; simpl; try done; try apply IH.
  by destruct (drop n l).
Qed.

Lemma ckpt_remove_ok st sq : wf st ->
  exists st', remove st sq = Some st' /\ wf st' /\ contents st' = drop_to (contents st) sq /\
    last st' = if lookup (contents st) sq then sq else last st.
Proof.
  intros Hw. pose proof (find_ok st sq Hw) as Hf. unfold remove, drop_to.
  destruct (lookup (contents st) sq) as [[i x]|] eqn:El.
  2:{ assert (find_from st sq (lower st) (upper st - lower st) = Some None) as ->; [|by eexists].
      pose proof (find_from_ok st sq (upper st - lower st) Hw (lower st)) as H.
      unfold contents in El. rewrite El in H. apply H. destruct Hw. lia. }
  destruct Hf as (_ & -> & Hlt). cbn [mbind option_bind].
  pose proof Hw as [Hi Hs Hlow Hc]. set (pos := (lower st + i)%nat) in *.
  assert (Hsz : (size st - (pos - lower st + 1) = upper st - S pos)%nat) by lia. rewrite Hsz.
  assert (Hdrop : drop (S i) (contents st) = drop (S pos) (zip (by_chk_id st) (by_set st))).
  { unfold contents. rewrite drop_drop. f_equal. unfold pos. lia. }
  rewrite Hdrop. destruct (TRUNCATE_SIZE <? S pos)%nat.
  - destruct (shift_ok (by_chk_id st) (S pos) (upper st - S pos) 0 ltac:(lia) ltac:(lia)) as (ids & -> & Hl1 & Ht1).
    destruct (shift_ok (by_set st) (S pos) (upper st - S pos) 0 ltac:(lia) ltac:(lia)) as (sets & -> & Hl2 & Ht2).
    cbn [mbind option_bind]. eexists. split; [done|]. split; [|split; [|done]].
    + constructor; simpl; rewrite ?length_take; lia.
    + unfold contents. cbn [lower by_chk_id by_set]. cbn [plus] in Ht1, Ht2. rewrite take_0 in Ht1. rewrite take_0 in Ht2. simpl app in Ht1, Ht2. rewrite drop_0, Ht1, Ht2, zip_take, zip_drop.
      apply take_ge. rewrite length_drop, length_zip. lia.
  - eexists. split; [done|]. split; [constructor; simpl; lia|]. done.
Qed.

Lemma ckpt_add_ok st sq x : wf st -> wf (add st sq x) /\ contents (add st sq x) = contents st ++ [(sq, x)] /\
  last (add st sq x) = last st.
Proof.
  intros [Hi Hs Hl Hc]. split; [constructor; simpl; rewrite ?length_app; simpl; lia|]. split; [|done].
  unfold contents. simpl. rewrite zip_with_app by lia. simpl. apply drop_app_le. rewrite length_zip. lia.
Qed.

Lemma set_at_ok st i x : wf st -> (i < length (contents st))%nat ->
  wf (set_at st (lower st + i) x) /\
  contents (set_at st (lower st + i) x) = alter (fun p => (p.1, x)) i (contents st).
Proof.
  intros Hw Hi. rewrite (contents_length _ Hw) in Hi. destruct Hw as [Hi' Hs Hl Hc].
  split; [constructor; simpl; rewrite ?length_insert; lia|].
  unfold contents, set_at. simpl. apply list_eq. intros j. rewrite lookup_drop.
  destruct (decide (j = i)) as [->|Hj].
  - rewrite list_lookup_alter_eq, lookup_drop, !lookup_zip_with.
    destruct (by_chk_id st !! (lower st + i)%nat); simpl; [|done].
    rewrite list_lookup_insert_eq by lia. simpl.
    destruct (lookup_lt_is_Some_2 (by_set st) (lower st + i)%nat ltac:(lia)) as [y ->]. done.
  - rewrite list_lookup_alter_ne by done. rewrite lookup_drop, !lookup_zip_with.
    destruct (by_chk_id st !! (lower st + j)%nat); simpl; [|done].
    by rewrite list_lookup_insert_ne by lia.
Qed.

(** C28. The store is a queue of numbered checkpoint sets, whatever has been
    added, removed and compacted before: adding appends; finding gives the first
    set with the number, at a position where updating it updates that set only;
    removing a number drops its set and the earlier ones, remembers the number,
    and never reads or writes outside the arrays. *)
Theorem store_is_queue st sq x : wf st ->
  contents (add st sq x) = contents st ++ [(sq, x)] /\
  (exists st', remove st sq = Some st' /\ wf st' /\ contents st' = drop_to (contents st) sq /\
     last st' = if lookup (contents st) sq then sq else last st) /\
  match lookup (contents st) sq with
  | None => find st sq = Some None
  | Some (i, y) => exists pos, find st sq = Some (Some (pos, y)) /\ wf (set_at st pos x) /\
      contents (set_at st pos x) = alter (fun p => (p.1, x)) i (contents st)
  end.
Proof.
  intros Hw. split; [by apply ckpt_add_ok|]. split; [by apply ckpt_remove_ok|].
  pose proof (find_ok st sq Hw) as Hf. destruct (lookup (contents st) sq) as [[i y]|]; [|done].
  destruct Hf as (Hf & _ & Hlt). eexists. split; [exact Hf|]. apply set_at_ok; [done|].
  rewrite (contents_length _ Hw). lia.
Qed.

Lemma create_ok : wf create /\ contents create = [].
Proof. by repeat split. Qed.
End store.
Arguments t : clear implicits.

(** A store that keeps two removed numbers before it compacts. *)
Definition store_ex : t Z := add (add (add (add create 10 1) 20 2) 30 3) 40 4.

Lemma store_is_queue_witness :
  contents (add store_ex 50 5) = [(10, 1); (20, 2); (30, 3); (40, 4); (50, 5)] /\
  exists st, remove 2 store_ex 30 = Some st /\ contents st = [(40, 4)] /\ last st = 30.
Proof.
  assert (Hw : wf store_ex) by (constructor; simpl; lia).
  destruct (store_is_queue 2 store_ex 50 5 Hw) as [Ha _].
  destruct (store_is_queue 2 store_ex 30 0 Hw) as (_ & (st & Hr & _ & Hc & Hl) & _).
  split; [exact Ha|]. exists st. split; [exact Hr|]. split; [exact Hc|exact Hl].
Defined.
End CkptStore.
