(* ===== verification/Quorum.v ===== *)
(** * The Quorum replica

    Models [src/protocols/quorum/Q_Replica.{h,cc}] (every message handler,
    [execute_request], the timers and the switching operations), with
    [Q_Rep_info.{h,cc}], [Q_Request::verify] and [comp_digest], and the
    constructor of [Q_Abort].

    Quorum has no primary: clients multicast their requests, and a replica that
    verifies a request executes it at once, under its own sequence number.  The
    record of timers, checkpoint sets, reply tables, abort certificates and the
    messages of the switch are those of ZLight, whose classes are textually the
    same; the handlers differ in their order of checks and in their locking.

    A handler is a computation of the monad [M]: it threads the replica state,
    accumulates its outputs, and may end in a [fault].  Handlers are atomic; the
    cryptography, the service and the robust monitor's verdict are parameters.

    The theorems: a replica is a total at-most-once state machine as long as
    requests name principals and carry positive identifiers; a fresh verified
    request is executed and, when its result is not empty, answered; and
    (findings) an empty result is never answered, the last eight bytes of a
    command are authenticated by nothing, and the switch leaves a mutex held. *)

From Stdlib Require Import Sorted.
From S2P Require Import Prelude Effects Bytes ReqHistory SCSet Recover Smasher Certificate Reply ZlReplica AtMostOnce.
Local Open Scope Z_scope.

(** ** Messages *)

(** [Q_Message_rep] (less its tag), [Q_Request_rep], the command and the
    authenticator that follow them.  [qq_command] is the [command_size] bytes behind the
    header, whether or not they lie within the [qq_size] bytes of the message. *)
Record Q_Request := mk_qreq {
  qq_extra : Z; qq_size : Z; qq_od : Z; qq_replier : Z; qq_cid : Z; qq_rid : Z; qq_unused : Z;
  qq_command : list Z; qq_auth : list Z
}.

#[export] Instance Q_Request_AReq : AReq Q_Request :=
  { client_id := qq_cid; request_id := qq_rid; req_digest := qq_od }.

Definition q_with_od (d : Z) (r : Q_Request) : Q_Request :=
  mk_qreq (qq_extra r) (qq_size r) d (qq_replier r) (qq_cid r) (qq_rid r) (qq_unused r) (qq_command r) (qq_auth r).

Record Q_Get_a_grip := mk_qgag { qg_cid : Z; qg_rid : Z; qg_replica : Z; qg_seqno : Z; qg_request : Q_Request }.

(** The messages, by tag; checkpoints, panics, aborts and missing lists have
    the fields of those of ZLight. *)
Inductive Q_Message :=
| Q_Request_msg (m : Q_Request)
| Q_Checkpoint_msg (m : zl_Checkpoint)
| Q_Panic_msg (m : zl_Panic)
| Q_Abort_msg (m : Smasher.zl_Abort)
| Q_Missing_msg (m : zl_Missing)
| Q_Get_a_grip_msg (m : Q_Get_a_grip)
| Q_Unknown_msg.

Inductive Q_output :=
| Q_Executed (r : Q_Request)
| Q_Send_reply (dest : Z) (r : Reply.t)
| Q_Send_panic (p : zl_Panic)
| QM_panic (p : zl_Panic)
| QM_abort (a : Smasher.zl_Abort)
| QM_missing (m : zl_Missing)
| QM_gag (dest : Z) (g : Q_Get_a_grip)
| QM_rep_notif
| QM_switch (p : protocols_e)
| Q_Switch_other (p : protocols_e) (b : bool).

Module Quorum.
Import Bytes.
Section quorum.
Context {S : Type}.

Record state := mk_state {
  node_id : Z;
  seqno : Z;
  req_count_switch : Z;
  replies : list Rep_entry;
  nb_retransmissions : Z;
  rh : ReqHistory.t Q_Request;
  checkpoint_in_progress : bool;
  current_nb_requests_while_checkpointing : Z;
  current_checkpoints : gmap Z CheckpointSet;
  last_chkp_seqno : Z;
  checkpointing_mutex : bool;
  switching_mutex : bool;
  cur_state : replica_state;
  aborts : Smasher.Abort_certificate;
  ah_2 : option (list AbortHistoryElement);
  missing : option (list AbortHistoryElement);
  num_missing : Z;
  missing_mask : list bool;
  missing_store : list (option Q_Request);
  missing_store_seq : list Z;
  n_retrans : Z;
  rtimer : timer_state;
  ctimer : timer_state;
  outstanding : list (Z * Z);
  service : S
}.

Definition set_seqno (x : Z) (s : state) : state :=
  mk_state (node_id s) x (req_count_switch s) (replies s) (nb_retransmissions s) (rh s) (checkpoint_in_progress s)
    (current_nb_requests_while_checkpointing s) (current_checkpoints s) (last_chkp_seqno s) (checkpointing_mutex s)
    (switching_mutex s) (cur_state s) (aborts s) (ah_2 s) (missing s) (num_missing s) (missing_mask s)
    (missing_store s) (missing_store_seq s) (n_retrans s) (rtimer s) (ctimer s) (outstanding s) (service s).
Definition set_req_count_switch (x : Z) (s : state) : state :=
  mk_state (node_id s) (seqno s) x (replies s) (nb_retransmissions s) (rh s) (checkpoint_in_progress s)
    (current_nb_requests_while_checkpointing s) (current_checkpoints s) (last_chkp_seqno s) (checkpointing_mutex s)
    (switching_mutex s) (cur_state s) (aborts s) (ah_2 s) (missing s) (num_missing s) (missing_mask s)
    (missing_store s) (missing_store_seq s) (n_retrans s) (rtimer s) (ctimer s) (outstanding s) (service s).
Definition set_replies (x : list Rep_entry) (s : state) : state :=
  mk_state (node_id s) (seqno s) (req_count_switch s) x (nb_retransmissions s) (rh s) (checkpoint_in_progress s)
    (current_nb_requests_while_checkpointing s) (current_checkpoints s) (last_chkp_seqno s) (checkpointing_mutex s)
    (switching_mutex s) (cur_state s) (aborts s) (ah_2 s) (missing s) (num_missing s) (missing_mask s)
    (missing_store s) (missing_store_seq s) (n_retrans s) (rtimer s) (ctimer s) (outstanding s) (service s).
Definition set_nb_retransmissions (x : Z) (s : state) : state :=
  mk_state (node_id s) (seqno s) (req_count_switch s) (replies s) x (rh s) (checkpoint_in_progress s)
    (current_nb_requests_while_checkpointing s) (current_checkpoints s) (last_chkp_seqno s) (checkpointing_mutex s)
    (switching_mutex s) (cur_state s) (aborts s) (ah_2 s) (missing s) (num_missing s) (missing_mask s)
    (missing_store s) (missing_store_seq s) (n_retrans s) (rtimer s) (ctimer s) (outstanding s) (service s).
Definition set_rh (x : ReqHistory.t Q_Request) (s : state) : state :=
  mk_state (node_id s) (seqno s) (req_count_switch s) (replies s) (nb_retransmissions s) x
    (checkpoint_in_progress s) (current_nb_requests_while_checkpointing s) (current_checkpoints s)
    (last_chkp_seqno s) (checkpointing_mutex s) (switching_mutex s) (cur_state s) (aborts s) (ah_2 s) (missing s)
    (num_missing s) (missing_mask s) (missing_store s) (missing_store_seq s) (n_retrans s) (rtimer s) (ctimer s)
    (outstanding s) (service s).
Definition set_checkpoint_in_progress (x : bool) (s : state) : state :=
  mk_state (node_id s) (seqno s) (req_count_switch s) (replies s) (nb_retransmissions s) (rh s) x
    (current_nb_requests_while_checkpointing s) (current_checkpoints s) (last_chkp_seqno s) (checkpointing_mutex s)
    (switching_mutex s) (cur_state s) (aborts s) (ah_2 s) (missing s) (num_missing s) (missing_mask s)
    (missing_store s) (missing_store_seq s) (n_retrans s) (rtimer s) (ctimer s) (outstanding s) (service s).
Definition set_current_nb_requests_while_checkpointing (x : Z) (s : state) : state :=
  mk_state (node_id s) (seqno s) (req_count_switch s) (replies s) (nb_retransmissions s) (rh s)
    (checkpoint_in_progress s) x (current_checkpoints s) (last_chkp_seqno s) (checkpointing_mutex s)
    (switching_mutex s) (cur_state s) (aborts s) (ah_2 s) (missing s) (num_missing s) (missing_mask s)
    (missing_store s) (missing_store_seq s) (n_retrans s) (rtimer s) (ctimer s) (outstanding s) (service s).
Definition set_current_checkpoints (x : gmap Z CheckpointSet) (s : state) : state :=
  mk_state (node_id s) (seqno s) (req_count_switch s) (replies s) (nb_retransmissions s) (rh s)
    (checkpoint_in_progress s) (current_nb_requests_while_checkpointing s) x (last_chkp_seqno s)
    (checkpointing_mutex s) (switching_mutex s) (cur_state s) (aborts s) (ah_2 s) (missing s) (num_missing s)
    (missing_mask s) (missing_store s) (missing_store_seq s) (n_retrans s) (rtimer s) (ctimer s) (outstanding s)
    (service s).
Definition set_last_chkp_seqno (x : Z) (s : state) : state :=
  mk_state (node_id s) (seqno s) (req_count_switch s) (replies s) (nb_retransmissions s) (rh s)
    (checkpoint_in_progress s) (current_nb_requests_while_checkpointing s) (current_checkpoints s) x
    (checkpointing_mutex s) (switching_mutex s) (cur_state s) (aborts s) (ah_2 s) (missing s) (num_missing s)
    (missing_mask s) (missing_store s) (missing_store_seq s) (n_retrans s) (rtimer s) (ctimer s) (outstanding s)
    (service s).
Definition set_checkpointing_mutex (x : bool) (s : state) : state :=
  mk_state (node_id s) (seqno s) (req_count_switch s) (replies s) (nb_retransmissions s) (rh s)
    (checkpoint_in_progress s) (current_nb_requests_while_checkpointing s) (current_checkpoints s)
    (last_chkp_seqno s) x (switching_mutex s) (cur_state s) (aborts s) (ah_2 s) (missing s) (num_missing s)
    (missing_mask s) (missing_store s) (missing_store_seq s) (n_retrans s) (rtimer s) (ctimer s) (outstanding s)
    (service s).
Definition set_switching_mutex (x : bool) (s : state) : state :=
  mk_state (node_id s) (seqno s) (req_count_switch s) (replies s) (nb_retransmissions s) (rh s)
    (checkpoint_in_progress s) (current_nb_requests_while_checkpointing s) (current_checkpoints s)
    (last_chkp_seqno s) (checkpointing_mutex s) x (cur_state s) (aborts s) (ah_2 s) (missing s) (num_missing s)
    (missing_mask s) (missing_store s) (missing_store_seq s) (n_retrans s) (rtimer s) (ctimer s) (outstanding s)
    (service s).
Definition set_cur_state (x : replica_state) (s : state) : state :=
  mk_state (node_id s) (seqno s) (req_count_switch s) (replies s) (nb_retransmissions s) (rh s)
    (checkpoint_in_progress s) (current_nb_requests_while_checkpointing s) (current_checkpoints s)
    (last_chkp_seqno s) (checkpointing_mutex s) (switching_mutex s) x (aborts s) (ah_2 s) (missing s)
    (num_missing s) (missing_mask s) (missing_store s) (missing_store_seq s) (n_retrans s) (rtimer s) (ctimer s)
    (outstanding s) (service s).
Definition set_aborts (x : Smasher.Abort_certificate) (s : state) : state :=
  mk_state (node_id s) (seqno s) (req_count_switch s) (replies s) (nb_retransmissions s) (rh s)
    (checkpoint_in_progress s) (current_nb_requests_while_checkpointing s) (current_checkpoints s)
    (last_chkp_seqno s) (checkpointing_mutex s) (switching_mutex s) (cur_state s) x (ah_2 s) (missing s)
    (num_missing s) (missing_mask s) (missing_store s) (missing_store_seq s) (n_retrans s) (rtimer s) (ctimer s)
    (outstanding s) (service s).
Definition set_ah_2 (x : option (list AbortHistoryElement)) (s : state) : state :=
  mk_state (node_id s) (seqno s) (req_count_switch s) (replies s) (nb_retransmissions s) (rh s)
    (checkpoint_in_progress s) (current_nb_requests_while_checkpointing s) (current_checkpoints s)
    (last_chkp_seqno s) (checkpointing_mutex s) (switching_mutex s) (cur_state s) (aborts s) x (missing s)
    (num_missing s) (missing_mask s) (missing_store s) (missing_store_seq s) (n_retrans s) (rtimer s) (ctimer s)
    (outstanding s) (service s).
Definition set_missing (x : option (list AbortHistoryElement)) (s : state) : state :=
  mk_state (node_id s) (seqno s) (req_count_switch s) (replies s) (nb_retransmissions s) (rh s)
    (checkpoint_in_progress s) (current_nb_requests_while_checkpointing s) (current_checkpoints s)
    (last_chkp_seqno s) (checkpointing_mutex s) (switching_mutex s) (cur_state s) (aborts s) (ah_2 s) x
    (num_missing s) (missing_mask s) (missing_store s) (missing_store_seq s) (n_retrans s) (rtimer s) (ctimer s)
    (outstanding s) (service s).
Definition set_num_missing (x : Z) (s : state) : state :=
  mk_state (node_id s) (seqno s) (req_count_switch s) (replies s) (nb_retransmissions s) (rh s)
    (checkpoint_in_progress s) (current_nb_requests_while_checkpointing s) (current_checkpoints s)
    (last_chkp_seqno s) (checkpointing_mutex s) (switching_mutex s) (cur_state s) (aborts s) (ah_2 s) (missing s) x
    (missing_mask s) (missing_store s) (missing_store_seq s) (n_retrans s) (rtimer s) (ctimer s) (outstanding s)
    (service s).
Definition set_missing_mask (x : list bool) (s : state) : state :=
  mk_state (node_id s) (seqno s) (req_count_switch s) (replies s) (nb_retransmissions s) (rh s)
    (checkpoint_in_progress s) (current_nb_requests_while_checkpointing s) (current_checkpoints s)
    (last_chkp_seqno s) (checkpointing_mutex s) (switching_mutex s) (cur_state s) (aborts s) (ah_2 s) (missing s)
    (num_missing s) x (missing_store s) (missing_store_seq s) (n_retrans s) (rtimer s) (ctimer s) (outstanding s)
    (service s).
Definition set_missing_store (x : list (option Q_Request)) (s : state) : state :=
  mk_state (node_id s) (seqno s) (req_count_switch s) (replies s) (nb_retransmissions s) (rh s)
    (checkpoint_in_progress s) (current_nb_requests_while_checkpointing s) (current_checkpoints s)
    (last_chkp_seqno s) (checkpointing_mutex s) (switching_mutex s) (cur_state s) (aborts s) (ah_2 s) (missing s)
    (num_missing s) (missing_mask s) x (missing_store_seq s) (n_retrans s) (rtimer s) (ctimer s) (outstanding s)
    (service s).
Definition set_missing_store_seq (x : list Z) (s : state) : state :=
  mk_state (node_id s) (seqno s) (req_count_switch s) (replies s) (nb_retransmissions s) (rh s)
    (checkpoint_in_progress s) (current_nb_requests_while_checkpointing s) (current_checkpoints s)
    (last_chkp_seqno s) (checkpointing_mutex s) (switching_mutex s) (cur_state s) (aborts s) (ah_2 s) (missing s)
    (num_missing s) (missing_mask s) (missing_store s) x (n_retrans s) (rtimer s) (ctimer s) (outstanding s)
    (service s).
Definition set_n_retrans (x : Z) (s : state) : state :=
  mk_state (node_id s) (seqno s) (req_count_switch s) (replies s) (nb_retransmissions s) (rh s)
    (checkpoint_in_progress s) (current_nb_requests_while_checkpointing s) (current_checkpoints s)
    (last_chkp_seqno s) (checkpointing_mutex s) (switching_mutex s) (cur_state s) (aborts s) (ah_2 s) (missing s)
    (num_missing s) (missing_mask s) (missing_store s) (missing_store_seq s) x (rtimer s) (ctimer s) (outstanding s)
    (service s).
Definition set_rtimer (x : timer_state) (s : state) : state :=
  mk_state (node_id s) (seqno s) (req_count_switch s) (replies s) (nb_retransmissions s) (rh s)
    (checkpoint_in_progress s) (current_nb_requests_while_checkpointing s) (current_checkpoints s)
    (last_chkp_seqno s) (checkpointing_mutex s) (switching_mutex s) (cur_state s) (aborts s) (ah_2 s) (missing s)
    (num_missing s) (missing_mask s) (missing_store s) (missing_store_seq s) (n_retrans s) x (ctimer s)
    (outstanding s) (service s).
Definition set_ctimer (x : timer_state) (s : state) : state :=
  mk_state (node_id s) (seqno s) (req_count_switch s) (replies s) (nb_retransmissions s) (rh s)
    (checkpoint_in_progress s) (current_nb_requests_while_checkpointing s) (current_checkpoints s)
    (last_chkp_seqno s) (checkpointing_mutex s) (switching_mutex s) (cur_state s) (aborts s) (ah_2 s) (missing s)
    (num_missing s) (missing_mask s) (missing_store s) (missing_store_seq s) (n_retrans s) (rtimer s) x
    (outstanding s) (service s).
Definition set_outstanding (x : list (Z * Z)) (s : state) : state :=
  mk_state (node_id s) (seqno s) (req_count_switch s) (replies s) (nb_retransmissions s) (rh s)
    (checkpoint_in_progress s) (current_nb_requests_while_checkpointing s) (current_checkpoints s)
    (last_chkp_seqno s) (checkpointing_mutex s) (switching_mutex s) (cur_state s) (aborts s) (ah_2 s) (missing s)
    (num_missing s) (missing_mask s) (missing_store s) (missing_store_seq s) (n_retrans s) (rtimer s) (ctimer s) x
    (service s).
Definition set_service (x : S) (s : state) : state :=
  mk_state (node_id s) (seqno s) (req_count_switch s) (replies s) (nb_retransmissions s) (rh s)
    (checkpoint_in_progress s) (current_nb_requests_while_checkpointing s) (current_checkpoints s)
    (last_chkp_seqno s) (checkpointing_mutex s) (switching_mutex s) (cur_state s) (aborts s) (ah_2 s) (missing s)
    (num_missing s) (missing_mask s) (missing_store s) (missing_store_seq s) (n_retrans s) (rtimer s) (ctimer s)
    (outstanding s) x.

Local Abbreviation M := (Effects.M state Q_output).
Local Open Scope handler_scope.

(** ** Parameters *)

Context (num_replicas max_faulty num_principals : Z).
Context (modulus : Z) (MD5_sum : Z -> Z) (MD5_reply : list Z -> Z) (MD5_request : Z -> Z -> list Z -> Z).
Context (verify_auth : Z -> Z -> Z * Z * Z * Z * Z * Z * Z * Z -> list Z -> bool).
Context (checkpoint_sig : zl_Checkpoint -> bool) (abort_verify : Smasher.zl_Abort -> bool) (abort_digest : Smasher.zl_Abort -> Z).
Context (signature_entry : Z -> list AbortHistoryElement -> nat -> AbortHistoryElement) (sig_size : Z).
(** The address of [seqno] is passed in the place of the non-deterministic choices; none of the
    services ([exec_command] in [src/benchmarks/]) reads it. *)
Context (exec_command : S -> Z -> list Z -> S * list Z).

Definition is_replica (i : Z) : bool := (0 <=? i) && (i <? num_replicas).
Definition is_principal (i : Z) : bool := (0 <=? i) && (i <? num_principals).
Definition instance_id : protocols_e := quorum.
Definition next_instance_id : protocols_e := chain.

Definition lock_checkpointing : M unit :=
  b <- gets checkpointing_mutex ;;
  if (b : bool) then fail Deadlock else modify (set_checkpointing_mutex true).
Definition unlock_checkpointing : M unit := modify (set_checkpointing_mutex false).
Definition lock_switching : M unit :=
  b <- gets switching_mutex ;;
  if (b : bool) then fail Deadlock else modify (set_switching_mutex true).
Definition unlock_switching : M unit := modify (set_switching_mutex false).

(** ** [Q_Request] *)

Definition sizeof_Request_rep : Z := 48.
(** [auth_size(id)]: a replica's authenticator skips itself. *)
Definition auth_size (id : Z) : Z := (if id <? num_replicas then num_replicas - 1 else num_replicas) * 8 + 8.
Definition is_read_only (m : Q_Request) : bool := Z.odd (qq_extra m).

(** The bytes hashed: [sizeof(int) + sizeof(Request_id) + command_size] of them
    from the field [cid] on.  The field [unused] lies between [rid] and the
    command. *)
Definition hashed_bytes (m : Q_Request) : list Z :=
  take (length (qq_command m)) (le_encode 8 (qq_unused m) ++ qq_command m).
Definition comp_digest (m : Q_Request) : Z := MD5_request (qq_cid m) (qq_rid m) (hashed_bytes m).

(** The bytes authenticated: the [sizeof(Q_Request_rep)] bytes of the header. *)
Definition header (m : Q_Request) : Z * Z * Z * Z * Z * Z * Z * Z :=
  (qq_extra m, qq_size m, qq_od m, qq_replier m, zlen (qq_command m), qq_cid m, qq_rid m, qq_unused m).

Definition request_verify (nid : Z) (m : Q_Request) : bool :=
  let cid := qq_cid m in
  let old_size := sizeof_Request_rep + zlen (qq_command m) in
  if is_principal cid && (comp_digest m =? qq_od m) then
    if negb (cid =? nid) && (num_replicas <=? cid) && (auth_size cid <=? wrapu 32 (qq_size m - old_size))
    then verify_auth nid cid (header m) (qq_auth m) else false
  else false.

(** What [verify] reads of a message trimmed to its size: [comp_digest], 28 bytes into
    it, and then the authenticator, when it gets there.  Its length test wraps around. *)
Definition digest_inside (m : Q_Request) : bool := 28 + 12 + zlen (qq_command m) <=? qq_size m.
Definition auth_inside (nid : Z) (m : Q_Request) : bool :=
  let cid := qq_cid m in
  let old_size := sizeof_Request_rep + zlen (qq_command m) in
  negb (is_principal cid && (comp_digest m =? qq_od m) && negb (cid =? nid) && (num_replicas <=? cid)
        && (auth_size cid <=? wrapu 32 (qq_size m - old_size)))
  || (old_size + auth_size cid <=? qq_size m).
Definition verify_request (nid : Z) (m : Q_Request) : M bool :=
  in_bounds (digest_inside m) ;;; in_bounds (auth_inside nid m) ;;; ret (request_verify nid m).

Definition checkpoint_verify (nid : Z) (c : zl_Checkpoint) : bool :=
  if negb (is_replica (c_id c)) then false
  else if c_id c =? nid then true
  else checkpoint_sig c.

(** ** [Q_Rep_info] *)

Definition rep_of (cid : Z) : M Rep_entry :=
  l <- gets replies ;;
  if cid <? 0 then fail OutOfBounds else of_option OutOfBounds (l !! Z.to_nat cid).

Definition set_rep (cid : Z) (r : Rep_entry) : M unit :=
  modify (fun s => set_replies (<[Z.to_nat cid := r]> (replies s)) s).

Definition req_id (cid : Z) : M Z := r <- rep_of cid ;; ret (rr_rid r).
Definition rep_digest (cid : Z) : M Z := r <- rep_of cid ;; ret (rr_digest r).

Definition new_reply (cid : Z) : M unit :=
  r <- rep_of cid ;;
  set_rep cid (mk_rep (rr_rid r) (-1) (rr_cid r) (rr_rh_digest r) (rr_digest r) (rr_body r)).

Definition end_reply (cid rid sz : Z) (d : Z) (body : list Z) : M unit :=
  r <- rep_of cid ;;
  assert_ (rr_reply_size r =? -1) ;;;
  set_rep cid (mk_rep rid sz (-1) d (MD5_reply (take (Z.to_nat sz) body)) body).

(** The message [send_reply] builds from a completed slot: the fields [v],
    [replica] and [cid] are set for the send and undone.  The instance of a
    reply is read only when it asks to switch. *)
Definition full_reply (me : Z) (r : Rep_entry) : Reply.t :=
  Reply.mk 0 (rr_rid r) (rr_rh_digest r) (rr_digest r) me (rr_reply_size r) (-1)
    false instance_id (ALIGNED_SIZE (Reply.sizeof_rep + rr_reply_size r + Reply.MAC_size)) (rr_body r).

Definition send_reply (dest src : Z) : M unit :=
  r <- rep_of dest ;;
  assert_ (negb (rr_reply_size r =? -1)) ;;;
  assert_ (rr_cid r =? -1) ;;;
  emit (Q_Send_reply dest (full_reply src r)).

(** [Q_Reply(0, rid, node_id, d, p, cid)]: [p->pid()] needs a principal. *)
Definition empty_reply (rid d cid : Z) : M Reply.t :=
  me <- gets node_id ;;
  if is_principal cid then
    ret (Reply.mk 0 rid 0 d me (-1) cid false instance_id (Reply.sizeof_rep + Reply.MAC_size) [])
  else fail NullDeref.

(** [set_instance_id(next_instance_id()); authenticate(p, 0)]. *)
Definition switch_reply (rid cid : Z) : M Reply.t :=
  d <- rep_digest cid ;;
  r <- empty_reply rid d cid ;;
  let r := Reply.set_instance_id r next_instance_id in
  ret (Reply.mk (Reply.v r) (Reply.rid r) (Reply.rh_digest r) (MD5_reply []) (Reply.replica r) 0
         (Reply.cid r) (Reply.should_switch r) (Reply.instance_id r)
         (Reply.sizeof_rep + Reply.MAC_size) []).

(** ** Switching: no lock is taken *)

Definition enable_replica (b : bool) : M unit :=
  st <- gets cur_state ;;
  if bool_decide (st = replica_state_NORMAL) || bool_decide (st = replica_state_STOP) then
    if b then
      (if bool_decide (st = replica_state_NORMAL) then ret tt
       else modify (fun s =>
              set_rh ReqHistory.empty (set_current_checkpoints ∅ (set_outstanding []
                (set_seqno 0 (set_req_count_switch 0 s)))))) ;;;
      modify (set_cur_state replica_state_NORMAL) ;;;
      emit (QM_switch instance_id) ;;;
      modify (fun s => set_ctimer (timer_stop (ctimer s)) s)
    else
      modify (set_cur_state replica_state_STOP) ;;;
      modify (fun s => set_ctimer (timer_stop (ctimer s)) s)
  else ret tt.

Definition switch_state (p : protocols_e) (b : bool) : M unit :=
  match p with
  | quorum => enable_replica b
  | _ => emit (Q_Switch_other p b)
  end.

Fixpoint notify_all (l : list (Z * Z)) : M unit :=
  match l with
  | [] => ret tt
  | (cid, rid) :: l' =>
    r <- switch_reply rid cid ;;
    emit (Q_Send_reply cid r) ;;;
    notify_all l'
  end.

Definition notify_outstanding : M unit :=
  lock_switching ;;;
  l <- gets outstanding ;;
  notify_all (foldl Replica.omap_insert [] l) ;;;
  modify (set_outstanding []) ;;;
  unlock_switching.

(** ** Panic: the body after the early return is dead code *)

Definition handle_panic (m : zl_Panic) : M unit := ret tt.

(** ** Checkpoints *)

Definition complete_checkpoint (should_panic : bool) (cset : CheckpointSet) : M unit :=
  modify (fun s => set_rh (ReqHistory.truncate_history (rh s) (CheckpointSet.get_seqno cset)).1.1 s) ;;;
  modify (set_current_nb_requests_while_checkpointing 0) ;;;
  modify (set_checkpoint_in_progress false) ;;;
  modify (set_last_chkp_seqno (CheckpointSet.get_seqno cset)) ;;;
  modify (fun s => set_current_checkpoints
            (delete (CheckpointSet.get_seqno cset) (current_checkpoints s)) s) ;;;
  modify (fun s => set_ctimer (timer_start (timer_stop (ctimer s))) s) ;;;
  (if should_panic then me <- gets node_id ;; handle_panic (mk_panic me 0) else ret tt).

Definition handle_checkpoint (should_panic : bool) (c : zl_Checkpoint) : M unit :=
  me <- gets node_id ;;
  if negb (checkpoint_verify me c) then ret tt
  else
    lock_checkpointing ;;;
    last <- gets last_chkp_seqno ;;
    if c_seqno c <=? last then unlock_checkpointing
    else
      cks <- gets current_checkpoints ;;
      let cset := default (CheckpointSet.create (Z.to_nat num_replicas) (2 * max_faulty + 1) (c_seqno c))
                          (cks !! c_seqno c) in
      modify (fun s => set_current_checkpoints (<[c_seqno c := cset]> (current_checkpoints s)) s) ;;;
      r <- of_option AssertFailed (CheckpointSet.add cset (c_id c) c) ;;
      if negb r.2 then unlock_checkpointing
      else
        modify (fun s => set_current_checkpoints (<[c_seqno c := r.1]> (current_checkpoints s)) s) ;;;
        (if CheckpointSet.is_complete r.1 then complete_checkpoint should_panic r.1 else ret tt) ;;;
        unlock_checkpointing.

(** ** Executing a request *)

Definition NOTIF_PERIOD : Z := 5.
Definition replier : Z := 2.

(** Nothing is sent when the result is empty. *)
Definition send_result (cid rid sz : Z) : M unit :=
  me <- gets node_id ;;
  if sz =? 0 then ret tt
  else if (sz <? 50) || (replier =? me) || (replier <? 0) then send_reply cid me
  else d <- rep_digest cid ;; r <- empty_reply rid d cid ;; emit (Q_Send_reply cid r).

Definition notify_monitor (rid : Z) : M unit :=
  if rid mod NOTIF_PERIOD =? 0 then
    lock_checkpointing ;;; emit QM_rep_notif ;;; unlock_checkpointing
  else ret tt.

(** The checkpoint protocol is disabled: the history is dropped at its top. *)
Definition truncate_if_due : M unit :=
  h <- gets rh ;;
  if ReqHistory.should_checkpoint h
  then modify (set_rh (ReqHistory.truncate_history h (ReqHistory.get_top_seqno h)).1.1)
  else ret tt.

Definition execute_request (req : Q_Request) : M bool :=
  let cid := qq_cid req in
  let rid := qq_rid req in
  me <- gets node_id ;;
  last <- req_id cid ;;
  if rid <? last then ret false
  else if last =? rid then send_reply cid me ;;; ret false
  else
    new_reply cid ;;;
    sv <- gets service ;;
    let '(sv', out) := exec_command sv cid (qq_command req) in
    modify (set_service sv') ;;;
    emit (Q_Executed req) ;;;
    let sz := zlen out in
    sq <- gets seqno ;;
    h <- gets rh ;;
    hd <- of_option AssertFailed (ReqHistory.add_request modulus MD5_sum h req sq) ;;
    modify (set_rh hd.1) ;;;
    modify (set_seqno (sq + 1)) ;;;
    end_reply cid rid sz hd.2 (Replica.pad out) ;;;
    send_result cid rid sz ;;;
    notify_monitor rid ;;;
    truncate_if_due ;;;
    ret true.

(** ** Requests *)

(** The admission test, before any other: [false] drops the request. *)
Definition checkpoint_admit : M bool :=
  lock_checkpointing ;;;
  inprog <- gets checkpoint_in_progress ;;
  k <- gets current_nb_requests_while_checkpointing ;;
  (if inprog then
     if k <? ReqHistory.MAX_NB_REQS_CHKPT then
       modify (set_current_nb_requests_while_checkpointing (k + 1)) ;;;
       unlock_checkpointing ;;; ret true
     else unlock_checkpointing ;;; ret false
   else unlock_checkpointing ;;; ret true).

Definition handle_request (m : Q_Request) : M unit :=
  ok <- checkpoint_admit ;;
  if negb ok then ret tt
  else
    st <- gets cur_state ;;
    me <- gets node_id ;;
    let cid := qq_cid m in
    let rid := qq_rid m in
    if bool_decide (st = replica_state_STOP) then
      r <- switch_reply rid cid ;; emit (Q_Send_reply cid r)
    else if negb (bool_decide (st = replica_state_NORMAL)) then
      lock_switching ;;;
      modify (fun s => set_outstanding (outstanding s ++ [(cid, rid)]) s) ;;;
      unlock_switching
    else
      modify (fun s => set_ctimer (timer_restart (ctimer s)) s) ;;;
      modify (fun s => set_req_count_switch (req_count_switch s + 1) s) ;;;
      v <- verify_request me m ;;
      if negb v then ret tt
      else if is_read_only m then ret tt
      else
        last_rid <- req_id cid ;;
        if last_rid <=? rid then
          (if last_rid =? rid then modify (fun s => set_nb_retransmissions (nb_retransmissions s + 1) s)
           else ret tt) ;;;
          execute_request m ;;; ret tt
        else ret tt.

(** ** Aborts and the switch *)

Abbreviation entry := (ReqHistory.Rh_entry Q_Request).

(** [Q_Abort_certificate::add]: a duplicate of the abort held is accepted. *)
Definition ac_add (c : Smasher.Abort_certificate) (a : Smasher.zl_Abort) : option (Smasher.Abort_certificate * bool) :=
  if Smasher.a_id a <? 0 then None else
  e ← Smasher.ac c !! Z.to_nat (Smasher.a_id a);
  match e with
  | None => Smasher.ac_add c a
  | Some b => Some (c, (Smasher.a_id b =? Smasher.a_id a) && (abort_digest b =? abort_digest a) && (Smasher.a_rid b =? Smasher.a_rid a))
  end.

(** The new history is installed, before the switch. *)
Definition install (newrh : ReqHistory.t Q_Request) : M unit :=
  modify (set_missing_store []) ;;; modify (set_missing_store_seq []) ;;;
  modify (set_missing_mask []) ;;; modify (set_num_missing 0) ;;;
  modify (set_rh newrh) ;;;
  modify (set_seqno (ReqHistory.get_top_seqno newrh + 1)) ;;;
  modify (set_missing None) ;;;
  modify (set_cur_state replica_state_STOP).

Definition switch_over : M unit :=
  switch_state instance_id false ;;;
  switch_state next_instance_id true.

Definition Q_Max_message_size : Z := 60000.

(** The constructor of [Q_Missing] keeps twelve bytes for each element and room
    for a signature. *)
Definition sizeof_missing_rep : Z := 36.
Definition missing_fits (mis : list AbortHistoryElement) : bool :=
  match mis with
  | [] => true
  | _ => sizeof_missing_rep + Z.of_nat (length mis) * 12 <=? Q_Max_message_size - sig_size
  end.

(** The constructor of [Q_Get_a_grip] copies the request, and [set_size] asserts
    that it fits. *)
Definition sizeof_gag_rep : Z := 32.
Definition gag_fits (q : Q_Request) : bool :=
  ALIGNED_SIZE (sizeof_gag_rep + qq_size q) <=? Q_Max_message_size.


(** [switching_mutex] is released before the switch, but not when the
    certificate is incomplete nor when requests are missing. *)
Definition handle_abort (m : Smasher.zl_Abort) : M unit :=
  st <- gets cur_state ;;
  if negb (bool_decide (st = replica_state_PANICKING)) then ret tt
  else if negb (abort_verify m) then ret tt
  else
    lock_switching ;;;
    ac <- gets aborts ;;
    r <- of_option AssertFailed (ac_add ac m) ;;
    if negb r.2 then unlock_switching
    else
      modify (set_aborts r.1) ;;;
      if negb (Smasher.ac_is_complete r.1) then ret tt
      else
        modify (fun s => set_rtimer (timer_stop (rtimer s)) s) ;;;
        me <- gets node_id ;;
        let l := Smasher.ac r.1 in
        p <- of_option AssertFailed
               (Smasher.process (Smasher.max_hist_size l) max_faulty l (Z.to_nat me)) ;;
        let '(ah2, mis) := p in
        modify (set_ah_2 (Some ah2)) ;;; modify (set_missing (Some mis)) ;;;
        modify (set_missing_mask (replicate (length mis) true)) ;;;
        modify (set_missing_store (replicate (length mis) None)) ;;;
        modify (set_missing_store_seq (replicate (length mis) 0)) ;;;
        modify (set_num_missing (Z.of_nat (length mis))) ;;;
        modify (set_aborts (Smasher.ac_clear r.1)) ;;;
        if (length mis =? 0)%nat then
          h <- gets rh ;;
          newrh <- of_sum (Recover.rebuild q_with_od modulus MD5_sum true false ah2 h [] []) ;;
          install newrh ;;;
          unlock_switching ;;;
          switch_over ;;;
          notify_outstanding
        else
          (if missing_fits mis then ret tt else fail ExitCalled) ;;;
          emit (QM_missing (mk_missing me ((fun a => (cid a, rid a)) <$> mis))) ;;;
          modify (set_cur_state replica_state_MISWAITING).

(** Three expiries give up and switch with an empty history; that branch
    returns with [switching_mutex] held. *)
Definition nk_thresh : Z := 3.

Definition retransmit_panic : M unit :=
  lock_switching ;;;
  modify (fun s => set_n_retrans (n_retrans s + 1) s) ;;;
  k <- gets n_retrans ;;
  if k =? nk_thresh then
    modify (fun s => set_rtimer (timer_stop (rtimer s)) s) ;;;
    modify (fun s => set_aborts (Smasher.ac_clear (aborts s)) s) ;;;
    modify (set_missing None) ;;;
    modify (set_rh ReqHistory.empty) ;;;
    modify (set_cur_state replica_state_STOP) ;;;
    switch_over ;;;
    modify (set_n_retrans 0)
  else
    me <- gets node_id ;;
    emit (Q_Send_panic (mk_panic me 0)) ;;;
    emit (QM_panic (mk_panic me 0)) ;;;
    modify (set_cur_state replica_state_PANICKING) ;;;
    unlock_switching ;;;
    modify (fun s => set_rtimer (timer_restart (rtimer s)) s).

Fixpoint answer_missing (dest : Z) (l : list (Z * Z)) : M unit :=
  match l with
  | [] => ret tt
  | (c, r) :: l' =>
    h <- gets rh ;;
    me <- gets node_id ;;
    (match ReqHistory.find h c r with
     | Some e => q <- of_option NullDeref (ReqHistory.req e) ;;
                 assert_ (gag_fits q) ;;;
                 emit (QM_gag dest (mk_qgag c r me (ReqHistory.seq e) q))
     | None => ret tt
     end) ;;;
    answer_missing dest l'
  end.

Definition handle_missing (m : zl_Missing) : M unit := answer_missing (m_replica m) (m_list m).

(** The first missing, still masked element the message provides. *)
Fixpoint match_missing (mis : list AbortHistoryElement) (mask : list bool) (i : nat) (g : Q_Get_a_grip) : option nat :=
  match mis, mask with
  | a :: mis', b :: mask' =>
    if b && (cid a =? qg_cid g) && (rid a =? qg_rid g) && (d a =? qq_od (qg_request g))
    then Some i else match_missing mis' mask' (Datatypes.S i) g
  | _, _ => None
  end.

(** No lock is taken until the clients are notified. *)
Definition handle_get_a_grip (m : Q_Get_a_grip) : M unit :=
  st <- gets cur_state ;;
  if negb (bool_decide (st = replica_state_MISWAITING)) then ret tt
  else
    mi <- gets missing ;;
    mis <- of_option NullDeref mi ;;
    mask <- gets missing_mask ;;
    match match_missing mis mask 0 m with
    | None => ret tt
    | Some i =>
      modify (fun s => set_missing_mask (<[i := false]> (missing_mask s)) s) ;;;
      modify (fun s => set_missing_store (<[i := Some (qg_request m)]> (missing_store s)) s) ;;;
      modify (fun s => set_missing_store_seq (<[i := qg_seqno m]> (missing_store_seq s)) s) ;;;
      modify (fun s => set_num_missing (num_missing s - 1) s) ;;;
      k <- gets num_missing ;;
      if k =? 0 then
        ah <- gets ah_2 ;;
        ah2 <- of_option NullDeref ah ;;
        h <- gets rh ;;
        store <- gets missing_store ;;
        sq <- gets missing_store_seq ;;
        newrh <- of_sum (Recover.rebuild q_with_od modulus MD5_sum true false ah2 h store sq) ;;
        install newrh ;;;
        switch_over ;;;
        notify_outstanding
      else ret tt
    end.

(** ** Broadcasting the own abort *)

Definition sizeof_abort_rep : Z := 60.
Definition tuple_size : Z := 28.

(** The constructor of [Q_Abort]: entries without a request are skipped. *)
Fixpoint abort_tuples (l : list entry) (offset : Z) : M (list AbortHistoryElement) :=
  match l with
  | [] => ret []
  | e :: l' =>
    match ReqHistory.req e with
    | None => abort_tuples l' offset
    | Some r =>
      if Q_Max_message_size - sig_size <? offset + tuple_size then fail ExitCalled
      else
        rest <- abort_tuples l' (offset + tuple_size) ;;
        ret (AHE (qq_cid r) (qq_rid r) (qq_od r) :: rest)
    end
  end.

(** The length of the history is that of the array, with the entries skipped;
    [sign] needs room for the signature. *)
Definition broadcast_abort (out_rid : Z) : M unit :=
  me <- gets node_id ;;
  h <- gets rh ;;
  ts <- abort_tuples (ReqHistory.rh h) sizeof_abort_rep ;;
  let old_size := sizeof_abort_rep + ReqHistory.size h * tuple_size in
  (if wrapu 32 (Q_Max_message_size - old_size) <? sig_size then fail ExitCalled else ret tt) ;;;
  assert_ (ALIGNED_SIZE (old_size + sig_size) <=? Q_Max_message_size) ;;;
  let a := Smasher.mk_abort me out_rid (length (ReqHistory.rh h))
             (fun j => default (signature_entry me ts j) (ts !! j)) in
  emit (QM_abort a) ;;;
  lock_switching ;;;
  ac <- gets aborts ;;
  r <- of_option AssertFailed (ac_add ac a) ;;
  modify (set_aborts r.1) ;;;
  unlock_switching.

Definition no_checkpoint_timeout : M unit :=
  modify (fun s => set_ctimer (timer_stop (ctimer s)) s).

(** ** Dispatch *)

Definition handle (should_panic : bool) (msg : Q_Message) : M unit :=
  match msg with
  | Q_Request_msg m => handle_request m
  | Q_Checkpoint_msg m => handle_checkpoint should_panic m
  | Q_Panic_msg m => handle_panic m
  | Q_Abort_msg m => handle_abort m
  | Q_Missing_msg m => handle_missing m
  | Q_Get_a_grip_msg m => handle_get_a_grip m
  | Q_Unknown_msg => ret tt
  end.

Definition initial (nid : Z) (sv : S) : state :=
  mk_state nid 0 0 (replicate (Z.to_nat num_principals) rep_initial) 0 ReqHistory.empty
    false 0 ∅ 0 false false replica_state_NORMAL
    (Smasher.ac_create (3 * max_faulty + 1) (Z.to_nat (3 * max_faulty + 1)))
    None None 0 [] [] [] 0 stopped stopped [] sv.

(** An event of a replica: a message, a switcher call, or an expired timer. *)
Inductive event :=
| Deliver (should_panic : bool) (m : Q_Message)
| Switch (b : bool)
| Checkpoint_timer
| Abort_timer.

(** A timer fires only when running, and is [expired] while its handler runs. *)
Definition run_event (ev : event) : M unit :=
  match ev with
  | Deliver sp m => handle sp m
  | Switch b => enable_replica b
  | Checkpoint_timer =>
    t <- gets ctimer ;;
    match t with
    | running => modify (set_ctimer expired) ;;; no_checkpoint_timeout
    | _ => ret tt
    end
  | Abort_timer =>
    t <- gets rtimer ;;
    match t with
    | running => modify (set_rtimer expired) ;;; retransmit_panic
    | _ => ret tt
    end
  end.

Fixpoint run (evs : list event) : M unit :=
  match evs with [] => ret tt | ev :: evs' => run_event ev ;;; run evs' end.

(** ** The replica invariant *)

Record inv (s : state) : Prop := {
  inv_switching : switching_mutex s = false;
  inv_checkpointing : checkpointing_mutex s = false;
  inv_state : cur_state s = replica_state_NORMAL \/ cur_state s = replica_state_STOP;
  inv_rtimer : rtimer s = stopped;
  inv_idle : checkpoint_in_progress s = false;
  inv_replies : length (replies s) = Z.to_nat num_principals /\ Forall Replica.rep_ok (replies s);
  inv_sum : 0 <= ReqHistory.rh_d (rh s) < modulus;
  inv_reqs : Forall (fun e => exists q, ReqHistory.req e = Some q /\ gag_fits q = true) (ReqHistory.rh (rh s));
  inv_contig : ReqHistory.contiguous (ReqHistory.rh (rh s)) (seqno s - 1);
  inv_csets : forall k cs, current_checkpoints s !! k = Some cs -> Replica.cset_ok num_replicas k cs
}.

Hypothesis group : 0 < num_replicas <= num_principals.
Hypothesis modulus_ok : 2 ^ 128 <= modulus < 2 ^ (DSum.nbits - 1).
Hypothesis MD5_range : forall c r bytes, 0 <= MD5_request c r bytes < 2 ^ 128.

Lemma q_initial_inv nid sv : inv (initial nid sv).
Proof.
  constructor; simpl; try done; auto; try lia.
  rewrite length_replicate. split; [done|]. apply Forall_replicate. split; [done|]. by left.
Qed.

(** The part of the state the invariant depends on, the lock of a handler
    aside. *)
Definition same_view (s s' : state) : Prop :=
  node_id s' = node_id s /\ seqno s' = seqno s /\ replies s' = replies s /\ rh s' = rh s /\
  cur_state s' = cur_state s /\ switching_mutex s' = switching_mutex s /\
  checkpointing_mutex s' = checkpointing_mutex s /\ rtimer s' = rtimer s /\
  checkpoint_in_progress s' = checkpoint_in_progress s /\
  current_checkpoints s' = current_checkpoints s /\ service s' = service s.

Lemma same_view_inv s s' : same_view s s' -> inv s -> inv s'.
Proof.
  intros (? & Hq & Hr & Hh & Hc & Hs & Hk & Ht & Hp & Hcc & ?) [].
  constructor; rewrite ?Hq, ?Hr, ?Hh, ?Hc, ?Hs, ?Hk, ?Ht, ?Hp, ?Hcc; done.
Qed.

Lemma same_view_refl s : same_view s s.
Proof. by repeat split. Qed.

Lemma inv_set_rh h s : inv s -> ReqHistory.rh_d h = ReqHistory.rh_d (rh s) ->
  (exists k, ReqHistory.rh h = drop k (ReqHistory.rh (rh s))) -> inv (set_rh h s).
Proof.
  intros [] Hd [k Hk]. constructor; simpl; try done; rewrite ?Hd, ?Hk; try done.
  - by apply Forall_drop.
  - by apply ReqHistory.contiguous_drop.
Qed.

(** ** What handlers output *)

Definition executed (o : list Q_output) : list Q_Request :=
  omap (fun x => match x with Q_Executed r => Some r | _ => None end) o.

Lemma q_executed_app o1 o2 : executed (o1 ++ o2) = executed o1 ++ executed o2.
Proof. apply omap_app. Qed.

(** The replies sent to clients. *)
Definition sent (o : list Q_output) : list (Z * Reply.t) :=
  omap (fun x => match x with Q_Send_reply c r => Some (c, r) | _ => None end) o.

Lemma sent_app o1 o2 : sent (o1 ++ o2) = sent o1 ++ sent o2.
Proof. apply omap_app. Qed.

(** The specification state of a replica. *)
Definition rids (s : state) : list Z := rr_rid <$> replies s.
Definition view_of (s : state) : AtMostOnce.spec := AtMostOnce.mk_spec (rids s) (service s).
Definition spec_run := (AtMostOnce.spec_run (R := Q_Request) qq_command exec_command).

(** What an event does, seen from outside: it preserves the invariant, and what
    it executes is a run of the specification. *)
Definition step_post (s s' : state) (o : list Q_output) : Prop :=
  inv s' /\ node_id s' = node_id s /\ spec_run (view_of s) (executed o) = Some (view_of s').

(** What an event may leave alone. *)
Definition quiet (s s' : state) : Prop :=
  node_id s' = node_id s /\ replies s' = replies s /\ service s' = service s /\ cur_state s' = cur_state s /\
  ReqHistory.rh_d (rh s') = ReqHistory.rh_d (rh s).

Lemma same_view_quiet s s' : same_view s s' -> quiet s s'.
Proof. intros (? & ? & ? & Hh & ? & ? & ? & ? & ? & ? & ?). unfold quiet. by rewrite Hh. Qed.

(** ** Primitive steps *)

Lemma q_wp_rep_of c Q s r : replies s !! Z.to_nat c = Some r -> 0 <= c -> Q r s [] -> wp (rep_of c) Q s.
Proof.
  intros Hr Hc HQ. unfold wp, rep_of, bind, gets. rewrite (proj2 (Z.ltb_ge _ _)) by lia. by rewrite Hr.
Qed.

Lemma q_wp_req_id c Q s r : replies s !! Z.to_nat c = Some r -> 0 <= c -> Q (rr_rid r) s [] -> wp (req_id c) Q s.
Proof. intros. apply wp_bind. by eapply q_wp_rep_of. Qed.

Lemma q_wp_send_reply c me Q s r : replies s !! Z.to_nat c = Some r -> 0 <= c ->
  rr_reply_size r <> -1 -> rr_cid r = -1 ->
  Q tt s [Q_Send_reply c (full_reply me r)] -> wp (send_reply c me) Q s.
Proof.
  intros Hr Hc Hsz Hcid HQ. apply wp_bind. eapply q_wp_rep_of; [done..|].
  rewrite (proj2 (Z.eqb_neq _ _)) by done. by rewrite Hcid.
Qed.

Lemma q_wp_end_reply c x sz dg body e s Q : replies s !! Z.to_nat c = Some e -> 0 <= c -> rr_reply_size e = -1 ->
  Q tt (set_replies (<[Z.to_nat c := mk_rep x sz (-1) dg (MD5_reply (take (Z.to_nat sz) body)) body]>
                       (replies s)) s) [] ->
  wp (end_reply c x sz dg body) Q s.
Proof. intros He Hc Hsz HQ. apply wp_bind. eapply q_wp_rep_of; [done..|]. by rewrite Hsz. Qed.

Lemma wp_lock_checkpointing s Q : checkpointing_mutex s = false ->
  Q tt (set_checkpointing_mutex true s) [] -> wp lock_checkpointing Q s.
Proof. intros Hm HQ. unfold wp, lock_checkpointing, bind, gets. by rewrite Hm. Qed.

Lemma q_principal_rep s c : inv s -> is_principal c = true ->
  0 <= c /\ exists r, replies s !! Z.to_nat c = Some r /\ Replica.rep_ok r.
Proof.
  intros Hs Hc. unfold is_principal in Hc. bsimp. split; [lia|].
  destruct (inv_replies _ Hs) as [Hl Hf].
  destruct (lookup_lt_is_Some_2 (replies s) (Z.to_nat c)) as [r Hr]; [lia|].
  exists r. split; [done|]. by eapply Forall_lookup_1.
Qed.

Lemma q_wp_switch_reply c rid s Q : inv s -> is_principal c = true ->
  (forall r, Reply.rid r = rid -> Reply.should_switch r = true -> Reply.instance_id r = chain ->
     Q r s []) -> wp (switch_reply rid c) Q s.
Proof.
  intros Hs Hp HQ. destruct (q_principal_rep s c Hs Hp) as (Hc & r & Hr & _).
  unfold switch_reply. wp_step. apply wp_bind. eapply q_wp_rep_of; [done..|]. wp_step.
  unfold empty_reply. wp_steps. rewrite Hp. wp_steps. by apply HQ.
Qed.

Lemma q_wp_checkpoint_admit s Q : inv s -> Q true s [] -> wp checkpoint_admit Q s.
Proof.
  intros Hi HQ. pose proof (inv_checkpointing _ Hi) as Hm. pose proof (inv_idle _ Hi) as Hc.
  unfold checkpoint_admit. wp_step. apply wp_lock_checkpointing; [done|]. wp_steps. simpl. rewrite Hc.
  unfold unlock_checkpointing. wp_steps. destruct s; simpl in *. by subst.
Qed.

(** ** Checkpoints *)

Lemma checkpoint_added s m : inv s -> (forall k cs, m !! k = Some cs -> Replica.cset_ok num_replicas k cs) ->
  inv (set_checkpointing_mutex false (set_current_checkpoints m (set_checkpointing_mutex true s))).
Proof. intros [] Hm. by constructor. Qed.

Lemma complete_checkpoint_ok sp cs s : inv s ->
  wp (complete_checkpoint sp cs ;;; unlock_checkpointing)
     (fun _ s' o => inv s' /\ quiet s s' /\ o = [])
     (set_checkpointing_mutex true s).
Proof.
  intros Hi. unfold complete_checkpoint, unlock_checkpointing, handle_panic. wp_steps. simpl.
  assert (Hdone : forall st, inv (set_checkpointing_mutex false (set_ctimer st
    (set_current_checkpoints (delete (CheckpointSet.get_seqno cs) (current_checkpoints s))
      (set_last_chkp_seqno (CheckpointSet.get_seqno cs) (set_checkpoint_in_progress false
        (set_current_nb_requests_while_checkpointing 0
          (set_rh (ReqHistory.truncate_history (rh s) (CheckpointSet.get_seqno cs)).1.1
            (set_checkpointing_mutex true s)))))))) ).
  { intros st. destruct (ReqHistory.truncate_drop (rh s) (CheckpointSet.get_seqno cs)) as (k & Hk & Hd).
    destruct (inv_set_rh (ReqHistory.truncate_history (rh s) (CheckpointSet.get_seqno cs)).1.1 s Hi Hd (ex_intro _ k Hk)).
    constructor; simpl; try done. intros j c Hj. apply lookup_delete_Some in Hj as [_ Hj]. by apply (inv_csets _ Hi). }
  destruct (ReqHistory.truncate_drop (rh s) (CheckpointSet.get_seqno cs)) as (k & _ & Hd).
  destruct sp; wp_steps; (split; [apply Hdone|by repeat split]).
Qed.

Lemma q_handle_checkpoint_ok sp c s : inv s ->
  wp (handle_checkpoint sp c) (fun _ s' o => inv s' /\ quiet s s' /\ o = []) s.
Proof.
  intros Hi. unfold handle_checkpoint. wp_steps.
  destruct (checkpoint_verify (node_id s) c) eqn:Hv; simpl; [|by wp_steps].
  assert (Hid : 0 <= c_id c < num_replicas).
  { unfold checkpoint_verify, is_replica in Hv. repeat case_bool; try done; bsimp; lia. }
  wp_step. apply wp_lock_checkpointing; [apply Hi|]. wp_steps. simpl.
  assert (Hm := inv_checkpointing _ Hi).
  destruct (Z.leb_spec (c_seqno c) (last_chkp_seqno s)) as [Hle|Hgt].
  { unfold unlock_checkpointing. wp_steps. split; [|by repeat split]. eapply same_view_inv; [|exact Hi]. by repeat split. }
  wp_steps. simpl. set (cset := default _ _).
  assert (Hcok : Replica.cset_ok num_replicas (c_seqno c) cset).
  { unfold cset. destruct (current_checkpoints s !! c_seqno c) as [cs|] eqn:E; simpl; [by apply (inv_csets _ Hi)|].
    split; [|done]. simpl. by rewrite length_replicate. }
  destruct (Replica.cset_add_ok _ _ group cset _ (c_id c) c Hcok Hid) as (cs' & b & Hadd & Hok').
  eapply wp_of_option; [exact Hadd|]. simpl.
  assert (Hins : forall cs1, Replica.cset_ok num_replicas (c_seqno c) cs1 -> forall k cs0,
    (<[c_seqno c := cs1]> (current_checkpoints s)) !! k = Some cs0 -> Replica.cset_ok num_replicas k cs0).
  { intros cs1 H1 k cs0 Hk. apply lookup_insert_Some in Hk as [[<- <-]|[_ Hk]]; [done|]. by apply (inv_csets _ Hi). }
  destruct b; simpl.
  2:{ unfold unlock_checkpointing. wp_steps. split; [|by repeat split]. apply checkpoint_added; [done|by apply Hins]. }
  wp_step. wp_step. simpl. rewrite insert_insert_eq.
  assert (Hi' : inv (set_checkpointing_mutex false (set_current_checkpoints
                       (<[c_seqno c := cs']> (current_checkpoints s)) (set_checkpointing_mutex true s)))).
  { apply checkpoint_added; [done|by apply Hins]. }
  destruct (CheckpointSet.is_complete cs').
  - eapply wp_mono; [exact (complete_checkpoint_ok sp cs' _ Hi')|].
    intros _ s' o (Hs' & Hq & ->). by split.
  - unfold unlock_checkpointing. wp_steps. split; [exact Hi'|by repeat split].
Qed.

(** ** Executing a request *)

(** The slot a fresh execution fills, and the reply sent for it, if any. *)
Definition new_slot (r : Q_Request) (dg : Z) (out : list Z) : Rep_entry :=
  mk_rep (qq_rid r) (zlen out) (-1) dg (MD5_reply out) (Replica.pad out).

Definition answer (me : Z) (r : Q_Request) (e : Rep_entry) : list Q_output :=
  if rr_reply_size e =? 0 then []
  else if (rr_reply_size e <? 50) || (me =? replier) then [Q_Send_reply (qq_cid r) (full_reply me e)]
  else [Q_Send_reply (qq_cid r) (Reply.mk 0 (qq_rid r) 0 (rr_digest e) me (-1) (qq_cid r) false instance_id
         (Reply.sizeof_rep + Reply.MAC_size) [])].

Definition exec_post (s : state) (r : Q_Request) (b : bool) (s' : state) (o : list Q_output) : Prop :=
  inv s' /\ node_id s' = node_id s /\ cur_state s' = cur_state s /\
  exists old, replies s !! Z.to_nat (qq_cid r) = Some old /\
  if b then
    let '(sv', out) := exec_command (service s) (qq_cid r) (qq_command r) in
    exists dg, rr_rid old < qq_rid r /\
      o = Q_Executed r :: answer (node_id s) r (new_slot r dg out) ++
          (if qq_rid r mod NOTIF_PERIOD =? 0 then [QM_rep_notif] else []) /\
      replies s' = <[Z.to_nat (qq_cid r) := new_slot r dg out]> (replies s) /\
      service s' = sv' /\ seqno s' = seqno s + 1 /\
      dg = MD5_sum ((ReqHistory.rh_d (rh s) + qq_od r) mod modulus) /\
      ReqHistory.rh_d (rh s') = (ReqHistory.rh_d (rh s) + qq_od r) mod modulus
  else
    s' = s /\ qq_rid r <= rr_rid old /\
    o = if qq_rid r =? rr_rid old then [Q_Send_reply (qq_cid r) (full_reply (node_id s) old)] else [].

(** The logging step: the sum stays reduced and the numbers consecutive. *)
Lemma q_log_ok r s : inv s -> gag_fits r = true -> 0 <= qq_od r < 2 ^ 128 ->
  exists h d, ReqHistory.add_request modulus MD5_sum (rh s) r (seqno s) = Some (h, d) /\
    d = MD5_sum ((ReqHistory.rh_d (rh s) + qq_od r) mod modulus) /\
    ReqHistory.rh_d h = (ReqHistory.rh_d (rh s) + qq_od r) mod modulus /\
    inv (set_seqno (seqno s + 1) (set_rh h s)).
Proof.
  intros Hs Hfit Hd. pose proof Hs as [? ? ? ? ? ? Hsum Hrq Hct ?].
  unfold ReqHistory.add_request. simpl. rewrite DSum.add_mod by lia. simpl. eexists _, _. split; [done|].
  split; [done|]. split; [done|]. constructor; simpl; try done.
  - apply Z.mod_pos_bound. lia.
  - apply Forall_app. split; [done|]. constructor; [by exists r|constructor].
  - replace (seqno s + 1 - 1) with (seqno s) by lia.
    eapply (ReqHistory.contiguous_snoc _ (seqno s - 1)
              (ReqHistory.mk_entry (Some r) (seqno s) _)); [done|]. simpl. lia.
Qed.

Lemma wp_send_result c r e s Q : replies s !! Z.to_nat c = Some e -> is_principal c = true ->
  c = qq_cid r -> qq_rid r = rr_rid e -> 0 <= rr_reply_size e -> rr_cid e = -1 ->
  Q tt s (answer (node_id s) r e) -> wp (send_result c (qq_rid r) (rr_reply_size e)) Q s.
Proof.
  intros He Hp -> Hrid Hsz Hc HQ. assert (0 <= qq_cid r) by (unfold is_principal in Hp; bsimp; lia).
  unfold send_result. wp_steps. unfold answer in HQ. destruct (rr_reply_size e =? 0); [done|].
  rewrite orb_false_r, (Z.eqb_sym replier).
  destruct ((rr_reply_size e <? 50) || (node_id s =? replier)).
  - eapply q_wp_send_reply; [done|done|lia|done|done].
  - apply wp_bind, wp_bind. eapply q_wp_rep_of; [done|done|].
    unfold wp, ret, empty_reply, bind, gets, emit. by rewrite Hp.
Qed.

Lemma truncate_ok s : inv s ->
  wp truncate_if_due
     (fun _ s' o => inv s' /\ node_id s' = node_id s /\ cur_state s' = cur_state s /\
        replies s' = replies s /\ service s' = service s /\ seqno s' = seqno s /\
        ReqHistory.rh_d (rh s') = ReqHistory.rh_d (rh s) /\ o = []) s.
Proof.
  intros Hi. unfold truncate_if_due. wp_steps.
  destruct (ReqHistory.truncate_drop (rh s) (ReqHistory.get_top_seqno (rh s))) as (k & Hk & Hd).
  destruct (ReqHistory.should_checkpoint (rh s)); wp_steps; simpl; split_and!; try done.
  apply inv_set_rh; [done..|]. by exists k.
Qed.

Lemma notify_ok rid s : inv s ->
  wp (notify_monitor rid) (fun _ s' o => s' = s /\ o = if rid mod NOTIF_PERIOD =? 0 then [QM_rep_notif] else []) s.
Proof.
  intros Hi. assert (Hm := inv_checkpointing _ Hi). unfold notify_monitor.
  destruct (rid mod NOTIF_PERIOD =? 0); [|done].
  wp_step. apply wp_lock_checkpointing; [done|]. unfold unlock_checkpointing. wp_steps.
  split; [|done]. destruct s; simpl in *. by subst.
Qed.

Lemma wp_tail rid s : inv s ->
  wp (notify_monitor rid ;;; truncate_if_due ;;; ret true)
     (fun b s' o => b = true /\ inv s' /\ node_id s' = node_id s /\ cur_state s' = cur_state s /\
        replies s' = replies s /\ service s' = service s /\ seqno s' = seqno s /\
        ReqHistory.rh_d (rh s') = ReqHistory.rh_d (rh s) /\
        o = if rid mod NOTIF_PERIOD =? 0 then [QM_rep_notif] else []) s.
Proof.
  intros Hi. wp_step. eapply wp_mono; [by apply notify_ok|]. intros _ s1 o1 [-> Ho1].
  wp_step. eapply wp_mono; [by apply truncate_ok|]. intros _ s2 o2 (? & ? & ? & ? & ? & ? & ? & ->).
  wp_step. rewrite !app_nil_r. done.
Qed.

Lemma q_execute_request_ok r s : inv s -> is_principal (qq_cid r) = true -> 0 < qq_rid r -> gag_fits r = true ->
  0 <= qq_od r < 2 ^ 128 -> wp (execute_request r) (exec_post s r) s.
Proof.
  intros Hs Hp Hrid Hfit Hd.
  destruct (q_principal_rep s _ Hs Hp) as (Hc & old & Hold & Hcid & Hok).
  assert (Hpost : forall o, qq_rid r <= rr_rid old ->
    o = (if qq_rid r =? rr_rid old then [Q_Send_reply (qq_cid r) (full_reply (node_id s) old)] else []) ->
    exec_post s r false s o).
  { intros o Hle Ho. split; [done|]. do 2 (split; [done|]). by exists old. }
  unfold execute_request. wp_steps. eapply q_wp_req_id; [done..|].
  destruct (Z.ltb_spec (qq_rid r) (rr_rid old)).
  { apply Hpost; [lia|]. by rewrite (proj2 (Z.eqb_neq _ _)) by lia. }
  destruct (Z.eqb_spec (rr_rid old) (qq_rid r)) as [E|E].
  { apply wp_bind. eapply q_wp_send_reply; [done|done|lia|done|].
    apply Hpost; [lia|]. by rewrite E, Z.eqb_refl. }
  destruct (q_log_ok r s Hs Hfit Hd) as (h & d & Hadd & Hdg & Hsum & Hlog).
  apply wp_bind. unfold new_reply. apply wp_bind. eapply q_wp_rep_of; [done..|]. unfold set_rep.
  wp_steps. simpl service. unfold exec_post.
  destruct (exec_command (service s) (qq_cid r) (qq_command r)) as [sv' out].
  wp_steps. eapply wp_of_option; [exact Hadd|].
  wp_steps. eapply q_wp_end_reply;
    [simpl; by rewrite list_lookup_insert_eq by (by eapply lookup_lt_Some)|done|done|].
  rewrite (Replica.take_pad out : take (Z.to_nat (zlen out)) (Replica.pad out) = out). apply wp_bind.
  eapply (wp_send_result (qq_cid r) r (new_slot r d out)); try done; [|simpl; apply zlen_nonneg|].
  { simpl. rewrite list_lookup_insert_eq; [done|]. rewrite length_insert. by eapply lookup_lt_Some. }
  eapply wp_mono; [apply wp_tail|].
  - destruct Hlog as [? ? ? ? ? [Hl Hf]]. constructor; try done. simpl.
    rewrite list_insert_insert_eq, length_insert. split; [done|]. apply Forall_insert; [done|].
    split; [done|]. right. simpl. split; [lia|apply zlen_nonneg].
  - simpl. intros b s' o (-> & Hi' & Hn & Hst & Hrep & Hsv & Hsq & Hd' & ->).
    rewrite list_insert_insert_eq in Hrep. split; [done|]. do 2 (split; [done|]). exists old. split; [done|].
    exists d. split_and!; try done; [lia|]. congruence.
Qed.

(** The header and the command lie within the message, which fits a get-a-grip. *)
Definition request_fits (m : Q_Request) : Prop :=
  sizeof_Request_rep + zlen (qq_command m) <= qq_size m /\ gag_fits m = true.

Lemma q_wp_verify_request nid m Q s : request_fits m -> Q (request_verify nid m) s [] -> wp (verify_request nid m) Q s.
Proof.
  intros [Hin Hg] HQ. unfold gag_fits, sizeof_gag_rep, Q_Max_message_size in Hg. bsimp.
  assert (Hsz : qq_size m < 2 ^ 32).
  { unfold ALIGNED_SIZE in Hg. pose proof (Z.mod_pos_bound (32 + qq_size m) 8 ltac:(lia)). case_bool; lia. }
  unfold sizeof_Request_rep, zlen in *. unfold verify_request. wp_step. apply wp_in_bounds; [apply Z.leb_le; unfold zlen; lia|].
  wp_step. apply wp_in_bounds; [|by wp_steps]. unfold auth_inside, sizeof_Request_rep, zlen. rewrite wrapu_id by (unfold in_u; lia).
  destruct (Z.leb_spec (auth_size (qq_cid m)) (qq_size m - (48 + Z.of_nat (length (qq_command m))))); [|by rewrite andb_false_r].
  apply orb_true_iff. right. apply Z.leb_le. lia.
Qed.

Lemma q_request_verify_ok nid m : request_verify nid m = true ->
  is_principal (qq_cid m) = true /\ 0 <= qq_od m < 2 ^ 128.
Proof.
  unfold request_verify, comp_digest. destruct (is_principal (qq_cid m)); [|done]. simpl.
  destruct (Z.eqb_spec (MD5_request (qq_cid m) (qq_rid m) (hashed_bytes m)) (qq_od m)) as [<-|]; [|done].
  intros _. split; [done|apply MD5_range].
Qed.

(** An execution seen from outside. *)
Lemma executed_answer me r e b :
  executed (Q_Executed r :: answer me r e ++ (if b : bool then [QM_rep_notif] else [])) = [r].
Proof.
  unfold executed. simpl. f_equal. rewrite omap_app. unfold answer.
  destruct b; repeat case_match; done.
Qed.

Lemma exec_spec s0 s r b s' o : exec_post s r b s' o -> same_view s0 s -> is_principal (qq_cid r) = true ->
  step_post s0 s' o.
Proof.
  intros (Hi & Hn & _ & old & Hold & Hb) (Hn0 & _ & Hr0 & _ & _ & _ & _ & _ & _ & _ & Hsv0) Hp.
  unfold is_principal in Hp. bsimp. split; [done|]. split; [congruence|]. destruct b.
  - destruct (exec_command (service s) (qq_cid r) (qq_command r)) as [sv' out] eqn:E.
    destruct Hb as (dg & Hlt & -> & Hr & Hs & _). rewrite executed_answer.
    unfold spec_run, AtMostOnce.spec_run, AtMostOnce.spec_step, view_of, rids. cbn [AtMostOnce.sp_rids AtMostOnce.sp_service].
    simpl client_id. simpl request_id. rewrite (proj2 (Z.ltb_ge _ _)) by lia.
    rewrite list_lookup_fmap, <- Hr0, Hold. cbn [fmap option_fmap option_map mbind option_bind].
    rewrite (proj2 (Z.ltb_lt _ _)) by done. cbn [mbind option_bind]. f_equal. f_equal; [|by rewrite Hs, <- Hsv0, E].
    by rewrite Hr, list_fmap_insert.
  - destruct Hb as (-> & _ & ->).
    replace (executed _) with (@nil Q_Request) by (by case_bool).
    unfold view_of, rids. by rewrite Hr0, Hsv0.
Qed.

(** ** Handlers *)

(** The outcome of a message or a timer: nothing the clients see; a notice to
    switch, once stopped; or a run of [execute_request]. *)
Inductive outcome (ev : event) (s s' : state) (o : list Q_output) : Prop :=
| outcome_idle : inv s' -> quiet s s' -> executed o = [] -> sent o = [] -> outcome ev s s' o
| outcome_notice : cur_state s = replica_state_STOP -> inv s' -> quiet s s' -> executed o = [] -> outcome ev s s' o
| outcome_exec sp m b s1 : ev = Deliver sp (Q_Request_msg m) -> same_view s s1 ->
    is_principal (qq_cid m) = true -> 0 < qq_rid m ->
    request_verify (node_id s) m = true -> exec_post s1 m b s' o -> outcome ev s s' o.

Lemma quiet_refl s : quiet s s.
Proof. by repeat split. Qed.

Lemma quiet_view s s' : quiet s s' -> view_of s' = view_of s.
Proof. intros (_ & Hr & Hs & _). unfold view_of, rids. by rewrite Hr, Hs. Qed.

Lemma outcome_view ev s s' : inv s -> same_view s s' -> outcome ev s s' [].
Proof. intros Hi Hv. apply outcome_idle; [by eapply same_view_inv|by apply same_view_quiet|done..]. Qed.

Lemma outcome_noop ev s o : inv s -> executed o = [] -> sent o = [] -> outcome ev s s o.
Proof. intros. apply outcome_idle; try done. Qed.

Lemma outcome_step ev s s' o : outcome ev s s' o -> step_post s s' o.
Proof.
  assert (Hq : inv s' -> quiet s s' -> executed o = [] -> step_post s s' o).
  { intros Hi Hq Ho. pose proof Hq as [Hn _]. split; [done|]. split; [done|]. by rewrite Ho, (quiet_view _ _ Hq). }
  destruct 1; [by apply Hq..|]. by eapply exec_spec.
Qed.

Lemma q_handle_request_ok sp m s : inv s -> is_principal (qq_cid m) = true -> 0 < qq_rid m -> request_fits m ->
  wp (handle_request m) (fun _ s' o => outcome (Deliver sp (Q_Request_msg m)) s s' o) s.
Proof.
  intros Hi Hp Hr Hfit. unfold handle_request. wp_step. apply q_wp_checkpoint_admit; [done|]. simpl. wp_steps.
  destruct (inv_state _ Hi) as [Hst|Hst]; rewrite Hst; simpl.
  2:{ wp_step. apply q_wp_switch_reply; [done..|]. intros. wp_steps. by apply outcome_notice. }
  wp_steps. apply q_wp_verify_request; [done|].
  destruct (request_verify (node_id s) m) eqn:Hv; simpl; [|wp_steps; by apply outcome_view].
  pose proof Hv as Hv'. apply q_request_verify_ok in Hv' as [_ Hd].
  destruct (is_read_only m); [wp_steps; by apply outcome_view|].
  destruct (q_principal_rep s _ Hi Hp) as (Hc & old & Hold & _).
  wp_step. eapply q_wp_req_id; [done..|].
  destruct (Z.leb_spec (rr_rid old) (qq_rid m)); [|wp_steps; by apply outcome_view].
  assert (Hex : forall s1, same_view s s1 ->
    wp (execute_request m ;;; ret tt) (fun _ s' o => outcome (Deliver sp (Q_Request_msg m)) s s' o) s1).
  { intros s1 Hs1. wp_step. eapply wp_mono; [apply q_execute_request_ok; try done; [by eapply same_view_inv|apply Hfit]|].
    intros b s2 o Hpost. wp_step. rewrite app_nil_r. by eapply outcome_exec. }
  wp_step. destruct (rr_rid old =? qq_rid m); wp_step; apply Hex; by repeat split.
Qed.

Lemma q_answer_missing_ok dest l s : inv s ->
  wp (answer_missing dest l) (fun _ s' o => s' = s /\ executed o = [] /\ sent o = []) s.
Proof.
  intros Hi. induction l as [|[c r] l IH]; [done|]. simpl. wp_steps.
  destruct (ReqHistory.find (rh s) c r) as [e|] eqn:Hf.
  - apply List.find_some in Hf as [Hin _]. apply list_elem_of_In in Hin.
    destruct (proj1 (Forall_forall _ _) (inv_reqs _ Hi) e Hin) as (q & Hq & Hfit).
    wp_step. eapply wp_of_option; [done|]. rewrite Hfit. unfold assert_. wp_steps.
    eapply wp_mono; [exact IH|]. simpl. intros _ s' o (-> & Ho & Ho'). done.
  - wp_steps. eapply wp_mono; [exact IH|]. done.
Qed.

Lemma q_enable_replica_ok b s : inv s -> wp (enable_replica b) (fun _ s' o => step_post s s' o) s.
Proof.
  intros Hi. unfold enable_replica. wp_steps.
  destruct (inv_state _ Hi) as [Hst|Hst]; rewrite Hst; simpl; destruct b; wp_steps; simpl;
    (split; [|done]); destruct Hi; constructor; simpl; try done; auto; try lia;
    by intros ? ? ?%lookup_empty_Some.
Qed.

(** The messages a handler trusts: the client of a request is a principal, its
    identifier is positive, its command lies within the message, and the request fits a
    get-a-grip message. *)
Definition event_ok (ev : event) : Prop :=
  match ev with
  | Deliver _ (Q_Request_msg m) => is_principal (qq_cid m) = true /\ 0 < qq_rid m /\ request_fits m
  | _ => True
  end.

Definition is_switch (ev : event) : bool := match ev with Switch _ => true | _ => false end.

Lemma run_event_outcome ev s : inv s -> event_ok ev -> is_switch ev = false ->
  wp (run_event ev) (fun _ s' o => outcome ev s s' o) s.
Proof.
  intros Hi Hev Hsw. assert (Hst := inv_state _ Hi).
  destruct ev as [sp [m|m|m|m|m|m|]|b| |]; simpl in *; [| | | | | | |done| |].
  - destruct Hev as (? & ? & ?). by apply q_handle_request_ok.
  - eapply wp_mono; [by apply q_handle_checkpoint_ok|]. intros _ s' o (? & ? & ->). by apply outcome_idle.
  - by apply outcome_noop.
  - unfold handle_abort. wp_steps. destruct Hst as [->| ->]; simpl; wp_steps; by apply outcome_noop.
  - eapply wp_mono; [by apply q_answer_missing_ok|]. intros _ s' o (-> & Ho & Ho'). by apply outcome_noop.
  - unfold handle_get_a_grip. wp_steps. destruct Hst as [->| ->]; simpl; wp_steps; by apply outcome_noop.
  - by apply outcome_noop.
  - wp_steps. unfold no_checkpoint_timeout. destruct (ctimer s); wp_steps; by apply outcome_view.
  - wp_steps. rewrite (inv_rtimer _ Hi). wp_steps. by apply outcome_noop.
Qed.

Lemma q_run_event_ok ev s : inv s -> event_ok ev -> wp (run_event ev) (fun _ s' o => step_post s s' o) s.
Proof.
  intros Hi Hev. destruct (is_switch ev) eqn:Hsw.
  - destruct ev; try done. by apply q_enable_replica_ok.
  - eapply wp_mono; [by apply run_event_outcome|]. intros [] s' o. apply outcome_step.
Qed.

Lemma q_run_ok evs : forall s, inv s -> Forall event_ok evs -> wp (run evs) (fun _ s' o => step_post s s' o) s.
Proof.
  induction evs as [|ev evs IH]; intros s Hi Hev; [by split; [|split]|].
  inversion_clear Hev. apply wp_bind. eapply wp_mono; [by apply q_run_event_ok|].
  intros _ s1 o1 (Hi1 & Hn1 & He1). eapply wp_mono; [by apply IH|].
  intros _ s2 o2 (Hi2 & Hn2 & He2). split; [done|]. split; [congruence|].
  rewrite q_executed_app. unfold spec_run. rewrite AtMostOnce.spec_run_app. fold spec_run. by rewrite He1.
Qed.


(** ** Progress *)

Lemma sent_answer me r e (b : bool) :
  sent (Q_Executed r :: answer me r e ++ (if b then [QM_rep_notif] else [])) = sent (answer me r e).
Proof. unfold sent at 1. simpl. rewrite omap_app. destruct b; simpl; by rewrite app_nil_r. Qed.

(** What a replica sends back for a fresh request, by its result. *)
Definition first_reply (me : Z) (m : Q_Request) (dg : Z) (out : list Z) : list (Z * Reply.t) :=
  sent (answer me m (new_slot m dg out)).

Lemma first_reply_spec me m dg out : out <> [] -> exists rep, first_reply me m dg out = [(qq_cid m, rep)] /\
  Reply.rid rep = qq_rid m /\ Reply.digest rep = MD5_reply out /\
  (Reply.full rep = true -> Reply.rh_digest rep = dg).
Proof.
  intros Hne. unfold first_reply, answer. simpl. destruct (Z.eqb_spec (zlen out) 0) as [E|_].
  { destruct out; [done|]. unfold zlen in E. simpl in E. lia. }
  case_bool; eexists; (split; [reflexivity|]); done.
Qed.

Lemma deliver_fresh sp m s old : inv s -> cur_state s = replica_state_NORMAL ->
  request_verify (node_id s) m = true -> is_read_only m = false -> 0 < qq_rid m -> request_fits m ->
  replies s !! Z.to_nat (qq_cid m) = Some old -> rr_rid old < qq_rid m ->
  exists s' o, run_event (Deliver sp (Q_Request_msg m)) s = Done tt s' o /\ exec_post s m true s' o.
Proof.
  intros Hi Hst Hv Hro Hr Hfit Hold Hlt. pose proof (q_request_verify_ok _ _ Hv) as [Hp Hd].
  assert (Hc : 0 <= qq_cid m) by (unfold is_principal in Hp; bsimp; lia).
  assert (H : wp (handle_request m) (fun _ s' o => exec_post s m true s' o) s).
  { unfold handle_request. wp_step. apply q_wp_checkpoint_admit; [done|]. simpl. wp_steps. rewrite Hst. simpl.
    wp_steps. apply q_wp_verify_request; [done|]. rewrite Hv, Hro. simpl. wp_step. eapply q_wp_req_id; [done..|].
    rewrite (proj2 (Z.leb_le _ _)) by lia. rewrite (proj2 (Z.eqb_neq _ _)) by lia. wp_steps.
    eapply wp_mono; [apply q_execute_request_ok; try done; [eapply same_view_inv; [|exact Hi]; by repeat split|apply Hfit]|].
    intros b s' o Hpost. wp_step. rewrite app_nil_r. destruct b; [exact Hpost|].
    destruct Hpost as (_ & _ & _ & old' & Hold' & _ & Hle & _). simpl in Hold'. simplify_eq. lia. }
  unfold wp in H. simpl. destruct (handle_request m s) as [[] s' o|]; [|done]. by exists s', o.
Qed.

(** A verified, writing request newer than its client's last one, delivered in
    normal operation, is executed under the replica's next number and added to
    its history digest; when the result is not empty, the replica answers at once
    with exactly one reply under the request's identifier, which carries the
    digest of the result and, if full, the digest of the history. *)
Theorem quorum_executes sp m s old : inv s -> cur_state s = replica_state_NORMAL ->
  request_verify (node_id s) m = true -> is_read_only m = false -> 0 < qq_rid m -> request_fits m ->
  replies s !! Z.to_nat (qq_cid m) = Some old -> rr_rid old < qq_rid m ->
  let '(sv', out) := exec_command (service s) (qq_cid m) (qq_command m) in
  exists s' o, run_event (Deliver sp (Q_Request_msg m)) s = Done tt s' o /\ inv s' /\
    executed o = [m] /\ service s' = sv' /\ seqno s' = seqno s + 1 /\
    ReqHistory.rh_d (rh s') = (ReqHistory.rh_d (rh s) + qq_od m) mod modulus /\
    (out <> [] -> exists rep, sent o = [(qq_cid m, rep)] /\ Reply.rid rep = qq_rid m /\
       Reply.digest rep = MD5_reply out /\
       (Reply.full rep = true -> Reply.rh_digest rep = ReqHistory.rh_digest MD5_sum (rh s'))).
Proof.
  intros Hi Hst Hv Hro Hr Hfit Hold Hlt.
  destruct (deliver_fresh sp m s old Hi Hst Hv Hro Hr Hfit Hold Hlt) as (s' & o & Hrun & Hpost).
  destruct Hpost as (Hi' & Hn & _ & old' & _ & Hb).
  destruct (exec_command (service s) (qq_cid m) (qq_command m)) as [sv' out].
  destruct Hb as (dg & _ & -> & _ & Hsv & Hsq & Hdg & Hsum).
  exists s'. eexists. split; [exact Hrun|]. split; [done|]. rewrite executed_answer. split_and!; try done.
  intros Hne. rewrite sent_answer. destruct (first_reply_spec (node_id s) m dg out Hne) as (rep & Hrep & H1 & H2 & H3).
  exists rep. split_and!; try done. intros Hf. rewrite (H3 Hf), Hdg. unfold ReqHistory.rh_digest. by rewrite Hsum.
Qed.

(** ** Findings *)

(** A request whose result is empty is executed without an answer; only the
    client's retransmission gets one. *)
Theorem empty_result_unanswered sp m s old : inv s -> cur_state s = replica_state_NORMAL ->
  request_verify (node_id s) m = true -> is_read_only m = false -> 0 < qq_rid m -> request_fits m ->
  replies s !! Z.to_nat (qq_cid m) = Some old -> rr_rid old < qq_rid m ->
  (exec_command (service s) (qq_cid m) (qq_command m)).2 = [] ->
  exists s' o, run_event (Deliver sp (Q_Request_msg m)) s = Done tt s' o /\ executed o = [m] /\ sent o = [].
Proof.
  intros Hi Hst Hv Hro Hr Hfit Hold Hlt Hout.
  destruct (deliver_fresh sp m s old Hi Hst Hv Hro Hr Hfit Hold Hlt) as (s' & o & Hrun & Hpost).
  destruct Hpost as (_ & _ & _ & old' & _ & Hb).
  destruct (exec_command (service s) (qq_cid m) (qq_command m)) as [sv' out]. simpl in Hout. subst out.
  destruct Hb as (dg & _ & -> & _). exists s'. eexists. split; [exact Hrun|].
  by rewrite executed_answer, sent_answer.
Qed.

Definition with_command (cmd : list Z) (m : Q_Request) : Q_Request :=
  mk_qreq (qq_extra m) (qq_size m) (qq_od m) (qq_replier m) (qq_cid m) (qq_rid m) (qq_unused m) cmd (qq_auth m).

Lemma tail_not_hashed m pre t t' : qq_command m = pre ++ t -> length t = length t' -> (length t <= 8)%nat ->
  hashed_bytes (with_command (pre ++ t') m) = hashed_bytes m.
Proof.
  intros Hc Hl H8. unfold hashed_bytes, with_command. cbn [qq_command qq_unused]. rewrite Hc, !length_app, <- Hl.
  assert (He : length (le_encode 8 (qq_unused m)) = 8%nat) by apply le_encode_length.
  rewrite !app_assoc, !(take_app_le (_ ++ pre)); try done; rewrite length_app, He; lia.
Qed.

(** The last eight bytes of a command are authenticated by nothing: a request
    altered there verifies at every replica that the original verifies at, and
    is executed in its place. *)
Theorem tail_unauthenticated sp m pre t t' s old : qq_command m = pre ++ t -> length t = length t' -> (length t <= 8)%nat ->
  inv s -> cur_state s = replica_state_NORMAL ->
  request_verify (node_id s) m = true -> is_read_only m = false -> 0 < qq_rid m -> request_fits m ->
  replies s !! Z.to_nat (qq_cid m) = Some old -> rr_rid old < qq_rid m ->
  let m' := with_command (pre ++ t') m in
  request_verify (node_id s) m' = true /\
  exists s' o, run_event (Deliver sp (Q_Request_msg m')) s = Done tt s' o /\ executed o = [m'] /\
    service s' = (exec_command (service s) (qq_cid m) (pre ++ t')).1 /\
    ReqHistory.rh_d (rh s') = (ReqHistory.rh_d (rh s) + qq_od m) mod modulus.
Proof.
  intros Hc Hl H8 Hi Hst Hv Hro Hr Hfit Hold Hlt m'.
  assert (Hv' : request_verify (node_id s) m' = true).
  { unfold request_verify, comp_digest, header in *. unfold m'. rewrite (tail_not_hashed m pre t t') by done. simpl.
    unfold zlen in *. rewrite Hc, length_app in Hv. by rewrite length_app, <- Hl. }
  split; [done|].
  assert (Hfit' : request_fits m').
  { destruct Hfit as [Hin Hg]. split; [|done]. unfold zlen in *. rewrite Hc, length_app in Hin. cbn. by rewrite length_app, <- Hl. }
  destruct (deliver_fresh sp m' s old Hi Hst Hv' Hro Hr Hfit' Hold Hlt) as (s' & o & Hrun & Hpost).
  destruct Hpost as (_ & _ & _ & old' & _ & Hb). simpl in Hb.
  destruct (exec_command (service s) (qq_cid m) (pre ++ t')) as [sv' out].
  destruct Hb as (dg & _ & -> & _ & Hsv & _ & _ & Hsum). exists s'. eexists. split; [exact Hrun|].
  by rewrite executed_answer.
Qed.

(** The switch under a panic: an abort that does not complete the certificate
    leaves [switching_mutex] held, and the next abort deadlocks. *)
Theorem second_abort_deadlocks a a' s ac1 : cur_state s = replica_state_PANICKING -> switching_mutex s = false ->
  abort_verify a = true -> abort_verify a' = true ->
  ac_add (aborts s) a = Some (ac1, true) -> Smasher.ac_is_complete ac1 = false ->
  exists s', run_event (Deliver false (Q_Abort_msg a)) s = Done tt s' [] /\ switching_mutex s' = true /\
    run_event (Deliver false (Q_Abort_msg a')) s' = Fault Deadlock.
Proof.
  intros Hst Hm Hv Hv' Hadd Hinc. simpl. unfold handle_abort, lock_switching, bind, gets, modify, of_option, ret.
  rewrite Hst. simpl. rewrite Hv. simpl. rewrite Hm. simpl. rewrite Hadd. simpl. rewrite Hinc. simpl.
  eexists. split; [done|]. split; [done|]. simpl. rewrite Hst. simpl. by rewrite Hv'.
Qed.

(** Giving up after three expiries leaves the mutex held as well. *)
Theorem give_up_keeps_mutex s : rtimer s = running -> switching_mutex s = false -> n_retrans s = 2 ->
  wp (run_event Abort_timer) (fun _ s' _ => switching_mutex s' = true /\ cur_state s' = replica_state_STOP /\
     ReqHistory.rh (rh s') = []) s.
Proof.
  intros Ht Hm Hn. simpl. wp_steps. rewrite Ht. wp_steps. unfold retransmit_panic.
  wp_step. unfold lock_switching. wp_steps. simpl. rewrite Hm. wp_steps. simpl. rewrite Hn. simpl. wp_steps.
  unfold switch_over, switch_state, instance_id, next_instance_id, enable_replica. wp_steps. simpl. wp_steps. done.
Qed.
End quorum.
End Quorum.

(** ** A concrete group: four replicas, clients 4, 5 and 6, a log as the service *)

Module QExample.
Import Bytes Quorum ZlExample.

Definition auth_yes (nid src : Z) (h : Z * Z * Z * Z * Z * Z * Z * Z) (auth : list Z) : bool := true.
Definition abort_d (a : Smasher.zl_Abort) : Z := Smasher.a_rid a.
(** A digest per client, so that sums of distinct clients' requests differ. *)
Definition md5_client (c r : Z) (bytes : list Z) : Z := 2 ^ (c mod 8) mod 2 ^ 128.

Abbreviation run_q := (run 4 1 7 mod_ex md5_sum md5_reply md5_client auth_yes sig_yes sig_yes abort_d 40 log_service).
Abbreviation run_event_q :=
  (run_event 4 1 7 mod_ex md5_sum md5_reply md5_client auth_yes sig_yes sig_yes abort_d 40 log_service).
Abbreviation init_q nid := (initial 1 7 nid (@nil Z)).

Definition qreq (c r : Z) (cmd : list Z) : Q_Request :=
  mk_qreq 0 (48 + zlen cmd + 40) (md5_client c r []) (-1) c r 0 cmd [].

Lemma group_q : 0 < 4 <= 7.
Proof. lia. Qed.
Lemma md5_client_range c r bytes : 0 <= md5_client c r bytes < 2 ^ 128.
Proof. apply Z.mod_pos_bound. lia. Qed.
Lemma init_q_inv nid : inv 4 7 mod_ex (init_q nid).
Proof. apply q_initial_inv. exact mod_ex_ok. Qed.

Definition q_trace : list event :=
  [Deliver false (Q_Request_msg (qreq 4 1 [7])); Deliver false (Q_Request_msg (qreq 5 3 [8; 9]));
   Deliver false (Q_Request_msg (qreq 4 1 [7])); Deliver true (Q_Request_msg (qreq 5 2 [1]));
   Checkpoint_timer; Deliver false (Q_Request_msg (qreq 4 5 [6])); Switch false;
   Deliver false (Q_Request_msg (qreq 4 6 [5]))].

Lemma q_trace_ok : Forall (event_ok 7) q_trace.
Proof. by repeat constructor. Qed.


(** The sizes of a concrete request. *)
Ltac q_fits := split; [vm_compute; discriminate|reflexivity].

Lemma quorum_executes_witness :
  exists s' o rep, run_event_q (Deliver false (Q_Request_msg (qreq 4 1 [7]))) (init_q 2) = Done tt s' o /\
    executed o = [qreq 4 1 [7]] /\ service s' = [7] /\ sent o = [(4, rep)] /\ Reply.rid rep = 1.
Proof.
  destruct (quorum_executes 4 1 7 mod_ex md5_sum md5_reply md5_client auth_yes sig_yes sig_yes abort_d 40 log_service
              mod_ex_ok md5_client_range false (qreq 4 1 [7]) (init_q 2) rep_initial (init_q_inv 2))
    as (s' & o & Hr & _ & He & Hs & _ & _ & Hrep); try reflexivity; try q_fits.
  destruct (Hrep ltac:(discriminate)) as (rep & Hsent & Hrid & _). by exists s', o, rep.
Defined.

Definition long_request := qreq 4 1 [1; 2; 3; 4; 5; 6; 7; 8; 9; 10].

Lemma tail_unauthenticated_witness :
  exists s' o, run_event_q (Deliver false (Q_Request_msg (with_command ([1; 2] ++ [66; 66; 66; 66; 66; 66; 66; 66]) long_request)))
      (init_q 2) = Done tt s' o /\ service s' = [1; 2; 66; 66; 66; 66; 66; 66; 66; 66].
Proof.
  destruct (tail_unauthenticated 4 1 7 mod_ex md5_sum md5_reply md5_client auth_yes sig_yes sig_yes abort_d 40 log_service
              mod_ex_ok md5_client_range false long_request [1; 2] [3; 4; 5; 6; 7; 8; 9; 10]
              [66; 66; 66; 66; 66; 66; 66; 66] (init_q 2) rep_initial)
    as (_ & s' & o & Hr & _ & Hs & _); try reflexivity; try q_fits; try apply init_q_inv; try (simpl; lia).
  exists s', o. split; [exact Hr|exact Hs].
Defined.

Lemma empty_result_unanswered_witness :
  exists s' o, run_event_q (Deliver false (Q_Request_msg (qreq 4 1 []))) (init_q 2) = Done tt s' o /\ sent o = [].
Proof.
  destruct (empty_result_unanswered 4 1 7 mod_ex md5_sum md5_reply md5_client auth_yes sig_yes sig_yes abort_d 40 log_service
              mod_ex_ok md5_client_range false (qreq 4 1 []) (init_q 2) rep_initial (init_q_inv 2))
    as (s' & o & Hr & _ & Hs); try reflexivity; try q_fits. by exists s', o.
Defined.

Definition panicking : state := set_cur_state replica_state_PANICKING (init_q 0).
Definition abort_of (i : Z) : Smasher.zl_Abort := Smasher.mk_abort i 1 0 (fun _ => AHE 0 0 0).

Lemma second_abort_deadlocks_witness :
  exists s', run_event_q (Deliver false (Q_Abort_msg (abort_of 1))) panicking = Done tt s' [] /\
    run_event_q (Deliver false (Q_Abort_msg (abort_of 2))) s' = Fault Deadlock.
Proof.
  destruct (second_abort_deadlocks 4 1 7 mod_ex md5_sum md5_reply md5_client auth_yes sig_yes sig_yes abort_d 40 log_service
              (abort_of 1) (abort_of 2) panicking _ eq_refl eq_refl eq_refl eq_refl eq_refl eq_refl) as (s' & H1 & _ & H2).
  by exists s'.
Defined.

End QExample.
