(* ===== verification/QuorumGroup.v ===== *)
(** * A Quorum group

    Replicas of [Quorum], each running its own events, and the replies in the
    network.  Quorum has no ordering phase: replicas execute requests in the
    order they arrive, and a client takes a request for committed when all of
    them answer with the same history digest.

    The theorems: if every request a replica has executed was answered by two
    replicas with equal digests, and the digests are collision free, the two have
    executed the same requests in the same order, and the services agree; and
    (finding) commitment of one request says nothing of the order of those before
    it, because the digest of a history forgets the order: two replicas with
    different services answer alike from then on. *)

From S2P Require Import Prelude Effects Bytes ReqHistory SCSet Recover Smasher Certificate Reply ZlReplica AtMostOnce Quorum.
Local Open Scope Z_scope.

Module QuorumGroup.
Import Quorum.
Section group.
Context {S : Type}.
Context (num_replicas max_faulty num_principals : Z).
Context (modulus : Z) (MD5_sum : Z -> Z) (MD5_reply : list Z -> Z) (MD5_request : Z -> Z -> list Z -> Z).
Context (verify_auth : Z -> Z -> Z * Z * Z * Z * Z * Z * Z * Z -> list Z -> bool).
Context (checkpoint_sig : zl_Checkpoint -> bool) (abort_verify : Smasher.zl_Abort -> bool) (abort_digest : Smasher.zl_Abort -> Z) (sig_size : Z).
Context (exec_command : S -> Z -> list Z -> S * list Z).

Local Abbreviation state := (@state S).
Local Abbreviation run_event := (run_event num_replicas max_faulty num_principals modulus MD5_sum
  MD5_reply MD5_request verify_auth checkpoint_sig abort_verify abort_digest sig_size exec_command).
Local Abbreviation event_ok := (event_ok num_principals).
Local Abbreviation inv := (inv num_replicas num_principals modulus).
Local Abbreviation spec_run := (spec_run exec_command).

(** [net] holds the replies, with their sender and the client they go to;
    [logs] what each node has executed. *)
Record system := mk_system {
  nodes : list state; net : list (nat * (Z * Reply.t)); logs : list (list Q_Request)
}.

Definition start (n : nat) (sv : S) : system :=
  mk_system ((fun i => initial max_faulty num_principals i sv) <$> seqZ 0 (Z.of_nat n)) [] (replicate n []).

(** The requests delivered are ones clients issued. *)
Definition deliverable (issued : list Q_Request) (ev : event) : Prop :=
  match ev with Deliver _ (Q_Request_msg m) => m ∈ issued | _ => True end.

Definition fire (x : system) (i : nat) (ev : event) : option system :=
  s ← nodes x !! i; l ← logs x !! i;
  match run_event ev s with
  | Done _ s' o =>
    Some (mk_system (<[i := s']> (nodes x)) (net x ++ (pair i <$> sent o)) (<[i := l ++ executed o]> (logs x)))
  | Fault _ => None
  end.

Inductive step (issued : list Q_Request) : system -> system -> Prop :=
| step_fire x i ev y : event_ok ev -> deliverable issued ev -> is_switch ev = false ->
    fire x i ev = Some y -> step issued x y.

(** ** What a reply says of its sender's log *)

Definition sum_of (l : list Q_Request) : Z := foldr Z.add 0 (qq_od <$> l) mod modulus.
Definition digest_of (l : list Q_Request) : Z := MD5_sum (sum_of l).

(** The digest [dg] is that of the log up to the request [(c, i)]. *)
Definition stamped (l : list Q_Request) (c i dg : Z) : Prop :=
  exists k r, l !! k = Some r /\ qq_cid r = c /\ qq_rid r = i /\ dg = digest_of (take (Datatypes.S k) l).

Lemma stamped_app l l' c i dg : stamped l c i dg -> stamped (l ++ l') c i dg.
Proof.
  intros (k & r & Hk & Hc & Hi & Hd). exists k, r. pose proof (lookup_lt_Some _ _ _ Hk).
  split; [by apply lookup_app_l_Some|]. by rewrite take_app_le by lia.
Qed.

Lemma sum_of_snoc l r : 0 < modulus -> sum_of (l ++ [r]) = (sum_of l + qq_od r) mod modulus.
Proof.
  intros Hm. unfold sum_of. rewrite Z.add_mod_idemp_l by lia. f_equal.
  induction l as [|x l IH]; csimpl in *; lia.
Qed.

Record node_ok (issued : list Q_Request) (sv : S) (s : state) (l : list Q_Request) : Prop := {
  nk_inv : inv s;
  nk_state : cur_state s = replica_state_NORMAL;
  nk_spec : spec_run (AtMostOnce.mk_spec (replicate (Z.to_nat num_principals) 0) sv) l = Some (view_of s);
  nk_sum : ReqHistory.rh_d (rh s) = sum_of l;
  nk_slots : forall c e, replies s !! c = Some e -> 0 < rr_rid e -> stamped l (Z.of_nat c) (rr_rid e) (rr_rh_digest e);
  nk_issued : Forall (fun r => r ∈ issued /\ 0 <= qq_cid r) l
}.

(** A full reply in the network carries the digest of its sender's log. *)
Definition net_ok (ls : list (list Q_Request)) (x : nat * (Z * Reply.t)) : Prop :=
  exists l, ls !! x.1 = Some l /\ (Reply.full x.2.2 = true -> stamped l x.2.1 (Reply.rid x.2.2) (Reply.rh_digest x.2.2)).

Definition group_ok (issued : list Q_Request) (sv : S) (x : system) : Prop :=
  length (nodes x) = length (logs x) /\
  (forall i s l, nodes x !! i = Some s -> logs x !! i = Some l -> node_ok issued sv s l) /\
  Forall (net_ok (logs x)) (net x).

Context (group : 0 < num_replicas <= num_principals).
Context (modulus_ok : 2 ^ 128 <= modulus < 2 ^ (DSum.nbits - 1)).
Context (MD5_range : forall c r bytes, 0 <= MD5_request c r bytes < 2 ^ 128).

Local Abbreviation outcome := (outcome num_replicas num_principals modulus MD5_sum MD5_reply MD5_request verify_auth exec_command).
Local Abbreviation exec_post := (exec_post num_replicas num_principals modulus MD5_sum MD5_reply exec_command).

(** The replies sent by an execution. *)
Lemma exec_sent s m b s' o c rep : exec_post s m b s' o -> (c, rep) ∈ sent o -> Reply.full rep = true ->
  exists e, replies s' !! Z.to_nat (qq_cid m) = Some e /\ c = qq_cid m /\ Reply.rid rep = rr_rid e /\
    Reply.rh_digest rep = rr_rh_digest e.
Proof.
  intros (Hi & _ & _ & old & Hold & Hb) Hin Hf. destruct b.
  - destruct (exec_command _ _ _) as [sv' out]. destruct Hb as (dg & _ & -> & Hr & _).
    rewrite sent_answer in Hin. exists (new_slot MD5_reply m dg out).
    split; [rewrite Hr; apply list_lookup_insert_eq; by eapply lookup_lt_Some|].
    unfold answer in Hin. destruct (rr_reply_size _ =? 0); [by apply elem_of_nil in Hin|].
    case_bool; apply list_elem_of_singleton in Hin; simplify_eq; done.
  - destruct Hb as (-> & _ & ->). exists old. split; [done|].
    case_bool; [|by apply elem_of_nil in Hin]. apply list_elem_of_singleton in Hin. by simplify_eq.
Qed.

Lemma exec_node_ok issued sv s s1 l m b s' o : node_ok issued sv s l -> same_view s s1 ->
  is_principal num_principals (qq_cid m) = true -> 0 < qq_rid m -> m ∈ issued ->
  exec_post s1 m b s' o -> step_post num_replicas num_principals modulus exec_command s s' o ->
  node_ok issued sv s' (l ++ executed o).
Proof.
  intros [Hi Hst Hsp Hsum Hsl Hiss] Hv Hp Hr Hm Hpost (Hi' & _ & Hrun).
  destruct Hpost as (_ & _ & Hst' & old & Hold & Hb). pose proof (same_view_quiet _ _ Hv) as (_ & Hr1 & _ & Hst1 & Hd1).
  assert (Hsp' : spec_run (AtMostOnce.mk_spec (replicate (Z.to_nat num_principals) 0) sv) (l ++ executed o) = Some (view_of s')).
  { unfold Quorum.spec_run in *. by rewrite AtMostOnce.spec_run_app, Hsp. }
  unfold is_principal in Hp. bsimp. destruct b.
  - destruct (exec_command _ _ _) as [sv' out]. destruct Hb as (dg & Hlt & -> & Hrep & _ & _ & Hdg & Hd).
    rewrite executed_answer in *. rewrite Hr1, Hd1, Hsum in *.
    assert (Hs : sum_of (l ++ [m]) = (sum_of l + qq_od m) mod modulus) by (apply sum_of_snoc; lia).
    constructor; try done; [congruence|congruence| |].
    + intros c e. rewrite Hrep. intros Hce Hpos.
      apply list_lookup_insert_Some in Hce as [(<- & <- & _)|[_ Hce]]; [|by apply stamped_app, Hsl].
      exists (length l), m. rewrite lookup_app_r, Nat.sub_diag by lia. split; [done|].
      split; [lia|]. split; [done|]. cbn [rr_rh_digest new_slot]. rewrite Hdg. unfold digest_of. f_equal.
      rewrite take_ge by (rewrite length_app; simpl; lia). done.
    + apply Forall_app. split; [done|]. repeat constructor; [done|lia].
  - destruct Hb as (-> & _ & ->).
    assert (Ho : forall (P : bool) x, executed (if P then [Q_Send_reply (qq_cid m) x] else []) = []) by (by intros []).
    rewrite Ho, app_nil_r in *. constructor; try done; [congruence|congruence|]. intros c e. rewrite Hr1. apply Hsl.
Qed.

Lemma outcome_node_ok issued sv ev s l s' o : node_ok issued sv s l -> outcome ev s s' o -> deliverable issued ev ->
  node_ok issued sv s' (l ++ executed o) /\
  (forall c rep, (c, rep) ∈ sent o -> Reply.full rep = true ->
     stamped (l ++ executed o) c (Reply.rid rep) (Reply.rh_digest rep)).
Proof.
  intros Hn Hout Hiss. pose proof (outcome_step _ _ _ _ _ _ _ _ _ _ _ _ Hout) as Hstep.
  pose proof Hn as [Hi Hst Hsp Hsum Hsl Hl].
  destruct Hout as [Hi' Hq Ho Hs|Hstop|sp m b s1 -> Hv Hp Hr Hver Hpost]; [|congruence|].
  - rewrite Ho, app_nil_r, Hs. split; [|by intros ? ? ?%elem_of_nil]. pose proof Hq as (_ & Hr & _ & Hc & Hd).
    pose proof (quiet_view _ _ Hq) as Hview. constructor; try congruence. intros c e. rewrite Hr. apply Hsl.
  - assert (Hn' : node_ok issued sv s' (l ++ executed o)).
    { by eapply exec_node_ok. }
    split; [done|]. intros c rep Hin Hf.
    destruct (exec_sent _ _ _ _ _ _ _ Hpost Hin Hf) as (e & He & -> & -> & ->).
    unfold is_principal in Hp. bsimp. rewrite <- (Z2Nat.id (qq_cid m)) by lia. eapply (nk_slots _ _ _ _ Hn'); [done|].
    assert (Hrep : Replica.rep_ok e).
    { eapply Forall_lookup_1; [|exact He]. apply (inv_replies _ _ _ _ (nk_inv _ _ _ _ Hn')). }
    destruct b; destruct Hpost as (_ & _ & _ & old & Hold & Hb).
    + destruct (exec_command _ _ _). destruct Hb as (dg & _ & _ & Hrp & _). rewrite Hrp in He.
      rewrite list_lookup_insert_eq in He by (by eapply lookup_lt_Some). by simplify_eq.
    + destruct Hb as (-> & Hle & _). simplify_eq. lia.
Qed.

Lemma qg_step_ok issued sv x y : group_ok issued sv x -> step issued x y -> group_ok issued sv y.
Proof.
  intros Hg Hst. destruct Hst as [x' i ev y' Hev Hdel Hsw Hf]. destruct Hg as (Hlen & Hn & Hnet). unfold fire in Hf.
  destruct (nodes x' !! i) as [s|] eqn:Hs; [|done]. simpl in Hf.
  destruct (logs x' !! i) as [l|] eqn:Hl; [|done]. simpl in Hf.
  pose proof (Hn _ _ _ Hs Hl) as Hni.
  pose proof (run_event_outcome num_replicas max_faulty num_principals modulus MD5_sum MD5_reply MD5_request verify_auth
    checkpoint_sig abort_verify abort_digest sig_size exec_command group modulus_ok MD5_range ev s (nk_inv _ _ _ _ Hni) Hev Hsw) as Hw.
  unfold wp in Hw. destruct (run_event ev s) as [[] s' o|] eqn:Hr; [|done]. simplify_eq.
  destruct (outcome_node_ok issued sv ev s l s' o Hni Hw Hdel) as [Hni' Hsent].
  pose proof (lookup_lt_Some _ _ _ Hs) as Hlt. pose proof (lookup_lt_Some _ _ _ Hl) as Hlt'.
  split; [|split]; simpl.
  - by rewrite !length_insert.
  - intros j sj lj Hsj Hlj.
    apply list_lookup_insert_Some in Hsj as [(<- & <- & _)|[Hne Hsj]].
    + rewrite list_lookup_insert_eq in Hlj by done. by simplify_eq.
    + rewrite list_lookup_insert_ne in Hlj by done. by eapply Hn.
  - apply Forall_app. split.
    + eapply Forall_impl; [exact Hnet|]. intros [j [c rep]] (lj & Hlj & Hst). simpl in *.
      destruct (decide (i = j)) as [<-|Hne].
      * simplify_eq. exists (l ++ executed o). simpl. rewrite list_lookup_insert_eq by done. split; [done|].
        intros Hf. by apply stamped_app, Hst.
      * exists lj. simpl. by rewrite list_lookup_insert_ne.
    + apply Forall_fmap, Forall_forall. intros [c rep] Hin. exists (l ++ executed o). simpl.
      rewrite list_lookup_insert_eq by done. split; [done|]. by apply Hsent.
Qed.

Lemma qg_start_ok issued n sv : group_ok issued sv (start n sv).
Proof.
  split; [|split]; simpl.
  - by rewrite length_fmap, length_seqZ, length_replicate, Nat2Z.id.
  - intros i s l Hs Hl. apply list_lookup_fmap_Some in Hs as (z & -> & _). apply lookup_replicate in Hl as [-> _].
    constructor; try done; [by apply q_initial_inv| |].
    + unfold view_of, rids. simpl. by rewrite fmap_replicate.
    + intros c e He. simpl in He. apply lookup_replicate in He as [-> _]. simpl. lia.
  - constructor.
Qed.

Lemma qg_reachable_ok issued n sv x : rtc (step issued) (start n sv) x -> group_ok issued sv x.
Proof.
  intros Hr. pose proof (qg_start_ok issued n sv) as H0. induction Hr as [|x y z Hs Hr IH]; [done|].
  apply IH. by eapply qg_step_ok.
Qed.

(** ** Matching replies *)

(** The replies of nodes [i] and [j] to the request [r] are full and carry the
    same history digest. *)
Definition matching (x : system) (i j : nat) (r : Q_Request) : Prop :=
  exists rep rep', (i, (qq_cid r, rep)) ∈ net x /\ (j, (qq_cid r, rep')) ∈ net x /\
    Reply.full rep = true /\ Reply.full rep' = true /\
    Reply.rid rep = qq_rid r /\ Reply.rid rep' = qq_rid r /\ Reply.rh_digest rep = Reply.rh_digest rep'.

(** Digests of lists of issued requests collide only on reorderings. *)
Definition collision_free (issued : list Q_Request) : Prop :=
  forall l l', NoDup l -> NoDup l' -> l ⊆ issued -> l' ⊆ issued -> digest_of l = digest_of l' -> l ≡ₚ l'.

Definition rkey (r : Q_Request) : Z * Z := (qq_cid r, qq_rid r).

Lemma log_NoDup issued sv s l : node_ok issued sv s l -> NoDup (rkey <$> l).
Proof.
  intros [_ _ Hsp _ _ Hl]. unfold Quorum.spec_run in Hsp. apply AtMostOnce.spec_run_NoDup in Hsp; [done|].
  eapply Forall_impl; [exact Hl|]. by intros r [_ ?].
Qed.

Lemma log_issued issued sv s l k : node_ok issued sv s l -> take k l ⊆ issued.
Proof.
  intros [_ _ _ _ _ Hl] r Hr. rewrite Forall_forall in Hl. apply Hl. by eapply elem_of_subseteq; [apply subseteq_take|].
Qed.

Lemma NoDup_take {A} (l : list A) k : NoDup l -> NoDup (take k l).
Proof. rewrite <- (take_drop k l) at 1. by intros [? _]%NoDup_app. Qed.

Lemma stamped_at l r k dg : NoDup (rkey <$> l) -> l !! k = Some r -> stamped l (qq_cid r) (qq_rid r) dg ->
  dg = digest_of (take (Datatypes.S k) l).
Proof.
  intros Hnd Hk (k' & r' & Hk' & Hc & Hi & ->). f_equal. f_equal.
  assert (k' = k); [|lia]. eapply (NoDup_lookup (rkey <$> l) k' k (rkey r)); [done|..]; rewrite list_lookup_fmap;
    [rewrite Hk'|by rewrite Hk]. unfold rkey. simpl. by rewrite Hc, Hi.
Qed.

(** A matching reply pins the position of a request in the other log. *)
Lemma matching_position issued sv x i j li lj k r : group_ok issued sv x -> collision_free issued ->
  logs x !! i = Some li -> logs x !! j = Some lj -> li !! k = Some r -> matching x i j r -> lj !! k = Some r.
Proof.
  intros (Hlen & Hn & Hnet) Hcf Hli Hlj Hk (rep & rep' & Hin & Hin' & Hf & Hf' & Hr & Hr' & Hd).
  destruct (lookup_lt_is_Some_2 (nodes x) i) as [si Hsi]; [rewrite Hlen; by eapply lookup_lt_Some|].
  destruct (lookup_lt_is_Some_2 (nodes x) j) as [sj Hsj]; [rewrite Hlen; by eapply lookup_lt_Some|].
  pose proof (Hn _ _ _ Hsi Hli) as Hni. pose proof (Hn _ _ _ Hsj Hlj) as Hnj.
  pose proof (log_NoDup _ _ _ _ Hni) as Hndi. pose proof (log_NoDup _ _ _ _ Hnj) as Hndj.
  rewrite Forall_forall in Hnet. destruct (Hnet _ Hin) as (l1 & Hl1 & Hst). destruct (Hnet _ Hin') as (l2 & Hl2 & Hst').
  simpl in *. simplify_eq. specialize (Hst Hf). specialize (Hst' Hf'). rewrite Hr in Hst. rewrite Hr' in Hst'.
  apply (stamped_at _ _ k) in Hst; [|done..]. destruct Hst' as (k2 & r2 & Hk2 & Hc2 & Hi2 & Hd2).
  assert (Hp : take (Datatypes.S k) li ≡ₚ take (Datatypes.S k2) lj).
  { apply Hcf; [|..|congruence]; try (by eapply log_issued); apply (NoDup_fmap_1 rkey);
      rewrite fmap_take; by apply NoDup_take. }
  pose proof (lookup_lt_Some _ _ _ Hk). pose proof (lookup_lt_Some _ _ _ Hk2).
  pose proof (Permutation_length Hp) as Hlp. rewrite !length_take in Hlp. assert (k2 = k) as -> by lia.
  rewrite Hk2. f_equal. assert (Hin2 : r ∈ lj).
  { eapply elem_of_subseteq; [apply (subseteq_take (Datatypes.S k))|]. rewrite <- Hp.
    apply (list_elem_of_lookup_2 _ k). rewrite lookup_take_lt by lia. exact Hk. }
  apply list_elem_of_lookup in Hin2 as [k3 Hk3].
  assert (k3 = k) as ->; [|congruence].
  eapply (NoDup_lookup (rkey <$> lj) k3 k (rkey r)); [done|..]; rewrite list_lookup_fmap; [by rewrite Hk3|rewrite Hk2].
  unfold rkey. simpl. by rewrite Hc2, Hi2.
Qed.

(** C9. Safety of Quorum: in any run of a group, if every request that replica [i]
    has executed got replies with equal history digests from replicas [i] and
    [j], and digests collide only on reorderings, then [j] has executed the
    requests of [i] first and in the same order; once [j] has executed no more,
    the two services are equal. *)
Theorem committed_logs_agree issued n sv x i j si sj li lj :
  rtc (step issued) (start n sv) x -> collision_free issued ->
  nodes x !! i = Some si -> nodes x !! j = Some sj -> logs x !! i = Some li -> logs x !! j = Some lj ->
  Forall (matching x i j) li ->
  li `prefix_of` lj /\ (length lj <= length li -> service si = service sj)%nat.
Proof.
  intros Hr Hcf Hsi Hsj Hli Hlj Hm. pose proof (qg_reachable_ok _ _ _ _ Hr) as Hg. pose proof Hg as (_ & Hn & _).
  assert (Hp : li `prefix_of` lj).
  { exists (drop (length li) lj). apply list_eq. intros k. destruct (li !! k) as [r|] eqn:Hk.
    - pose proof (lookup_lt_Some _ _ _ Hk). rewrite lookup_app_l by done. rewrite Hk.
      apply (matching_position issued sv x i j li lj k r Hg Hcf Hli Hlj Hk).
      apply (proj1 (Forall_forall _ _) Hm). by eapply list_elem_of_lookup_2.
    - apply lookup_ge_None in Hk. rewrite lookup_app_r, lookup_drop by done. f_equal. lia. }
  split; [done|]. intros Hle. destruct Hp as [l' ->]. rewrite length_app in Hle.
  assert (l' = []) as -> by (apply nil_length_inv; lia). rewrite app_nil_r in *.
  pose proof (nk_spec _ _ _ _ (Hn _ _ _ Hsi Hli)) as H1. pose proof (nk_spec _ _ _ _ (Hn _ _ _ Hsj Hlj)) as H2.
  rewrite H1 in H2. unfold view_of in H2. congruence.
Qed.

(** ** Schedules *)

Fixpoint fire_all (x : system) (l : list (nat * event)) : option system :=
  match l with [] => Some x | (i, ev) :: l' => y ← fire x i ev; fire_all y l' end.

Lemma qg_fire_all_rtc issued l : forall x y,
  Forall (fun p => event_ok p.2 /\ deliverable issued p.2 /\ is_switch p.2 = false) l ->
  fire_all x l = Some y -> rtc (step issued) x y.
Proof.
  induction l as [|[i ev] l IH]; simpl; intros x y Hl Hf; [simplify_eq; apply rtc_refl|].
  apply Forall_cons in Hl as [(He & Hd & Hs) Hl]. simpl in *.
  destruct (fire x i ev) as [z|] eqn:Hz; [|done]. simpl in Hf.
  eapply rtc_l; [by eapply (step_fire _ _ _ _ _ He Hd Hs Hz)|by apply IH].
Qed.
End group.

(** ** Two replicas and three clients *)

Import QExample ZlExample.

Abbreviation fire_q := (fire_all 4 1 7 mod_ex md5_sum md5_reply md5_client auth_yes sig_yes sig_yes abort_d 40 log_service).
Abbreviation step_q := (step 4 1 7 mod_ex md5_sum md5_reply md5_client auth_yes sig_yes sig_yes abort_d 40 log_service).
Abbreviation start_q := (start 1 7 4 (@nil Z)).

Definition ra : Q_Request := qreq 4 1 [7].
Definition rb : Q_Request := qreq 5 1 [8].
Definition rc : Q_Request := qreq 6 1 [9].
Definition to (i : nat) (r : Q_Request) : nat * event := (i, Deliver false (Q_Request_msg r)).

(** Digests of distinct clients' requests are distinct powers of two. *)
Lemma collision_free_ab : collision_free mod_ex md5_sum [ra; rb].
Proof.
  assert (Hcase : forall l, NoDup l -> l ⊆ [ra; rb] -> l ≡ₚ [] \/ l ≡ₚ [ra] \/ l ≡ₚ [rb] \/ l ≡ₚ [ra; rb]).
  { intros l Hnd Hl. destruct l as [|x l]; [by left|].
    assert (Hlen : (length (x :: l) <= 2)%nat).
    { apply (submseteq_length _ [ra; rb]). by apply NoDup_submseteq. }
    assert (Hx : forall y, y ∈ x :: l -> y = ra \/ y = rb).
    { intros y Hy. apply Hl in Hy. by rewrite !elem_of_cons, elem_of_nil in Hy; destruct Hy as [?|[?|?]]; auto. }
    destruct l as [|y [|z l]]; simpl in Hlen; [..|lia].
    - destruct (Hx x) as [-> | ->]; [set_solver|auto..].
    - right. right. right. apply NoDup_cons in Hnd as [Hxy _].
      destruct (Hx x) as [-> | ->], (Hx y) as [-> | ->]; try set_solver. apply Permutation_swap. }
  intros l l' Hn Hn' Hl Hl' Hd.
  assert (Hp : forall k k', k ≡ₚ k' -> digest_of mod_ex md5_sum k = digest_of mod_ex md5_sum k').
  { intros k k' E. unfold digest_of, sum_of. do 2 f_equal. apply ReqHistory.foldr_add_perm. by rewrite E. }
  destruct (Hcase l Hn Hl) as [E|[E|[E|E]]], (Hcase l' Hn' Hl') as [E'|[E'|[E'|E']]];
    try (by rewrite E, E'); exfalso; rewrite (Hp _ _ E), (Hp _ _ E') in Hd; vm_compute in Hd; discriminate.
Qed.

Definition schedule_ab : list (nat * event) := [to 0 ra; to 1 ra; to 0 rb; to 1 rb].

Lemma committed_logs_agree_witness :
  exists x s0 s1, fire_q start_q schedule_ab = Some x /\ nodes x !! 0%nat = Some s0 /\ nodes x !! 1%nat = Some s1 /\
    logs x !! 0%nat = Some [ra; rb] /\ service s0 = service s1.
Proof.
  destruct (fire_q start_q schedule_ab) as [x|] eqn:Hx; [|vm_compute in Hx; discriminate].
  destruct (nodes x !! 0%nat) as [s0|] eqn:H0; [|vm_compute in Hx; injection Hx as <-; discriminate].
  destruct (nodes x !! 1%nat) as [s1|] eqn:H1; [|vm_compute in Hx; injection Hx as <-; discriminate].
  assert (Hl0 : logs x !! 0%nat = Some [ra; rb]) by (vm_compute in Hx; injection Hx as <-; reflexivity).
  assert (Hl1 : logs x !! 1%nat = Some [ra; rb]) by (vm_compute in Hx; injection Hx as <-; reflexivity).
  exists x, s0, s1. split; [done|]. split; [done|]. split; [done|]. split; [done|].
  destruct (committed_logs_agree 4 1 7 mod_ex md5_sum md5_reply md5_client auth_yes sig_yes sig_yes abort_d 40 log_service
    group_q mod_ex_ok md5_client_range [ra; rb] 4 [] x 0 1 s0 s1 [ra; rb] [ra; rb]) as [_ Hs]; try done; [|apply collision_free_ab| |by apply Hs].
  - eapply qg_fire_all_rtc; [|exact Hx]. repeat constructor; simpl; try done; set_solver.
  - vm_compute in Hx. injection Hx as <-. repeat constructor; eexists _, _;
      (split; [apply list_elem_of_In; simpl; tauto|]); (split; [apply list_elem_of_In; simpl; tauto|]); done.
Defined.

(** Commitment hides the order: two replicas that executed the concurrent
    requests of two clients in opposite orders, and whose services differ, answer
    the next request alike, with full replies that match. *)
Theorem commit_hides_order :
  exists x s0 s1 rep rep', rtc (step_q [ra; rb; rc]) start_q x /\
    nodes x !! 0%nat = Some s0 /\ nodes x !! 1%nat = Some s1 /\ service s0 <> service s1 /\
    (0%nat, (6, rep)) ∈ net x /\ (1%nat, (6, rep')) ∈ net x /\
    Reply.full rep = true /\ Reply.full rep' = true /\ Reply.rid rep = 1 /\ Reply.matches rep rep' = true.
Proof.
  destruct (fire_q start_q [to 0 ra; to 0 rb; to 1 rb; to 1 ra; to 0 rc; to 1 rc]) as [x|] eqn:Hx;
    [|vm_compute in Hx; discriminate].
  assert (Hr : rtc (step_q [ra; rb; rc]) start_q x).
  { eapply qg_fire_all_rtc; [|exact Hx]. repeat constructor; simpl; try done; set_solver. }
  exists x. vm_compute in Hx. injection Hx as <-. eexists _, _, _, _. split; [exact Hr|].
  split; [reflexivity|]. split; [reflexivity|]. split; [vm_compute; discriminate|].
  split; [apply list_elem_of_In; simpl; tauto|]. split; [apply list_elem_of_In; simpl; tauto|]. done.
Qed.
End QuorumGroup.
