(* ===== verification/CBFT.v ===== *)
(** * The CBFT replica

    Models [src/protocols/cbft/O_Replica.{h,cc}] (every message handler,
    [execute_request], the abort recovery and the switching operations), with
    [O_Rep_info.cc], [O_Request.cc], [O_Reply.cc] and the constructor of
    [O_Abort].

    In CBFT a client sends its request to the primary, which executes it and
    answers with the order it was executed in; the client then sends the request
    with its order to the other replicas.  A backup executes a request when its
    order is the next one, and keeps requests that come early in
    [bufferedRequests], which are executed as soon as their turn has come.

    A message is the Quorum message of the same name, with the field [order]
    added to requests and replies.  A message to [O_All_replicas] goes to every
    replica but the primary ([O_Node::send]).  The member [totalOrder] is not
    initialised by the constructor: its first value is a parameter of
    [initial].  A reply made for the switch is sent with [order] unset: its value
    is a parameter too. *)

From Stdlib Require Import Sorted.
From S2P Require Import Prelude Effects Bytes ReqHistory SCSet Recover Smasher Certificate Reply ZlReplica AtMostOnce CkptStore Quorum.
Local Open Scope Z_scope.

(** ** Messages *)

(** [O_Request_rep] is [Q_Request_rep] with the field [order]. *)
Record O_Request := mk_oreq { oq_order : Z; oq_base : Q_Request }.

Definition oq_cid (r : O_Request) : Z := qq_cid (oq_base r).
Definition oq_rid (r : O_Request) : Z := qq_rid (oq_base r).
Definition oq_od (r : O_Request) : Z := qq_od (oq_base r).
Definition oq_command (r : O_Request) : list Z := qq_command (oq_base r).

#[export] Instance O_Request_AReq : AReq O_Request :=
  { client_id := oq_cid; request_id := oq_rid; req_digest := oq_od }.

Definition o_with_od (d : Z) (r : O_Request) : O_Request := mk_oreq (oq_order r) (q_with_od d (oq_base r)).
Definition setOrder (k : Z) (r : O_Request) : O_Request := mk_oreq k (oq_base r).

(** [O_Reply_rep] is the reply of ZLight with the field [order]; the size kept in
    [or_rep] leaves that field out. *)
Record O_Reply := mk_orep { or_order : Z; or_rep : Reply.t }.

Record O_Get_a_grip := mk_ogag { og_cid : Z; og_rid : Z; og_replica : Z; og_seqno : Z; og_request : O_Request }.

Inductive O_Message :=
| O_Request_msg (m : O_Request)
| O_Checkpoint_msg (m : zl_Checkpoint)
| O_Panic_msg (m : zl_Panic)
| O_Abort_msg (m : Smasher.zl_Abort)
| O_Missing_msg (m : zl_Missing)
| O_Get_a_grip_msg (m : O_Get_a_grip)
| O_Unknown_msg.

(** The outputs; panics, aborts and missing lists go to [O_All_replicas]. *)
Inductive O_output :=
| O_Executed (r : O_Request)
| O_Send_reply (dest : Z) (r : O_Reply)
| O_Send_panic (p : zl_Panic)
| O_Send_abort (a : Smasher.zl_Abort)
| O_Send_missing (m : zl_Missing)
| O_Send_gag (dest : Z) (g : O_Get_a_grip)
| O_Switch_other (p : protocols_e) (b : bool).

(** A slot of [O_Rep_info]. *)
Record O_slot := mk_slot { sl_rep : Rep_entry; sl_order : Z }.

Module CBFT.
Import Bytes.
Section cbft.
Context {S : Type}.

Record state := mk_state {
  node_id : Z;
  seqno : Z;
  replies : list O_slot;
  nb_retransmissions : Z;
  rh : ReqHistory.t O_Request;
  checkpoint_store : CkptStore.t (CSet.t zl_Checkpoint);
  cur_state : replica_state;
  aborts : Smasher.Abort_certificate;
  ah_2 : option (list AbortHistoryElement);
  missing : option (list AbortHistoryElement);
  num_missing : Z;
  missing_mask : list bool;
  missing_store : list (option O_Request);
  missing_store_seq : list Z;
  n_retrans : Z;
  outstanding : list (Z * Z);
  totalOrder : Z;
  bufferedRequests : list O_Request;
  remotefd : list Z;
  service : S
}.

Definition set_seqno (x : Z) (s : state) : state :=
  mk_state (node_id s) x (replies s) (nb_retransmissions s) (rh s) (checkpoint_store s) (cur_state s) (aborts s)
    (ah_2 s) (missing s) (num_missing s) (missing_mask s) (missing_store s) (missing_store_seq s) (n_retrans s)
    (outstanding s) (totalOrder s) (bufferedRequests s) (remotefd s) (service s).
Definition set_replies (x : list O_slot) (s : state) : state :=
  mk_state (node_id s) (seqno s) x (nb_retransmissions s) (rh s) (checkpoint_store s) (cur_state s) (aborts s)
    (ah_2 s) (missing s) (num_missing s) (missing_mask s) (missing_store s) (missing_store_seq s) (n_retrans s)
    (outstanding s) (totalOrder s) (bufferedRequests s) (remotefd s) (service s).
Definition set_nb_retransmissions (x : Z) (s : state) : state :=
  mk_state (node_id s) (seqno s) (replies s) x (rh s) (checkpoint_store s) (cur_state s) (aborts s) (ah_2 s)
    (missing s) (num_missing s) (missing_mask s) (missing_store s) (missing_store_seq s) (n_retrans s)
    (outstanding s) (totalOrder s) (bufferedRequests s) (remotefd s) (service s).
Definition set_rh (x : ReqHistory.t O_Request) (s : state) : state :=
  mk_state (node_id s) (seqno s) (replies s) (nb_retransmissions s) x (checkpoint_store s) (cur_state s) (aborts s)
    (ah_2 s) (missing s) (num_missing s) (missing_mask s) (missing_store s) (missing_store_seq s) (n_retrans s)
    (outstanding s) (totalOrder s) (bufferedRequests s) (remotefd s) (service s).
Definition set_checkpoint_store (x : CkptStore.t (CSet.t zl_Checkpoint)) (s : state) : state :=
  mk_state (node_id s) (seqno s) (replies s) (nb_retransmissions s) (rh s) x (cur_state s) (aborts s) (ah_2 s)
    (missing s) (num_missing s) (missing_mask s) (missing_store s) (missing_store_seq s) (n_retrans s)
    (outstanding s) (totalOrder s) (bufferedRequests s) (remotefd s) (service s).
Definition set_cur_state (x : replica_state) (s : state) : state :=
  mk_state (node_id s) (seqno s) (replies s) (nb_retransmissions s) (rh s) (checkpoint_store s) x (aborts s)
    (ah_2 s) (missing s) (num_missing s) (missing_mask s) (missing_store s) (missing_store_seq s) (n_retrans s)
    (outstanding s) (totalOrder s) (bufferedRequests s) (remotefd s) (service s).
Definition set_aborts (x : Smasher.Abort_certificate) (s : state) : state :=
  mk_state (node_id s) (seqno s) (replies s) (nb_retransmissions s) (rh s) (checkpoint_store s) (cur_state s) x
    (ah_2 s) (missing s) (num_missing s) (missing_mask s) (missing_store s) (missing_store_seq s) (n_retrans s)
    (outstanding s) (totalOrder s) (bufferedRequests s) (remotefd s) (service s).
Definition set_ah_2 (x : option (list AbortHistoryElement)) (s : state) : state :=
  mk_state (node_id s) (seqno s) (replies s) (nb_retransmissions s) (rh s) (checkpoint_store s) (cur_state s)
    (aborts s) x (missing s) (num_missing s) (missing_mask s) (missing_store s) (missing_store_seq s) (n_retrans s)
    (outstanding s) (totalOrder s) (bufferedRequests s) (remotefd s) (service s).
Definition set_missing (x : option (list AbortHistoryElement)) (s : state) : state :=
  mk_state (node_id s) (seqno s) (replies s) (nb_retransmissions s) (rh s) (checkpoint_store s) (cur_state s)
    (aborts s) (ah_2 s) x (num_missing s) (missing_mask s) (missing_store s) (missing_store_seq s) (n_retrans s)
    (outstanding s) (totalOrder s) (bufferedRequests s) (remotefd s) (service s).
Definition set_num_missing (x : Z) (s : state) : state :=
  mk_state (node_id s) (seqno s) (replies s) (nb_retransmissions s) (rh s) (checkpoint_store s) (cur_state s)
    (aborts s) (ah_2 s) (missing s) x (missing_mask s) (missing_store s) (missing_store_seq s) (n_retrans s)
    (outstanding s) (totalOrder s) (bufferedRequests s) (remotefd s) (service s).
Definition set_missing_mask (x : list bool) (s : state) : state :=
  mk_state (node_id s) (seqno s) (replies s) (nb_retransmissions s) (rh s) (checkpoint_store s) (cur_state s)
    (aborts s) (ah_2 s) (missing s) (num_missing s) x (missing_store s) (missing_store_seq s) (n_retrans s)
    (outstanding s) (totalOrder s) (bufferedRequests s) (remotefd s) (service s).
Definition set_missing_store (x : list (option O_Request)) (s : state) : state :=
  mk_state (node_id s) (seqno s) (replies s) (nb_retransmissions s) (rh s) (checkpoint_store s) (cur_state s)
    (aborts s) (ah_2 s) (missing s) (num_missing s) (missing_mask s) x (missing_store_seq s) (n_retrans s)
    (outstanding s) (totalOrder s) (bufferedRequests s) (remotefd s) (service s).
Definition set_missing_store_seq (x : list Z) (s : state) : state :=
  mk_state (node_id s) (seqno s) (replies s) (nb_retransmissions s) (rh s) (checkpoint_store s) (cur_state s)
    (aborts s) (ah_2 s) (missing s) (num_missing s) (missing_mask s) (missing_store s) x (n_retrans s)
    (outstanding s) (totalOrder s) (bufferedRequests s) (remotefd s) (service s).
Definition set_n_retrans (x : Z) (s : state) : state :=
  mk_state (node_id s) (seqno s) (replies s) (nb_retransmissions s) (rh s) (checkpoint_store s) (cur_state s)
    (aborts s) (ah_2 s) (missing s) (num_missing s) (missing_mask s) (missing_store s) (missing_store_seq s) x
    (outstanding s) (totalOrder s) (bufferedRequests s) (remotefd s) (service s).
Definition set_outstanding (x : list (Z * Z)) (s : state) : state :=
  mk_state (node_id s) (seqno s) (replies s) (nb_retransmissions s) (rh s) (checkpoint_store s) (cur_state s)
    (aborts s) (ah_2 s) (missing s) (num_missing s) (missing_mask s) (missing_store s) (missing_store_seq s)
    (n_retrans s) x (totalOrder s) (bufferedRequests s) (remotefd s) (service s).
Definition set_totalOrder (x : Z) (s : state) : state :=
  mk_state (node_id s) (seqno s) (replies s) (nb_retransmissions s) (rh s) (checkpoint_store s) (cur_state s)
    (aborts s) (ah_2 s) (missing s) (num_missing s) (missing_mask s) (missing_store s) (missing_store_seq s)
    (n_retrans s) (outstanding s) x (bufferedRequests s) (remotefd s) (service s).
Definition set_bufferedRequests (x : list O_Request) (s : state) : state :=
  mk_state (node_id s) (seqno s) (replies s) (nb_retransmissions s) (rh s) (checkpoint_store s) (cur_state s)
    (aborts s) (ah_2 s) (missing s) (num_missing s) (missing_mask s) (missing_store s) (missing_store_seq s)
    (n_retrans s) (outstanding s) (totalOrder s) x (remotefd s) (service s).
Definition set_remotefd (x : list Z) (s : state) : state :=
  mk_state (node_id s) (seqno s) (replies s) (nb_retransmissions s) (rh s) (checkpoint_store s) (cur_state s)
    (aborts s) (ah_2 s) (missing s) (num_missing s) (missing_mask s) (missing_store s) (missing_store_seq s)
    (n_retrans s) (outstanding s) (totalOrder s) (bufferedRequests s) x (service s).
Definition set_service (x : S) (s : state) : state :=
  mk_state (node_id s) (seqno s) (replies s) (nb_retransmissions s) (rh s) (checkpoint_store s) (cur_state s)
    (aborts s) (ah_2 s) (missing s) (num_missing s) (missing_mask s) (missing_store s) (missing_store_seq s)
    (n_retrans s) (outstanding s) (totalOrder s) (bufferedRequests s) (remotefd s) x.

Local Abbreviation M := (Effects.M state O_output).
Local Open Scope handler_scope.

(** ** Parameters *)

Context (num_replicas max_faulty num_principals : Z).
Context (modulus : Z) (MD5_sum : Z -> Z) (MD5_reply : list Z -> Z) (MD5_request : Z -> Z -> list Z -> Z).
Context (verify_auth : Z -> Z -> Z * (Z * Z * Z * Z * Z * Z * Z * Z) -> list Z -> bool).
Context (checkpoint_sig : zl_Checkpoint -> bool) (abort_sig : Smasher.zl_Abort -> bool) (abort_digest : Smasher.zl_Abort -> Z).
Context (signature_entry : Z -> list AbortHistoryElement -> nat -> AbortHistoryElement) (sig_size : Z).
Context (exec_command : S -> Z -> list Z -> S * list Z).
Context (unset_order : Z).

Definition is_replica (i : Z) : bool := (0 <=? i) && (i <? num_replicas).
Definition is_principal (i : Z) : bool := (0 <=? i) && (i <? num_principals).
Definition primary : Z := 0.
Definition instance_id : protocols_e := quorum.

(** ** [O_Request] *)

Definition sizeof_Request_rep : Z := 52.
Definition is_read_only (m : O_Request) : bool := Z.odd (qq_extra (oq_base m)).

(** The bytes hashed are those of Quorum: the order is not among them, but it
    belongs to the header the authenticator covers. *)
Definition comp_digest (m : O_Request) : Z := Quorum.comp_digest MD5_request (oq_base m).
Definition header (m : O_Request) : Z * (Z * Z * Z * Z * Z * Z * Z * Z) := (oq_order m, Quorum.header (oq_base m)).

Definition request_verify (nid : Z) (m : O_Request) : bool :=
  let cid := oq_cid m in
  let old_size := sizeof_Request_rep + zlen (oq_command m) in
  if is_principal cid && (comp_digest m =? oq_od m) then
    if negb (cid =? nid) && (num_replicas <=? cid) &&
       (Quorum.auth_size num_replicas cid <=? wrapu 32 (qq_size (oq_base m) - old_size))
    then verify_auth nid cid (header m) (qq_auth (oq_base m)) else false
  else false.

(** What [verify] reads of a message trimmed to its size: [comp_digest], 32 bytes into
    it, and then the authenticator, when it gets there.  Its length test wraps around. *)
Definition digest_inside (m : O_Request) : bool := 32 + 12 + zlen (oq_command m) <=? qq_size (oq_base m).
Definition auth_inside (nid : Z) (m : O_Request) : bool :=
  let cid := oq_cid m in
  let old_size := sizeof_Request_rep + zlen (oq_command m) in
  negb (is_principal cid && (comp_digest m =? oq_od m) && negb (cid =? nid) && (num_replicas <=? cid)
        && (Quorum.auth_size num_replicas cid <=? wrapu 32 (qq_size (oq_base m) - old_size)))
  || (old_size + Quorum.auth_size num_replicas cid <=? qq_size (oq_base m)).
Definition verify_request (nid : Z) (m : O_Request) : M bool :=
  in_bounds (digest_inside m) ;;; in_bounds (auth_inside nid m) ;;; ret (request_verify nid m).

Definition checkpoint_verify (c : zl_Checkpoint) : bool := is_replica (c_id c) && checkpoint_sig c.
Definition abort_verify (a : Smasher.zl_Abort) : bool := is_replica (Smasher.a_id a) && abort_sig a.

(** ** [O_Rep_info] *)

Definition slot_of (cid : Z) : M O_slot :=
  l <- gets replies ;;
  if cid <? 0 then fail OutOfBounds else of_option OutOfBounds (l !! Z.to_nat cid).

Definition set_slot (cid : Z) (r : O_slot) : M unit :=
  modify (fun s => set_replies (<[Z.to_nat cid := r]> (replies s)) s).

Definition req_id (cid : Z) : M Z := r <- slot_of cid ;; ret (rr_rid (sl_rep r)).
Definition rep_digest (cid : Z) : M Z := r <- slot_of cid ;; ret (rr_digest (sl_rep r)).

Definition new_reply (cid : Z) : M unit :=
  x <- slot_of cid ;;
  let r := sl_rep x in
  set_slot cid (mk_slot (mk_rep (rr_rid r) (-1) (rr_cid r) (rr_rh_digest r) (rr_digest r) (rr_body r)) (sl_order x)).

Definition end_reply (cid rid sz : Z) (d : Z) (body : list Z) : M unit :=
  x <- slot_of cid ;;
  assert_ (rr_reply_size (sl_rep x) =? -1) ;;;
  set_slot cid (mk_slot (mk_rep rid sz (-1) d (MD5_reply (take (Z.to_nat sz) body)) body) (sl_order x)).

(** [sizeof(O_Reply_rep)] is four bytes more than ZLight's. *)
Definition full_reply (me : Z) (x : O_slot) : O_Reply :=
  let r := sl_rep x in
  mk_orep (sl_order x)
    (Reply.mk 0 (rr_rid r) (rr_rh_digest r) (rr_digest r) me (rr_reply_size r) (-1)
       false instance_id (ALIGNED_SIZE (4 + Reply.sizeof_rep + rr_reply_size r + Reply.MAC_size) - 4) (rr_body r)).

(** [send_reply(dest, 0, src, tentative, order)]: a negative order (the default)
    keeps the one of the slot. *)
Definition send_reply (dest src order : Z) : M unit :=
  x <- slot_of dest ;;
  assert_ (negb (rr_reply_size (sl_rep x) =? -1)) ;;;
  assert_ (rr_cid (sl_rep x) =? -1) ;;;
  let x := if 0 <=? order then mk_slot (sl_rep x) order else x in
  set_slot dest x ;;;
  emit (O_Send_reply dest (full_reply src x)).

(** [O_Reply(0, rid, node_id, d, p, cid)]. *)
Definition empty_reply (rid d cid : Z) : M Reply.t :=
  me <- gets node_id ;;
  if is_principal cid then
    ret (Reply.mk 0 rid 0 d me (-1) cid false instance_id (Reply.sizeof_rep + Reply.MAC_size) [])
  else fail NullDeref.

(** [set_instance_id(p); authenticate(_, 0); send(&qr, cid)]. *)
Definition send_switch (p : protocols_e) (rid cid : Z) : M unit :=
  d <- rep_digest cid ;;
  r <- empty_reply rid d cid ;;
  let r := Reply.set_instance_id r p in
  emit (O_Send_reply cid (mk_orep unset_order
    (Reply.mk (Reply.v r) (Reply.rid r) (Reply.rh_digest r) (MD5_reply []) (Reply.replica r) 0
       (Reply.cid r) (Reply.should_switch r) (Reply.instance_id r)
       (ALIGNED_SIZE (4 + Reply.sizeof_rep + Reply.MAC_size) - 4) []))).

(** ** Switching *)

(** Neither [totalOrder] nor [bufferedRequests] is reset. *)
Definition enable_replica (b : bool) : M unit :=
  st <- gets cur_state ;;
  if bool_decide (st = replica_state_NORMAL) || bool_decide (st = replica_state_STOP) then
    if b then
      (if bool_decide (st = replica_state_NORMAL) then ret tt
       else modify (fun s =>
              set_rh ReqHistory.empty (set_checkpoint_store (CkptStore.clear_all (checkpoint_store s))
                (set_outstanding [] (set_seqno 0 s))))) ;;;
      modify (set_cur_state replica_state_NORMAL)
    else modify (set_cur_state replica_state_STOP)
  else ret tt.

(** The replica is registered as [quorum]; the other protocols are outside. *)
Definition switch_state (p : protocols_e) (b : bool) : M unit :=
  match p with
  | quorum => enable_replica b
  | _ => emit (O_Switch_other p b)
  end.

Fixpoint notify_all (l : list (Z * Z)) : M unit :=
  match l with
  | [] => ret tt
  | (cid, rid) :: l' => send_switch pbft rid cid ;;; notify_all l'
  end.

Definition notify_outstanding : M unit :=
  switch_state pbft true ;;;
  l <- gets outstanding ;;
  notify_all (foldl Replica.omap_insert [] l) ;;;
  modify (set_outstanding []).

(** ** Executing a request *)

Definition replier : Z := 2.

(** The reply, with the order taken from [totalOrder++], whose value is an [int].  An
    empty reply (for a result of 8500 bytes or more) leaves the order of the slot as it
    was. *)
Definition int_end : Z := 2 ^ 31.

Definition send_result (cid rid sz : Z) : M unit :=
  me <- gets node_id ;;
  t <- gets totalOrder ;;
  (if t + 1 <? int_end then modify (set_totalOrder (t + 1)) else fail Overflow) ;;;
  if (sz <? 8500) || (replier =? me) || (replier <? 0) then send_reply cid me t
  else
    d <- rep_digest cid ;;
    r <- empty_reply rid d cid ;;
    emit (O_Send_reply cid (mk_orep t r)).

(** [true]: the request was executed or buffered.  The request is logged with
    its order set to -1 for the time of [add_request], which does not read it. *)
Definition execute_request (req : O_Request) : M bool :=
  let cid := oq_cid req in
  let rid := oq_rid req in
  me <- gets node_id ;;
  last <- req_id cid ;;
  if rid <? last then ret false
  else if last =? rid then send_reply cid me (-1) ;;; ret false
  else
    t <- gets totalOrder ;;
    if negb (me =? primary) && negb (t =? oq_order req) then
      modify (fun s => set_bufferedRequests (bufferedRequests s ++ [req]) s) ;;; ret true
    else
      new_reply cid ;;;
      sv <- gets service ;;
      let '(sv', out) := exec_command sv cid (oq_command req) in
      modify (set_service sv') ;;;
      emit (O_Executed req) ;;;
      let sz := zlen out in
      sq <- gets seqno ;;
      h <- gets rh ;;
      hd <- of_option AssertFailed (ReqHistory.add_request modulus MD5_sum h req sq) ;;
      modify (set_rh hd.1) ;;;
      modify (set_seqno (sq + 1)) ;;;
      end_reply cid rid sz hd.2 (Replica.pad out) ;;;
      send_result cid rid sz ;;;
      ret true.

(** The first buffered request with the order [t]. *)
Fixpoint next_buffered (t : Z) (l : list O_Request) : option (nat * O_Request) :=
  match l with
  | [] => None
  | q :: l' => if t =? oq_order q then Some (O, q) else prod_map Datatypes.S id <$> next_buffered t l'
  end.

(** The loop over [bufferedRequests]: a match is executed and erased and the
    scan starts again.  Every turn erases a request, so their number bounds the
    turns. *)
Fixpoint drain (n : nat) : M unit :=
  match n with
  | O => ret tt
  | Datatypes.S n' =>
    t <- gets totalOrder ;;
    l <- gets bufferedRequests ;;
    match next_buffered t l with
    | None => ret tt
    | Some (i, q) =>
      execute_request q ;;;
      modify (fun s => set_bufferedRequests (delete i (bufferedRequests s)) s) ;;;
      drain n'
    end
  end.

(** ** Requests *)

Definition handle_request (m : O_Request) (sock : Z) : M unit :=
  me <- gets node_id ;;
  let cid := oq_cid m in
  let rid := oq_rid m in
  if negb (is_principal cid) then fail OutOfBounds else
  modify (fun s => set_remotefd (<[Z.to_nat cid := sock]> (remotefd s)) s) ;;;
  if negb (me =? primary) && (oq_order m <? 0) then ret tt
  else if (me =? primary) && (0 <=? oq_order m) then ret tt
  else
    b <- gets bufferedRequests ;;
    if negb (me =? primary) && existsb (fun q => oq_order m =? oq_order q) b then ret tt
    else
      st <- gets cur_state ;;
      if bool_decide (st = replica_state_STOP) then send_switch chain rid cid
      else if negb (bool_decide (st = replica_state_NORMAL)) then
        modify (fun s => set_outstanding (outstanding s ++ [(cid, rid)]) s)
      else
        v <- verify_request me m ;;
        if negb v then ret tt
        else if is_read_only m then ret tt
        else
          last_rid <- req_id cid ;;
          if last_rid <=? rid then
            (if last_rid =? rid then modify (fun s => set_nb_retransmissions (nb_retransmissions s + 1) s)
             else ret tt) ;;;
            ok <- execute_request m ;;
            t <- gets totalOrder ;;
            if (ok : bool) && negb (me =? primary) && (oq_order m <? t) then
              l <- gets bufferedRequests ;;
              drain (length l)
            else ret tt
          else ret tt.

(** ** Aborts *)

Abbreviation entry := (ReqHistory.Rh_entry O_Request).

Definition O_Max_message_size : Z := 9000.
Definition sizeof_abort_rep : Z := 60.
Definition tuple_size : Z := 28.

(** The constructor of [O_Abort]: entries without a request are skipped. *)
Fixpoint abort_tuples (l : list entry) (offset : Z) : M (list AbortHistoryElement) :=
  match l with
  | [] => ret []
  | e :: l' =>
    match ReqHistory.req e with
    | None => abort_tuples l' offset
    | Some r =>
      if O_Max_message_size - sig_size <? offset + tuple_size then fail ExitCalled
      else
        rest <- abort_tuples l' (offset + tuple_size) ;;
        ret (AHE (oq_cid r) (oq_rid r) (oq_od r) :: rest)
    end
  end.

Abbreviation ac_add := (Quorum.ac_add abort_digest).

(** [sign] needs room for the signature. *)
Definition broadcast_abort (out_rid : Z) : M unit :=
  me <- gets node_id ;;
  h <- gets rh ;;
  ts <- abort_tuples (ReqHistory.rh h) sizeof_abort_rep ;;
  let old_size := sizeof_abort_rep + ReqHistory.size h * tuple_size in
  (if wrapu 32 (O_Max_message_size - old_size) <? sig_size then fail ExitCalled else ret tt) ;;;
  assert_ (ALIGNED_SIZE (old_size + sig_size) <=? O_Max_message_size) ;;;
  let a := Smasher.mk_abort me out_rid (length (ReqHistory.rh h))
             (fun j => default (signature_entry me ts j) (ts !! j)) in
  emit (O_Send_abort a) ;;;
  ac <- gets aborts ;;
  r <- of_option AssertFailed (ac_add ac a) ;;
  modify (set_aborts r.1).

Definition handle_panic (m : zl_Panic) : M unit :=
  st <- gets cur_state ;;
  me <- gets node_id ;;
  (if bool_decide (st = replica_state_PANICKING) || bool_decide (st = replica_state_STOP) then ret tt
   else emit (O_Send_panic (mk_panic me 0)) ;;; modify (set_n_retrans 0) ;;;
        modify (set_cur_state replica_state_PANICKING)) ;;;
  st <- gets cur_state ;;
  if negb (is_replica (p_cid m)) && bool_decide (st = replica_state_STOP) then
    send_switch chain (p_rid m) (p_cid m)
  else
    (if is_replica (p_cid m) then ret tt
     else modify (fun s => set_outstanding (outstanding s ++ [(p_cid m, p_rid m)]) s)) ;;;
    broadcast_abort (p_rid m).

(** ** Checkpoints: none is sent, those received are collected *)

Definition enter_panic : M unit :=
  me <- gets node_id ;;
  emit (O_Send_panic (mk_panic me 0)) ;;;
  modify (set_cur_state replica_state_PANICKING) ;;;
  modify (set_n_retrans 0).

(** [for (i = 0; i < n(); i++) ... same = c->match(cc)], from [i] on. *)
Fixpoint all_match (c : zl_Checkpoint) (cs : CSet.t zl_Checkpoint) (i : Z) (n : nat) : option bool :=
  match n with
  | O => Some true
  | Datatypes.S n' =>
    cc ← CSet.fetch cs i;
    if c_digest c =? c_digest cc then all_match c cs (i + 1) n' else Some false
  end.

Definition TRUNCATE_SIZE : nat := 128.

Definition handle_checkpoint (c : zl_Checkpoint) : M unit :=
  if negb (checkpoint_verify c) then ret tt
  else
    st <- gets checkpoint_store ;;
    if negb (CkptStore.last st =? 0) && (c_seqno c <? CkptStore.last st) then ret tt
    else
      f <- of_option AssertFailed (CkptStore.find st (c_seqno c)) ;;
      let '(st', cs) :=
        match f with
        | None => let cs := (CSet.store c_id (CSet.create (Z.to_nat num_replicas)) c).1 in
                  (CkptStore.add st (c_seqno c) cs, cs)
        | Some (pos, cs) => let cs := (CSet.store c_id cs c).1 in (CkptStore.set_at st pos cs, cs)
        end in
      modify (set_checkpoint_store st') ;;;
      if CSet.size cs =? num_replicas then
        same <- of_option NullDeref (all_match c cs 0 (Z.to_nat num_replicas)) ;;
        if (same : bool) then
          st'' <- of_option AssertFailed (CkptStore.remove TRUNCATE_SIZE st' (c_seqno c)) ;;
          modify (set_checkpoint_store st'') ;;;
          modify (fun s => set_rh (ReqHistory.truncate_history (rh s) (c_seqno c)).1.1 s)
        else enter_panic
      else ret tt.

(** ** The end of the recovery *)

(** The constructor of [O_Missing] keeps twelve bytes for each element. *)
Definition sizeof_missing_rep : Z := 36.
Definition missing_fits (mis : list AbortHistoryElement) : bool :=
  sizeof_missing_rep + Z.of_nat (length mis) * 12 <=? O_Max_message_size.

Definition send_missing (mis : list AbortHistoryElement) : M unit :=
  me <- gets node_id ;;
  (if missing_fits mis then ret tt else fail ExitCalled) ;;;
  emit (O_Send_missing (mk_missing me ((fun a => (cid a, rid a)) <$> mis))).

(** The new history replaces the old one, and the replica stops. *)
Definition install (newrh : ReqHistory.t O_Request) : M unit :=
  modify (set_missing_store []) ;;; modify (set_missing_store_seq []) ;;;
  modify (set_missing_mask []) ;;; modify (set_num_missing 0) ;;;
  modify (set_rh newrh) ;;;
  modify (set_seqno (ReqHistory.get_top_seqno newrh + 1)) ;;;
  modify (set_missing None) ;;;
  modify (set_cur_state replica_state_STOP) ;;;
  switch_state instance_id false ;;;
  switch_state pbft true ;;;
  notify_outstanding.

Abbreviation rebuild := (Recover.rebuild o_with_od modulus MD5_sum true false).

Definition handle_abort (m : Smasher.zl_Abort) : M unit :=
  st <- gets cur_state ;;
  if negb (bool_decide (st = replica_state_PANICKING)) then ret tt
  else if negb (abort_verify m) then ret tt
  else
    ac <- gets aborts ;;
    r <- of_option AssertFailed (ac_add ac m) ;;
    if negb r.2 then ret tt
    else
      modify (set_aborts r.1) ;;;
      if negb (Smasher.ac_is_complete r.1) then ret tt
      else
        me <- gets node_id ;;
        let l := Smasher.ac r.1 in
        p <- of_option AssertFailed
               (Smasher.process (Smasher.max_hist_size l) max_faulty l (Z.to_nat me)) ;;
        let '(ah2, mis) := p in
        modify (set_ah_2 (Some ah2)) ;;; modify (set_missing (Some mis)) ;;;
        modify (set_missing_mask (replicate (length mis) true)) ;;;
        modify (set_missing_store (replicate (length mis) None)) ;;;
        modify (set_missing_store_seq (replicate (length mis) 0)) ;;;
        modify (set_num_missing (Z.of_nat (length mis))) ;;;
        modify (set_aborts (Smasher.ac_clear r.1)) ;;;
        if (length mis =? 0)%nat then
          h <- gets rh ;;
          newrh <- of_sum (rebuild ah2 h [] []) ;;
          install newrh
        else
          send_missing mis ;;;
          modify (set_cur_state replica_state_MISWAITING).

(** The constructor of [O_Get_a_grip] copies the request, and [set_size] asserts
    that it fits. *)
Definition sizeof_gag_rep : Z := 32.
Definition gag_fits (q : O_Request) : bool :=
  ALIGNED_SIZE (sizeof_gag_rep + qq_size (oq_base q)) <=? O_Max_message_size.

Fixpoint answer_missing (dest : Z) (l : list (Z * Z)) : M unit :=
  match l with
  | [] => ret tt
  | (c, r) :: l' =>
    h <- gets rh ;;
    me <- gets node_id ;;
    (match ReqHistory.find h c r with
     | Some e => q <- of_option NullDeref (ReqHistory.req e) ;;
                 assert_ (gag_fits q) ;;;
                 assert_ (is_principal dest || (dest =? -1)) ;;;
                 emit (O_Send_gag dest (mk_ogag c r me (ReqHistory.seq e) q))
     | None => ret tt
     end) ;;;
    answer_missing dest l'
  end.

Definition handle_missing (m : zl_Missing) : M unit := answer_missing (m_replica m) (m_list m).

(** The first missing, still masked element the message provides. *)
Fixpoint match_missing (mis : list AbortHistoryElement) (mask : list bool) (i : nat) (g : O_Get_a_grip) : option nat :=
  match mis, mask with
  | a :: mis', b :: mask' =>
    if b && (cid a =? og_cid g) && (rid a =? og_rid g) && (d a =? oq_od (og_request g))
    then Some i else match_missing mis' mask' (Datatypes.S i) g
  | _, _ => None
  end.

Definition handle_get_a_grip (m : O_Get_a_grip) : M unit :=
  st <- gets cur_state ;;
  if negb (bool_decide (st = replica_state_MISWAITING)) then ret tt
  else
    mi <- gets missing ;;
    mis <- of_option NullDeref mi ;;
    mask <- gets missing_mask ;;
    match match_missing mis mask 0 m with
    | None => ret tt
    | Some i =>
      modify (fun s => set_missing_mask (<[i := false]> (missing_mask s)) s) ;;;
      modify (fun s => set_missing_store (<[i := Some (og_request m)]> (missing_store s)) s) ;;;
      modify (fun s => set_missing_store_seq (<[i := og_seqno m]> (missing_store_seq s)) s) ;;;
      modify (fun s => set_num_missing (num_missing s - 1) s) ;;;
      k <- gets num_missing ;;
      if k =? 0 then
        ah <- gets ah_2 ;;
        ah2 <- of_option NullDeref ah ;;
        h <- gets rh ;;
        store <- gets missing_store ;;
        sq <- gets missing_store_seq ;;
        newrh <- of_sum (rebuild ah2 h store sq) ;;
        install newrh
      else ret tt
    end.

(** [retransmit_panic]: the timer that would call it is never created. *)
Definition nk_thresh : Z := 3.

Definition retransmit_panic : M unit :=
  modify (fun s => set_n_retrans (n_retrans s + 1) s) ;;;
  k <- gets n_retrans ;;
  if k =? nk_thresh then
    modify (fun s => set_aborts (Smasher.ac_clear (aborts s)) s) ;;;
    modify (set_missing None) ;;;
    modify (set_rh ReqHistory.empty) ;;;
    modify (set_cur_state replica_state_STOP) ;;;
    switch_state quorum false ;;;
    switch_state chain true ;;;
    modify (set_n_retrans 0)
  else
    me <- gets node_id ;;
    emit (O_Send_panic (mk_panic me 0)) ;;;
    modify (set_cur_state replica_state_PANICKING).

(** ** Dispatch *)

Definition processReceivedMessage (msg : O_Message) (sock : Z) : M unit :=
  match msg with
  | O_Request_msg m => handle_request m sock
  | O_Checkpoint_msg m => handle_checkpoint m
  | O_Panic_msg m => handle_panic m
  | O_Abort_msg m => handle_abort m
  | O_Missing_msg m => handle_missing m
  | O_Get_a_grip_msg m => handle_get_a_grip m
  | O_Unknown_msg => ret tt
  end.

Definition initial (nid : Z) (sv : S) (order0 : Z) : state :=
  mk_state nid 0 (replicate (Z.to_nat num_principals) (mk_slot rep_initial 0)) 0 ReqHistory.empty CkptStore.create
    replica_state_NORMAL (Smasher.ac_create num_replicas (Z.to_nat num_replicas))
    None None 0 [] [] [] 0 [] order0 [] (replicate (Z.to_nat num_principals) (-1)) sv.

(** An event of a replica: a message on a socket, or a call of the switcher. *)
Inductive event := Deliver (m : O_Message) (sock : Z) | Switch (b : bool).

Definition run_event (ev : event) : M unit :=
  match ev with
  | Deliver m sock => processReceivedMessage m sock
  | Switch b => enable_replica b
  end.

Fixpoint run (evs : list event) : M unit :=
  match evs with [] => ret tt | ev :: evs' => run_event ev ;;; run evs' end.

(** ** The replica invariant *)

(** A digest has its width, and the request fits a get-a-grip message. *)
Definition req_ok (q : O_Request) : Prop := 0 <= oq_od q < 2 ^ 128 /\ gag_fits q = true.

Abbreviation slot_ok := (Recover.slot_ok req_ok).

Definition valid_request (q : O_Request) : Prop := is_principal (oq_cid q) = true /\ 0 < oq_rid q /\ req_ok q.

Definition cset_ok (p : Z * CSet.t zl_Checkpoint) : Prop :=
  CSet.wf c_id p.2 /\ length (CSet.elems p.2) = Z.to_nat num_replicas.

(** While requests are missing: the lists run in parallel, [num_missing] counts
    the masked ones, and the others are stored. *)
Record recovery := mk_recovery {
  rc_ah : option (list AbortHistoryElement); rc_missing : option (list AbortHistoryElement);
  rc_num : Z; rc_mask : list bool; rc_store : list (option O_Request); rc_seq : list Z
}.
Definition recovery_of (s : state) : recovery :=
  mk_recovery (ah_2 s) (missing s) (num_missing s) (missing_mask s) (missing_store s) (missing_store_seq s).

Record waiting (x : recovery) (mis : list AbortHistoryElement) : Prop := {
  wait_ah : is_Some (rc_ah x);
  wait_missing : rc_missing x = Some mis;
  wait_mask : length (rc_mask x) = length mis;
  wait_store : length (rc_store x) = length mis;
  wait_seq : length (rc_seq x) = length mis;
  wait_num : rc_num x = Z.of_nat (length (filter (fun b : bool => b) (rc_mask x)));
  wait_found : forall i, rc_mask x !! i = Some false ->
    exists o, rc_store x !! i = Some o /\ slot_ok o
}.

Record certificate_ok (ac : Smasher.Abort_certificate) : Prop := {
  cert_wf : Smasher.ac_wf ac;
  cert_complete : Smasher.complete ac = num_replicas;
  cert_length : length (Smasher.ac ac) = Z.to_nat num_replicas;
  cert_sizes : forall i a, Smasher.ac ac !! i = Some (Some a) -> Z.of_nat (Smasher.hist_size a) < 2 ^ 16
}.

Record inv (s : state) : Prop := {
  inv_node : 0 <= node_id s < num_replicas;
  inv_replies : length (replies s) = Z.to_nat num_principals /\ Forall (fun x => Replica.rep_ok (sl_rep x)) (replies s);
  inv_sum : 0 <= ReqHistory.rh_d (rh s) < modulus;
  inv_log : Forall (fun e => slot_ok (ReqHistory.req e)) (ReqHistory.rh (rh s));
  inv_store : CkptStore.wf (checkpoint_store s) /\ Forall cset_ok (CkptStore.contents (checkpoint_store s));
  inv_aborts : certificate_ok (aborts s);
  inv_waiting : cur_state s = replica_state_MISWAITING -> exists mis, waiting (recovery_of s) mis;
  inv_outstanding : Forall (fun p => is_principal p.1 = true) (outstanding s);
  inv_buffered : Forall valid_request (bufferedRequests s);
  inv_order : 0 <= totalOrder s
}.

Hypothesis group : 0 < num_replicas <= num_principals.
Hypothesis group_size : num_replicas < 2 ^ 32.
Hypothesis faulty_ok : 0 <= max_faulty.
Hypothesis sig_size_ok : 0 <= sig_size <= O_Max_message_size - sizeof_abort_rep.
Hypothesis modulus_ok : 2 ^ 128 <= modulus < 2 ^ (DSum.nbits - 1).
Hypothesis MD5_range : forall c r bytes, 0 <= MD5_request c r bytes < 2 ^ 128.
Hypothesis MD5_sum_range : forall x, 0 <= MD5_sum x < 2 ^ 128.
(** The service writes at most the buffer of [Max_rep_size] (8192) bytes. *)
Hypothesis result_fits : forall sv c cmd, zlen (exec_command sv c cmd).2 < 8500.

Lemma certificate_create : certificate_ok (Smasher.ac_create num_replicas (Z.to_nat num_replicas)).
Proof.
  constructor; simpl; try done.
  - unfold Smasher.ac_wf. simpl. by induction (Z.to_nat num_replicas).
  - by rewrite length_replicate.
  - by intros i a [[=] _]%lookup_replicate.
Qed.

Lemma certificate_clear ac : certificate_ok ac -> certificate_ok (Smasher.ac_clear ac).
Proof.
  intros [_ Hc Hl _]. unfold Smasher.ac_clear. rewrite Hl, Hc. apply certificate_create.
Qed.

Lemma certificate_add ac a : certificate_ok ac -> 0 <= Smasher.a_id a < num_replicas ->
  Z.of_nat (Smasher.hist_size a) < 2 ^ 16 ->
  exists ac' b, ac_add ac a = Some (ac', b) /\ certificate_ok ac'.
Proof.
  intros Hc Hid Hsz. pose proof Hc as [Hw Hn Hl Hs]. unfold Quorum.ac_add.
  rewrite (proj2 (Z.ltb_ge _ _)) by lia.
  destruct (lookup_lt_is_Some_2 (Smasher.ac ac) (Z.to_nat (Smasher.a_id a)) ltac:(lia)) as [o Ho].
  rewrite Ho. simpl. destruct o as [b|]; [by eexists _, _|].
  destruct (Smasher.ac_add ac a) as [[ac' b]|] eqn:E.
  2:{ unfold Smasher.ac_add in E. rewrite (proj2 (Z.ltb_ge _ _)), Ho in E by lia. done. }
  eexists _, _. split; [done|]. constructor.
  - by eapply Smasher.ac_add_wf.
  - unfold Smasher.ac_add in E. rewrite (proj2 (Z.ltb_ge _ _)), Ho in E by lia. simpl in E. by injection E as <- <-.
  - unfold Smasher.ac_add in E. rewrite (proj2 (Z.ltb_ge _ _)), Ho in E by lia. simpl in E. injection E as <- <-. simpl.
    by rewrite length_insert.
  - unfold Smasher.ac_add in E. rewrite (proj2 (Z.ltb_ge _ _)), Ho in E by lia. simpl in E. injection E as <- <-. simpl.
    intros i x Hx. apply list_lookup_insert_Some in Hx as [(_ & [= <-] & _)|(_ & Hx)]; [done|by eapply Hs].
Qed.

Lemma o_initial_inv nid sv t0 : 0 <= nid < num_replicas -> 0 <= t0 -> inv (initial nid sv t0).
Proof.
  intros Hn Ht. constructor; simpl; try done; try lia.
  - rewrite length_replicate. split; [done|]. apply Forall_replicate. split; [done|]. by left.
  - apply certificate_create.
Qed.

(** ** What handlers output *)

Definition executed (o : list O_output) : list O_Request :=
  omap (fun x => match x with O_Executed r => Some r | _ => None end) o.

(** The replies to requests; notices to switch are left out. *)
Definition answers (o : list O_output) : list (Z * O_Reply) :=
  omap (fun x => match x with
                 | O_Send_reply c r => if Reply.should_switch (or_rep r) then None else Some (c, r)
                 | _ => None
                 end) o.

Lemma o_executed_app o1 o2 : executed (o1 ++ o2) = executed o1 ++ executed o2.
Proof. apply omap_app. Qed.
Lemma answers_app o1 o2 : answers (o1 ++ o2) = answers o1 ++ answers o2.
Proof. apply omap_app. Qed.

(** Nothing a client or the order depends on. *)
Definition silent (o : list O_output) : Prop := executed o = [] /\ answers o = [].

Lemma o_silent_app o1 o2 : silent o1 -> silent o2 -> silent (o1 ++ o2).
Proof. intros [H1 H2] [H3 H4]. split; [by rewrite o_executed_app, H1|by rewrite answers_app, H2]. Qed.

Definition quiet (s s' : state) : Prop :=
  node_id s' = node_id s /\ replies s' = replies s /\ service s' = service s /\
  totalOrder s' = totalOrder s /\ bufferedRequests s' = bufferedRequests s.

Lemma o_quiet_refl s : quiet s s.
Proof. by repeat split. Qed.
Lemma o_quiet_trans s1 s2 s3 : quiet s1 s2 -> quiet s2 s3 -> quiet s1 s3.
Proof. unfold quiet. intuition congruence. Qed.

Definition calm (s s' : state) (o : list O_output) : Prop := inv s' /\ quiet s s' /\ silent o.

Lemma calm_refl s : inv s -> calm s s [].
Proof. intros. split; [done|]. by split; [apply o_quiet_refl|]. Qed.
Lemma calm_trans s1 s2 s3 o1 o2 : calm s1 s2 o1 -> calm s2 s3 o2 -> calm s1 s3 (o1 ++ o2).
Proof. intros (_ & Hq & Ho) (Hi & Hq' & Ho'). split; [done|]. split; [by eapply o_quiet_trans|by apply o_silent_app]. Qed.

Definition view_of (s : state) : AtMostOnce.spec :=
  AtMostOnce.mk_spec ((fun x => rr_rid (sl_rep x)) <$> replies s) (service s).
Definition spec_run := (AtMostOnce.spec_run (R := O_Request) oq_command exec_command).

Lemma quiet_view_of s s' : quiet s s' -> view_of s' = view_of s.
Proof. intros (_ & Hr & Hs & _). unfold view_of. by rewrite Hr, Hs. Qed.

(** ** Primitive steps *)

Lemma wp_slot_of c Q s x : replies s !! Z.to_nat c = Some x -> 0 <= c -> Q x s [] -> wp (slot_of c) Q s.
Proof.
  intros Hr Hc HQ. unfold wp, slot_of, bind, gets. rewrite (proj2 (Z.ltb_ge _ _)) by lia. by rewrite Hr.
Qed.

Lemma o_wp_req_id c Q s x : replies s !! Z.to_nat c = Some x -> 0 <= c -> Q (rr_rid (sl_rep x)) s [] -> wp (req_id c) Q s.
Proof. intros. apply wp_bind. by eapply wp_slot_of. Qed.

Lemma principal_slot s c : inv s -> is_principal c = true ->
  0 <= c /\ exists x, replies s !! Z.to_nat c = Some x /\ Replica.rep_ok (sl_rep x).
Proof.
  intros Hs Hc. unfold is_principal in Hc. bsimp. split; [lia|].
  destruct (inv_replies _ Hs) as [Hl Hf].
  destruct (lookup_lt_is_Some_2 (replies s) (Z.to_nat c)) as [x Hx]; [lia|].
  exists x. split; [done|]. by apply (Forall_lookup_1 _ _ _ _ Hf Hx).
Qed.

(** The slot after a reply with the given order has been sent. *)
Definition with_order (t : Z) (x : O_slot) : O_slot := if 0 <=? t then mk_slot (sl_rep x) t else x.

Lemma o_wp_send_reply c me t Q s x : replies s !! Z.to_nat c = Some x -> 0 <= c ->
  rr_reply_size (sl_rep x) <> -1 -> rr_cid (sl_rep x) = -1 ->
  Q tt (set_replies (<[Z.to_nat c := with_order t x]> (replies s)) s)
    [O_Send_reply c (full_reply me (with_order t x))] ->
  wp (send_reply c me t) Q s.
Proof.
  intros Hr Hc Hsz Hcid HQ. apply wp_bind. eapply wp_slot_of; [done..|].
  rewrite (proj2 (Z.eqb_neq _ _)) by done. by rewrite Hcid.
Qed.

Lemma set_slot_same s c x : replies s !! Z.to_nat c = Some x ->
  set_replies (<[Z.to_nat c := with_order (-1) x]> (replies s)) s = s.
Proof. intros Hx. unfold with_order. simpl. rewrite list_insert_id by done. by destruct s. Qed.

Lemma wp_send_switch p c rid s : inv s -> is_principal c = true ->
  wp (send_switch p rid c) (fun _ s' o => s' = s /\ silent o) s.
Proof.
  intros Hs Hp. destruct (principal_slot s c Hs Hp) as (Hc & x & Hx & _).
  unfold send_switch. wp_step. apply wp_bind. eapply wp_slot_of; [done..|]. wp_step.
  unfold empty_reply. wp_steps. rewrite Hp. wp_steps. done.
Qed.

Lemma wp_notify_all l s : inv s -> Forall (fun p => is_principal p.1 = true) l ->
  wp (notify_all l) (fun _ s' o => s' = s /\ silent o) s.
Proof.
  intros Hs. induction l as [|[c r] l IH]; intros Hl; [done|]. inversion_clear Hl. simpl. wp_step.
  eapply wp_mono; [by apply wp_send_switch|]. intros _ s1 o1 [-> Ho]. simpl.
  eapply wp_mono; [by apply IH|]. intros _ s2 o2 [-> Ho2]. split; [done|]. by apply o_silent_app.
Qed.

Lemma omap_insert_all (P : Z * Z -> Prop) l p : Forall P l -> P p -> Forall P (Replica.omap_insert l p).
Proof.
  intros Hl Hp. induction Hl as [|q l Hq Hl IH]; [by repeat constructor|]. unfold Replica.omap_insert in *.
  repeat case_match; by repeat constructor.
Qed.

Lemma notify_list_all (P : Z * Z -> Prop) l : Forall P l -> Forall P (foldl Replica.omap_insert [] l).
Proof.
  intros Hl. assert (Hacc : Forall P []) by done. revert Hacc. generalize (@nil (Z * Z)) as acc.
  induction Hl as [|p l Hp Hl IH]; intros acc Hacc; [done|]. simpl. apply IH. by apply omap_insert_all.
Qed.

Lemma notify_outstanding_ok s : inv s -> wp notify_outstanding (fun _ s' o => calm s s' o) s.
Proof.
  intros Hs. unfold notify_outstanding, switch_state. wp_steps.
  eapply wp_mono; [apply wp_notify_all; [done|]; apply notify_list_all, Hs|].
  intros _ s1 o1 [-> Ho1]. wp_step. split.
  - destruct Hs. by constructor.
  - split; [by repeat split|]. rewrite app_nil_r. by apply (o_silent_app [_]).
Qed.

(** ** Executing a request *)

Definition new_slot (r : O_Request) (dg : Z) (out : list Z) (t : Z) : O_slot :=
  mk_slot (mk_rep (oq_rid r) (zlen out) (-1) dg (MD5_reply out) (Replica.pad out)) t.

(** The four outcomes: an old request is dropped, the last one answered again,
    an early one buffered, and the one whose turn has come executed and
    answered with its order. *)
Inductive exec_post (s : state) (r : O_Request) : bool -> state -> list O_output -> Prop :=
| exec_old x : replies s !! Z.to_nat (oq_cid r) = Some x -> oq_rid r < rr_rid (sl_rep x) -> exec_post s r false s []
| exec_again x : replies s !! Z.to_nat (oq_cid r) = Some x -> oq_rid r = rr_rid (sl_rep x) ->
    exec_post s r false s [O_Send_reply (oq_cid r) (full_reply (node_id s) x)]
| exec_early x : replies s !! Z.to_nat (oq_cid r) = Some x -> rr_rid (sl_rep x) < oq_rid r ->
    node_id s <> primary -> totalOrder s <> oq_order r ->
    exec_post s r true (set_bufferedRequests (bufferedRequests s ++ [r]) s) []
| exec_done x s' dg : replies s !! Z.to_nat (oq_cid r) = Some x -> rr_rid (sl_rep x) < oq_rid r ->
    node_id s = primary \/ totalOrder s = oq_order r ->
    node_id s' = node_id s -> cur_state s' = cur_state s -> bufferedRequests s' = bufferedRequests s ->
    totalOrder s' = totalOrder s + 1 ->
    service s' = (exec_command (service s) (oq_cid r) (oq_command r)).1 ->
    replies s' = <[Z.to_nat (oq_cid r) :=
      new_slot r dg (exec_command (service s) (oq_cid r) (oq_command r)).2 (totalOrder s)]> (replies s) ->
    exec_post s r true s'
      [O_Executed r; O_Send_reply (oq_cid r)
         (full_reply (node_id s) (new_slot r dg (exec_command (service s) (oq_cid r) (oq_command r)).2 (totalOrder s)))].

Lemma o_log_ok r s : inv s -> req_ok r ->
  exists h d, ReqHistory.add_request modulus MD5_sum (rh s) r (seqno s) = Some (h, d) /\
    inv (set_seqno (seqno s + 1) (set_rh h s)).
Proof.
  intros Hs Hd. pose proof Hs as [? ? Hsum Hlog ? ? ? ? ? ?]. pose proof Hd as [Hod _].
  unfold ReqHistory.add_request. simpl. rewrite DSum.add_mod by lia. simpl. eexists _, _. split; [done|].
  constructor; simpl; try done.
  - apply Z.mod_pos_bound. lia.
  - apply Forall_app. split; [done|]. constructor; [|constructor]. by exists r.
Qed.

Lemma inv_set_replies l s : inv s -> length l = length (replies s) ->
  Forall (fun x => Replica.rep_ok (sl_rep x)) l -> inv (set_replies l s).
Proof. intros [? [Hl ?]] Hl' Hf. constructor; simpl; try done. split; [lia|done]. Qed.

Lemma o_wp_end_reply c x sz dg body e s Q : replies s !! Z.to_nat c = Some e -> 0 <= c -> rr_reply_size (sl_rep e) = -1 ->
  Q tt (set_replies (<[Z.to_nat c := mk_slot (mk_rep x sz (-1) dg (MD5_reply (take (Z.to_nat sz) body)) body) (sl_order e)]>
                       (replies s)) s) [] ->
  wp (end_reply c x sz dg body) Q s.
Proof. intros He Hc Hsz HQ. apply wp_bind. eapply wp_slot_of; [done..|]. by rewrite Hsz. Qed.

Lemma o_wp_send_result E c rid sz x s Q : replies s !! Z.to_nat c = Some x -> 0 <= c -> sz < 8500 -> 0 <= totalOrder s ->
  0 <= rr_reply_size (sl_rep x) -> rr_cid (sl_rep x) = -1 ->
  (let x' := mk_slot (sl_rep x) (totalOrder s) in
   Q tt (set_replies (<[Z.to_nat c := x']> (replies s)) (set_totalOrder (totalOrder s + 1) s))
     [O_Send_reply c (full_reply (node_id s) x')]) ->
  (int_end <= totalOrder s + 1 -> E Overflow) -> wpe E (send_result c rid sz) Q s.
Proof.
  intros Hx Hc Hsz Ht H0 Hcid HQ HE. unfold send_result. wpe_steps.
  destruct (Z.ltb_spec (totalOrder s + 1) int_end); [|by apply HE]. wpe_steps. rewrite (proj2 (Z.ltb_lt _ _)) by done. simpl.
  apply wp_wpe. eapply o_wp_send_reply; [done|done|lia|done|]. unfold with_order. by rewrite (proj2 (Z.leb_le _ _)) by done.
Qed.

Lemma o_execute_request_ok r s : inv s -> valid_request r ->
  wpe (fun e => e = Overflow /\ int_end <= totalOrder s + 1) (execute_request r) (fun b s' o => inv s' /\ exec_post s r b s' o) s.
Proof.
  intros Hs Hv. pose proof Hv as (Hp & Hrid & Hd).
  destruct (principal_slot s _ Hs Hp) as (Hc & x & Hx & Hcid & Hok).
  unfold execute_request. wpe_steps. apply wp_wpe; eapply o_wp_req_id; [done..|].
  destruct (Z.ltb_spec (oq_rid r) (rr_rid (sl_rep x))); [wpe_steps; split; [done|by eapply exec_old]|].
  destruct (Z.eqb_spec (rr_rid (sl_rep x)) (oq_rid r)) as [E|E].
  { wpe_step. apply wp_wpe; eapply o_wp_send_reply; [done|done|lia|done|]. wpe_step. rewrite set_slot_same by done.
    split; [done|]. by eapply exec_again. }
  wpe_steps. destruct (negb (node_id s =? primary) && negb (totalOrder s =? oq_order r)) eqn:Eo; bsimp.
  { wpe_steps. split; [|by eapply exec_early; [done|lia|..]].
    destruct Hs. constructor; simpl; try done. apply Forall_app. split; [done|]. by apply Forall_singleton. }
  destruct (o_log_ok r s Hs Hd) as (h & d & Hadd & Hlog).
  wpe_step. unfold new_reply. wpe_step. apply wp_wpe; eapply wp_slot_of; [done..|]. unfold set_slot.
  wpe_steps. simpl service. destruct (exec_command (service s) (oq_cid r) (oq_command r)) as [sv' out] eqn:Ex.
  wpe_steps. apply wp_wpe; eapply wp_of_option; [exact Hadd|].
  wpe_steps. apply wp_wpe; eapply o_wp_end_reply;
    [simpl; by rewrite list_lookup_insert_eq by (by eapply lookup_lt_Some)|done|done|].
  rewrite (Replica.take_pad out : take (Z.to_nat (zlen out)) (Replica.pad out) = out). wpe_step.
  assert (Hlt : (Z.to_nat (oq_cid r) < length (replies s))%nat) by (by eapply lookup_lt_Some).
  eapply o_wp_send_result; [simpl; rewrite list_lookup_insert_eq; [done|by rewrite length_insert]|done| |..].
  { pose proof (result_fits (service s) (oq_cid r) (oq_command r)) as Hf. by rewrite Ex in Hf. }
  { apply Hs. } { apply zlen_nonneg. } { done. } 2:{ done. }
  cbv beta zeta. wpe_step. cbn [replies set_replies sl_rep set_totalOrder set_seqno set_rh set_service totalOrder node_id]. rewrite !list_insert_insert_eq. split.
  - apply inv_set_replies; simpl.
    + destruct Hlog as [? ? ? ? ? ? ? ? ? Ho]. constructor; simpl in *; try done; [|lia].
      rewrite length_insert. split; [apply Hs|]. apply Forall_insert; [apply Hs|].
      split; [done|]. right. simpl. split; [lia|apply zlen_nonneg].
    + by rewrite !length_insert.
    + apply Forall_insert; [apply Hs|]. split; [done|]. right. simpl. split; [lia|apply zlen_nonneg].
  - match goal with |- exec_post _ _ _ ?s' _ => pose proof (exec_done s r x s' d) as He end.
    rewrite Ex in He. apply He; try done; [lia|].
    apply andb_false_iff in Eo as [E1|E1]; apply negb_false_iff, Z.eqb_eq in E1; auto.
Qed.

(** What a request can add to the order, now or later. *)
Definition weight (s : state) : Z := totalOrder s + Z.of_nat (length (bufferedRequests s)).

(** [k] more requests can overflow the order. *)
Definition overflows (k : Z) (s : state) (e : fault) : Prop := e = Overflow /\ int_end <= weight s + k.

Lemma overflows_mono k k' s s' e : weight s' + k' <= weight s + k -> overflows k' s' e -> overflows k s e.
Proof. intros Hw [-> He]. split; [done|lia]. Qed.

Lemma exec_weight s r b s' o : exec_post s r b s' o -> weight s' <= weight s + 1.
Proof.
  unfold weight. intros [| | |x s2 dg _ _ _ _ _ Hb Ht _ _]; simpl; try lia; [rewrite length_app; simpl; lia|rewrite Hb, Ht; lia].
Qed.

Lemma quiet_weight s s' : quiet s s' -> weight s' = weight s.
Proof. unfold weight. by intros (_ & _ & _ & -> & ->). Qed.

(** ** Following a replica through its log *)

(** The request [i] of client [c] is the one of order [k] in a log that starts at
    the order [t0]. *)
Definition indexed (t0 : Z) (L : list O_Request) (c i k : Z) : Prop :=
  exists j q, L !! j = Some q /\ k = t0 + Z.of_nat j /\ oq_cid q = c /\ oq_rid q = i.

Lemma indexed_app t0 L L' c i k : indexed t0 L c i k -> indexed t0 (L ++ L') c i k.
Proof. intros (j & q & Hq & H). exists j, q. split; [by apply lookup_app_l_Some|done]. Qed.

Definition answered (t0 : Z) (L : list O_Request) (p : Z * O_Reply) : Prop :=
  indexed t0 L p.1 (Reply.rid (or_rep p.2)) (or_order p.2).

Section tracks.
Context (good : O_Request -> Prop) (x0 : AtMostOnce.spec (S := S)) (t0 nid : Z).

(** The requests executed so far are [L]: the view is the specification's, the
    order counts them, every slot holds the order of its request, and a backup
    has executed them in the order they carry. *)
Record tracks (L : list O_Request) (s : state) : Prop := {
  tr_inv : inv s;
  tr_spec : spec_run x0 L = Some (view_of s);
  tr_order : totalOrder s = t0 + Z.of_nat (length L);
  tr_slots : forall c x, replies s !! c = Some x -> 0 < rr_rid (sl_rep x) ->
    indexed t0 L (Z.of_nat c) (rr_rid (sl_rep x)) (sl_order x);
  tr_node : node_id s = nid;
  tr_backup : nid <> primary -> forall j q, L !! j = Some q -> oq_order q = t0 + Z.of_nat j;
  tr_good : Forall good L;
  tr_buffer : Forall good (bufferedRequests s)
}.

Definition advance (s s' : state) (o : list O_output) : Prop := forall L, tracks L s ->
  tracks (L ++ executed o) s' /\ Forall (answered t0 (L ++ executed o)) (answers o).

Lemma advance_trans s1 s2 s3 o1 o2 : advance s1 s2 o1 -> advance s2 s3 o2 -> advance s1 s3 (o1 ++ o2).
Proof.
  intros H1 H2 L HL. destruct (H1 L HL) as [HL1 Ha1]. destruct (H2 _ HL1) as [HL2 Ha2].
  rewrite o_executed_app, answers_app, app_assoc. split; [done|]. apply Forall_app. split; [|done].
  eapply Forall_impl; [exact Ha1|]. intros p Hp. by apply indexed_app.
Qed.

Lemma calm_advance s s' o : calm s s' o -> advance s s' o.
Proof.
  intros (Hi & Hq & He & Ha) L [_ Hsp Ht Hsl Hno Hb Hg Hbuf]. rewrite He, Ha, app_nil_r. split; [|done].
  pose proof (quiet_view_of _ _ Hq) as Hv. destruct Hq as (Hn & Hr & Hs & Hto & Hbr).
  constructor; rewrite ?Hv, ?Hn, ?Hr, ?Hto, ?Hbr; done.
Qed.

Lemma executed_view s s' r x dg out t : replies s !! Z.to_nat (oq_cid r) = Some x -> 0 <= oq_cid r -> rr_rid (sl_rep x) < oq_rid r ->
  service s' = (exec_command (service s) (oq_cid r) (oq_command r)).1 ->
  replies s' = <[Z.to_nat (oq_cid r) := new_slot r dg out t]> (replies s) ->
  AtMostOnce.spec_step oq_command exec_command (view_of s) r = Some (view_of s').
Proof.
  intros Hx Hc Hlt Hs Hr. unfold AtMostOnce.spec_step. simpl. rewrite (proj2 (Z.ltb_ge _ _)) by done.
  rewrite list_lookup_fmap, Hx. simpl. rewrite (proj2 (Z.ltb_lt _ _)) by done. f_equal. unfold view_of.
  by rewrite Hs, Hr, list_fmap_insert.
Qed.

Lemma exec_advance s r b s' o : valid_request r -> good r -> inv s' -> exec_post s r b s' o -> advance s s' o.
Proof.
  intros (Hp & Hrid & _) Hgood Hi' Hpost L HL. unfold is_principal in Hp. bsimp.
  destruct Hpost as [x Hx Hold|x Hx Heq|x Hx Hlt Hn Ht|x s' dg Hx Hlt Hturn Hn Hst Hbuf Ht Hsv Hr]; simpl.
  - by rewrite app_nil_r.
  - rewrite app_nil_r. split; [done|]. repeat constructor. unfold answered. simpl.
    rewrite <- (Z2Nat.id (oq_cid r)) by done. by apply (tr_slots _ _ HL); [|lia].
  - rewrite app_nil_r. split; [|done]. destruct HL. constructor; simpl; try done. apply Forall_app. by split; [|constructor].
  - destruct HL as [_ Hsp Hto Hsl Hno Hb Hg Hgb].
    assert (Hnew : indexed t0 (L ++ [r]) (oq_cid r) (oq_rid r) (totalOrder s)).
    { exists (length L), r. rewrite lookup_app_r, Nat.sub_diag by lia. done. }
    split; [|by repeat constructor]. constructor; try done.
    + unfold spec_run. rewrite AtMostOnce.spec_run_app. change (AtMostOnce.spec_run oq_command exec_command x0 L) with (spec_run x0 L).
      rewrite Hsp. simpl. by erewrite executed_view by done.
    + rewrite Ht, Hto, length_app. simpl. lia.
    + intros c y. rewrite Hr. intros [(<- & <- & _)|[_ Hy]]%list_lookup_insert_Some Hpos; simpl.
      * by rewrite Z2Nat.id.
      * by apply indexed_app, Hsl.
    + congruence.
    + intros Hne j q [Hj|[Hj Hq]]%lookup_app_Some; [by apply Hb|].
      apply list_lookup_singleton_Some in Hq as [Hj' <-]. destruct Hturn as [|Hturn]; [congruence|]. rewrite <- Hturn, Hto. lia.
    + apply Forall_app. by split; [|constructor].
    + by rewrite Hbuf.
Qed.

End tracks.

(** ** The loop over the buffered requests *)

Lemma next_buffered_Some t l i q : next_buffered t l = Some (i, q) -> l !! i = Some q /\ oq_order q = t.
Proof.
  revert i. induction l as [|p l IH]; intros i; simpl; [done|].
  destruct (Z.eqb_spec t (oq_order p)); [by intros [= <- <-]|].
  destruct (next_buffered t l) as [[j p']|]; [|done]. simpl. intros [= <- <-]. by apply IH.
Qed.

Lemma next_buffered_None t l : next_buffered t l = None -> Forall (fun q => oq_order q <> t) l.
Proof.
  induction l as [|p l IH]; simpl; [done|]. destruct (Z.eqb_spec t (oq_order p)) as [|Hne]; [done|].
  destruct (next_buffered t l); [done|]. intros. constructor; [lia|by apply IH].
Qed.

Lemma inv_set_buffered l s : inv s -> Forall valid_request l -> inv (set_bufferedRequests l s).
Proof. intros [] Hl. by constructor. Qed.

(** Executing a buffered request whose turn has come never buffers it again. *)
Lemma exec_turn s r b s' o : exec_post s r b s' o -> totalOrder s = oq_order r ->
  bufferedRequests s' = bufferedRequests s /\ node_id s' = node_id s /\ cur_state s' = cur_state s.
Proof. by intros [] Ht. Qed.

Lemma drop_buffered good x0 t0 nid i s : inv s -> advance good x0 t0 nid s (set_bufferedRequests (delete i (bufferedRequests s)) s) [] /\
  inv (set_bufferedRequests (delete i (bufferedRequests s)) s).
Proof.
  intros Hs. assert (Hi : inv (set_bufferedRequests (delete i (bufferedRequests s)) s)).
  { apply inv_set_buffered; [done|]. apply Forall_delete, Hs. }
  split; [|done]. intros L []. rewrite app_nil_r. split; [|done]. constructor; simpl; try done. by apply Forall_delete.
Qed.

Lemma drop_weight q i s : bufferedRequests s !! i = Some q ->
  weight (set_bufferedRequests (delete i (bufferedRequests s)) s) = weight s - 1.
Proof. intros Hq. unfold weight. simpl. pose proof (lookup_lt_Some _ _ _ Hq). rewrite length_delete by done. lia. Qed.

Lemma drain_ok good x0 t0 nid n : forall s, inv s -> Forall good (bufferedRequests s) ->
  wpe (overflows 0 s) (drain n) (fun _ s' o => inv s' /\ advance good x0 t0 nid s s' o /\ weight s' <= weight s) s.
Proof.
  assert (Hrefl : forall s, inv s -> advance good x0 t0 nid s s []) by (intros; by apply calm_advance, calm_refl).
  induction n as [|n IH]; intros s Hs Hg; [by split; [|split; [apply Hrefl|]]|].
  simpl. wpe_steps. destruct (next_buffered (totalOrder s) (bufferedRequests s)) as [[i q]|] eqn:E;
    [|by wpe_steps; split; [|split; [apply Hrefl|]]].
  apply next_buffered_Some in E as [Hq Hord]. pose proof (Forall_lookup_1 _ _ _ _ (inv_buffered _ Hs) Hq) as Hv.
  wpe_step. eapply wpe_fault; [eapply wpe_mono; [by apply o_execute_request_ok|]|].
  2:{ intros e [-> He]. split; [done|]. apply lookup_lt_Some in Hq. unfold weight. lia. }
  intros b s1 o1 [Hi1 Hpost].
  pose proof (exec_turn _ _ _ _ _ Hpost (eq_sym Hord)) as (Hb & _ & _).
  destruct (drop_buffered good x0 t0 nid i s1 Hi1) as [Ha2 Hi2].
  assert (Hw : weight (set_bufferedRequests (delete i (bufferedRequests s1)) s1) <= weight s).
  { rewrite (drop_weight q) by (by rewrite Hb). pose proof (exec_weight _ _ _ _ _ Hpost). lia. }
  wpe_steps. eapply wpe_fault; [eapply wpe_mono; [apply IH; [done|]; simpl; rewrite Hb; by apply Forall_delete|]|].
  2:{ intros e. apply overflows_mono. lia. }
  intros _ s3 o3 (Hi3 & Ha3 & Hw3). split; [done|]. split; [|lia]. apply (advance_trans _ _ _ _ s s1 s3 o1 o3).
  - eapply exec_advance; [done| |done|exact Hpost]. by apply (Forall_lookup_1 _ _ _ _ Hg Hq).
  - by eapply (advance_trans _ _ _ _ _ _ _ []).
Qed.

(** ** Requests *)

(** The header and the command lie within the message, which fits a get-a-grip. *)
Definition request_fits (m : O_Request) : Prop :=
  sizeof_Request_rep + zlen (oq_command m) <= qq_size (oq_base m) /\ gag_fits m = true.

Lemma o_wp_verify_request nid m Q s : request_fits m -> Q (request_verify nid m) s [] -> wp (verify_request nid m) Q s.
Proof.
  intros [Hin Hg] HQ. unfold gag_fits, sizeof_gag_rep, O_Max_message_size in Hg. bsimp.
  assert (Hsz : qq_size (oq_base m) < 2 ^ 32).
  { unfold ALIGNED_SIZE in Hg. pose proof (Z.mod_pos_bound (32 + qq_size (oq_base m)) 8 ltac:(lia)). case_bool; lia. }
  unfold sizeof_Request_rep, zlen in *. unfold verify_request. wp_step. apply wp_in_bounds; [apply Z.leb_le; unfold zlen; lia|].
  wp_step. apply wp_in_bounds; [|by wp_steps]. unfold auth_inside, sizeof_Request_rep, zlen. rewrite wrapu_id by (unfold in_u; lia).
  destruct (Z.leb_spec (Quorum.auth_size num_replicas (oq_cid m)) (qq_size (oq_base m) - (52 + Z.of_nat (length (oq_command m)))));
    [|by rewrite andb_false_r].
  apply orb_true_iff. right. apply Z.leb_le. lia.
Qed.

Lemma o_verify_valid me m : request_verify me m = true -> 0 < oq_rid m -> gag_fits m = true -> valid_request m.
Proof.
  unfold request_verify. intros Hv Hr Hfit.
  destruct (is_principal (oq_cid m) && (comp_digest m =? oq_od m)) eqn:E; [|done]. bsimp. split; [done|]. split; [done|].
  split; [|done]. match goal with H : comp_digest m = _ |- _ => rewrite <- H end. apply MD5_range.
Qed.

Lemma set_remotefd_calm l s : inv s -> calm s (set_remotefd l s) [].
Proof. intros Hs. destruct Hs. by split; [constructor|split; [repeat split|]]. Qed.
Lemma set_nb_retransmissions_calm k s : inv s -> calm s (set_nb_retransmissions k s) [].
Proof. intros Hs. destruct Hs. by split; [constructor|split; [repeat split|]]. Qed.

Lemma add_outstanding_calm c i s : inv s -> is_principal c = true -> calm s (set_outstanding (outstanding s ++ [(c, i)]) s) [].
Proof.
  intros [] Hp. split; [constructor; simpl; try done|by split; [repeat split|]].
  apply Forall_app. by split; [|constructor].
Qed.

(** What a verified request does, once it is known to be the client's last or a
    newer one. *)
Lemma run_request_ok good x0 t0 nid m s : inv s -> valid_request m -> good m -> Forall good (bufferedRequests s) ->
  wpe (overflows 1 s) (ok <- execute_request m ;;
      t <- gets totalOrder ;;
      if (ok : bool) && negb (node_id s =? primary) && (oq_order m <? t) then
        l <- gets bufferedRequests ;; drain (length l)
      else ret tt)%handler (fun _ s' o => inv s' /\ advance good x0 t0 nid s s' o /\ weight s' <= weight s + 1) s.
Proof.
  intros Hs Hv Hg Hb. wpe_step. eapply wpe_fault; [eapply wpe_mono; [by apply o_execute_request_ok|]|].
  2:{ intros e [-> He]. split; [done|]. unfold weight. lia. }
  intros b s1 o1 [Hi1 Hpost]. pose proof (exec_weight _ _ _ _ _ Hpost) as Hw.
  pose proof (exec_advance good x0 t0 nid _ _ _ _ _ Hv Hg Hi1 Hpost) as Ha. wpe_steps.
  destruct (b && negb (node_id s =? primary) && (oq_order m <? totalOrder s1)).
  - wpe_steps. eapply wpe_fault; [eapply wpe_mono; [apply (drain_ok good x0 t0 nid); [done|]|]|].
    + inversion Hpost; subst; try done; [apply Forall_app; by split; [|constructor]|].
      match goal with H : bufferedRequests s1 = _ |- _ => by rewrite H end.
    + intros _ s2 o2 (Hi2 & Ha2 & Hw2). split; [done|]. split; [|lia]. by apply (advance_trans _ _ _ _ s s1 s2 o1 o2).
    + intros e. apply overflows_mono. lia.
  - wpe_steps. split; [done|]. by rewrite app_nil_r.
Qed.

Definition followed (good : O_Request -> Prop) x0 t0 nid (s s' : state) (o : list O_output) : Prop :=
  inv s' /\ advance good x0 t0 nid s s' o /\ weight s' <= weight s + 1.

Lemma calm_followed good x0 t0 nid s s' o : calm s s' o -> followed good x0 t0 nid s s' o.
Proof. intros Hc. split; [apply Hc|]. split; [by apply calm_advance|]. rewrite (quiet_weight s s') by apply Hc. lia. Qed.

Lemma followed_calm good x0 t0 nid s s1 s2 o : calm s s1 [] -> followed good x0 t0 nid s1 s2 o -> followed good x0 t0 nid s s2 o.
Proof.
  intros Hc (Hi & Ha & Hw). split; [done|]. split; [|by rewrite <- (quiet_weight s s1) by apply Hc].
  by apply (advance_trans _ _ _ _ s s1 s2 [] o); [apply calm_advance|].
Qed.

Lemma o_handle_request_ok good x0 t0 nid m sock s : inv s -> is_principal (oq_cid m) = true -> 0 < oq_rid m -> request_fits m ->
  good m -> Forall good (bufferedRequests s) ->
  wpe (overflows 1 s) (handle_request m sock) (fun _ s' o => followed good x0 t0 nid s s' o) s.
Proof.
  intros Hs Hp Hr Hfit Hg Hb. unfold handle_request. wpe_steps. rewrite Hp. cbn [negb]. wpe_steps.
  set (s1 := set_remotefd (<[Z.to_nat (oq_cid m) := sock]> (remotefd s)) s).
  assert (Hc1 : calm s s1 []) by (by apply set_remotefd_calm). pose proof Hc1 as [Hs1 _].
  change (overflows 1 s) with (overflows 1 s1).
  assert (Hmore : forall (k : M unit), wpe (overflows 1 s1) k (fun _ s' o => followed good x0 t0 nid s1 s' o) s1 ->
            wpe (overflows 1 s1) k (fun _ s' o => followed good x0 t0 nid s s' o) s1).
  { intros k Hk. eapply wpe_mono; [exact Hk|]. intros [] s2 o2 H. by eapply followed_calm. }
  apply Hmore. clear Hmore.
  assert (Hend : followed good x0 t0 nid s1 s1 []) by (by apply calm_followed, calm_refl).
  change (node_id s) with (node_id s1). assert (Hb1 : Forall good (bufferedRequests s1)) by done.
  clearbody s1. clear s Hc1 Hs Hb. rename s1 into s.
  case_match; [by wpe_steps|]. case_match; [by wpe_steps|]. wpe_steps. case_match; [by wpe_steps|]. wpe_steps.
  case_match.
  { apply wp_wpe. eapply wp_mono; [by apply wp_send_switch|]. intros _ s' o [-> Ho]. apply calm_followed.
    split; [done|]. by split; [apply o_quiet_refl|]. }
  case_match; [wpe_steps; by apply calm_followed, add_outstanding_calm|].
  wpe_step. apply wp_wpe, o_wp_verify_request; [done|].
  case_match; [by wpe_steps|]. case_match; [by wpe_steps|]. bsimp.
  destruct (principal_slot s _ Hs1 Hp) as (Hc & x & Hx & _).
  assert (Hv : valid_request m) by (eapply o_verify_valid; [done..|apply Hfit]).
  wpe_step. apply wp_wpe. eapply o_wp_req_id; [done..|]. case_match; [|by wpe_steps]. wpe_step. case_match; wpe_step.
  - pose proof (set_nb_retransmissions_calm (nb_retransmissions s + 1) s Hs1) as Hc2.
    eapply wpe_mono; [apply (run_request_ok good x0 t0 nid m (set_nb_retransmissions (nb_retransmissions s + 1) s)); [apply Hc2|done..]|].
    intros [] s2 o2 Hf2. by eapply followed_calm.
  - by apply run_request_ok.
Qed.

(** ** The other handlers leave clients and order alone

    Each ends without a fault, or exits because an abort does not fit its
    message. *)

Abbreviation exits m Q := (wpe (eq ExitCalled) m Q).

Lemma calm_bind {A} E (m : M A) (k : A -> M unit) s : wpe E m (fun _ s1 o1 => calm s s1 o1) s ->
  (forall a s1, inv s1 -> wpe E (k a) (fun _ s2 o2 => calm s1 s2 o2) s1) -> wpe E (bind m k) (fun _ s2 o2 => calm s s2 o2) s.
Proof.
  intros Hm Hk. wpe_step. eapply wpe_mono; [exact Hm|]. intros a s1 o1 Hc. eapply wpe_mono; [apply Hk, Hc|].
  intros [] s2 o2. by apply calm_trans.
Qed.

Lemma o_enable_replica_ok b s : inv s -> wp (enable_replica b) (fun _ s' o => calm s s' o) s.
Proof.
  intros Hs. pose proof Hs as []. unfold enable_replica. wp_steps.
  repeat case_match; wp_steps; try by apply calm_refl.
  all: split; [constructor; simpl; try done; try lia|by split; [repeat split|]].
Qed.

Lemma cset_store_ok c cs sq : cset_ok (sq, cs) -> cset_ok (sq, (CSet.store c_id cs c).1).
Proof. intros [Hw Hl]. destruct (CSet.store_wf c_id cs c Hw) as [Hw' Hl']. split; [done|]. simpl in *. lia. Qed.

Lemma cset_create_ok sq : cset_ok (sq, CSet.create (Z.to_nat num_replicas)).
Proof. split; [apply CSet.cset_create_wf|]. simpl. apply length_replicate. Qed.

(** Comparing with every message of a full set never meets an empty slot. *)
Lemma all_match_total c cs n : CSet.wf c_id cs -> CSet.cur_size cs = Z.of_nat (length (CSet.elems cs)) ->
  forall i, 0 <= i -> i + Z.of_nat n <= CSet.cur_size cs -> is_Some (all_match c cs i n).
Proof.
  intros Hw Hf. induction n as [|n IH]; intros i Hi Hn; [done|]. simpl.
  destruct (CSet.full_fetch c_id cs i Hw Hf ltac:(lia)) as (e & -> & _). simpl.
  case_match; [|done]. apply IH; lia.
Qed.

(** The store with the checkpoint added to its set, new or old. *)
Definition store_checkpoint (c : zl_Checkpoint) (st : CkptStore.t (CSet.t zl_Checkpoint))
    (f : option (nat * CSet.t zl_Checkpoint)) : CkptStore.t (CSet.t zl_Checkpoint) * CSet.t zl_Checkpoint :=
  match f with
  | None => let cs := (CSet.store c_id (CSet.create (Z.to_nat num_replicas)) c).1 in
            (CkptStore.add st (c_seqno c) cs, cs)
  | Some (pos, cs) => let cs := (CSet.store c_id cs c).1 in (CkptStore.set_at st pos cs, cs)
  end.

Lemma lookup_elem {A} (q : list (Z * A)) sq i x : CkptStore.lookup q sq = Some (i, x) -> q !! i = Some (sq, x).
Proof.
  revert i. induction q as [|[k y] q IH]; intros i; simpl; [done|].
  destruct (Z.eqb_spec k sq) as [->|]; [by intros [= <- <-]|].
  destruct (CkptStore.lookup q sq) as [[j z]|]; [|done]. simpl. intros [= <- <-]. by apply IH.
Qed.

Lemma store_checkpoint_ok c st : CkptStore.wf st -> Forall cset_ok (CkptStore.contents st) ->
  exists f, CkptStore.find st (c_seqno c) = Some f /\
    CkptStore.wf (store_checkpoint c st f).1 /\ Forall cset_ok (CkptStore.contents (store_checkpoint c st f).1) /\
    cset_ok (c_seqno c, (store_checkpoint c st f).2).
Proof.
  intros Hw Hf. pose proof (CkptStore.find_ok st (c_seqno c) Hw) as Hfind.
  destruct (CkptStore.lookup (CkptStore.contents st) (c_seqno c)) as [[i x]|] eqn:E.
  - destruct Hfind as (-> & _ & Hlt). eexists. split; [done|]. simpl.
    pose proof (lookup_elem _ _ _ _ E) as Hi. pose proof (Forall_lookup_1 _ _ _ _ Hf Hi) as Hx.
    pose proof (cset_store_ok c _ _ Hx) as Hx'. pose proof (lookup_lt_Some _ _ _ Hi) as Hil.
    destruct (CkptStore.set_at_ok st i (CSet.store c_id x c).1 Hw Hil) as [Hw' Hc]. rewrite Hc.
    split; [done|]. split; [|done].
    apply Forall_alter; [done|]. intros p Hp _. rewrite Hi in Hp. by injection Hp as <-.
  - exists None. split; [done|]. simpl. pose proof (cset_store_ok c _ (c_seqno c) (cset_create_ok _)) as Hx.
    destruct (CkptStore.ckpt_add_ok st (c_seqno c) (CSet.store c_id (CSet.create (Z.to_nat num_replicas)) c).1 Hw) as (Hw' & Hc & _).
    rewrite Hc. split; [done|]. split; [|done]. apply Forall_app. by split; [|constructor].
Qed.

Lemma drop_to_all {A} (P : Z * A -> Prop) q sq : Forall P q -> Forall P (CkptStore.drop_to q sq).
Proof. intros Hq. unfold CkptStore.drop_to. repeat case_match; try done. by apply Forall_drop. Qed.

Lemma set_store_calm st s : inv s -> CkptStore.wf st -> Forall cset_ok (CkptStore.contents st) ->
  calm s (set_checkpoint_store st s) [].
Proof. intros [] Hw Hf. split; [by constructor|]. by split; [repeat split|]. Qed.

Lemma truncate_calm sq s : inv s -> calm s (set_rh (ReqHistory.truncate_history (rh s) sq).1.1 s) [].
Proof.
  intros []. destruct (ReqHistory.truncate_drop (rh s) sq) as (k & Hk & Hd).
  split; [|by split; [repeat split|]]. constructor; simpl; try done; [by rewrite Hd|]. rewrite Hk. by apply Forall_drop.
Qed.

Lemma enter_panic_ok s : inv s -> wp enter_panic (fun _ s' o => calm s s' o) s.
Proof. intros []. unfold enter_panic. wp_steps. split; [by constructor|]. by split; [repeat split|]. Qed.

Lemma o_handle_checkpoint_ok c s : inv s -> wp (handle_checkpoint c) (fun _ s' o => calm s s' o) s.
Proof.
  intros Hs. pose proof (inv_store _ Hs) as [Hw Hf]. unfold handle_checkpoint.
  case_match; [by wp_steps; apply calm_refl|]. wp_steps. case_match; [by wp_steps; apply calm_refl|].
  destruct (store_checkpoint_ok c _ Hw Hf) as (f & Hfind & Hw1 & Hf1 & Hcs).
  wp_step. eapply wp_of_option; [exact Hfind|]. fold (store_checkpoint c (checkpoint_store s) f).
  destruct (store_checkpoint c (checkpoint_store s) f) as [st' cs]. simpl in Hw1, Hf1, Hcs. wp_steps.
  pose proof (set_store_calm st' s Hs Hw1 Hf1) as Hc1. pose proof Hc1 as [Hs1 _].
  destruct (Z.eqb_spec (CSet.size cs) num_replicas) as [Hsz|]; [|by wp_steps].
  destruct Hcs as [Hcw Hcl]. simpl in Hcw, Hcl. unfold CSet.size in Hsz.
  destruct (all_match_total c cs (Z.to_nat num_replicas) Hcw ltac:(lia) 0 ltac:(lia) ltac:(lia)) as [same Hsame].
  wp_step. eapply wp_of_option; [exact Hsame|]. destruct same.
  - destruct (CkptStore.ckpt_remove_ok TRUNCATE_SIZE st' (c_seqno c) Hw1) as (st2 & Hrm & Hw2 & Hc2 & _).
    wp_step. eapply wp_of_option; [exact Hrm|]. wp_steps.
    assert (Hf2 : Forall cset_ok (CkptStore.contents st2)) by (rewrite Hc2; by apply drop_to_all).
    pose proof (set_store_calm st2 _ Hs1 Hw2 Hf2) as Hcc. pose proof Hcc as [Hs2 _].
    pose proof (truncate_calm (c_seqno c) _ Hs2) as Hcd.
    exact (calm_trans _ _ _ _ _ Hc1 (calm_trans _ _ _ _ _ Hcc Hcd)).
  - eapply wp_mono; [by apply enter_panic_ok|]. intros [] s2 o2 H2. exact (calm_trans _ _ _ _ _ Hc1 H2).
Qed.

(** *** Aborts *)

Definition tuples (l : list entry) : list AbortHistoryElement :=
  omap (fun e => (fun r => AHE (oq_cid r) (oq_rid r) (oq_od r)) <$> ReqHistory.req e) l.

Lemma abort_tuples_run l : Forall (fun e : entry => slot_ok (ReqHistory.req e)) l -> forall offset s,
  offset <= O_Max_message_size - sig_size ->
  abort_tuples l offset s = if offset + Z.of_nat (length l) * tuple_size <=? O_Max_message_size - sig_size
    then Done (tuples l) s [] else Fault ExitCalled.
Proof.
  unfold tuple_size. induction 1 as [|e l (r & Hr & _) Hl IH]; intros offset s Hoff.
  - simpl. by rewrite (proj2 (Z.leb_le _ _)) by lia.
  - cbn [abort_tuples tuples omap list_omap]. rewrite Hr. unfold tuple_size. destruct (Z.ltb_spec (O_Max_message_size - sig_size) (offset + 28)).
    + rewrite (proj2 (Z.leb_gt _ _)) by (simpl; lia). done.
    + unfold bind. rewrite IH by lia. simpl length.
      replace (offset + 28 + Z.of_nat (length l) * 28) with (offset + Z.of_nat (Datatypes.S (length l)) * 28) by lia.
      by destruct (_ <=? _).
Qed.

(** The abort of the log fits its message, signature included. *)
Definition log_fits (s : state) : bool :=
  sizeof_abort_rep + ReqHistory.size (rh s) * tuple_size + sig_size <=? O_Max_message_size.

Definition own_abort (i : Z) (s : state) : Smasher.zl_Abort :=
  Smasher.mk_abort (node_id s) i (length (ReqHistory.rh (rh s)))
    (fun j => default (signature_entry (node_id s) (tuples (ReqHistory.rh (rh s))) j) (tuples (ReqHistory.rh (rh s)) !! j)).

Lemma broadcast_abort_run i s : inv s ->
  if log_fits s then exists ac, certificate_ok ac /\
    broadcast_abort i s = Done tt (set_aborts ac s) [O_Send_abort (own_abort i s)]
  else broadcast_abort i s = Fault ExitCalled.
Proof.
  intros Hs. unfold log_fits, broadcast_abort, bind, gets. set (n := ReqHistory.size (rh s)).
  assert (Hn : n = Z.of_nat (length (ReqHistory.rh (rh s)))) by done. clearbody n.
  rewrite abort_tuples_run by (lia || apply Hs). rewrite <- Hn.
  unfold sizeof_abort_rep, tuple_size, O_Max_message_size in *.
  destruct (Z.leb_spec (60 + n * 28) (9000 - sig_size)); [|by rewrite (proj2 (Z.leb_gt _ _)) by lia].
  rewrite wrapu_id by (unfold in_u; lia). rewrite (proj2 (Z.leb_le (60 + n * 28 + sig_size) 9000)) by lia.
  rewrite (proj2 (Z.ltb_ge _ _)) by lia. simpl.
  rewrite (proj2 (Z.leb_le _ _)) by (apply ALIGNED_SIZE_le; [done|lia]). simpl.
  destruct (certificate_add (aborts s) (own_abort i s) (inv_aborts _ Hs)) as (ac & b & Hadd & Hok);
    [apply Hs|simpl; lia|]. exists ac. split; [done|]. unfold own_abort in Hadd. by rewrite Hadd.
Qed.

Lemma set_aborts_calm ac s : inv s -> certificate_ok ac -> calm s (set_aborts ac s) [].
Proof. intros [] Hc. split; [by constructor|]. by split; [repeat split|]. Qed.

Lemma broadcast_abort_ok i s : inv s -> exits (broadcast_abort i) (fun _ s' o => calm s s' o) s.
Proof.
  intros Hs. pose proof (broadcast_abort_run i s Hs) as Hr. unfold wpe.
  destruct (log_fits s); [|by rewrite Hr]. destruct Hr as (ac & Hok & ->).
  destruct Hs. split; [by constructor|]. by split; [repeat split|].
Qed.

Lemma wp_send_switch_calm p c rid s : inv s -> is_principal c = true -> wp (send_switch p rid c) (fun _ s' o => calm s s' o) s.
Proof.
  intros Hs Hp. eapply wp_mono; [by apply wp_send_switch|]. intros [] s' o [-> Ho].
  split; [done|]. by split; [apply o_quiet_refl|].
Qed.

Lemma handle_panic_ok m s : inv s -> is_principal (p_cid m) = true -> exits (handle_panic m) (fun _ s' o => calm s s' o) s.
Proof.
  intros Hs Hp. unfold handle_panic. do 2 wpe_step. do 2 wpe_step. apply calm_bind.
  { case_match; wpe_steps; [by apply calm_refl|]. destruct Hs. split; [by constructor|]. by split; [repeat split|]. }
  intros _ s1 Hs1. do 2 wpe_step. case_match.
  { apply wp_wpe. by apply wp_send_switch_calm. }
  apply calm_bind.
  - case_match; wpe_steps; [by apply calm_refl|by apply add_outstanding_calm].
  - intros _ s2 Hs2. by apply broadcast_abort_ok.
Qed.

Lemma tuples_length l : Forall (fun e : entry => slot_ok (ReqHistory.req e)) l -> length (tuples l) = length l.
Proof. unfold tuples. induction 1 as [|e l (r & Hr & _) _ IH]; csimpl; [done|]. rewrite Hr. simpl. by rewrite IH. Qed.

Lemma own_abort_history i s : inv s -> Smasher.history (own_abort i s) = tuples (ReqHistory.rh (rh s)).
Proof.
  intros Hs. pose proof (tuples_length _ (inv_log _ Hs)) as Hl. unfold Smasher.history, own_abort. simpl. rewrite <- Hl.
  apply list_eq. intros j. rewrite list_lookup_fmap. destruct (decide (j < length (tuples (ReqHistory.rh (rh s))))%nat).
  - rewrite lookup_seq_lt by done. simpl. by destruct (lookup_lt_is_Some_2 (tuples (ReqHistory.rh (rh s))) j) as [x ->].
  - rewrite lookup_seq_ge by lia. simpl. symmetry. apply lookup_ge_None_2. lia.
Qed.

(** Up to the abort: the replica leaves the normal state, its log as it is. *)
Lemma panic_prefix m s : inv s -> is_principal (p_cid m) = true ->
  (cur_state s = replica_state_STOP -> is_replica (p_cid m) = true) ->
  exists s1 o1, inv s1 /\ rh s1 = rh s /\ cur_state s1 <> replica_state_NORMAL /\
    handle_panic m s = match broadcast_abort (p_rid m) s1 with
                       | Done u s2 o2 => Done u s2 (o1 ++ o2) | Fault e => Fault e end.
Proof.
  intros Hs Hp Hstop. unfold handle_panic, bind, gets. cbv beta iota.
  assert (Henter : exists s0 o0, inv s0 /\ rh s0 = rh s /\ (cur_state s0 = replica_state_PANICKING \/ cur_state s0 = cur_state s /\ cur_state s = replica_state_STOP) /\
    (if bool_decide (cur_state s = replica_state_PANICKING) || bool_decide (cur_state s = replica_state_STOP) then ret tt
     else emit (O_Send_panic (mk_panic (node_id s) 0)) ;;; modify (set_n_retrans 0) ;;;
          modify (set_cur_state replica_state_PANICKING))%handler s = Done tt s0 o0).
  { destruct (bool_decide (cur_state s = replica_state_PANICKING) || bool_decide (cur_state s = replica_state_STOP)) eqn:E.
    - exists s, []. split; [done|]. split; [done|]. split; [|done]. apply orb_true_iff in E as [E|E]; bsimp; auto.
    - exists (set_cur_state replica_state_PANICKING (set_n_retrans 0 s)), [O_Send_panic (mk_panic (node_id s) 0)].
      split; [destruct Hs; by constructor|]. split; [done|]. by split; [left|]. }
  destruct Henter as (s0 & o0 & Hi0 & Hrh & Hst & E0). unfold bind in E0. rewrite E0. clear E0.
  assert (Hno : negb (is_replica (p_cid m)) && bool_decide (cur_state s0 = replica_state_STOP) = false).
  { destruct Hst as [->|[-> Hst]]; [by rewrite bool_decide_false by done; apply andb_false_r|]. by rewrite (Hstop Hst). }
  rewrite Hno. assert (Hn0 : cur_state s0 <> replica_state_NORMAL) by (destruct Hst as [->|[-> ->]]; done).
  destruct (is_replica (p_cid m)).
  - exists s0, o0. repeat (split; [done|]). simpl. by destruct (broadcast_abort _ _).
  - exists (set_outstanding (outstanding s0 ++ [(p_cid m, p_rid m)]) s0), o0.
    split; [by apply add_outstanding_calm|]. repeat (split; [done|]). simpl. by destruct (broadcast_abort _ _).
Qed.

(** C29. A panic makes a replica stop executing and broadcast its abort, which
    holds exactly the requests of its log, in order; but the log is never
    truncated (no checkpoint is sent), and once its abort with the signature
    does not fit a message of 9000 bytes the replica exits instead. *)
Theorem panic_needs_room m s : inv s -> is_principal (p_cid m) = true ->
  (cur_state s = replica_state_STOP -> is_replica (p_cid m) = true) ->
  match handle_panic m s with
  | Done _ s' o => log_fits s = true /\ cur_state s' <> replica_state_NORMAL /\
      exists a, O_Send_abort a ∈ o /\ Smasher.hist_size a = length (ReqHistory.rh (rh s)) /\
        Smasher.history a = tuples (ReqHistory.rh (rh s))
  | Fault e => e = ExitCalled /\ log_fits s = false
  end.
Proof.
  intros Hs Hp Hstop. destruct (panic_prefix m s Hs Hp Hstop) as (s1 & o1 & Hs1 & Hrh & Hst & ->).
  pose proof (broadcast_abort_run (p_rid m) s1 Hs1) as Hr. pose proof (own_abort_history (p_rid m) s1 Hs1) as Hh.
  unfold log_fits in *. rewrite Hrh in *. destruct (_ <=? _); [|by rewrite Hr].
  destruct Hr as (ac & _ & ->). split; [done|]. split; [done|]. exists (own_abort (p_rid m) s1).
  split; [apply elem_of_app; right; by left|]. split; [simpl; by rewrite Hrh|done].
Qed.

(** *** The recovery *)

Lemma install_ok h s0 s : quiet s0 s -> inv (set_cur_state replica_state_STOP s) ->
  0 <= ReqHistory.rh_d h < modulus -> Forall (fun e => slot_ok (ReqHistory.req e)) (ReqHistory.rh h) ->
  wp (install h) (fun _ s' o => calm s0 s' o) s.
Proof.
  intros Hq [] Hd Hl. unfold install, switch_state, instance_id, enable_replica. wp_steps. simpl. wp_steps.
  eapply wp_mono; [apply notify_outstanding_ok; by constructor|].
  intros [] s' o (Hi & Hq' & Ho). split; [done|]. split; [by eapply o_quiet_trans|].
  by apply (o_silent_app [_] o).
Qed.

Lemma rebuild_ok ah s store sq : inv s -> Forall slot_ok store -> length sq = length store ->
  exists h, rebuild ah (rh s) store sq = inr h /\ 0 <= ReqHistory.rh_d h < modulus /\
    Forall (fun e => slot_ok (ReqHistory.req e)) (ReqHistory.rh h).
Proof.
  intros Hs Hst Hl. apply Recover.rebuild_total; try done.
  { by intros r [? _]. } { intros x r [_ Hf]. split; [apply MD5_sum_range|done]. }
  eapply Forall_impl; [apply Hs|]. intros e (r & Hr & Hok) r' Hr'. rewrite Hr in Hr'. by injection Hr' as <-.
Qed.

(** The own abort is in a complete certificate, so merging never faults. *)
Lemma o_merge_ok ac me : certificate_ok ac -> 0 <= me < num_replicas -> Smasher.ac_is_complete ac = true ->
  is_Some (Smasher.process (Smasher.max_hist_size (Smasher.ac ac)) max_faulty (Smasher.ac ac) (Z.to_nat me)).
Proof.
  intros [Hw Hc Hl Hs] Hme Hd.
  destruct (Smasher.ac_complete_all ac (Z.to_nat me) Hw ltac:(lia) Hd ltac:(lia)) as [a Ha].
  destruct (Smasher.process_run (Smasher.max_hist_size (Smasher.ac ac)) max_faulty (Smasher.ac ac) (Z.to_nat me) a
    faulty_ok ltac:(lia) Ha (Hs _ _ Ha)) as (ah1 & _ & _ & _ & ->). done.
Qed.

Lemma waiting_start ah mis : waiting (mk_recovery (Some ah) (Some mis) (Z.of_nat (length mis))
    (replicate (length mis) true) (replicate (length mis) None) (replicate (length mis) 0)) mis.
Proof.
  constructor; simpl; rewrite ?length_replicate; try done.
  - f_equal. induction mis as [|a l IH]; [done|]. simpl. congruence.
  - by intros i [[=] _]%lookup_replicate.
Qed.

Definition abort_in_range (m : Smasher.zl_Abort) : Prop := Z.of_nat (Smasher.hist_size m) < 2 ^ 16.

Lemma handle_abort_ok m s : inv s -> abort_in_range m -> exits (handle_abort m) (fun _ s' o => calm s s' o) s.
Proof.
  intros Hs Hm. unfold handle_abort. wpe_steps. case_match; [by wpe_steps; apply calm_refl|].
  case_match eqn:Hv; [by wpe_steps; apply calm_refl|]. wpe_steps. unfold abort_verify, is_replica in Hv. bsimp.
  destruct (certificate_add (aborts s) m (inv_aborts _ Hs) ltac:(lia) Hm) as (ac & b & Hadd & Hok).
  apply wp_wpe. eapply wp_of_option; [exact Hadd|]. cbn [fst snd]. destruct b; simpl; [|by wpe_steps; apply calm_refl].
  wpe_steps. pose proof (set_aborts_calm ac s Hs Hok) as Hc1.
  case_match eqn:Hcomp; [by wpe_steps|]. apply negb_false_iff in Hcomp. wpe_steps.
  destruct (o_merge_ok ac (node_id s) Hok (inv_node _ Hs) Hcomp) as [[ah2 mis] Hp].
  apply wp_wpe. eapply wp_of_option; [exact Hp|]. cbv beta iota. pose proof (certificate_clear ac Hok) as Hclr. wpe_steps.
  pose proof Hs as []. case_match.
  - wpe_steps. destruct (rebuild_ok ah2 s [] [] Hs (Forall_nil_2 _) eq_refl) as (h & Hh & Hd & Hl).
    simpl rh. rewrite Hh. apply wp_wpe, wp_ret, wp_wpe. apply install_ok; [by repeat split|by constructor|done..].
  - unfold send_missing. wpe_steps. case_match; [|done]. wpe_steps. split; [|by split; [repeat split|]].
    constructor; try done. intros _. exists mis. by apply waiting_start.
Qed.

Lemma o_answer_missing_ok dest l s : is_principal dest || (dest =? -1) = true -> inv s ->
  wp (answer_missing dest l) (fun _ s' o => calm s s' o) s.
Proof.
  intros Hdest Hs. induction l as [|[c r] l IH]; [by apply calm_refl|]. simpl. wp_steps.
  pose proof (ReqHistory.find_spec (rh s) c r) as Hf. destruct (ReqHistory.find (rh s) c r) as [e|].
  - destruct Hf as (He & q & Hq & _). pose proof (inv_log _ Hs) as Hl. rewrite Forall_forall in Hl.
    destruct (Hl e He) as (q' & Hq' & _ & Hfit). rewrite Hq in Hq'. injection Hq' as <-.
    wp_step. eapply wp_of_option; [exact Hq|]. rewrite Hfit, Hdest. unfold assert_. wp_steps.
    eapply wp_mono; [exact IH|]. intros [] s' o (Hi & Hqt & Ho). split; [done|]. split; [done|].
    by apply (o_silent_app [_] o).
  - wp_steps. exact IH.
Qed.

Lemma match_missing_Some mis mask i g k : match_missing mis mask i g = Some k ->
  exists j, k = (i + j)%nat /\ mask !! j = Some true.
Proof.
  revert mask i. induction mis as [|a mis IH]; intros [|b mask] i; simpl; try done.
  destruct b; simpl.
  - case_match; [intros [= <-]; exists O; split; [lia|done]|].
    intros (j & -> & Hj)%IH. exists (Datatypes.S j). split; [lia|done].
  - intros (j & -> & Hj)%IH. exists (Datatypes.S j). split; [lia|done].
Qed.

Lemma unmask_count (mask : list bool) i : mask !! i = Some true ->
  length (filter (fun b : bool => b) mask) = Datatypes.S (length (filter (fun b : bool => b) (<[i := false]> mask))).
Proof.
  revert i. induction mask as [|b mask IH]; intros [|i] Hi; simplify_eq/=; [done|].
  destruct b; [simpl; f_equal|]; exact (IH i Hi).
Qed.

Lemma waiting_fill x mis i r sq : waiting x mis -> rc_mask x !! i = Some true -> req_ok r ->
  waiting (mk_recovery (rc_ah x) (rc_missing x) (rc_num x - 1) (<[i := false]> (rc_mask x))
             (<[i := Some r]> (rc_store x)) (<[i := sq]> (rc_seq x))) mis.
Proof.
  intros [Hah Hmis Hm Hst Hsq Hn Hf] Hi Hr. pose proof (lookup_lt_Some _ _ _ Hi) as Hlt.
  constructor; simpl; rewrite ?length_insert; try done.
  - rewrite Hn, (unmask_count _ _ Hi). lia.
  - intros j [(<- & _ & _)|[Hne Hj]]%list_lookup_insert_Some.
    + exists (Some r). split; [apply list_lookup_insert_eq; lia|by exists r].
    + destruct (Hf j Hj) as (o & Ho & Hok). exists o. split; [|done]. by rewrite list_lookup_insert_ne.
Qed.

(** Once nothing is missing every slot is filled. *)
Lemma waiting_full x mis : waiting x mis -> rc_num x = 0 -> Forall slot_ok (rc_store x).
Proof.
  intros [_ _ Hm Hst _ Hn Hf] H0. apply Forall_lookup_2. intros i o Ho.
  assert (Hi : (i < length (rc_mask x))%nat) by (rewrite Hm, <- Hst; by eapply lookup_lt_Some).
  destruct (lookup_lt_is_Some_2 _ _ Hi) as [b Hb]. destruct b.
  - exfalso. pose proof (unmask_count _ _ Hb). lia.
  - destruct (Hf i Hb) as (o' & Ho' & Hok). congruence.
Qed.

Lemma handle_get_a_grip_ok m s : inv s -> req_ok (og_request m) -> wp (handle_get_a_grip m) (fun _ s' o => calm s s' o) s.
Proof.
  intros Hs Hm. unfold handle_get_a_grip. wp_steps. case_match eqn:Est; [by wp_steps; apply calm_refl|].
  bsimp. destruct (inv_waiting _ Hs Est) as [mis Hw]. wp_steps.
  pose proof (wait_missing _ _ Hw) as Hmis. simpl in Hmis. eapply wp_of_option; [exact Hmis|]. wp_steps.
  destruct (match_missing mis (missing_mask s) 0 m) as [i|] eqn:Em; [|by wp_steps; apply calm_refl].
  apply match_missing_Some in Em as (j & -> & Hj). simpl plus. wp_steps.
  pose proof (waiting_fill (recovery_of s) mis j (og_request m) (og_seqno m) Hw Hj Hm) as Hw'. simpl in Hw'.
  pose proof Hs as []. case_match.
  - bsimp. wp_steps. destruct (wait_ah _ _ Hw') as [ah Hah]. simpl in Hah.
    eapply wp_of_option; [exact Hah|]. wp_steps.
    pose proof (waiting_full _ _ Hw') as Hfull. simpl in Hfull.
    destruct (rebuild_ok ah s (<[j := Some (og_request m)]> (missing_store s)) (<[j := og_seqno m]> (missing_store_seq s)) Hs)
      as (h & Hh & Hd & Hl); [apply Hfull; simpl in *; lia|exact (eq_trans (wait_seq _ _ Hw') (eq_sym (wait_store _ _ Hw')))|].
    simpl rh. simpl missing_store. simpl missing_store_seq. rewrite Hh. apply wp_ret.
    apply install_ok; [by repeat split|by constructor|done..].
  - wp_steps. split; [|by split; [repeat split|]]. constructor; try done. intros _. by exists mis.
Qed.

(** ** Runs *)

(** The data a message carries: clients are principals, request identifiers are
    positive (zero marks an unused slot), requests fit a get-a-grip message, and
    digests and sizes have their widths.  Nothing is asked of replicas' messages
    beyond that. *)
Definition event_ok (ev : event) : Prop :=
  match ev with
  | Deliver (O_Request_msg m) _ => is_principal (oq_cid m) = true /\ 0 < oq_rid m /\ request_fits m
  | Deliver (O_Panic_msg m) _ => is_principal (p_cid m) = true
  | Deliver (O_Abort_msg m) _ => abort_in_range m
  | Deliver (O_Missing_msg m) _ => is_principal (m_replica m) || (m_replica m =? -1) = true
  | Deliver (O_Get_a_grip_msg m) _ => req_ok (og_request m)
  | _ => True
  end.

Definition event_good (good : O_Request -> Prop) (ev : event) : Prop :=
  match ev with Deliver (O_Request_msg m) _ => good m | _ => True end.

Definition is_panic (ev : event) : bool :=
  match ev with Deliver (O_Panic_msg _ | O_Abort_msg _) _ => true | _ => false end.

(** Only a panic or an abort can end the replica. *)
Definition panic_exit (evs : list event) (e : fault) : Prop := e = ExitCalled /\ existsb is_panic evs = true.

(** The faults of a run: an exit after a panic or an abort, and the overflow of the order. *)
Definition run_fault (evs : list event) (s : state) (e : fault) : Prop :=
  panic_exit evs e \/ overflows (Z.of_nat (length evs)) s e.

Lemma o_run_event_ok good x0 t0 nid ev s : inv s -> event_ok ev -> event_good good ev -> Forall good (bufferedRequests s) ->
  wpe (run_fault [ev] s) (run_event ev) (fun _ s' o => followed good x0 t0 nid s s' o) s.
Proof.
  intros Hs Hev Hg Hb.
  assert (Hcalm : forall E (m : M unit), wpe E m (fun _ s' o => calm s s' o) s ->
            wpe E m (fun _ s' o => followed good x0 t0 nid s s' o) s).
  { intros E m Hm. eapply wpe_mono; [exact Hm|]. intros [] s' o. apply calm_followed. }
  destruct ev as [[m|m|m|m|m|m|] sock|b]; simpl in *.
  - destruct Hev as (? & ? & ?). eapply wpe_fault; [by apply o_handle_request_ok|]. by right.
  - apply Hcalm, wp_wpe. by apply o_handle_checkpoint_ok.
  - apply Hcalm. eapply wpe_fault; [by apply handle_panic_ok|]. intros e <-. by left.
  - apply Hcalm. eapply wpe_fault; [by apply handle_abort_ok|]. intros e <-. by left.
  - apply Hcalm, wp_wpe. by apply o_answer_missing_ok.
  - apply Hcalm, wp_wpe. by apply handle_get_a_grip_ok.
  - apply Hcalm. wpe_steps. by apply calm_refl.
  - apply Hcalm, wp_wpe. by apply o_enable_replica_ok.
Qed.

Lemma run_fault_here ev evs s e : run_fault [ev] s e -> run_fault (ev :: evs) s e.
Proof.
  intros [[-> Hp]|Ho]; [left|right; eapply overflows_mono; [|exact Ho]; simpl; lia].
  split; [done|]. simpl in *. rewrite orb_false_r in Hp. by rewrite Hp.
Qed.

Lemma run_fault_later ev evs s s1 e : weight s1 <= weight s + 1 -> run_fault evs s1 e -> run_fault (ev :: evs) s e.
Proof.
  intros Hw [[-> Hp]|Ho]; [left|right; eapply overflows_mono; [|exact Ho]; simpl; lia].
  split; [done|]. simpl. rewrite Hp. apply orb_true_r.
Qed.

Lemma o_run_ok good x0 t0 nid evs : Forall event_ok evs -> Forall (event_good good) evs -> forall L s, tracks good x0 t0 nid L s ->
  wpe (run_fault evs s) (run evs)
    (fun _ s' o => tracks good x0 t0 nid (L ++ executed o) s' /\ Forall (answered t0 (L ++ executed o)) (answers o)) s.
Proof.
  intros He Hg. induction evs as [|ev evs IH]; intros L s Hs; simpl.
  - wpe_steps. rewrite app_nil_r. done.
  - inversion_clear He. inversion_clear Hg. wpe_step.
    eapply wpe_fault; [eapply wpe_mono; [apply (o_run_event_ok good x0 t0 nid); try done; apply Hs|]|]; [|by apply run_fault_here].
    intros [] s1 o1 (_ & Ha & Hw). destruct (Ha L Hs) as [Ht1 Ha1].
    eapply wpe_fault; [eapply wpe_mono; [by apply (IH ltac:(done) ltac:(done) (L ++ executed o1))|]|];
      [|by intros e; apply run_fault_later].
    intros [] s2 o2 [Ht2 Ha2]. rewrite o_executed_app, answers_app, app_assoc. split; [done|].
    apply Forall_app. split; [|done]. eapply Forall_impl; [exact Ha1|]. intros p Hp. by apply indexed_app.
Qed.

Definition spec_initial (sv : S) : AtMostOnce.spec := AtMostOnce.mk_spec (replicate (Z.to_nat num_principals) 0) sv.

Lemma initial_tracks good nid sv t0 : 0 <= nid < num_replicas -> 0 <= t0 ->
  tracks good (spec_initial sv) t0 nid [] (initial nid sv t0).
Proof.
  intros Hn Ht. constructor; simpl; try done; try lia.
  - by apply o_initial_inv.
  - unfold view_of, spec_initial. simpl. by rewrite fmap_replicate.
  - intros c x [-> _]%lookup_replicate. simpl. lia.
Qed.


(** ** Requests that reach a backup out of order *)

Section reorder.
Context (nid : Z) (y : AtMostOnce.spec (S := S)) (tend : Z) (sock : O_Request -> Z).
Hypothesis backup : nid <> primary.
Hypothesis in_range : tend < int_end.

Definition deliverable (q : O_Request) : Prop :=
  request_verify nid q = true /\ is_read_only q = false /\ 0 < oq_rid q /\ 0 <= oq_order q /\ request_fits q.

(** [rest]: the requests still to execute. *)
Record ready (rest : list O_Request) (s : state) : Prop := {
  rd_inv : inv s;
  rd_node : node_id s = nid;
  rd_normal : cur_state s = replica_state_NORMAL;
  rd_ok : Forall deliverable rest;
  rd_order : forall j q, rest !! j = Some q -> oq_order q = totalOrder s + Z.of_nat j;
  rd_spec : spec_run (view_of s) rest = Some y;
  rd_end : totalOrder s + Z.of_nat (length rest) = tend
}.

Definition settled (s : state) : Prop := Forall (fun q => oq_order q <> totalOrder s) (bufferedRequests s).

(** Between two messages: [todo] have not arrived, the others are buffered, and
    none of those is the next. *)
Definition between (todo rest : list O_Request) (s : state) : Prop :=
  ready rest s /\ bufferedRequests s ++ todo ≡ₚ rest /\ settled s.

Lemma newer_slot s rest q x : spec_run (view_of s) rest = Some y -> q ∈ rest -> 0 <= oq_cid q ->
  replies s !! Z.to_nat (oq_cid q) = Some x -> rr_rid (sl_rep x) < oq_rid q.
Proof.
  intros Hr Hq Hc Hx. destruct (AtMostOnce.spec_run_increasing _ _ _ _ _ (oq_cid q) Hr Hc) as [Hinc _].
  specialize (Hinc (rr_rid (sl_rep x))). simpl in Hinc. rewrite list_lookup_fmap, Hx in Hinc.
  specialize (Hinc eq_refl). rewrite Forall_forall in Hinc. apply Hinc.
  apply list_elem_of_fmap_2, list_elem_of_filter. by split.
Qed.

(** The only request of the next order is the first. *)
Lemma next_is_head rest s q : ready rest s -> q ∈ rest -> oq_order q = totalOrder s -> exists rest', rest = q :: rest'.
Proof.
  intros Hp [j Hj]%list_elem_of_lookup Hq. pose proof (rd_order _ _ Hp j q Hj).
  assert (j = O) as -> by lia. destruct rest as [|q' rest]; [done|]. simplify_eq/=. by exists rest.
Qed.

Lemma ready_valid rest s q : ready rest s -> q ∈ rest -> valid_request q /\
  exists x, replies s !! Z.to_nat (oq_cid q) = Some x /\ 0 <= oq_cid q /\ rr_rid (sl_rep x) < oq_rid q.
Proof.
  intros [Hi _ _ Hok _ Hsp _] Hq. rewrite Forall_forall in Hok. destruct (Hok q Hq) as (Hv & _ & Hr & _ & Hfit).
  pose proof (o_verify_valid _ _ Hv Hr (proj2 Hfit)) as Hval. split; [done|]. destruct Hval as (Hp & _).
  destruct (principal_slot s _ Hi Hp) as (Hc & x & Hx & _). exists x. split; [done|]. split; [done|].
  by eapply newer_slot.
Qed.

Lemma ready_exec rest s q : ready rest s -> q ∈ rest ->
  wp (execute_request q) (fun b s' o => inv s' /\ exec_post s q b s' o) s.
Proof.
  intros Hrd Hq. destruct (ready_valid _ _ _ Hrd Hq) as [Hval _].
  eapply wpe_no_fault; [apply o_execute_request_ok; [apply Hrd|done]|]. intros e [_ He].
  pose proof (rd_end _ _ Hrd). destruct rest; [by apply elem_of_nil in Hq|]. simpl length in *. lia.
Qed.

Lemma exec_next rest s q : ready (q :: rest) s ->
  wp (execute_request q) (fun b s' o => b = true /\ executed o = [q] /\ bufferedRequests s' = bufferedRequests s /\
    ready rest s' /\ totalOrder s' = totalOrder s + 1) s.
Proof.
  intros Hrd. destruct (ready_valid _ s q Hrd ltac:(by left)) as (Hval & x & Hx & Hc & Hnew).
  pose proof (ready_exec _ _ q Hrd ltac:(by left)) as Hexec.
  destruct Hrd as [Hi Hn Hst Hok Hord Hsp Hend]. pose proof (Hord O q eq_refl) as Hq0.
  eapply wp_mono; [exact Hexec|]. intros b s' o [Hi' Hpost].
  destruct Hpost as [x' Hx' Hold|x' Hx' Heq|x' Hx' Hlt Hne Ht|x' s' dg Hx' Hlt Hturn Hn' Hst' Hbuf Ht Hsv Hrep];
    rewrite Hx' in Hx; simplify_eq; try lia.
  repeat (split; [done|]). split; [|done]. inversion_clear Hok. constructor; try done; [congruence|congruence| | |].
  - intros j q' Hj. rewrite Ht, (Hord (Datatypes.S j) q' Hj). lia.
  - unfold spec_run in Hsp. simpl in Hsp. erewrite (executed_view s s' q) in Hsp by (done || lia). exact Hsp.
  - simpl in Hend. lia.
Qed.

Lemma ready_drop rest s l : ready rest s -> Forall valid_request l -> ready rest (set_bufferedRequests l s).
Proof. intros [] Hl. constructor; try done. by apply inv_set_buffered. Qed.

Lemma drain_ready todo n : forall rest s, ready rest s -> bufferedRequests s ++ todo ≡ₚ rest ->
  (length (bufferedRequests s) <= n)%nat ->
  wp (drain n) (fun _ s' o => exists rest', rest = executed o ++ rest' /\ between todo rest' s') s.
Proof.
  induction n as [|n IH]; intros rest s Hrd Hperm Hn.
  - exists rest. split; [done|]. split; [done|]. split; [done|]. unfold settled. by destruct (bufferedRequests s); [|simpl in Hn; lia].
  - simpl. wp_steps. destruct (next_buffered (totalOrder s) (bufferedRequests s)) as [[i q]|] eqn:E.
    2:{ wp_steps. exists rest. split; [done|]. split; [done|]. split; [done|]. by apply next_buffered_None. }
    apply next_buffered_Some in E as [Hq Hord].
    assert (Hin : q ∈ rest). { rewrite <- Hperm. apply elem_of_app. left. by eapply list_elem_of_lookup_2. }
    destruct (next_is_head rest s q Hrd Hin Hord) as [rest' ->].
    wp_step. eapply wp_mono; [by eapply exec_next|]. intros b s1 o1 (_ & Ho1 & Hb & Hrd1 & _). wp_steps.
    pose proof (delete_Permutation _ _ _ Hq) as Hdel.
    eapply wp_mono; [apply (IH rest')|].
    + apply ready_drop; [done|]. apply Forall_delete. apply (inv_buffered _ (rd_inv _ _ Hrd1)).
    + simpl. rewrite Hb. apply (Permutation_cons_inv (a := q)). etrans; [|exact Hperm]. apply (Permutation_app (l := q :: _)); [by symmetry|done].
    + simpl. rewrite Hb. apply Permutation_length in Hdel. simpl in Hdel. lia.
    + intros [] s2 o2 (rest2 & -> & Hs2). exists rest2. split; [|done]. simpl. by rewrite o_executed_app, Ho1.
Qed.

Lemma ready_fresh m todo rest s : ready rest s -> bufferedRequests s ++ m :: todo ≡ₚ rest ->
  existsb (fun q => oq_order m =? oq_order q) (bufferedRequests s) = false.
Proof.
  intros Hrd Hperm. apply not_true_is_false. intros (q & Hq & Heq)%existsb_exists. apply Z.eqb_eq in Heq.
  assert (Hnd : NoDup (oq_order <$> rest)).
  { apply NoDup_alt. intros i j k Hi Hj. rewrite list_lookup_fmap in Hi, Hj.
    apply fmap_Some in Hi as (q1 & H1 & E1). apply fmap_Some in Hj as (q2 & H2 & E2).
    pose proof (rd_order _ _ Hrd _ _ H1). pose proof (rd_order _ _ Hrd _ _ H2). lia. }
  rewrite <- Hperm, fmap_app in Hnd. apply NoDup_app in Hnd as (_ & Hdis & _).
  apply (Hdis (oq_order m)); [|left]. rewrite Heq. apply list_elem_of_fmap_2. by apply list_elem_of_In.
Qed.

Lemma run_pending m todo rest s : between (m :: todo) rest s ->
  wp (ok <- execute_request m ;;
      t <- gets totalOrder ;;
      if (ok : bool) && true && (oq_order m <? t) then l <- gets bufferedRequests ;; drain (length l) else ret tt)%handler
    (fun _ s' o => exists rest', rest = executed o ++ rest' /\ between todo rest' s') s.
Proof.
  intros (Hrd & Hperm & Hset).
  assert (Hin : m ∈ rest) by (rewrite <- Hperm; apply elem_of_app; right; by left).
  destruct (decide (oq_order m = totalOrder s)) as [Hturn|Hearly].
  - destruct (next_is_head _ _ _ Hrd Hin Hturn) as [rest' ->]. wp_step. eapply wp_mono; [by eapply exec_next|].
    intros b s1 o1 (-> & Ho1 & Hb & Hrd1 & Ht). wp_steps. rewrite (proj2 (Z.ltb_lt _ _)) by lia. simpl. wp_steps.
    eapply wp_mono; [eapply (drain_ready todo _ rest' s1 Hrd1); [|done]|].
    + rewrite Hb. apply (Permutation_cons_inv (a := m)). by rewrite <- Hperm, <- Permutation_middle.
    + intros [] s2 o2 (rest2 & -> & Hs2). exists rest2. split; [|done]. simpl. by rewrite o_executed_app, Ho1.
  - destruct (ready_valid _ _ _ Hrd Hin) as (Hval & x & Hx & Hc & Hnew). pose proof (rd_inv _ _ Hrd) as Hi.
    wp_step. eapply wp_mono; [by apply (ready_exec rest)|]. intros b s' o [Hi' Hpost]. wp_steps.
    destruct Hpost as [x' Hx' Hold|x' Hx' Heq|x' Hx' Hlt Hne Ht|x' s' dg Hx' Hlt Hturn Hn' Hst' Hbuf Ht Hsv Hrep];
      rewrite Hx' in Hx; simplify_eq; try lia.
    2:{ exfalso. destruct Hturn; [|congruence]. pose proof (rd_node _ _ Hrd). congruence. }
    apply list_elem_of_lookup in Hin as [j Hj]. pose proof (rd_order _ _ Hrd _ _ Hj).
    simpl totalOrder. rewrite (proj2 (Z.ltb_ge _ _)) by lia. simpl. wp_steps. exists rest. split; [done|].
    split; [apply ready_drop; [done|]; apply Hi'|]. split; [simpl; by rewrite <- app_assoc|].
    apply Forall_app. by split; [|constructor].
Qed.

(** The handler on the next message to arrive: checks passed, it buffers the
    request or executes it and those it was blocking. *)
Lemma handle_pending m todo rest s : between (m :: todo) rest s ->
  wp (handle_request m (sock m)) (fun _ s' o => exists rest', rest = executed o ++ rest' /\ between todo rest' s') s.
Proof.
  intros (Hrd & Hperm & Hset).
  assert (Hin : m ∈ rest) by (rewrite <- Hperm; apply elem_of_app; right; by left).
  destruct (ready_valid _ _ _ Hrd Hin) as ((Hp & _) & x & Hx & Hc & Hnew).
  pose proof Hrd as [Hi Hn Hst Hok Hord Hsp Hend]. rewrite Forall_forall in Hok. destruct (Hok m Hin) as (Hv & Hro & Hr & Ho & Hfit).
  pose proof (ready_fresh _ _ _ _ Hrd Hperm) as Hfresh.
  unfold handle_request. wp_steps. rewrite Hp. cbn [negb]. wp_steps. rewrite Hn.
  rewrite (proj2 (Z.eqb_neq nid primary)) by done. rewrite (proj2 (Z.ltb_ge (oq_order m) 0)) by done. cbn [negb andb].
  wp_steps. simpl bufferedRequests. rewrite Hfresh. wp_steps. simpl cur_state. rewrite Hst. cbn [negb]. simpl bool_decide. cbn [negb].
  wp_step. apply o_wp_verify_request; [done|]. rewrite Hv, Hro. cbn [negb]. wp_step. eapply o_wp_req_id; [done..|].
  rewrite (proj2 (Z.leb_le _ _)) by lia. rewrite (proj2 (Z.eqb_neq _ _)) by lia. do 2 wp_step.
  apply (run_pending m todo rest). split; [|done]. constructor; try done; [by apply set_remotefd_calm|by apply Forall_forall].
Qed.

Definition arrivals (ms : list O_Request) : list event := (fun m => Deliver (O_Request_msg m) (sock m)) <$> ms.

Lemma arrivals_run ms : forall rest s, between ms rest s ->
  wp (run (arrivals ms)) (fun _ s' o => executed o = rest /\ bufferedRequests s' = [] /\ ready [] s') s.
Proof.
  induction ms as [|m ms IH]; intros rest s Hb.
  - destruct Hb as (Hrd & Hperm & Hset). rewrite app_nil_r in Hperm. wp_steps.
    assert (rest = []) as ->.
    { destruct rest as [|q rest]; [done|]. exfalso. unfold settled in Hset. rewrite Hperm in Hset. inversion_clear Hset as [|? ? Hq _].
      apply Hq. rewrite (rd_order _ _ Hrd O q eq_refl). lia. }
    split; [done|]. split; [|done]. symmetry in Hperm. by apply Permutation_nil in Hperm.
  - simpl. wp_step. eapply wp_mono; [by apply handle_pending|]. intros [] s1 o1 (rest1 & -> & Hb1).
    eapply wp_mono; [by apply IH|]. intros [] s2 o2 (<- & Hs2). by rewrite o_executed_app.
Qed.
End reorder.


(** ** Findings *)

(** A logged request of more than 8968 bytes makes the replica fail an assertion
    when another replica asks for it. *)
Lemma large_request_crashes m c r l e q s : m_list m = (c, r) :: l -> ReqHistory.find (rh s) c r = Some e ->
  ReqHistory.req e = Some q -> gag_fits q = false -> handle_missing m s = Fault AssertFailed.
Proof.
  intros Hm Hf Hq Hfit. unfold handle_missing. rewrite Hm. simpl. unfold bind, gets. rewrite Hf, Hq. simpl. by rewrite Hfit.
Qed.

(** A replica stopped and started again has an empty history but goes on with its
    old order, and keeps the requests it had buffered. *)
Lemma restart_keeps_order s : cur_state s = replica_state_NORMAL ->
  exists s', run [Switch false; Switch true] s = Done tt s' [] /\ cur_state s' = replica_state_NORMAL /\
    ReqHistory.rh (rh s') = [] /\ totalOrder s' = totalOrder s /\ bufferedRequests s' = bufferedRequests s.
Proof.
  intros Hst. simpl. unfold enable_replica, bind, gets, modify, ret. rewrite Hst. simpl.
  eexists. split; [done|]. done.
Qed.

End cbft.
End CBFT.

(** ** Replicas 0 and 1 of a group of four, clients 4, 5 and 6 *)

Module OExample.
Import Bytes CBFT ZlExample QExample.

Definition o_auth (nid src : Z) (h : Z * (Z * Z * Z * Z * Z * Z * Z * Z)) (auth : list Z) : bool := true.
Definition o_service (sv : list Z) (c : Z) (cmd : list Z) : list Z * list Z := (sv ++ cmd, take 8 cmd).

Abbreviation run_o := (run 4 1 7 mod_ex md5_sum md5_reply md5_client o_auth sig_yes sig_yes abort_d no_entry 128 o_service 0).
Abbreviation inv_o := (inv 4 7 mod_ex).
Abbreviation init_o nid := (initial 4 7 nid (@nil Z) 0).

(** The request [r] of client [c] with the order [k]. *)
Definition oreq (k c r : Z) (cmd : list Z) : O_Request :=
  mk_oreq k (mk_qreq 0 (52 + zlen cmd + 40) (md5_client c r []) (-1) c r 0 cmd []).
Definition to_replica (q : O_Request) : event := Deliver (O_Request_msg q) 20.

Lemma group_o : 0 < 4 <= 7.
Proof. lia. Qed.
Lemma four_small : 4 < 2 ^ 32.
Proof. lia. Qed.
Lemma sig_o : 0 <= 128 <= O_Max_message_size - sizeof_abort_rep.
Proof. unfold O_Max_message_size, sizeof_abort_rep. lia. Qed.
Lemma md5_sum_range x : 0 <= md5_sum x < 2 ^ 128.
Proof. apply Z.mod_pos_bound. lia. Qed.
Lemma o_service_fits sv c cmd : zlen (o_service sv c cmd).2 < 8500.
Proof. unfold zlen, o_service. simpl. rewrite length_take. lia. Qed.
Lemma init_o_inv nid : 0 <= nid < 4 -> inv_o (init_o nid).
Proof. intros Hn. apply o_initial_inv; [exact mod_ex_ok|done|lia]. Qed.

(** A backup gets the orders 1, 0, 0 again, 2 with a client's old identifier, and
    a panic. *)
Definition o_trace : list event :=
  [to_replica (oreq 1 5 1 [8]); to_replica (oreq 0 4 1 [7]); to_replica (oreq 0 4 1 [7]);
   to_replica (oreq 2 5 1 [9]); to_replica (oreq 2 6 3 [9; 9]); Deliver (O_Panic_msg (mk_panic 4 2)) 20].

Ltac o_event_ok := repeat (apply Forall_cons_2; [repeat split; vm_compute; congruence|]); apply Forall_nil_2.

Lemma o_trace_ok : Forall (event_ok 7) o_trace.
Proof. o_event_ok. Qed.


(** The three next requests arrive in another order. *)
Definition o_next : list O_Request := [oreq 0 4 1 [7]; oreq 1 5 1 [8]; oreq 2 4 2 [9]].

Lemma o_next_deliverable : Forall (deliverable 4 7 md5_client o_auth 1) o_next.
Proof. repeat (apply Forall_cons_2; [repeat split; vm_compute; congruence|]). apply Forall_nil_2. Qed.

Lemma o_next_order j q : o_next !! j = Some q -> oq_order q = totalOrder (init_o 1) + Z.of_nat j.
Proof. unfold o_next. do 3 (destruct j as [|j]; [by intros [= <-]|]). done. Qed.


Lemma panic_needs_room_witness :
  match handle_panic 4 7 md5_reply abort_d no_entry 128 0 (mk_panic 5 9) (init_o 1) with
  | Done _ s' o => log_fits 128 (init_o 1) = true /\ cur_state s' <> replica_state_NORMAL /\
      exists a, O_Send_abort a ∈ o /\ Smasher.hist_size a = 0%nat /\ Smasher.history a = []
  | Fault e => e = ExitCalled /\ log_fits 128 (init_o 1) = false
  end.
Proof.
  apply (panic_needs_room 4 7 mod_ex md5_reply abort_d no_entry 128 0 group_o sig_o (mk_panic 5 9) (init_o 1) (init_o_inv 1 ltac:(lia)));
    [reflexivity|discriminate].
Defined.
End OExample.
