(* ===== verification/CBFTGroup.v ===== *)
(** * A CBFT group

    Replicas of [CBFT] with the network between them and their clients.  The
    network delivers what has been sent where [O_Node::send] sends it: a message
    to [O_All_replicas] goes to the backups only.  A client uses an identifier for
    one command; it sends its request to the primary, and to a backup it sends
    the request with the order of a reply of the primary ([OClient] shows that
    [O_Client] does so).  Each replica starts with the counter [totalOrder] its
    constructor leaves uninitialised; agreement assumes that these are equal, and an
    example shows a group that diverges because they are not.

    The theorems: what a backup has executed is at every time a prefix of what
    the primary has executed, whatever the schedule, and panics do not change
    that; but since neither panics nor aborts ever reach the primary, no backup's
    abort certificate is ever completed, and a backup that panics never leaves
    that state. *)

From S2P Require Import Prelude Effects Bytes ReqHistory SCSet Recover Smasher Certificate Reply ZlReplica AtMostOnce CkptStore Quorum CBFT.
Local Open Scope Z_scope.

Module CBFTGroup.
Import Bytes CBFT.
Section group.
Context {S : Type}.
Context (num_replicas max_faulty num_principals : Z).
Context (modulus : Z) (MD5_sum : Z -> Z) (MD5_reply : list Z -> Z) (MD5_request : Z -> Z -> list Z -> Z).
Context (verify_auth : Z -> Z -> Z * (Z * Z * Z * Z * Z * Z * Z * Z) -> list Z -> bool).
Context (checkpoint_sig : zl_Checkpoint -> bool) (abort_sig : Smasher.zl_Abort -> bool) (abort_digest : Smasher.zl_Abort -> Z).
Context (signature_entry : Z -> list AbortHistoryElement -> nat -> AbortHistoryElement) (sig_size : Z).
Context (exec_command : S -> Z -> list Z -> S * list Z).
Context (unset_order : Z).
(** The command a client sends under an identifier. *)
Context (command_of : Z -> Z -> list Z).

Local Abbreviation state := (@state S).
Local Abbreviation run_event := (run_event num_replicas max_faulty num_principals modulus MD5_sum MD5_reply MD5_request
  verify_auth checkpoint_sig abort_sig abort_digest signature_entry sig_size exec_command unset_order).
Local Abbreviation event_ok := (event_ok num_principals).
Local Abbreviation inv := (inv num_replicas num_principals modulus).
Local Abbreviation tracks := (tracks num_replicas num_principals modulus exec_command).

(** [net] holds every output with the replica that made it, [logs] what each
    replica has executed. *)
Record system := mk_system { nodes : list state; logs : list (list O_Request); net : list (nat * O_output) }.

(** The constructor leaves [totalOrder] as the memory of the replica was: replica
    [i] starts with [order0 i]. *)
Definition start (n : nat) (sv : S) (order0 : Z -> Z) : system :=
  mk_system ((fun i => initial num_replicas num_principals i sv (order0 i)) <$> seqZ 0 (Z.of_nat n)) (replicate n []) [].

Definition fire (x : system) (i : nat) (ev : event) : option system :=
  s ← nodes x !! i; l ← logs x !! i;
  match run_event ev s with
  | Done _ s' o => Some (mk_system (<[i := s']> (nodes x)) (<[i := l ++ executed o]> (logs x)) (net x ++ (pair i <$> o)))
  | Fault _ => None
  end.

(** A message that can reach the replica [i]. *)
Inductive reaches (x : system) (i : nat) : O_Message -> Prop :=
| to_primary m : i = 0%nat -> oq_command m = command_of (oq_cid m) (oq_rid m) -> reaches x i (O_Request_msg m)
| to_backup m r : i <> 0%nat -> oq_command m = command_of (oq_cid m) (oq_rid m) ->
    (0%nat, O_Send_reply (oq_cid m) r) ∈ net x -> Reply.should_switch (or_rep r) = false ->
    Reply.rid (or_rep r) = oq_rid m -> or_order r = oq_order m -> reaches x i (O_Request_msg m)
| client_panic p : i <> 0%nat -> is_replica num_replicas (p_cid p) = false -> reaches x i (O_Panic_msg p)
| replica_panic j p : i <> 0%nat -> (j, O_Send_panic p) ∈ net x -> reaches x i (O_Panic_msg p)
| replica_abort j a : i <> 0%nat -> (j, O_Send_abort a) ∈ net x -> reaches x i (O_Abort_msg a)
| replica_missing j m : i <> 0%nat -> (j, O_Send_missing m) ∈ net x -> reaches x i (O_Missing_msg m)
| replica_gag j dest g : (j, O_Send_gag dest g) ∈ net x -> dest = Z.of_nat i \/ dest = -1 /\ i <> 0%nat ->
    reaches x i (O_Get_a_grip_msg g)
| unknown : reaches x i O_Unknown_msg.

Inductive step (x y : system) : Prop :=
| step_deliver i m sock : reaches x i m -> event_ok (Deliver m sock) -> fire x i (Deliver m sock) = Some y -> step x y.

Context (group : 0 < num_replicas <= num_principals) (group_size : num_replicas < 2 ^ 32) (faulty_ok : 0 <= max_faulty).
Context (sig_size_ok : 0 <= sig_size <= O_Max_message_size - sizeof_abort_rep).
Context (modulus_ok : 2 ^ 128 <= modulus < 2 ^ (DSum.nbits - 1)).
Context (MD5_range : forall c r bytes, 0 <= MD5_request c r bytes < 2 ^ 128).
Context (MD5_sum_range : forall x, 0 <= MD5_sum x < 2 ^ 128).
Context (result_fits : forall sv c cmd, zlen (exec_command sv c cmd).2 < 8500).

(** ** Agreement *)

Section agreement.
Context (sv : S) (order0 : Z -> Z) (t0 : Z).
Local Abbreviation spec0 := (spec_initial num_principals sv).

(** A request of node [i], when the primary has executed [P]. *)
Definition genuine (P : list O_Request) (i : nat) (q : O_Request) : Prop :=
  oq_command q = command_of (oq_cid q) (oq_rid q) /\
  (i <> 0%nat -> indexed t0 P (oq_cid q) (oq_rid q) (oq_order q)).

Definition reply_ok (P : list O_Request) (x : nat * O_output) : Prop :=
  match x with
  | (0%nat, O_Send_reply c r) => Reply.should_switch (or_rep r) = false -> answered t0 P (c, r)
  | _ => True
  end.

Definition group_ok (x : system) : Prop :=
  length (nodes x) = length (logs x) /\
  exists P, logs x !! 0%nat = Some P /\
    (forall i s l, nodes x !! i = Some s -> logs x !! i = Some l -> tracks (genuine P i) spec0 t0 (Z.of_nat i) l s) /\
    Forall (reply_ok P) (net x).

Lemma genuine_app P P' i q : genuine P i q -> genuine (P ++ P') i q.
Proof. intros [Hc Hi]. split; [done|]. intros Hne. by apply indexed_app, Hi. Qed.

Lemma tracks_mono (good good' : O_Request -> Prop) i l s : (forall q, good q -> good' q) ->
  tracks good spec0 t0 i l s -> tracks good' spec0 t0 i l s.
Proof.
  intros Hg []. constructor; try done; (eapply Forall_impl; [done|]); done.
Qed.

Lemma reply_ok_app P P' x : reply_ok P x -> reply_ok (P ++ P') x.
Proof. destruct x as [[|i] []]; try done. simpl. intros H Hs. by apply indexed_app, H. Qed.

Lemma og_start_ok n : (0 < n)%nat -> Z.of_nat n <= num_replicas -> 0 <= t0 ->
  (forall i, 0 <= i < Z.of_nat n -> order0 i = t0) -> group_ok (start n sv order0).
Proof.
  intros Hn Hr Ht Hord. unfold start. split; [simpl; rewrite length_fmap, length_seqZ, length_replicate; lia|].
  exists []. simpl. split; [by apply lookup_replicate_2|]. split; [|done].
  intros i s l Hs [-> Hi]%lookup_replicate. apply list_lookup_fmap_Some in Hs as (z & -> & Hz).
  apply lookup_seqZ in Hz as [-> Hz]. rewrite Z.add_0_l, Hord by lia. apply initial_tracks; try done. lia.
Qed.

(** A request that reaches a node is genuine. *)
Lemma reaches_genuine P x i m sock : Forall (reply_ok P) (net x) -> reaches x i m -> event_good (genuine P i) (Deliver m sock).
Proof.
  intros Hnet Hr. destruct Hr as [m Hi Hc|m r Hi Hc Hin Hs Hrid Ho| | | | | |]; try done; simpl. split; [done|]. intros _.
  rewrite Forall_forall in Hnet. pose proof (Hnet _ Hin Hs) as Ha. unfold answered in Ha. simpl in Ha.
  by rewrite Hrid, Ho in Ha.
Qed.

Lemma answers_elem c r o : (c, r) ∈ answers o <-> O_Send_reply c r ∈ o /\ Reply.should_switch (or_rep r) = false.
Proof.
  unfold answers. rewrite list_elem_of_omap. split.
  - intros (x & Hx & E). destruct x; try done. destruct (Reply.should_switch (or_rep r0)) eqn:Es; [done|]. by injection E as -> ->.
  - intros [Hin Hs]. exists (O_Send_reply c r). by rewrite Hs.
Qed.

Lemma answered_net P i o : (i = 0%nat -> Forall (answered t0 P) (answers o)) -> Forall (reply_ok P) (pair i <$> o).
Proof.
  intros Ha. apply Forall_fmap, Forall_forall. intros x Hx. destruct i as [|i]; [|done]. destruct x; try done.
  simpl. intros Hs. specialize (Ha eq_refl). rewrite Forall_forall in Ha. apply (Ha (dest, r)). by apply answers_elem.
Qed.

(** The primary's log grows when the primary executes. *)
Definition grown (i : nat) (P : list O_Request) (o : list O_output) : list O_Request :=
  if decide (i = 0%nat) then P ++ executed o else P.

Lemma grown_prefix i P o : exists P', grown i P o = P ++ P'.
Proof. unfold grown. case_decide; [by eexists|]. exists []. by rewrite app_nil_r. Qed.

Lemma fire_group x i s l s' P o :
  length (nodes x) = length (logs x) -> nodes x !! i = Some s -> logs x !! i = Some l -> logs x !! 0%nat = Some P ->
  (forall j s l, nodes x !! j = Some s -> logs x !! j = Some l -> tracks (genuine P j) spec0 t0 (Z.of_nat j) l s) ->
  Forall (reply_ok P) (net x) -> tracks (genuine P i) spec0 t0 (Z.of_nat i) (l ++ executed o) s' ->
  Forall (answered t0 (l ++ executed o)) (answers o) ->
  group_ok (mk_system (<[i := s']> (nodes x)) (<[i := l ++ executed o]> (logs x)) (net x ++ (pair i <$> o))).
Proof.
  intros Hlen Hs Hl HP Hn Hnet Ht Ha. destruct (grown_prefix i P o) as [P' HP'].
  assert (Hli : (i < length (logs x))%nat) by (by eapply lookup_lt_Some).
  split; [by simpl; rewrite !length_insert|]. exists (grown i P o). simpl. split_and!.
  - unfold grown. case_decide; subst; [|by rewrite list_lookup_insert_ne].
    rewrite list_lookup_insert_eq by done. by simplify_eq.
  - rewrite HP'. intros j sj lj Hsj Hlj. destruct (decide (i = j)) as [<-|Hne].
    + rewrite list_lookup_insert_eq in Hsj by lia. rewrite list_lookup_insert_eq in Hlj by done. simplify_eq.
      eapply tracks_mono; [|exact Ht]. intros q. apply genuine_app.
    + rewrite list_lookup_insert_ne in Hsj by done. rewrite list_lookup_insert_ne in Hlj by done.
      eapply tracks_mono; [|by apply Hn]. intros q. apply genuine_app.
  - apply Forall_app. split.
    + rewrite HP'. eapply Forall_impl; [exact Hnet|]. intros y. apply reply_ok_app.
    + apply answered_net. intros ->. unfold grown. rewrite decide_True by done. by simplify_eq.
Qed.

Lemma og_step_ok x y : group_ok x -> step x y -> group_ok y.
Proof.
  intros (Hlen & P & HP & Hn & Hnet) [i m sock Hre Hev Hf]. unfold fire in Hf.
  destruct (nodes x !! i) as [s|] eqn:Hs; [|done]. destruct (logs x !! i) as [l|] eqn:Hl; [|done].
  cbn [mbind option_bind] in Hf.
  pose proof (Hn _ _ _ Hs Hl) as Hi. pose proof (reaches_genuine P x i m sock Hnet Hre) as Hg.
  pose proof (o_run_event_ok num_replicas max_faulty num_principals modulus MD5_sum MD5_reply MD5_request verify_auth checkpoint_sig
    abort_sig abort_digest signature_entry sig_size exec_command unset_order group group_size faulty_ok sig_size_ok modulus_ok
    MD5_range MD5_sum_range result_fits (genuine P i) spec0 t0 (Z.of_nat i) (Deliver m sock) s
    (tr_inv _ _ _ _ _ _ _ _ _ _ Hi) Hev Hg (tr_buffer _ _ _ _ _ _ _ _ _ _ Hi)) as Hrun.
  unfold wpe in Hrun. destruct (run_event (Deliver m sock) s) as [u s' o|]; [|done]. injection Hf as <-.
  destruct Hrun as (_ & Hadv & _). destruct (Hadv l Hi) as [Ht Ha]. by eapply fire_group.
Qed.

Lemma og_steps_ok x y : group_ok x -> rtc step x y -> group_ok y.
Proof. intros Hx Hs. induction Hs; [done|]. eauto using og_step_ok. Qed.

(** What a client asked for. *)
Definition asked (q : O_Request) : Z * Z * list Z := (oq_cid q, oq_rid q, oq_command q).

Lemma fold_asked (v : S) l :
  foldl (fun v q => (exec_command v (oq_cid q) (oq_command q)).1) v l =
  foldl (fun v a => (exec_command v a.1.1 a.2).1) v (asked <$> l).
Proof. revert v. induction l as [|q l IH]; intros v; simpl; [done|]. apply IH. Qed.

Lemma group_prefix x i L P s : group_ok x -> nodes x !! i = Some s -> logs x !! i = Some L -> logs x !! 0%nat = Some P ->
  (asked <$> L) `prefix_of` (asked <$> P).
Proof.
  intros (Hlen & P' & HP' & Hn & _) Hs HL HP. assert (P' = P) as -> by congruence.
  destruct (decide (i = 0%nat)) as [->|Hne]; [assert (L = P) as -> by congruence; done|].
  apply prefix_lookup. intros j a Ha. apply list_lookup_fmap_Some in Ha as (q & -> & Hq).
  destruct (nodes x !! 0%nat) as [s0|] eqn:H0.
  2:{ apply lookup_ge_None in H0. apply lookup_lt_Some in HP. lia. }
  pose proof (Hn _ _ _ Hs HL) as Hi. pose proof (Hn _ _ _ H0 HP) as Hp.
  pose proof (tr_backup _ _ _ _ _ _ _ _ _ _ Hi ltac:(unfold primary; lia) j q Hq) as Hord.
  destruct (Forall_lookup_1 _ _ _ _ (tr_good _ _ _ _ _ _ _ _ _ _ Hi) Hq) as [Hc Hidx].
  destruct (Hidx Hne) as (k & q' & Hq' & Hk & Hcid & Hrid).
  assert (k = j) as -> by lia.
  destruct (Forall_lookup_1 _ _ _ _ (tr_good _ _ _ _ _ _ _ _ _ _ Hp) Hq') as [Hc' _].
  rewrite list_lookup_fmap, Hq'. simpl. unfold asked. by rewrite Hc, Hc', Hcid, Hrid.
Qed.

(** C13. Agreement in CBFT.  The replicas start with equal services and, by hypothesis,
    with one non-negative value [t0] in [totalOrder], which the constructor leaves
    uninitialised.  Clients use an identifier for one command, send the primary their
    request and a backup the request with the order of the primary's reply, and the
    network delivers messages in any order, panics, aborts and missing lists
    included; requests that are delivered hold their command and fit a get-a-grip,
    results are below 8500 bytes, and a step in which a replica faults (the order
    leaving its [int], an exit after a panic) is not taken.  Then what a backup has
    executed is, command by command, a prefix of what the primary has executed, each
    request once; and every replica's service is the result of the first
    [totalOrder - t0] of these commands. *)
Theorem cbft_agreement n x i s L P : (0 < n)%nat -> Z.of_nat n <= num_replicas -> 0 <= t0 ->
  (forall j, 0 <= j < Z.of_nat n -> order0 j = t0) ->
  rtc step (start n sv order0) x -> nodes x !! i = Some s -> logs x !! i = Some L -> logs x !! 0%nat = Some P ->
  (asked <$> L) `prefix_of` (asked <$> P) /\
  NoDup ((fun q => (oq_cid q, oq_rid q)) <$> L) /\
  totalOrder s = t0 + Z.of_nat (length L) /\
  service s = foldl (fun v q => (exec_command v (oq_cid q) (oq_command q)).1) sv (take (length L) P).
Proof.
  intros Hn Hle Ht Hord Hsteps Hs HL HP.
  assert (Hg : group_ok x) by (eapply og_steps_ok; [by apply (og_start_ok n)|done]).
  pose proof (group_prefix x i L P s Hg Hs HL HP) as Hpre. split; [done|].
  destruct Hg as (_ & P' & HP' & Hall & _). assert (P' = P) as -> by congruence. pose proof (Hall _ _ _ Hs HL) as Hi.
  pose proof (tr_spec _ _ _ _ _ _ _ _ _ _ Hi) as Hsp.
  split; [by apply (AtMostOnce.spec_run_once _ _ _ _ _ Hsp)|]. split; [apply Hi|]. apply AtMostOnce.spec_run_service in Hsp.
  simpl in Hsp. rewrite Hsp, !fold_asked. f_equal. destruct Hpre as [r Hr].
  by rewrite fmap_take, Hr, take_app_length' by (by rewrite length_fmap).
Qed.
End agreement.

(** ** Panics do not end *)

Section panics.

(** An operation that keeps the state of the recovery and sends no abort. *)
Definition is_abort (o : O_output) : bool := match o with O_Send_abort _ => true | _ => false end.
Definition still (s s' : state) (o : list O_output) : Prop :=
  cur_state s' = cur_state s /\ aborts s' = aborts s /\ Forall (fun x => is_abort x = false) o.
Definition keeps {A} (m : Effects.M state O_output A) : Prop := forall s, wlp m (fun _ s' o => still s s' o) s.

Lemma keeps_bind {A B} (m : Effects.M state O_output A) (k : A -> Effects.M state O_output B) :
  keeps m -> (forall a, keeps (k a)) -> keeps (bind m k).
Proof.
  intros Hm Hk s. apply wlp_bind. eapply wlp_mono; [apply Hm|]. intros a s1 o1 (E1 & E2 & E3).
  eapply wlp_mono; [apply Hk|]. intros b s2 o2 (F1 & F2 & F3). split_and!; [congruence|congruence|by apply Forall_app].
Qed.
Lemma keeps_gets {A} (f : state -> A) : keeps (gets f).
Proof. done. Qed.
Lemma keeps_ret {A} (a : A) : keeps (ret a).
Proof. done. Qed.
Lemma keeps_fail {A} e : keeps (@fail _ _ A e).
Proof. done. Qed.
Lemma keeps_of_option {A} e (o : option A) : keeps (of_option e o).
Proof. by destruct o. Qed.
Lemma keeps_assert b : keeps (assert_ b).
Proof. by destruct b. Qed.
Lemma keeps_in_bounds b : keeps (in_bounds b).
Proof. by destruct b. Qed.
Lemma keeps_modify f : (forall s, cur_state (f s) = cur_state s) -> (forall s, aborts (f s) = aborts s) -> keeps (modify f).
Proof. intros H1 H2 s. by split_and!. Qed.
Lemma keeps_emit x : is_abort x = false -> keeps (emit x).
Proof. intros Hx s. split_and!; [done|done|by constructor]. Qed.

Ltac keeps_step :=
  lazymatch goal with
  | |- keeps (bind _ _) => apply keeps_bind; [|intros ?]
  | |- keeps (gets _) => apply keeps_gets
  | |- keeps (ret _) => apply keeps_ret
  | |- keeps (fail _) => apply keeps_fail
  | |- keeps (of_option _ _) => apply keeps_of_option
  | |- keeps (assert_ _) => apply keeps_assert
  | |- keeps (in_bounds _) => apply keeps_in_bounds
  | |- keeps (modify _) => by apply keeps_modify
  | |- keeps (emit _) => by apply keeps_emit
  | |- keeps (if ?b then _ else _) => destruct b
  | |- keeps (let '(_, _) := ?p in _) => destruct p
  | |- keeps (match ?x with _ => _ end) => destruct x
  | |- keeps _ => eassumption
  end.

Lemma send_reply_keeps dest src order : keeps (send_reply dest src order).
Proof. unfold send_reply, slot_of, set_slot. repeat keeps_step. Qed.

Lemma send_switch_keeps p rid cid : keeps (send_switch num_principals MD5_reply unset_order p rid cid).
Proof. unfold send_switch, rep_digest, slot_of, empty_reply. repeat keeps_step. Qed.

Lemma send_result_keeps cid rid sz : keeps (send_result num_principals cid rid sz).
Proof. unfold send_result, rep_digest, slot_of, empty_reply. repeat (keeps_step || apply send_reply_keeps). Qed.

Lemma execute_keeps q : keeps (execute_request num_principals modulus MD5_sum MD5_reply exec_command q).
Proof.
  unfold execute_request, req_id, new_reply, end_reply, set_slot, slot_of.
  repeat (keeps_step || apply send_reply_keeps || apply send_result_keeps).
Qed.

Lemma drain_keeps n : keeps (drain num_principals modulus MD5_sum MD5_reply exec_command n).
Proof. induction n; simpl; repeat (keeps_step || apply execute_keeps). Qed.

Lemma request_keeps m sock : keeps (handle_request num_replicas num_principals modulus MD5_sum MD5_reply MD5_request
  verify_auth exec_command unset_order m sock).
Proof.
  unfold handle_request, verify_request, req_id, slot_of.
  repeat (keeps_step || apply send_switch_keeps || apply execute_keeps || apply drain_keeps).
Qed.

Lemma answer_missing_keeps dest l : keeps (answer_missing num_principals dest l).
Proof. induction l as [|[c r] l IH]; simpl; repeat keeps_step. Qed.

Lemma keeps_done {A} (m : Effects.M state O_output A) s a s' o : keeps m -> m s = Done a s' o -> still s s' o.
Proof. intros Hm E. specialize (Hm s). unfold wlp in Hm. by rewrite E in Hm. Qed.

(** The primary serves; a backup serves or panics, without an abort of the
    primary; and an abort carries the name of its sender, a backup. *)
Definition stuck (i : nat) (s : state) : Prop :=
  (i = 0%nat -> cur_state s = replica_state_NORMAL) /\
  (i <> 0%nat -> (cur_state s = replica_state_NORMAL \/ cur_state s = replica_state_PANICKING) /\
    Smasher.ac (aborts s) !! 0%nat = Some None).

Definition signed (x : nat * O_output) : Prop :=
  match x with (j, O_Send_abort a) => j <> 0%nat /\ Smasher.a_id a = Z.of_nat j | _ => True end.

(** A step keeps [stuck], and a replica that panics goes on panicking. *)
Definition stays (i : nat) (s s' : state) (o : list O_output) : Prop :=
  stuck i s' /\ Forall signed (pair i <$> o) /\
  (cur_state s = replica_state_PANICKING -> cur_state s' = replica_state_PANICKING /\ executed o = []).

Lemma still_stays i s s' o : still s s' o -> stuck i s ->
  (cur_state s = replica_state_PANICKING -> executed o = []) -> stays i s s' o.
Proof.
  intros (Hc & Ha & Ho) Hst He. split_and!.
  - unfold stuck. by rewrite Hc, Ha.
  - apply Forall_fmap. eapply Forall_impl; [exact Ho|]. by intros [].
  - intros Hp. split; [congruence|auto].
Qed.

Lemma request_panicking m sock s : cur_state s = replica_state_PANICKING ->
  wlp (handle_request num_replicas num_principals modulus MD5_sum MD5_reply MD5_request verify_auth exec_command unset_order m sock)
    (fun _ _ o => executed o = []) s.
Proof.
  intros Hp. unfold handle_request. wlp_steps. case_match; [by wlp_steps|]. wlp_steps.
  do 2 (case_match; [by wlp_steps|]). wlp_steps. case_match; [by wlp_steps|]. wlp_steps. simpl. rewrite Hp. simpl. by wlp_steps.
Qed.

(** An abort of a backup leaves the primary's place free, so the certificate is
    not complete. *)
Lemma add_stuck ac a ac' b : Quorum.ac_add abort_digest ac a = Some (ac', b) -> 0 < Smasher.a_id a ->
  Smasher.ac ac !! 0%nat = Some None -> Smasher.ac ac' !! 0%nat = Some None.
Proof.
  unfold Quorum.ac_add, Smasher.ac_add. intros Hadd Hid H0. case_bool; [done|].
  destruct (Smasher.ac ac !! Z.to_nat (Smasher.a_id a)) as [[e|]|]; simplify_eq/=; [done|].
  rewrite list_lookup_insert_ne by lia. done.
Qed.

Lemma stuck_incomplete ac : certificate_ok num_replicas ac -> Smasher.ac ac !! 0%nat = Some None -> Smasher.ac_is_complete ac = false.
Proof.
  intros [Hw Hc Hl _] H0. apply not_true_is_false. intros Hd.
  destruct (Smasher.ac_complete_all ac 0 Hw ltac:(lia) Hd ltac:(lia)) as [a Ha]. congruence.
Qed.

Lemma abort_tuples_pure l off (s : state) : wlp (abort_tuples sig_size l off) (fun _ s' o => s' = s /\ o = []) s.
Proof.
  revert off. induction l as [|e l IH]; intros off; simpl; [done|]. destruct (ReqHistory.req e); [|apply IH].
  case_bool; [done|]. wlp_step. eapply wlp_mono; [apply IH|]. by intros ts s1 o1 [-> ->].
Qed.

Lemma broadcast_stays i out (s : state) : node_id s = Z.of_nat i -> i <> 0%nat -> Smasher.ac (aborts s) !! 0%nat = Some None ->
  wlp (broadcast_abort abort_digest signature_entry sig_size out)
    (fun _ s' o => Smasher.ac (aborts s') !! 0%nat = Some None /\ cur_state s' = cur_state s /\
       Forall signed (pair i <$> o)) s.
Proof.
  intros Hid Hi H0. unfold broadcast_abort. wlp_steps. eapply wlp_mono; [apply abort_tuples_pure|].
  intros ts s' o [-> ->]. wlp_step. case_bool; [done|]. do 2 wlp_step. apply wlp_assert. intros _. wlp_steps.
  apply wlp_of_option. intros [ac' b] Hadd. wlp_steps. simpl. split_and!; [|done|].
  - eapply add_stuck; [exact Hadd|simpl; lia|done].
  - by repeat constructor.
Qed.

Lemma panic_stays i m (s : state) : node_id s = Z.of_nat i -> i <> 0%nat -> stuck i s ->
  wlp (handle_panic num_replicas num_principals MD5_reply abort_digest signature_entry sig_size unset_order m)
    (fun _ s' o => stuck i s' /\ Forall signed (pair i <$> o) /\ cur_state s' = replica_state_PANICKING) s.
Proof.
  intros Hid Hi [_ Hst]. destruct (Hst Hi) as [Hcur H0]. unfold handle_panic. wlp_steps.
  apply (wlp_mono _ (fun _ s1 o1 => node_id s1 = node_id s /\ aborts s1 = aborts s /\
    cur_state s1 = replica_state_PANICKING /\ Forall signed (pair i <$> o1))).
  { destruct Hcur as [Hc|Hc]; rewrite Hc; simpl; wlp_steps; repeat (split; [done|]); by repeat constructor. }
  intros [] s1 o1 (Hn & Ha & Hc & Ho). wlp_steps. rewrite Hc. simpl. rewrite andb_false_r. wlp_step.
  apply (wlp_mono _ (fun _ s2 o2 => node_id s2 = node_id s /\ aborts s2 = aborts s /\
    cur_state s2 = replica_state_PANICKING /\ o2 = [])); [by case_match; wlp_steps|].
  intros [] s2 o2 (Hn2 & Ha2 & Hc2 & ->).
  eapply wlp_mono; [apply (broadcast_stays i); [congruence|done|by rewrite Ha2]|].
  intros [] s3 o3 (E1 & E2 & E3). rewrite E2, Hc2. simpl. split_and!; [|by rewrite fmap_app; apply Forall_app|done].
  split; [done|]. intros _. split; [right; congruence|done].
Qed.

Lemma abort_stays i m s : inv s -> i <> 0%nat -> 0 < Smasher.a_id m -> Z.of_nat (Smasher.hist_size m) < 2 ^ 16 -> stuck i s ->
  wlp (handle_abort num_replicas max_faulty num_principals modulus MD5_sum MD5_reply abort_sig abort_digest unset_order m)
    (fun _ s' o => stuck i s' /\ cur_state s' = cur_state s /\ o = []) s.
Proof.
  intros Hs Hi Hid Hsz Hst. unfold handle_abort. wlp_steps. case_match; [by wlp_steps|].
  case_match eqn:Hv; [by wlp_steps|]. wlp_steps. unfold abort_verify, is_replica in Hv. bsimp.
  destruct (certificate_add num_replicas num_principals abort_digest group (aborts s) m (inv_aborts _ _ _ _ Hs)) as (ac & b & Hadd & Hok); [lia|done|].
  apply wlp_of_option. intros [ac' b'] E. rewrite Hadd in E. injection E as <- <-. cbn [fst snd].
  destruct b; simpl; [|by wlp_steps]. pose proof (add_stuck _ _ _ _ Hadd Hid (proj2 (proj2 Hst Hi))) as Hfree.
  wlp_steps. rewrite (stuck_incomplete ac) by done. simpl. wlp_steps. split_and!; [|done|done].
  split; [done|]. intros _. split; [apply Hst, Hi|done].
Qed.
Lemma panic_event_stays i m s : inv s -> node_id s = Z.of_nat i -> i <> 0%nat -> is_principal num_principals (p_cid m) = true ->
  stuck i s -> wlp (handle_panic num_replicas num_principals MD5_reply abort_digest signature_entry sig_size unset_order m)
    (fun _ s' o => stays i s s' o) s.
Proof.
  intros Hs Hid Hi Hp Hst. pose proof (panic_stays i m s Hid Hi Hst) as H1.
  pose proof (handle_panic_ok num_replicas num_principals modulus MD5_reply verify_auth abort_digest signature_entry
    sig_size unset_order group sig_size_ok modulus_ok m s Hs Hp) as H2.
  unfold wlp, wpe in *. destruct (handle_panic _ _ _ _ _ _ _ m s) as [[] s' o|]; [|done].
  destruct H1 as (E1 & E2 & E3). destruct H2 as (_ & _ & He & _). by split_and!.
Qed.

Lemma missing_stays i m s : inv s -> is_principal num_principals (m_replica m) || (m_replica m =? -1) = true -> stuck i s ->
  wlp (handle_missing num_principals m) (fun _ s' o => stays i s s' o) s.
Proof.
  intros Hs Hd Hst. unfold handle_missing. pose proof (answer_missing_keeps (m_replica m) (m_list m) s) as H1.
  pose proof (o_answer_missing_ok num_replicas num_principals modulus (m_replica m) (m_list m) s Hd Hs) as H2.
  unfold wlp, wp in *. destruct (answer_missing _ _ _ s) as [[] s' o|]; [|done].
  apply still_stays; [done|done|]. intros _. apply H2.
Qed.

Local Abbreviation handle_request := (handle_request num_replicas num_principals modulus MD5_sum MD5_reply MD5_request
  verify_auth exec_command unset_order).

Lemma request_stays i m sock s : stuck i s -> wlp (handle_request m sock) (fun _ s' o => stays i s s' o) s.
Proof.
  intros Hst. destruct (handle_request m sock s) as [[] s' o|] eqn:E; unfold wlp; rewrite E; [|done].
  apply still_stays; [by eapply keeps_done; [apply request_keeps|]|done|].
  intros Hp. pose proof (request_panicking m sock s Hp) as He. unfold wlp in He. by rewrite E in He.
Qed.

Lemma event_stays x i m sock s : inv s -> node_id s = Z.of_nat i -> event_ok (Deliver m sock) -> reaches x i m ->
  Forall signed (net x) -> stuck i s -> wlp (run_event (Deliver m sock)) (fun _ s' o => stays i s s' o) s.
Proof.
  intros Hs Hid Hev Hre Hnet Hst. destruct Hre as [m Hi|m r Hi|p Hi Hp|j p Hi Hp|j a Hi Ha|j m Hi Hm|j dest g|]; simpl in *.
  - by apply request_stays.
  - by apply request_stays.
  - by apply panic_event_stays.
  - by apply panic_event_stays.
  - rewrite Forall_forall in Hnet. destruct (Hnet _ Ha) as [Hj Haid].
    eapply wlp_mono; [apply (abort_stays i); try done; lia|]. intros [] s' o (E1 & E2 & ->).
    split_and!; [done|by constructor|]. intros Hpa. split; [congruence|done].
  - apply missing_stays; try done.
  - unfold handle_get_a_grip. wlp_steps. rewrite bool_decide_false; [simpl; wlp_steps|].
    + apply still_stays; [by split_and!|done..].
    + destruct Hst as [Hst0 Hst1]. destruct (decide (i = 0%nat)) as [->|Hne]; [by rewrite Hst0|].
      by destruct (Hst1 Hne) as [[->| ->] _].
  - wlp_steps. apply still_stays; [by split_and!|done..].
Qed.

(** ** The group *)

Context (sv : S) (order0 : Z -> Z).
Local Abbreviation spec0 := (spec_initial num_principals sv).

(** Each replica follows its own log, from its own first order. *)
Definition each_tracks (x : system) : Prop :=
  length (nodes x) = length (logs x) /\
  forall i s l, nodes x !! i = Some s -> logs x !! i = Some l ->
    tracks (fun _ => True) spec0 (order0 (Z.of_nat i)) (Z.of_nat i) l s.

Lemma each_start n : Z.of_nat n <= num_replicas -> (forall i, 0 <= i < Z.of_nat n -> 0 <= order0 i) ->
  each_tracks (start n sv order0).
Proof.
  intros Hr Hord. split; [simpl; rewrite length_fmap, length_seqZ, length_replicate; lia|]. unfold start. simpl.
  intros i s l Hs [-> Hi]%lookup_replicate. apply list_lookup_fmap_Some in Hs as (z & -> & Hz).
  apply lookup_seqZ in Hz as [-> Hz]. rewrite Z.add_0_l. apply initial_tracks; try done; [lia|]. apply Hord. lia.
Qed.

Lemma each_step x y : each_tracks x -> step x y -> each_tracks y.
Proof.
  intros [Hlen Hn] [i m sock Hre Hev Hf]. unfold fire in Hf.
  destruct (nodes x !! i) as [s|] eqn:Hs; [|done]. destruct (logs x !! i) as [l|] eqn:Hl; [|done].
  cbn [mbind option_bind] in Hf. pose proof (Hn _ _ _ Hs Hl) as Hi.
  pose proof (o_run_event_ok num_replicas max_faulty num_principals modulus MD5_sum MD5_reply MD5_request verify_auth checkpoint_sig
    abort_sig abort_digest signature_entry sig_size exec_command unset_order group group_size faulty_ok sig_size_ok modulus_ok
    MD5_range MD5_sum_range result_fits (fun _ => True) spec0 (order0 (Z.of_nat i)) (Z.of_nat i) (Deliver m sock) s
    (tr_inv _ _ _ _ _ _ _ _ _ _ Hi) Hev ltac:(by destruct m) (tr_buffer _ _ _ _ _ _ _ _ _ _ Hi)) as Hrun.
  unfold wpe in Hrun. destruct (run_event (Deliver m sock) s) as [u s' o|]; [|done]. injection Hf as <-.
  destruct Hrun as (_ & Hadv & _). destruct (Hadv l Hi) as [Ht _].
  split; [by simpl; rewrite !length_insert|]. simpl. intros j sj lj Hsj Hlj.
  assert (Hli : (i < length (logs x))%nat) by (by eapply lookup_lt_Some). destruct (decide (i = j)) as [<-|Hne].
  - rewrite list_lookup_insert_eq in Hsj by lia. rewrite list_lookup_insert_eq in Hlj by done. by simplify_eq.
  - rewrite list_lookup_insert_ne in Hsj by done. rewrite list_lookup_insert_ne in Hlj by done. by apply Hn.
Qed.

Definition group_stuck (x : system) : Prop :=
  (forall i s, nodes x !! i = Some s -> stuck i s) /\ Forall signed (net x).

Lemma stuck_start n : group_stuck (start n sv order0).
Proof.
  split; [|done]. intros i s Hs. unfold start in Hs. simpl in Hs. apply list_lookup_fmap_Some in Hs as (z & -> & Hz).
  split; [done|]. intros _. split; [by left|]. simpl. apply lookup_replicate_2. lia.
Qed.

(** What becomes of the node [i] in a step. *)
Lemma stuck_step x y : each_tracks x -> group_stuck x -> step x y ->
  group_stuck y /\ forall i s l, nodes x !! i = Some s -> logs x !! i = Some l -> cur_state s = replica_state_PANICKING ->
    exists s', nodes y !! i = Some s' /\ cur_state s' = replica_state_PANICKING /\ logs y !! i = Some l.
Proof.
  intros (Hlen & Hn) [Hst Hnet] [i m sock Hre Hev Hf]. unfold fire in Hf.
  destruct (nodes x !! i) as [s|] eqn:Hs; [|done]. destruct (logs x !! i) as [l|] eqn:Hl; [|done].
  cbn [mbind option_bind] in Hf. pose proof (Hn _ _ _ Hs Hl) as Hi.
  pose proof (event_stays x i m sock s (tr_inv _ _ _ _ _ _ _ _ _ _ Hi) (tr_node _ _ _ _ _ _ _ _ _ _ Hi) Hev Hre Hnet (Hst _ _ Hs)) as Hr.
  unfold wlp in Hr. destruct (run_event (Deliver m sock) s) as [u s' o|]; [|done]. injection Hf as <-.
  destruct Hr as (E1 & E2 & E3). assert (Hli : (i < length (nodes x))%nat) by (by eapply lookup_lt_Some). split.
  - split; [|by apply Forall_app]. simpl. intros j sj Hj.
    apply list_lookup_insert_Some in Hj as [(<- & -> & _)|(_ & Hj)]; [done|by apply Hst].
  - simpl. intros j sj lj Hsj Hlj Hp. destruct (decide (i = j)) as [<-|Hne].
    + simplify_eq. destruct (E3 Hp) as [E4 E5]. exists s'.
      by rewrite !list_lookup_insert_eq, E5, app_nil_r by lia.
    + exists sj. by rewrite !list_lookup_insert_ne by done.
Qed.

(** C39. A panic never ends (the replicas find non-negative values in [totalOrder]): neither panics nor aborts reach the primary
    ([O_Node::send] leaves it out of [O_All_replicas]), so no abort certificate,
    which wants an abort of every replica, is ever complete.  A backup that has
    panicked stays in that state, whatever happens in the group, and never
    executes another request. *)
Theorem panic_is_final n x y i s L : Z.of_nat n <= num_replicas ->
  (forall j, 0 <= j < Z.of_nat n -> 0 <= order0 j) -> rtc step (start n sv order0) x -> rtc step x y ->
  nodes x !! i = Some s -> logs x !! i = Some L -> cur_state s = replica_state_PANICKING ->
  exists s', nodes y !! i = Some s' /\ cur_state s' = replica_state_PANICKING /\ logs y !! i = Some L.
Proof.
  intros Hle Hord Hx Hxy. assert (Hg : each_tracks x /\ group_stuck x).
  { assert (H0 : each_tracks (start n sv order0) /\ group_stuck (start n sv order0)) by (split; [by apply each_start|apply stuck_start]).
    revert H0. induction Hx as [|x1 x2 x3 Hs _ IH]; [done|]. intros [H1 H2]. apply IH; [done|].
    split; [by eapply each_step|by eapply stuck_step]. }
  clear Hx. revert s Hg. induction Hxy as [y|x1 x2 x3 Hs _ IH]; intros s [H1 H2] Hi HL Hp; [by exists s|].
  destruct (stuck_step _ _ H1 H2 Hs) as [H3 H4]. destruct (H4 _ _ _ Hi HL Hp) as (s2 & Hi2 & Hp2 & HL2).
  eapply IH; try done. split; [by eapply each_step|done].
Qed.
End panics.

(** ** Schedules *)

(** A check of [reaches] for the messages of clients. *)
Definition from_client (x : system) (i : nat) (m : O_Message) : bool :=
  match m with
  | O_Request_msg m =>
    bool_decide (oq_command m = command_of (oq_cid m) (oq_rid m)) &&
    ((i =? 0)%nat ||
     existsb (fun y => match y with
                       | (0%nat, O_Send_reply c r) => (c =? oq_cid m) && negb (Reply.should_switch (or_rep r)) &&
                           (Reply.rid (or_rep r) =? oq_rid m) && (or_order r =? oq_order m)
                       | _ => false
                       end) (net x))
  | O_Panic_msg p => negb (i =? 0)%nat && negb (is_replica num_replicas (p_cid p))
  | _ => false
  end.

Lemma from_client_reaches x i m : from_client x i m = true -> reaches x i m.
Proof.
  unfold from_client. destruct m as [m| |p| | | |]; try done; intros H; bsimp.
  2:{ by apply client_panic; [apply Nat.eqb_neq|]. }
  destruct (decide (i = 0%nat)) as [->|Hne]; [by apply to_primary|].
  rewrite (proj2 (Nat.eqb_neq i 0) Hne) in *.
  match goal with H : false || _ = true |- _ => apply existsb_exists in H as ([[|j] []] & Hin & Hb) end; try done. bsimp. subst. eapply to_backup; try done.
  by apply list_elem_of_In.
Qed.

Fixpoint fire_all (x : system) (evs : list (nat * O_Message)) : option system :=
  match evs with
  | [] => Some x
  | (i, m) :: evs' => if from_client x i m then y ← fire x i (Deliver m 20); fire_all y evs' else None
  end.

Lemma fire_all_steps evs : forall x y, Forall (fun p => event_ok (Deliver p.2 20)) evs -> fire_all x evs = Some y -> rtc step x y.
Proof.
  induction evs as [|[i m] evs IH]; intros x y Hok; simpl; [by intros [= ->]|].
  apply Forall_cons in Hok as [Hm Hok]. destruct (from_client x i m) eqn:Hc; [|done].
  destruct (fire x i (Deliver m 20)) as [z|] eqn:Hf; [|done]. simpl. intros Hz.
  eapply rtc_l; [by eapply step_deliver; [apply from_client_reaches|..]|by apply IH].
Qed.
End group.
End CBFTGroup.

(** ** Four replicas, clients 4, 5 and 6 *)

Module OGroupExample.
Import Bytes CBFT CBFTGroup ZlExample QExample OExample.

Definition command_ex (c r : Z) : list Z := [c; r].

Abbreviation step_ex := (step 4 1 7 mod_ex md5_sum md5_reply md5_client o_auth sig_yes sig_yes abort_d no_entry 128 o_service 0 command_ex).
Abbreviation fire_ex := (fire_all 4 1 7 mod_ex md5_sum md5_reply md5_client o_auth sig_yes sig_yes abort_d no_entry 128 o_service 0 command_ex).
Abbreviation start_ex := (start 4 7 4 (@nil Z) (fun _ => 0)).

Definition send (k c r : Z) : O_Message := O_Request_msg (oreq k c r (command_ex c r)).

(** The primary orders three requests; backup 1 gets the third first, then the
    first, and executes it; client 6 panics at backup 1. *)
Definition before_panic : list (nat * O_Message) :=
  [(0%nat, send (-1) 4 1); (0%nat, send (-1) 5 1); (0%nat, send (-1) 4 2);
   (1%nat, send 2 4 2); (1%nat, send 0 4 1)].
Definition panic_ex : list (nat * O_Message) := [(1%nat, O_Panic_msg (mk_panic 6 1))].
(** Then the second request reaches backups 1 and 2. *)
Definition after_panic : list (nat * O_Message) := [(1%nat, send 1 5 1); (2%nat, send 0 4 1); (2%nat, send 1 5 1)].

Lemma before_panic_ok : Forall (fun p => event_ok 7 (Deliver p.2 20)) (before_panic ++ panic_ex).
Proof. o_event_ok. Qed.
Lemma after_panic_ok : Forall (fun p => event_ok 7 (Deliver p.2 20)) after_panic.
Proof. o_event_ok. Qed.

Lemma cbft_agreement_witness :
  exists x s L P, fire_ex start_ex (before_panic ++ panic_ex) = Some x /\
    nodes x !! 1%nat = Some s /\ logs x !! 1%nat = Some L /\ logs x !! 0%nat = Some P /\
    (asked <$> L) `prefix_of` (asked <$> P) /\ length L = 1%nat /\ length P = 3%nat /\ service s = [4; 1].
Proof.
  destruct (fire_ex start_ex (before_panic ++ panic_ex)) as [x|] eqn:E; [|vm_compute in E; discriminate].
  pose proof (fire_all_steps 4 1 7 mod_ex md5_sum md5_reply md5_client o_auth sig_yes sig_yes abort_d no_entry 128 o_service 0
    command_ex _ _ _ before_panic_ok E) as Hs.
  destruct (nodes x !! 1%nat) as [s|] eqn:H1; [|vm_compute in E; injection E as <-; discriminate].
  destruct (logs x !! 1%nat) as [L|] eqn:H2; [|vm_compute in E; injection E as <-; discriminate].
  destruct (logs x !! 0%nat) as [P|] eqn:H3; [|vm_compute in E; injection E as <-; discriminate].
  destruct (cbft_agreement 4 1 7 mod_ex md5_sum md5_reply md5_client o_auth sig_yes sig_yes abort_d no_entry 128 o_service 0
    command_ex group_o four_small ltac:(lia) sig_o mod_ex_ok md5_client_range md5_sum_range o_service_fits [] (fun _ => 0) 0 4 x 1 s L P
    ltac:(lia) ltac:(lia) ltac:(lia) (fun _ _ => eq_refl) Hs H1 H2 H3) as (Hp & _ & _ & Hsv).
  exists x, s, L, P. split; [done|]. split; [exact H1|]. split; [exact H2|]. split; [exact H3|]. split; [exact Hp|].
  assert (HL : length L = 1%nat) by (vm_compute in E; injection E as <-; by injection H2 as <-).
  assert (HP : exists q1 q2, P = [oreq (-1) 4 1 [4; 1]; q1; q2]) by (vm_compute in E; injection E as <-; injection H3 as <-; by eexists _, _).
  destruct HP as (q1 & q2 & ->). rewrite HL in Hsv. by repeat (split; [done|]).
Defined.

(** Without equal first orders: backup 1 starts one order ahead, and the second request
    of the primary is the first it executes. *)
Example unequal_orders_diverge :
  exists x, fire_ex (start 4 7 4 (@nil Z) (fun i => if i =? 1 then 1 else 0))
      [(0%nat, send (-1) 4 1); (0%nat, send (-1) 5 1); (1%nat, send 0 4 1); (1%nat, send 1 5 1)] = Some x /\
    option_map (map asked) (logs x !! 0%nat) = Some [(4, 1, [4; 1]); (5, 1, [5; 1])] /\
    option_map (map asked) (logs x !! 1%nat) = Some [(5, 1, [5; 1])].
Proof. eexists. split; [vm_compute; reflexivity|]. split; reflexivity. Qed.

Lemma panic_is_final_witness :
  exists x y s s' L, fire_ex start_ex (before_panic ++ panic_ex) = Some x /\ fire_ex x after_panic = Some y /\
    nodes x !! 1%nat = Some s /\ cur_state s = replica_state_PANICKING /\ logs x !! 1%nat = Some L /\
    nodes y !! 1%nat = Some s' /\ cur_state s' = replica_state_PANICKING /\ logs y !! 1%nat = Some L.
Proof.
  destruct (fire_ex start_ex (before_panic ++ panic_ex)) as [x|] eqn:E; [|vm_compute in E; discriminate].
  destruct (fire_ex x after_panic) as [y|] eqn:E'; [|vm_compute in E; injection E as <-; vm_compute in E'; discriminate].
  pose proof (fire_all_steps 4 1 7 mod_ex md5_sum md5_reply md5_client o_auth sig_yes sig_yes abort_d no_entry 128 o_service 0
    command_ex _ _ _ before_panic_ok E) as Hs.
  pose proof (fire_all_steps 4 1 7 mod_ex md5_sum md5_reply md5_client o_auth sig_yes sig_yes abort_d no_entry 128 o_service 0
    command_ex _ _ _ after_panic_ok E') as Hs'.
  destruct (nodes x !! 1%nat) as [s|] eqn:H1; [|vm_compute in E; injection E as <-; discriminate].
  destruct (logs x !! 1%nat) as [L|] eqn:H2; [|vm_compute in E; injection E as <-; discriminate].
  assert (Hp : cur_state s = replica_state_PANICKING) by (vm_compute in E; injection E as <-; by injection H1 as <-).
  destruct (panic_is_final 4 1 7 mod_ex md5_sum md5_reply md5_client o_auth sig_yes sig_yes abort_d no_entry 128 o_service 0
    command_ex group_o four_small ltac:(lia) sig_o mod_ex_ok md5_client_range md5_sum_range o_service_fits [] (fun _ => 0) 4 x y 1 s L
    ltac:(lia) (fun _ _ => Z.le_refl 0) Hs Hs' H1 H2 Hp) as (s' & H3 & H4 & H5).
  exists x, y, s, s', L. by repeat (split; [done|]).
Defined.
End OGroupExample.
