(* ===== verification/MesQueue.v ===== *)
(** * Message queues

    Models [src/protocols/ring/R_Mes_queue.cc]; [C_Mes_queue.cc], [Q_Mes_queue.cc] and
    [zl_Mes_queue.cc] are the same code.  A queue is a chain of nodes in a heap
    that it shares with the other queues of the process; [new] is a parameter that
    returns an address not in use.  A dereference of a null or freed pointer is the
    [None] of an operation.  The address space holds fewer than [2 ^ 31] nodes, so
    [nelems] does not overflow; [nbytes] may, and wraps.

    [FifoQueue] is what the receiving loops rely on: the operations, and that they
    are those of a list of messages and leave other queues alone.  [mes_queue]
    shows that the linked nodes are such a queue. *)

From stdpp Require Import gmap.
From S2P Require Import Prelude.
Local Open Scope Z_scope.

Class FifoQueue (H Q M : Type) := {
  fifo_append : H -> Q -> M -> option (H * Q);
  fifo_remove : H -> Q -> option (H * Q * option M);
  fifo_first : H -> Q -> option (option M);
  size_of : Q -> Z;
  (** The queue holds the messages [l] in the part [d] of the heap. *)
  holds : H -> Q -> gset positive -> list M -> Prop;
  size_ok h q d l : holds h q d l -> size_of q = Z.of_nat (length l);
  first_ok h q d l : holds h q d l -> fifo_first h q = Some (head l);
  append_ok h q d l m : holds h q d l ->
    exists h' q' d', fifo_append h q m = Some (h', q') /\ holds h' q' d' (l ++ [m]) /\
      forall q2 d2 l2, d ## d2 -> holds h q2 d2 l2 -> holds h' q2 d2 l2 /\ d' ## d2;
  remove_ok h q d l : holds h q d l ->
    exists h' q' d', fifo_remove h q = Some (h', q', head l) /\ holds h' q' d' (tail l) /\
      forall q2 d2 l2, d ## d2 -> holds h q2 d2 l2 -> holds h' q2 d2 l2 /\ d' ## d2
}.

Module MesQueue.
Section queue.
Context {M : Type} (size : M -> Z).

Abbreviation ptr := (option positive).
Record PR_Node := mk_pr { m : M; next : ptr; prev : ptr }.
Abbreviation heap := (gmap positive PR_Node).
Record Mes_queue := mk_queue { head : ptr; tail : ptr; nelems : Z; nbytes : Z }.

Context (new : heap -> positive).

Definition empty_queue : Mes_queue := mk_queue None None 0 0.

(** [p->next = n] and [p->prev = n]. *)
Definition set_next (h : heap) (p n : ptr) : option heap :=
  a ← p; x ← h !! a; Some (<[a := mk_pr (m x) n (prev x)]> h).
Definition set_prev (h : heap) (p n : ptr) : option heap :=
  a ← p; x ← h !! a; Some (<[a := mk_pr (m x) (next x) n]> h).

Definition append (h : heap) (q : Mes_queue) (msg : M) : option (heap * Mes_queue) :=
  let cn := new h in
  let nb := to_signed 32 (nbytes q + size msg) in
  match head q with
  | None => Some (<[cn := mk_pr msg None None]> h, mk_queue (Some cn) (Some cn) (nelems q + 1) nb)
  | Some _ =>
    h1 ← set_next (<[cn := mk_pr msg None (tail q)]> h) (tail q) (Some cn);
    Some (h1, mk_queue (head q) (Some cn) (nelems q + 1) nb)
  end.

Definition remove (h : heap) (q : Mes_queue) : option (heap * Mes_queue * option M) :=
  match head q with
  | None => Some (h, q, None)
  | Some old_head =>
    x ← h !! old_head;
    let h1 := delete old_head h in
    let hd := next x in
    h2 ← match hd with Some _ => set_prev h1 hd None | None => Some h1 end;
    let tl := match hd with Some _ => tail q | None => None end in
    Some (h2, mk_queue hd tl (nelems q - 1) (to_signed 32 (nbytes q - size (m x))), Some (m x))
  end.

Definition first (h : heap) (q : Mes_queue) : option (option M) :=
  match head q with
  | None => Some None
  | Some a => x ← h !! a; Some (Some (m x))
  end.

(** ** The chain of nodes *)

Abbreviation nodes := (list (positive * M)).
Definition front (l : nodes) (d : ptr) : ptr := match l with [] => d | (a, _) :: _ => Some a end.
Definition back (l : nodes) (d : ptr) : ptr := match last l with None => d | Some (a, _) => Some a end.

Fixpoint chain (h : heap) (p : ptr) (l : nodes) (n : ptr) : Prop :=
  match l with
  | [] => True
  | (a, x) :: l' => h !! a = Some (mk_pr x (front l' n) p) /\ chain h (Some a) l' n
  end.

Record rep (h : heap) (q : Mes_queue) (l : nodes) : Prop := {
  rep_chain : chain h None l None;
  rep_nodup : NoDup l.*1;
  rep_head : head q = front l None;
  rep_tail : tail q = back l None;
  rep_nelems : nelems q = Z.of_nat (length l);
  rep_nbytes : nbytes q = to_signed 32 (foldr Z.add 0 (size <$> l.*2))
}.

Lemma back_snoc l a x d : back (l ++ [(a, x)]) d = Some a.
Proof. unfold back. by rewrite last_snoc. Qed.

Lemma back_cons a x l d : back ((a, x) :: l) d = back l (Some a).
Proof. unfold back. rewrite last_cons. by destruct (last l) as [[]|]. Qed.

Lemma front_app l1 l2 d : front (l1 ++ l2) d = front l1 (front l2 d).
Proof. by destruct l1 as [|[]]. Qed.

Lemma mq_chain_app h p l1 l2 n : chain h p (l1 ++ l2) n <-> chain h p l1 (front l2 n) /\ chain h (back l1 p) l2 n.
Proof.
  revert p. induction l1 as [|[a x] l1 IH]; intros p; cbn [app chain]; [by split; [|intros [_ ?]]|].
  rewrite IH, front_app, back_cons. tauto.
Qed.

Lemma chain_agree h h' p l n : (forall b, b ∈ l.*1 -> h' !! b = h !! b) -> chain h p l n -> chain h' p l n.
Proof.
  revert p. induction l as [|[a x] l IH]; intros p Hag Hs; [done|]. destruct Hs as [Ha Hs].
  split; [by rewrite Hag by (by left)|]. apply IH; [|done]. intros b Hb. apply Hag. by right.
Qed.

Lemma chain_dom h p l n a : chain h p l n -> a ∈ l.*1 -> is_Some (h !! a).
Proof.
  revert p. induction l as [|[b x] l IH]; intros p Hs Hin; [by apply elem_of_nil in Hin|]. destruct Hs as [Hb Hs].
  apply elem_of_cons in Hin as [->|Hin]; [by eexists|by eapply IH].
Qed.

Context (new_fresh : forall h, h !! new h = None).

(** An operation leaves the nodes outside [l] alone. *)
Definition frame (h h' : heap) (l : nodes) : Prop := forall b, is_Some (h !! b) -> b ∉ l.*1 -> h' !! b = h !! b.

Lemma bytes_snoc (l : nodes) a x : foldr Z.add 0 (size <$> (l ++ [(a, x)]).*2) = foldr Z.add 0 (size <$> l.*2) + size x.
Proof. induction l as [|[b y] l IH]; cbn in *; lia. Qed.

Lemma append_rep h q l msg : rep h q l ->
  exists h' q', append h q msg = Some (h', q') /\ rep h' q' (l ++ [(new h, msg)]) /\ frame h h' l.
Proof.
  intros [Hc Hnd Hh Ht Hn Hb]. pose proof (new_fresh h) as Hf.
  assert (Hni : new h ∉ l.*1) by (intros Hin; destruct (chain_dom _ _ _ _ _ Hc Hin) as [x Hx]; congruence).
  assert (Hnd' : NoDup (l ++ [(new h, msg)]).*1).
  { rewrite fmap_app. apply NoDup_app. split; [done|]. split; [by intros b Hin ->%list_elem_of_singleton|apply NoDup_singleton]. }
  assert (Hnb : to_signed 32 (nbytes q + size msg) = to_signed 32 (foldr Z.add 0 (size <$> (l ++ [(new h, msg)]).*2))).
  { by rewrite bytes_snoc, Hb, to_signed_add_l by lia. }
  assert (Hlen : nelems q + 1 = Z.of_nat (length (l ++ [(new h, msg)]))) by (rewrite Hn, length_app; cbn; lia).
  unfold append. destruct (decide (l = [])) as [->|Hne].
  - cbn in Hh. rewrite Hh. eexists _, _. split; [done|]. split.
    + constructor; cbn -[to_signed]; try done. by rewrite lookup_insert_eq.
    + intros b [y Hy] _. rewrite lookup_insert_ne; [done|]. congruence.
  - destruct (exists_last Hne) as (l0 & [t x] & ->). rewrite back_snoc in Ht.
    assert (Hhd : exists a, head q = Some a) by (rewrite Hh, front_app; destruct l0 as [|[]]; by eexists).
    destruct Hhd as [a Ha]. rewrite Ha, Ht. apply mq_chain_app in Hc as [Hc0 [Hx _]].
    assert (Htn : t <> new h) by congruence. unfold set_next. cbn [mbind option_bind].
    rewrite lookup_insert_ne, Hx by done. cbn [mbind option_bind]. eexists _, _. split; [done|]. split.
    + constructor; cbn [head tail nelems nbytes]; try done.
      * rewrite <- app_assoc. apply mq_chain_app. split; [|split; [by rewrite lookup_insert_eq|split; [|done]]].
        -- eapply chain_agree; [|exact Hc0]. intros b Hin. rewrite !lookup_insert_ne; [done| |].
           ++ intros <-. destruct (chain_dom _ _ _ _ _ Hc0 Hin) as [z Hz]. congruence.
           ++ intros <-. rewrite fmap_app in Hnd. apply NoDup_app in Hnd as (_ & Hd & _). apply (Hd t Hin). by left.
        -- rewrite lookup_insert_ne, lookup_insert_eq by done. done.
      * rewrite <- Ha, Hh, !front_app. by destruct l0 as [|[]].
      * by rewrite back_snoc.
    + intros b [y Hy] Hnb'. rewrite !lookup_insert_ne; [done|congruence|]. intros <-. apply Hnb'. rewrite fmap_app. apply elem_of_app. right. by left.
Qed.

Lemma remove_rep h q l : rep h q l ->
  exists h' q', remove h q = Some (h', q', snd <$> list.head l) /\ rep h' q' (list.tail l) /\ frame h h' l.
Proof.
  intros [Hc Hnd Hh Ht Hn Hb]. unfold remove. destruct l as [|[a x] l]; cbn in Hh; rewrite Hh.
  { exists h, q. by repeat (split; [done|]). }
  destruct Hc as [Ha Hc]. rewrite Ha. cbn [mbind option_bind next m]. apply NoDup_cons in Hnd as [Hni Hnd].
  assert (Hnb : to_signed 32 (nbytes q - size x) = to_signed 32 (foldr Z.add 0 (size <$> l.*2))).
  { rewrite Hb. cbn [fmap list_fmap foldr]. unfold Z.sub. rewrite to_signed_add_l by lia. f_equal. cbn. lia. }
  assert (Hc1 : chain (delete a h) (Some a) l None).
  { eapply chain_agree; [|exact Hc]. intros b Hin. rewrite lookup_delete_ne; [done|]. by intros <-. }
  destruct l as [|[b y] l]; cbn [front].
  - eexists _, _. split; [done|]. split; [by constructor; cbn -[to_signed] in *; [..|lia|]|].
    intros c _ Hc'. rewrite lookup_delete_ne; [done|]. intros <-. apply Hc'. by left.
  - destruct Hc1 as [Hb1 Hc1]. unfold set_prev. cbn [mbind option_bind]. rewrite Hb1. cbn [mbind option_bind].
    apply NoDup_cons in Hnd as [Hnb1 Hnd]. eexists _, _. split; [done|]. split.
    + constructor; cbn [head tail nelems nbytes list.tail]; try done.
      * split; [by rewrite lookup_insert_eq|]. eapply chain_agree; [|exact Hc1]. intros c Hin. rewrite lookup_insert_ne; [done|]. by intros <-.
      * by apply NoDup_cons.
      * rewrite Hn. cbn. lia.
    + intros c _ Hc'. rewrite lookup_insert_ne, lookup_delete_ne; [done| |]; intros <-; apply Hc'; [by left|by right; left].
Qed.

(** ** The queue as a list *)

Definition locs (l : nodes) : gset positive := list_to_set l.*1.
Definition queue_holds (h : heap) (q : Mes_queue) (d : gset positive) (x : list M) : Prop :=
  exists l : nodes, rep h q l /\ d = locs l /\ x = l.*2.

(** Another queue is not disturbed. *)
Lemma rep_other h h' q l l2 : frame h h' l -> locs l ## locs l2 -> rep h q l2 -> rep h' q l2.
Proof.
  intros Hf Hd [H1 H2 H3 H4 H5 H6]. constructor; try done. eapply chain_agree; [|exact H1]. intros b Hb.
  apply Hf; [by eapply chain_dom|]. unfold locs in Hd. set_solver.
Qed.

Lemma new_outside h q l : rep h q l -> new h ∉ locs l.
Proof.
  intros Hr. unfold locs. rewrite elem_of_list_to_set. intros Hin.
  destruct (chain_dom _ _ _ _ _ (rep_chain _ _ _ Hr) Hin) as [x Hx]. by rewrite new_fresh in Hx.
Qed.

Lemma queue_append h q d x msg : queue_holds h q d x ->
  exists h' q' d', append h q msg = Some (h', q') /\ queue_holds h' q' d' (x ++ [msg]) /\
    forall q2 d2 x2, d ## d2 -> queue_holds h q2 d2 x2 -> queue_holds h' q2 d2 x2 /\ d' ## d2.
Proof.
  intros (l & Hr & -> & ->). destruct (append_rep h q l msg Hr) as (h' & q' & Ha & Hr' & Hf).
  exists h', q', (locs (l ++ [(new h, msg)])). split; [done|]. split; [eexists; split; [done|]; by rewrite fmap_app|].
  intros q2 d2 x2 Hd (l2 & Hr2 & -> & ->). split; [exists l2; split; [by eapply rep_other|done]|].
  pose proof (new_outside _ _ _ Hr2). unfold locs in *. rewrite fmap_app, list_to_set_app_L. cbn. set_solver.
Qed.

Lemma queue_remove h q d x : queue_holds h q d x ->
  exists h' q' d', remove h q = Some (h', q', list.head x) /\ queue_holds h' q' d' (list.tail x) /\
    forall q2 d2 x2, d ## d2 -> queue_holds h q2 d2 x2 -> queue_holds h' q2 d2 x2 /\ d' ## d2.
Proof.
  intros (l & Hr & -> & ->). destruct (remove_rep h q l Hr) as (h' & q' & Ha & Hr' & Hf).
  exists h', q', (locs (list.tail l)). split; [rewrite Ha; by destruct l|]. split; [eexists; split; [done|]; by destruct l|].
  intros q2 d2 x2 Hd (l2 & Hr2 & -> & ->). split; [exists l2; split; [by eapply rep_other|done]|].
  destruct l; [done|]. unfold locs in *. cbn in *. set_solver.
Qed.

Lemma queue_first h q d x : queue_holds h q d x -> first h q = Some (list.head x).
Proof.
  intros (l & [Hc _ Hh _ _ _] & _ & ->). unfold first. rewrite Hh. destruct l as [|[a y] l]; [done|].
  destruct Hc as [Ha _]. cbn. by rewrite Ha.
Qed.

Lemma queue_size h q d x : queue_holds h q d x -> nelems q = Z.of_nat (length x).
Proof. intros (l & [_ _ _ _ Hn _] & _ & ->). by rewrite length_fmap. Qed.

#[export] Instance mes_queue : FifoQueue heap Mes_queue M := {|
  fifo_append := append; fifo_remove := remove; fifo_first := first; size_of := nelems; holds := queue_holds;
  size_ok := queue_size; first_ok := queue_first; append_ok := queue_append; remove_ok := queue_remove
|}.

Lemma queue_start h : queue_holds h empty_queue ∅ [].
Proof. exists []. split; [|done]. constructor; try done. constructor. Qed.
End queue.
End MesQueue.
