(* ===== verification/Ring.v ===== *)
(** * The Ring replica

    Models [src/protocols/ring/R_Replica.cc] with [R_Rep_info.cc], [R_Types.h]
    and [R_BaseRequest.h], in the configuration its Makefile builds: without
    [USE_MACS], [USE_CHECKPOINTS] and [REPLY_BY_ENTRY].

    Replicas form a ring.  A request enters at the replica [cid % num_replicas] and
    goes once around; replica 0 gives it its number.  The last replica of the round
    turns it into an acknowledgement, which goes around a second time; the last
    replica of that round answers the client.

    A request waits in [requests] under its client and identifier.  The states
    kept there have a field [my_rmid] that is to hold their own key; the
    assignment to it is commented out, so it is always [(0, 0)], and what the
    handler of acknowledgements changes is the entry of [(0, 0)].

    [latest_seen_rid] and [connectmap] are hash maps: reading an absent key gives 0
    and adds it.  They mark free and deleted places with keys of their own, 0 and -1 in
    [latest_seen_rid], on which [operator[]] fails an assertion.  An empty loop that waits for a condition nothing changes is the
    fault [Hang]. *)

From stdpp Require Import gmap.
From S2P Require Import Prelude Effects Bytes ZlReplica.
Local Open Scope Z_scope.

(** ** Messages *)

Record R_Request := mk_rreq {
  rq_extra : Z; rq_od : Z; rq_seqno : Z; rq_cid : Z; rq_rid : Z; rq_replica : Z; rq_command : list Z
}.
Record R_ACK := mk_rack { ra_od : Z; ra_seqno : Z; ra_cid : Z; ra_rid : Z; ra_replica : Z }.
Record R_Reply := mk_rrep { rp_rid : Z; rp_digest : Z; rp_seqno : Z; rp_size : Z; rp_replica : Z; rp_body : list Z }.

Inductive R_Message :=
| R_Request_msg (m : R_Request)
| R_ACK_msg (m : R_ACK)
| R_Checkpoint_msg
| R_Unknown_msg.

Inductive R_output :=
| R_Executed (r : R_Request)
| R_Pass_on (m : R_Message)
| R_Answer (cid socket : Z) (r : R_Reply).

Definition set_seqno_of (s : Z) (q : R_Request) : R_Request :=
  mk_rreq (rq_extra q) (rq_od q) s (rq_cid q) (rq_rid q) (rq_replica q) (rq_command q).
Definition is_sequenced (q : R_Request) : bool := negb (rq_seqno q =? 0).

(** ** The state of a request *)

Inductive R_State := state_pending | state_exec_not_acked | state_acked_not_exec | state_acked | state_stable.

(** The values of the enumeration. *)
Definition R_State_value (s : R_State) : Z :=
  match s with
  | state_pending => 0 | state_exec_not_acked => 1 | state_acked_not_exec => 2 | state_acked => 4 | state_stable => 16
  end.

#[export] Instance R_State_eq_dec : EqDecision R_State.
Proof. solve_decision. Defined.

Record R_Message_State := mk_rms {
  ms_req : option R_Request; ms_pos : Z; ms_state : R_State; ms_refcount : Z; ms_rmid : Z * Z; ms_my_rmid : Z * Z
}.

(** The value-initialised structure [operator[]] adds for an absent key. *)
Definition rms_default : R_Message_State := mk_rms None 0 state_pending 0 (0, 0) (0, 0).
Definition with_state (st : R_State) (m : R_Message_State) : R_Message_State :=
  mk_rms (ms_req m) (ms_pos m) st (ms_refcount m) (ms_rmid m) (ms_my_rmid m).
Definition with_refcount (n : Z) (m : R_Message_State) : R_Message_State :=
  mk_rms (ms_req m) (ms_pos m) (ms_state m) n (ms_rmid m) (ms_my_rmid m).

Inductive Execution := execution_ok | execution_wait | execution_old.

Module Ring.
Import Bytes.
Section ring.
Context {S : Type}.

Record state := mk_state {
  node_id : Z;
  seqno : Z;
  last_executed : Z;
  replies : list R_Reply;
  latest_seen_rid : gmap Z Z;
  requests : gmap (Z * Z) R_Message_State;
  execution_queue : list (Z * (Z * Z));
  connectmap : gmap Z Z;
  service : S
}.

Definition set_seqno (x : Z) (s : state) : state :=
  mk_state (node_id s) x (last_executed s) (replies s) (latest_seen_rid s) (requests s) (execution_queue s) (connectmap s) (service s).
Definition set_last_executed (x : Z) (s : state) : state :=
  mk_state (node_id s) (seqno s) x (replies s) (latest_seen_rid s) (requests s) (execution_queue s) (connectmap s) (service s).
Definition set_replies (x : list R_Reply) (s : state) : state :=
  mk_state (node_id s) (seqno s) (last_executed s) x (latest_seen_rid s) (requests s) (execution_queue s) (connectmap s) (service s).
Definition set_latest_seen_rid (x : gmap Z Z) (s : state) : state :=
  mk_state (node_id s) (seqno s) (last_executed s) (replies s) x (requests s) (execution_queue s) (connectmap s) (service s).
Definition set_requests (x : gmap (Z * Z) R_Message_State) (s : state) : state :=
  mk_state (node_id s) (seqno s) (last_executed s) (replies s) (latest_seen_rid s) x (execution_queue s) (connectmap s) (service s).
Definition set_execution_queue (x : list (Z * (Z * Z))) (s : state) : state :=
  mk_state (node_id s) (seqno s) (last_executed s) (replies s) (latest_seen_rid s) (requests s) x (connectmap s) (service s).
Definition set_connectmap (x : gmap Z Z) (s : state) : state :=
  mk_state (node_id s) (seqno s) (last_executed s) (replies s) (latest_seen_rid s) (requests s) (execution_queue s) x (service s).
Definition set_service (x : S) (s : state) : state :=
  mk_state (node_id s) (seqno s) (last_executed s) (replies s) (latest_seen_rid s) (requests s) (execution_queue s) (connectmap s) x.

Local Abbreviation M := (Effects.M state R_output).
Local Open Scope handler_scope.

Context (num_replicas num_principals : Z) (MD5_reply : list Z -> Z).
(** The service gets the client, the command, whether it is marked read-only, and
    [last_executed] in the place of the non-deterministic input. *)
Context (exec_command : S -> Z -> list Z -> bool -> Z -> S * list Z).

(** [distance(s, d)], with the remainder of C. *)
Definition distance (s d : Z) : Z := Z.rem (d - s + num_replicas) num_replicas.
Definition RANSWER : Z := num_replicas - 1.

Definition is_read_only (q : R_Request) : bool := Z.odd (rq_extra q).

(** ** [R_Rep_info] *)

Definition reply (cid : Z) : M R_Reply :=
  l <- gets replies ;;
  if cid <? 0 then fail OutOfBounds else of_option OutOfBounds (l !! Z.to_nat cid).

Definition set_reply (cid : Z) (r : R_Reply) : M unit :=
  modify (fun s => set_replies (<[Z.to_nat cid := r]> (replies s)) s).

Definition new_reply (cid : Z) : M unit :=
  r <- reply cid ;;
  set_reply cid (mk_rrep (rp_rid r) (rp_digest r) (rp_seqno r) (-1) (rp_replica r) (rp_body r)).

Definition end_reply (cid entry_replica rid sq : Z) (data : list Z) (sz : Z) : M unit :=
  r <- reply cid ;;
  assert_ (rp_size r =? -1) ;;;
  set_reply cid (mk_rrep rid (MD5_reply (take (Z.to_nat sz) data)) sq sz entry_replica data).

Definition send_reply (cid socket : Z) : M unit :=
  r <- reply cid ;;
  assert_ (negb (rp_size r =? -1)) ;;;
  emit (R_Answer cid socket r).

(** ** The queue of requests that wait for their turn: the smallest number first *)

Fixpoint push (e : Z * (Z * Z)) (q : list (Z * (Z * Z))) : list (Z * (Z * Z)) :=
  match q with
  | [] => [e]
  | x :: q' => if e.1 <? x.1 then e :: q else x :: push e q'
  end.

(** [while (!empty && top().first < n) pop()]. *)
Fixpoint pop_below (n : Z) (q : list (Z * (Z * Z))) : list (Z * (Z * Z)) :=
  match q with
  | [] => []
  | x :: q' => if x.1 <? n then pop_below n q' else q
  end.

(** The loop has an empty body: if it is entered it does not end. *)
Definition process_execution_queue : M unit :=
  q <- gets execution_queue ;;
  le <- gets last_executed ;;
  match q with
  | x :: _ => if x.1 =? le + 1 then fail Hang else ret tt
  | [] => ret tt
  end.

(** ** Execution *)

Definition execute_request_main (req : R_Request) : M unit :=
  let cid := rq_cid req in
  new_reply cid ;;;
  sv <- gets service ;;
  le <- gets last_executed ;;
  let '(sv', out) := exec_command sv cid (rq_command req) (is_read_only req) le in
  modify (set_service sv') ;;;
  emit (R_Executed req) ;;;
  end_reply cid (rq_replica req) (rq_rid req) (rq_seqno req) (Replica.pad out) (zlen out).

Definition execute_request (req : R_Request) : M Execution :=
  let run :=
    execute_request_main req ;;;
    modify (set_last_executed (rq_seqno req)) ;;;
    modify (fun s => set_execution_queue (pop_below (last_executed s) (execution_queue s)) s) ;;;
    process_execution_queue ;;;
    ret execution_ok in
  le <- gets last_executed ;;
  if rq_seqno req <=? le then ret execution_old
  else if rq_seqno req =? le + 1 then run
  else
    q <- gets execution_queue ;;
    if match q with x :: _ => negb (x.1 =? le + 1) | [] => false end then ret execution_wait
    else
      process_execution_queue ;;;
      le <- gets last_executed ;;
      if rq_seqno req <=? le then ret execution_ok
      else if negb (rq_seqno req =? le + 1) then ret execution_wait
      else run.

Definition do_execute (req : R_Request) : M unit :=
  if negb (is_sequenced req) then ret tt else execute_request req ;;; ret tt.

(** ** Requests *)

Definition get_seqno_for_request (req : R_Request) : M Z :=
  r <- reply (rq_cid req) ;;
  if rq_rid req <=? rp_rid r then ret (rp_seqno r)
  else modify (fun s => set_seqno (seqno s + 1) s) ;;; gets seqno.

Definition assign_sequence (req : R_Request) : M R_Request :=
  me <- gets node_id ;;
  if 0 =? me then n <- get_seqno_for_request req ;; ret (set_seqno_of n req) else ret req.

(** A state that shares a request with others ([pos <> 0]) releases the one that
    carries it; that one has the position 0, so two levels are enough.  Its request is
    deleted with it; the caller then overwrites the entry that pointed to it,
    which is the only one. *)
Fixpoint rms_remove_ (fuel : nat) (rms : R_Message_State) : M unit :=
  match fuel with
  | O => fail Hang
  | Datatypes.S fuel' =>
    let rms := with_refcount (wrapu 32 (ms_refcount rms - 1)) rms in
    if ms_refcount rms =? 0 then
      modify (fun s => set_requests (base.delete (ms_my_rmid rms) (requests s)) s) ;;;
      if negb (ms_pos rms =? 0) then
        m <- gets requests ;;
        let mrms := default rms_default (m !! ms_rmid rms) in
        modify (set_requests (<[ms_rmid rms := mrms]> m)) ;;;
        rms_remove_ fuel' mrms
      else ret tt
    else modify (fun s => set_requests (<[ms_my_rmid rms := rms]> (requests s)) s)
  end.
Definition rms_remove : R_Message_State -> M unit := rms_remove_ 2.

Definition create_state_for_request (req : R_Request) : M unit :=
  let rmid := (rq_cid req, rq_rid req) in
  le <- gets last_executed ;;
  let pending_req :=
    mk_rms (Some req) 0 (if is_sequenced req && (rq_seqno req <=? le) then state_exec_not_acked else state_pending)
      1 (0, 0) (0, 0) in
  m <- gets requests ;;
  (match m !! rmid with
   | Some old => rms_remove old ;;; modify (fun s => set_requests (<[rmid := pending_req]> (requests s)) s)
   | None => ret tt
   end) ;;;
  modify (fun s => set_requests (<[rmid := pending_req]> (requests s)) s) ;;;
  if is_sequenced req && (le <? rq_seqno req) then
    modify (fun s => set_execution_queue (push (rq_seqno req, rmid) (execution_queue s)) s)
  else ret tt.

Definition ack_of (req : R_Request) : R_ACK :=
  mk_rack (rq_od req) (rq_seqno req) (rq_cid req) (rq_rid req) (rq_replica req).

Definition handle_request (req : R_Request) : M unit :=
  r <- reply (rq_cid req) ;;
  if rq_rid req <? rp_rid r then ret tt
  else
    req <- assign_sequence req ;;
    do_execute req ;;;
    create_state_for_request req ;;;
    me <- gets node_id ;;
    if distance (rq_replica req) me =? RANSWER then emit (R_Pass_on (R_ACK_msg (ack_of req)))
    else emit (R_Pass_on (R_Request_msg req)).

(** ** Acknowledgements *)

Definition send_reply_to_client (cid : Z) : M unit :=
  m <- gets connectmap ;;
  let sock := default 0 (m !! cid) in
  modify (set_connectmap (<[cid := sock]> m)) ;;;
  send_reply cid sock.

Definition make_stable (rms : R_Message_State) : M unit :=
  modify (fun s => set_requests (<[ms_my_rmid rms := with_state state_stable rms]> (requests s)) s).

(** [transform_handle]: the end of the second round. *)
Definition transform_ack (a : R_ACK) : M unit :=
  m <- gets requests ;;
  match m !! (ra_cid a, ra_rid a) with
  | None => ret tt
  | Some rms =>
    if R_State_value (ms_state rms) <? R_State_value state_acked then ret tt
    else send_reply_to_client (ra_cid a) ;;; make_stable rms
  end.

Definition forward_ack (a : R_ACK) : M unit :=
  emit (R_Pass_on (R_ACK_msg a)) ;;;
  m <- gets requests ;;
  match m !! (ra_cid a, ra_rid a) with
  | None => ret tt
  | Some rms =>
    if R_State_value (ms_state rms) <? R_State_value state_acked then ret tt else make_stable rms
  end.

(** The transitions of the entry [arms]; [areq] is the request acknowledged.  The
    second component says whether the entry was changed. *)
Definition upgrade (areq : R_Request) (key : Z * Z) (st : R_State) : M (R_State * bool) :=
  let st1 := if decide (st = state_pending) then state_acked_not_exec else st in
  let st2 := if decide (st1 = state_exec_not_acked) then state_acked else st1 in
  if decide (st2 = state_acked_not_exec) then
    exr <- execute_request areq ;;
    match exr with
    | execution_ok | execution_old => ret (state_acked, true)
    | execution_wait =>
      modify (fun s => set_execution_queue (push (rq_seqno areq, key) (execution_queue s)) s) ;;;
      ret (state_acked_not_exec, true)
    end
  else ret (st2, negb (bool_decide (st2 = st))).

Definition handle_ack (a : R_ACK) : M unit :=
  r <- reply (ra_cid a) ;;
  assert_ (negb (ra_cid a =? 0) && negb (ra_cid a =? -1)) ;;;
  seen <- gets latest_seen_rid ;;
  let last := default 0 (seen !! ra_cid a) in
  modify (set_latest_seen_rid (<[ra_cid a := last]> seen)) ;;;
  if ra_rid a <? Z.max (rp_rid r) last then ret tt
  else
    m <- gets requests ;;
    match m !! (ra_cid a, ra_rid a) with
    | None => ret tt
    | Some rms =>
      areq <- of_option NullDeref (ms_req rms) ;;
      let key := ms_my_rmid rms in
      let arms := default rms_default (m !! key) in
      modify (set_requests (<[key := arms]> m)) ;;;
      u <- upgrade areq (ms_my_rmid arms) (ms_state arms) ;;
      modify (fun s => set_requests (<[key := with_state u.1 arms]> (requests s)) s) ;;;
      m' <- gets requests ;;
      if u.2 && negb (bool_decide (is_Some (m' !! (ra_cid a, ra_rid a)))) then ret tt
      else
        me <- gets node_id ;;
        if distance (rq_replica areq) me =? RANSWER then transform_ack a else forward_ack a
    end.

(** ** Dispatch and connections *)

Definition handle (m : R_Message) : M unit :=
  match m with
  | R_Request_msg m => handle_request m
  | R_ACK_msg m => handle_ack m
  | R_Checkpoint_msg => ret tt
  | R_Unknown_msg => ret tt
  end.

Definition MAX_CONNECTIONS : Z := 4096.

(** [handle_new_connection], after [accept] and once the client's identifier is
    read: [dir] is the direction read, if there is one, [epoll_ok] the result of
    [epoll_ctl]. *)
Definition handle_new_connection (cid sock : Z) (dir : option Z) (epoll_ok : bool) : M unit :=
  modify (fun s => set_connectmap (base.delete cid (connectmap s)) s) ;;;
  match dir with
  | None => ret tt
  | Some d =>
    m <- gets connectmap ;;
    if (Z.of_nat (map_size m) <? MAX_CONNECTIONS) && (negb (d =? 111) || epoll_ok)
    then modify (set_connectmap (<[cid := sock]> m)) else ret tt
  end.

Definition initial (nid : Z) (sv : S) : state :=
  mk_state nid 0 0 (replicate (Z.to_nat num_principals) (mk_rrep 0 0 0 (-1) 0 [])) ∅ ∅ [] ∅ sv.

Inductive event := Deliver (m : R_Message) | Connect (cid sock : Z) (dir : option Z) (epoll_ok : bool).

Definition run_event (ev : event) : M unit :=
  match ev with
  | Deliver m => handle m
  | Connect cid sock dir ok => handle_new_connection cid sock dir ok
  end.

Fixpoint run (evs : list event) : M unit :=
  match evs with [] => ret tt | ev :: evs' => run_event ev ;;; run evs' end.
(** ** What a handler does *)

Definition executed (o : list R_output) : list R_Request :=
  omap (fun x => match x with R_Executed r => Some r | _ => None end) o.
Definition answers (o : list R_output) : list (Z * Z * R_Reply) :=
  omap (fun x => match x with R_Answer c k r => Some (c, k, r) | _ => None end) o.

Lemma r_executed_app o1 o2 : executed (o1 ++ o2) = executed o1 ++ executed o2.
Proof. apply omap_app. Qed.
Lemma r_answers_app o1 o2 : answers (o1 ++ o2) = answers o1 ++ answers o2.
Proof. apply omap_app. Qed.

Definition result_of (s : state) (q : R_Request) : S * list Z :=
  exec_command (service s) (rq_cid q) (rq_command q) (is_read_only q) (last_executed s).

(** The state after [q] is executed in [s]. *)
Definition after (q : R_Request) (s : state) : state :=
  mk_state (node_id s) (seqno s) (rq_seqno q)
    (<[Z.to_nat (rq_cid q) := mk_rrep (rq_rid q) (MD5_reply (result_of s q).2) (rq_seqno q) (zlen (result_of s q).2)
         (rq_replica q) (Replica.pad (result_of s q).2)]> (replies s))
    (latest_seen_rid s) (requests s) (pop_below (rq_seqno q) (execution_queue s)) (connectmap s) (result_of s q).1.

Definition head_is (n : Z) (q : list (Z * (Z * Z))) : bool := match q with x :: _ => x.1 =? n | [] => false end.

Lemma reply_run c s r : 0 <= c -> replies s !! Z.to_nat c = Some r -> reply c s = Done r s [].
Proof. intros Hc Hr. unfold reply, bind, gets. rewrite (proj2 (Z.ltb_ge _ _)), Hr by done. done. Qed.

Lemma execute_main_run q s r : 0 <= rq_cid q -> replies s !! Z.to_nat (rq_cid q) = Some r ->
  execute_request_main q s = Done tt
    (set_replies (replies (after q s)) (set_service (service (after q s)) s)) [R_Executed q].
Proof.
  intros Hc Hr. unfold execute_request_main, new_reply, end_reply, set_reply. unfold bind at 1. unfold bind at 1.
  rewrite (reply_run _ _ _ Hc Hr). cbn [modify gets bind].
  unfold bind, gets, modify, emit, assert_, ret. unfold after, result_of. cbn.
  destruct (exec_command (service s) (rq_cid q) (rq_command q) (is_read_only q) (last_executed s)) as [sv out]. cbn.
  unfold reply, bind, gets. rewrite (proj2 (Z.ltb_ge _ _)) by done. cbn.
  rewrite list_lookup_insert_eq by (by eapply lookup_lt_Some). cbn.
  by rewrite (Replica.take_pad out : take (Z.to_nat (zlen out)) (Replica.pad out) = out), list_insert_insert_eq.
Qed.

(** The whole of [execute_request]. *)
Lemma execute_request_run q s r : 0 <= rq_cid q -> replies s !! Z.to_nat (rq_cid q) = Some r ->
  execute_request q s =
    if rq_seqno q <=? last_executed s then Done execution_old s []
    else if rq_seqno q =? last_executed s + 1 then
      if head_is (rq_seqno q + 1) (execution_queue (after q s)) then Fault Hang
      else Done execution_ok (after q s) [R_Executed q]
    else if head_is (last_executed s + 1) (execution_queue s) then Fault Hang else Done execution_wait s [].
Proof.
  intros Hc Hr. unfold execute_request. unfold bind at 1, gets at 1.
  destruct (Z.leb_spec (rq_seqno q) (last_executed s)); [done|].
  destruct (Z.eqb_spec (rq_seqno q) (last_executed s + 1)) as [He|He].
  - unfold bind at 1. rewrite (execute_main_run q s r) by done.
    unfold bind, modify, gets, process_execution_queue, ret. unfold after. cbn.
    destruct (pop_below (rq_seqno q) (execution_queue s)) as [|x l] eqn:Eq; cbn; [done|].
    by destruct (x.1 =? rq_seqno q + 1).
  - unfold bind at 1, gets at 1. unfold process_execution_queue, bind, gets, head_is.
    destruct (execution_queue s) as [|x l] eqn:Eq; cbn; rewrite ?Eq; cbn.
    + rewrite (proj2 (Z.leb_gt _ _)), (proj2 (Z.eqb_neq _ _)) by lia. done.
    + destruct (x.1 =? last_executed s + 1) eqn:Ex; cbn; [|done]. unfold bind, gets. rewrite Eq. cbn. by rewrite Ex.
Qed.
(** ** The replica invariant *)

(** An entry other than that of [(0, 0)] holds the request of its key; it is not
    shared, has [my_rmid] unset, and is never acknowledged. *)
Record entry_ok (k : Z * Z) (m : R_Message_State) : Prop := {
  entry_req : exists q, ms_req m = Some q /\ (rq_cid q, rq_rid q) = k;
  entry_pos : ms_pos m = 0;
  entry_count : ms_refcount m = 1;
  entry_key : ms_my_rmid m = (0, 0);
  entry_state : ms_state m = state_pending \/ ms_state m = state_exec_not_acked
}.

Record inv (s : state) : Prop := {
  inv_replies : length (replies s) = Z.to_nat num_principals;
  inv_entries : forall k m, requests s !! k = Some m -> k <> (0, 0) -> entry_ok k m;
  inv_last : 0 <= last_executed s
}.

(** A client's identifier is that of a principal, and not 0, a replica's. *)
Definition client_ok (c : Z) : Prop := 0 < c < num_principals.

Lemma client_slot s c : inv s -> client_ok c -> exists x, replies s !! Z.to_nat c = Some x.
Proof. intros Hs [H0 H1]. apply lookup_lt_is_Some_2. rewrite (inv_replies _ Hs). lia. Qed.

Lemma client_key c r : client_ok c -> (c, r) <> (0, 0).
Proof. intros [? ?] [= ? ?]. lia. Qed.

(** *** Requests *)

Definition turn (s : state) (q : R_Request) : bool := is_sequenced q && (rq_seqno q =? last_executed s + 1).
Definition ran (q : R_Request) (s : state) : state := if turn s q then after q s else s.
Definition run_out (q : R_Request) (s : state) : list R_output := if turn s q then [R_Executed q] else [].

(** Executing [q] loops for ever: the next request, or one before [q], is queued. *)
Definition hangs (q : R_Request) (s : state) : bool :=
  is_sequenced q && negb (rq_seqno q <=? last_executed s) &&
  if turn s q then head_is (rq_seqno q + 1) (execution_queue (after q s)) else head_is (last_executed s + 1) (execution_queue s).

Lemma do_execute_run q s x : inv s -> 0 <= rq_cid q -> replies s !! Z.to_nat (rq_cid q) = Some x ->
  do_execute q s = if hangs q s then Fault Hang else Done tt (ran q s) (run_out q s).
Proof.
  intros Hs Hc Hx. pose proof (inv_last _ Hs). unfold do_execute, hangs, ran, run_out, turn.
  destruct (is_sequenced q); cbn; [|done]. unfold bind. rewrite (execute_request_run q s x Hc Hx).
  destruct (Z.leb_spec (rq_seqno q) (last_executed s)); cbn.
  - by rewrite (proj2 (Z.eqb_neq _ _)) by lia.
  - destruct (rq_seqno q =? last_executed s + 1); cbn; by destruct (head_is _ _).
Qed.

Definition entry_of (q : R_Request) (s : state) : R_Message_State :=
  mk_rms (Some q) 0 (if is_sequenced q && (rq_seqno q <=? last_executed s) then state_exec_not_acked else state_pending) 1 (0, 0) (0, 0).

(** The request is stored; replacing an entry removes the one of [(0, 0)]. *)
Definition created (q : R_Request) (s : state) : state :=
  let key := (rq_cid q, rq_rid q) in
  let m := if bool_decide (is_Some (requests s !! key)) then base.delete (0, 0) (requests s) else requests s in
  mk_state (node_id s) (seqno s) (last_executed s) (replies s) (latest_seen_rid s) (<[key := entry_of q s]> m)
    (if is_sequenced q && (last_executed s <? rq_seqno q) then push (rq_seqno q, key) (execution_queue s) else execution_queue s)
    (connectmap s) (service s).

Lemma rms_remove_run k m s : entry_ok k m -> rms_remove m s = Done tt (set_requests (base.delete (0, 0) (requests s)) s) [].
Proof.
  intros [_ Hp Hc Hk _]. unfold rms_remove, rms_remove_, bind, modify. rewrite Hc. cbn. rewrite Hp, Hk. done.
Qed.

Lemma create_state_run q s : inv s -> client_ok (rq_cid q) -> create_state_for_request q s = Done tt (created q s) [].
Proof.
  intros Hs Hc. unfold create_state_for_request, created. unfold bind at 1, gets. unfold bind at 1. unfold bind at 1.
  destruct (requests s !! (rq_cid q, rq_rid q)) as [old|] eqn:E.
  - rewrite bool_decide_true by done. unfold bind at 1. rewrite (rms_remove_run (rq_cid q, rq_rid q)) by (eapply inv_entries; [done|done|by apply client_key]).
    unfold modify, bind, ret. cbn. destruct (is_sequenced q && (last_executed s <? rq_seqno q)); cbn; by rewrite insert_insert_eq.
  - rewrite bool_decide_false by (by intros [? [=]]). unfold modify, bind, ret. cbn.
    by destruct (is_sequenced q && (last_executed s <? rq_seqno q)).
Qed.

(** Replica 0 gives the number: that of the stored reply if the request is the
    client's last one, else the next. *)
Definition numbered (s : state) (q : R_Request) (x : R_Reply) : R_Request :=
  if 0 =? node_id s then set_seqno_of (if rq_rid q <=? rp_rid x then rp_seqno x else seqno s + 1) q else q.
Definition counted (s : state) (q : R_Request) (x : R_Reply) : state :=
  if (0 =? node_id s) && negb (rq_rid q <=? rp_rid x) then set_seqno (seqno s + 1) s else s.

Lemma numbered_key s q x : rq_cid (numbered s q x) = rq_cid q /\ rq_rid (numbered s q x) = rq_rid q /\
  rq_replica (numbered s q x) = rq_replica q.
Proof. unfold numbered. by destruct (0 =? node_id s). Qed.

Lemma counted_same s q x : node_id (counted s q x) = node_id s /\ last_executed (counted s q x) = last_executed s /\
  replies (counted s q x) = replies s /\ requests (counted s q x) = requests s /\ service (counted s q x) = service s.
Proof. unfold counted. by destruct (_ && _). Qed.

Lemma counted_inv s q x : inv s -> inv (counted s q x).
Proof. intros [H1 H2 H3]. destruct (counted_same s q x) as (_ & E2 & E3 & E4 & _). constructor; rewrite ?E2, ?E3, ?E4; done. Qed.

Lemma assign_run s q x : 0 <= rq_cid q -> replies s !! Z.to_nat (rq_cid q) = Some x ->
  assign_sequence q s = Done (numbered s q x) (counted s q x) [].
Proof.
  intros Hc Hx. unfold assign_sequence, numbered, counted, get_seqno_for_request. unfold bind, gets.
  destruct (0 =? node_id s); [|done]. rewrite (reply_run _ _ _ Hc Hx). by destruct (rq_rid q <=? rp_rid x).
Qed.

Definition next_of (me : Z) (q : R_Request) : R_Message :=
  if distance (rq_replica q) me =? RANSWER then R_ACK_msg (ack_of q) else R_Request_msg q.

Lemma ran_inv q s : inv s -> inv (ran q s).
Proof.
  intros [H1 H2 H3]. unfold ran, turn. destruct (_ && _) eqn:E; [|done]. bsimp. constructor; cbn; [by rewrite length_insert|done|lia].
Qed.

(** The handler of requests. *)
Lemma handle_request_run q s x : inv s -> client_ok (rq_cid q) -> replies s !! Z.to_nat (rq_cid q) = Some x ->
  handle_request q s =
    if rq_rid q <? rp_rid x then Done tt s []
    else if hangs (numbered s q x) (counted s q x) then Fault Hang
    else Done tt (created (numbered s q x) (ran (numbered s q x) (counted s q x)))
           (run_out (numbered s q x) (counted s q x) ++ [R_Pass_on (next_of (node_id s) (numbered s q x))]).
Proof.
  intros Hs Hc Hx. destruct (numbered_key s q x) as (K1 & K2 & K3). pose proof (counted_inv s q x Hs) as Hs1.
  destruct (counted_same s q x) as (E1 & E2 & E3 & _). destruct Hc as [Hc0 Hc1].
  unfold handle_request. unfold bind at 1. rewrite (reply_run _ s x) by (done || lia).
  destruct (rq_rid q <? rp_rid x); [done|]. unfold bind at 1. rewrite (assign_run s q x) by (done || lia).
  set (q1 := numbered s q x) in *. set (s1 := counted s q x) in *.
  unfold bind at 1. rewrite (do_execute_run q1 s1 x) by (rewrite ?K1, ?E3; done || lia).
  destruct (hangs q1 s1); [done|]. unfold bind at 1. rewrite create_state_run; [|by apply ran_inv|by rewrite K1].
  unfold bind, gets, next_of.
  assert (Hn : node_id (created q1 (ran q1 s1)) = node_id s) by (unfold created, ran; cbn; destruct (turn s1 q1); exact E1).
  rewrite Hn. destruct (distance _ _ =? RANSWER); done.
Qed.
Lemma created_inv q s : inv s -> inv (created q s).
Proof.
  intros [H1 H2 H3]. constructor; [done| |done]. unfold created. cbn. intros k m Hk Hne.
  apply lookup_insert_Some in Hk as [[<- <-]|[Hk Hm]].
  - constructor; cbn; try done; [by exists q|]. destruct (_ && _); auto.
  - case_bool_decide; [|by eapply H2]. rewrite lookup_delete_ne in Hm by done. by eapply H2.
Qed.

(** *** Acknowledgements *)

Definition core (s : state) : Z * Z * Z * list R_Reply * S := (node_id s, seqno s, last_executed s, replies s, service s).

Lemma core_eq s s' : core s' = core s -> node_id s' = node_id s /\ seqno s' = seqno s /\ last_executed s' = last_executed s /\
  replies s' = replies s /\ service s' = service s.
Proof. unfold core. intros E. by simplify_eq. Qed.

(** An acknowledgement changes the entry of [(0, 0)] only, answers nobody, and
    executes at most the request it acknowledges, when its turn has come. *)
Definition ack_post (a : R_ACK) (s s' : state) (o : list R_output) : Prop :=
  (forall k, k <> (0, 0) -> requests s' !! k = requests s !! k) /\ answers o = [] /\
  (forall m, R_Pass_on m ∈ o -> m = R_ACK_msg a) /\
  (core s' = core s /\ executed o = [] \/
   exists m q, requests s !! (ra_cid a, ra_rid a) = Some m /\ ms_req m = Some q /\
     rq_seqno q = last_executed s + 1 /\ core s' = core (after q s) /\ executed o = [q]).

Lemma r_upgrade_ok q key st s x : inv s -> 0 <= rq_cid q -> replies s !! Z.to_nat (rq_cid q) = Some x ->
  wpe (eq Hang) (upgrade q key st) (fun _ s' o => requests s' = requests s /\
    (core s' = core s /\ o = [] \/ rq_seqno q = last_executed s + 1 /\ core s' = core (after q s) /\ o = [R_Executed q])) s.
Proof.
  intros Hs Hc Hx. unfold upgrade. case_decide as E; [|wpe_steps; auto]. wpe_step.
  unfold wpe at 1. rewrite (execute_request_run q s x Hc Hx). destruct (Z.leb_spec (rq_seqno q) (last_executed s)).
  { wpe_steps. auto. }
  destruct (Z.eqb_spec (rq_seqno q) (last_executed s + 1)) as [He|He].
  - destruct (head_is _ _); [done|]. wpe_steps. auto.
  - destruct (head_is _ _); [done|]. wpe_steps. auto.
Qed.

(** The last step of an acknowledgement: its own entry is not acknowledged. *)
Lemma pass_ack_ok (b : bool) a m s : requests s !! (ra_cid a, ra_rid a) = Some m ->
  R_State_value (ms_state m) < R_State_value state_acked ->
  exists o, (if b then transform_ack a else forward_ack a) s = Done tt s o /\ executed o = [] /\ answers o = [] /\
    forall x, R_Pass_on x ∈ o -> x = R_ACK_msg a.
Proof.
  intros Hm Hv. unfold transform_ack, forward_ack, bind, gets. destruct b.
  - rewrite Hm, (proj2 (Z.ltb_lt _ _)) by done. exists []. split; [done|]. split; [done|]. split; [done|]. intros x Hx. by apply elem_of_nil in Hx.
  - cbn. rewrite Hm, (proj2 (Z.ltb_lt _ _)) by done. exists [R_Pass_on (R_ACK_msg a)]. repeat (split; [done|]).
    intros x Hx. apply list_elem_of_singleton in Hx. congruence.
Qed.

Lemma handle_ack_ok a s : inv s -> client_ok (ra_cid a) ->
  wpe (eq Hang) (handle_ack a) (fun _ s' o => ack_post a s s' o) s.
Proof.
  intros Hs Hc. destruct (client_slot s _ Hs Hc) as [x Hx]. pose proof (client_key _ (ra_rid a) Hc) as Hk.
  assert (Hidle : forall l, ack_post a s (set_latest_seen_rid l s) []).
  { intros l. split; [done|]. split; [done|]. split; [by intros m ?%elem_of_nil|]. by left. }
  unfold handle_ack. wpe_step. unfold wpe at 1. rewrite (reply_run _ s x) by (done || unfold client_ok in Hc; lia).
  wpe_step. apply wp_wpe, wp_assert.
  { unfold client_ok in Hc. by rewrite (proj2 (Z.eqb_neq (ra_cid a) 0)), (proj2 (Z.eqb_neq (ra_cid a) (-1))) by lia. }
  wpe_steps. case_match; [by wpe_steps|]. wpe_steps. cbn.
  destruct (requests s !! (ra_cid a, ra_rid a)) as [m|] eqn:Hm; [|by wpe_steps].
  destruct (inv_entries _ Hs _ _ Hm Hk) as [(q & Hq & Hqk) _ _ Hkey Hst]. injection Hqk as Hqc Hqr.
  rewrite Hq, Hkey. wpe_steps. cbn. wpe_steps.
  eapply wpe_mono; [apply (r_upgrade_ok _ _ _ _ x); [|rewrite Hqc; unfold client_ok in Hc; lia|by rewrite Hqc]|].
  { destruct Hs as [H1 H2 H3]. constructor; try done. cbn. intros k m' Hm' Hne. rewrite lookup_insert_ne in Hm' by done. by eapply H2. }
  intros [st b] s1 o1 [Hreq Hcore]. wpe_steps. cbn.
  assert (Hm1 : <[(0, 0) := with_state st (default rms_default (requests s !! (0, 0)))]> (requests s1) !! (ra_cid a, ra_rid a) = Some m).
  { rewrite lookup_insert_ne, Hreq by done. cbn. by rewrite lookup_insert_ne. }
  rewrite bool_decide_true, andb_false_r by (by rewrite Hm1). wpe_steps.
  destruct (pass_ack_ok (distance (rq_replica q) (node_id s1) =? RANSWER) a m
    (set_requests (<[(0, 0) := with_state st (default rms_default (requests s !! (0, 0)))]> (requests s1)) s1) Hm1)
    as (o2 & Hrun & He & Ha & Hp); [by destruct Hst as [->| ->]|].
  unfold wpe. set (s2 := set_requests _ s1) in *; change (node_id s2) with (node_id s1). rewrite Hrun. cbn. split.
  { intros k Hne. cbn. rewrite lookup_insert_ne, Hreq by done. cbn. by rewrite lookup_insert_ne. }
  destruct Hcore as [[Hco ->]|(Hn & Hco & ->)]; (split; [exact Ha|]).
  - split; [done|]. left. by split.
  - split; [intros y Hy; apply elem_of_cons in Hy as [[=]|Hy]; by apply Hp|]. right. exists m, q. repeat (split; [done|]).
    by rewrite r_executed_app, He.
Qed.
(** ** Following a replica through its log *)

(** The service after the requests [L], each under its number. *)
Definition serve (sv : S) (L : list R_Request) : S :=
  foldl (fun v q => (exec_command v (rq_cid q) (rq_command q) (is_read_only q) (rq_seqno q - 1)).1) sv L.

(** The requests executed so far, from the service [sv], are [L]. *)
Record tracks (sv : S) (L : list R_Request) (s : state) : Prop := {
  tr_last : last_executed s = Z.of_nat (length L);
  tr_service : service s = serve sv L;
  tr_numbers : forall j q, L !! j = Some q -> rq_seqno q = Z.of_nat j + 1
}.

Lemma tracks_core sv L s s' : core s' = core s -> tracks sv L s -> tracks sv L s'.
Proof. intros (_ & _ & El & _ & Es)%core_eq [H1 H2 H3]. constructor; [congruence|congruence|done]. Qed.

Lemma tracks_after sv L s s' q : rq_seqno q = last_executed s + 1 -> core s' = core (after q s) ->
  tracks sv L s -> tracks sv (L ++ [q]) s'.
Proof.
  intros Hn (_ & _ & El & _ & Es)%core_eq [H1 H2 H3]. simpl in El, Es. constructor.
  - rewrite El, length_app. simpl. lia.
  - rewrite Es. unfold serve. rewrite foldl_snoc. unfold result_of. rewrite H2. do 2 f_equal. lia.
  - intros j r Hr. apply lookup_snoc_Some in Hr as [[_ Hr]|[-> <-]]; [by apply H3|]. lia.
Qed.

Lemma ran_core q s : core (created q (ran q s)) = core (ran q s).
Proof. done. Qed.

Lemma ran_tracks sv L q s : tracks sv L s -> tracks sv (L ++ executed (run_out q s)) (created q (ran q s)).
Proof.
  intros Ht. eapply tracks_core; [apply ran_core|]. unfold ran, run_out, turn.
  destruct (is_sequenced q && (rq_seqno q =? last_executed s + 1)) eqn:E; [|by rewrite app_nil_r].
  bsimp. by eapply tracks_after.
Qed.

Lemma pass_executed q s m : executed (run_out q s ++ [R_Pass_on m]) = executed (run_out q s).
Proof. rewrite r_executed_app. apply app_nil_r. Qed.

Lemma run_out_mute q s m : answers (run_out q s ++ [R_Pass_on m]) = [].
Proof. unfold run_out. by destruct (turn s q). Qed.

Lemma ack_inv a s s' o : inv s -> ack_post a s s' o -> inv s'.
Proof.
  intros [H1 H2 H3] (Hr & _ & _ & Hc).
  assert (Hl : length (replies s') = length (replies s) /\ 0 <= last_executed s').
  { destruct Hc as [[(_ & _ & El & Er & _)%core_eq _]|(m & q & _ & _ & Hn & (_ & _ & El & Er & _)%core_eq & _)].
    - by rewrite El, Er.
    - rewrite El, Er. simpl. rewrite length_insert. split; [done|lia]. }
  constructor; [by rewrite (proj1 Hl)| |apply Hl]. intros k m Hk Hne. rewrite Hr in Hk by done. by eapply H2.
Qed.

Lemma ack_tracks sv L a s s' o : ack_post a s s' o -> tracks sv L s -> tracks sv (L ++ executed o) s'.
Proof.
  intros (_ & _ & _ & Hc) Ht. destruct Hc as [[Hc ->]|(m & q & _ & _ & Hn & Hc & ->)].
  - rewrite app_nil_r. by eapply tracks_core.
  - by eapply tracks_after.
Qed.

Definition event_ok (ev : event) : Prop :=
  match ev with
  | Deliver (R_Request_msg m) => client_ok (rq_cid m)
  | Deliver (R_ACK_msg m) => client_ok (ra_cid m)
  | _ => True
  end.

Lemma r_run_event_ok ev s : inv s -> event_ok ev ->
  wpe (eq Hang) (run_event ev) (fun _ s' o => inv s' /\ answers o = [] /\
    forall sv L, tracks sv L s -> tracks sv (L ++ executed o) s') s.
Proof.
  intros Hs Hev. assert (Hsame : forall s', core s' = core s -> requests s' = requests s ->
    inv s' /\ answers [] = [] /\ forall sv L, tracks sv L s -> tracks sv (L ++ executed []) s').
  { intros s' Hc Hr. split; [|split; [done|]].
    - destruct Hs as [H1 H2 H3]. apply core_eq in Hc as (_ & _ & El & Er & _). constructor; rewrite ?El, ?Er, ?Hr; done.
    - intros sv L Ht. rewrite app_nil_r. by eapply tracks_core. }
  destruct ev as [[q|a| |]|c k dir ok]; simpl in *.
  - destruct (client_slot s _ Hs Hev) as [x Hx]. unfold wpe. rewrite (handle_request_run q s x Hs Hev Hx).
    destruct (rq_rid q <? rp_rid x); [by apply Hsame|]. destruct (hangs _ _); [done|]. rewrite run_out_mute.
    split; [by apply created_inv, ran_inv, counted_inv|]. split; [done|]. intros sv L Ht. rewrite pass_executed. apply ran_tracks.
    destruct (counted_same s q x) as (_ & El & _ & _ & Es). destruct Ht. constructor; rewrite ?El, ?Es; done.
  - eapply wpe_mono; [by apply handle_ack_ok|]. intros [] s' o Hp. split; [by eapply ack_inv|]. split; [apply Hp|].
    intros sv L. by apply (ack_tracks sv L a).
  - by apply Hsame.
  - by apply Hsame.
  - unfold handle_new_connection. wpe_steps. destruct dir as [d|]; [|by apply Hsame]. wpe_steps.
    case_match; by apply Hsame.
Qed.

Lemma r_run_ok evs : Forall event_ok evs -> forall s, inv s ->
  wpe (eq Hang) (run evs) (fun _ s' o => inv s' /\ answers o = [] /\
    forall sv L, tracks sv L s -> tracks sv (L ++ executed o) s') s.
Proof.
  induction 1 as [|ev evs Hev _ IH]; intros s Hs; simpl.
  - split; [done|]. split; [done|]. intros sv L. by rewrite app_nil_r.
  - wpe_step. eapply wpe_mono; [by apply r_run_event_ok|]. intros [] s1 o1 (Hs1 & Ha1 & Ht1).
    eapply wpe_mono; [by apply IH|]. intros [] s2 o2 (Hs2 & Ha2 & Ht2). split; [done|].
    split; [by rewrite r_answers_app, Ha1, Ha2|]. intros sv L Ht. rewrite r_executed_app, app_assoc. auto.
Qed.

Lemma r_initial_inv nid sv : inv (initial nid sv).
Proof. constructor; simpl; [by rewrite length_replicate|intros k m Hk; by rewrite lookup_empty in Hk|done]. Qed.

Lemma r_initial_tracks nid sv : tracks sv [] (initial nid sv).
Proof. by constructor. Qed.

Lemma r_run_initial evs nid sv : Forall event_ok evs ->
  wpe (eq Hang) (run evs) (fun _ s' o => answers o = [] /\ tracks sv (executed o) s') (initial nid sv).
Proof.
  intros Hok. eapply wpe_mono; [apply r_run_ok; [done|apply r_initial_inv]|]. intros [] s o (_ & Ha & Ht).
  split; [done|]. apply (Ht sv []), r_initial_tracks.
Qed.

(** A Ring replica executes requests in the order of their numbers, without a
    gap: after any sequence of messages and connections with identifiers of
    clients, the requests executed carry the numbers 1, 2, 3, ..., their count is
    [last_executed], and the service is the result of exactly them.  No handler
    fails an assertion or accesses a table out of bounds; the only fault is the
    loop of [process_execution_queue] that does not end. *)
Theorem ring_in_order evs nid sv : Forall event_ok evs ->
  match run evs (initial nid sv) with
  | Done _ s o => last_executed s = Z.of_nat (length (executed o)) /\
      (forall j q, executed o !! j = Some q -> rq_seqno q = Z.of_nat j + 1) /\ service s = serve sv (executed o)
  | Fault e => e = Hang
  end.
Proof.
  intros Hok. pose proof (r_run_initial evs nid sv Hok) as H. unfold wpe in H.
  destruct (run evs _) as [u s o|e]; [|done]. destruct H as [_ [H1 H2 H3]]. done.
Qed.

(** A new request that comes in its turn is executed at once, under the next
    number, its result is stored as the client's reply, and it goes on to the next
    replica, or back as an acknowledgement at the end of the round: at replica 0,
    which numbers it, and at the others when it carries the next number. *)
Theorem ring_executes q s x : inv s -> client_ok (rq_cid q) -> replies s !! Z.to_nat (rq_cid q) = Some x ->
  rp_rid x < rq_rid q -> execution_queue s = [] ->
  (node_id s = 0 -> seqno s = last_executed s) -> (node_id s <> 0 -> rq_seqno q = last_executed s + 1) ->
  exists s' r, let q1 := set_seqno_of (last_executed s + 1) q in
    handle (R_Request_msg q) s = Done tt s' [R_Executed q1; R_Pass_on (next_of (node_id s) q1)] /\
    last_executed s' = last_executed s + 1 /\ execution_queue s' = [] /\
    replies s' !! Z.to_nat (rq_cid q) = Some r /\ rp_rid r = rq_rid q /\ rp_seqno r = last_executed s + 1 /\
    take (Z.to_nat (rp_size r)) (rp_body r) =
      (exec_command (service s) (rq_cid q) (rq_command q) (is_read_only q) (last_executed s)).2.
Proof.
  intros Hs Hc Hx Hrid Hq H0 Hi. pose proof (inv_last _ Hs) as Hl.
  assert (Hnum : numbered s q x = set_seqno_of (last_executed s + 1) q).
  { unfold numbered. destruct (Z.eqb_spec 0 (node_id s)) as [E|E].
    - rewrite (proj2 (Z.leb_gt _ _)), H0 by (done || lia). done.
    - rewrite <- (Hi (not_eq_sym E)). by destruct q. }
  assert (Hturn : turn (counted s q x) (set_seqno_of (last_executed s + 1) q) = true).
  { unfold turn, is_sequenced. destruct (counted_same s q x) as (_ & -> & _). cbn.
    rewrite (proj2 (Z.eqb_neq _ _)), Z.eqb_refl by lia. done. }
  assert (Hqueue : execution_queue (counted s q x) = []) by (unfold counted; by destruct (_ && _)).
  eexists _, _. cbv zeta. cbn [handle]. rewrite (handle_request_run q s x Hs Hc Hx), (proj2 (Z.ltb_ge _ _)), Hnum by lia.
  assert (Hhang : hangs (set_seqno_of (last_executed s + 1) q) (counted s q x) = false).
  { unfold hangs. rewrite Hturn. cbn. rewrite Hqueue. apply andb_false_r. }
  rewrite Hhang. unfold ran, run_out. rewrite Hturn. split; [done|].
  destruct (counted_same s q x) as (_ & El & Er & _ & Es). cbn. unfold result_of. rewrite El, Er, Es, Hqueue. cbn.
  rewrite Z.ltb_irrefl, andb_false_r. repeat (split; [done|]).
  rewrite list_lookup_insert_eq by (by eapply lookup_lt_Some). split; [done|]. cbn. split; [done|]. split; [done|].
  apply (Replica.take_pad (exec_command (service s) (rq_cid q) (rq_command q) (is_read_only q) (last_executed s)).2).
Qed.

(** A request that arrives before its predecessor makes the replica hang: once the
    one with the number after next is queued, the arrival of the next one starts
    the empty loop of [process_execution_queue]. *)
Theorem reorder_hangs q1 q2 s x1 x2 : inv s -> node_id s <> 0 -> execution_queue s = [] ->
  client_ok (rq_cid q1) -> replies s !! Z.to_nat (rq_cid q1) = Some x1 -> rp_rid x1 <= rq_rid q1 ->
  client_ok (rq_cid q2) -> replies s !! Z.to_nat (rq_cid q2) = Some x2 -> rp_rid x2 <= rq_rid q2 ->
  rq_seqno q1 = last_executed s + 1 -> rq_seqno q2 = last_executed s + 2 ->
  run [Deliver (R_Request_msg q2); Deliver (R_Request_msg q1)] s = Fault Hang.
Proof.
  intros Hs Hn Hq Hc1 Hx1 Hr1 Hc2 Hx2 Hr2 Hs1 Hs2. pose proof (inv_last _ Hs) as Hl.
  assert (Hn0 : forall s' q x, node_id s' = node_id s -> numbered s' q x = q /\ counted s' q x = s').
  { intros s' q x E. unfold numbered, counted. rewrite E, (proj2 (Z.eqb_neq _ _)) by lia. done. }
  destruct (Hn0 s q2 x2 eq_refl) as [En Ec]. cbn [run run_event handle]. unfold bind at 1.
  rewrite (handle_request_run q2 s x2 Hs Hc2 Hx2), (proj2 (Z.ltb_ge _ _)), En, Ec by lia.
  assert (Ht2 : turn s q2 = false) by (unfold turn; rewrite (proj2 (Z.eqb_neq _ _)) by lia; apply andb_false_r).
  assert (Hh2 : hangs q2 s = false) by (unfold hangs; rewrite Ht2, Hq; apply andb_false_r).
  rewrite Hh2. unfold ran, run_out. rewrite Ht2. set (s2 := created q2 s).
  destruct (Hn0 s2 q1 x1 eq_refl) as [En1 Ec1]. cbn [app].
  unfold bind. rewrite (handle_request_run q1 s2 x1 (created_inv q2 s Hs) Hc1 Hx1), (proj2 (Z.ltb_ge _ _)), En1, Ec1 by lia.
  assert (Hh1 : hangs q1 s2 = true); [|by rewrite Hh1].
  assert (Hq2 : execution_queue s2 = [(rq_seqno q2, (rq_cid q2, rq_rid q2))]).
  { unfold s2, created, is_sequenced. cbn. rewrite Hq, (proj2 (Z.eqb_neq _ _)), (proj2 (Z.ltb_lt _ _)) by lia. done. }
  assert (Hl2 : last_executed s2 = last_executed s) by done. clearbody s2. unfold hangs, turn, is_sequenced.
  rewrite Hl2, Hs1, Z.eqb_refl, (proj2 (Z.eqb_neq _ _)), (proj2 (Z.leb_gt _ _)) by lia. cbn. rewrite Hq2. cbn.
  rewrite (proj2 (Z.ltb_ge _ _)) by lia. cbn. apply Z.eqb_eq. lia.
Qed.
End ring.
End Ring.

(** ** Replicas of a group of four, clients 4 to 7 *)

Module RExample.
Import Ring.

Definition r_service (sv : list Z) (c : Z) (cmd : list Z) (ro : bool) (n : Z) : list Z * list Z := (sv ++ cmd, cmd).
Definition r_md5 (l : list Z) : Z := foldr Z.add 0 l.
(** The request [r] of client [c], entering at replica [c mod 4]. *)
Definition r_req (n c r : Z) : R_Request := mk_rreq 0 7 n c r (c mod 4) [c; r].
Definition r_ack (n c r : Z) : R_ACK := ack_of (r_req n c r).

Abbreviation run_r := (run 4 r_md5 r_service).
Abbreviation init_r nid := (initial 8 nid (@nil Z)).

(** Replica 3 gets the requests of number 1, of 2, the one of 1 again, and the
    acknowledgements of both. *)
Definition r_trace : list event :=
  [Connect 4 20 (Some 105) true; Deliver (R_Request_msg (r_req 1 4 1)); Deliver (R_Request_msg (r_req 2 4 2));
   Deliver (R_Request_msg (r_req 1 4 1)); Deliver (R_ACK_msg (r_ack 1 4 1)); Deliver (R_ACK_msg (r_ack 2 4 2))].

Lemma r_trace_ok : Forall (event_ok 8) r_trace.
Proof. repeat constructor. Qed.

Lemma ring_in_order_witness :
  exists s o, run_r r_trace (init_r 3) = Done tt s o /\ last_executed s = 2 /\ executed o = [r_req 1 4 1; r_req 2 4 2] /\
    service s = [4; 1; 4; 2].
Proof.
  pose proof (ring_in_order 4 8 r_md5 r_service r_trace 3 [] r_trace_ok) as H.
  destruct (run_r r_trace (init_r 3)) as [[] s o|e] eqn:E; [|vm_compute in E; discriminate].
  destruct H as (Hl & _ & Hs). exists s, o. split; [done|].
  assert (He : executed o = [r_req 1 4 1; r_req 2 4 2]) by (vm_compute in E; injection E as _ <-; reflexivity).
  rewrite He in Hl, Hs. split; [exact Hl|]. split; [exact He|exact Hs].
Defined.


Lemma r_client c : 0 < c < 8 -> client_ok 8 c.
Proof. done. Qed.

Lemma ring_executes_witness :
  exists s' r, handle 4 r_md5 r_service (R_Request_msg (r_req 0 5 1)) (init_r 0) =
      Done tt s' [R_Executed (r_req 1 5 1); R_Pass_on (R_ACK_msg (r_ack 1 5 1))] /\
    last_executed s' = 1 /\ replies s' !! 5%nat = Some r /\ rp_rid r = 1 /\ take (Z.to_nat (rp_size r)) (rp_body r) = [5; 1].
Proof.
  destruct (ring_executes 4 8 r_md5 r_service (r_req 0 5 1) (init_r 0) (mk_rrep 0 0 0 (-1) 0 [])
    (r_initial_inv 8 0 []) (r_client 5 ltac:(lia)) eq_refl ltac:(simpl; lia) eq_refl (fun _ => eq_refl) ltac:(done))
    as (s' & r & Hh & Hl & _ & Hr & Hrid & _ & Hb).
  exists s', r. split; [exact Hh|]. split; [exact Hl|]. split; [exact Hr|]. split; [exact Hrid|exact Hb].
Defined.

Lemma reorder_hangs_witness :
  run_r [Deliver (R_Request_msg (r_req 2 4 2)); Deliver (R_Request_msg (r_req 1 5 1))] (init_r 2) = Fault Hang.
Proof.
  apply (reorder_hangs 4 8 r_md5 r_service (r_req 1 5 1) (r_req 2 4 2) (init_r 2) (mk_rrep 0 0 0 (-1) 0 []) (mk_rrep 0 0 0 (-1) 0 []));
    [apply r_initial_inv|discriminate|reflexivity|apply r_client; vm_compute; split; reflexivity|reflexivity|discriminate
    |apply r_client; vm_compute; split; reflexivity|reflexivity|discriminate|reflexivity|reflexivity].
Defined.
End RExample.
