(* ===== verification/RingGroup.v ===== *)
(** * A Ring group

    Replicas of [Ring] in a ring: what a replica passes on reaches its successor,
    at any later time and possibly more than once.  A client sends its requests,
    without a number and with one command for an identifier, to the replica
    [cid % num_replicas].

    The theorems: the requests a replica has executed are a prefix of those of
    replica 0, under the same numbers, and none is executed twice.  But a request
    that does not enter at replica 0 has no number when the replicas from its entry
    on see it, and its acknowledgement does not give them one: they never execute
    it, nor any request after it. *)

From stdpp Require Import gmap.
From S2P Require Import Prelude Effects Bytes ZlReplica Ring.
Local Open Scope Z_scope.

Module RingGroup.
Import Ring.
Section group.
Context {S : Type}.
Context (num_replicas num_principals : Z) (MD5_reply : list Z -> Z).
Context (exec_command : S -> Z -> list Z -> bool -> Z -> S * list Z).
(** The request a client sends under an identifier. *)
Context (sent : Z -> Z -> R_Request).

Local Abbreviation state := (@state S).
Local Abbreviation run_event := (run_event num_replicas MD5_reply exec_command).
Local Abbreviation inv := (inv num_principals).
Local Abbreviation tracks := (tracks exec_command).
Local Abbreviation after := (after MD5_reply exec_command).
Local Abbreviation ran := (ran MD5_reply exec_command).
Local Abbreviation event_ok := (event_ok num_principals).

Record system := mk_system { nodes : list state; logs : list (list R_Request); net : list (nat * R_output) }.

Definition start (sv : S) : system :=
  mk_system ((fun i => initial num_principals i sv) <$> seqZ 0 num_replicas) (replicate (Z.to_nat num_replicas) []) [].

Definition fire (x : system) (i : nat) (ev : event) : option system :=
  s ← nodes x !! i; l ← logs x !! i;
  match run_event ev s with
  | Done _ s' o => Some (mk_system (<[i := s']> (nodes x)) (<[i := l ++ executed o]> (logs x)) (net x ++ (pair i <$> o)))
  | Fault _ => None
  end.

(** A message that can reach the replica [i]. *)
Inductive reaches (x : system) (i : nat) : R_Message -> Prop :=
| from_client c r : client_ok num_principals c -> Z.of_nat i = c mod num_replicas -> reaches x i (R_Request_msg (sent c r))
| from_predecessor j m : (j, R_Pass_on m) ∈ net x -> Z.of_nat i = (Z.of_nat j + 1) mod num_replicas -> reaches x i m
| unknown : reaches x i R_Unknown_msg.

Inductive step (x y : system) : Prop :=
| step_deliver i m : reaches x i m -> event_ok (Deliver m) -> fire x i (Deliver m) = Some y -> step x y
| step_connect i c k dir ok : fire x i (Connect c k dir ok) = Some y -> step x y.

Context (group : 0 < num_replicas).
Context (sent_ok : forall c r, rq_cid (sent c r) = c /\ rq_rid (sent c r) = r /\ rq_seqno (sent c r) = 0 /\
  rq_replica (sent c r) = c mod num_replicas).

(** ** The group invariant *)

Section agreement.
Context (sv : S).

(** A request at node [i], when replica 0 has executed [P]: it is a client's, and if
    it has a number it is the one of [P] under it, and has passed replica 0 but
    not yet reached its entry again. *)
Definition genuine (P : list R_Request) (i : nat) (q : R_Request) : Prop :=
  q = set_seqno_of (rq_seqno q) (sent (rq_cid q) (rq_rid q)) /\
  (rq_seqno q = 0 \/
   0 < rq_seqno q /\ P !! Z.to_nat (rq_seqno q - 1) = Some q /\
   (i = 0%nat \/ rq_replica q = 0 \/ Z.of_nat i < rq_replica q)).

Lemma rg_genuine_app P P' i q : genuine P i q -> genuine (P ++ P') i q.
Proof. intros [Hq [H0|(H1 & H2 & H3)]]; (split; [done|]); [by left|right]. split; [done|]. split; [by apply lookup_app_l_Some|done]. Qed.

(** What replica 0 keeps of its clients. *)
Record slots_ok (P : list R_Request) (l : list R_Reply) : Prop := {
  slot_last : forall c x, l !! c = Some x -> rp_seqno x = 0 \/
    0 < rp_seqno x /\ P !! Z.to_nat (rp_seqno x - 1) = Some (set_seqno_of (rp_seqno x) (sent (Z.of_nat c) (rp_rid x)));
  slot_max : forall q, q ∈ P -> exists x, l !! Z.to_nat (rq_cid q) = Some x /\ 0 <= rq_cid q /\ rq_rid q <= rp_rid x
}.

Record node_ok (P : list R_Request) (i : nat) (L : list R_Request) (s : state) : Prop := {
  node_inv : inv s;
  node_id_ok : node_id s = Z.of_nat i;
  node_tracks : tracks sv L s;
  node_log : Forall (genuine P i) L;
  node_entries : forall k m q, requests s !! k = Some m -> k <> (0, 0) -> ms_req m = Some q -> genuine P i q;
  node_zero : i = 0%nat -> L = P /\ seqno s = Z.of_nat (length P) /\ slots_ok P (replies s)
}.

(** What a replica has passed on is genuine at its successor. *)
Definition sent_on (P : list R_Request) (p : nat * R_output) : Prop :=
  match p with
  | (j, R_Pass_on (R_Request_msg q)) => forall i, Z.of_nat i = (Z.of_nat j + 1) mod num_replicas -> genuine P i q
  | _ => True
  end.

Record group_ok (x : system) : Prop := {
  grp_nodes : length (nodes x) = Z.to_nat num_replicas;
  grp_logs : length (logs x) = Z.to_nat num_replicas;
  grp_all : exists P, logs x !! 0%nat = Some P /\
    (forall i s L, nodes x !! i = Some s -> logs x !! i = Some L -> node_ok P i L s) /\
    Forall (sent_on P) (net x) /\ NoDup ((fun q => (rq_cid q, rq_rid q)) <$> P)
}.
Lemma set_seqno_same q : set_seqno_of (rq_seqno q) q = q.
Proof. by destruct q. Qed.

Lemma sent_genuine P i c r : genuine P i (sent c r).
Proof.
  destruct (sent_ok c r) as (Hc & Hr & Hs & _). split; [by rewrite Hc, Hr, set_seqno_same|by left].
Qed.

Lemma genuine_renumber P i q n : genuine P i q -> set_seqno_of n q = set_seqno_of n (sent (rq_cid q) (rq_rid q)).
Proof. intros [Hq _]. rewrite Hq at 1. done. Qed.

Lemma genuine_replica P i q : genuine P i q -> rq_replica q = rq_cid q mod num_replicas.
Proof. intros [Hq _]. rewrite Hq at 1. cbn. apply sent_ok. Qed.

(** A request that is not turned into an acknowledgement goes on to the next node. *)
Lemma genuine_next P j i q : genuine P j q -> Z.of_nat j < num_replicas -> Z.of_nat i = (Z.of_nat j + 1) mod num_replicas ->
  next_of num_replicas (Z.of_nat j) q = R_Request_msg q -> genuine P i q.
Proof.
  intros Hg Hj Hi Hnext. pose proof (genuine_replica _ _ _ Hg) as He. destruct Hg as [Hq Hs]. split; [done|].
  destruct Hs as [H0|(H1 & H2 & H3)]; [by left|right]. split; [done|]. split; [done|].
  pose proof (Z.mod_pos_bound (rq_cid q) num_replicas group) as Hb. rewrite <- He in Hb.
  destruct (decide (rq_replica q = 0)); [by right; left|].
  destruct (decide (Z.of_nat j + 1 = num_replicas)) as [Ej|Ej].
  { left. rewrite Ej, Z.mod_same in Hi by lia. lia. }
  rewrite Z.mod_small in Hi by lia. right. right. unfold next_of, distance, RANSWER in Hnext.
  destruct (Z.eqb_spec (Z.rem (Z.of_nat j - rq_replica q + num_replicas) num_replicas) (num_replicas - 1)) as [|Hd]; [done|].
  rewrite Z.rem_small in Hd by lia. lia.
Qed.

Lemma node_mono P P' i L s : i <> 0%nat -> node_ok P i L s -> node_ok (P ++ P') i L s.
Proof.
  intros Hi [H1 H2 H3 H4 H5 _]. constructor; try done.
  - eapply Forall_impl; [exact H4|]. intros q. apply rg_genuine_app.
  - intros k m q Hk Hne Hq. by eapply rg_genuine_app, H5.
Qed.

Lemma sent_on_app P P' p : sent_on P p -> sent_on (P ++ P') p.
Proof. destruct p as [j [r|[q|a| |]|]]; try done. simpl. intros H i Hi. by apply rg_genuine_app, H. Qed.

(** The log of replica 0 grows when replica 0 executes. *)
Definition grown (i : nat) (P E : list R_Request) : list R_Request := if decide (i = 0%nat) then P ++ E else P.

Lemma rg_grown_prefix i P E : exists P', grown i P E = P ++ P'.
Proof. unfold grown. case_decide; [by eexists|]. exists []. by rewrite app_nil_r. Qed.

Definition keys (P : list R_Request) : list (Z * Z) := (fun q => (rq_cid q, rq_rid q)) <$> P.

(** What a step of node [i] establishes. *)
Definition stepped (P : list R_Request) (i : nat) (L : list R_Request) (s' : state) (o : list R_output) : Prop :=
  node_ok (grown i P (executed o)) i (L ++ executed o) s' /\ Forall (sent_on (grown i P (executed o))) (pair i <$> o) /\
  NoDup (keys (grown i P (executed o))).

Lemma entries_created P i q (s s1 : state) : requests s1 = requests s -> genuine P i q ->
  (forall k m q, requests s !! k = Some m -> k <> (0, 0) -> ms_req m = Some q -> genuine P i q) ->
  forall k m q', requests (created q s1) !! k = Some m -> k <> (0, 0) -> ms_req m = Some q' -> genuine P i q'.
Proof.
  intros Hr Hg He k m q' Hk Hne Hq. unfold created in Hk. cbn in Hk. rewrite Hr in Hk.
  apply lookup_insert_Some in Hk as [[_ <-]|[_ Hk]]; [cbn in Hq; by injection Hq as <-|].
  case_bool_decide; [rewrite lookup_delete_ne in Hk by done|]; by eapply He.
Qed.

Lemma sent_on_out P j q (s : state) : genuine P j q -> Z.of_nat j < num_replicas ->
  Forall (sent_on P) (pair j <$> run_out q s ++ [R_Pass_on (next_of num_replicas (Z.of_nat j) q)]).
Proof.
  intros Hg Hj. rewrite fmap_app. apply Forall_app. split; [unfold run_out; destruct (turn s q); by repeat constructor|].
  constructor; [|constructor]. destruct (next_of num_replicas (Z.of_nat j) q) as [q'|a| |] eqn:E; try done.
  intros i Hi. assert (q' = q) as -> by (unfold next_of in E; destruct (_ =? _); congruence). by eapply genuine_next.
Qed.

(** *** A request at replica 0 *)

(** A request above the last of its client is new. *)
Lemma fresh_key P l c x r : slots_ok P l -> l !! Z.to_nat c = Some x -> rp_rid x < r -> (c, r) ∉ keys P.
Proof.
  intros [_ Hm] Hx Hr Hin. apply list_elem_of_fmap in Hin as (q & [= -> ->] & Hq).
  destruct (Hm q Hq) as (y & Hy & _ & Hle). rewrite Hx in Hy. injection Hy as <-. lia.
Qed.

(** Executing the next request of a client at replica 0. *)
Lemma slots_execute P l q x y : slots_ok P l -> l !! Z.to_nat (rq_cid q) = Some x -> 0 <= rq_cid q -> rp_rid x <= rq_rid q ->
  q = set_seqno_of (rq_seqno q) (sent (rq_cid q) (rq_rid q)) -> rq_seqno q = Z.of_nat (length P) + 1 ->
  rp_rid y = rq_rid q -> rp_seqno y = rq_seqno q -> slots_ok (P ++ [q]) (<[Z.to_nat (rq_cid q) := y]> l).
Proof.
  intros [H1 H2] Hx Hc Hr Hq Hn Hy Hs. pose proof (lookup_lt_Some _ _ _ Hx) as Hlt. constructor.
  - intros c z Hz. apply list_lookup_insert_Some in Hz as [(<- & <- & _)|[Hne Hz]].
    + right. rewrite Hs, Hy, Z2Nat.id, <- Hq by done. split; [lia|]. rewrite Hn.
      replace (Z.to_nat _) with (length P) by lia. by apply list_lookup_middle.
    + destruct (H1 c z Hz) as [|[? ?]]; [by left|right]. split; [done|]. by apply lookup_app_l_Some.
  - intros z Hz. destruct (decide (Z.to_nat (rq_cid z) = Z.to_nat (rq_cid q))) as [E|E].
    + exists y. rewrite E, list_lookup_insert_eq by done. split; [done|]. rewrite Hy.
      apply elem_of_app in Hz as [Hz|Hz]; [|apply list_elem_of_singleton in Hz as ->; lia].
      destruct (H2 z Hz) as (w & Hw & ? & ?). rewrite E, Hx in Hw. injection Hw as <-. lia.
    + apply elem_of_app in Hz as [Hz|Hz]; [|by apply list_elem_of_singleton in Hz as ->].
      rewrite list_lookup_insert_ne by done. auto.
Qed.

(** What replica 0 makes of a request, before it stores it. *)
Lemma zero_request P L (s : state) q x : node_ok P 0 L s -> NoDup (keys P) -> genuine P 0 q -> 0 <= rq_cid q ->
  replies s !! Z.to_nat (rq_cid q) = Some x -> rp_rid x <= rq_rid q ->
  let q1 := numbered s q x in let s1 := counted s q x in let P' := P ++ executed (run_out q1 s1) in
  genuine P' 0 q1 /\ NoDup (keys P') /\ seqno s1 = Z.of_nat (length P') /\ slots_ok P' (replies (ran q1 s1)).
Proof.
  intros [_ Hid [Hlast _ _] _ _ Hz] Hnd Hg Hc Hx Hr q1 s1 P'. destruct (Hz eq_refl) as (-> & Hseq & Hslots).
  destruct (counted_same s q x) as (_ & El & Er & _ & _). fold s1 in El, Er.
  assert (E1 : q1 = set_seqno_of (rq_seqno q1) (sent (rq_cid q1) (rq_rid q1))).
  { unfold q1, numbered. rewrite Hid. exact (genuine_renumber P 0 q _ Hg). }
  assert (K : rq_cid q1 = rq_cid q /\ rq_rid q1 = rq_rid q) by (by destruct (numbered_key s q x) as (? & ? & _)).
  destruct K as [K1 K2].
  destruct (Z.leb_spec (rq_rid q) (rp_rid x)) as [Hle|Hgt].
  - assert (Hs1 : s1 = s) by (unfold s1, counted; rewrite (proj2 (Z.leb_le _ _)), andb_false_r by done; done).
    assert (Hn : rq_seqno q1 = rp_seqno x) by (unfold q1, numbered; rewrite Hid; cbn; rewrite (proj2 (Z.leb_le _ _)) by done; done).
    destruct (slot_last _ _ Hslots _ _ Hx) as [H0|[Hp Hl]].
    + assert (Ht : turn s1 q1 = false) by (unfold turn, is_sequenced; rewrite Hn, H0; done).
      unfold P', run_out, ran. rewrite Ht, Hs1, app_nil_r. repeat (split; [done || (split; [done|]; left; congruence)|]). done.
    + assert (Ht : turn s1 q1 = false).
      { unfold turn. apply lookup_lt_Some in Hl. rewrite (proj2 (Z.eqb_neq _ _)), andb_false_r; [done|]. rewrite Hs1, Hlast. lia. }
      unfold P', run_out, ran. rewrite Ht, Hs1, app_nil_r. split; [|done]. split; [done|]. right. rewrite Hn. split; [done|].
      split; [|by left]. rewrite Hl, E1, Hn, K1, K2, Z2Nat.id by done. do 3 f_equal. lia.
  - assert (Hs1 : seqno s1 = seqno s + 1) by (unfold s1, counted; rewrite Hid, (proj2 (Z.leb_gt _ _)) by done; done).
    assert (Hn : rq_seqno q1 = Z.of_nat (length P) + 1).
    { unfold q1, numbered. rewrite Hid. cbn. rewrite (proj2 (Z.leb_gt _ _)), Hseq by done. done. }
    assert (Ht : turn s1 q1 = true).
    { unfold turn, is_sequenced. rewrite Hn, El, Hlast, Z.eqb_refl, (proj2 (Z.eqb_neq _ _)) by lia. done. }
    unfold P', run_out, ran. rewrite Ht. cbn [executed omap list_omap]. split_and!.
    + split; [done|]. right. rewrite Hn. split; [lia|]. split; [|by left].
      replace (Z.to_nat _) with (length P) by lia. by apply list_lookup_middle.
    + unfold keys. rewrite fmap_app. apply NoDup_app. split; [done|]. split; [|apply NoDup_singleton].
      intros k Hk ->%list_elem_of_singleton. rewrite K1, K2 in Hk. revert Hk. by eapply fresh_key.
    + rewrite length_app. simpl. lia.
    + cbn. rewrite Er. eapply slots_execute; rewrite ?K1, ?K2; [done..| | | | |done]; try done; rewrite <- ?K1, <- ?K2; done || lia.
Qed.

(** Storing the numbered request [q1] and passing it on, when it is genuine. *)
Lemma store_stepped P i L (s s1 : state) q1 : let P' := grown i P (executed (run_out q1 s1)) in
  node_ok P i L s -> core (set_seqno (seqno s) s1) = core s -> requests s1 = requests s -> Z.of_nat i < num_replicas ->
  genuine P' i q1 -> NoDup (keys P') ->
  (i = 0%nat -> seqno s1 = Z.of_nat (length P') /\ slots_ok P' (replies (ran q1 s1))) ->
  stepped P i L (created q1 (ran q1 s1)) (run_out q1 s1 ++ [R_Pass_on (next_of num_replicas (node_id s) q1)]).
Proof.
  intros P' [Hinv Hid Ht Hlog Hent Hz] (En & _ & El & Er & Es)%core_eq Hreq Hi Hg Hnd Hz'. cbn in En, El, Er, Es.
  assert (Hran : requests (ran q1 s1) = requests s) by (unfold Ring.ran; by destruct (turn s1 q1)).
  destruct (rg_grown_prefix i P (executed (run_out q1 s1))) as [P1 HP1]. fold P' in HP1.
  unfold stepped. rewrite pass_executed. fold P'. rewrite Hid. split; [|split; [by apply sent_on_out|done]]. constructor.
  - apply created_inv, ran_inv. destruct Hinv as [H1 H2 H3]. constructor; rewrite ?El, ?Er, ?Hreq; done.
  - cbn. unfold Ring.ran. destruct (turn s1 q1); cbn; congruence.
  - apply ran_tracks. destruct Ht as [H1 H2 H3]. constructor; rewrite ?El, ?Es; done.
  - apply Forall_app. split; [rewrite HP1; eapply Forall_impl; [exact Hlog|]; intros q; apply rg_genuine_app|].
    unfold run_out. destruct (turn s1 q1); cbn; auto.
  - eapply (entries_created P' i q1 s); [done|done|]. intros k m q Hk Hne Hq. rewrite HP1. by eapply rg_genuine_app, Hent.
  - intros ->. destruct (Hz eq_refl) as (-> & _ & _). destruct (Hz' eq_refl) as [Hs Hl]. split; [done|].
    split; [|exact Hl]. rewrite <- Hs. cbn. unfold Ring.ran. by destruct (turn s1 q1).
Qed.

Lemma request_stepped P i L (s : state) q x : node_ok P i L s -> NoDup (keys P) -> genuine P i q -> 0 <= rq_cid q ->
  Z.of_nat i < num_replicas -> replies s !! Z.to_nat (rq_cid q) = Some x -> rp_rid x <= rq_rid q ->
  let q1 := numbered s q x in let s1 := counted s q x in
  stepped P i L (created q1 (ran q1 s1)) (run_out q1 s1 ++ [R_Pass_on (next_of num_replicas (node_id s) q1)]).
Proof.
  intros Hn Hnd Hg Hc Hi Hx Hr q1 s1. destruct (counted_same s q x) as (E1 & E2 & E3 & E4 & E5). fold s1 in E1, E2, E3, E4, E5.
  eapply store_stepped; try done; [unfold core; cbn; congruence|..].
  all: destruct (decide (i = 0%nat)) as [->|Hne]; [unfold grown; rewrite decide_True by done|unfold grown; rewrite decide_False by done].
  all: try (destruct (zero_request P L s q x) as (Z1 & Z2 & Z3 & Z4); [done..|]; done).
  - assert (q1 = q) as ->; [|done]. unfold q1, numbered. by rewrite (node_id_ok _ _ _ _ Hn), (proj2 (Z.eqb_neq _ _)) by lia.
  - done.
  - done.
Qed.

Lemma idle_stepped P i L (s s' : state) o : node_ok P i L s -> NoDup (keys P) -> core s' = core s ->
  (forall k, k <> (0, 0) -> requests s' !! k = requests s !! k) -> executed o = [] ->
  (forall m, R_Pass_on (R_Request_msg m) ∉ o) -> stepped P i L s' o.
Proof.
  intros [Hinv Hid Ht Hlog Hent Hz] Hnd (En & Eq & El & Er & Es)%core_eq Hreq He Ho. unfold stepped. rewrite He, app_nil_r.
  assert (Hgr : grown i P [] = P) by (unfold grown; rewrite app_nil_r; by case_decide). rewrite Hgr. split; [|split; [|done]].
  - constructor; try done; [|congruence|eapply tracks_core; [|done]; unfold core; congruence| |].
    + destruct Hinv as [H1 H2 H3]. constructor; rewrite ?El, ?Er; try done. intros k m Hk Hne. rewrite Hreq in Hk by done. by eapply H2.
    + intros k m q Hk Hne. rewrite Hreq in Hk by done. by eapply Hent.
    + by rewrite Er, Eq.
  - apply Forall_fmap, Forall_forall. intros [r|[m|a| |]|] Hin; try done. by apply Ho in Hin.
Qed.

Lemma ack_stepped P i L a (s s' : state) o : node_ok P i L s -> NoDup (keys P) -> client_ok num_principals (ra_cid a) ->
  ack_post MD5_reply exec_command a s s' o -> stepped P i L s' o.
Proof.
  intros Hn Hnd Hc Hp. pose proof Hp as (Hreq & _ & Hpass & Hcase).
  assert (Ho : forall m, R_Pass_on (R_Request_msg m) ∉ o) by (intros m Hin; by apply Hpass in Hin).
  destruct Hcase as [[Hcore He]|(m & q & Hm & Hq & Hnum & Hcore & He)]; [by eapply idle_stepped|].
  pose proof Hn as [Hinv Hid Ht Hlog Hent Hz]. pose proof (client_key _ _ (ra_rid a) Hc) as Hk.
  assert (Hg : genuine P i q) by (by eapply Hent). pose proof (inv_last _ _ Hinv) as Hl.
  destruct (decide (i = 0%nat)) as [->|Hne].
  { exfalso. destruct (Hz eq_refl) as (-> & _ & _). destruct Hg as [_ [H0|(_ & Hlk & _)]]; [lia|].
    apply lookup_lt_Some in Hlk. pose proof (tr_last _ _ _ _ Ht). lia. }
  unfold stepped, grown. rewrite decide_False by done. split; [|split; [|done]].
  - constructor; [by eapply ack_inv|apply core_eq in Hcore as [-> _]; done|by eapply ack_tracks| | |done].
    + apply Forall_app. split; [done|]. rewrite He. auto.
    + intros k m' q' Hk' Hne'. rewrite Hreq in Hk' by done. by eapply Hent.
  - apply Forall_fmap, Forall_forall. intros [r|[m'|a'| |]|] Hin; try done. by apply Ho in Hin.
Qed.

(** *** Steps of the group *)

Definition good_event (P : list R_Request) (i : nat) (ev : event) : Prop :=
  match ev with Deliver (R_Request_msg q) => genuine P i q | _ => True end.

Lemma node_step P i L (s : state) ev : node_ok P i L s -> NoDup (keys P) -> Z.of_nat i < num_replicas -> event_ok ev ->
  good_event P i ev -> wpe (eq Hang) (run_event ev) (fun _ s' o => stepped P i L s' o) s.
Proof.
  intros Hn Hnd Hi Hev Hg. pose proof (node_inv _ _ _ _ Hn) as Hinv.
  assert (Hsame : forall s', core s' = core s -> requests s' = requests s -> stepped P i L s' []).
  { intros s' Hc Hr. eapply idle_stepped; try done; [by rewrite Hr|by intros m ?%elem_of_nil]. }
  destruct ev as [[q|a| |]|c k dir ok]; simpl in *.
  - destruct (client_slot _ s _ Hinv Hev) as [x Hx]. unfold wpe. erewrite handle_request_run by done.
    destruct (Z.ltb_spec (rq_rid q) (rp_rid x)); [by apply Hsame|]. destruct (hangs _ _ _ _); [done|].
    apply request_stepped; try done. destruct Hev; lia.
  - eapply wpe_mono; [by eapply handle_ack_ok|]. intros [] s' o Hp. by eapply ack_stepped.
  - by apply Hsame.
  - by apply Hsame.
  - unfold handle_new_connection. wpe_steps. destruct dir as [d|]; [|by apply Hsame]. wpe_steps. case_match; by apply Hsame.
Qed.

Lemma fire_ok x i ev y : group_ok x -> event_ok ev ->
  (forall P, Forall (sent_on P) (net x) -> good_event P i ev) -> fire x i ev = Some y -> group_ok y.
Proof.
  intros [Hlen Hlogs (P & HP & Hall & Hnet & Hnd)] Hev Hg Hf. unfold fire in Hf.
  destruct (nodes x !! i) as [s|] eqn:Hs; [|done]. destruct (logs x !! i) as [L|] eqn:HL; [|done]. cbn [mbind option_bind] in Hf.
  pose proof (lookup_lt_Some _ _ _ Hs) as Hi.
  pose proof (node_step P i L s ev (Hall _ _ _ Hs HL) Hnd ltac:(lia) Hev (Hg P Hnet)) as Hw. unfold wpe in Hw.
  destruct (Ring.run_event _ _ _ _ _) as [u s' o|]; [|done]. injection Hf as <-. destruct Hw as (Hn & Hs' & Hnd').
  constructor; cbn; [by rewrite length_insert..|]. destruct (rg_grown_prefix i P (executed o)) as [P1 HP1].
  exists (grown i P (executed o)). split; [|split; [|split; [|done]]].
  - unfold grown. case_decide as E; [subst; rewrite HL in HP; injection HP as ->; apply list_lookup_insert_eq; lia|].
    by rewrite list_lookup_insert_ne.
  - intros j sj Lj Hj HLj. destruct (decide (i = j)) as [<-|Hne].
    + rewrite list_lookup_insert_eq in Hj by lia. rewrite list_lookup_insert_eq in HLj by lia. by simplify_eq.
    + rewrite list_lookup_insert_ne in Hj by done. rewrite list_lookup_insert_ne in HLj by done.
      destruct (decide (j = 0%nat)) as [->|Hj0]; [|rewrite HP1; apply node_mono; [done|by apply Hall]].
      unfold grown. rewrite decide_False by done. by apply Hall.
  - apply Forall_app. split; [|done]. eapply Forall_impl; [exact Hnet|]. intros p. rewrite HP1. apply sent_on_app.
Qed.

Lemma rg_step_ok x y : group_ok x -> step x y -> group_ok y.
Proof.
  intros Hx [i m Hr Hev Hf|i c k dir ok Hf]; (eapply fire_ok; [exact Hx| | |exact Hf]); try done.
  intros P Hnet. destruct Hr as [c r _ _|j m Hin Hi|]; cbn; [apply sent_genuine| |done].
  rewrite Forall_forall in Hnet. specialize (Hnet _ Hin). destruct m; try done. by apply Hnet.
Qed.

Lemma rg_start_ok : group_ok (start sv).
Proof.
  unfold start. constructor; cbn; [by rewrite length_fmap, length_seqZ|by rewrite length_replicate|].
  exists []. split; [by apply lookup_replicate_2; lia|]. split; [|by split; constructor].
  intros i s L Hs [-> Hi]%lookup_replicate. apply list_lookup_fmap_Some in Hs as (z & -> & Hz).
  apply lookup_seqZ in Hz as [-> Hz]. constructor; [apply r_initial_inv|cbn; lia|apply r_initial_tracks|constructor| |].
  - intros k m q Hk. cbn in Hk. by rewrite lookup_empty in Hk.
  - intros _. split; [done|]. split; [done|]. constructor; [|by intros q ?%elem_of_nil].
    intros c x Hx. cbn in Hx. apply lookup_replicate in Hx as [-> _]. by left.
Qed.

Lemma rg_steps_ok x : rtc step (start sv) x -> group_ok x.
Proof. intros H. apply (rtc_ind_r (fun y => group_ok y) _ rg_start_ok) in H; [done|]. eauto using rg_step_ok. Qed.

(** The log of a node, request by request. *)
Lemma node_log_lookup P i L (s : state) j q : node_ok P i L s -> L !! j = Some q ->
  P !! j = Some q /\ (i = 0%nat \/ rq_replica q = 0 \/ Z.of_nat i < rq_replica q).
Proof.
  intros [_ _ [_ _ Hnum] Hlog _ _] Hq. specialize (Hnum _ _ Hq).
  destruct (Forall_lookup_1 _ _ _ _ Hlog Hq) as [_ [H0|(_ & Hlk & Hi)]]; [lia|]. split; [|done].
  by rewrite <- Hlk, Hnum, Z.add_simpl_r, Nat2Z.id.
Qed.

(** C18. Agreement in Ring, when the clients are correct: each sends one request per
    identifier, without a number, to the replica [cid % num_replicas] where it names its entry
    (no replica checks this, and there are no MACs).  Starting with equal replicas, whatever the schedule of the
    messages around the ring, what a replica has executed is a prefix of what
    replica 0 has executed, under the same numbers; no request of a client is
    executed twice; and every replica's service is the result of the first
    [last_executed] of these requests. *)
Theorem ring_agreement x i s L P : rtc step (start sv) x ->
  nodes x !! i = Some s -> logs x !! i = Some L -> logs x !! 0%nat = Some P ->
  L `prefix_of` P /\ NoDup ((fun q => (rq_cid q, rq_rid q)) <$> L) /\ last_executed s = Z.of_nat (length L) /\
  service s = serve exec_command sv (take (length L) P).
Proof.
  intros [_ _ (P' & HP' & Hall & _ & Hnd)]%rg_steps_ok Hs HL HP. assert (P' = P) as -> by congruence.
  pose proof (Hall _ _ _ Hs HL) as Hn. assert (Hpre : L `prefix_of` P).
  { apply prefix_lookup. intros j q Hq. by eapply node_log_lookup. }
  pose proof (node_tracks _ _ _ _ Hn) as [Hl Hsv _]. split; [done|]. destruct Hpre as [R ->].
  split; [rewrite fmap_app in Hnd; by apply NoDup_app in Hnd as [? _]|]. by rewrite take_app_length.
Qed.

(** A request that does not enter the ring at replica 0 is not executed everywhere:
    the replicas from its entry on get it before it has a number and do not take the
    number from its acknowledgement, so each of them has executed at most what comes
    before it, whatever the schedule; and it stops the requests after it as well. *)
Theorem entry_stalls x i L P j q : rtc step (start sv) x -> logs x !! i = Some L -> logs x !! 0%nat = Some P ->
  P !! j = Some q -> 0 < rq_replica q <= Z.of_nat i -> (length L <= j)%nat.
Proof.
  intros [Hn Hl (P' & HP' & Hall & _ & _)]%rg_steps_ok HL HP Hq Hr. assert (P' = P) as -> by congruence.
  destruct (nodes x !! i) as [s|] eqn:Hs; [|apply lookup_ge_None in Hs; apply lookup_lt_Some in HL; lia].
  apply Nat.nlt_ge. intros Hj. apply lookup_lt_is_Some_2 in Hj as [q' Hq'].
  destruct (node_log_lookup _ _ _ _ _ _ (Hall _ _ _ Hs HL) Hq') as [E Hc]. rewrite Hq in E. injection E as <-. lia.
Qed.
End agreement.

(** ** Schedules *)

(** A client sends a request, or the output at a position of [net] arrives. *)
Inductive action := Ask (c r : Z) | Arrive (k : nat).

Definition from_a_client (m : R_Message) : bool :=
  let ok c := (0 <? c) && (c <? num_principals) in
  match m with R_Request_msg q => ok (rq_cid q) | R_ACK_msg a => ok (ra_cid a) | _ => true end.

Lemma from_a_client_ok m : from_a_client m = true -> event_ok (Deliver m).
Proof. destruct m; try done; cbn; unfold client_ok; intros; bsimp; lia. Qed.

Definition deliver (x : system) (i : Z) (m : R_Message) : option system :=
  if from_a_client m then fire x (Z.to_nat i) (Deliver m) else None.

Definition act (x : system) (a : action) : option system :=
  match a with
  | Ask c r => deliver x (c mod num_replicas) (R_Request_msg (sent c r))
  | Arrive k =>
    match net x !! k with
    | Some (j, R_Pass_on m) => deliver x ((Z.of_nat j + 1) mod num_replicas) m
    | _ => None
    end
  end.

Lemma deliver_step x i m y : (from_a_client m = true -> reaches x (Z.to_nat i) m) -> deliver x i m = Some y -> step x y.
Proof.
  unfold deliver. intros Hr Hf. destruct (from_a_client m) eqn:E; [|done].
  apply (step_deliver x y (Z.to_nat i) m (Hr eq_refl)); [by apply from_a_client_ok|done].
Qed.

Lemma act_step x a y : act x a = Some y -> step x y.
Proof.
  unfold act. intros H. destruct a as [c r|k].
  - eapply deliver_step, H. intros Hc%from_a_client_ok. cbn in Hc. rewrite (proj1 (sent_ok c r)) in Hc.
    constructor; [done|]. pose proof (Z.mod_pos_bound c num_replicas group). lia.
  - destruct (net x !! k) as [[j []]|] eqn:E; try done. eapply deliver_step, H. intros _.
    apply from_predecessor with j; [by eapply list_elem_of_lookup_2|].
    pose proof (Z.mod_pos_bound (Z.of_nat j + 1) num_replicas group). lia.
Qed.

Definition acts (x : system) (l : list action) : option system := foldl (fun x a => x ← x; act x a) (Some x) l.

Lemma acts_none l : foldl (fun x a => x ← x; act x a) None l = None.
Proof. by induction l. Qed.

Lemma acts_steps l x y : acts x l = Some y -> rtc step x y.
Proof.
  unfold acts. revert x. induction l as [|a l IH]; intros x H; cbn in H; [by injection H as ->|].
  destruct (act x a) as [x1|] eqn:E; [|by rewrite acts_none in H]. eapply rtc_l; [by eapply act_step|by apply IH].
Qed.
End group.
End RingGroup.

(** ** A group of four replicas with clients 4 and 5 *)

Module RGroupExample.
Import Ring RingGroup RExample.

Definition r_sent (c r : Z) : R_Request := r_req 0 c r.
Lemma r_sent_ok c r : rq_cid (r_sent c r) = c /\ rq_rid (r_sent c r) = r /\ rq_seqno (r_sent c r) = 0 /\
  rq_replica (r_sent c r) = c mod 4.
Proof. done. Qed.

(** The request of client 4 enters at replica 0 and goes around; that of client 5
    enters at replica 1, goes around, and its acknowledgement reaches replicas 1 and
    2. *)
Definition r_schedule : list action :=
  [Ask 4 1; Arrive 1; Arrive 3; Arrive 5; Ask 5 1; Arrive 8; Arrive 9; Arrive 10; Arrive 12; Arrive 13].
Abbreviation acts_r := (acts 4 8 r_md5 r_service r_sent (start 4 8 (@nil Z))).

Lemma ring_agreement_witness :
  exists x s L P, acts_r r_schedule = Some x /\ nodes x !! 2%nat = Some s /\ logs x !! 2%nat = Some L /\ logs x !! 0%nat = Some P /\
    L `prefix_of` P /\ L = [r_req 1 4 1] /\ P = [r_req 1 4 1; r_req 2 5 1] /\ service s = [4; 1].
Proof.
  destruct (acts_r r_schedule) as [x|] eqn:E; [|vm_compute in E; discriminate].
  pose proof (acts_steps 4 8 r_md5 r_service r_sent ltac:(lia) r_sent_ok _ _ _ E) as Hs.
  destruct (nodes x !! 2%nat) as [s|] eqn:H1; [|vm_compute in E; injection E as <-; discriminate].
  destruct (logs x !! 2%nat) as [L|] eqn:H2; [|vm_compute in E; injection E as <-; discriminate].
  destruct (logs x !! 0%nat) as [P|] eqn:H3; [|vm_compute in E; injection E as <-; discriminate].
  destruct (ring_agreement 4 8 r_md5 r_service r_sent ltac:(lia) r_sent_ok [] x 2 s L P Hs H1 H2 H3) as (Hp & _ & _ & Hsv).
  assert (HL : L = [r_req 1 4 1]) by (vm_compute in E; injection E as <-; by injection H2 as <-).
  assert (HP : P = [r_req 1 4 1; r_req 2 5 1]) by (vm_compute in E; injection E as <-; by injection H3 as <-).
  exists x, s, L, P. rewrite HL, HP in Hsv. by repeat (split; [done|]).
Defined.

Lemma entry_stalls_witness :
  exists x L P, acts_r r_schedule = Some x /\ logs x !! 1%nat = Some L /\ logs x !! 0%nat = Some P /\
    P !! 1%nat = Some (r_req 2 5 1) /\ (length L <= 1)%nat.
Proof.
  destruct (acts_r r_schedule) as [x|] eqn:E; [|vm_compute in E; discriminate].
  pose proof (acts_steps 4 8 r_md5 r_service r_sent ltac:(lia) r_sent_ok _ _ _ E) as Hs.
  destruct (logs x !! 1%nat) as [L|] eqn:H2; [|vm_compute in E; injection E as <-; discriminate].
  destruct (logs x !! 0%nat) as [P|] eqn:H3; [|vm_compute in E; injection E as <-; discriminate].
  assert (HP : P !! 1%nat = Some (r_req 2 5 1)) by (vm_compute in E; injection E as <-; by injection H3 as <-).
  exists x, L, P. split; [done|]. split; [exact H2|]. split; [exact H3|]. split; [exact HP|].
  apply (entry_stalls 4 8 r_md5 r_service r_sent ltac:(lia) r_sent_ok [] x 1 L P 1 (r_req 2 5 1) Hs H2 H3 HP).
  vm_compute. split; [reflexivity|discriminate].
Defined.
End RGroupExample.
