(* ===== verification/RingSched.v ===== *)
(** * The receiving loop of a Ring replica

    Models [do_recv_from_queue] of [src/protocols/ring/R_Replica.cc]: the messages of
    the predecessor and those of the clients wait in two queues, and each pass of
    the loop chooses one of the queues, by deficit round robin on the sizes of the
    messages, and handles its first message.  The receiving threads append to the
    queues between two passes, under the mutex that the passes hold as well.

    The queues are used through [FifoQueue].  The theorems: passes and arrivals, in
    any order, never fault, and each queue is served in the order of arrival with
    nothing lost or served twice; without further arrivals all waiting messages are
    served within a bounded number of passes; but since a queue's credit is never
    spent, the clients are not served as long as the predecessor's queue is not found
    empty. *)

From stdpp Require Import gmap.
From S2P Require Import Prelude Effects MesQueue.
Local Open Scope Z_scope.

Module RingSched.
Section sched.
Context {H Q M : Type} `{!FifoQueue H Q M} (size : M -> Z) (num_replicas : Z).

Definition R_Max_message_size : Z := 60000.
Definition DRR_PRIORITY_RATIO : Z := 2 * num_replicas - 1.
Definition DRR_LOWER_PRIO : Z := 4096.

(** The fields of [R_Replica] with the two static variables of the loop; the pairs
    are arrays of two elements, indexed by [selector]. *)
Record sched := mk_sched {
  mem : H;
  incoming_queue : Q;
  incoming_queue_clients : Q;
  incoming_queue_signaler : bool * bool;
  credit : Z * Z;
  selector : Z
}.

Definition quantum : Z * Z := (DRR_PRIORITY_RATIO * DRR_LOWER_PRIO, DRR_LOWER_PRIO).
Definition at_ {A} (p : A * A) (i : Z) : A := if i =? 0 then p.1 else p.2.
Definition set_at {A} (p : A * A) (i : Z) (x : A) : A * A := if i =? 0 then (x, p.2) else (p.1, x).

Definition queue (s : sched) (i : Z) : Q := if i =? 0 then incoming_queue s else incoming_queue_clients s.
Definition set_queue (s : sched) (i : Z) (h : H) (q : Q) : sched :=
  if i =? 0 then mk_sched h q (incoming_queue_clients s) (incoming_queue_signaler s) (credit s) (selector s)
  else mk_sched h (incoming_queue s) q (incoming_queue_signaler s) (credit s) (selector s).
Definition set_signal (s : sched) (i : Z) (b : bool) : sched :=
  mk_sched (mem s) (incoming_queue s) (incoming_queue_clients s) (set_at (incoming_queue_signaler s) i b) (credit s) (selector s).
(** [credit[selector] = c; selector = 1 - selector]. *)
Definition yield (s : sched) (c : Z) : sched :=
  mk_sched (mem s) (incoming_queue s) (incoming_queue_clients s) (incoming_queue_signaler s)
    (set_at (credit s) (selector s) c) (1 - selector s).
Definition reset_selector (s : sched) : sched :=
  mk_sched (mem s) (incoming_queue s) (incoming_queue_clients s) (incoming_queue_signaler s) (credit s) 0.

(** A receiving thread has got a message: 0 the predecessor's, 1 the clients'. *)
Definition arrive (s : sched) (i : Z) (m : M) : option sched :=
  '(h, q) ← fifo_append (mem s) (queue s i) m;
  Some (set_signal (set_queue s i h q) i true).

(** One pass of the loop: it waits while both queues are empty; else it may take a
    message to handle. *)
Inductive pass := Waits | Passes (s : sched) (m : option M).

Definition iterate (s : sched) : option pass :=
  let i := selector s in
  let qs := queue s i in
  if (size_of (incoming_queue s) =? 0) && (size_of (incoming_queue_clients s) =? 0) then Some Waits
  else if negb (i =? 0) && negb (i =? 1) then Some (Passes (reset_selector s) None)
  else if negb (at_ (incoming_queue_signaler s) i) && (size_of qs =? 0) then Some (Passes (yield s 0) None)
  else if size_of qs =? 0 then Some (Passes (yield s 0) None)
  else
    f ← fifo_first (mem s) qs;
    match f with
    | None => Some (Passes (yield s 0) None)
    | Some m =>
      if to_signed 32 (at_ (credit s) i + at_ quantum i) <? size m
      then Some (Passes (yield s (to_signed 32 (at_ (credit s) i + at_ quantum i))) None)
      else
        '(h, q, m') ← fifo_remove (mem s) qs;
        Some (Passes (set_signal (set_queue s i h q) i false) m')
    end.

Definition initial (h : H) (empty : Q) : sched := mk_sched h empty empty (false, false) quantum 0.

(** An interleaving of arrivals and passes. *)
Inductive action := Arrive (i : Z) (m : M) | Pass.

(** The messages handled, each with the queue it came from; a pass that waits
    changes nothing. *)
Fixpoint run (s : sched) (l : list action) : option (sched * list (Z * M)) :=
  match l with
  | [] => Some (s, [])
  | Arrive i m :: l' => s1 ← arrive s i m; run s1 l'
  | Pass :: l' =>
    p ← iterate s;
    match p with
    | Waits => run s l'
    | Passes s1 m =>
      '(s2, t) ← run s1 l';
      Some (s2, match m with Some x => (selector s, x) :: t | None => t end)
    end
  end.

(** The messages handled that came from the queue [i]. *)
Definition from (i : Z) (t : list (Z * M)) : list M := omap (fun x => if i =? x.1 then Some x.2 else None) t.
Definition arrivals (i : Z) (l : list action) : list M :=
  omap (fun a => match a with Arrive j m => if i =? j then Some m else None | Pass => None end) l.

(** ** The state as two lists *)

Context (group : 1 <= num_replicas < 2 ^ 16).
Context (size_ok : forall m, 0 <= size m <= R_Max_message_size).

Definition max_credit : Z := Z.max R_Max_message_size (DRR_PRIORITY_RATIO * DRR_LOWER_PRIO).

Record holding (s : sched) (l : list M * list M) : Prop := {
  hold_queues : exists d0 d1, holds (mem s) (incoming_queue s) d0 l.1 /\ holds (mem s) (incoming_queue_clients s) d1 l.2 /\ d0 ## d1;
  hold_selector : selector s = 0 \/ selector s = 1;
  hold_credit : 0 <= (credit s).1 <= max_credit /\ 0 <= (credit s).2 <= max_credit
}.

(** What a pass does to the lists. *)
Definition passed (s : sched) (l : list M * list M) (p : pass) : Prop :=
  match p with
  | Waits => l = ([], [])
  | Passes s' (Some m) => exists t, at_ l (selector s) = m :: t /\ holding s' (set_at l (selector s) t) /\
      selector s' = selector s /\ credit s' = credit s
  | Passes s' None => holding s' l /\ selector s' = 1 - selector s /\
      at_ (credit s') (selector s') = at_ (credit s) (selector s') /\
      match at_ l (selector s) with
      | [] => True
      | m :: _ => at_ (credit s) (selector s) + at_ quantum (selector s) < size m /\
          at_ (credit s') (selector s) = at_ (credit s) (selector s) + at_ quantum (selector s)
      end
  end.

Lemma quantum_range i : i = 0 \/ i = 1 -> 0 < at_ quantum i <= max_credit.
Proof. unfold max_credit, quantum, DRR_PRIORITY_RATIO, DRR_LOWER_PRIO. intros [->| ->]; cbn; lia. Qed.

Lemma credit_range s l i : holding s l -> i = 0 \/ i = 1 -> 0 <= at_ (credit s) i <= max_credit.
Proof. intros [_ _ [H0 H1]] [->| ->]; cbn; lia. Qed.

Lemma credit_sum s l i : holding s l -> i = 0 \/ i = 1 ->
  to_signed 32 (at_ (credit s) i + at_ quantum i) = at_ (credit s) i + at_ quantum i.
Proof.
  intros Hs Hi. apply to_signed_id; [lia|]. pose proof (credit_range s l i Hs Hi). pose proof (quantum_range i Hi).
  unfold in_s, max_credit, DRR_PRIORITY_RATIO, DRR_LOWER_PRIO, R_Max_message_size in *. lia.
Qed.

(** The selected queue and the other one. *)
Lemma hold_at s l i : holding s l -> i = 0 \/ i = 1 ->
  exists d d', holds (mem s) (queue s i) d (at_ l i) /\ holds (mem s) (queue s (1 - i)) d' (at_ l (1 - i)) /\ d ## d'.
Proof.
  intros [(d0 & d1 & H0 & H1 & Hd) _ _] [->| ->]; [by exists d0, d1|by exists d1, d0].
Qed.

Lemma hold_update s l i h q d d' x : holding s l -> i = 0 \/ i = 1 ->
  holds h q d x -> holds h (queue s (1 - i)) d' (at_ l (1 - i)) -> d ## d' -> forall b,
  holding (set_signal (set_queue s i h q) i b) (set_at l i x).
Proof.
  intros [_ Hs Hc] [->| ->] Hq Hq' Hd b; constructor; try done; [by exists d, d'|by exists d', d].
Qed.

Lemma hold_yield s l c : holding s l -> 0 <= c <= max_credit -> holding (yield s c) l.
Proof.
  intros [Hq Hs [Hc0 Hc1]] Hc. constructor; [done|cbn; lia|]. unfold yield, set_at. cbn. by destruct (selector s =? 0).
Qed.

Lemma at_set_at {A} (p : A * A) i x : at_ (set_at p i x) i = x.
Proof. unfold at_, set_at. by destruct (i =? 0). Qed.

Lemma at_set_other {A} (p : A * A) i x : i = 0 \/ i = 1 -> at_ (set_at p i x) (1 - i) = at_ p (1 - i).
Proof. by intros [->| ->]. Qed.

Lemma set_keeps s i h q b :
  selector (set_signal (set_queue s i h q) i b) = selector s /\ credit (set_signal (set_queue s i h q) i b) = credit s.
Proof. unfold set_signal, set_queue. by destruct (i =? 0). Qed.

Lemma arrive_ok s l i m : holding s l -> i = 0 \/ i = 1 ->
  exists s', arrive s i m = Some s' /\ holding s' (set_at l i (at_ l i ++ [m])) /\ selector s' = selector s /\ credit s' = credit s.
Proof.
  intros Hs Hi. destruct (hold_at s l i Hs Hi) as (d & d' & Hq & Hq' & Hd). unfold arrive.
  destruct (append_ok _ _ _ _ m Hq) as (h' & q' & d1 & -> & Hq1 & Hf). destruct (Hf _ _ _ Hd Hq') as [Hq2 Hd2]. cbn [mbind option_bind].
  eexists. split; [done|]. split; [by eapply hold_update|]. apply set_keeps.
Qed.

Lemma pass_ok s l : holding s l -> exists p, iterate s = Some p /\ passed s l p.
Proof.
  intros Hs. pose proof (hold_selector _ _ Hs) as Hi. set (i := selector s) in *.
  destruct (hold_at s l i Hs Hi) as (d & d' & Hq & Hq' & Hd). pose proof (hold_queues _ _ Hs) as (d0 & d1 & H0 & H1 & _).
  unfold iterate. fold i. rewrite (MesQueue.size_ok _ _ _ _ H0), (MesQueue.size_ok _ _ _ _ H1), (MesQueue.size_ok _ _ _ _ Hq).
  destruct (_ && _) eqn:E0.
  { bsimp. exists Waits. split; [done|]. destruct l as [[] []]; cbn in *; done || lia. }
  rewrite (proj2 (andb_false_iff _ _)) by (destruct Hi as [E|E]; rewrite E; auto).
  assert (Hempty : at_ l i = [] -> passed s l (Passes (yield s 0) None)).
  { intros El. cbn. fold i. rewrite El. pose proof (quantum_range i Hi). split; [apply hold_yield; [done|lia]|].
    split; [done|]. split; [by apply at_set_other|done]. }
  destruct (at_ l i) as [|m t] eqn:El; cbn [length].
  { rewrite andb_true_r. destruct (negb _); eexists; (split; [done|]); by apply Hempty. }
  rewrite (proj2 (Z.eqb_neq _ _)), andb_false_r by lia. rewrite (first_ok _ _ _ _ Hq). cbn [mbind option_bind list.head].
  rewrite (credit_sum s l i Hs Hi). pose proof (credit_range s l i Hs Hi). pose proof (quantum_range i Hi). pose proof (size_ok m).
  destruct (Z.ltb_spec (at_ (credit s) i + at_ quantum i) (size m)) as [Hlt|Hge].
  - eexists. split; [done|]. cbn. fold i. rewrite El. split; [apply hold_yield; [done|unfold max_credit; lia]|]. split; [done|].
    split; [by apply at_set_other|]. split; [done|]. apply at_set_at.
  - destruct (remove_ok _ _ _ _ Hq) as (h' & q' & d2 & -> & Hq2 & Hf). destruct (Hf _ _ _ Hd Hq') as [Hq3 Hd3]. cbn [mbind option_bind].
    eexists. split; [done|]. cbn [passed list.head]. fold i. exists t. split; [done|]. split; [by eapply hold_update|]. apply set_keeps.
Qed.

(** ** The theorems *)

Definition source_ok (a : action) : Prop := match a with Arrive i _ => i = 0 \/ i = 1 | Pass => True end.

Lemma from_cons i j x t : from i ((j, x) :: t) = if i =? j then x :: from i t else from i t.
Proof. unfold from. cbn. by destruct (i =? j). Qed.

Lemma at_index {A} (p : A * A) i : at_ p i = if i =? 0 then p.1 else p.2.
Proof. done. Qed.

Lemma run_fifo l : Forall source_ok l -> forall s x, holding s x ->
  exists s' t y, run s l = Some (s', t) /\ holding s' y /\
    forall i, i = 0 \/ i = 1 -> at_ x i ++ arrivals i l = from i t ++ at_ y i.
Proof.
  induction 1 as [|a l Ha _ IH]; intros s x Hs.
  { exists s, [], x. split; [done|]. split; [done|]. intros i _. by rewrite app_nil_r. }
  destruct a as [j m|]; cbn [run].
  - destruct (arrive_ok s x j m Hs Ha) as (s1 & -> & Hs1 & _). cbn [mbind option_bind].
    destruct (IH _ _ Hs1) as (s' & t & y & -> & Hy & Ht). exists s', t, y. split; [done|]. split; [done|]. intros i Hi.
    rewrite <- Ht by done. unfold arrivals at 1. cbn. fold (arrivals i l).
    destruct Ha as [->| ->], Hi as [->| ->]; cbn; rewrite <- ?app_assoc; done.
  - destruct (pass_ok s x Hs) as (p & -> & Hp). cbn [mbind option_bind]. destruct p as [|s1 [m|]].
    + destruct (IH _ _ Hs) as (s' & t & y & -> & Hy & Ht). by exists s', t, y.
    + destruct Hp as (z & Hz & Hs1 & _). destruct (IH _ _ Hs1) as (s' & t & y & -> & Hy & Ht).
      eexists s', _, y. split; [done|]. split; [done|]. intros i Hi. rewrite from_cons. specialize (Ht i Hi).
      change (arrivals i (Pass :: l)) with (arrivals i l). pose proof (hold_selector _ _ Hs) as Hj.
      destruct (Z.eqb_spec i (selector s)) as [->|Hne]; [rewrite at_set_at in Ht; by rewrite Hz, <- app_comm_cons, Ht|].
      assert (i = 1 - selector s) as -> by lia. by rewrite at_set_other in Ht.
    + destruct Hp as (Hs1 & _). destruct (IH _ _ Hs1) as (s' & t & y & -> & Hy & Ht). by exists s', t, y.
Qed.

(** C26. The receiving loop of a Ring replica serves each source in the order of
    arrival: whatever the interleaving of arrivals and passes, no pass or arrival
    faults, and what has arrived in a queue is what was handled from it, in the same
    order, followed by what still waits. *)
Theorem drr_fifo l h empty : Forall source_ok l -> holds h empty ∅ [] ->
  exists s t y, run (initial h empty) l = Some (s, t) /\ holding s y /\
    arrivals 0 l = from 0 t ++ y.1 /\ arrivals 1 l = from 1 t ++ y.2.
Proof.
  intros Hl Hh. destruct (run_fifo l Hl (initial h empty) ([], [])) as (s & t & y & Hr & Hy & Ht).
  - constructor; [by exists ∅, ∅|by left|]. cbn. unfold max_credit, DRR_PRIORITY_RATIO, DRR_LOWER_PRIO. lia.
  - exists s, t, y. split; [done|]. split; [done|]. split; [apply (Ht 0); by left|apply (Ht 1); by right].
Qed.

(** *** Without arrivals *)

(** The times the queue can still be passed over: each raises its credit. *)
Definition raises (x : list M) (c : Z) : Z := match x with [] => 0 | _ => Z.max 0 ((R_Max_message_size - c) / DRR_LOWER_PRIO) end.
Definition effort (s : sched) (x : list M * list M) : Z :=
  2 * (Z.of_nat (length x.1) + Z.of_nat (length x.2)) + 2 * (raises x.1 (credit s).1 + raises x.2 (credit s).2) +
  match at_ x (selector s) with [] => 1 | _ => 0 end.

Lemma quantum_min i : i = 0 \/ i = 1 -> DRR_LOWER_PRIO <= at_ quantum i.
Proof. unfold quantum, DRR_PRIORITY_RATIO, DRR_LOWER_PRIO. intros [->| ->]; cbn; lia. Qed.

Lemma raises_drop x m c d : DRR_LOWER_PRIO <= d -> c + d < size m -> raises (m :: x) (c + d) + 1 <= raises (m :: x) c.
Proof.
  unfold raises, DRR_LOWER_PRIO. pose proof (size_ok m) as Hm. intros Hd Hlt.
  assert ((R_Max_message_size - (c + d)) / 4096 + 1 <= (R_Max_message_size - c) / 4096).
  { rewrite <- Z.div_add by lia. apply Z.div_le_mono; lia. }
  assert (1 <= (R_Max_message_size - c) / 4096) by (apply Z.div_le_lower_bound; lia). lia.
Qed.

Lemma raises_nonneg x c : 0 <= raises x c.
Proof. unfold raises. destruct x; lia. Qed.

Lemma raises_tail m x c : raises x c <= raises (m :: x) c.
Proof. unfold raises. destruct x; lia. Qed.

(** Both queues, the selected one first. *)
Lemma effort_at s x : selector s = 0 \/ selector s = 1 -> let i := selector s in
  effort s x = 2 * (Z.of_nat (length (at_ x i)) + Z.of_nat (length (at_ x (1 - i)))) +
    2 * (raises (at_ x i) (at_ (credit s) i) + raises (at_ x (1 - i)) (at_ (credit s) (1 - i))) +
    match at_ x i with [] => 1 | _ => 0 end.
Proof. intros Hi i. unfold effort. subst i. destruct Hi as [->| ->]; [change (1 - 0) with 1|change (1 - 1) with 0]; unfold at_; cbn [Z.eqb]; lia. Qed.

Lemma waits_empty s x : holding s x -> (forall i, i = 0 \/ i = 1 -> at_ x i = []) -> iterate s = Some Waits.
Proof.
  intros [(d0 & d1 & H0 & H1 & _) _ _] He. specialize (He 0 (or_introl eq_refl)) as E0. specialize (He 1 (or_intror eq_refl)) as E1.
  cbn in E0, E1. rewrite E0 in H0. rewrite E1 in H1. unfold iterate.
  by rewrite (MesQueue.size_ok _ _ _ _ H0), (MesQueue.size_ok _ _ _ _ H1).
Qed.

Lemma pass_effort s x s' m : holding s x -> iterate s = Some (Passes s' m) ->
  exists y, holding s' y /\ effort s' y + 1 <= effort s x /\
    forall i, i = 0 \/ i = 1 -> at_ x i = match m with Some v => from i [(selector s, v)] | None => [] end ++ at_ y i.
Proof.
  intros Hs Hit. pose proof (hold_selector _ _ Hs) as Hi. destruct (pass_ok s x Hs) as (p & Hp & Hpass).
  rewrite Hit in Hp. injection Hp as <-. destruct m as [m|]; cbn [passed] in Hpass.
  - destruct Hpass as (t & Ht & Hh & Hsel & Hcr). eexists. split; [exact Hh|]. split.
    + rewrite !effort_at by (rewrite ?Hsel; done). cbv zeta. rewrite Hsel, Hcr, at_set_at, at_set_other, Ht by done. cbn [length].
      pose proof (raises_tail m t (at_ (credit s) (selector s))). destruct t; lia.
    + intros i Hi'. rewrite from_cons. destruct (Z.eqb_spec i (selector s)) as [->|Hne]; [by rewrite at_set_at|].
      assert (i = 1 - selector s) as -> by lia. by rewrite at_set_other.
  - destruct Hpass as (Hh & Hsel & Hcr & Hbump). exists x. split; [done|]. split; [|done].
    rewrite !effort_at by (rewrite ?Hsel; lia). cbv zeta. rewrite Hsel in Hcr |- *. rewrite Hcr.
    replace (1 - (1 - selector s)) with (selector s) by lia. destruct (at_ x (selector s)) as [|m t] eqn:Ex.
    + destruct (at_ x (1 - selector s)) eqn:Ey; [|cbn; lia]. exfalso. rewrite (waits_empty s x Hs) in Hit; [done|].
      intros i Hi'. destruct (decide (i = selector s)) as [->|]; [done|]. by assert (i = 1 - selector s) as -> by lia.
    + destruct Hbump as [Hlt ->]. pose proof (raises_drop t m _ _ (quantum_min _ Hi) Hlt).
      destruct (at_ x (1 - selector s)); cbn [length] in *; lia.
Qed.

Lemma run_drains n : forall s x, holding s x -> effort s x <= Z.of_nat n ->
  exists s' t, run s (replicate n Pass) = Some (s', t) /\ holding s' ([], []) /\ forall i, i = 0 \/ i = 1 -> from i t = at_ x i.
Proof.
  induction n as [|n IH]; intros s x Hs He; cbn [replicate run].
  - exists s, []. split; [done|]. pose proof (raises_nonneg x.1 (credit s).1). pose proof (raises_nonneg x.2 (credit s).2).
    unfold effort in He. destruct x as [[|] [|]]; cbn [fst snd length] in *; try (destruct (at_ _ _); lia). split; [done|].
    by intros i [->| ->].
  - destruct (pass_ok s x Hs) as (p & Hp & Hpass). rewrite Hp. cbn [mbind option_bind]. destruct p as [|s1 m].
    + cbn in Hpass. subst x. assert (Hr : forall k, run s (replicate k Pass) = Some (s, [])).
      { intros k. induction k as [|k IHk]; [done|]. cbn [replicate run]. rewrite Hp. exact IHk. }
      exists s, []. split; [apply Hr|]. split; [done|]. by intros i [->| ->].
    + destruct (pass_effort s x s1 m Hs Hp) as (y & Hy & Hle & Hat). destruct (IH s1 y Hy ltac:(lia)) as (s' & t & -> & Hs' & Ht).
      eexists s', _. split; [done|]. split; [done|]. intros i Hi. rewrite (Hat i Hi), <- (Ht i Hi).
      destruct m; [rewrite !from_cons; by destruct (i =? _)|done].
Qed.

(** C27. The receiving loop comes to rest: when nothing more arrives, every message that
    waits is handled, each queue in its order, within two passes per message and 57
    more, after which both queues are empty. *)
Theorem drr_drains s x n : holding s x -> 2 * Z.of_nat (length x.1 + length x.2) + 57 <= Z.of_nat n ->
  exists s' t, run s (replicate n Pass) = Some (s', t) /\ holding s' ([], []) /\ from 0 t = x.1 /\ from 1 t = x.2.
Proof.
  intros Hs Hn. assert (He : effort s x <= Z.of_nat n).
  { assert (Hr : forall l c, 0 <= c -> raises l c <= 14).
    { intros l c Hc. unfold raises, R_Max_message_size, DRR_LOWER_PRIO. destruct l; [lia|].
      assert ((60000 - c) / 4096 <= 60000 / 4096) by (apply Z.div_le_mono; lia). change (60000 / 4096) with 14 in *. lia. }
    destruct (hold_credit _ _ Hs) as [[H0 _] [H1 _]]. pose proof (Hr x.1 _ H0). pose proof (Hr x.2 _ H1).
    unfold effort. destruct (at_ x (selector s)); lia. }
  destruct (run_drains n s x Hs He) as (s' & t & Hr & Hh & Ht). exists s', t. split; [done|]. split; [done|].
  split; [apply (Ht 0); by left|apply (Ht 1); by right].
Qed.

(** *** A busy predecessor *)

(** At every pass of [l], from [k] messages waiting on, the predecessor's queue is not empty. *)
Fixpoint busy (k : nat) (l : list action) : Prop :=
  match l with
  | [] => True
  | Arrive i _ :: l' => busy (if i =? 0 then Datatypes.S k else k) l'
  | Pass :: l' => (0 < k)%nat /\ busy (k - 1) l'
  end.

Definition small (m : M) : Prop := size m <= DRR_PRIORITY_RATIO * DRR_LOWER_PRIO.

(** The clients of a Ring replica can starve: while the loop serves the predecessor's
    queue and never finds it empty, no message of a client is handled, however many
    wait and however many passes are made, since handling a message does not use up
    the credit of its queue (the messages of the predecessor fit the quantum). *)
Theorem drr_starves l : forall s x, holding s x -> selector s = 0 -> Forall source_ok l -> busy (length x.1) l ->
  Forall small (x.1 ++ arrivals 0 l) ->
  exists s' t y, run s l = Some (s', t) /\ holding s' y /\ from 1 t = [] /\ y.2 = x.2 ++ arrivals 1 l.
Proof.
  induction l as [|a l IH]; intros s x Hs Hsel Hok Hb Hsm.
  { exists s, [], x. split; [done|]. split; [done|]. split; [done|]. by rewrite app_nil_r. }
  apply Forall_cons in Hok as [Ha Hok]. destruct a as [i m|]; cbn [run busy] in *.
  - destruct (arrive_ok s x i m Hs Ha) as (s1 & -> & Hs1 & Hsel1 & _). cbn [mbind option_bind].
    unfold arrivals in *. cbn in Hsm |- *. fold (arrivals 0 l) in *. fold (arrivals 1 l) in *.
    destruct (IH s1 _ Hs1) as (s' & t & y & Hr & Hy & Ht & Hy2); [congruence|done|..].
    + destruct Ha as [->| ->]; cbn in *; [|done]. rewrite length_app. cbn. by rewrite Nat.add_1_r.
    + destruct Ha as [->| ->]; cbn in *; [|done]. by rewrite <- app_assoc.
    + exists s', t, y. split; [done|]. split; [done|]. split; [done|]. rewrite Hy2. destruct Ha as [->| ->]; cbn; [done|].
      by rewrite <- app_assoc.
  - destruct Hb as [Hk Hb]. destruct (pass_ok s x Hs) as (p & Hp & Hpass). rewrite Hp. cbn [mbind option_bind].
    change (arrivals 0 (Pass :: l)) with (arrivals 0 l) in Hsm. change (arrivals 1 (Pass :: l)) with (arrivals 1 l).
    destruct p as [|s1 [m|]]; cbn [passed] in Hpass; rewrite ?Hsel in Hpass.
    + subst x. cbn in Hk. lia.
    + destruct Hpass as (t0 & Ht0 & Hs1 & Hsel1 & _). cbn in Ht0. rewrite Ht0 in Hsm, Hb. cbn in Hsm, Hb.
      destruct (IH s1 _ Hs1) as (s' & t & y & -> & Hy & Ht & Hy2); [congruence|done|by cbn; rewrite Nat.sub_0_r in Hb| |].
      { cbn. by apply Forall_cons in Hsm as [_ ?]. }
      eexists s', _, y. split; [done|]. split; [done|]. rewrite from_cons, Hsel. by split.
    + exfalso. destruct Hpass as (_ & _ & _ & Hbump). cbn [at_ Z.eqb] in Hbump. destruct x.1 as [|m z]; [cbn in Hk; lia|].
      destruct Hbump as [Hlt _]. cbn in Hlt. apply Forall_cons in Hsm as [Hm _]. unfold small in Hm.
      destruct (hold_credit _ _ Hs) as [[? _] _]. lia.
Qed.
End sched.
End RingSched.

(** ** Linked queues of messages that are their sizes *)

Module SchedExample.
Import RingSched.

Definition msg_size (m : Z) : Z := m mod 60001.
Lemma msg_size_ok m : 0 <= msg_size m <= R_Max_message_size.
Proof. unfold msg_size, R_Max_message_size. pose proof (Z.mod_pos_bound m 60001). lia. Qed.

#[local] Instance queue_ex : FifoQueue (gmap positive (@MesQueue.PR_Node Z)) MesQueue.Mes_queue Z :=
  MesQueue.mes_queue msg_size bump_alloc bump_alloc_fresh.

Local Ltac sources := repeat (apply Forall_cons; split; [cbn; tauto|]); by apply Forall_nil.

Definition start_ex := initial 4 (∅ : gmap positive (@MesQueue.PR_Node Z)) MesQueue.empty_queue.

(** A request of a client waits when the predecessor's messages come. *)
Definition mixed : list action :=
  [Arrive 1 100; Arrive 0 700; Pass; Arrive 0 30000; Pass; Arrive 1 5000; Pass; Pass].

Lemma drr_fifo_witness :
  exists s t (y : list Z * list Z), run msg_size 4 start_ex mixed = Some (s, t) /\ [700; 30000] = from 0 t ++ y.1 /\ [100; 5000] = from 1 t ++ y.2.
Proof.
  destruct (drr_fifo msg_size 4 ltac:(lia) msg_size_ok mixed ∅ MesQueue.empty_queue) as (s & t & y & Hr & _ & H0 & H1).
  - sources.
  - apply MesQueue.queue_start.
  - exists s, t, y. split; [exact Hr|]. split; [exact H0|exact H1].
Defined.

(** Three messages waiting in linked queues. *)
Definition waiting : list action := [Arrive 1 20000; Arrive 0 60000; Arrive 0 80].

Lemma waiting_holds : exists s, run msg_size 4 start_ex waiting = Some (s, []) /\ selector s = 0 /\
  holding 4 s ([60000; 80], [20000]).
Proof.
  destruct (run_fifo msg_size 4 ltac:(lia) msg_size_ok waiting ltac:(sources) start_ex ([], []))
    as (s & t & y & Hr & Hh & Ha).
  - constructor; [exists ∅, ∅; split; [apply MesQueue.queue_start|split; [apply MesQueue.queue_start|done]]|by left|].
    vm_compute. split; split; discriminate.
  - exists s. assert (t = [] /\ selector s = 0) as [-> Hs] by (vm_compute in Hr; injection Hr as <- <-; done).
    split; [done|]. split; [done|]. pose proof (Ha 0 ltac:(auto)) as H0. pose proof (Ha 1 ltac:(auto)) as H1.
    cbn in H0, H1. destruct y as [y0 y1]. cbn in H0, H1. by subst.
Qed.

Lemma drr_drains_witness :
  exists s s' t, run msg_size 4 start_ex waiting = Some (s, []) /\ run msg_size 4 s (replicate 70 Pass) = Some (s', t) /\
    from 0 t = [60000; 80] /\ from 1 t = [20000].
Proof.
  destruct waiting_holds as (s & Hr & _ & Hh).
  destruct (drr_drains msg_size 4 ltac:(lia) msg_size_ok s ([60000; 80], [20000]) 70 Hh ltac:(cbn; lia)) as (s' & t & Hrun & _ & H0 & H1).
  exists s, s', t. split; [exact Hr|]. split; [exact Hrun|]. split; [exact H0|exact H1].
Defined.

(** The predecessor's messages keep coming, one for each pass. *)
Definition flood : list action := [Arrive 1 10; Arrive 0 500; Pass; Arrive 0 501; Pass; Arrive 0 502; Pass].

Lemma drr_starves_witness :
  exists s t (y : list Z * list Z), run msg_size 4 start_ex flood = Some (s, t) /\ from 1 t = [] /\ y.2 = [10] /\ length t = 3%nat.
Proof.
  destruct (drr_starves msg_size 4 ltac:(lia) msg_size_ok flood start_ex ([], [])) as (s & t & y & Hr & _ & Ht & Hy).
  - constructor; [exists ∅, ∅; split; [apply MesQueue.queue_start|split; [apply MesQueue.queue_start|done]]|by left|].
    vm_compute. split; split; discriminate.
  - reflexivity.
  - sources.
  - cbn. lia.
  - repeat constructor; vm_compute; discriminate.
  - exists s, t, y. split; [exact Hr|]. split; [exact Ht|]. split; [exact Hy|]. vm_compute in Hr. injection Hr as _ <-. reflexivity.
Defined.
End SchedExample.
