(* ===== verification/PLog.v ===== *)
(** * The circular log of PBFT

    Models [src/protocols/pbft/Log.h] and [Log.t]: an array whose size is a power of
    two holds the entries of a window of sequence numbers; truncating moves the
    window and clears the entries that leave it, for those that enter.  A reference
    that [fetch] returns is read with [fetch] and written with [store].

    Sequence numbers have 64 bits, but [truncate] counts in an [int].  The theorems:
    below [2 ^ 31] the log is a window of entries; a truncation across [2 ^ 31]
    clears nothing, so the entries that enter the window are those that left it. *)

From S2P Require Import Prelude.
Local Open Scope Z_scope.

Module PLog.
Section log.
Context {T : Type} (clear : T -> T).

Record t := mk_log { head : Z; max_size : Z; elems : list T }.

Definition create (sz h : Z) (x : T) : t := mk_log h sz (replicate (Z.to_nat sz) x).

Definition mod_ (l : t) (s : Z) : nat := Z.to_nat (Z.land s (max_size l - 1)).
Definition within_range (l : t) (s : Z) : bool := (head l <=? s) && (s <? head l + max_size l).
Definition head_seqno (l : t) : Z := head l.
Definition max_seqno (l : t) : Z := head l + max_size l - 1.

(** The assertion on the argument is the [None] of [fetch]. *)
Definition fetch (l : t) (s : Z) : option T := if within_range l s then elems l !! mod_ l s else None.
Definition store (l : t) (s : Z) (x : T) : option t :=
  if within_range l s then Some (mk_log (head l) (max_size l) (<[mod_ l s := x]> (elems l))) else None.

Definition clear_all (l : t) (h : Z) : t := mk_log h (max_size l) (clear <$> elems l).

(** [for (; i < max; i++) elems[mod(i)].clear()], [n] times. *)
Fixpoint clear_loop (n : nat) (i : Z) (l : t) : t :=
  match n with
  | O => l
  | S n' => clear_loop n' (i + 1) (mk_log (head l) (max_size l) (alter clear (mod_ l i) (elems l)))
  end.

Definition truncate (l : t) (new_head : Z) : t :=
  if new_head <=? head l then l
  else
    let '(i, max) := if max_size l <=? new_head - head l then (0, max_size l)
                     else (to_signed 32 (head l), to_signed 32 new_head) in
    let l1 := clear_loop (Z.to_nat (max - i)) i l in
    mk_log new_head (max_size l1) (elems l1).

(** ** The window *)

Record wf (l : t) : Prop := {
  wf_power : exists k, 0 <= k < 31 /\ max_size l = 2 ^ k;
  wf_length : length (elems l) = Z.to_nat (max_size l)
}.

Lemma wf_pos l : wf l -> 0 < max_size l < 2 ^ 31.
Proof. intros [(k & Hk & ->) _]. split; [lia|]. apply Z.pow_lt_mono_r; lia. Qed.

Lemma mod_eq l s : wf l -> mod_ l s = Z.to_nat (s mod max_size l).
Proof.
  intros [(k & Hk & E) _]. unfold mod_. rewrite E.
  replace (2 ^ k - 1) with (Z.ones k) by (rewrite Z.ones_equiv; lia). by rewrite Z.land_ones by lia.
Qed.

Lemma mod_lt l s : wf l -> (mod_ l s < length (elems l))%nat.
Proof.
  intros Hl. rewrite mod_eq, (wf_length _ Hl) by done. pose proof (wf_pos l Hl).
  pose proof (Z.mod_pos_bound s (max_size l) ltac:(lia)). lia.
Qed.

(** Two numbers of one place differ by a multiple of the size. *)
Lemma mod_apart l a b : wf l -> mod_ l a = mod_ l b -> Z.abs (a - b) < max_size l -> a = b.
Proof.
  intros Hl E Hd. pose proof (wf_pos l Hl) as Hp. rewrite !mod_eq in E by done.
  pose proof (Z.mod_pos_bound a (max_size l) ltac:(lia)). pose proof (Z.mod_pos_bound b (max_size l) ltac:(lia)).
  assert (a mod max_size l = b mod max_size l) as Em by lia.
  pose proof (Z.div_mod a (max_size l) ltac:(lia)). pose proof (Z.div_mod b (max_size l) ltac:(lia)).
  assert (a / max_size l = b / max_size l) by nia. lia.
Qed.

(** The entry at the place of [s]. *)
Definition entry (l : t) (s : Z) : option T := elems l !! mod_ l s.

Lemma fetch_in l s : within_range l s = true -> fetch l s = entry l s.
Proof. unfold fetch. by intros ->. Qed.

Lemma entry_some l s : wf l -> exists x, entry l s = Some x.
Proof. intros Hl. apply lookup_lt_is_Some_2. by apply mod_lt. Qed.

Lemma log_store_wf l s x l' : wf l -> store l s x = Some l' -> wf l'.
Proof. unfold store. intros [H1 H2]. case_match; [|done]. intros [= <-]. constructor; [done|]. cbn. by rewrite length_insert. Qed.

Lemma clear_loop_same n i l : head (clear_loop n i l) = head l /\ max_size (clear_loop n i l) = max_size l /\
  length (elems (clear_loop n i l)) = length (elems l).
Proof.
  revert i l. induction n as [|n IH]; intros i l; cbn; [done|]. destruct (IH (i + 1) (mk_log (head l) (max_size l) (alter clear (mod_ l i) (elems l)))) as (-> & -> & ->).
  cbn. by rewrite length_alter.
Qed.

Local Abbreviation clear_one l i := (mk_log (head l) (max_size l) (alter clear (mod_ l i) (elems l))).

Lemma clear_one_wf l i : wf l -> wf (clear_one l i).
Proof. intros [H1 H2]. constructor; [done|]. cbn. by rewrite length_alter. Qed.

Lemma clear_loop_out n i l s : (forall j, i <= j < i + Z.of_nat n -> mod_ l j <> mod_ l s) ->
  entry (clear_loop n i l) s = entry l s.
Proof.
  revert i l. induction n as [|n IH]; intros i l Hout; cbn [clear_loop]; [done|].
  rewrite IH by (intros j Hj; apply (Hout j); lia). unfold entry. cbn. rewrite list_lookup_alter_ne; [done|]. apply (Hout i). lia.
Qed.

(** Clearing at most a whole round clears each place once. *)
Lemma clear_loop_in n i l s j : wf l -> Z.of_nat n <= max_size l -> i <= j < i + Z.of_nat n -> mod_ l j = mod_ l s ->
  entry (clear_loop n i l) s = clear <$> entry l s.
Proof.
  revert i l. induction n as [|n IH]; intros i l Hl Hn Hj E; [lia|]. cbn [clear_loop]. destruct (decide (j = i)) as [->|Hne].
  - rewrite clear_loop_out.
    + unfold entry. change (mod_ (clear_one l i) s) with (mod_ l s). rewrite <- E. cbn. by rewrite list_lookup_alter_eq.
    + intros k Hk Ek. change (mod_ (clear_one l i)) with (mod_ l) in Ek. rewrite <- E in Ek.
      apply (mod_apart l k i Hl) in Ek; [lia|]. lia.
  - rewrite (IH (i + 1) (clear_one l i)); [|by apply clear_one_wf|cbn; lia|lia|done]. unfold entry. cbn.
    rewrite list_lookup_alter_ne; [done|]. change (mod_ (clear_one l i) s) with (mod_ l s). rewrite <- E.
    intros Ei. apply (mod_apart l i j Hl) in Ei; lia.
Qed.

Lemma truncate_wf l h : wf l -> wf (truncate l h).
Proof.
  intros Hl. unfold truncate. destruct (_ <=? _); [done|]. destruct (if max_size l <=? h - head l then _ else _) as [i max].
  destruct (clear_loop_same (Z.to_nat (max - i)) i l) as (_ & E2 & E3). destruct Hl as [H1 H2]. constructor; cbn; rewrite E2; [done|by rewrite E3].
Qed.

Lemma truncate_head l h : head (truncate l h) = Z.max (head l) h.
Proof. unfold truncate. destruct (Z.leb_spec h (head l)); [lia|]. destruct (if max_size l <=? h - head l then _ else _). cbn. lia. Qed.

Lemma truncate_size l h : max_size (truncate l h) = max_size l.
Proof.
  unfold truncate. destruct (_ <=? _); [done|]. destruct (if max_size l <=? h - head l then _ else _) as [i max]. cbn. apply clear_loop_same.
Qed.

Lemma log_int_id z : 0 <= z < 2 ^ 31 -> to_signed 32 z = z.
Proof. intros. apply to_signed_id; [lia|]. unfold in_s. lia. Qed.

(** What a truncation does to the new window. *)
Lemma truncate_entry l h s : wf l -> 0 <= head l < h -> h < 2 ^ 31 -> h <= s < h + max_size l ->
  entry (truncate l h) s = if s <? head l + max_size l then entry l s else clear <$> entry l s.
Proof.
  intros Hl Hh Hm Hs. pose proof (wf_pos l Hl) as Hp. unfold truncate. rewrite (proj2 (Z.leb_gt _ _)) by lia.
  destruct (Z.leb_spec (max_size l) (h - head l)) as [Hbig|Hsmall].
  - rewrite (proj2 (Z.ltb_ge _ _)) by lia. apply (clear_loop_in (Z.to_nat (max_size l - 0)) 0 l s (s mod max_size l)); [done|lia| |].
    + pose proof (Z.mod_pos_bound s (max_size l) ltac:(lia)). lia.
    + rewrite !mod_eq by done. by rewrite Z.mod_mod by lia.
  - rewrite (log_int_id (head l)), (log_int_id h) by lia. destruct (Z.ltb_spec s (head l + max_size l)).
    + apply clear_loop_out. intros j Hj E. apply (mod_apart l j s Hl) in E; lia.
    + apply (clear_loop_in (Z.to_nat (h - head l)) (head l) l s (s - max_size l)); [done|lia|lia|].
      rewrite !mod_eq by done. f_equal. rewrite <- (Z.mod_add (s - max_size l) 1) by lia. f_equal. lia.
Qed.

Lemma log_in l s : within_range l s = true <-> head l <= s < head l + max_size l.
Proof. unfold within_range. rewrite andb_true_iff, Z.leb_le, Z.ltb_lt. done. Qed.

Lemma log_fetch_some l s : wf l -> (is_Some (fetch l s) <-> head l <= s < head l + max_size l).
Proof.
  intros Hl. unfold fetch. destruct (within_range l s) eqn:E.
  - rewrite log_in in E. split; [done|]. intros _. apply lookup_lt_is_Some_2. by apply mod_lt.
  - split; [by intros [? ?]|]. rewrite <- log_in. congruence.
Qed.

Lemma log_fetch_store l s x l' : wf l -> store l s x = Some l' -> wf l' /\ head l' = head l /\ max_size l' = max_size l /\
  forall r, fetch l' r = if r =? s then Some x else fetch l r.
Proof.
  intros Hl. unfold store. destruct (within_range l s) eqn:Hs; [|done]. intros [= <-].
  split; [destruct Hl as [H1 H2]; constructor; [done|]; cbn; by rewrite length_insert|]. split; [done|]. split; [done|].
  intros r. unfold fetch. change (within_range (mk_log (head l) (max_size l) _) r) with (within_range l r). change (mod_ (mk_log _ _ _) r) with (mod_ l r).
  destruct (Z.eqb_spec r s) as [->|Hne]; [rewrite Hs; apply list_lookup_insert_eq; by apply mod_lt|].
  destruct (within_range l r) eqn:Hr; [|done]. cbn. rewrite list_lookup_insert_ne; [done|]. intros E. rewrite log_in in Hr, Hs. apply (mod_apart l s r Hl) in E; lia.
Qed.

Lemma log_store_head l s x l' : store l s x = Some l' -> head l' = head l.
Proof. unfold store. destruct (within_range l s); [|done]. by intros [= <-]. Qed.

Lemma log_store_some l s x : head l <= s < head l + max_size l -> exists l', store l s x = Some l'.
Proof. intros Hs. apply log_in in Hs. unfold store. rewrite Hs. eauto. Qed.

Lemma log_fetch_truncate l h s : wf l -> 0 <= head l -> h < 2 ^ 31 -> Z.max (head l) h <= s < Z.max (head l) h + max_size l ->
  fetch (truncate l h) s = if s <? head l + max_size l then fetch l s else clear <$> entry l s.
Proof.
  intros Hl H0 Hh Hs. pose proof (wf_pos l Hl) as Hp. destruct (Z.leb_spec h (head l)) as [Hle|Hlt].
  - unfold truncate. rewrite (proj2 (Z.leb_le _ _)), (proj2 (Z.ltb_lt _ _)) by lia. done.
  - assert (Hin : within_range (truncate l h) s = true) by (rewrite log_in, truncate_head, truncate_size; lia).
    rewrite fetch_in, truncate_entry by (done || lia). destruct (Z.ltb_spec s (head l + max_size l)); [|done].
    rewrite fetch_in; [done|]. rewrite log_in. lia.
Qed.

(** Every place of the array belongs to a number of the window. *)
Lemma entry_fetch l s : wf l -> exists s', entry l s = fetch l s'.
Proof.
  intros Hl. pose proof (wf_pos l Hl) as Hp. exists (head l + (s - head l) mod max_size l).
  pose proof (Z.mod_pos_bound (s - head l) (max_size l) ltac:(lia)). rewrite fetch_in by (rewrite log_in; lia).
  unfold entry. f_equal. rewrite !mod_eq by done. f_equal. rewrite Zplus_mod_idemp_r. f_equal. lia.
Qed.

(** C25. The circular log of PBFT is a window of entries, while sequence numbers stay
    below [2 ^ 31]: an entry is there exactly for the numbers of the window, storing
    one changes that one only, and truncating moves the window, keeps the entries
    that stay in it and gives cleared ones to those that enter. *)
Theorem log_is_window l h : wf l -> 0 <= head l -> h < 2 ^ 31 ->
  (forall s, is_Some (fetch l s) <-> head l <= s < head l + max_size l) /\
  (forall s x, head l <= s < head l + max_size l -> exists l', store l s x = Some l' /\ wf l' /\
     forall r, fetch l' r = if r =? s then Some x else fetch l r) /\
  (forall s, Z.max (head l) h <= s < Z.max (head l) h + max_size l ->
     fetch (truncate l h) s = if s <? head l + max_size l then fetch l s else clear <$> entry l s) /\
  wf (truncate l h).
Proof.
  intros Hl H0 Hh. split; [intros s; by apply log_fetch_some|]. split; [|split; [intros s; by apply log_fetch_truncate|by apply truncate_wf]].
  intros s x Hs. destruct (log_store_some l s x Hs) as [l' E]. exists l'. split; [done|].
  by destruct (log_fetch_store l s x l' Hl E) as (? & _ & _ & ?).
Qed.

(** A truncation of the log across the sequence number [2 ^ 31] clears nothing: the
    loop counts in an [int], whose upper bound is then negative, and the numbers that
    enter the window find the entries of those that left it. *)
Theorem truncate_wraps l h s : wf l -> 0 <= head l < 2 ^ 31 -> 2 ^ 31 <= h < head l + max_size l ->
  head l + max_size l <= s < h + max_size l ->
  fetch (truncate l h) s = fetch l (s - max_size l).
Proof.
  intros Hl Hh Hh' Hs. pose proof (wf_pos l Hl) as Hp.
  assert (Hin : within_range (truncate l h) s = true).
  { unfold within_range. rewrite truncate_head, truncate_size. bsimp. lia. }
  rewrite !fetch_in by (done || (unfold within_range; bsimp; lia)). unfold truncate.
  rewrite (proj2 (Z.leb_gt _ _)), (proj2 (Z.leb_gt _ _)), (log_int_id (head l)) by lia.
  assert (E : to_signed 32 h = h - 2 ^ 32).
  { unfold to_signed, wrapu. rewrite Z.mod_small by lia. rewrite (proj2 (Z.ltb_ge _ _)) by lia. done. }
  rewrite E, Z2Nat.nonpos by lia. unfold entry. cbn. unfold mod_ at 1. cbn. fold (mod_ l s). f_equal. rewrite !mod_eq by done. f_equal.
  rewrite <- (Z.mod_add (s - max_size l) 1) by lia. f_equal. lia.
Qed.
End log.
End PLog.

(** ** A log of four numbers, cleared to 0 *)

Module LogExample.
Import PLog.

Definition zero (_ : Z) : Z := 0.
Definition log_at (h : Z) : @PLog.t Z := mk_log h 4 [40; 41; 42; 43].
Lemma log_at_wf h : wf (log_at h).
Proof. constructor; [exists 2; split; [lia|reflexivity]|reflexivity]. Qed.

(** The window 1 to 4 becomes 3 to 6: 5 and 6 take the places of 1 and 2. *)
Lemma log_is_window_witness :
  fetch (truncate zero (log_at 1) 3) 4 = Some 40 /\ fetch (truncate zero (log_at 1) 3) 6 = Some 0.
Proof.
  destruct (log_is_window zero (log_at 1) 3 (log_at_wf 1) ltac:(simpl; lia) ltac:(lia)) as (_ & _ & Ht & _). split.
  - rewrite (Ht 4) by (simpl; lia). reflexivity.
  - rewrite (Ht 6) by (simpl; lia). reflexivity.
Defined.

Lemma truncate_wraps_witness : fetch (truncate zero (log_at 2147483647) 2147483649) 2147483651 = Some 43.
Proof.
  rewrite (truncate_wraps zero (log_at 2147483647) 2147483649 2147483651 (log_at_wf _)) by (simpl; lia). reflexivity.
Defined.
End LogExample.
