(* ===== verification/PCert.v ===== *)
(** * PBFT certificates

    Models [src/protocols/pbft/replica/PBFT_R_Certificate.{h,t}]: the messages of
    different replicas, counted by value; a value is known to be correct once [f + 1]
    replicas have sent it, or the replica itself, and the certificate is complete
    when [complete] replicas have sent the correct value.  The message class of the
    template is the type class [PMsg]; [match] may fail its assertion.  The values
    are [vals], in an array of [f + 1] places, the pointer [c] is an index of it, and
    [mym], which always points to the message of [c], is a flag.  [None] is a failed
    assertion or a null pointer.  [encode] and [decode] (files) and the time a message
    was sent are left out.

    The theorem: whatever is added, a certificate is complete only with that many
    different replicas that sent messages of one value. *)

From S2P Require Import Prelude Bitmap Certificate.
Local Open Scope Z_scope.

(** The methods a certificate asks of its message class. *)
Class PMsg (T : Type) := {
  p_id : T -> Z;
  p_full : T -> bool;
  p_match : T -> T -> option bool
}.

Module PCert.
Section certificate.
Context {T : Type} `{PMsg T}.
Context (node_id num_replicas f : Z) (verify : T -> bool).

Record Message_val := mk_val { vm : option T; vcount : Z }.
Record t := mk_cert {
  bmap : Bitmap.t; vals : list Message_val; cur_size : Z; correct : Z; c : option nat; complete : Z; mym : bool
}.

Definition is_replica (id : Z) : bool := (0 <=? id) && (id <? num_replicas).
Definition no_val : Message_val := mk_val None 0.

Definition create (comp : Z) : t :=
  mk_cert (Bitmap.create Max_num_replicas false) (replicate (Z.to_nat (f + 1)) no_val) 0 (f + 1) None
    (if comp =? 0 then f * 2 + 1 else comp) false.

Definition cval (x : t) : option Message_val := i ← c x; vals x !! i.
Definition cvalue (x : t) : option T := v ← cval x; vm v.
Definition num_correct (x : t) : Z := match cval x with Some v => vcount v | None => 0 end.
Definition is_complete (x : t) : bool := complete x <=? num_correct x.
Definition mine (x : t) : option T := if mym x then cvalue x else None.
Definition is_empty (x : t) : bool := Bitmap.all_zero (bmap x).

Definition with_vals (l : list Message_val) (x : t) : t :=
  mk_cert (bmap x) l (cur_size x) (correct x) (c x) (complete x) (mym x).
Definition with_c (i : option nat) (x : t) : t :=
  mk_cert (bmap x) (vals x) (cur_size x) (correct x) i (complete x) (mym x).
Definition with_bmap (b : Bitmap.t) (x : t) : t :=
  mk_cert b (vals x) (cur_size x) (correct x) (c x) (complete x) (mym x).
Definition with_size (n : Z) (x : t) : t :=
  mk_cert (bmap x) (vals x) n (correct x) (c x) (complete x) (mym x).
Definition with_mym (b : bool) (x : t) : t :=
  mk_cert (bmap x) (vals x) (cur_size x) (correct x) (c x) (complete x) b.

(** [for (i = 0; i < cur_size; i++) vals[i].clear()]. *)
Definition clear_vals (l : list Message_val) (lo hi : Z) : list Message_val :=
  imap (fun i v => if (lo <=? Z.of_nat i) && (Z.of_nat i <? hi) then no_val else v) l.

Definition clear (x : t) : t :=
  mk_cert (Bitmap.clear (bmap x)) (clear_vals (vals x) 0 (cur_size x)) 0 (correct x) None (complete x) false.

Definition make_complete (x : t) : t :=
  match c x with
  | Some i => with_vals (alter (fun v => mk_val (vm v) (complete x)) i (vals x)) x
  | None => x
  end.

(** One more message [m] of the value [v]; a full one replaces one that is not. *)
Definition count_msg (v : Message_val) (m : T) : option Message_val :=
  old ← vm v;
  Some (mk_val (Some (if negb (p_full old) && p_full m then m else old)) (vcount v + 1)).

(** The first of the [n] values from [i] on that matches. *)
Fixpoint find_val (l : list Message_val) (m : T) (n i : nat) : option (option nat) :=
  match n with
  | O => Some None
  | S n' =>
    v ← l !! i; old ← vm v; b ← p_match old m;
    if (b : bool) then Some (Some i) else find_val l m n' (S i)
  end.

Definition add (x : t) (m : T) : option (t * bool) :=
  let id := p_id m in
  if negb (is_replica id) then Some (x, false)
  else
    b ← Bitmap.test (bmap x) id;
    if (b : bool) then Some (x, false)
    else
      fits ← match c x with
             | None => Some true
             | Some _ =>
               v ← cval x;
               if vcount v <? complete x then old ← vm v; p_match old m else Some false
             end;
      if (fits : bool) && verify m then
        if id =? node_id then None
        else
          bm ← Bitmap.set (bmap x) id;
          let x := with_bmap bm x in
          match c x with
          | Some i => v ← vals x !! i; v' ← count_msg v m; Some (with_vals (<[i := v']> (vals x)) x, true)
          | None =>
            k ← find_val (vals x) m (Z.to_nat (cur_size x)) 0;
            match k with
            | Some i =>
              v ← vals x !! i; v' ← count_msg v m;
              let x := with_vals (<[i := v']> (vals x)) x in
              Some (if correct x <=? vcount v' then with_c (Some i) x else x, true)
            | None =>
              if cur_size x <? f + 1 then
                Some (with_size (cur_size x + 1) (with_vals (<[Z.to_nat (cur_size x) := mk_val (Some m) 1]> (vals x)) x), true)
              else Some (clear x, false)
            end
          end
      else if verify m then bm ← Bitmap.set (bmap x) id; Some (with_bmap bm x, false)
      else Some (x, false).

Definition add_mine (x : t) (m : T) : option (t * bool) :=
  if negb (p_id m =? node_id) || negb (p_full m) then None
  else
    fits ← match c x with None => Some true | Some _ => v ← cval x; old ← vm v; p_match old m end;
    if negb fits then Some (x, false)
    else
      x ← match c x with
          | Some _ => Some x
          | None =>
            k ← find_val (vals x) m (Z.to_nat (cur_size x)) 0;
            match k with
            | Some i => Some (with_c (Some i) x)
            | None =>
              v ← vals x !! 0%nat;
              Some (with_c (Some 0%nat) (with_vals (<[0%nat := mk_val (vm v) 0]> (vals x)) x))
            end
          end;
      i ← c x; v ← vals x !! i;
      x ← match vm v with
          | None => if cur_size x =? 0 then Some (with_size 1 x) else None
          | Some _ => Some x
          end;
      Some (with_mym true (with_vals (<[i := mk_val (Some m) (vcount v + 1)]> (vals x)) x), true).

Definition mark_stale (x : t) : option t :=
  if is_complete x then Some x
  else
    let old := cur_size x in
    if mym x then
      i ← c x; v ← vals x !! i;
      let l := <[0%nat := mk_val (vm v) 1]> (<[i := no_val]> (vals x)) in
      Some (mk_cert (Bitmap.clear (bmap x)) (clear_vals l 1 old) 1 (correct x) (Some 0%nat) (complete x) true)
    else Some (mk_cert (Bitmap.clear (bmap x)) (clear_vals (vals x) 0 old) 0 (correct x) None (complete x) false).

(** [cvalue_clear]: the value is taken out. *)
Definition cvalue_clear (x : t) : t * option T :=
  match c x with None => (x, None) | Some _ => (clear x, cvalue x) end.

(** ** Using a certificate

    The calls of its users; [add_mine] requires that there is no message of the replica
    in the certificate.  The messages that were taken in are returned too. *)

Inductive op := Add (m : T) | AddMine (m : T) | MarkStale | Clear | Take.

Definition call (x : t) (o : op) : option (t * list T) :=
  match o with
  | Add m => '(x', b) ← add x m; Some (x', if (b : bool) then [m] else [])
  | AddMine m =>
    if mine x then None else '(x', b) ← add_mine x m; Some (x', if (b : bool) then [m] else [])
  | MarkStale => x' ← mark_stale x; Some (x', [])
  | Clear => Some (clear x, [])
  | Take => Some (fst (cvalue_clear x), [])
  end.

Fixpoint calls (x : t) (acc : list T) (os : list op) : option (t * list T) :=
  match os with
  | [] => Some (x, acc)
  | o :: os => '(x', taken) ← call x o; calls x' (taken ++ acc) os
  end.

(** ** Who stands behind a value *)

Context {K : Type} (key : T -> K) `{!EqDecision K}.
Context (match_key : forall a b r, p_match a b = Some r -> r = bool_decide (key a = key b)).
Context (group : 0 <= num_replicas <= Max_num_replicas) (f_nonneg : 0 <= f).

(** The senders [ids] of the value at [i], each of a message of [acc]. *)
Definition backed (acc : list T) (x : t) (i : nat) (v : Message_val) : Prop :=
  exists m ids, vm v = Some m /\ NoDup ids /\ vcount v = Z.of_nat (length ids) /\
    forall id, id ∈ ids ->
      (exists m', m' ∈ acc /\ p_id m' = id /\ key m' = key m) /\
      (id <> node_id /\ 0 <= id /\ Bitmap.bit (bmap x) id = true \/ id = node_id /\ mym x = true /\ c x = Some i).

(** The replica's own message is one of the value's. *)
Definition own (acc : list T) (x : t) : Prop :=
  exists i v m m', c x = Some i /\ vals x !! i = Some v /\ vm v = Some m /\ m' ∈ acc /\ p_id m' = node_id /\ key m' = key m.

Record inv (acc : list T) (x : t) : Prop := {
  inv_bmap : Bitmap.wf (bmap x) /\ Bitmap.num (bmap x) = Max_num_replicas;
  inv_size : 0 <= cur_size x <= f + 1;
  inv_length : length (vals x) = Z.to_nat (f + 1);
  inv_backed : forall i v, vals x !! i = Some v -> Z.of_nat i < cur_size x -> backed acc x i v;
  inv_free : forall i v, vals x !! i = Some v -> cur_size x <= Z.of_nat i -> v = no_val;
  inv_c : forall i, c x = Some i -> Z.of_nat i < cur_size x;
  inv_mym : mym x = true -> own acc x
}.

Lemma pcert_create_inv acc comp : inv acc (create comp).
Proof.
  constructor; cbn; try done; [split; [apply Bitmap.create_wf; unfold Max_num_replicas, Bitmap.uint; lia|done]|lia|by rewrite length_replicate|lia|].
  intros i v Hv _. by apply lookup_replicate in Hv as [-> _].
Qed.

Lemma backed_mono acc acc' x x' i v : backed acc x i v -> (forall m, m ∈ acc -> m ∈ acc') ->
  (forall id, 0 <= id -> Bitmap.bit (bmap x) id = true -> Bitmap.bit (bmap x') id = true) ->
  (mym x = true -> c x = Some i -> mym x' = true /\ c x' = Some i) -> backed acc' x' i v.
Proof.
  intros (m & ids & Hm & Hnd & Hc & Hids) Ha Hb Hy. exists m, ids. split; [done|]. split; [done|]. split; [done|].
  intros id Hid. destruct (Hids id Hid) as [(m' & Hin & E1 & E2) Hwhy]. split; [exists m'; auto|].
  destruct Hwhy as [(? & ? & ?)|(? & ? & ?)]; [left; auto|right]. destruct Hy; auto.
Qed.

Lemma own_mono acc acc' x : own acc x -> (forall m, m ∈ acc -> m ∈ acc') -> own acc' x.
Proof. intros (i & v & m & m' & E1 & E2 & E3 & E4 & E5) Ha. exists i, v, m, m'. auto 6. Qed.

Lemma own_c acc x : own acc x -> c x <> None.
Proof. intros (i & v & m & m' & -> & _). done. Qed.

Lemma inv_mono acc acc' x : inv acc x -> (forall m, m ∈ acc -> m ∈ acc') -> inv acc' x.
Proof. intros [] Ha. constructor; try done; [|eauto using own_mono]. intros i v Hv Hi. eapply backed_mono; eauto. Qed.

(** Looking for a matching value. *)
Lemma find_val_spec l m n : forall i r, find_val l m n i = Some r ->
  match r with
  | Some k => (i <= k < i + n)%nat /\ exists v old, l !! k = Some v /\ vm v = Some old /\ key old = key m
  | None => True
  end.
Proof.
  induction n as [|n IH]; intros i r Hf; cbn in Hf; [by injection Hf as <-|].
  destruct (l !! i) as [v|] eqn:Ev; [|done]. cbn in Hf. destruct (vm v) as [old|] eqn:Eo; [|done]. cbn in Hf.
  destruct (p_match old m) as [b|] eqn:Em; [|done]. cbn in Hf. apply match_key in Em. destruct b.
  - injection Hf as <-. split; [lia|]. exists v, old. split; [done|]. split; [done|]. symmetry in Em. by apply bool_decide_eq_true in Em.
  - apply IH in Hf. destruct r as [k|]; [|done]. destruct Hf as [? ?]. split; [lia|done].
Qed.

(** Counting a message of another replica. *)
Lemma count_backed acc x x' i v v' m old : backed acc x i v -> count_msg v m = Some v' -> vm v = Some old -> key old = key m ->
  p_id m <> node_id -> 0 <= p_id m -> Bitmap.bit (bmap x) (p_id m) = false -> Bitmap.bit (bmap x') (p_id m) = true ->
  (forall id, 0 <= id -> Bitmap.bit (bmap x) id = true -> Bitmap.bit (bmap x') id = true) ->
  (mym x = true -> c x = Some i -> mym x' = true /\ c x' = Some i) -> backed (m :: acc) x' i v'.
Proof.
  intros (m0 & ids & Hm & Hnd & Hc & Hids) Hcount Ho Hk Hne Hge Hb Hb' Hmono Hy. unfold count_msg in Hcount. rewrite Ho in Hcount.
  cbn in Hcount. injection Hcount as <-. rewrite Ho in Hm. injection Hm as <-.
  set (kept := if negb (p_full old) && p_full m then m else old). assert (Hkk : key kept = key m) by (unfold kept; by destruct (_ && _)).
  exists kept, (p_id m :: ids). split; [done|]. split.
  { apply NoDup_cons. split; [|done]. intros Hin. destruct (Hids _ Hin) as [_ [(_ & _ & E)|[E _]]]; congruence. }
  split; [cbn; lia|]. intros id Hid. apply elem_of_cons in Hid as [->|Hid].
  - split; [exists m; split; [by left|]; auto|by left].
  - destruct (Hids id Hid) as [(m' & Hin & E1 & E2) Hwhy]. split; [exists m'; split; [by right|]; split; congruence|].
    destruct Hwhy as [(? & ? & ?)|(? & ? & ?)]; [left; auto|right]. destruct Hy; auto.
Qed.

Lemma clear_vals_lookup l lo hi i : clear_vals l lo hi !! i =
  (fun v => if (lo <=? Z.of_nat i) && (Z.of_nat i <? hi) then no_val else v) <$> l !! i.
Proof. unfold clear_vals. apply list_lookup_imap. Qed.

Lemma clear_bits b : Bitmap.wf b -> Bitmap.wf (Bitmap.clear b) /\ Bitmap.num (Bitmap.clear b) = Bitmap.num b.
Proof.
  intros (? & Hn & ? & ?). split; [|done]. repeat split; cbn; try done; [lia..|rewrite length_replicate; lia|].
  apply Forall_replicate. unfold in_u, Bitmap.wordsize. lia.
Qed.

Lemma pcert_clear_inv acc acc' x : inv acc x -> inv acc' (clear x).
Proof.
  intros [[Hw Hn] Hs Hl Hb Hf Hc Hm]. constructor; cbn; try done; [split; [by apply clear_bits|done]|lia| |lia|].
  - unfold clear_vals. by rewrite length_imap.
  - intros i v Hv Hi. rewrite clear_vals_lookup in Hv. destruct (vals x !! i) as [w|] eqn:Ew; [|done]. cbn in Hv.
    destruct (_ && _) eqn:E; [by injection Hv as <-|]. injection Hv as <-. eapply Hf; [done|]. bsimp. lia.
Qed.

(** Marking the sender. *)
Lemma set_bit x id acc : inv acc x -> is_replica id = true -> exists bm, Bitmap.set (bmap x) id = Some bm /\
  (Bitmap.wf bm /\ Bitmap.num bm = Max_num_replicas) /\ Bitmap.bit bm id = true /\
  forall j, 0 <= j -> Bitmap.bit (bmap x) j = true -> Bitmap.bit bm j = true.
Proof.
  intros [[Hw Hn] _ _ _ _ _ _] Hr. unfold is_replica in Hr. bsimp.
  destruct (Bitmap.set_spec (bmap x) id Hw) as (bm & Hset & Hw' & Hn' & Hbit); [lia|]. exists bm. split; [done|].
  split; [split; [done|congruence]|]. split; [rewrite Hbit by lia; by rewrite bool_decide_true|].
  intros j Hj Ej. rewrite Hbit by lia. by case_bool_decide.
Qed.

(** The state after the sender is marked. *)
Lemma pcert_mark_inv acc x bm : inv acc x -> (Bitmap.wf bm /\ Bitmap.num bm = Max_num_replicas) ->
  (forall j, 0 <= j -> Bitmap.bit (bmap x) j = true -> Bitmap.bit bm j = true) -> inv acc (with_bmap bm x).
Proof.
  intros [Hw Hs Hl Hb Hf Hc Hm] Hw' Hmono. constructor; try done.
  intros i v Hv Hi. cbn in *. eapply backed_mono; eauto.
Qed.

(** One value of the array replaced by a backed one, the others standing as they were. *)
Lemma update_inv acc acc' x x' i v' : inv acc x -> (i < length (vals x))%nat ->
  vals x' = <[i := v']> (vals x) -> Z.of_nat i <= cur_size x -> cur_size x' = Z.max (cur_size x) (Z.of_nat i + 1) -> cur_size x' <= f + 1 ->
  (Bitmap.wf (bmap x') /\ Bitmap.num (bmap x') = Max_num_replicas) -> backed acc' x' i v' ->
  (forall j v, j <> i -> vals x !! j = Some v -> backed acc x j v -> backed acc' x' j v) ->
  (forall j, c x' = Some j -> Z.of_nat j < cur_size x') -> (mym x' = true -> own acc' x') -> inv acc' x'.
Proof.
  intros [Hw Hs Hl Hb Hf Hc Hm] Hlen Hv Hi Hsz Hsz' Hw' Hback Hrest Hc' Hm'. constructor; try done; [lia|by rewrite Hv, length_insert| |].
  - intros j v Hj Hlt. rewrite Hv in Hj. destruct (decide (j = i)) as [->|Hne].
    + rewrite list_lookup_insert_eq in Hj by done. by injection Hj as <-.
    + rewrite list_lookup_insert_ne in Hj by done. apply Hrest; [done|done|]. apply Hb; [done|].
      destruct (decide (Z.of_nat j < cur_size x)); [done|lia].
  - intros j v Hj Hge. rewrite Hv in Hj. destruct (decide (j = i)) as [->|Hne]; [lia|].
    rewrite list_lookup_insert_ne in Hj by done. apply (Hf j); [done|lia].
Qed.

(** A message of the value at [i] counted there. *)
Lemma pcert_counted_inv acc x x' m i v v' old bm : inv acc x -> is_replica (p_id m) = true -> p_id m <> node_id ->
  Bitmap.bit (bmap x) (p_id m) = false -> Bitmap.set (bmap x) (p_id m) = Some bm -> vals x !! i = Some v ->
  Z.of_nat i < cur_size x -> vm v = Some old -> key old = key m -> count_msg v m = Some v' ->
  vals x' = <[i := v']> (vals x) -> cur_size x' = cur_size x -> bmap x' = bm -> mym x' = mym x ->
  c x' = c x \/ c x = None /\ (c x' = Some i) -> inv (m :: acc) x'.
Proof.
  intros Hi Hr Hne Hbit Hset Hv Hlt Hold Hk Hcount Hv' Hsz Hbm Hmy Hcc. pose proof Hi as [[Hw Hn] Hs Hl Hb Hf Hc Hm].
  destruct (set_bit x (p_id m) acc Hi Hr) as (bm' & E & Hw' & Hb' & Hmono). rewrite Hset in E. injection E as <-.
  assert (Hy : forall j, mym x = true -> c x = Some j -> mym x' = true /\ c x' = Some j).
  { intros j ? Ej. split; [congruence|]. destruct Hcc as [Hcc|[Hcc _]]; congruence. }
  assert (0 <= p_id m) by (unfold is_replica in Hr; bsimp; lia).
  apply (update_inv acc _ x x' i v'); try done; [by apply lookup_lt_Some in Hv|lia|lia|lia|by rewrite Hbm| | | |].
  - eapply (count_backed acc x); eauto; rewrite Hbm; eauto.
  - intros j w Hji Hjv Hbj. eapply backed_mono; [done|by right|rewrite Hbm; eauto|eauto].
  - intros j Hj. rewrite Hsz. destruct Hcc as [Hcc|[_ Hcc]]; [apply Hc; congruence|]. rewrite Hcc in Hj. by injection Hj as <-.
  - intros Hj. rewrite Hmy in Hj. destruct (Hm Hj) as (i0 & v0 & m0 & m0' & Ec & Ev & E0 & Hin & Eid & Ek).
    destruct Hcc as [Hcc|[Hcc _]]; [|congruence]. destruct (decide (i0 = i)) as [->|Hji].
    + rewrite Hv in Ev. injection Ev as <-. rewrite Hold in E0. injection E0 as <-. unfold count_msg in Hcount.
      rewrite Hold in Hcount. cbn in Hcount. injection Hcount as <-. eexists i, _, _, m0'. split; [congruence|].
      rewrite Hv', list_lookup_insert_eq by by apply lookup_lt_Some in Hv. split; [done|]. split; [done|].
      split; [by right|]. split; [done|]. destruct (_ && _); congruence.
    + exists i0, v0, m0, m0'. split; [congruence|]. rewrite Hv', list_lookup_insert_ne by done. split; [done|].
      split; [done|]. split; [by right|done].
Qed.

(** A first message of a new value. *)
Lemma new_value_inv acc x m bm : inv acc x -> is_replica (p_id m) = true -> p_id m <> node_id -> cur_size x < f + 1 ->
  c x = None -> Bitmap.set (bmap x) (p_id m) = Some bm ->
  inv (m :: acc) (with_size (cur_size x + 1) (with_vals (<[Z.to_nat (cur_size x) := mk_val (Some m) 1]> (vals x)) (with_bmap bm x))).
Proof.
  intros Hi Hr Hne Hlt Hno Hset. pose proof Hi as [[Hw Hn] Hs Hl Hb Hf Hc Hm].
  destruct (set_bit x (p_id m) acc Hi Hr) as (bm' & E & Hw' & Hb' & Hmono). rewrite Hset in E. injection E as <-.
  eapply (update_inv acc _ x); cbn; try done; [lia|lia|lia|lia| | | |].
  - exists m, [p_id m]. split; [done|]. split; [apply NoDup_singleton|]. split; [done|]. intros id Hid.
    apply list_elem_of_singleton in Hid as ->. split; [exists m; split; [by left|done]|]. left. unfold is_replica in Hr. bsimp. auto.
  - intros j w _ _ Hbj. eapply backed_mono; [done|by right|done|done].
  - intros j Hj. apply Hc in Hj. lia.
  - intros Hy. by apply Hm, own_c in Hy.
Qed.

Lemma match_true a b : p_match a b = Some true -> key a = key b.
Proof. intros E. apply match_key in E. symmetry in E. by apply bool_decide_eq_true in E. Qed.

(** What [add] does with a message that fits and is authentic. *)
Lemma accept_inv acc x m bm i v v' old x' : inv acc x -> is_replica (p_id m) = true -> p_id m <> node_id ->
  Bitmap.bit (bmap x) (p_id m) = false -> Bitmap.set (bmap x) (p_id m) = Some bm ->
  vals x !! i = Some v -> Z.of_nat i < cur_size x -> count_msg v m = Some v' -> vm v = Some old -> key old = key m ->
  x' = with_vals (<[i := v']> (vals x)) (with_bmap bm x) -> inv (m :: acc) x' /\ (c x = None -> inv (m :: acc) (with_c (Some i) x')).
Proof. intros ??????????  ->. split; [|intros ?]; eapply (pcert_counted_inv acc x); eauto. Qed.

Lemma pcert_add_inv acc x m x' b : inv acc x -> add x m = Some (x', b) ->
  inv (if b then m :: acc else acc) x' /\ complete x' = complete x /\
  (b = true -> verify m = true /\ is_replica (p_id m) = true /\ p_id m <> node_id).
Proof.
  intros Hi. pose proof Hi as [[Hw Hn] Hs Hl Hb Hf Hc Hm]. unfold add.
  destruct (is_replica (p_id m)) eqn:Hr; cbn [negb]; [|by intros [= <- <-]].
  destruct (Bitmap.test (bmap x) (p_id m)) as [tb|] eqn:Et; [|done]. cbn [mbind option_bind]. destruct tb; [by intros [= <- <-]|].
  assert (Hbit : Bitmap.bit (bmap x) (p_id m) = false).
  { rewrite Bitmap.test_spec in Et by (unfold is_replica in Hr; bsimp; lia). congruence. }
  destruct (match c x with None => _ | Some _ => _ end) as [fits|] eqn:Efit; [|done]. cbn [mbind option_bind].
  destruct (set_bit x (p_id m) acc Hi Hr) as (bm & Eset & Hw' & Hb' & Hmono). rewrite Eset. cbn [mbind option_bind].
  destruct (fits && verify m) eqn:Efv.
  - apply andb_true_iff in Efv as [-> Hver]. destruct (Z.eqb_spec (p_id m) node_id) as [|Hne]; [done|].
    cbn [c vals with_bmap]. destruct (c x) as [i|] eqn:Ec.
    + unfold cval in Efit. rewrite Ec in Efit. cbn in Efit. destruct (vals x !! i) as [v|] eqn:Ev; [|done]. cbn in Efit.
      destruct (vcount v <? complete x); [|done]. destruct (vm v) as [old|] eqn:Eo; [|done]. apply match_true in Efit.
      cbn [mbind option_bind]. destruct (count_msg v m) as [v'|] eqn:Ecm; [|done]. cbn. intros [= <- <-].
      split; [|by split]. eapply (accept_inv acc x m bm i v v' old); eauto.
    + destruct (find_val _ _ _ _) as [[i|]|] eqn:Ef; [| |done]; cbn [mbind option_bind].
      * apply find_val_spec in Ef as [Hlt (v & old & Ev & Eo & Hk)]. cbn in Hlt. rewrite Ev. cbn [mbind option_bind].
        destruct (count_msg v m) as [v'|] eqn:Ecm; [|done]. cbn [mbind option_bind]. intros [= <- <-].
        edestruct (accept_inv acc x m bm i v v' old) as [H1 H2]; eauto; [lia|].
        split; [|split; [by destruct (_ <=? _)|done]]. destruct (_ <=? _); auto.
      * cbn [cur_size with_bmap]. destruct (Z.ltb_spec (cur_size x) (f + 1)); intros [= <- <-].
        -- split; [|by split]. by apply new_value_inv.
        -- split; [|by split]. eapply pcert_clear_inv, pcert_mark_inv; eauto.
  - destruct (verify m); intros [= <- <-]; [|by split]. split; [|by split]. by apply (pcert_mark_inv acc).
Qed.

(** The replica's own message, at the value at [i]. *)
Lemma own_inv acc x x' m i n : inv acc x -> mym x = false -> p_id m = node_id -> (i < length (vals x))%nat ->
  Z.of_nat i <= cur_size x -> cur_size x' = Z.max (cur_size x) (Z.of_nat i + 1) ->
  vals x' = <[i := mk_val (Some m) (n + 1)]> (vals x) -> bmap x' = bmap x -> c x' = Some i -> mym x' = true ->
  n = 0 \/ (exists v old, vals x !! i = Some v /\ Z.of_nat i < cur_size x /\ vm v = Some old /\ key old = key m /\ vcount v = n) -> inv (m :: acc) x'.
Proof.
  intros Hi Hmine Hid Hlen Hle Hsz Hv Hbm Hcc Hmy Hn. pose proof Hi as [Hw Hs Hl Hb Hf Hc Hm].
  apply (update_inv acc _ x x' i (mk_val (Some m) (n + 1))); try done; [lia|by rewrite Hbm| | |intros j Hj; rewrite Hcc in Hj; injection Hj as <-; lia|].
  3: { intros _. eexists i, _, m, m. split; [done|]. rewrite Hv, list_lookup_insert_eq by done.
       split; [done|]. split; [done|]. split; [by left|done]. }
  - destruct Hn as [->|(v & old & Ev & Hlt & Eo & Hk & <-)].
    + exists m, [node_id]. split; [done|]. split; [apply NoDup_singleton|]. split; [done|]. intros id E.
      apply list_elem_of_singleton in E as ->. split; [exists m; split; [by left|done]|by right].
    + destruct (Hb i v Ev Hlt) as (m0 & ids & Em & Hnd & Hcnt & Hids). rewrite Eo in Em. injection Em as <-.
      exists m, (node_id :: ids). split; [done|]. split; [|split; [cbn; lia|]].
      { apply NoDup_cons. split; [|done]. intros Hin. destruct (Hids _ Hin) as [_ [(E & _)|(_ & E & _)]]; congruence. }
      intros id E. apply elem_of_cons in E as [->|E]; [split; [exists m; split; [by left|done]|by right]|].
      destruct (Hids id E) as [(m' & Hin & E1 & E2) Hwhy]. split; [exists m'; split; [by right|]; split; congruence|].
      left. rewrite Hbm. destruct Hwhy as [?|(_ & E' & _)]; [done|congruence].
  - intros j v Hne _ Hbj. eapply backed_mono; [done|by right|by rewrite Hbm|congruence].
Qed.

Lemma pcert_add_mine_inv acc x m x' b : inv acc x -> mym x = false -> add_mine x m = Some (x', b) ->
  inv (if b then m :: acc else acc) x' /\ complete x' = complete x /\ p_id m = node_id.
Proof.
  intros Hi Hmine. pose proof Hi as [Hw Hs Hl Hb Hf Hc Hm]. unfold add_mine.
  destruct (Z.eqb_spec (p_id m) node_id) as [Hid|]; [|done]. cbn [negb orb]. destruct (negb (p_full m)); [done|].
  destruct (c x) as [i|] eqn:Ec; cbn [mbind option_bind].
  - unfold cval. rewrite Ec. cbn [mbind option_bind]. destruct (vals x !! i) as [v|] eqn:Ev; [|done].
    cbn [mbind option_bind]. destruct (vm v) as [old|] eqn:Eo; [|done]. cbn [mbind option_bind].
    destruct (p_match old m) as [[]|] eqn:Efit; [| |done]; cbn; [|by intros [= <- <-]].
    apply match_true in Efit. intros [= <- <-]. split; [|by split]. pose proof (Hc i eq_refl). apply lookup_lt_Some in Ev as Hlt.
    eapply (own_inv acc x _ m i); cbn; eauto; [lia|lia|]. right. exists v, old. auto.
  - cbn [negb]. destruct (find_val _ _ _ _) as [[i|]|] eqn:Ef; [| |done]; cbn [mbind option_bind].
    + apply find_val_spec in Ef as [Hlt (v & old & Ev & Eo & Hk)]. cbn. rewrite Ev. cbn. rewrite Eo. cbn. intros [= <- <-].
      split; [|by split]. apply lookup_lt_Some in Ev as Hlen. eapply (own_inv acc x _ m i); cbn; eauto; [lia|lia|].
      right. exists v, old. split; [done|]. split; [lia|]. auto.
    + destruct (vals x !! 0%nat) as [v|] eqn:Ev; [|done]. apply lookup_lt_Some in Ev as Hlen. cbn.
      rewrite list_lookup_insert_eq by done. cbn. destruct (vm v) as [old|] eqn:Eo; cbn.
      * intros [= <- <-]. split; [|by split]. eapply (own_inv acc x _ m 0 0); cbn; try done; [lia| |by rewrite list_insert_insert_eq|by left].
        destruct (decide (cur_size x = 0)); [|lia]. rewrite (Hf 0%nat v Ev) in Eo by lia. done.
      * destruct (Z.eqb_spec (cur_size x) 0); [|done]. cbn. intros [= <- <-]. split; [|by split].
        eapply (own_inv acc x _ m 0 0); cbn; try done; [lia|lia|by rewrite list_insert_insert_eq|by left].
Qed.

Lemma pcert_stale_inv acc x x' : inv acc x -> mark_stale x = Some x' -> inv acc x' /\ complete x' = complete x.
Proof.
  intros Hi. pose proof Hi as [[Hw Hn] Hs Hl Hb Hf Hc Hm]. unfold mark_stale. destruct (is_complete x); [by intros [= <-]|].
  assert (Hfree : forall l lo i v, l !! i = vals x !! i -> clear_vals l lo (cur_size x) !! i = Some v -> lo <= Z.of_nat i -> v = no_val).
  { intros l lo i v El Hv Hlo. rewrite clear_vals_lookup, El in Hv. destruct (vals x !! i) as [w|] eqn:Ew; [|done]. cbn in Hv.
    destruct (_ && _) eqn:E; injection Hv as <-; [done|]. eapply Hf; [done|]. bsimp. lia. }
  destruct (mym x) eqn:Ey.
  2: { intros [= <-]. split; [|done]. constructor; cbn; try done; [split; [by apply clear_bits|done]|lia|by unfold clear_vals; rewrite length_imap|lia|].
       intros i v Hv _. eapply Hfree; [done|done|lia]. }
  destruct (Hm eq_refl) as (i & v & m & m' & Ec & Ev & Em & Hin & Eid & Ek). rewrite Ec. cbn. rewrite Ev. cbn. intros [= <-]. split; [|done].
  pose proof (Hc i Ec). apply lookup_lt_Some in Ev as Hlen.
  set (l := <[0%nat := mk_val (vm v) 1]> (<[i := no_val]> (vals x))).
  assert (E0 : clear_vals l 1 (cur_size x) !! 0%nat = Some (mk_val (vm v) 1)).
  { rewrite clear_vals_lookup. unfold l. rewrite list_lookup_insert_eq by (rewrite length_insert; lia). done. }
  constructor; cbn; [split; [by apply clear_bits|done]|lia|unfold l, clear_vals; rewrite length_imap, !length_insert; done| | |intros j [= <-]; lia|].
  - intros j w Hw' Hj. assert (j = 0%nat) as -> by lia. rewrite E0 in Hw'. injection Hw' as <-. exists m, [node_id].
    split; [done|]. split; [apply NoDup_singleton|]. split; [done|]. intros id E. apply list_elem_of_singleton in E as ->.
    split; [by exists m'|by right].
  - intros j w Hw' Hj. rewrite clear_vals_lookup in Hw'. unfold l in Hw'. rewrite list_lookup_insert_ne in Hw' by lia.
    destruct (decide (j = i)) as [->|Hne].
    + rewrite list_lookup_insert_eq in Hw' by done. cbn in Hw'. by destruct (_ && _); injection Hw' as <-.
    + eapply (Hfree (vals x) 1); [done| |done]. rewrite clear_vals_lookup. by rewrite list_lookup_insert_ne in Hw'.
  - intros _. exists 0%nat, (mk_val (vm v) 1), m, m'. auto 6.
Qed.

Lemma mine_none acc x : inv acc x -> mine x = None -> mym x = false.
Proof.
  intros [_ _ _ _ _ _ Hm] E. unfold mine in E. destruct (mym x); [|done]. destruct (Hm eq_refl) as (i & v & m & m' & Ec & Ev & Em & _).
  unfold cvalue, cval in E. rewrite Ec in E. cbn in E. rewrite Ev in E. cbn in E. congruence.
Qed.

(** The messages a certificate may take in: the replica's own, and authentic ones of other replicas. *)
Definition genuine (m : T) : Prop := p_id m = node_id \/ verify m = true /\ is_replica (p_id m) = true.

Lemma call_inv acc x o x' taken : inv acc x -> Forall genuine acc -> call x o = Some (x', taken) ->
  inv (taken ++ acc) x' /\ complete x' = complete x /\ Forall genuine (taken ++ acc).
Proof.
  intros Hi Hg. destruct o as [m|m| | |]; cbn.
  - destruct (add x m) as [[y b]|] eqn:E; [|done]. cbn. intros [= <- <-].
    destruct (pcert_add_inv acc x m y b Hi E) as (Hy & Hcomp & Hok). destruct b; cbn; [|done].
    split; [done|]. split; [done|]. constructor; [right; naive_solver|done].
  - destruct (mine x) eqn:Emine; [done|]. destruct (add_mine x m) as [[y b]|] eqn:E; [|done]. cbn. intros [= <- <-].
    destruct (pcert_add_mine_inv acc x m y b Hi (mine_none _ _ Hi Emine) E) as (Hy & Hcomp & Hid). destruct b; cbn; [|done].
    split; [done|]. split; [done|]. constructor; [by left|done].
  - destruct (mark_stale x) as [y|] eqn:E; [|done]. cbn. intros [= <- <-]. by destruct (pcert_stale_inv acc x y Hi E).
  - intros [= <- <-]. split; [by eapply pcert_clear_inv|done].
  - intros [= <- <-]. unfold cvalue_clear. destruct (c x); cbn; [|done]. split; [by eapply pcert_clear_inv|done].
Qed.

Lemma calls_inv os : forall acc x x' acc', inv acc x -> Forall genuine acc -> calls x acc os = Some (x', acc') ->
  inv acc' x' /\ complete x' = complete x /\ Forall genuine acc'.
Proof.
  induction os as [|o os IH]; intros acc x x' acc' Hi Hg; cbn; [by intros [= <- <-]|].
  destruct (call x o) as [[y taken]|] eqn:E; [|done]. cbn. intros Hos.
  destruct (call_inv acc x o y taken Hi Hg E) as (Hy & Hcomp & Hg'). destruct (IH _ _ _ _ Hy Hg' Hos) as (? & ? & ?).
  split; [done|]. split; [congruence|done].
Qed.

(** What a complete certificate is evidence of. *)
Lemma pcert_complete_backed acc x : inv acc x -> 0 < complete x -> is_complete x = true ->
  exists m ids, cvalue x = Some m /\ NoDup ids /\ complete x <= Z.of_nat (length ids) /\
    forall id, id ∈ ids -> exists m', m' ∈ acc /\ p_id m' = id /\ key m' = key m.
Proof.
  intros [_ _ _ Hb _ Hc _] Hpos Hcomp. unfold is_complete, num_correct in Hcomp. unfold cvalue.
  destruct (cval x) as [v|] eqn:Ev; [|bsimp; lia]. bsimp. unfold cval in Ev. destruct (c x) as [i|] eqn:Ec; [|done]. cbn in Ev.
  destruct (Hb i v Ev (Hc i eq_refl)) as (m & ids & Em & Hnd & Hcnt & Hids). exists m, ids. cbn. split; [done|]. split; [done|].
  split; [lia|]. intros id Hid. by destruct (Hids id Hid).
Qed.
End certificate.
Arguments Message_val : clear implicits.
Arguments t : clear implicits.
Arguments op : clear implicits.

Section evidence.
Context {T : Type} `{PMsg T} {K : Type} (key : T -> K) `{!EqDecision K}.
Context (node_id num_replicas f : Z) (verify : T -> bool).

(** C19. What a certificate of PBFT is evidence of: whatever is added to it, in any order and interleaved
    with [mark_stale], [clear] and [cvalue_clear], a complete certificate has a correct value, and at least
    [complete] (by default [2f + 1]) different replicas have sent a message of that value: the replica
    itself, or another whose message verified; no replica counts twice. *)
Theorem pcert_sound comp os x acc :
  (forall a b r, p_match a b = Some r -> r = bool_decide (key a = key b)) ->
  0 <= num_replicas <= Max_num_replicas -> 0 <= f -> 0 <= comp ->
  calls node_id num_replicas f verify (create f comp) [] os = Some (x, acc) -> is_complete x = true ->
  exists m ids, cvalue x = Some m /\ NoDup ids /\ (if comp =? 0 then 2 * f + 1 else comp) <= Z.of_nat (length ids) /\
    forall id, id ∈ ids -> exists m', m' ∈ acc /\ p_id m' = id /\ key m' = key m /\
      (id = node_id \/ verify m' = true /\ is_replica num_replicas id = true).
Proof.
  intros Hkey Hn Hf Hcomp Hos Hc.
  destruct (calls_inv node_id num_replicas f verify key Hkey Hn Hf os [] _ _ _ (pcert_create_inv node_id f key Hf [] comp) (Forall_nil_2 _) Hos)
    as (Hi & Ecomp & Hg).
  assert (Ec : complete x = if comp =? 0 then 2 * f + 1 else comp) by (rewrite Ecomp; cbn; destruct (comp =? 0); lia).
  destruct (pcert_complete_backed node_id f key acc x Hi) as (m & ids & Em & Hnd & Hlen & Hids); [rewrite Ec; destruct (Z.eqb_spec comp 0); lia|done|].
  exists m, ids. split; [done|]. split; [done|]. split; [by rewrite <- Ec|]. intros id Hid.
  destruct (Hids id Hid) as (m' & Hin & Eid & Ek). exists m'. split; [done|]. split; [done|]. split; [done|].
  rewrite Forall_forall in Hg. specialize (Hg m' Hin). unfold genuine in Hg. by rewrite Eid in Hg.
Qed.
End evidence.
End PCert.

(** ** An example *)

Module CertExample.
Import PCert.

(** A message: its sender and its value; all are authentic. *)
#[export] Instance pair_msg : PMsg (Z * Z) := {| p_id := fst; p_full := fun _ => true; p_match := fun a b => Some (bool_decide (snd a = snd b)) |}.

(** Replica 0 of four: a second message of replica 1 and one of another value do not count. *)
Definition three_agree : list (op (Z * Z)) :=
  [Add (1, 7); Add (1, 7); Add (2, 8); AddMine (0, 7); Add (3, 7)].

Definition final : option (t (Z * Z) * list (Z * Z)) := calls 0 4 1 (fun _ => true) (create 1 0) [] three_agree.

Definition outcome : t (Z * Z) :=
  mk_cert (Bitmap.mk 32 [14] 1) [mk_val (Some (0, 7)) 3; mk_val (Some (2, 8)) 1] 2 2 (Some 0%nat) 3 true.
Definition taken_in : list (Z * Z) := [(3, 7); (0, 7); (2, 8); (1, 7)].

Lemma pcert_sound_witness : final = Some (outcome, taken_in) /\
  exists m ids, cvalue outcome = Some m /\ NoDup ids /\ 3 <= Z.of_nat (length ids) /\
    forall id, id ∈ ids -> exists m', m' ∈ taken_in /\ p_id m' = id /\ snd m' = snd m /\
      (id = 0 \/ true = true /\ is_replica 4 id = true).
Proof.
  split; [vm_compute; reflexivity|].
  apply (pcert_sound snd 0 4 1 (fun _ => true) 0 three_agree outcome taken_in);
    [intros a b r [= <-]; reflexivity|unfold Max_num_replicas; lia|lia|lia|vm_compute; reflexivity|vm_compute; reflexivity].
Defined.

(** Without the third replica there is a correct value, but the certificate is not complete. *)
Example two_are_not_enough : exists x acc, calls 0 4 1 (fun _ => true) (create 1 0) [] (take 4 three_agree) = Some (x, acc) /\
  cvalue x = Some (0, 7) /\ is_complete x = false.
Proof. eexists _, _. split; [vm_compute; reflexivity|]. split; vm_compute; reflexivity. Qed.
End CertExample.
