(* ===== verification/PReqQueue.v ===== *)
(** * The request queue of PBFT

    Models [src/protocols/pbft/replica/PBFT_R_Req_queue.{h,cc}]: at most one request of
    each principal, in the order of their arrival.  The nodes are the places of an
    array indexed by principal and linked both ways; the links of a node that is not
    in the queue are stale.  A pointer to a node is its index, and [None] is a failed
    assertion or an access out of bounds.

    The theorem: the array and its links are a queue of requests of different
    principals, and every operation is the one on the queue. *)

From S2P Require Import Prelude.
Local Open Scope Z_scope.

(** [PBFT_R_Request]: the fields the replica reads. *)
Record P_Request := mk_preq {
  pq_cid : Z; pq_rid : Z; pq_ro : bool; pq_signed : bool; pq_size : Z; pq_replier : Z; pq_digest : Z; pq_command : list Z
}.

Module PReqQueue.

Record PNode := mk_pnode { r : option P_Request; next : option nat; prev : option nat; out_rid : Z; out_v : Z }.
Record t := mk_queue { reqs : list PNode; head : option nat; tail : option nat; nelems : Z; nbytes : Z }.

Definition clear_node : PNode := mk_pnode None None None 0 (-1).

Definition create (np : Z) : t := mk_queue (replicate (Z.to_nat np) clear_node) None None 0 0.

(** The place of a principal. *)
Definition place (cid : Z) : option nat := if 0 <=? cid then Some (Z.to_nat cid) else None.

Definition set_r (x : option P_Request) (n : PNode) : PNode := mk_pnode x (next n) (prev n) (out_rid n) (out_v n).
Definition set_next (x : option nat) (n : PNode) : PNode := mk_pnode (r n) x (prev n) (out_rid n) (out_v n).
Definition set_prev (x : option nat) (n : PNode) : PNode := mk_pnode (r n) (next n) x (out_rid n) (out_v n).

(** A write through a pointer to a node. *)
Definition at_node (i : nat) (f : PNode -> PNode) (l : list PNode) : option (list PNode) :=
  n ← l !! i; Some (<[i := f n]> l).

Definition size (q : t) : Z := nelems q.
Definition num_bytes (q : t) : Z := nbytes q.

Definition first (q : t) : option (option P_Request) :=
  match head q with
  | Some i => n ← reqs q !! i; x ← r n; Some (Some x)
  | None => Some None
  end.

Definition first_client (q : t) (cid : Z) : option (option P_Request) := i ← place cid; n ← reqs q !! i; Some (r n).

Definition in_progress (q : t) (cid rid v : Z) : option (t * bool) :=
  i ← place cid; n ← reqs q !! i;
  if (out_rid n <? rid) || (out_v n <? v) then
    Some (mk_queue (<[i := mk_pnode (r n) (next n) (prev n) rid v]> (reqs q)) (head q) (tail q) (nelems q) (nbytes q), false)
  else Some (q, true).

(** [remove(int cid, Request_id rid)]. *)
Definition remove_client (q : t) (cid rid : Z) : option (t * bool) :=
  i ← place cid; n ← reqs q !! i;
  match r n with
  | Some x =>
    if pq_rid x <=? rid then
      l ← at_node i (set_r None) (reqs q);
      '(l, hd, ret) ← match prev n with
                      | None => if decide (head q = Some i) then Some (l, next n, true) else None
                      | Some p => l ← at_node p (set_next (next n)) l; Some (l, head q, false)
                      end;
      '(l, tl) ← match next n with
                 | None => if decide (tail q = Some i) then Some (l, prev n) else None
                 | Some k => l ← at_node k (set_prev (prev n)) l; Some (l, tail q)
                 end;
      Some (mk_queue l hd tl (nelems q - 1) (nbytes q - pq_size x), ret)
    else Some (q, false)
  | None => Some (q, false)
  end.

(** [remove()]. *)
Definition remove (q : t) : option (t * option P_Request) :=
  match head q with
  | None => Some (q, None)
  | Some i =>
    n ← reqs q !! i; x ← r n;
    l ← at_node i (set_r None) (reqs q);
    '(l, tl) ← match next n with
               | Some k => l ← at_node k (set_prev None) l; Some (l, tail q)
               | None => Some (l, None)
               end;
    Some (mk_queue l (next n) tl (nelems q - 1) (nbytes q - pq_size x), Some x)
  end.

Definition append (q : t) (x : P_Request) : option (t * bool) :=
  i ← place (pq_cid x); n ← reqs q !! i;
  q' ← match r n with
       | Some y => if pq_rid y <? pq_rid x then '(q', _) ← remove_client q (pq_cid x) (pq_rid x); Some (Some q') else Some None
       | None => Some (Some q)
       end;
  match q' with
  | None => Some (q, false)
  | Some q =>
    l ← at_node i (set_r (Some x)) (reqs q);
    match head q with
    | None =>
      l ← at_node i (fun n => set_prev None (set_next None n)) l;
      Some (mk_queue l (Some i) (Some i) (nelems q + 1) (nbytes q + pq_size x), true)
    | Some _ =>
      k ← tail q;
      l ← at_node k (set_next (Some i)) l;
      l ← at_node i (fun n => set_next None (set_prev (Some k) n)) l;
      Some (mk_queue l (head q) (Some i) (nelems q + 1) (nbytes q + pq_size x), true)
    end
  end.

Definition clear (q : t) : t := mk_queue ((fun _ => clear_node) <$> reqs q) None None 0 0.

(** ** The queue

    The requests, in order; each is at the place of its principal. *)

Definition index (x : P_Request) : nat := Z.to_nat (pq_cid x).

(** The node before the one at position [k]. *)
Definition before (ids : list nat) (k : nat) : option nat := match k with O => None | S k' => ids !! k' end.

Record holds (q : t) (l : list P_Request) : Prop := {
  hold_nodup : NoDup (pq_cid <$> l);
  hold_cid : Forall (fun x => 0 <= pq_cid x) l;
  hold_head : head q = (index <$> l) !! 0%nat;
  hold_tail : tail q = last (index <$> l);
  hold_links : forall k x, l !! k = Some x -> exists n, reqs q !! index x = Some n /\ r n = Some x /\
    next n = (index <$> l) !! S k /\ prev n = before (index <$> l) k;
  hold_in : forall i n x, reqs q !! i = Some n -> r n = Some x -> x ∈ l /\ index x = i;
  hold_nelems : nelems q = Z.of_nat (length l);
  hold_nbytes : nbytes q = foldr Z.add 0 (pq_size <$> l)
}.

(** The operations on the queue. *)
Definition of_client (cid : Z) (l : list P_Request) : option P_Request := filter (fun x => pq_cid x = cid) l !! 0%nat.
Definition drop_client (cid : Z) (l : list P_Request) : list P_Request := filter (fun x => pq_cid x <> cid) l.

Definition remove_client_spec (l : list P_Request) (cid rid : Z) : list P_Request * bool :=
  match of_client cid l with
  | Some y => if pq_rid y <=? rid then (drop_client cid l, bool_decide (pq_cid <$> l !! 0%nat = Some cid)) else (l, false)
  | None => (l, false)
  end.

Definition append_spec (l : list P_Request) (x : P_Request) : list P_Request * bool :=
  match of_client (pq_cid x) l with
  | Some y => if pq_rid y <? pq_rid x then (drop_client (pq_cid x) l ++ [x], true) else (l, false)
  | None => (l ++ [x], true)
  end.

(** ** Serving calls *)

Inductive call :=
| Append (x : P_Request) | Remove | RemoveClient (cid rid : Z) | First | FirstClient (cid : Z)
| InProgress (cid rid v : Z) | Size | NumBytes | Clear.

Inductive answer := RBool (b : bool) | RReq (x : option P_Request) | RNum (z : Z) | RUnit.

Definition serve (q : t) (o : call) : option (t * answer) :=
  match o with
  | Append x => '(q', b) ← append q x; Some (q', RBool b)
  | Remove => '(q', x) ← remove q; Some (q', RReq x)
  | RemoveClient cid rid => '(q', b) ← remove_client q cid rid; Some (q', RBool b)
  | First => x ← first q; Some (q, RReq x)
  | FirstClient cid => x ← first_client q cid; Some (q, RReq x)
  | InProgress cid rid v => '(q', b) ← in_progress q cid rid v; Some (q', RBool b)
  | Size => Some (q, RNum (size q))
  | NumBytes => Some (q, RNum (num_bytes q))
  | Clear => Some (clear q, RUnit)
  end.

Fixpoint serve_all (q : t) (os : list call) : option (t * list answer) :=
  match os with
  | [] => Some (q, [])
  | o :: os => '(q1, a) ← serve q o; '(q2, l) ← serve_all q1 os; Some (q2, a :: l)
  end.

(** The same calls on the sequence of requests and, for each principal, its request in progress. *)
Definition serve_spec (s : list P_Request * list (Z * Z)) (o : call) : (list P_Request * list (Z * Z)) * answer :=
  let '(l, prog) := s in
  match o with
  | Append x => ((fst (append_spec l x), prog), RBool (snd (append_spec l x)))
  | Remove => ((drop 1 l, prog), RReq (l !! 0%nat))
  | RemoveClient cid rid => ((fst (remove_client_spec l cid rid), prog), RBool (snd (remove_client_spec l cid rid)))
  | First => (s, RReq (l !! 0%nat))
  | FirstClient cid => (s, RReq (of_client cid l))
  | InProgress cid rid v =>
    let '(rid0, v0) := default (0, 0) (prog !! Z.to_nat cid) in
    if (rid0 <? rid) || (v0 <? v) then ((l, <[Z.to_nat cid := (rid, v)]> prog), RBool false) else (s, RBool true)
  | Size => (s, RNum (Z.of_nat (length l)))
  | NumBytes => (s, RNum (foldr Z.add 0 (pq_size <$> l)))
  | Clear => (([], (fun _ => (0, -1)) <$> prog), RUnit)
  end.

Fixpoint serve_spec_all (s : list P_Request * list (Z * Z)) (os : list call) : list answer :=
  match os with
  | [] => []
  | o :: os => let '(s', a) := serve_spec s o in a :: serve_spec_all s' os
  end.

(** Calls with the identifiers of principals. *)
Definition valid (np : Z) (o : call) : Prop :=
  match o with
  | Append x => 0 <= pq_cid x < np
  | RemoveClient cid _ | FirstClient cid | InProgress cid _ _ => 0 <= cid < np
  | _ => True
  end.

(** ** The representation *)

Lemma at_node_spec i f l : (i < length l)%nat ->
  exists l', at_node i f l = Some l' /\ length l' = length l /\
    forall j, l' !! j = (fun n => if decide (i = j) then f n else n) <$> l !! j.
Proof.
  intros Hi. apply lookup_lt_is_Some_2 in Hi as [n Hn]. unfold at_node. rewrite Hn. eexists. split; [done|].
  split; [by rewrite length_insert|]. intros j. destruct (decide (i = j)) as [<-|Hne].
  - rewrite list_lookup_insert_eq by by apply lookup_lt_Some in Hn. by rewrite Hn.
  - rewrite list_lookup_insert_ne by done. by destruct (l !! j).
Qed.

Lemma drop_absent cid l : (forall x, x ∈ l -> pq_cid x <> cid) -> drop_client cid l = l.
Proof.
  unfold drop_client. induction l as [|y l IH]; intros Hl; [done|]. rewrite filter_cons, decide_True by (apply Hl; by left).
  f_equal. apply IH. intros x Hx. apply Hl. by right.
Qed.

(** The last request of each principal that was put in progress, and its view. *)
Definition outs (q : t) : list (Z * Z) := (fun n => (out_rid n, out_v n)) <$> reqs q.

Lemma outs_length q q' : outs q' = outs q -> length (reqs q') = length (reqs q).
Proof. intros E. apply (f_equal length) in E. unfold outs in E. by rewrite !length_fmap in E. Qed.

Lemma outs_kept q l hd tl ne nb (g : nat -> PNode -> PNode) : (forall j, l !! j = g j <$> reqs q !! j) ->
  (forall j n, out_rid (g j n) = out_rid n /\ out_v (g j n) = out_v n) -> outs (mk_queue l hd tl ne nb) = outs q.
Proof.
  intros Hl Hg. apply list_eq. intros j. unfold outs. cbn. rewrite !list_lookup_fmap, Hl. destruct (reqs q !! j) as [n|]; [|done].
  cbn. by destruct (Hg j n) as [-> ->].
Qed.

Lemma of_client_split cid l : NoDup (pq_cid <$> l) ->
  match of_client cid l with
  | Some x => exists a b, l = a ++ x :: b /\ pq_cid x = cid /\ drop_client cid l = a ++ b
  | None => forall x, x ∈ l -> pq_cid x <> cid
  end.
Proof.
  unfold of_client, drop_client. induction l as [|y l IH]; intros Hnd; [intros x Hx; by apply elem_of_nil in Hx|].
  cbn in Hnd. apply NoDup_cons in Hnd as [Hy Hnd]. specialize (IH Hnd). rewrite !filter_cons. destruct (decide (pq_cid y = cid)) as [Ey|Ey].
  - rewrite (decide_False (P := pq_cid y <> cid)) by tauto. cbn. exists [], l. split; [done|]. split; [done|].
    apply drop_absent. intros x Hx E. apply Hy. rewrite Ey, <- E. by apply list_elem_of_fmap_2.
  - rewrite (decide_True (P := pq_cid y <> cid)) by done. destruct (filter _ l !! 0%nat) as [x|].
    + destruct IH as (a & b & -> & Ex & ->). by exists (y :: a), b.
    + intros x Hx. apply elem_of_cons in Hx as [->|Hx]; auto.
Qed.

Lemma holds_inj q l x y : holds q l -> x ∈ l -> y ∈ l -> index x = index y -> x = y.
Proof.
  intros [Hnd Hc _ _ Hl _ _ _] Hx Hy E. apply list_elem_of_lookup in Hx as [i Hi]. apply list_elem_of_lookup in Hy as [j Hj].
  destruct (Hl i x Hi) as (n & Hn & Hr & _). destruct (Hl j y Hj) as (n' & Hn' & Hr' & _). rewrite E in Hn. congruence.
Qed.

Lemma holds_place q l x : holds q l -> x ∈ l -> place (pq_cid x) = Some (index x).
Proof.
  intros [_ Hc _ _ _ _ _ _] Hx. rewrite Forall_forall in Hc. specialize (Hc x Hx). unfold place. by rewrite (proj2 (Z.leb_le _ _)).
Qed.

Lemma holds_lt q l x : holds q l -> x ∈ l -> (index x < length (reqs q))%nat.
Proof. intros [_ _ _ _ Hl _ _ _] Hx. apply list_elem_of_lookup in Hx as [i Hi]. destruct (Hl i x Hi) as (n & Hn & _). by apply lookup_lt_Some in Hn. Qed.

(** The nodes once the one at [i], with the neighbours [p] and [k], is taken out. *)
Definition patch (i : nat) (p k : option nat) (j : nat) (n : PNode) : PNode :=
  mk_pnode (if decide (j = i) then None else r n) (if decide (p = Some j) then k else next n) (if decide (k = Some j) then p else prev n)
    (out_rid n) (out_v n).

Lemma unlink_patch q x rid n p k : reqs q !! index x = Some n -> place (pq_cid x) = Some (index x) -> r n = Some x -> pq_rid x <= rid ->
  prev n = p -> next n = k -> (p = None -> head q = Some (index x)) -> (k = None -> tail q = Some (index x)) ->
  (forall j, p = Some j \/ k = Some j -> (j < length (reqs q))%nat) -> p <> Some (index x) -> k <> Some (index x) ->
  exists l, remove_client q (pq_cid x) rid =
    Some (mk_queue l (match p with None => k | Some _ => head q end) (match k with None => p | Some _ => tail q end)
            (nelems q - 1) (nbytes q - pq_size x), match p with None => true | Some _ => false end) /\
    length l = length (reqs q) /\ forall j, l !! j = patch (index x) p k j <$> reqs q !! j.
Proof.
  intros Hn Hp Hr Hle Ep Ek Hh Ht Hlt Hpi Hki. unfold remove_client. rewrite Hp. cbn. rewrite Hn. cbn. rewrite Hr, (proj2 (Z.leb_le _ _)) by done.
  destruct (at_node_spec (index x) (set_r None) (reqs q)) as (l1 & -> & L1 & E1); [by apply lookup_lt_Some in Hn|]. cbn. rewrite Ep, Ek.
  assert (H2 : exists l2, match p with None => if decide (head q = Some (index x)) then Some (l1, k, true) else None
      | Some p => l ← at_node p (set_next k) l1; Some (l, head q, false) end =
      Some (l2, match p with None => k | Some _ => head q end, match p with None => true | Some _ => false end) /\ length l2 = length l1 /\
      forall j, l2 !! j = (fun n => if decide (p = Some j) then set_next k n else n) <$> l1 !! j).
  { destruct p as [p|].
    - destruct (at_node_spec p (set_next k) l1) as (l2 & -> & L2 & E2); [rewrite L1; auto|]. exists l2. cbn. split; [done|]. split; [done|].
      intros j. rewrite E2. destruct (l1 !! j); cbn; [|done]. repeat case_decide; simplify_eq; done.
    - rewrite decide_True by auto. exists l1. split; [done|]. split; [done|]. intros j. by destruct (l1 !! j). }
  destruct H2 as (l2 & -> & L2 & E2). cbn.
  assert (H3 : exists l3, match k with None => if decide (tail q = Some (index x)) then Some (l2, p) else None
      | Some k => l ← at_node k (set_prev p) l2; Some (l, tail q) end =
      Some (l3, match k with None => p | Some _ => tail q end) /\ length l3 = length l2 /\
      forall j, l3 !! j = (fun n => if decide (k = Some j) then set_prev p n else n) <$> l2 !! j).
  { destruct k as [k|].
    - destruct (at_node_spec k (set_prev p) l2) as (l3 & -> & L3 & E3); [rewrite L2, L1; auto|]. exists l3. cbn. split; [done|]. split; [done|].
      intros j. rewrite E3. destruct (l2 !! j); cbn; [|done]. repeat case_decide; simplify_eq; done.
    - rewrite decide_True by auto. exists l2. split; [done|]. split; [done|]. intros j. by destruct (l2 !! j). }
  destruct H3 as (l3 & -> & L3 & E3). cbn. exists l3. split; [done|]. split; [congruence|].
  intros j. rewrite E3, E2, E1. destruct (reqs q !! j) as [m|]; [|done]. cbn. f_equal. unfold patch, set_r, set_next, set_prev.
  destruct (decide (index x = j)) as [<-|Hne]; [rewrite (decide_True (P := index x = index x)), !(decide_False (P := _ = Some (index x))) by done; done|].
  rewrite (decide_False (P := j = index x)) by congruence. destruct m; by destruct (decide (p = Some j)), (decide (k = Some j)).
Qed.

Lemma bytes_app (l l' : list P_Request) :
  foldr Z.add 0 (pq_size <$> (l ++ l')) = foldr Z.add 0 (pq_size <$> l) + foldr Z.add 0 (pq_size <$> l').
Proof. induction l as [|y l IH]; cbn in *; [done|]. rewrite IH. lia. Qed.

(** The place before the end of [a]. *)
Lemma before_app a b : before (a ++ b) (length a) = last a.
Proof.
  unfold before. rewrite last_lookup. destruct (length a) as [|m] eqn:E; [by apply nil_length_inv in E as ->|].
  cbn. by rewrite lookup_app_l by lia.
Qed.

Lemma before_lt a b k : (k <= length a)%nat -> before (a ++ b) k = before a k.
Proof. destruct k; cbn; [done|]. intros ?. by rewrite lookup_app_l by lia. Qed.

Lemma before_gt a i b k : (length a < k)%nat -> before (a ++ i :: b) (S k) = before (a ++ b) k.
Proof. destruct k as [|k]; [lia|]. cbn. intros ?. rewrite !lookup_app_r by lia. by replace (S k - length a)%nat with (S (k - length a)) by lia. Qed.

(** The places of different requests. *)
Lemma indices_nodup q l : holds q l -> NoDup (index <$> l).
Proof.
  intros Hq. apply NoDup_fmap_2_strong; [intros x y Hx Hy E; by eapply holds_inj|]. eapply NoDup_fmap_1, (hold_nodup _ _ Hq).
Qed.

(** Taking the node [i] out of the list of nodes. *)
Lemma unlink_indices ia i ib k j : NoDup (ia ++ i :: ib) -> (ia ++ ib) !! k = Some j ->
  let k0 := if decide (k < length ia)%nat then k else S k in
  (ia ++ i :: ib) !! k0 = Some j /\ j <> i /\
  (if decide (last ia = Some j) then ib !! 0%nat else (ia ++ i :: ib) !! S k0) = (ia ++ ib) !! S k /\
  (if decide (ib !! 0%nat = Some j) then last ia else before (ia ++ i :: ib) k0) = before (ia ++ ib) k.
Proof.
  intros Hnd Hj k0. rewrite NoDup_alt in Hnd.
  assert (H0 : (ia ++ i :: ib) !! k0 = Some j).
  { unfold k0. destruct (decide (k < length ia)%nat).
    - rewrite lookup_app_l in Hj |- * by lia. done.
    - rewrite lookup_app_r in Hj |- * by lia. by replace (S k - length ia)%nat with (S (k - length ia)) by lia. }
  assert (Hi : (ia ++ i :: ib) !! length ia = Some i) by (by rewrite lookup_app_r, Nat.sub_diag by lia).
  assert (Hlast : last ia = Some j <-> (S k = length ia)%nat).
  { rewrite last_lookup. split; intros E.
    - assert (pred (length ia) < length ia)%nat by (by apply lookup_lt_Some in E). assert (k0 = pred (length ia)) as Ek.
      { eapply Hnd; [done|]. by rewrite lookup_app_l by lia. } unfold k0 in Ek. case_decide; lia.
    - rewrite <- E. cbn. rewrite lookup_app_l in Hj by lia. done. }
  assert (Hfirst : ib !! 0%nat = Some j <-> k = length ia).
  { split; intros E.
    - assert (k0 = S (length ia)) as Ek.
      { eapply Hnd; [done|]. rewrite lookup_app_r by lia. by replace (S (length ia) - length ia)%nat with 1%nat by lia. } unfold k0 in Ek. case_decide; lia.
    - rewrite E, lookup_app_r, Nat.sub_diag in Hj by lia. done. }
  split; [done|]. split; [intros ->; assert (k0 = length ia) as Ek by (by eapply Hnd); unfold k0 in Ek; case_decide; lia|]. split.
  - destruct (decide (last ia = Some j)) as [E|E]; rewrite Hlast in E.
    + rewrite E, lookup_app_r, Nat.sub_diag by lia. done.
    + unfold k0. case_decide; [by rewrite !lookup_app_l by lia|]. rewrite !lookup_app_r by lia.
      by replace (S (S k) - length ia)%nat with (S (S k - length ia)) by lia.
  - destruct (decide (ib !! 0%nat = Some j)) as [E|E]; rewrite Hfirst in E.
    + rewrite E. symmetry. apply before_app.
    + unfold k0. case_decide; [by rewrite !before_lt by lia|]. by rewrite before_gt by lia.
Qed.

Lemma unlink_holds q a x b l : holds q (a ++ x :: b) ->
  (forall j, l !! j = patch (index x) (last (index <$> a)) ((index <$> b) !! 0%nat) j <$> reqs q !! j) ->
  holds (mk_queue l (match last (index <$> a) with None => (index <$> b) !! 0%nat | Some _ => head q end)
    (match (index <$> b) !! 0%nat with None => last (index <$> a) | Some _ => tail q end) (nelems q - 1) (nbytes q - pq_size x)) (a ++ b).
Proof.
  intros Hq Hl. pose proof (indices_nodup _ _ Hq) as Hnd. pose proof Hq as [Hc Hpos Hh Ht Hlinks Hin Hne Hnb]. rewrite !fmap_app, !fmap_cons in *.
  constructor; cbn [reqs head tail nelems nbytes]; try rewrite !fmap_app.
  - apply NoDup_app in Hc as (H1 & H2 & H3). apply NoDup_cons in H3 as [H3 H4]. apply NoDup_app. split; [done|]. split; [|done].
    intros z Hz Hz'. by apply (H2 z Hz); right.
  - apply Forall_app in Hpos as [? Hb]. apply Forall_cons in Hb as [_ ?]. by apply Forall_app.
  - rewrite Hh. rewrite last_lookup. destruct (index <$> a) as [|i0 ia]; [done|]. cbn. destruct (lookup_lt_is_Some_2 (i0 :: ia) (length ia)) as [z ->]; [cbn; lia|done].
  - rewrite Ht. destruct (index <$> b) as [|i0 ib] eqn:Eb; cbn; [by rewrite app_nil_r|]. by rewrite !last_app, last_cons_cons, last_cons; destruct (last ib).
  - intros k y Hy. destruct (unlink_indices (index <$> a) (index x) (index <$> b) k (index y) Hnd) as (H0 & Hyx & Hn & Hp);
      [by rewrite <- fmap_app, list_lookup_fmap, Hy|]. set (k0 := if decide _ then k else S k) in *.
    assert (Hk0 : (a ++ x :: b) !! k0 = Some y).
    { unfold k0. rewrite length_fmap. destruct (decide (k < length a)%nat); [by rewrite lookup_app_l in Hy |- * by lia|]. rewrite lookup_app_r in Hy |- * by lia.
      by replace (S k - length a)%nat with (S (k - length a)) by lia. }
    destruct (Hlinks k0 y Hk0) as (n & En & Er & Enext & Eprev). rewrite Hl, En. cbn. eexists. split; [done|].
    unfold patch. cbn. rewrite decide_False by done. split; [done|]. split; [by rewrite Enext|by rewrite Eprev].
  - intros j n y Hj Hr. rewrite Hl in Hj. destruct (reqs q !! j) as [m|] eqn:Em; [|done]. cbn in Hj. injection Hj as <-. cbn in Hr.
    destruct (decide (j = index x)) as [|Hne']; [done|]. destruct (Hin j m y Em Hr) as [Hyl Ey]. split; [|done].
    apply elem_of_app in Hyl as [?|Hyl]; apply elem_of_app; [by left|]. apply elem_of_cons in Hyl as [->|?]; [congruence|by right].
  - rewrite Hne, !length_app. cbn. lia.
  - rewrite <- fmap_app, bytes_app. rewrite Hnb, <- fmap_cons, <- fmap_app, bytes_app. cbn. lia.
Qed.

(** Taking a request out. *)
Lemma queue_unlink_ok q a x b rid : holds q (a ++ x :: b) -> pq_rid x <= rid ->
  exists q', remove_client q (pq_cid x) rid = Some (q', bool_decide (a = [])) /\ holds q' (a ++ b) /\ outs q' = outs q.
Proof.
  intros Hq Hle. pose proof (indices_nodup _ _ Hq) as Hnd. pose proof Hq as [_ _ Hh Ht Hlinks _ _ _]. rewrite !fmap_app, !fmap_cons in *.
  assert (Hx : x ∈ a ++ x :: b) by (apply elem_of_app; right; by left).
  destruct (Hlinks (length a) x) as (n & En & Er & Enext & Eprev); [by rewrite lookup_app_r, Nat.sub_diag by lia|].
  rewrite <- (length_fmap index a), before_app in Eprev.
  rewrite lookup_app_r in Enext by (rewrite length_fmap; lia).
  replace (S (length a) - length (index <$> a))%nat with 1%nat in Enext by (rewrite length_fmap; lia). cbn in Enext.
  assert (Hnot : forall j, last (index <$> a) = Some j \/ (index <$> b) !! 0%nat = Some j -> j ∈ index <$> (a ++ b)).
  { intros j [E|E]; rewrite fmap_app; apply elem_of_app; [left; by apply last_Some_elem_of|right; by apply list_elem_of_lookup_2 in E]. }
  assert (Hself : index x ∉ index <$> (a ++ b)).
  { rewrite fmap_app. apply NoDup_app in Hnd as (_ & H2 & H3). apply NoDup_cons in H3 as [H3 _]. intros E. apply elem_of_app in E as [E|E]; [|done]. by apply (H2 _ E); left. }
  destruct (unlink_patch q x rid n (last (index <$> a)) ((index <$> b) !! 0%nat)) as (l & -> & Hlen & Hl); try done.
  - by eapply holds_place.
  - intros E. rewrite Hh. destruct (index <$> a) as [|i0 ia]; [done|]. rewrite last_cons in E. by destruct (last ia).
  - intros E. rewrite Ht. destruct (index <$> b); [by rewrite last_snoc|done].
  - intros j Hj. apply Hnot, list_elem_of_fmap in Hj as (y & -> & Hy). eapply holds_lt; [done|].
    apply elem_of_app in Hy as [?|?]; apply elem_of_app; [by left|right; by right].
  - intros E. apply Hself, Hnot. by left.
  - intros E. apply Hself, Hnot. by right.
  - eexists. split; [|split; [by apply unlink_holds|by eapply outs_kept]]. f_equal. f_equal. destruct a as [|y a]; [done|]. cbn. rewrite last_cons.
    by destruct (last (index <$> a)).
Qed.

Lemma remove_client_ok q l cid rid : holds q l -> 0 <= cid < Z.of_nat (length (reqs q)) ->
  exists q', remove_client q cid rid = Some (q', snd (remove_client_spec l cid rid)) /\ holds q' (fst (remove_client_spec l cid rid)) /\
    outs q' = outs q.
Proof.
  intros Hq Hcid. unfold remove_client_spec. pose proof (of_client_split cid l (hold_nodup _ _ Hq)) as Hs.
  assert (Hat : exists n, place cid = Some (Z.to_nat cid) /\ reqs q !! Z.to_nat cid = Some n).
  { unfold place. rewrite (proj2 (Z.leb_le _ _)) by lia. destruct (lookup_lt_is_Some_2 (reqs q) (Z.to_nat cid)) as [n Hn]; [lia|eauto]. }
  destruct Hat as (n & Hp & Hn). destruct (of_client cid l) as [x|].
  - destruct Hs as (a & b & -> & <- & ->). destruct (Z.leb_spec (pq_rid x) rid) as [Hle|Hgt].
    + destruct (queue_unlink_ok q a x b rid Hq Hle) as (q' & E & Hq' & Hlen). exists q'. split; [|done]. rewrite E. cbn. f_equal. f_equal.
      apply bool_decide_ext. split; [by intros ->|]. destruct a as [|y a]; [done|]. cbn. intros [= E'].
      pose proof (hold_nodup _ _ Hq) as Hnd. cbn in Hnd. apply NoDup_cons in Hnd as [Hy _]. exfalso. apply Hy. rewrite E', fmap_app.
      apply elem_of_app. right. by left.
    + exists q. split; [|done]. unfold remove_client. assert (Hx : x ∈ a ++ x :: b) by (apply elem_of_app; right; by left).
      rewrite (holds_place q _ x Hq Hx). cbn. apply list_elem_of_lookup in Hx as [k Hk].
      destruct (hold_links _ _ Hq k x Hk) as (m & Em & Er & _). rewrite Em. cbn. rewrite Er. by rewrite (proj2 (Z.leb_gt _ _)) by lia.
  - exists q. split; [|done]. unfold remove_client. rewrite Hp. cbn. rewrite Hn. cbn. destruct (r n) as [x|] eqn:Er; [|done].
    destruct (hold_in _ _ Hq _ _ _ Hn Er) as [Hx Ei]. exfalso. apply (Hs x Hx). pose proof (hold_cid _ _ Hq) as Hc. rewrite Forall_forall in Hc.
    specialize (Hc x Hx). unfold index in Ei. lia.
Qed.

(** The first request taken out is the one of its client. *)
Lemma queue_remove_ok q l : holds q l -> exists q', remove q = Some (q', l !! 0%nat) /\ holds q' (drop 1 l) /\ outs q' = outs q.
Proof.
  intros Hq. destruct l as [|x l]; [exists q; unfold remove; by rewrite (hold_head _ _ Hq)|].
  destruct (queue_unlink_ok q [] x l (pq_rid x) Hq) as (q' & E & Hq' & Hlen); [lia|]. exists q'. split; [|done].
  destruct (hold_links _ _ Hq 0%nat x eq_refl) as (n & En & Er & Enext & Eprev). unfold remove_client in E.
  rewrite (holds_place q _ x Hq) in E by by left. cbn in E. rewrite En in E. cbn in E. rewrite Er, Z.leb_refl in E. cbn in Eprev. rewrite Eprev in E.
  unfold remove. rewrite (hold_head _ _ Hq). cbn. rewrite En. cbn. rewrite Er. cbn.
  destruct (at_node (index x) (set_r None) (reqs q)) as [l1|]; [|done]. cbn in E |- *. rewrite (decide_True (P := head q = _)) in E by (by rewrite (hold_head _ _ Hq)).
  cbn in E. destruct (next n) as [k|].
  - destruct (at_node k (set_prev None) l1) as [l2|]; [|done]. cbn in E |- *. by injection E as <-.
  - destruct (decide (tail q = Some (index x))); [|done]. cbn in E |- *. by injection E as <-.
Qed.

(** The nodes once [x] is linked at the end, after the node [p]. *)
Definition link (x : P_Request) (p : option nat) (j : nat) (n : PNode) : PNode :=
  if decide (j = index x) then mk_pnode (Some x) None p (out_rid n) (out_v n)
  else if decide (p = Some j) then set_next (Some (index x)) n else n.

Lemma link_outs x p j n : out_rid (link x p j n) = out_rid n /\ out_v (link x p j n) = out_v n.
Proof. unfold link. by repeat case_decide. Qed.

Lemma link_holds q l x nodes : holds q l -> (forall y, y ∈ l -> pq_cid y <> pq_cid x) -> 0 <= pq_cid x ->
  (index x < length (reqs q))%nat -> (forall j, nodes !! j = link x (last (index <$> l)) j <$> reqs q !! j) ->
  holds (mk_queue nodes (Some (default (index x) (head q))) (Some (index x)) (nelems q + 1) (nbytes q + pq_size x)) (l ++ [x]).
Proof.
  intros Hq Hnew Hpos Hlt Hn. pose proof (indices_nodup _ _ Hq) as Hnd. pose proof Hq as [Hc Hge Hh Ht Hlinks Hin Hne Hnb].
  assert (Hx : forall y, y ∈ l -> index y <> index x).
  { intros y Hy E. apply (Hnew y Hy). rewrite Forall_forall in Hge. specialize (Hge y Hy). unfold index in E. lia. }
  constructor; cbn [reqs head tail nelems nbytes]; try rewrite !fmap_app.
  - apply NoDup_app. split; [done|]. split; [|apply NoDup_singleton]. intros z Hz Hz'. apply list_elem_of_fmap in Hz as (y & -> & Hy).
    cbn in Hz'. apply list_elem_of_singleton in Hz'. by apply (Hnew y).
  - apply Forall_app. split; [done|]. by constructor.
  - rewrite Hh. by destruct l.
  - change (index <$> [x]) with [index x]; by rewrite last_snoc.
  - intros k y Hy. apply lookup_app_Some in Hy as [Hy|[Hk Hy]].
    + destruct (Hlinks k y Hy) as (n & En & Er & Enext & Eprev). rewrite Hn, En. cbn. eexists. split; [done|]. unfold link.
      assert (index y <> index x) by (apply Hx; by apply list_elem_of_lookup_2 in Hy). rewrite decide_False by done.
      apply lookup_lt_Some in Hy as Hk. rewrite before_lt by (rewrite length_fmap; lia).
      assert (Hlast : last (index <$> l) = Some (index y) <-> (S k = length l)%nat).
      { rewrite last_lookup, length_fmap. split; intros E.
        - assert (k = pred (length l)) as ->; [|lia]. rewrite NoDup_alt in Hnd. eapply Hnd; [by rewrite list_lookup_fmap, Hy|done].
        - rewrite <- E. cbn. by rewrite list_lookup_fmap, Hy. }
      destruct (decide (last (index <$> l) = Some (index y))) as [E|E]; rewrite Hlast in E; cbn.
      * split; [done|]. split; [|done]. rewrite E, <- (length_fmap index l), lookup_app_r, Nat.sub_diag by lia. done.
      * split; [done|]. split; [|done]. rewrite lookup_app_l by (rewrite length_fmap; lia). done.
    + destruct (k - length l)%nat as [|?] eqn:Ek; [|by apply lookup_nil in Hy || destruct n]. cbn in Hy. injection Hy as <-.
      assert (k = length l) as -> by lia. destruct (lookup_lt_is_Some_2 (reqs q) (index x)) as [n En]; [done|]. rewrite Hn, En. cbn.
      eexists. split; [done|]. unfold link. rewrite decide_True by done. cbn. split; [done|]. split.
      * rewrite lookup_ge_None_2; [done|]. rewrite length_app, length_fmap. cbn. lia.
      * by rewrite <- (length_fmap index l), before_app.
  - intros j n y Hj Hr. rewrite Hn in Hj. destruct (reqs q !! j) as [m|] eqn:Em; [|done]. cbn in Hj. injection Hj as <-. unfold link in Hr.
    destruct (decide (j = index x)) as [->|Hj]; [cbn in Hr; injection Hr as <-; split; [apply elem_of_app; right; by left|done]|].
    assert (Hr' : r m = Some y) by (by destruct (decide (last _ = Some j))). destruct (Hin j m y Em Hr') as [? ?]. split; [apply elem_of_app; by left|done].
  - rewrite Hne, length_app. cbn. lia.
  - rewrite Hnb, <- fmap_app, bytes_app. cbn. lia.
Qed.

(** Linking a request of a client that has none in the queue. *)
Lemma queue_link_ok q l x : holds q l -> (forall y, y ∈ l -> pq_cid y <> pq_cid x) -> 0 <= pq_cid x < Z.of_nat (length (reqs q)) ->
  exists q', (l1 ← at_node (index x) (set_r (Some x)) (reqs q);
    match head q with
    | None =>
      l2 ← at_node (index x) (fun n => set_prev None (set_next None n)) l1;
      Some (mk_queue l2 (Some (index x)) (Some (index x)) (nelems q + 1) (nbytes q + pq_size x), true)
    | Some _ =>
      k ← tail q;
      l2 ← at_node k (set_next (Some (index x))) l1;
      l3 ← at_node (index x) (fun n => set_next None (set_prev (Some k) n)) l2;
      Some (mk_queue l3 (head q) (Some (index x)) (nelems q + 1) (nbytes q + pq_size x), true)
    end) = Some (q', true) /\ holds q' (l ++ [x]) /\ outs q' = outs q.
Proof.
  intros Hq Hnew Hcid. assert (Hlt : (index x < length (reqs q))%nat) by (unfold index; lia).
  destruct (at_node_spec (index x) (set_r (Some x)) (reqs q) Hlt) as (l1 & -> & L1 & E1). cbn.
  pose proof (link_holds q l x) as Hl. rewrite (hold_tail _ _ Hq). rewrite (hold_head _ _ Hq) in Hl |- *. destruct l as [|y l].
  - cbn. destruct (at_node_spec (index x) (fun n => set_prev None (set_next None n)) l1) as (l2 & -> & L2 & E2); [lia|]. cbn. eexists. split; [done|].
    assert (Hp : forall j, l2 !! j = link x None j <$> reqs q !! j).
    { intros j. rewrite E2, E1. destruct (reqs q !! j); [|done]. cbn. f_equal. unfold link. repeat case_decide; simplify_eq; done. }
    split; [apply Hl; try done; lia|]. eapply outs_kept; [done|apply link_outs].
  - cbn [fmap list_fmap lookup list_lookup default]. destruct (last_is_Some (index y :: (index <$> l))) as [_ [k Ek]]; [done|].
    change (index <$> y :: l) with (index y :: (index <$> l)) in *. rewrite Ek. cbn [mbind option_bind].
    assert (Hk : k ∈ index <$> y :: l) by (by apply last_Some_elem_of). apply list_elem_of_fmap in Hk as (z & -> & Hz).
    assert (Hne : index z <> index x).
    { intros E. apply (Hnew z Hz). pose proof (hold_cid _ _ Hq) as Hc. rewrite Forall_forall in Hc. specialize (Hc z Hz). unfold index in E. lia. }
    destruct (at_node_spec (index z) (set_next (Some (index x))) l1) as (l2 & -> & L2 & E2); [rewrite L1; by eapply holds_lt|]. cbn [mbind option_bind].
    destruct (at_node_spec (index x) (fun n => set_next None (set_prev (Some (index z)) n)) l2) as (l3 & -> & L3 & E3); [lia|]. cbn [mbind option_bind].
    eexists. split; [done|]. assert (Hp : forall j, l3 !! j = link x (Some (index z)) j <$> reqs q !! j).
    { intros j. rewrite E3, E2, E1. destruct (reqs q !! j); [|done]. cbn. f_equal. unfold link. repeat case_decide; simplify_eq; done. }
    split; [|eapply outs_kept; [done|apply link_outs]]. apply Hl; try done; [lia|]. by rewrite Ek.
Qed.

Lemma append_ok q l x : holds q l -> 0 <= pq_cid x < Z.of_nat (length (reqs q)) ->
  exists q', append q x = Some (q', snd (append_spec l x)) /\ holds q' (fst (append_spec l x)) /\ outs q' = outs q.
Proof.
  intros Hq Hcid. unfold append, append_spec. pose proof (of_client_split (pq_cid x) l (hold_nodup _ _ Hq)) as Hs.
  assert (Hp : place (pq_cid x) = Some (index x)) by (unfold place; by rewrite (proj2 (Z.leb_le _ _)) by lia). rewrite Hp. cbn [mbind option_bind].
  destruct (lookup_lt_is_Some_2 (reqs q) (index x)) as [n Hn]; [unfold index; lia|]. rewrite Hn. cbn [mbind option_bind].
  destruct (of_client (pq_cid x) l) as [y|] eqn:Eo.
  - destruct Hs as (a & b & -> & Ey & Ed). assert (Hy : y ∈ a ++ y :: b) by (apply elem_of_app; right; by left).
    assert (Er : r n = Some y).
    { apply list_elem_of_lookup in Hy as [k Hk]. destruct (hold_links _ _ Hq k y Hk) as (m & Em & Er & _).
      unfold index in Em, Hn. rewrite Ey in Em. congruence. }
    rewrite Er. destruct (Z.ltb_spec (pq_rid y) (pq_rid x)) as [Hlt|Hge]; cbn [mbind option_bind]; [|by exists q].
    destruct (remove_client_ok q (a ++ y :: b) (pq_cid x) (pq_rid x) Hq Hcid) as (q1 & -> & Hq1 & Ho1). cbn [mbind option_bind].
    unfold remove_client_spec in Hq1. rewrite Eo, (proj2 (Z.leb_le _ _)) in Hq1 by lia. cbn [fst snd] in Hq1 |- *.
    destruct (queue_link_ok q1 _ x Hq1) as (q2 & E2 & Hq2 & Ho2);
      [intros z Hz; unfold drop_client in Hz; by apply list_elem_of_filter in Hz as [? _]|by rewrite (outs_length _ _ Ho1)|].
    exists q2. split; [exact E2|]. split; [done|congruence].
  - assert (Er : r n = None).
    { destruct (r n) as [y|] eqn:Er; [|done]. destruct (hold_in _ _ Hq _ _ _ Hn Er) as [Hy Ei]. exfalso. apply (Hs y Hy).
      pose proof (hold_cid _ _ Hq) as Hc. rewrite Forall_forall in Hc. specialize (Hc y Hy). unfold index in Ei. lia. }
    rewrite Er. cbn [mbind option_bind]. exact (queue_link_ok q l x Hq Hs Hcid).
Qed.

Lemma create_holds_none np : holds (create np) [].
Proof.
  constructor; try done; try apply NoDup_nil_2. cbn. intros i n x Hn Hr. apply lookup_replicate in Hn as [-> _]. done.
Qed.

Lemma clear_holds q : holds (clear q) [] /\ outs (clear q) = (fun _ => (0, -1)) <$> outs q.
Proof.
  split.
  - constructor; try done; try apply NoDup_nil_2. cbn. intros i n x Hn Hr. rewrite list_lookup_fmap in Hn. destruct (reqs q !! i); [|done]. cbn in Hn. by injection Hn as <-.
  - unfold outs. cbn. by rewrite <- !list_fmap_compose.
Qed.

Lemma first_client_ok q l cid : holds q l -> 0 <= cid < Z.of_nat (length (reqs q)) -> first_client q cid = Some (of_client cid l).
Proof.
  intros Hq Hcid. unfold first_client, place. rewrite (proj2 (Z.leb_le _ _)) by lia. cbn.
  destruct (lookup_lt_is_Some_2 (reqs q) (Z.to_nat cid)) as [n Hn]; [lia|]. rewrite Hn. cbn. f_equal.
  pose proof (of_client_split cid l (hold_nodup _ _ Hq)) as Hs. destruct (of_client cid l) as [y|].
  - destruct Hs as (a & b & -> & Ey & _). destruct (hold_links _ _ Hq (length a) y) as (m & Em & Er & _); [by rewrite lookup_app_r, Nat.sub_diag by lia|].
    unfold index in Em. rewrite Ey in Em. congruence.
  - destruct (r n) as [y|] eqn:Er; [|done]. destruct (hold_in _ _ Hq _ _ _ Hn Er) as [Hy Ei]. exfalso. apply (Hs y Hy).
    pose proof (hold_cid _ _ Hq) as Hc. rewrite Forall_forall in Hc. specialize (Hc y Hy). unfold index in Ei. lia.
Qed.

Lemma first_ok q l : holds q l -> first q = Some (l !! 0%nat).
Proof.
  intros Hq. unfold first. rewrite (hold_head _ _ Hq). destruct l as [|x l]; [done|]. cbn.
  destruct (hold_links _ _ Hq 0%nat x eq_refl) as (n & -> & Er & _). cbn. by rewrite Er.
Qed.

(** A request that was marked in a view is in progress in the views before, too. *)
Lemma in_progress_older_view q cid rid v v' q1 : in_progress q cid rid v = Some (q1, false) -> v' <= v ->
  in_progress q1 cid rid v' = Some (q1, true).
Proof.
  unfold in_progress. destruct (place cid) as [i|]; [|done]. cbn. destruct (reqs q !! i) as [n|] eqn:Hn; [|done]. cbn.
  destruct ((out_rid n <? rid) || (out_v n <? v)); [|done]. intros [= <-] Hv. cbn.
  rewrite list_lookup_insert_eq by (by eapply lookup_lt_Some). cbn.
  by rewrite (proj2 (Z.ltb_ge rid rid)), (proj2 (Z.ltb_ge v v')) by lia.
Qed.

(** A change of the request in progress alone. *)
Lemma in_progress_holds q l i n rid v : holds q l -> reqs q !! i = Some n ->
  holds (mk_queue (<[i := mk_pnode (r n) (next n) (prev n) rid v]> (reqs q)) (head q) (tail q) (nelems q) (nbytes q)) l.
Proof.
  intros [Hc Hge Hh Ht Hlinks Hin Hne Hnb] Hn. constructor; cbn; try done.
  - intros k x Hk. destruct (Hlinks k x Hk) as (m & Em & Er & E1 & E2). destruct (decide (index x = i)) as [<-|Hi].
    + rewrite list_lookup_insert_eq by by apply lookup_lt_Some in Hn. rewrite Hn in Em. injection Em as <-. eexists. by split.
    + rewrite list_lookup_insert_ne by done. by exists m.
  - intros j m x Hj Hr. destruct (decide (i = j)) as [<-|Hi].
    + rewrite list_lookup_insert_eq in Hj by by apply lookup_lt_Some in Hn. injection Hj as <-. by apply (Hin i n).
    + rewrite list_lookup_insert_ne in Hj by done. by apply (Hin j m).
Qed.

Lemma serve_ok np q l o : holds q l -> Z.of_nat (length (reqs q)) = np -> valid np o ->
  exists q', serve q o = Some (q', snd (serve_spec (l, outs q) o)) /\ holds q' (fst (fst (serve_spec (l, outs q) o))) /\
    outs q' = snd (fst (serve_spec (l, outs q) o)).
Proof.
  intros Hq <- Hv. destruct o as [x| |cid rid| |cid|cid rid v| | |]; cbn [serve serve_spec fst snd valid] in *.
  - destruct (append_ok q l x Hq Hv) as (q' & -> & ? & ?). by exists q'.
  - destruct (queue_remove_ok q l Hq) as (q' & -> & ? & ?). by exists q'.
  - destruct (remove_client_ok q l cid rid Hq Hv) as (q' & -> & ? & ?). by exists q'.
  - rewrite (first_ok q l Hq). by exists q.
  - rewrite (first_client_ok q l cid Hq Hv). by exists q.
  - unfold in_progress, place. rewrite (proj2 (Z.leb_le _ _)) by lia. cbn [mbind option_bind].
    destruct (lookup_lt_is_Some_2 (reqs q) (Z.to_nat cid)) as [n Hn]; [lia|]. rewrite Hn. cbn [mbind option_bind].
    replace (outs q !! Z.to_nat cid) with (Some (out_rid n, out_v n)) by (unfold outs; by rewrite list_lookup_fmap, Hn).
    unfold default, id. cbv iota beta.
    destruct ((out_rid n <? rid) || (out_v n <? v)); cbn [mbind option_bind fst snd]; [|by exists q].
    eexists. split; [done|]. split; [by apply in_progress_holds|]. unfold outs. cbn. by rewrite list_fmap_insert.
  - exists q. unfold size. by rewrite (hold_nelems _ _ Hq).
  - exists q. unfold num_bytes. by rewrite (hold_nbytes _ _ Hq).
  - destruct (clear_holds q) as [? ?]. by exists (clear q).
Qed.

Lemma serve_all_ok np os : forall q l, holds q l -> Z.of_nat (length (reqs q)) = np -> Forall (valid np) os ->
  exists q', serve_all q os = Some (q', serve_spec_all (l, outs q) os).
Proof.
  induction os as [|o os IH]; intros q l Hq Hn Hv; [by exists q|]. apply Forall_cons in Hv as [Ho Hv].
  destruct (serve_ok np q l o Hq Hn Ho) as (q1 & E & Hq1 & Ho1). cbn [serve_all serve_spec_all]. rewrite E. cbn [mbind option_bind].
  destruct (serve_spec (l, outs q) o) as [[l1 p1] a] eqn:Es. cbn [fst snd] in *.
  destruct (IH q1 l1 Hq1) as (q2 & ->); [|done|subst p1; by exists q2].
  rewrite <- Hn. f_equal. apply (f_equal length) in Ho1. unfold outs in Ho1. rewrite length_fmap in Ho1. rewrite Ho1.
  destruct o; cbn in Es; try (injection Es as <- <- <-; unfold outs; by rewrite ?length_fmap).
  destruct (default _ _) as [? ?]. destruct (_ || _); injection Es as <- <- <-; unfold outs; by rewrite ?length_insert, length_fmap.
Qed.

(** C24. The array of nodes linked both ways is a queue: whatever calls are made, with identifiers of
    principals, no assertion fails and the answers are those of a sequence of requests of different principals,
    to which [append] adds at the end, in place of an older request of the same principal and never of a newer one. *)
Theorem pqueue_refines np os : Forall (valid (Z.of_nat np)) os ->
  exists q, serve_all (create (Z.of_nat np)) os = Some (q, serve_spec_all ([], replicate np (0, -1)) os).
Proof.
  intros Hv. destruct (serve_all_ok (Z.of_nat np) os (create (Z.of_nat np)) [] (create_holds_none _)) as (q & E);
    [cbn; rewrite length_replicate; lia|done|]. exists q. rewrite E. unfold outs. cbn. by rewrite fmap_replicate, Nat2Z.id.
Qed.
End PReqQueue.

(** ** An example *)

Module PReqQueueExample.
Import PReqQueue.

Definition rq (cid rid : Z) : P_Request := mk_preq cid rid false false 100 (-1) (10 * cid + rid) [].

(** The second request of principal 1 goes to the end; its first is gone. *)
Definition some_calls : list call :=
  [Append (rq 1 5); Append (rq 2 1); Append (rq 1 6); Append (rq 1 6); Append (rq 0 9); First; RemoveClient 1 6; Remove; Size; Remove; Remove].

Lemma pqueue_refines_witness : Forall (valid (Z.of_nat 3)) some_calls /\
  (exists q, serve_all (create (Z.of_nat 3)) some_calls = Some (q, serve_spec_all ([], replicate 3%nat (0, -1)) some_calls)) /\
  serve_spec_all ([], replicate 3%nat (0, -1)) some_calls =
    [RBool true; RBool true; RBool true; RBool false; RBool true; RReq (Some (rq 2 1)); RBool false; RReq (Some (rq 2 1));
     RNum 1; RReq (Some (rq 0 9)); RReq None].
Proof.
  assert (Hv : Forall (valid (Z.of_nat 3)) some_calls) by (repeat constructor; cbn; lia).
  split; [exact Hv|]. split; [exact (pqueue_refines 3 some_calls Hv)|vm_compute; reflexivity].
Defined.
End PReqQueueExample.
