(* ===== verification/PPrepared.v ===== *)
(** * Messages, big requests and prepared certificates of PBFT

    Models, of [src/protocols/pbft/replica/]: the ordering messages
    ([PBFT_R_Pre_prepare], [PBFT_R_Prepare], [PBFT_R_Commit], [PBFT_R_Checkpoint]: their
    fields, [match] and [verify]), [PBFT_R_Big_req_table] (the requests that are too big to
    be in a pre-prepare; but for [add_request], which is in [PBFT.v]),
    [PBFT_R_Pre_prepare_info] (a pre-prepare and which of its big requests are here) and
    [PBFT_R_Prepared_cert] (a pre-prepare and the prepares that match it).

    The authenticators are parameters ([auth_in], [mac_in], [rq_verify]), and so is
    the digest of a batch.  [None] is a failed assertion.  The layout of the messages, [encode]
    and [decode] are left out. *)

From stdpp Require Import gmap.
From S2P Require Import Prelude Bitmap Certificate PLog PCert PReqQueue.
Local Open Scope Z_scope.

(** ** Messages *)

Record Pre_prepare := mk_pp {
  pp_view : Z; pp_seqno : Z; pp_digest : Z; pp_reqs : list P_Request; pp_big : list Z; pp_choices : list Z
}.
Record Prepare := mk_prepare { pr_view : Z; pr_seqno : Z; pr_digest : Z; pr_id : Z; pr_proof : bool }.
Record Commit := mk_commit { cm_view : Z; cm_seqno : Z; cm_id : Z }.
Record Checkpoint := mk_checkpoint { ck_seqno : Z; ck_digest : Z; ck_id : Z; ck_stable : bool }.

#[export] Instance prepare_eq_dec : EqDecision Prepare.
Proof. solve_decision. Defined.
#[export] Instance request_eq_dec : EqDecision P_Request.
Proof. solve_decision. Defined.
#[export] Instance pre_prepare_eq_dec : EqDecision Pre_prepare.
Proof. solve_decision. Defined.

(** [match] of prepares, commits and checkpoints, with its assertion. *)
#[export] Instance prepare_msg : PMsg Prepare := {|
  p_id := pr_id; p_full := fun _ => true;
  p_match := fun a b => if (pr_view a =? pr_view b) && (pr_seqno a =? pr_seqno b) then Some (bool_decide (pr_digest a = pr_digest b)) else None
|}.
#[export] Instance commit_msg : PMsg Commit := {|
  p_id := cm_id; p_full := fun _ => true;
  p_match := fun a b => if (cm_view a =? cm_view b) && (cm_seqno a =? cm_seqno b) then Some true else None
|}.
#[export] Instance checkpoint_msg : PMsg Checkpoint := {|
  p_id := ck_id; p_full := fun _ => true;
  p_match := fun a b => if ck_seqno a =? ck_seqno b then Some (bool_decide (ck_digest a = ck_digest b)) else None
|}.

(** [PBFT_R_Pre_prepare::match]. *)
Definition pp_match (p : Pre_prepare) (m : Prepare) : option bool :=
  if (pp_view p =? pr_view m) && (pp_seqno p =? pr_seqno m) then Some (bool_decide (pp_digest p = pr_digest m)) else None.

(** ** Big requests *)

Module BigReqs.

(** An entry: its request, the pre-prepares that wait for it (sequence number and index). *)
Record entry := mk_entry { e_r : option P_Request; e_waiting : list (Z * Z); e_maxn : Z; e_maxv : Z }.
Record t := mk_table { breqs : gmap Z entry; unmatched : gmap Z P_Request }.

Definition create : t := mk_table ∅ ∅.

Definition remove_unmatched (b : t) (e : entry) : option t :=
  if e_maxn e <? 0 then r ← e_r e; Some (mk_table (breqs b) (delete (pq_cid r) (unmatched b))) else Some b.

(** [add_pre_prepare(Digest&, int, Seqno, View)]. *)
Definition add_pre_prepare (b : t) (rd i n v : Z) : option (t * bool) :=
  match breqs b !! rd with
  | Some e =>
    b ← remove_unmatched b e;
    let e := mk_entry (e_r e) (e_waiting e) (Z.max n (e_maxn e)) (Z.max v (e_maxv e)) in
    match e_r e with
    | Some _ => Some (mk_table (<[rd := e]> (breqs b)) (unmatched b), true)
    | None => Some (mk_table (<[rd := mk_entry None (e_waiting e ++ [(n, i)]) (e_maxn e) (e_maxv e)]> (breqs b)) (unmatched b), false)
    end
  | None => Some (mk_table (<[rd := mk_entry None [(n, i)] n v]> (breqs b)) (unmatched b), false)
  end.

(** [add_pre_prepare(PBFT_R_Request*, Seqno, View)]. *)
Definition add_own (b : t) (r : P_Request) (n v : Z) : option t :=
  match breqs b !! pq_digest r with
  | Some e =>
    b ← remove_unmatched b e;
    Some (mk_table (<[pq_digest r := mk_entry (Some (default r (e_r e))) (e_waiting e) (Z.max n (e_maxn e)) (Z.max v (e_maxv e))]> (breqs b)) (unmatched b))
  | None => Some (mk_table (<[pq_digest r := mk_entry (Some r) [] n v]> (breqs b)) (unmatched b))
  end.

Definition lookup (b : t) (rd : Z) : option P_Request := e ← breqs b !! rd; e_r e.

(** [if (bre->maxn <= ls && bre->maxv >= 0)]. *)
Definition stale (ls : Z) (e : entry) : bool := (e_maxn e <=? ls) && (0 <=? e_maxv e).

(** An entry that is stale and has no sequence number fails no assertion: it has its request. *)
Definition mark_stable (b : t) (ls : Z) : t :=
  let gone := filter (fun kv => stale ls kv.2 = true) (breqs b) in
  mk_table (filter (fun kv => stale ls kv.2 = false) (breqs b))
    (map_fold (fun _ e u => if e_maxn e <? 0 then match e_r e with Some r => delete (pq_cid r) u | None => u end else u) (unmatched b) gone).

End BigReqs.

(** ** A pre-prepare and its big requests *)

Module PPInfo.

Record t := mk_info { pp : option Pre_prepare; mreqs : Z; mrmap : Z }.

Definition empty : t := mk_info None 0 0.

Fixpoint add_loop (b : BigReqs.t) (ds : list Z) (i : Z) (p : Pre_prepare) (mreqs mrmap : Z) : option (BigReqs.t * Z * Z) :=
  match ds with
  | [] => Some (b, mreqs, mrmap)
  | d :: ds =>
    '(b, here) ← BigReqs.add_pre_prepare b d i (pp_seqno p) (pp_view p);
    if (here : bool) then add_loop b ds (i + 1) p (mreqs - 1) (Z.setbit mrmap i) else add_loop b ds (i + 1) p mreqs mrmap
  end.

Definition add (b : BigReqs.t) (x : t) (p : Pre_prepare) : option (BigReqs.t * t) :=
  match pp x with
  | Some _ => None
  | None =>
    '(b, mr, mm) ← add_loop b (pp_big p) 0 p (Z.of_nat (length (pp_big p))) 0;
    Some (b, mk_info (Some p) mr mm)
  end.

Definition add_complete (x : t) (p : Pre_prepare) : option t :=
  match pp x with Some _ => None | None => Some (mk_info (Some p) 0 (Z.lnot 0)) end.

(** [add(Digest &rd, int i)]. *)
Definition add_digest (x : t) (rd i : Z) : option t :=
  match pp x with
  | Some p =>
    d ← pp_big p !! Z.to_nat i;
    if d =? rd then Some (mk_info (pp x) (mreqs x - 1) (Z.setbit (mrmap x) i)) else Some x
  | None => Some x
  end.

Definition is_complete (x : t) : bool := match pp x with Some _ => mreqs x =? 0 | None => false end.
Definition clear (x : t) : t := mk_info None (mreqs x) (mrmap x).
Definition zero (x : t) : t := mk_info None (mreqs x) (mrmap x).

End PPInfo.

(** ** Prepared certificates *)

Module Prepared.

Record t := mk_prepared { pc : PCert.t Prepare; pi : PPInfo.t; primary : bool }.

Section cert.
Context (node_id num_replicas f : Z).
(** [verify_auth_in], [verify_mac_in] and [verify] of requests, and the digest of a batch. *)
Context (auth_in mac_in : Prepare -> bool) (pp_auth : Pre_prepare -> bool) (rq_verify : P_Request -> bool).
Context (batch_digest : list Z -> list Z -> list Z -> Z).

Definition primary_of (v : Z) : Z := v mod num_replicas.

Definition prepare_verify (m : Prepare) : bool :=
  PCert.is_replica num_replicas (pr_id m) && negb (pr_id m =? node_id) &&
  if pr_proof m then mac_in m else negb (primary_of (pr_view m) =? pr_id m) && auth_in m.

Definition NAC : Z := 1.
Definition NRC : Z := 2.

(** The requests of the batch: [req.verify() || has_req(req.client_id(), req.digest())]. *)
Fixpoint reqs_verify (q : PReqQueue.t) (mode : Z) (l : list P_Request) : option bool :=
  match l with
  | [] => Some true
  | r :: l =>
    ok ← (if (mode =? NRC) || rq_verify r then Some true
          else x ← PReqQueue.first_client q (pq_cid r);
               Some (match x with Some y => pq_digest y =? pq_digest r | None => false end));
    if (ok : bool) then reqs_verify q mode l else Some false
  end.

Definition pp_verify (q : PReqQueue.t) (mode : Z) (p : Pre_prepare) : option bool :=
  ok ← reqs_verify q mode (pp_reqs p);
  Some ((ok : bool) && (batch_digest (pq_digest <$> pp_reqs p) (pp_big p) (pp_choices p) =? pp_digest p) && ((mode =? NAC) || pp_auth p)).

Definition create : t := mk_prepared (PCert.create f (f * 2)) PPInfo.empty false.

Definition with_pc (c : PCert.t Prepare) (x : t) : t := mk_prepared c (pi x) (primary x).
Definition with_pi (i : PPInfo.t) (x : t) : t := mk_prepared (pc x) i (primary x).

Definition pre_prepare (x : t) : option Pre_prepare := PPInfo.pp (pi x).
Definition my_prepare (x : t) : option Prepare := PCert.mine (pc x).
Definition my_pre_prepare (x : t) : option Pre_prepare := if primary x then pre_prepare x else None.
Definition num_correct (x : t) : Z := PCert.num_correct (pc x).
Definition is_pp_complete (x : t) : bool := PPInfo.is_complete (pi x).
Definition prepare (x : t) : option Prepare := PCert.cvalue (pc x).
Definition is_empty (x : t) : bool := match pre_prepare x with None => PCert.is_empty (pc x) | Some _ => false end.

Definition is_complete (x : t) : option bool :=
  if PPInfo.is_complete (pi x) && PCert.is_complete (pc x) then
    p ← pre_prepare x; m ← PCert.cvalue (pc x); pp_match p m
  else Some false.

(** [Val_iter]: is there a value of [k] senders or more that matches [p]? *)
Fixpoint some_value (k : Z) (p : Pre_prepare) (l : list (PCert.Message_val Prepare)) : option bool :=
  match l with
  | [] => Some false
  | v :: l =>
    if k <=? PCert.vcount v then
      m ← PCert.vm v; b ← pp_match p m;
      if (b : bool) then Some true else some_value k p l
    else some_value k p l
  end.

Definition values (x : t) : list (PCert.Message_val Prepare) := take (Z.to_nat (PCert.cur_size (pc x))) (PCert.vals (pc x)).

Definition is_pp_correct (x : t) : option bool :=
  match pre_prepare x with Some p => some_value f p (values x) | None => Some false end.

Definition add_prepare (x : t) (m : Prepare) : option (t * bool) :=
  '(c, b) ← PCert.add node_id num_replicas f prepare_verify (pc x) m; Some (with_pc c x, b).

Definition add_my_prepare (x : t) (m : Prepare) : option (t * bool) :=
  if node_id =? primary_of (pr_view m) then None
  else '(c, b) ← PCert.add_mine node_id (pc x) m; Some (with_pc c x, b).

Definition add_my_pre_prepare (x : t) (p : Pre_prepare) : option t :=
  if node_id =? primary_of (pp_view p) then
    i ← PPInfo.add_complete (pi x) p; Some (mk_prepared (pc x) i true)
  else None.

Definition add_old (b : BigReqs.t) (x : t) (p : Pre_prepare) : option (BigReqs.t * t) :=
  '(b, i) ← PPInfo.add b (pi x) p; Some (b, with_pi i x).

Definition add_digest (x : t) (d i : Z) : option t := y ← PPInfo.add_digest (pi x) d i; Some (with_pi y x).

(** Does the certificate accept the pre-prepare? *)
Definition accepts (q : PReqQueue.t) (x : t) (m : Pre_prepare) : option bool :=
  match pre_prepare x with
  | Some _ => Some false
  | None =>
    match my_prepare x with
    | None =>
      ok ← pp_verify q 0 m;
      if (ok : bool) then Some true
      else
        ok ← pp_verify q NRC m;
        if (ok : bool) then some_value f m (values x) else Some false
    | Some p =>
      same ← pp_match m p;
      if (same : bool) then pp_verify q NRC m else Some false
    end
  end.

Definition add_pre_prepare (q : PReqQueue.t) (b : BigReqs.t) (x : t) (m : Pre_prepare) : option (BigReqs.t * t * bool) :=
  ok ← accepts q x m;
  if (ok : bool) then '(b, i) ← PPInfo.add b (pi x) m; Some (b, with_pi i x, true) else Some (b, x, false).

Definition rem_pre_prepare (x : t) : t * option Pre_prepare := (with_pi (PPInfo.zero (pi x)) x, pre_prepare x).

(** [cur_primary]: the primary of the current view. *)
Definition mark_stale (cur_primary : Z) (x : t) : option t :=
  done ← is_complete x;
  if (done : bool) then Some x
  else
    let x := if cur_primary =? node_id then x else with_pi (PPInfo.clear (pi x)) x in
    c ← PCert.mark_stale (pc x); Some (with_pc c x).

Definition clear (x : t) : t := mk_prepared (PCert.clear (pc x)) (PPInfo.clear (pi x)) false.

End cert.
End Prepared.
