(* ===== verification/PBFT.v ===== *)
(** * The ordering core of the PBFT replica

    Models, of [src/protocols/pbft/replica/PBFT_R_Replica.cc]: the handlers of requests,
    pre-prepares, prepares, commits and checkpoints, [send_pre_prepare], [send_prepare],
    [send_commit], [prepared], [committed], [execute_prepared], [execute_committed],
    [execute_read_only], [mark_stable], [send_new_key] and [update_max_rec]; and [PBFT_R_Rep_info], [PBFT_R_Big_req_table::add_request]
    and the constructor of [PBFT_R_Pre_prepare].

    The replica is in a view [v] whose new-view it has, and is not recovering itself:
    view changes, recovery and panics are left out, and so is fetching state, which
    is left to [P_Fetch].  [PBFT_R_State] (checkpoints of the memory, with the service) is reached through
    the class [StateOps]; authenticators, the clock and the choices of the service are parameters.

    The theorems: which numbers a replica orders and executes, what it keeps, and
    that a change of keys makes a backup forget the prepare it has sent ([refresh_forgets]). *)

From stdpp Require Import gmap.
From S2P Require Import Prelude Effects Bytes ZlReplica Bitmap Certificate PLog PCert PReqQueue PPrepared.
Local Open Scope Z_scope.

Definition checkpoint_interval : Z := 128.
Definition max_out : Z := 256.
Definition congestion_window : Z := 1.
Definition big_req_thresh : Z := 0.
Definition big_req_max : Z := 64.
Definition Digest_size : Z := 16.

(** What [PBFT_R_State] and the service do for the replica. *)
Class StateOps (SV : Type) := {
  (** [exec_command], with [last_executed] in the place of the non-deterministic choices. *)
  exec_command : SV -> list Z -> Z -> Z -> SV * (list Z * bool);
  st_checkpoint : SV -> Z -> SV;
  st_digest : SV -> Z -> Z;
  st_discard : SV -> Z -> Z -> SV;
  st_rollback : SV -> SV * Z
}.

Record P_Reply := mk_prep { rp_rid : Z; rp_size : Z; rp_body : list Z; rp_tentative : bool }.

Inductive P_output :=
| P_Pre_prepare (p : Pre_prepare)
| P_Prepare (p : Prepare)
| P_Commit (c : Commit)
| P_Checkpoint (c : Checkpoint)
| P_Forward (r : P_Request)
| P_Reply_to (cid rid : Z) (full tentative : bool)
| P_Switch_reply (cid rid : Z)
| P_Switch
| P_Status
| P_New_key
| P_Fetch (from : Z)
(** The batch is handed to the service; the batch is committed. *)
| P_Execute (n : Z) (p : Pre_prepare)
| P_Executed (n : Z) (p : Pre_prepare).

Inductive P_message :=
| M_Request (r : P_Request)
| M_Pre_prepare (p : Pre_prepare)
| M_Prepare (p : Prepare)
| M_Commit (c : Commit)
(** With what the clock says: was my last commit sent more than 200 ms ago? *)
| M_Checkpoint (c : Checkpoint) (slow : bool)
(** The key refreshment timer. *)
| M_New_key_timer.

Module PBFT.
Import Bytes.
Section replica.
Context {SV : Type} `{StateOps SV}.

Record state := mk_state {
  seqno : Z; last_stable : Z; low_bound : Z; last_prepared : Z; last_executed : Z; last_tentative_execute : Z;
  plog : @PLog.t Prepared.t; clog : @PLog.t (PCert.t Commit); elog : @PLog.t (PCert.t Checkpoint);
  sset : gmap Z Checkpoint; rqueue : PReqQueue.t; ro_rqueue : PReqQueue.t; brt : BigReqs.t;
  replies : list P_Reply; service : SV; in_fetch : bool; max_rec_n : Z;
  cur_state : replica_state; outstanding : list (Z * Z)
}.

Definition upd_nums (f : Z -> Z) (g : Z -> Z) (h : Z -> Z) (s : state) : state :=
  mk_state (f (seqno s)) (last_stable s) (low_bound s) (g (last_prepared s)) (h (last_executed s)) (last_tentative_execute s)
    (plog s) (clog s) (elog s) (sset s) (rqueue s) (ro_rqueue s) (brt s) (replies s) (service s) (in_fetch s) (max_rec_n s) (cur_state s) (outstanding s).
Definition set_seqno (x : Z) : state -> state := upd_nums (fun _ => x) id id.
Definition set_last_prepared (x : Z) : state -> state := upd_nums id (fun _ => x) id.
Definition set_last_executed (x : Z) : state -> state := upd_nums id id (fun _ => x).
Definition set_stable (x y : Z) (s : state) : state :=
  mk_state (seqno s) x y (last_prepared s) (last_executed s) (last_tentative_execute s)
    (plog s) (clog s) (elog s) (sset s) (rqueue s) (ro_rqueue s) (brt s) (replies s) (service s) (in_fetch s) (max_rec_n s) (cur_state s) (outstanding s).
Definition set_tentative (x : Z) (s : state) : state :=
  mk_state (seqno s) (last_stable s) (low_bound s) (last_prepared s) (last_executed s) x
    (plog s) (clog s) (elog s) (sset s) (rqueue s) (ro_rqueue s) (brt s) (replies s) (service s) (in_fetch s) (max_rec_n s) (cur_state s) (outstanding s).
Definition set_plog (x : PLog.t) (s : state) : state :=
  mk_state (seqno s) (last_stable s) (low_bound s) (last_prepared s) (last_executed s) (last_tentative_execute s)
    x (clog s) (elog s) (sset s) (rqueue s) (ro_rqueue s) (brt s) (replies s) (service s) (in_fetch s) (max_rec_n s) (cur_state s) (outstanding s).
Definition set_clog (x : PLog.t) (s : state) : state :=
  mk_state (seqno s) (last_stable s) (low_bound s) (last_prepared s) (last_executed s) (last_tentative_execute s)
    (plog s) x (elog s) (sset s) (rqueue s) (ro_rqueue s) (brt s) (replies s) (service s) (in_fetch s) (max_rec_n s) (cur_state s) (outstanding s).
Definition set_elog (x : PLog.t) (s : state) : state :=
  mk_state (seqno s) (last_stable s) (low_bound s) (last_prepared s) (last_executed s) (last_tentative_execute s)
    (plog s) (clog s) x (sset s) (rqueue s) (ro_rqueue s) (brt s) (replies s) (service s) (in_fetch s) (max_rec_n s) (cur_state s) (outstanding s).
Definition set_sset (x : gmap Z Checkpoint) (s : state) : state :=
  mk_state (seqno s) (last_stable s) (low_bound s) (last_prepared s) (last_executed s) (last_tentative_execute s)
    (plog s) (clog s) (elog s) x (rqueue s) (ro_rqueue s) (brt s) (replies s) (service s) (in_fetch s) (max_rec_n s) (cur_state s) (outstanding s).
Definition set_queues (x y : PReqQueue.t) (s : state) : state :=
  mk_state (seqno s) (last_stable s) (low_bound s) (last_prepared s) (last_executed s) (last_tentative_execute s)
    (plog s) (clog s) (elog s) (sset s) x y (brt s) (replies s) (service s) (in_fetch s) (max_rec_n s) (cur_state s) (outstanding s).
Definition set_brt (x : BigReqs.t) (s : state) : state :=
  mk_state (seqno s) (last_stable s) (low_bound s) (last_prepared s) (last_executed s) (last_tentative_execute s)
    (plog s) (clog s) (elog s) (sset s) (rqueue s) (ro_rqueue s) x (replies s) (service s) (in_fetch s) (max_rec_n s) (cur_state s) (outstanding s).
Definition set_replies (x : list P_Reply) (s : state) : state :=
  mk_state (seqno s) (last_stable s) (low_bound s) (last_prepared s) (last_executed s) (last_tentative_execute s)
    (plog s) (clog s) (elog s) (sset s) (rqueue s) (ro_rqueue s) (brt s) x (service s) (in_fetch s) (max_rec_n s) (cur_state s) (outstanding s).
Definition set_service (x : SV) (s : state) : state :=
  mk_state (seqno s) (last_stable s) (low_bound s) (last_prepared s) (last_executed s) (last_tentative_execute s)
    (plog s) (clog s) (elog s) (sset s) (rqueue s) (ro_rqueue s) (brt s) (replies s) x (in_fetch s) (max_rec_n s) (cur_state s) (outstanding s).
Definition set_in_fetch (x : bool) (s : state) : state :=
  mk_state (seqno s) (last_stable s) (low_bound s) (last_prepared s) (last_executed s) (last_tentative_execute s)
    (plog s) (clog s) (elog s) (sset s) (rqueue s) (ro_rqueue s) (brt s) (replies s) (service s) x (max_rec_n s) (cur_state s) (outstanding s).
Definition set_max_rec_n (x : Z) (s : state) : state :=
  mk_state (seqno s) (last_stable s) (low_bound s) (last_prepared s) (last_executed s) (last_tentative_execute s)
    (plog s) (clog s) (elog s) (sset s) (rqueue s) (ro_rqueue s) (brt s) (replies s) (service s) (in_fetch s) x (cur_state s) (outstanding s).
Definition set_outstanding (x : list (Z * Z)) (s : state) : state :=
  mk_state (seqno s) (last_stable s) (low_bound s) (last_prepared s) (last_executed s) (last_tentative_execute s)
    (plog s) (clog s) (elog s) (sset s) (rqueue s) (ro_rqueue s) (brt s) (replies s) (service s) (in_fetch s) (max_rec_n s) (cur_state s) x.

Local Abbreviation M := (Effects.M state P_output).
Local Open Scope handler_scope.

Context (node_id num_replicas num_principals f v : Z).
Context (auth_in mac_in : Prepare -> bool) (pp_auth : Pre_prepare -> bool) (rq_verify : P_Request -> bool).
Context (cm_auth : Commit -> bool) (ck_auth : Checkpoint -> bool).
Context (batch_digest : list Z -> list Z -> list Z -> Z).
(** The choices of the service for a batch, and the bytes a batch may have. *)
(** [loop_fuel] bounds the passes of each loop; a loop that needs more is the fault [Hang]. It is any number: what
    is proved of the replica holds for all. *)
Context (choices : Z -> list Z) (room : Z) (loop_fuel : nat).

Definition primary_id : Z := Prepared.primary_of num_replicas v.
Definition is_replica (id : Z) : bool := PCert.is_replica num_replicas id.
Definition is_primary : bool := primary_id =? node_id.

Local Abbreviation prepare_verify := (Prepared.prepare_verify node_id num_replicas auth_in mac_in).
Local Abbreviation pp_verify := (Prepared.pp_verify pp_auth rq_verify batch_digest).
Definition commit_verify (c : Commit) : bool := is_replica (cm_id c) && negb (cm_id c =? node_id) && cm_auth c.
Definition checkpoint_verify (c : Checkpoint) : bool := is_replica (ck_id c) && ck_auth c.

Definition initial (sv : SV) : state :=
  mk_state 0 0 0 0 0 0 (PLog.create max_out 1 (Prepared.create f)) (PLog.create max_out 1 (PCert.create f 0))
    (PLog.create (max_out * 2) 0 (PCert.create f 0)) ∅ (PReqQueue.create num_principals) (PReqQueue.create num_principals) BigReqs.create
    (replicate (Z.to_nat num_principals) (mk_prep 0 (-1) [] true)) sv false 0 replica_state_NORMAL [].

(** ** The logs *)

Definition fetch_p (n : Z) : M Prepared.t := l <- gets plog ;; of_option AssertFailed (PLog.fetch l n).
Definition store_p (n : Z) (x : Prepared.t) : M unit :=
  l <- gets plog ;; l' <- of_option AssertFailed (PLog.store l n x) ;; modify (set_plog l').
Definition fetch_c (n : Z) : M (PCert.t Commit) := l <- gets clog ;; of_option AssertFailed (PLog.fetch l n).
Definition store_c (n : Z) (x : PCert.t Commit) : M unit :=
  l <- gets clog ;; l' <- of_option AssertFailed (PLog.store l n x) ;; modify (set_clog l').
Definition fetch_e (n : Z) : M (PCert.t Checkpoint) := l <- gets elog ;; of_option AssertFailed (PLog.fetch l n).
Definition store_e (n : Z) (x : PCert.t Checkpoint) : M unit :=
  l <- gets elog ;; l' <- of_option AssertFailed (PLog.store l n x) ;; modify (set_elog l').

Definition prepared (n : Z) : M (option Pre_prepare) :=
  pc <- fetch_p n ;;
  done <- of_option AssertFailed (Prepared.is_complete pc) ;;
  ret (if (done : bool) then Prepared.pre_prepare pc else None).

Definition committed (n : Z) : M (option Pre_prepare) :=
  pp <- prepared n ;;
  cs <- fetch_c n ;;
  ret (if PCert.is_complete cs then pp else None).

Fixpoint for_each {A} (l : list A) (k : A -> M unit) : M unit :=
  match l with [] => ret tt | x :: l => k x ;;; for_each l k end.

Definition when (b : bool) (k : M unit) : M unit := if b then k else ret tt.

(** ** [PBFT_R_Rep_info]

    [lsent] is always zero: it is only assigned when it is not. *)

Definition reply (cid : Z) : M P_Reply :=
  l <- gets replies ;;
  if cid <? 0 then fail OutOfBounds else of_option OutOfBounds (l !! Z.to_nat cid).
Definition set_reply (cid : Z) (r : P_Reply) : M unit := modify (fun s => set_replies (<[Z.to_nat cid := r]> (replies s)) s).

Definition new_reply (cid : Z) : M unit := r <- reply cid ;; set_reply cid (mk_prep (rp_rid r) (-1) (rp_body r) true).
Definition end_reply (cid rid : Z) (body : list Z) : M unit :=
  r <- reply cid ;;
  assert_ (rp_size r =? -1) ;;;
  set_reply cid (mk_prep rid (Z.of_nat (length body)) body (rp_tentative r)).
Definition commit_reply (cid : Z) : M unit := r <- reply cid ;; set_reply cid (mk_prep (rp_rid r) (rp_size r) (rp_body r) false).

Definition send_reply (cid : Z) (tentative : bool) : M unit :=
  r <- reply cid ;;
  assert_ (negb (rp_size r =? -1)) ;;;
  let tent := tentative && rp_tentative r in
  set_reply cid (mk_prep (rp_rid r) (rp_size r) (rp_body r) tent) ;;;
  st <- gets cur_state ;;
  when (is_replica cid || negb (bool_decide (st = replica_state_STOP))) (emit (P_Reply_to cid (rp_rid r) true tent)).

(** [PBFT_R_Rep_info::new_state]: the replies are committed, and the requests they answer leave the queue. *)
Definition new_state_replies : M unit :=
  for_each (seqZ 0 num_principals) (fun i =>
    commit_reply i ;;;
    r <- reply i ;;
    s <- gets id ;;
    q <- of_option AssertFailed (PReqQueue.remove_client (rqueue s) i (rp_rid r)) ;;
    modify (set_queues (fst q) (ro_rqueue s))).

(** ** Changing keys *)

Definition send_new_key : M unit :=
  emit P_New_key ;;;
  s <- gets id ;;
  let max := to_signed 32 (last_stable s + max_out) in
  let min := to_signed 32 (last_stable s + 1) in
  for_each (seqZ min (max - min + 1)) (fun n =>
    when (n mod checkpoint_interval =? 0)
      (c <- fetch_e n ;; c' <- of_option AssertFailed (PCert.mark_stale c) ;; store_e n c')) ;;;
  let min := if last_stable s <? last_executed s then to_signed 32 (last_executed s + 1) else min in
  for_each (seqZ min (max - min + 1)) (fun n =>
    x <- fetch_p n ;; x' <- of_option AssertFailed (Prepared.mark_stale node_id primary_id x) ;; store_p n x' ;;;
    c <- fetch_c n ;; c' <- of_option AssertFailed (PCert.mark_stale c) ;; store_c n c').

Definition update_max_rec : M unit :=
  old <- gets max_rec_n ;;
  for_each (seqZ 0 num_replicas) (fun i =>
    r <- reply i ;;
    when (rp_size r =? 8)
      (let nr := to_signed 64 (le_decode (take 8 (rp_body r))) in
       m <- gets max_rec_n ;; when (m <? nr) (modify (set_max_rec_n nr)))) ;;;
  new <- gets max_rec_n ;;
  when (old <? new) send_new_key.

(** ** Sending a pre-prepare *)

(** The loop of the constructor of [PBFT_R_Pre_prepare]: the requests in the batch, and the digests of the big ones. *)
Fixpoint fill_batch (fuel : nat) (s : Z) (room : Z) (small : list P_Request) (big : list Z) : M (list P_Request * list Z) :=
  match fuel with
  | O => fail Hang
  | S fuel' =>
    st <- gets id ;;
    x <- of_option AssertFailed (PReqQueue.first (rqueue st)) ;;
    match x with
    | None => ret (small, big)
    | Some r =>
      if pq_size r <=? big_req_thresh then
        if pq_size r <=? room then
          q <- of_option AssertFailed (PReqQueue.remove (rqueue st)) ;;
          modify (set_queues (fst q) (ro_rqueue st)) ;;;
          fill_batch fuel' s (room - pq_size r) (small ++ [r]) big
        else ret (small, big)
      else if (Z.of_nat (length big) <? big_req_max) && (Digest_size <=? room) then
        q <- of_option AssertFailed (PReqQueue.remove (rqueue st)) ;;
        modify (set_queues (fst q) (ro_rqueue st)) ;;;
        b <- of_option AssertFailed (BigReqs.add_own (brt st) r s v) ;;
        modify (set_brt b) ;;;
        fill_batch fuel' s (room - Digest_size) small (big ++ [pq_digest r])
      else ret (small, big)
    end
  end.

Definition new_pre_prepare (s : Z) : M Pre_prepare :=
  st <- gets id ;;
  b <- fill_batch loop_fuel s room [] [] ;;
  let '(small, big) := b in
  let nd := if (negb (bool_decide (small = []))) || (negb (bool_decide (big = []))) then choices s else [] in
  ret (mk_pp v s (batch_digest (pq_digest <$> small) big nd) small big nd).

Definition send_pre_prepare : M unit :=
  assert_ is_primary ;;;
  s <- gets id ;;
  when ((0 <? PReqQueue.size (rqueue s)) && (seqno s + 1 <=? last_executed s + congestion_window) && (seqno s + 1 <=? max_out + last_stable s))
    (let n := seqno s + 1 in
     modify (set_seqno n) ;;;
     pp <- new_pre_prepare n ;;
     emit (P_Pre_prepare pp) ;;;
     x <- fetch_p n ;;
     x' <- of_option AssertFailed (Prepared.add_my_pre_prepare node_id num_replicas x pp) ;;
     store_p n x').

(** ** Stable checkpoints *)

(** [c->re_authenticate(0, true)]: my message in the certificate is marked stable. *)
Definition stamp (c : PCert.t Checkpoint) : PCert.t Checkpoint :=
  match PCert.c c with
  | Some i => PCert.with_vals (alter (fun x => PCert.mk_val ((fun m => mk_checkpoint (ck_seqno m) (ck_digest m) (ck_id m) true) <$> PCert.vm x) (PCert.vcount x)) i (PCert.vals c)) c
  | None => c
  end.

(** The stable checkpoints that are now in the window go to [elog]; the highest that is complete there. *)
Fixpoint move_checkpoints (l : list Z) (ls new_ls : Z) : M Z :=
  match l with
  | [] => ret new_ls
  | i :: l =>
    ss <- gets sset ;;
    match ss !! i with
    | None => move_checkpoints l ls new_ls
    | Some c =>
      let cn := ck_seqno c in
      if cn <? ls then modify (set_sset (delete i ss)) ;;; move_checkpoints l ls new_ls
      else if cn <=? ls + max_out then
        cs <- fetch_e cn ;;
        modify (set_sset (delete i ss)) ;;;
        r <- of_option AssertFailed (PCert.add node_id num_replicas f checkpoint_verify cs c) ;;
        store_e cn (fst r) ;;;
        move_checkpoints l ls (if PCert.is_complete (fst r) && (new_ls <? cn) then cn else new_ls)
      else move_checkpoints l ls new_ls
    end
  end.

Definition has_mine (n : Z) : M bool :=
  l <- gets elog ;;
  if PLog.within_range l n then cs <- fetch_e n ;; ret (if PCert.mine cs then true else false) else ret false.

Fixpoint mark_stable (fuel : nat) (n : Z) (have_state : bool) : M unit :=
  ls <- gets last_stable ;;
  if n <=? ls then ret tt
  else
    match fuel with
    | O => fail Hang
    | S fuel' =>
      modify (fun s => set_stable n (Z.max n (low_bound s)) s) ;;;
      le <- gets last_executed ;;
      when (have_state && (le <? n))
        (modify (set_last_executed n) ;;; modify (set_tentative n) ;;;
         new_state_replies ;;; update_max_rec ;;;
         modify (fun s => set_last_prepared (Z.max n (last_prepared s)) s)) ;;;
      modify (fun s => set_seqno (Z.max n (seqno s)) s) ;;;
      modify (fun s => set_plog (PLog.truncate Prepared.clear (plog s) (n + 1)) s) ;;;
      modify (fun s => set_clog (PLog.truncate PCert.clear (clog s) (n + 1)) s) ;;;
      modify (fun s => set_elog (PLog.truncate PCert.clear (elog s) n) s) ;;;
      modify (fun s => set_service (st_discard (service s) n (last_executed s)) s) ;;;
      modify (fun s => set_brt (BigReqs.mark_stable (brt s) n) s) ;;;
      when have_state
        (cs <- fetch_e n ;;
         match PCert.mine cs with
         | None =>
           sv <- gets service ;;
           r <- of_option AssertFailed (PCert.add_mine node_id cs (mk_checkpoint n (st_digest sv n) node_id true)) ;;
           store_e n (PCert.make_complete (fst r))
         | Some _ => store_e n (stamp cs)
         end) ;;;
      new_ls <- move_checkpoints (seqZ 0 num_replicas) n n ;;
      when (n <? new_ls) (have <- has_mine new_ls ;; mark_stable fuel' new_ls have) ;;;
      when is_primary send_pre_prepare
    end.

(** ** Execution *)

(** The reply is sent in full to small replies and by the designated replier. *)
Definition answer (r : P_Request) (size : Z) (committed : bool) : M unit :=
  if (size <? 50) || (pq_replier r =? node_id) || (pq_replier r <? 0) then send_reply (pq_cid r) (negb committed)
  else emit (P_Reply_to (pq_cid r) (pq_rid r) false (negb committed)).

Definition execute_request (committed : bool) (r : P_Request) : M unit :=
  let cid := pq_cid r in
  last <- reply cid ;;
  if pq_rid r <=? rp_rid last then send_reply cid true
  else
    new_reply cid ;;;
    if is_replica cid then
      when (Z.of_nat (length (pq_command r)) =? 8)
        (when (negb (cid =? node_id)) send_new_key ;;;
         n <- gets last_tentative_execute ;;
         modify (set_max_rec_n n) ;;;
         end_reply cid (pq_rid r) (le_encode 8 n))
    else
      s <- gets id ;;
      let '(sv, (out, _)) := exec_command (service s) (pq_command r) cid (last_executed s) in
      modify (set_service sv) ;;;
      end_reply cid (pq_rid r) out ;;;
      when (negb (Z.of_nat (length out) =? 0)) (answer r (Z.of_nat (length out)) committed).

(** The requests of a batch: those in the message, then the big ones. *)
Definition next_big (d : Z) : M P_Request := b <- gets brt ;; of_option AssertFailed (BigReqs.lookup b d).

Definition requests_iter (pp : Pre_prepare) (k : P_Request -> M unit) : M unit :=
  for_each (pp_reqs pp) k ;;; for_each (pp_big pp) (fun d => r <- next_big d ;; k r).

Definition execute_prepared (is_committed : bool) : M unit :=
  s <- gets id ;;
  when ((last_tentative_execute s <? last_executed s + 1) && (last_executed s <? last_stable s + max_out) && negb (in_fetch s))
    (pp <- prepared (last_executed s + 1) ;;
     match pp with
     | Some pp =>
       when (pp_view pp =? v)
         (modify (set_tentative (last_executed s + 1)) ;;;
          assert_ (pp_seqno pp =? last_executed s + 1) ;;;
          emit (P_Execute (last_executed s + 1) pp) ;;;
          requests_iter pp (execute_request is_committed) ;;;
          le <- gets last_executed ;;
          when ((le + 1) mod checkpoint_interval =? 0) (modify (fun s => set_service (st_checkpoint (service s) (le + 1)) s)))
     | None => ret tt
     end).

Definition execute_read_only (r : P_Request) : M bool :=
  s <- gets id ;;
  if (last_tentative_execute s =? last_executed s) && negb (in_fetch s) then
    let '(sv, (out, error)) := exec_command (service s) (pq_command r) (pq_cid r) (last_executed s) in
    modify (set_service sv) ;;;
    when (negb error)
      (emit P_Switch ;;;
       let size := Z.of_nat (length out) in
       emit (P_Reply_to (pq_cid r) (pq_rid r) ((size <? 50) || (pq_replier r =? node_id) || (pq_replier r <? 0)) true)) ;;;
    ret true
  else ret false.

(** [for (m = ro_rqueue.remove(); m != 0; m = ro_rqueue.remove()) execute_read_only(m)]. *)
Fixpoint drain_read_only (fuel : nat) : M unit :=
  match fuel with
  | O => fail Hang
  | S fuel' =>
    s <- gets id ;;
    q <- of_option AssertFailed (PReqQueue.remove (ro_rqueue s)) ;;
    modify (set_queues (rqueue s) (fst q)) ;;;
    match snd q with
    | Some r => execute_read_only r ;;; drain_read_only fuel'
    | None => ret tt
    end
  end.

(** A request of the committed batch: its reply is final and it leaves the queue. A reply to a
    recovery request is sent now; the replica's own is not awaited, as it is not recovering. *)
Definition commit_request (r : P_Request) : M unit :=
  let cid := pq_cid r in
  commit_reply cid ;;;
  when (is_replica cid && negb (cid =? node_id)) (send_reply cid false) ;;;
  s <- gets id ;;
  q <- of_option AssertFailed (PReqQueue.remove_client (rqueue s) cid (pq_rid r)) ;;
  modify (set_queues (fst q) (ro_rqueue s)).

(** My checkpoint message; [add_mine] deletes one that does not match, and the next use of it is
    a use of freed memory ([NullDeref]). *)
Definition checkpoint_now (n : Z) : M unit :=
  sv <- gets service ;;
  cs <- fetch_e n ;;
  let e := mk_checkpoint n (st_digest sv n) node_id false in
  r <- of_option AssertFailed (PCert.add_mine node_id cs e) ;;
  store_e n (fst r) ;;;
  let full := PCert.is_complete (fst r) in
  when full (mark_stable loop_fuel n true) ;;;
  (if snd r then emit (P_Checkpoint (mk_checkpoint n (st_digest sv n) node_id full)) else fail NullDeref).

(** The loop [while (1)]. *)
Fixpoint commit_loop (fuel : nat) : M unit :=
  match fuel with
  | O => fail Hang
  | S fuel' =>
    s <- gets id ;;
    if (last_stable s + max_out <=? last_executed s) || (last_executed s <? last_stable s) then ret tt
    else
      pp <- committed (last_executed s + 1) ;;
      match pp with
      | Some pp =>
        if pp_view pp =? v then
          execute_prepared true ;;;
          le <- gets last_executed ;;
          modify (set_last_executed (le + 1)) ;;;
          assert_ (pp_seqno pp =? le + 1) ;;;
          emit (P_Executed (le + 1) pp) ;;;
          drain_read_only loop_fuel ;;;
          requests_iter pp commit_request ;;;
          le <- gets last_executed ;;
          when (le mod checkpoint_interval =? 0) (checkpoint_now le) ;;;
          commit_loop fuel'
        else ret tt
      | None => ret tt
      end
  end.

(** The [return] of the loop skips what follows it. *)
Definition execute_committed : M unit :=
  s <- gets id ;;
  when (negb (in_fetch s))
    (commit_loop loop_fuel ;;;
     s <- gets id ;;
     when ((last_executed s <? last_stable s + max_out) && (last_stable s <=? last_executed s) && (0 <? PReqQueue.size (rqueue s)))
       (when is_primary send_pre_prepare)).

(** ** The three phases *)

Definition send_prepare (n : Z) : M unit :=
  x <- fetch_p n ;;
  match Prepared.my_prepare x with
  | Some _ => ret tt
  | None =>
    when (Prepared.is_pp_complete x)
      (pp <- of_option NullDeref (Prepared.pre_prepare x) ;;
       let p := mk_prepare v (pp_seqno pp) (pp_digest pp) node_id false in
       emit (P_Prepare p) ;;;
       r <- of_option AssertFailed (Prepared.add_my_prepare node_id num_replicas x p) ;;
       store_p n (fst r))
  end.

Definition send_commit (n : Z) : M unit :=
  le <- gets last_executed ;;
  when (n =? le + 1) (execute_prepared false) ;;;
  let c := mk_commit v n node_id in
  emit (P_Commit c) ;;;
  modify (fun s => set_last_prepared (Z.max n (last_prepared s)) s) ;;;
  cs <- fetch_c n ;;
  r <- of_option AssertFailed (PCert.add_mine node_id cs c) ;;
  store_c n (fst r) ;;;
  when (snd r && PCert.is_complete (fst r)) execute_committed.

(** [send_commit] if the certificate is complete. *)
Definition commit_if_complete (n : Z) : M unit :=
  x <- fetch_p n ;; done <- of_option AssertFailed (Prepared.is_complete x) ;; when done (send_commit n).

Definition in_wv (mv n : Z) (verify : M bool) : M bool :=
  s <- gets id ;;
  let offset := n - last_stable s in
  if (0 <? offset) && (offset <=? max_out) && (mv =? v) then ret true
  else
    when_v <- (if (v <? mv) || (max_out <? offset) then verify else ret false) ;;
    when when_v (emit P_Status) ;;; ret false.

Definition handle_pre_prepare (m : Pre_prepare) : M unit :=
  let n := pp_seqno m in
  ok <- in_wv (pp_view m) n (s <- gets id ;; of_option AssertFailed (pp_verify (rqueue s) 0 m)) ;;
  s <- gets id ;;
  when (ok && (low_bound s <? n))
    (x <- fetch_p n ;;
     r <- of_option AssertFailed (Prepared.add_pre_prepare f pp_auth rq_verify batch_digest (rqueue s) (brt s) x m) ;;
     let '(b, x', added) := r in
     modify (set_brt b) ;;;
     store_p n x' ;;;
     when added (send_prepare n ;;; commit_if_complete n)).

Definition handle_prepare (m : Prepare) : M unit :=
  let n := pr_seqno m in
  ok <- in_wv (pr_view m) n (ret (prepare_verify m)) ;;
  s <- gets id ;;
  when (ok && (low_bound s <? n) && negb (primary_id =? pr_id m))
    (x <- fetch_p n ;;
     r <- of_option AssertFailed (Prepared.add_prepare node_id num_replicas f auth_in mac_in x m) ;;
     store_p n (fst r) ;;;
     when (snd r) (commit_if_complete n)).

Definition handle_commit (m : Commit) : M unit :=
  let n := cm_seqno m in
  ok <- in_wv (cm_view m) n (ret (commit_verify m)) ;;
  s <- gets id ;;
  when (ok && (low_bound s <? n))
    (cs <- fetch_c n ;;
     r <- of_option AssertFailed (PCert.add node_id num_replicas f commit_verify cs m) ;;
     store_c n (fst r) ;;;
     when (snd r && PCert.is_complete (fst r)) execute_committed).

(** [slow]: the clock says that my commit for [last_executed] is older than 200 ms. *)
Definition checkpoint_late (m : Checkpoint) (slow : bool) : M bool :=
  s <- gets id ;;
  let late := ck_stable m && (last_executed s <? ck_seqno m) in
  if PLog.within_range (clog s) (last_executed s) then
    cs <- fetch_c (last_executed s) ;;
    (** The time is not set when there is no message of mine. *)
    match PCert.mine cs with Some _ => ret (late && slow) | None => fail NullDeref end
  else ret late.

Definition handle_checkpoint (m : Checkpoint) (slow : bool) : M unit :=
  let ms := ck_seqno m in
  s <- gets id ;;
  when (last_stable s <? ms)
    (near <- (if ms <=? last_stable s + max_out then late <- checkpoint_late m slow ;; ret (negb late) else ret false) ;;
     if (near : bool) then
       cs <- fetch_e ms ;;
       r <- of_option AssertFailed (PCert.add node_id num_replicas f checkpoint_verify cs m) ;;
       store_e ms (fst r) ;;;
       when (snd r && (if PCert.mine (fst r) then true else false) && PCert.is_complete (fst r)) (mark_stable loop_fuel ms true)
     else
       when (checkpoint_verify m)
         (if negb (ck_stable m) then emit P_Status
          else
            let older := match sset s !! ck_id m with Some c => ck_seqno c <? ms | None => true end in
            when older
              (modify (set_sset (<[ck_id m := m]> (sset s))) ;;;
               s <- gets id ;;
               when (f <? Z.of_nat (size (sset s)))
                 (when (last_executed s <? last_tentative_execute s)
                    (assert_ (negb (in_fetch s)) ;;;
                     let '(sv, rc) := st_rollback (service s) in
                     modify (set_service sv) ;;; modify (set_tentative rc) ;;; modify (set_last_executed rc)) ;;;
                  le <- gets last_executed ;;
                  modify (set_in_fetch true) ;;;
                  emit (P_Fetch le))))).

(** ** Requests *)

(** [check_pcerts]: a waiting pre-prepare has [f] prepares. *)
Fixpoint check_pcerts (w : list (Z * Z)) : M bool :=
  match w with
  | [] => ret false
  | (n, _) :: w =>
    l <- gets plog ;;
    if PLog.within_range l n then
      x <- fetch_p n ;;
      ok <- of_option AssertFailed (Prepared.is_pp_correct f x) ;;
      if (ok : bool) then ret true else check_pcerts w
    else check_pcerts w
  end.

(** The waiting pre-prepares are served from the last one on. *)
Definition serve_waiting (rd : Z) (wp : Z * Z) : M unit :=
  let '(n, i) := wp in
  l <- gets plog ;;
  when (PLog.within_range l n)
    (x <- fetch_p n ;;
     x' <- of_option AssertFailed (Prepared.add_digest x rd i) ;;
     store_p n x' ;;;
     send_prepare n ;;;
     commit_if_complete n).

(** The entry loses each waiting pre-prepare after it is served; an entry that a stable checkpoint
    has taken out meanwhile is used after it was freed ([NullDeref]). *)
Fixpoint serve_all_waiting (rd : Z) (w : list (Z * Z)) : M unit :=
  match w with
  | [] => ret tt
  | wp :: w =>
    serve_waiting rd wp ;;;
    b <- gets brt ;;
    e <- of_option NullDeref (BigReqs.breqs b !! rd) ;;
    modify (set_brt (BigReqs.mk_table (<[rd := BigReqs.mk_entry (BigReqs.e_r e) (rev w) (BigReqs.e_maxn e) (BigReqs.e_maxv e)]> (BigReqs.breqs b)) (BigReqs.unmatched b))) ;;;
    serve_all_waiting rd w
  end.

(** [PBFT_R_Big_req_table::add_request]. *)
Definition add_request (r : P_Request) (verified : bool) : M bool :=
  assert_ ((big_req_thresh <? pq_size r) && negb (pq_ro r)) ;;;
  b <- gets brt ;;
  let rd := pq_digest r in
  match BigReqs.breqs b !! rd with
  | Some e =>
    match BigReqs.e_r e with
    | Some _ => ret false
    | None =>
      ok <- (if verified then ret true else check_pcerts (BigReqs.e_waiting e)) ;;
      if (ok : bool) then
        modify (set_brt (BigReqs.mk_table (<[rd := BigReqs.mk_entry (Some r) (BigReqs.e_waiting e) (BigReqs.e_maxn e) (BigReqs.e_maxv e)]> (BigReqs.breqs b)) (BigReqs.unmatched b))) ;;;
        serve_all_waiting rd (rev (BigReqs.e_waiting e)) ;;; ret true
      else ret false
    end
  | None =>
    if verified then
      let old := BigReqs.unmatched b !! pq_cid r in
      if match old with Some o => pq_rid o <? pq_rid r | None => true end then
        let m := <[rd := BigReqs.mk_entry (Some r) [] (-1) (-1)]> (BigReqs.breqs b) in
        let m := match old with Some o => delete (pq_digest o) m | None => m end in
        modify (set_brt (BigReqs.mk_table m (<[pq_cid r := r]> (BigReqs.unmatched b)))) ;;; ret true
      else ret false
    else ret false
  end.

Definition append_request (r : P_Request) : M bool :=
  s <- gets id ;;
  q <- of_option AssertFailed (PReqQueue.append (rqueue s) r) ;;
  modify (set_queues (fst q) (ro_rqueue s)) ;;; ret (snd q).

(** A verified read-write request that has not been executed. *)
Definition new_request (m : P_Request) : M unit :=
  s <- gets id ;;
  if is_primary then
    q <- of_option AssertFailed (PReqQueue.in_progress (rqueue s) (pq_cid m) (pq_rid m) v) ;;
    modify (set_queues (fst q) (ro_rqueue s)) ;;;
    when (negb (snd q)) (added <- append_request m ;; when added send_pre_prepare)
  else
    taken <- (if big_req_thresh <? pq_size m then add_request m true else ret false) ;;
    when (negb taken) (added <- append_request m ;; when added (emit (P_Forward m))).

Definition handle_request (m : P_Request) : M unit :=
  let cid := pq_cid m in
  s <- gets id ;;
  if bool_decide (cur_state s = replica_state_STOP) then emit (P_Switch_reply cid (pq_rid m))
  else if negb (bool_decide (cur_state s = replica_state_NORMAL)) then modify (set_outstanding (outstanding s ++ [(cid, pq_rid m)]))
  else if rq_verify m then
    when (negb (is_replica cid) || (pq_signed m && negb (pq_ro m)))
      (if pq_ro m then
         done <- execute_read_only m ;;
         when (negb done)
           (s <- gets id ;;
            q <- of_option AssertFailed (PReqQueue.append (ro_rqueue s) m) ;;
            modify (set_queues (rqueue s) (fst q)))
       else
         last <- reply cid ;;
         if rp_rid last <? pq_rid m then new_request m
         else when (rp_rid last =? pq_rid m)
           (send_reply cid true ;;;
            last <- reply cid ;;
            when (negb is_primary && rp_tentative last) (append_request m ;;; ret tt)))
  else
    when ((big_req_thresh <? pq_size m) && negb (pq_ro m)) (add_request m false ;;; ret tt).

Definition handle (m : P_message) : M unit :=
  match m with
  | M_Request r => handle_request r
  | M_Pre_prepare p => handle_pre_prepare p
  | M_Prepare p => handle_prepare p
  | M_Commit c => handle_commit c
  | M_Checkpoint c slow => handle_checkpoint c slow
  | M_New_key_timer => send_new_key
  end.

(** Anybody can stop a replica: a pre-prepare for a number of the window that has none yet makes the replica look its first
    request up in [rqueue] (if the request does not verify), and a client identifier that is out of range fails the
    assertion of the array. The requests are looked at before the authenticator of the message ([pp_auth] is any). *)
Theorem bad_request_crashes m r rest s x : pp_view m = v -> pp_reqs m = r :: rest -> rq_verify r = false ->
  (pq_cid r < 0 \/ Z.of_nat (length (PReqQueue.reqs (rqueue s))) <= pq_cid r) ->
  last_stable s < pp_seqno m <= last_stable s + max_out -> low_bound s < pp_seqno m ->
  PLog.fetch (plog s) (pp_seqno m) = Some x -> Prepared.pre_prepare x = None -> Prepared.my_prepare x = None ->
  handle_pre_prepare m s = Fault AssertFailed.
Proof.
  intros Hv Hreqs Hver Hcid Hn Hlow Hx Hpp Hmine. unfold handle_pre_prepare, in_wv, bind at 1 2, gets at 1, id.
  rewrite (proj2 (Z.ltb_lt _ _)), (proj2 (Z.leb_le _ _)), (proj2 (Z.eqb_eq _ _)) by lia. cbn [andb ret]. unfold bind at 1, gets at 1.
  rewrite (proj2 (Z.ltb_lt _ _)) by lia. cbn [andb when]. unfold fetch_p, bind at 1 2, gets at 1. rewrite Hx. cbn [of_option ret app]. unfold bind at 1.
  assert (Hf : PReqQueue.first_client (rqueue s) (pq_cid r) = None).
  { unfold PReqQueue.first_client, PReqQueue.place. destruct (Z.leb_spec 0 (pq_cid r)); [|done]. cbn. by rewrite lookup_ge_None_2 by lia. }
  unfold Prepared.add_pre_prepare, Prepared.accepts. rewrite Hpp, Hmine. unfold Prepared.pp_verify. rewrite Hreqs. cbn [Prepared.reqs_verify]. rewrite Hver. cbn. by rewrite Hf.
Qed.

(** ** A prepare that is forgotten

    [send_prepare] sends its prepare before the replica's own certificate has taken it, and does not
    look whether it was taken; the certificate does not take it when the others' prepares have made another batch its
    value.  Changing keys then empties the certificate. *)

Definition prepare_for (m : Pre_prepare) : Prepare := mk_prepare v (pp_seqno m) (pp_digest m) node_id false.

(** The message [m] arrives for a number of the window without a pre-prepare, and verifies. *)
Record next_up (m : Pre_prepare) (x : Prepared.t) (s : state) : Prop := {
  nu_view : pp_view m = v;
  nu_small : pp_big m = [];
  nu_window : last_stable s < pp_seqno m <= last_stable s + max_out;
  nu_low : low_bound s < pp_seqno m;
  nu_log : PLog.wf (plog s);
  nu_fetch : PLog.fetch (plog s) (pp_seqno m) = Some x;
  nu_none : Prepared.pre_prepare x = None /\ Prepared.my_prepare x = None;
  nu_verify : pp_verify (rqueue s) 0 m = Some true
}.

Definition with_batch (m : Pre_prepare) (c : PCert.t Prepare) (x : Prepared.t) : Prepared.t :=
  Prepared.mk_prepared c (PPInfo.mk_info (Some m) 0 0) (Prepared.primary x).

Lemma wp_fetch_p n x Q s : PLog.fetch (plog s) n = Some x -> Q x s [] -> wp (fetch_p n) Q s.
Proof. intros Hx HQ. unfold fetch_p. wp_steps. by eapply wp_of_option. Qed.

Lemma wp_store_p n x y Q s : PLog.wf (plog s) -> PLog.fetch (plog s) n = Some y ->
  (forall l, PLog.wf l -> (forall r, PLog.fetch l r = if r =? n then Some x else PLog.fetch (plog s) r) -> Q tt (set_plog l s) []) ->
  wp (store_p n x) Q s.
Proof.
  intros Hw Hy HQ. assert (Hr : is_Some (PLog.fetch (plog s) n)) by (by eexists). apply PLog.log_fetch_some in Hr; [|done].
  destruct (PLog.log_store_some (plog s) n x Hr) as [l Hl]. destruct (PLog.log_fetch_store _ _ _ _ Hw Hl) as (Hw' & _ & _ & Hf).
  unfold store_p. wp_steps. eapply wp_of_option; [done|]. wp_steps. by apply HQ.
Qed.

(** The replica sends a prepare for it, whatever its certificate makes of that. *)
Lemma next_up_prepares m x s c b : next_up m x s -> primary_id <> node_id ->
  PCert.add_mine node_id (Prepared.pc x) (prepare_for m) = Some (c, b) -> PCert.is_complete c = false ->
  wp (handle_pre_prepare m) (fun _ s' o => o = [P_Prepare (prepare_for m)] /\ exists l, s' = set_plog l s /\ PLog.wf l /\
    PLog.fetch l (pp_seqno m) = Some (with_batch m c x)) s.
Proof.
  intros [Hv Hbig Hn Hlow Hw Hx [Hpp Hmine] Hver] Hne Hadd Hc. unfold handle_pre_prepare, in_wv. wp_steps. cbn [id].
  rewrite (proj2 (Z.ltb_lt 0 _)), (proj2 (Z.leb_le _ max_out)), (proj2 (Z.eqb_eq _ _)) by lia. cbn [andb]. wp_steps. cbn [id].
  rewrite (proj2 (Z.ltb_lt _ _)) by lia. cbn [andb when]. wp_step. eapply wp_fetch_p; [done|]. wp_step.
  assert (Ha : Prepared.add_pre_prepare f pp_auth rq_verify batch_digest (rqueue s) (brt s) x m =
    Some (brt s, Prepared.with_pi (PPInfo.mk_info (Some m) 0 0) x, true)).
  { unfold Prepared.add_pre_prepare, Prepared.accepts. rewrite Hpp, Hmine, Hver. cbn. unfold PPInfo.add.
    unfold Prepared.pre_prepare in Hpp. by rewrite Hpp, Hbig. }
  eapply wp_of_option; [exact Ha|]. cbv iota. wp_steps. eapply wp_store_p; [done|done|]. intros l1 Hw1 Hf1. cbn [when]. wp_step.
  unfold send_prepare. wp_step. eapply wp_fetch_p; [cbn; by rewrite Hf1, Z.eqb_refl|].
  change (Prepared.my_prepare (Prepared.with_pi ?i x)) with (Prepared.my_prepare x). rewrite Hmine.
  cbn [Prepared.is_pp_complete PPInfo.is_complete Prepared.pi Prepared.with_pi PPInfo.pp PPInfo.mreqs Z.eqb when Prepared.pre_prepare of_option].
  wp_steps. change (mk_prepare v (pp_seqno m) (pp_digest m) node_id false) with (prepare_for m).
  eapply wp_of_option. { unfold Prepared.add_my_prepare. cbn [pr_view prepare_for]. rewrite (proj2 (Z.eqb_neq _ _)) by done. cbn [Prepared.pc Prepared.with_pi]. by rewrite Hadd. }
  cbn [fst]. eapply wp_store_p; [done|cbn; by rewrite Hf1, Z.eqb_refl|]. intros l2 Hw2 Hf2. unfold commit_if_complete. wp_step.
  eapply wp_fetch_p; [cbn; by rewrite Hf2, Z.eqb_refl|]. wp_step. eapply wp_of_option.
  { unfold Prepared.is_complete. cbn [Prepared.pc Prepared.with_pc]. by rewrite Hc, andb_false_r. }
  cbn [when]. wp_steps. split; [done|]. exists l2. split; [by destruct s|]. split; [done|]. by rewrite Hf2, Z.eqb_refl.
Qed.

(** What [send_new_key] leaves alone. *)
Definition rekeyed (s s' : state) : Prop :=
  last_stable s' = last_stable s /\ low_bound s' = low_bound s /\ last_executed s' = last_executed s /\ rqueue s' = rqueue s.

Lemma rekeyed_trans s1 s2 s3 : rekeyed s1 s2 -> rekeyed s2 s3 -> rekeyed s1 s3.
Proof. unfold rekeyed. intuition congruence. Qed.

Lemma rekey_elog L : forall s, wlp (for_each L (fun n =>
    when (n mod checkpoint_interval =? 0)
      (c <- fetch_e n ;; c' <- of_option AssertFailed (PCert.mark_stale c) ;; store_e n c'))%handler)
  (fun _ s' _ => rekeyed s s' /\ plog s' = plog s) s.
Proof.
  induction L as [|n L IH]; intros s; cbn [for_each]; [by wlp_steps|]. wlp_step. unfold when. case_match.
  - unfold fetch_e, store_e. wlp_steps. apply wlp_of_option. intros c _. wlp_step. apply wlp_of_option. intros c' _. wlp_steps.
    apply wlp_of_option. intros l _. wlp_steps. eapply wlp_mono; [apply IH|]. done.
  - wlp_steps. eapply wlp_mono; [apply IH|]. done.
Qed.

Lemma rekey_certs n L : NoDup L -> forall y s, PLog.wf (plog s) -> PLog.fetch (plog s) n = Some y ->
  wlp (for_each L (fun k =>
    x <- fetch_p k ;; x' <- of_option AssertFailed (Prepared.mark_stale node_id primary_id x) ;; store_p k x' ;;;
    c <- fetch_c k ;; c' <- of_option AssertFailed (PCert.mark_stale c) ;; store_c k c')%handler)
  (fun _ s' _ => rekeyed s s' /\ PLog.wf (plog s') /\
     PLog.fetch (plog s') n = if decide (n ∈ L) then Prepared.mark_stale node_id primary_id y else Some y) s.
Proof.
  induction 1 as [|k L Hk HL IH]; intros y s Hw Hy; cbn [for_each]; [by wlp_steps|]. wlp_step.
  unfold fetch_p at 1, store_p at 1, fetch_c at 1, store_c at 1. wlp_steps. apply wlp_of_option. intros x Hx. wlp_step.
  apply wlp_of_option. intros x' Hx'. wlp_steps. apply wlp_of_option. intros l Hl. wlp_steps. apply wlp_of_option. intros c _. wlp_step.
  apply wlp_of_option. intros c' _. wlp_steps. apply wlp_of_option. intros lc _. wlp_steps.
  destruct (PLog.log_fetch_store _ _ _ _ Hw Hl) as (Hw' & _ & _ & Hf).
  destruct (Z.eqb_spec n k) as [->|Hne].
  - assert (x = y) as -> by congruence.
    eapply wlp_mono; [apply (IH x' (set_clog lc (set_plog l s)) Hw'); cbn; by rewrite Hf, Z.eqb_refl|]. intros [] s' o (Hr & Hw2 & Hn).
    split; [done|]. split; [done|]. rewrite decide_False in Hn by done. rewrite decide_True by set_solver. congruence.
  - eapply wlp_mono; [apply (IH y (set_clog lc (set_plog l s)) Hw'); cbn; by rewrite Hf, (proj2 (Z.eqb_neq _ _))|]. intros [] s' o (Hr & Hw2 & Hn).
    split; [done|]. split; [done|]. rewrite Hn. by repeat case_decide; set_solver.
Qed.

Lemma rekey_wlp n y s : PLog.wf (plog s) -> PLog.fetch (plog s) n = Some y -> 0 <= last_stable s -> last_stable s + max_out < 2 ^ 31 ->
  last_stable s < n <= last_stable s + max_out -> last_executed s < n ->
  wlp send_new_key (fun _ s' _ => rekeyed s s' /\ PLog.wf (plog s') /\ PLog.fetch (plog s') n = Prepared.mark_stale node_id primary_id y) s.
Proof.
  intros Hw Hy H0 Hmax Hn Hle. unfold send_new_key. unfold max_out in *. wlp_steps. cbn [id]. eapply wlp_mono; [apply rekey_elog|].
  intros [] s1 o1 [Hr1 Hp1]. eapply wlp_mono; [apply (rekey_certs n _); [apply NoDup_seqZ|by rewrite Hp1|by rewrite Hp1]|].
  intros [] s2 o2 (Hr2 & Hw2 & Hn2). split; [by eapply rekeyed_trans|]. split; [done|]. rewrite decide_True in Hn2; [done|].
  apply elem_of_seqZ. destruct (Z.ltb_spec (last_stable s) (last_executed s)); rewrite !to_signed_id by (unfold in_s; lia); lia.
Qed.

(** The certificate of a number, when the prepares of others have made a batch other than [m] its value. *)
Record taken (m : Pre_prepare) (x : Prepared.t) : Prop := {
  tk_mine : PCert.mym (Prepared.pc x) = false;
  tk_open : PCert.is_complete (Prepared.pc x) = false;
  tk_size : 1 < PCert.complete (Prepared.pc x);
  tk_value : exists w, PCert.cvalue (Prepared.pc x) = Some w /\ pr_view w = v /\ pr_seqno w = pp_seqno m /\ pr_digest w <> pp_digest m
}.

Lemma taken_refuses m x : taken m x -> PCert.add_mine node_id (Prepared.pc x) (prepare_for m) = Some (Prepared.pc x, false).
Proof.
  intros [_ _ _ (w & Hw & Hv & Hn & Hd)]. unfold PCert.add_mine. cbn [p_id p_full prepare_msg pr_id prepare_for]. rewrite Z.eqb_refl. cbn [negb orb].
  unfold PCert.cvalue in Hw. destruct (PCert.c (Prepared.pc x)) as [i|] eqn:Hc; [|unfold PCert.cval in Hw; by rewrite Hc in Hw].
  destruct (PCert.cval (Prepared.pc x)) as [vl|]; [|done]. cbn in Hw |- *. rewrite Hw. cbn.
  rewrite Hv, Hn, !Z.eqb_refl. cbn. by rewrite bool_decide_false.
Qed.

Lemma taken_stale m x : taken m x -> primary_id <> node_id -> Prepared.mark_stale node_id primary_id (with_batch m (Prepared.pc x) x) =
  Some (Prepared.mk_prepared (PCert.clear (Prepared.pc x)) (PPInfo.mk_info None 0 0) (Prepared.primary x)).
Proof.
  intros [Hm Ho _ _] Hne. unfold Prepared.mark_stale, Prepared.is_complete. cbn [Prepared.pc with_batch Prepared.pi].
  rewrite Ho, andb_false_r. cbn. rewrite (proj2 (Z.eqb_neq _ _)) by done. cbn. unfold PCert.mark_stale. by rewrite Ho, Hm.
Qed.

(** An empty certificate takes the replica's prepare. *)
Lemma cleared_takes (c : PCert.t Prepare) m : PCert.vals c <> [] -> 1 < PCert.complete c ->
  exists c', PCert.add_mine node_id (PCert.clear c) (prepare_for m) = Some (c', true) /\ PCert.is_complete c' = false.
Proof.
  intros Hv Hc. unfold PCert.add_mine. cbn [p_id p_full prepare_msg pr_id prepare_for]. rewrite Z.eqb_refl. cbn [negb orb].
  unfold PCert.clear. destruct (PCert.clear_vals (PCert.vals c) 0 (PCert.cur_size c)) as [|w l] eqn:E.
  { apply (f_equal length) in E. unfold PCert.clear_vals in E. rewrite length_imap in E. by destruct (PCert.vals c). }
  cbn. destruct (PCert.vm w); cbn; eexists; (split; [done|]); apply Z.leb_gt; cbn; lia.
Qed.

(** C38. Changing keys lets a backup contradict itself.  In a state in which, for a number of the window that is not yet executed,
    a backup has no pre-prepare, and the prepares of others have made another batch than [m] the value of
    its certificate, which is not complete: a verified pre-prepare [m] makes it send a prepare for [m] that its certificate does not
    take; and once the key timer has run (whenever it runs without a fault), a verified pre-prepare [m'] for the same number makes it send a prepare for [m'],
    whatever its digest.  (Both batches are without big requests; the number is below [2 ^ 31].) *)
Theorem refresh_forgets m m' x s : primary_id <> node_id -> next_up m x s -> taken m x -> last_executed s < pp_seqno m ->
  0 <= last_stable s -> last_stable s + max_out < 2 ^ 31 ->
  pp_view m' = v -> pp_seqno m' = pp_seqno m -> pp_big m' = [] -> pp_verify (rqueue s) 0 m' = Some true ->
  exists s1, handle (M_Pre_prepare m) s = Done tt s1 [P_Prepare (mk_prepare v (pp_seqno m) (pp_digest m) node_id false)] /\
    forall s2 o, handle M_New_key_timer s1 = Done tt s2 o -> exists s3,
      handle (M_Pre_prepare m') s2 = Done tt s3 [P_Prepare (mk_prepare v (pp_seqno m) (pp_digest m') node_id false)].
Proof.
  intros Hne Hup Htk Hex H0 Hmax Hv' Hn' Hbig' Hver'. cbn [handle]. pose proof Htk as [_ Ho Hsz (w & Hw & _)].
  pose proof (next_up_prepares m x s _ _ Hup Hne (taken_refuses m x Htk) Ho) as H1. unfold wp in H1.
  destruct (handle_pre_prepare m s) as [[] s1 o1|]; [|done]. destruct H1 as (-> & l & -> & Hwl & Hfl). eexists. split; [done|].
  intros s2 o Hk. pose proof (rekey_wlp (pp_seqno m) _ (set_plog l s) Hwl Hfl H0 Hmax (nu_window _ _ _ Hup) Hex) as H2.
  unfold wlp in H2. rewrite Hk in H2. destruct H2 as ((E1 & E2 & E3 & E4) & Hw2 & Hf2). rewrite taken_stale in Hf2 by done.
  destruct (cleared_takes (Prepared.pc x) m') as (c' & Hadd & Hc'); [|done|].
  { unfold PCert.cvalue, PCert.cval in Hw. destruct (PCert.c (Prepared.pc x)); [|done]. cbn in Hw. intros E. by rewrite E, lookup_nil in Hw. }
  assert (Hup' : next_up m' (Prepared.mk_prepared (PCert.clear (Prepared.pc x)) (PPInfo.mk_info None 0 0) (Prepared.primary x)) s2).
  { destruct Hup. constructor; rewrite ?E1, ?E2, ?E4, ?Hn'; try done. }
  pose proof (next_up_prepares m' _ s2 c' true Hup' Hne Hadd Hc') as H3.
  unfold wp in H3. destruct (handle_pre_prepare m' s2) as [[] s3 o3|]; [|done]. destruct H3 as (-> & _). exists s3. unfold prepare_for. by rewrite Hn'.
Qed.

(** ** What a correct replica keeps of the ordering

    [me] is the replica, and [net] what the replicas have sent. *)

Context (me : nat) (faulty : Z -> bool).
Context (me_id : node_id = Z.of_nat me) (me_replica : is_replica node_id = true).
Context (group : 0 <= num_replicas <= Max_num_replicas) (f_pos : 1 <= f).

Local Abbreviation network := (list (nat * P_output)).

Definition header_sent (net : network) (n d : Z) : Prop :=
  exists p, (Z.to_nat primary_id, P_Pre_prepare p) ∈ net /\ pp_view p = v /\ pp_seqno p = n /\ pp_digest p = d.

(** A prepare for the number [n] of a backup; a correct backup has sent it. *)
Definition prep_ok (net : network) (n : Z) (m : Prepare) : Prop :=
  pr_view m = v /\ pr_seqno m = n /\ is_replica (pr_id m) = true /\ pr_id m <> primary_id /\
  (faulty (pr_id m) = false -> (Z.to_nat (pr_id m), P_Prepare m) ∈ net).

Record cert_ok (net : network) (n : Z) (x : Prepared.t) : Prop := {
  cert_prepares : exists acc, PCert.inv node_id f pr_digest acc (Prepared.pc x) /\ Forall (prep_ok net n) acc;
  cert_complete : PCert.complete (Prepared.pc x) = 2 * f;
  cert_pp : forall p, Prepared.pre_prepare x = Some p -> pp_view p = v /\ pp_seqno p = n /\ (faulty primary_id = false -> header_sent net n (pp_digest p))
}.

(** The batch [d] has the prepares of [2f] backups under the number [n]. *)
Definition prepares_of (net : network) (n d : Z) (ids : list Z) : Prop :=
  NoDup ids /\ 2 * f <= Z.of_nat (length ids) /\
  forall id, id ∈ ids -> is_replica id = true /\ id <> primary_id /\
    (faulty id = false -> exists m, (Z.to_nat id, P_Prepare m) ∈ net /\ pr_view m = v /\ pr_seqno m = n /\ pr_digest m = d /\ pr_id m = id).
Definition backed (net : network) (n d : Z) : Prop :=
  (faulty primary_id = false -> header_sent net n d) /\ exists ids, prepares_of net n d ids.

Record local_ok (net : network) (s : state) : Prop := {
  ok_log : PLog.wf (plog s) /\ 1 <= PLog.head (plog s);
  ok_certs : forall n x, PLog.fetch (plog s) n = Some x -> cert_ok net n x;
  ok_sent : forall m, (me, P_Prepare m) ∈ net -> pr_view m = v /\ pr_id m = node_id /\
    (pr_seqno m < PLog.head (plog s) \/ exists x p, PLog.fetch (plog s) (pr_seqno m) = Some x /\ Prepared.pre_prepare x = Some p /\ pp_digest p = pr_digest m);
  ok_once : forall m m', (me, P_Prepare m) ∈ net -> (me, P_Prepare m') ∈ net -> pr_seqno m = pr_seqno m' -> pr_digest m = pr_digest m';
  ok_pps : forall p, (me, P_Pre_prepare p) ∈ net -> pp_seqno p <= seqno s;
  ok_pp_once : forall p q, (me, P_Pre_prepare p) ∈ net -> (me, P_Pre_prepare q) ∈ net -> pp_seqno p = pp_seqno q -> p = q;
  ok_ran : forall n p, (me, P_Execute n p) ∈ net \/ (me, P_Executed n p) ∈ net -> backed net n (pp_digest p)
}.

(** The invariant, until the replica changes its keys or the numbers reach [2 ^ 31]; [k] is a lower
    bound of the first number of the window. *)
Definition ok (k : Z) (net : network) (s : state) : Prop :=
  k <= PLog.head (plog s) /\ ((me, P_New_key) ∈ net \/ 2 ^ 31 <= PLog.head (plog s) \/ local_ok net s).

Definition sends (net : network) (o : list P_output) : network := net ++ (pair me <$> o).

Lemma sends_nil net : sends net [] = net.
Proof. apply app_nil_r. Qed.

Lemma sends_app net o o' : sends net (o ++ o') = sends (sends net o) o'.
Proof. unfold sends. by rewrite fmap_app, app_assoc. Qed.

Lemma sends_mono net o x : x ∈ net -> x ∈ sends net o.
Proof. intros. apply elem_of_app. by left. Qed.

Lemma sends_one net o x : x ∈ sends net [o] <-> x ∈ net \/ x = (me, o).
Proof. unfold sends. rewrite elem_of_app. cbn. by rewrite list_elem_of_singleton. Qed.

(** The facts that only grow with [net]. *)
Lemma header_mono net net' n d : (forall x, x ∈ net -> x ∈ net') -> header_sent net n d -> header_sent net' n d.
Proof. intros Hn (p & Hp & ?). exists p. auto. Qed.

Lemma backed_grow net net' n d : (forall x, x ∈ net -> x ∈ net') -> backed net n d -> backed net' n d.
Proof.
  intros Hn [Hh (ids & Hnd & Hl & Hids)]. split; [eauto using header_mono|]. exists ids. split; [done|]. split; [done|].
  intros id Hid. destruct (Hids id Hid) as (? & ? & Hs). split; [done|]. split; [done|]. intros Hf. destruct (Hs Hf) as (m & ? & ?). exists m. auto.
Qed.

Lemma cert_grow net net' n x : (forall y, y ∈ net -> y ∈ net') -> cert_ok net n x -> cert_ok net' n x.
Proof.
  intros Hn [(acc & Hi & Ha) Hc Hp]. constructor; [|done|].
  - exists acc. split; [done|]. eapply Forall_impl; [exact Ha|]. intros m (? & ? & ? & ? & ?). repeat split; auto.
  - intros p Ep. destruct (Hp p Ep) as (? & ? & ?). eauto 6 using header_mono.
Qed.

(** Messages that say nothing of the ordering. *)
Definition neutral (o : P_output) : Prop :=
  match o with P_Pre_prepare _ | P_Prepare _ | P_Execute _ _ | P_Executed _ _ => False | _ => True end.

Lemma local_neutral net o s : Forall neutral o -> local_ok net s -> local_ok (sends net o) s.
Proof.
  intros Ho [H1 H2 H3 H5 H6 H7 H8]. assert (Hn : forall x, x ∈ net -> x ∈ sends net o) by (intros; by apply sends_mono).
  assert (Hold : forall y, (me, y) ∈ sends net o -> ~ neutral y -> (me, y) ∈ net).
  { intros y Hy Hny. apply elem_of_app in Hy as [?|Hy]; [done|]. apply list_elem_of_fmap in Hy as (z & [= ->] & Hz). rewrite Forall_forall in Ho. by apply Ho in Hz. }
  constructor; [done|eauto using cert_grow|intros m Hm; apply H3, Hold; [done|tauto]| |intros p Hp; apply H6, Hold; [done|tauto]| |].
  - intros m m' Hm Hm'. apply H5; apply Hold; tauto.
  - intros p q Hp Hq. apply H7; apply Hold; tauto.
  - intros n p Hp. eapply backed_grow; [done|]. apply H8. destruct Hp as [Hp|Hp]; [left|right]; apply Hold; tauto.
Qed.

(** Messages of the other replicas. *)
Lemma local_others net net' s : (forall x, x ∈ net -> x ∈ net') -> (forall y, (me, y) ∈ net' -> (me, y) ∈ net) -> local_ok net s -> local_ok net' s.
Proof.
  intros Hn Hold [H1 H2 H3 H5 H6 H7 H8]. constructor; eauto using cert_grow.
  intros n p Hp. eapply backed_grow; [done|]. apply H8. destruct Hp as [Hp|Hp]; auto.
Qed.

(** States that differ in nothing the invariant reads. *)
Lemma local_same net s s' : plog s' = plog s -> seqno s <= seqno s' -> local_ok net s -> local_ok net s'.
Proof.
  intros E1 E3 [H1 H2 H3 H5 H6 H7 H8]. constructor; rewrite ?E1; auto. intros p Hp. specialize (H6 p Hp). lia.
Qed.

(** ** Handlers that keep the invariant *)

Definition keeps {A} (m : M A) : Prop :=
  forall k net s, ok k net s -> wlp m (fun _ s' o => ok k (sends net o) s') s.

Lemma pbft_keeps_bind {A B} (m : M A) (c : A -> M B) : keeps m -> (forall a, keeps (c a)) -> keeps (bind m c).
Proof.
  intros Hm Hc k net s Hs. apply wlp_bind. eapply wlp_mono; [by apply Hm|]. intros a s1 o1 H1. cbv beta.
  eapply wlp_mono; [eapply Hc; exact H1|]. intros b s2 o2 H2. by rewrite sends_app.
Qed.

Lemma pbft_keeps_ret {A} (a : A) : keeps (ret a).
Proof. intros k net s Hs. apply wlp_ret. by rewrite sends_nil. Qed.
Lemma pbft_keeps_gets {A} (g : state -> A) : keeps (gets g).
Proof. intros k net s Hs. apply wlp_gets. by rewrite sends_nil. Qed.
Lemma pbft_keeps_fail {A} e : keeps (fail (A := A) e).
Proof. intros k net s Hs. apply wlp_fail. Qed.
Lemma pbft_keeps_of_option {A} e (x : option A) : keeps (of_option e x).
Proof. destruct x; cbn; [apply pbft_keeps_ret|apply pbft_keeps_fail]. Qed.
Lemma pbft_keeps_assert b : keeps (assert_ b).
Proof. destruct b; cbn; [apply pbft_keeps_ret|apply pbft_keeps_fail]. Qed.
Lemma keeps_when b (m : M unit) : keeps m -> keeps (when b m).
Proof. destruct b; cbn; [done|]. intros _. apply pbft_keeps_ret. Qed.

Lemma pbft_keeps_modify g : (forall s, plog (g s) = plog s /\ seqno s <= seqno (g s)) -> keeps (modify g).
Proof.
  intros Hg k net s [Hk Hs]. apply wlp_modify. rewrite sends_nil. destruct (Hg s) as (E1 & E3). split; [by rewrite E1|].
  rewrite E1. destruct Hs as [?|[?|?]]; [by left|right; by left|right; right]. by eapply local_same.
Qed.

Lemma pbft_keeps_emit o : neutral o -> keeps (emit o).
Proof.
  intros Ho k net s [Hk Hs]. apply wlp_emit. split; [done|]. destruct Hs as [?|[?|?]]; [left; by apply sends_mono|right; by left|right; right].
  apply local_neutral; [by constructor|done].
Qed.

Lemma keeps_for_each {A} (l : list A) c : (forall a, keeps (c a)) -> keeps (for_each l c).
Proof. intros Hc. induction l as [|x l IH]; cbn; [apply pbft_keeps_ret|]. apply pbft_keeps_bind; auto. Qed.

Lemma keeps_if {A} (b : bool) (m m' : M A) : keeps m -> keeps m' -> keeps (if b then m else m').
Proof. by destruct b. Qed.

(** A step from a good state to one that the invariant holds of too. *)
Lemma ok_update k net net' s s' : ok k net s -> PLog.head (plog s') = PLog.head (plog s) -> (forall x, x ∈ net -> x ∈ net') ->
  (local_ok net s -> local_ok net' s') -> ok k net' s'.
Proof. intros [Hk Hs] E Hn Hl. unfold ok. rewrite E. split; [done|]. destruct Hs as [?|[?|?]]; auto. Qed.

Lemma wlp_fetch_p n (Q : Prepared.t -> state -> list P_output -> Prop) s :
  (forall x, PLog.fetch (plog s) n = Some x -> Q x s []) -> wlp (fetch_p n) Q s.
Proof. intros HQ. apply wlp_bind, wlp_gets, wlp_of_option. intros x Hx. cbn. auto. Qed.

Lemma wlp_store_p n x (Q : unit -> state -> list P_output -> Prop) s :
  (forall l, PLog.store (plog s) n x = Some l -> Q tt (set_plog l s) []) -> wlp (store_p n x) Q s.
Proof. intros HQ. apply wlp_bind, wlp_gets. cbn. apply wlp_bind, wlp_of_option. intros l Hl. cbn. apply wlp_modify. auto. Qed.

(** A certificate replaced by one with the same pre-prepare, or by one that has got it now. *)
Lemma local_store net s n x x' l : local_ok net s -> PLog.fetch (plog s) n = Some x -> PLog.store (plog s) n x' = Some l ->
  cert_ok net n x' -> (forall p, Prepared.pre_prepare x = Some p -> Prepared.pre_prepare x' = Some p) -> local_ok net (set_plog l s).
Proof.
  intros [[Hw Hh] H2 H3 H5 H6 H7 H8] Hx Hl Hx' Hpp. destruct (PLog.log_fetch_store _ _ _ _ Hw Hl) as (Hw' & E1 & E2 & Hf).
  constructor; cbn; try done; [by rewrite E1| |rewrite E1].
  - intros r y. rewrite Hf. destruct (Z.eqb_spec r n) as [->|]; [by intros [= <-]|apply H2].
  - intros m Hm. destruct (H3 m Hm) as (? & ? & Hm'). split; [done|]. split; [done|]. destruct Hm' as [?|(y & p & Hy & Hp & Hd)]; [by left|right].
    rewrite Hf. destruct (Z.eqb_spec (pr_seqno m) n) as [E|]; [|by exists y, p]. rewrite E in Hy. rewrite Hx in Hy. injection Hy as <-. exists x', p. auto.
Qed.

Lemma prepare_key (a b : Prepare) r : p_match a b = Some r -> r = bool_decide (pr_digest a = pr_digest b).
Proof. cbn. destruct (_ && _); [|done]. by intros [= <-]. Qed.

(** What the operations do to a good certificate. *)
Lemma cert_add_prepare net n x m x' b : cert_ok net n x -> Prepared.add_prepare node_id num_replicas f auth_in mac_in x m = Some (x', b) ->
  pr_view m = v -> pr_seqno m = n -> pr_id m <> primary_id ->
  (prepare_verify m = true -> faulty (pr_id m) = false -> (Z.to_nat (pr_id m), P_Prepare m) ∈ net) ->
  cert_ok net n x' /\ Prepared.pre_prepare x' = Prepared.pre_prepare x.
Proof.
  intros [(acc & Hi & Ha) Hc Hp] Hadd Hv Hn Hne Hauth. unfold Prepared.add_prepare in Hadd.
  destruct (PCert.add _ _ _ _ _ _) as [[c b']|] eqn:E; [|done]. cbn in Hadd. injection Hadd as <- <-.
  destruct (PCert.pcert_add_inv node_id num_replicas f prepare_verify pr_digest prepare_key group ltac:(lia) acc _ m c b' Hi E) as (Hi' & Hc' & Hok).
  split; [|done]. constructor; cbn; [|congruence|done]. destruct b'; [|by exists acc]. destruct (Hok eq_refl) as (Hver & Hr & _).
  exists (m :: acc). split; [done|]. constructor; [|done]. split; [done|]. split; [done|]. split; [done|]. auto.
Qed.

Lemma cert_add_mine net n x m x' b : cert_ok net n x -> Prepared.my_prepare x = None ->
  Prepared.add_my_prepare node_id num_replicas x m = Some (x', b) -> pr_view m = v -> pr_seqno m = n -> (me, P_Prepare m) ∈ net ->
  cert_ok net n x' /\ Prepared.pre_prepare x' = Prepared.pre_prepare x.
Proof.
  intros [(acc & Hi & Ha) Hc Hp] Hmine Hadd Hv Hn Hnet. unfold Prepared.add_my_prepare in Hadd.
  destruct (Z.eqb_spec node_id (Prepared.primary_of num_replicas (pr_view m))) as [|Hne]; [done|].
  destruct (PCert.add_mine node_id (Prepared.pc x) m) as [[c b']|] eqn:E; [|done]. cbn in Hadd. injection Hadd as <- <-.
  destruct (PCert.pcert_add_mine_inv node_id f pr_digest prepare_key ltac:(lia) acc _ m c b' Hi (PCert.mine_none _ _ _ _ _ Hi Hmine) E) as (Hi' & Hc' & Hid).
  split; [|done]. constructor; cbn; [|congruence|done]. destruct b'; [|by exists acc]. exists (m :: acc). split; [done|]. constructor; [|done].
  cbn in Hid. split; [done|]. split; [done|]. rewrite Hid. split; [done|]. split; [rewrite Hv in Hne; done|]. intros _. by rewrite me_id, Nat2Z.id.
Qed.

Lemma accepts_auth q x m : Prepared.accepts f pp_auth rq_verify batch_digest q x m = Some true ->
  Prepared.pre_prepare x = None /\ pp_auth m = true.
Proof.
  assert (Hv : forall mode, mode =? Prepared.NAC = false -> pp_verify q mode m = Some true -> pp_auth m = true).
  { intros mode Hmode. unfold Prepared.pp_verify. destruct (Prepared.reqs_verify _ _ _ _) as [ok'|]; [|done]. cbn. rewrite Hmode. cbn.
    intros [= E]. by apply andb_true_iff in E as [_ ?]. }
  unfold Prepared.accepts. destruct (Prepared.pre_prepare x); [done|]. intros Hacc. split; [done|]. destruct (Prepared.my_prepare x) as [p|].
  - destruct (pp_match m p) as [[]|]; [|done|done]. cbn in Hacc. by apply (Hv Prepared.NRC).
  - destruct (pp_verify q 0 m) as [[]|] eqn:E0; [by apply (Hv 0)| |done]. cbn in Hacc.
    destruct (pp_verify q Prepared.NRC m) as [[]|] eqn:E1; [by apply (Hv Prepared.NRC)|done|done].
Qed.

Lemma info_add_pp b x p b' x' : PPInfo.add b x p = Some (b', x') -> PPInfo.pp x' = Some p.
Proof. unfold PPInfo.add. destruct (PPInfo.pp x); [done|]. destruct (PPInfo.add_loop _ _ _ _ _ _) as [[[? ?] ?]|]; [|done]. cbn. by intros [= _ <-]. Qed.

Lemma cert_add_pp net n q b x m b' x' added : cert_ok net n x -> pp_view m = v -> pp_seqno m = n ->
  (pp_auth m = true -> faulty primary_id = false -> header_sent net n (pp_digest m)) ->
  Prepared.add_pre_prepare f pp_auth rq_verify batch_digest q b x m = Some (b', x', added) ->
  cert_ok net n x' /\ forall p, Prepared.pre_prepare x = Some p -> Prepared.pre_prepare x' = Some p.
Proof.
  intros [Ha Hc Hp] Hv Hn Hauth Hadd. unfold Prepared.add_pre_prepare in Hadd. destruct (Prepared.accepts _ _ _ _ _ _ _) as [[]|] eqn:E; [| |done].
  - apply accepts_auth in E as [Hno Hm]. cbn in Hadd. destruct (PPInfo.add _ _ _) as [[b1 i]|] eqn:Ei; [|done]. cbn in Hadd. injection Hadd as <- <- <-.
    split; [|intros p; congruence]. constructor; [done|done|]. intros p Hpp. unfold Prepared.pre_prepare in Hpp. cbn in Hpp.
    rewrite (info_add_pp _ _ _ _ _ Ei) in Hpp. injection Hpp as <-. auto.
  - cbn in Hadd. injection Hadd as <- <- <-. by split.
Qed.

Lemma cert_add_own_pp net n x p x' : cert_ok net n x -> pp_view p = v -> pp_seqno p = n -> (me, P_Pre_prepare p) ∈ net ->
  Prepared.add_my_pre_prepare node_id num_replicas x p = Some x' -> cert_ok net n x' /\ Prepared.pre_prepare x = None.
Proof.
  intros [Ha Hc Hp] Hv Hn Hnet Hadd. unfold Prepared.add_my_pre_prepare in Hadd.
  destruct (Z.eqb_spec node_id (Prepared.primary_of num_replicas (pp_view p))) as [Hme|]; [|done].
  unfold PPInfo.add_complete in Hadd. destruct (PPInfo.pp (Prepared.pi x)) eqn:Epp; [done|]. cbn in Hadd. injection Hadd as <-.
  split; [|done]. constructor; [done|done|]. intros p' Hpp. cbn in Hpp. injection Hpp as <-. split; [done|]. split; [done|]. intros _.
  exists p. split; [|done]. unfold primary_id. rewrite Hv in Hme. by rewrite <- Hme, me_id, Nat2Z.id.
Qed.

Lemma cert_add_digest net n x d i x' : cert_ok net n x -> Prepared.add_digest x d i = Some x' ->
  cert_ok net n x' /\ Prepared.pre_prepare x' = Prepared.pre_prepare x.
Proof.
  intros [Ha Hc Hp] Hadd. unfold Prepared.add_digest in Hadd. destruct (PPInfo.add_digest _ _ _) as [y|] eqn:E; [|done]. cbn in Hadd. injection Hadd as <-.
  assert (Epp : PPInfo.pp y = PPInfo.pp (Prepared.pi x)).
  { unfold PPInfo.add_digest in E. destruct (PPInfo.pp (Prepared.pi x)) eqn:Epp; [|by injection E as <-]. destruct (pp_big _ !! _); [|done]. cbn in E.
    destruct (_ =? _); by injection E as <-. }
  split; [|done]. constructor; [done|done|]. unfold Prepared.pre_prepare. cbn. rewrite Epp. exact Hp.
Qed.

Lemma cert_clear net n n' x : cert_ok net n x -> cert_ok net n' (Prepared.clear x).
Proof.
  intros [(acc & Hi & _) Hc _]. constructor; [|done|done]. exists []. split; [|constructor]. apply (PCert.pcert_clear_inv node_id f pr_digest ltac:(lia) acc [] _ Hi).
Qed.

Lemma cert_create net n : cert_ok net n (Prepared.create f).
Proof.
  constructor; [|cbn; destruct (Z.eqb_spec (f * 2) 0); lia|done]. exists []. split; [|constructor]. apply PCert.pcert_create_inv. lia.
Qed.

(** A complete certificate. *)
Lemma cert_backed net n x p : cert_ok net n x -> Prepared.is_complete x = Some true -> Prepared.pre_prepare x = Some p -> backed net n (pp_digest p).
Proof.
  intros [(acc & Hi & Ha) Hc Hp] Hcomp Hpp. destruct (Hp p Hpp) as (_ & _ & Hh). split; [done|]. unfold Prepared.is_complete in Hcomp.
  destruct (PPInfo.is_complete _); [|done]. destruct (PCert.is_complete (Prepared.pc x)) eqn:Ec; [|done]. cbn in Hcomp. rewrite Hpp in Hcomp. cbn in Hcomp.
  destruct (PCert.pcert_complete_backed node_id f pr_digest acc _ Hi ltac:(lia) Ec) as (m & ids & Em & Hnd & Hlen & Hids).
  rewrite Em in Hcomp. cbn in Hcomp. unfold pp_match in Hcomp. destruct (_ && _); [|done]. injection Hcomp as Hd. apply bool_decide_eq_true in Hd.
  exists ids. split; [done|]. split; [lia|]. intros id Hid. destruct (Hids id Hid) as (m' & Hin & Eid & Ek). rewrite Forall_forall in Ha.
  destruct (Ha m' Hin) as (Hv & Hn & Hr & Hne & Hs). cbn in Eid. rewrite Eid in Hr, Hne, Hs. split; [done|]. split; [done|]. intros Hf. exists m'.
  split; [auto|]. split; [done|]. split; [done|]. split; [congruence|done].
Qed.

Create HintDb pbft.
#[local] Hint Resolve pbft_keeps_ret pbft_keeps_gets pbft_keeps_fail pbft_keeps_of_option pbft_keeps_assert : pbft.

(** One step of a handler that keeps the invariant. *)
Ltac keep_step :=
  lazymatch goal with
  | |- keeps (bind _ _) => apply pbft_keeps_bind; [|intros ?; cbv beta zeta]
  | |- keeps (when _ _) => apply keeps_when
  | |- keeps (modify _) => apply pbft_keeps_modify; intros ?; cbn; repeat split; lia
  | |- keeps (emit _) => apply pbft_keeps_emit; exact I
  | |- keeps (for_each _ _) => apply keeps_for_each; intros ?
  | |- keeps (if ?b then _ else _) => destruct b
  | |- keeps (match ?x with _ => _ end) => destruct x
  | |- _ => solve [auto with pbft]
  end.
Ltac keep := repeat keep_step.

Lemma keeps_fetch_p n : keeps (fetch_p n).
Proof. unfold fetch_p. keep. Qed.
Lemma keeps_fetch_c n : keeps (fetch_c n).
Proof. unfold fetch_c. keep. Qed.
Lemma keeps_store_c n x : keeps (store_c n x).
Proof. unfold store_c. keep. Qed.
Lemma keeps_fetch_e n : keeps (fetch_e n).
Proof. unfold fetch_e. keep. Qed.
Lemma keeps_store_e n x : keeps (store_e n x).
Proof. unfold store_e. keep. Qed.
Lemma keeps_reply cid : keeps (reply cid).
Proof. unfold reply. keep. Qed.
Lemma keeps_set_reply cid r : keeps (set_reply cid r).
Proof. unfold set_reply. keep. Qed.
#[local] Hint Resolve keeps_fetch_p keeps_fetch_c keeps_store_c keeps_fetch_e keeps_store_e keeps_reply keeps_set_reply : pbft.

Lemma keeps_commit_reply cid : keeps (commit_reply cid).
Proof. unfold commit_reply. keep. Qed.
Lemma keeps_new_reply cid : keeps (new_reply cid).
Proof. unfold new_reply. keep. Qed.
Lemma keeps_end_reply cid rid body : keeps (end_reply cid rid body).
Proof. unfold end_reply. keep. Qed.
Lemma keeps_send_reply cid t : keeps (send_reply cid t).
Proof. unfold send_reply. keep. Qed.
#[local] Hint Resolve keeps_commit_reply keeps_new_reply keeps_end_reply keeps_send_reply : pbft.

Lemma keeps_new_state_replies : keeps new_state_replies.
Proof. unfold new_state_replies. keep. Qed.
#[local] Hint Resolve keeps_new_state_replies : pbft.

(** Handlers that do not move the window. *)
Definition same_low {A} (m : M A) : Prop := forall s, wlp m (fun _ s' _ => PLog.head (plog s') = PLog.head (plog s)) s.

Lemma same_low_bind {A B} (m : M A) (c : A -> M B) : same_low m -> (forall a, same_low (c a)) -> same_low (bind m c).
Proof.
  intros Hm Hc s. apply wlp_bind. eapply wlp_mono; [apply Hm|]. intros a s1 o1 H1. cbv beta. eapply wlp_mono; [apply Hc|]. intros; congruence.
Qed.

Lemma same_low_for {A} (l : list A) c : (forall a, same_low (c a)) -> same_low (for_each l c).
Proof. intros Hc. induction l as [|x l IH]; cbn; [done|]. apply same_low_bind; auto. Qed.

Lemma same_low_log {A} (g : state -> A) e (h : A -> option A) (set : A -> state -> state) :
  (forall a s, h (g s) = Some a -> PLog.head (plog (set a s)) = PLog.head (plog s)) -> same_low (l <- gets g ;; l' <- of_option e (h l) ;; modify (set l')).
Proof. intros Hs s. apply wlp_bind, wlp_gets. cbn. apply wlp_bind, wlp_of_option. intros a Ha. by apply Hs. Qed.

Lemma same_low_option {A B} e (x : option A) (c : A -> M B) : (forall a, same_low (c a)) -> same_low (a <- of_option e x ;; c a).
Proof. intros Hc s. apply wlp_bind, wlp_of_option. intros a _. cbn. apply (Hc a s). Qed.

Lemma same_low_fetch {A B} (g : state -> A) (h : A -> option B) e : same_low (l <- gets g ;; of_option e (h l)).
Proof. intros s. apply wlp_bind, wlp_gets. cbn. by apply wlp_of_option. Qed.

(** Changing keys: nothing more is claimed of this replica. *)
Lemma keeps_send_new_key : keeps send_new_key.
Proof.
  intros k net s [Hk _]. unfold send_new_key. apply wlp_bind, wlp_emit. cbn [app].
  match goal with |- wlp ?m _ _ => assert (Hm : same_low m) end.
  { apply same_low_bind; [done|]. intros s0. cbv zeta. apply same_low_bind; [|intros _]; apply same_low_for; intros n.
    - unfold when. destruct (_ =? _); [|done]. apply same_low_bind; [apply same_low_fetch|]. intros c. apply same_low_option. intros c'. by apply same_low_log.
    - apply same_low_bind; [apply same_low_fetch|]. intros x. apply same_low_option. intros x'. apply same_low_bind; [apply same_low_log; intros a s1; apply PLog.log_store_head|]. intros _.
      apply same_low_bind; [apply same_low_fetch|]. intros c. apply same_low_option. intros c'. by apply same_low_log. }
  eapply wlp_mono; [apply Hm|]. intros u s' o E. cbv beta in E. split; [by rewrite E|]. left. change (P_New_key :: o) with ([P_New_key] ++ o). rewrite sends_app. apply sends_mono, sends_one. by right.
Qed.
#[local] Hint Resolve keeps_send_new_key : pbft.

Lemma keeps_update_max_rec : keeps update_max_rec.
Proof. unfold update_max_rec. keep. Qed.
#[local] Hint Resolve keeps_update_max_rec : pbft.

(** ** Sending a pre-prepare *)

(** Filling the batch sends nothing and leaves the logs alone. *)
Definition quiet (s s' : state) (o : list P_output) : Prop := o = [] /\ plog s' = plog s /\ seqno s' = seqno s.

Lemma fill_batch_quiet fuel n : forall r small big s, wlp (fill_batch fuel n r small big) (fun _ s' o => quiet s s' o) s.
Proof.
  induction fuel as [|fuel IH]; intros r small big s; cbn [fill_batch]; [done|].
  apply wlp_bind, wlp_gets. cbn. apply wlp_bind, wlp_of_option. intros x _. cbn. destruct x as [q|]; [|by apply wlp_ret].
  destruct (pq_size q <=? big_req_thresh).
  - destruct (pq_size q <=? r); [|by apply wlp_ret]. apply wlp_bind, wlp_of_option. intros y _. cbn. apply wlp_bind, wlp_modify. cbn.
    eapply wlp_mono; [apply IH|]. intros ? s' o. done.
  - destruct (_ && _); [|by apply wlp_ret]. apply wlp_bind, wlp_of_option. intros y _. cbn. apply wlp_bind, wlp_modify. cbn.
    apply wlp_bind, wlp_of_option. intros b _. cbn. apply wlp_bind, wlp_modify. cbn. eapply wlp_mono; [apply IH|]. intros ? s' o. done.
Qed.

Lemma new_pre_prepare_quiet n s : wlp (new_pre_prepare n) (fun pp s' o => quiet s s' o /\ pp_view pp = v /\ pp_seqno pp = n) s.
Proof.
  unfold new_pre_prepare. apply wlp_bind, wlp_gets. cbv beta. unfold id. apply wlp_bind. eapply wlp_mono; [apply fill_batch_quiet|].
  intros [small big] s' o Hq. cbv beta iota zeta. apply wlp_ret. by rewrite app_nil_r.
Qed.

(** A first pre-prepare for its number. *)
Lemma local_pre_prepare net s pp : local_ok net s -> pp_seqno pp <= seqno s -> (forall p, (me, P_Pre_prepare p) ∈ net -> pp_seqno p < pp_seqno pp) ->
  local_ok (sends net [P_Pre_prepare pp]) s.
Proof.
  intros [H1 H2 H3 H5 H6 H7 H8] Hle Hnew. assert (Hn : forall x, x ∈ net -> x ∈ sends net [P_Pre_prepare pp]) by (intros; by apply sends_mono).
  constructor; try done; [eauto using cert_grow| | | | |].
  - intros m Hm. apply sends_one in Hm as [Hm|[=]]. eauto.
  - intros m m' Hm Hm'. apply sends_one in Hm as [Hm|[=]]. apply sends_one in Hm' as [Hm'|[=]]. eauto.
  - intros p Hp. apply sends_one in Hp as [Hp|[= ->]]; eauto.
  - intros p q Hp Hq E. apply sends_one in Hp as [Hp|[= ->]]; apply sends_one in Hq as [Hq|[= ->]]; [eauto| | |done]; [specialize (Hnew p Hp)|specialize (Hnew q Hq)]; lia.
  - intros n p Hp. eapply backed_grow; [done|]. apply H8. destruct Hp as [Hp|Hp]; apply sends_one in Hp as [Hp|[=]]; auto.
Qed.

Lemma keeps_send_pre_prepare : keeps send_pre_prepare.
Proof.
  unfold send_pre_prepare. apply pbft_keeps_bind; [keep|]. intros _ k net s Hs. apply wlp_bind, wlp_gets. cbn. unfold when. destruct (_ && _); [|apply wlp_ret; by rewrite sends_nil].
  apply wlp_bind, wlp_modify. cbn. apply wlp_bind. eapply wlp_mono; [apply new_pre_prepare_quiet|].
  intros pp s1 o1 [(-> & E1 & E3) [Hv Hn]]. cbn in E1, E3. cbn. apply wlp_bind, wlp_emit. cbn. apply wlp_bind, wlp_fetch_p. intros x Hx. cbn.
  apply wlp_bind, wlp_of_option. intros x' Hadd. cbn. apply wlp_store_p. intros l Hl.
  assert (H0 : ok k (sends net [P_Pre_prepare pp]) s1).
  { eapply ok_update; [exact Hs|by rewrite E1|intros; by apply sends_mono|]. intros Hok. apply local_pre_prepare; [eapply local_same; [..|exact Hok]; (done || lia)|lia|].
    intros p Hp. pose proof (ok_pps _ _ Hok p Hp). lia. }
  eapply ok_update; [exact H0|by apply PLog.log_store_head in Hl|done|]. intros Hok.
  assert (Hcx : cert_ok (sends net [P_Pre_prepare pp]) (seqno s + 1) x) by (by apply (ok_certs _ _ Hok)).
  destruct (cert_add_own_pp _ _ _ _ _ Hcx Hv Hn ltac:(apply sends_one; by right) Hadd) as [Hcx' Hno].
  eapply local_store; [exact Hok|exact Hx|exact Hl|done|]. intros p. congruence.
Qed.
#[local] Hint Resolve keeps_send_pre_prepare : pbft.

(** ** Stable checkpoints *)

Lemma local_truncate net s n : local_ok net s -> n + 1 < 2 ^ 31 ->
  local_ok net (set_plog (PLog.truncate Prepared.clear (plog s) (n + 1)) s).
Proof.
  intros [[Hw Hh] H2 H3 H5 H6 H7 H8] Hb. pose proof (PLog.wf_pos _ Hw) as Hp.
  assert (Hf : forall r, Z.max (PLog.head (plog s)) (n + 1) <= r < Z.max (PLog.head (plog s)) (n + 1) + PLog.max_size (plog s) ->
    PLog.fetch (PLog.truncate Prepared.clear (plog s) (n + 1)) r =
    if r <? PLog.head (plog s) + PLog.max_size (plog s) then PLog.fetch (plog s) r else Prepared.clear <$> PLog.entry (plog s) r).
  { intros r Hr. apply PLog.log_fetch_truncate; [done|lia|lia|done]. }
  assert (Hin : forall r, is_Some (PLog.fetch (PLog.truncate Prepared.clear (plog s) (n + 1)) r) ->
    Z.max (PLog.head (plog s)) (n + 1) <= r < Z.max (PLog.head (plog s)) (n + 1) + PLog.max_size (plog s)).
  { intros r. rewrite PLog.log_fetch_some by (by apply PLog.truncate_wf). by rewrite PLog.truncate_head, PLog.truncate_size. }
  constructor; cbn; try done.
  - split; [by apply PLog.truncate_wf|]. rewrite PLog.truncate_head. lia.
  - intros r x Hx. rewrite Hf in Hx by (apply Hin; by rewrite Hx). destruct (r <? _); [by apply H2|].
    destruct (PLog.entry_fetch (plog s) r Hw) as [r' Er]. rewrite Er in Hx. destruct (PLog.fetch (plog s) r') as [y|] eqn:Ey; [|done]. cbn in Hx. injection Hx as <-.
    eapply cert_clear. by apply (H2 r').
  - intros m Hm. destruct (H3 m Hm) as (? & ? & Hm'). split; [done|]. split; [done|]. destruct Hm' as [?|(x & p & Hx & Hxp)]; rewrite PLog.truncate_head; [left; lia|].
    destruct (Z.leb_spec (pr_seqno m) n); [left; lia|right]. exists x, p. split; [|done].
    assert (Hw1 : is_Some (PLog.fetch (plog s) (pr_seqno m))) by (by rewrite Hx). rewrite PLog.log_fetch_some in Hw1 by done.
    rewrite Hf by lia. by rewrite (proj2 (Z.ltb_lt _ _)) by lia.
Qed.

Lemma keeps_truncate n : keeps (modify (fun s => set_plog (PLog.truncate Prepared.clear (plog s) (n + 1)) s)).
Proof.
  intros k net s [Hk Hs]. apply wlp_modify. rewrite sends_nil. unfold ok. cbn. rewrite PLog.truncate_head. split; [lia|].
  destruct Hs as [?|[?|Hl]]; [by left|right; left; lia|]. destruct (Z.leb_spec (2 ^ 31) (n + 1)); [right; left; lia|right; right].
  by apply local_truncate.
Qed.
#[local] Hint Resolve keeps_truncate : pbft.

Lemma ok_weaken k k' net s : k <= k' -> ok k' net s -> ok k net s.
Proof. intros ? [? ?]. split; [lia|done]. Qed.

Lemma keeps_move l ls : forall new_ls, keeps (move_checkpoints l ls new_ls).
Proof. induction l as [|i l IH]; intros new_ls; cbn [move_checkpoints]; keep. Qed.
Lemma keeps_has_mine n : keeps (has_mine n).
Proof. unfold has_mine. keep. Qed.
#[local] Hint Resolve keeps_move keeps_has_mine : pbft.

Lemma keeps_mark_stable fuel : forall n have, keeps (mark_stable fuel n have).
Proof.
  induction fuel as [|fuel IH]; intros n have; cbn [mark_stable]; [keep|].
  repeat first [apply keeps_truncate | keep_step].
Qed.
#[local] Hint Resolve keeps_mark_stable : pbft.

(** ** Execution *)

Lemma keeps_answer r size b : keeps (answer r size b).
Proof. unfold answer. keep. Qed.
#[local] Hint Resolve keeps_answer : pbft.

Lemma keeps_execute_request b r : keeps (execute_request b r).
Proof. unfold execute_request. keep. Qed.
Lemma keeps_commit_request r : keeps (commit_request r).
Proof. unfold commit_request. keep. Qed.
Lemma keeps_next_big d : keeps (next_big d).
Proof. unfold next_big. keep. Qed.
#[local] Hint Resolve keeps_execute_request keeps_commit_request keeps_next_big : pbft.

Lemma keeps_requests_iter pp c : (forall r, keeps (c r)) -> keeps (requests_iter pp c).
Proof. intros Hc. unfold requests_iter. keep. Qed.
Lemma keeps_read_only r : keeps (execute_read_only r).
Proof. unfold execute_read_only. keep. Qed.
#[local] Hint Resolve keeps_requests_iter keeps_read_only : pbft.

Lemma keeps_drain fuel : keeps (drain_read_only fuel).
Proof. induction fuel as [|fuel IH]; cbn [drain_read_only]; keep. Qed.
Lemma keeps_checkpoint_now n : keeps (checkpoint_now n).
Proof. unfold checkpoint_now. keep. Qed.
#[local] Hint Resolve keeps_drain keeps_checkpoint_now : pbft.

(** What a batch that is prepared here has behind it, if the invariant still holds. *)
Definition good_batch (net : network) (s : state) (n : Z) (p : Pre_prepare) : Prop :=
  local_ok net s -> pp_seqno p = n /\ backed net n (pp_digest p).

Lemma prepared_good n net s : wlp (prepared n) (fun r s' o => s' = s /\ o = [] /\ forall p, r = Some p -> good_batch net s n p) s.
Proof.
  unfold prepared. apply wlp_bind, wlp_fetch_p. intros x Hx. cbv beta. apply wlp_bind, wlp_of_option. intros b Hb. cbv beta. apply wlp_ret.
  split; [done|]. split; [done|]. intros p Hp Hok. destruct b; [|done]. pose proof (ok_certs _ _ Hok n x Hx) as Hc.
  destruct (cert_pp _ _ _ Hc p Hp) as (_ & Hn & _). split; [done|]. by eapply cert_backed.
Qed.

Lemma committed_good n net s : wlp (committed n) (fun r s' o => s' = s /\ o = [] /\ forall p, r = Some p -> good_batch net s n p) s.
Proof.
  unfold committed. apply wlp_bind. eapply wlp_mono; [apply (prepared_good n net s)|]. intros r s' o (-> & -> & Hr). cbv beta.
  apply wlp_bind, wlp_bind, wlp_gets. cbv beta. apply wlp_of_option. intros cs _. cbv beta. apply wlp_ret. split; [done|]. split; [done|].
  intros p Hp. destruct (PCert.is_complete cs); [auto|done].
Qed.

(** Reporting the execution of a batch. *)
Lemma local_ran net s n p o : o = P_Execute n p \/ o = P_Executed n p -> local_ok net s -> backed net n (pp_digest p) -> local_ok (sends net [o]) s.
Proof.
  intros Ho [H1 H2 H3 H5 H6 H7 H8] Hb. assert (Hn : forall x, x ∈ net -> x ∈ sends net [o]) by (intros; by apply sends_mono).
  assert (Hold : forall y, (me, y) ∈ sends net [o] -> y = o \/ (me, y) ∈ net) by (intros y Hy; apply sends_one in Hy as [?|[= ->]]; auto).
  constructor; try done; [eauto using cert_grow| | | | |].
  - intros m Hm. apply Hold in Hm as [E|Hm]; [destruct Ho; congruence|eauto].
  - intros m m' Hm Hm'. apply Hold in Hm as [E|Hm]; [destruct Ho; congruence|]. apply Hold in Hm' as [E|Hm']; [destruct Ho; congruence|eauto].
  - intros q Hq. apply Hold in Hq as [E|Hq]; [destruct Ho; congruence|eauto].
  - intros q q' Hq Hq'. apply Hold in Hq as [E|Hq]; [destruct Ho; congruence|]. apply Hold in Hq' as [E|Hq']; [destruct Ho; congruence|eauto].
  - intros n' p' Hp. eapply backed_grow; [done|]. destruct Hp as [Hp|Hp]; apply Hold in Hp as [E|Hp]; eauto; destruct Ho as [->| ->]; try done; by injection E as -> ->.
Qed.

Lemma keeps_execute_prepared b : keeps (execute_prepared b).
Proof.
  intros k net s Hs. unfold execute_prepared. apply wlp_bind, wlp_gets. cbv beta. unfold id, when at 1. destruct (_ && _); [|apply wlp_ret; by rewrite sends_nil].
  apply wlp_bind. eapply wlp_mono; [apply (prepared_good (last_executed s + 1) net s)|]. intros r s' o (-> & -> & Hr). cbv beta.
  destruct r as [pp|]; [|apply wlp_ret; by rewrite sends_nil]. unfold when at 1. destruct (_ =? _); [|apply wlp_ret; by rewrite sends_nil].
  apply wlp_bind, wlp_modify. cbv beta. apply wlp_bind, wlp_assert. intros _. cbv beta. apply wlp_bind, wlp_emit. cbv beta.
  assert (H1 : ok k (sends net [P_Execute (last_executed s + 1) pp]) (set_tentative (last_executed s + 1) s)).
  { eapply ok_update; [exact Hs|done|intros; by apply sends_mono|]. intros Hok. destruct (Hr pp eq_refl Hok) as [_ Hb].
    eapply local_ran; [by left| |done]. eapply local_same; [..|exact Hok]; (done || lia). }
  match goal with |- wlp ?m _ _ => assert (Hm : keeps m) by keep end.
  eapply wlp_mono; [exact (Hm k _ _ H1)|]. intros u s' o H2. cbn [app]. change (?a :: o) with ([a] ++ o). by rewrite sends_app.
Qed.
#[local] Hint Resolve keeps_execute_prepared : pbft.

(** A batch with its prepares, or a replica of which nothing is claimed any more. *)
Definition lost (net : network) (s : state) : Prop := (me, P_New_key) ∈ net \/ 2 ^ 31 <= PLog.head (plog s).
Definition good (n : Z) (p : Pre_prepare) (net : network) (s : state) : Prop :=
  lost net s \/ pp_seqno p = n /\ backed net n (pp_digest p).

Lemma keeps_good {A} (m : M A) n p k net s : keeps m -> ok k net s -> good n p net s ->
  wlp m (fun _ s' o => ok k (sends net o) s' /\ good n p (sends net o) s') s.
Proof.
  intros Hm Hs [[Hl|Hl]|[Hn Hb]].
  - eapply wlp_mono; [exact (Hm k net s Hs)|]. intros a s' o H'. split; [done|]. left. left. by apply sends_mono.
  - assert (Hs' : ok (Z.max k (2 ^ 31)) net s) by (destruct Hs; split; [lia|done]).
    eapply wlp_mono; [exact (Hm _ net s Hs')|]. intros a s' o H'. split; [eapply ok_weaken; [|exact H']; lia|]. left. right. destruct H'. lia.
  - eapply wlp_mono; [exact (Hm k net s Hs)|]. intros a s' o H'. split; [done|]. right. split; [done|]. eapply backed_grow; [|done]. intros; by apply sends_mono.
Qed.

Lemma good_batch_good k net s n p : ok k net s -> good_batch net s n p -> good n p net s.
Proof. intros [_ [Hs|[Hs|Hs]]] Hg; [left; by left|left; by right|right; by apply Hg]. Qed.

Lemma ok_executed k net s n p : ok k net s -> good n p net s -> ok k (sends net [P_Executed n p]) s.
Proof.
  intros Hs Hg. destruct Hs as [Hk Hs]. split; [done|]. destruct Hg as [[Hl|Hl]|[_ Hb]]; [left; by apply sends_mono|right; by left|].
  destruct Hs as [?|[?|?]]; [left; by apply sends_mono|right; by left|right; right]. eapply local_ran; [by right|done|done].
Qed.

Lemma keeps_commit_loop fuel : keeps (commit_loop fuel).
Proof.
  induction fuel as [|fuel IH]; cbn [commit_loop]; [keep|]. intros k net s Hs. apply wlp_bind, wlp_gets. cbv beta. unfold id.
  destruct (_ || _); [apply wlp_ret; by rewrite sends_nil|]. apply wlp_bind.
  eapply wlp_mono; [apply (committed_good (last_executed s + 1) net s)|]. intros r s' o (-> & -> & Hr). cbv beta.
  destruct r as [pp|]; [|apply wlp_ret; by rewrite sends_nil]. destruct (_ =? _); [|apply wlp_ret; by rewrite sends_nil].
  apply wlp_bind. pose proof (good_batch_good _ _ _ _ _ Hs (Hr pp eq_refl)) as Hg.
  eapply wlp_mono; [exact (keeps_good _ _ _ _ _ _ (keeps_execute_prepared true) Hs Hg)|]. intros u s1 o1 [H1 Hg1]. cbv beta.
  apply wlp_bind, wlp_gets. cbv beta. apply wlp_bind, wlp_modify. cbv beta. apply wlp_bind, wlp_assert. intros Hseq. cbv beta.
  apply Z.eqb_eq in Hseq. apply wlp_bind, wlp_emit. cbv beta.
  assert (H2 : ok k (sends (sends net o1) [P_Executed (last_executed s1 + 1) pp]) (set_last_executed (last_executed s1 + 1) s1)).
  { apply ok_executed.
    - eapply ok_update; [exact H1|done|done|]. intros Hok. eapply local_same; [..|exact Hok]; (done || cbn; unfold id; lia).
    - destruct Hg1 as [[?|?]|[E Hb]]; [left; by left|left; by right|right]. rewrite Hseq in E. rewrite E. by rewrite Hseq. }
  match goal with |- wlp ?m _ _ => assert (Hm : keeps m) by keep end.
  eapply wlp_mono; [exact (Hm k _ _ H2)|]. intros u2 s2 o2 H3. cbn [app].
  change (?a :: o2) with ([a] ++ o2). by rewrite !sends_app.
Qed.
#[local] Hint Resolve keeps_commit_loop : pbft.

Lemma keeps_execute_committed : keeps execute_committed.
Proof. unfold execute_committed. keep. Qed.
#[local] Hint Resolve keeps_execute_committed : pbft.

(** ** The three phases *)

Lemma keeps_send_commit n : keeps (send_commit n).
Proof. unfold send_commit. keep. Qed.
#[local] Hint Resolve keeps_send_commit : pbft.
Lemma keeps_commit_if_complete n : keeps (commit_if_complete n).
Proof. unfold commit_if_complete. keep. Qed.
#[local] Hint Resolve keeps_commit_if_complete : pbft.

(** A prepare for the batch of the certificate; an earlier one was for it too. *)
Lemma local_prepare net s n x pp : local_ok net s -> PLog.fetch (plog s) n = Some x -> Prepared.pre_prepare x = Some pp ->
  local_ok (sends net [P_Prepare (mk_prepare v (pp_seqno pp) (pp_digest pp) node_id false)]) s.
Proof.
  intros Hok Hx Hpp. pose proof Hok as [H1 H2 H3 H5 H6 H7 H8]. destruct (cert_pp _ _ _ (H2 n x Hx) pp Hpp) as (Hv & Hn & _).
  set (p := mk_prepare _ _ _ _ _). assert (Hm : forall y, y ∈ net -> y ∈ sends net [P_Prepare p]) by (intros; by apply sends_mono).
  assert (Hold : forall m, (me, P_Prepare m) ∈ net -> pr_seqno m = n -> pr_digest m = pp_digest pp).
  { intros m Hin E. destruct (H3 m Hin) as (_ & _ & [Hlt|(y & q & Hy & Hq & Hd)]).
    { assert (Hw : is_Some (PLog.fetch (plog s) n)) by (by rewrite Hx). apply PLog.log_fetch_some in Hw; [lia|apply H1]. }
    rewrite E in Hy. congruence. }
  constructor; try done; [eauto using cert_grow| | | | |].
  - intros m Hin. apply sends_one in Hin as [Hin|[= ->]]; [eauto|]. cbn. split; [done|]. split; [done|]. right. rewrite Hn. by exists x, pp.
  - intros m m' Hin Hin' E. apply sends_one in Hin as [Hin|[= ->]]; apply sends_one in Hin' as [Hin'|[= ->]]; [eauto| | |done]; cbn in *;
      [apply Hold; [done|congruence]|symmetry; apply Hold; [done|congruence]].
  - intros q Hin. apply sends_one in Hin as [Hin|[=]]; eauto.
  - intros q q' Hin Hin'. apply sends_one in Hin as [Hin|[=]]; apply sends_one in Hin' as [Hin'|[=]]; eauto.
  - intros n' q Hq. eapply backed_grow; [done|]. apply H8. destruct Hq as [Hq|Hq]; apply sends_one in Hq as [Hq|[=]]; auto.
Qed.

Lemma keeps_send_prepare n : keeps (send_prepare n).
Proof.
  intros k net s Hs. unfold send_prepare. apply wlp_bind, wlp_fetch_p. intros x Hx. cbv beta. destruct (Prepared.my_prepare x) as [m|] eqn:Emine; [apply wlp_ret; by rewrite sends_nil|].
  unfold when. destruct (Prepared.is_pp_complete x); [|apply wlp_ret; by rewrite sends_nil]. apply wlp_bind, wlp_of_option. intros pp Hpp. cbv beta zeta.
  apply wlp_bind, wlp_emit. cbv beta. apply wlp_bind, wlp_of_option. intros [x' b] Hadd. cbv beta. apply wlp_store_p. intros l Hl.
  set (p := mk_prepare v (pp_seqno pp) (pp_digest pp) node_id false) in *. cbn [app fst] in *.
  assert (H1 : ok k (sends net [P_Prepare p]) s).
  { eapply ok_update; [exact Hs|done|intros; by apply sends_mono|]. intros Hok. by eapply local_prepare. }
  eapply ok_update; [exact H1|by apply PLog.log_store_head in Hl|done|]. intros Hok. pose proof (ok_certs _ _ Hok n x Hx) as Hc. destruct (cert_pp _ _ _ Hc pp Hpp) as (Hv & Hn & _).
  destruct (cert_add_mine _ n x p x' b Hc Emine Hadd) as [Hc' Ep]; [done|done|apply sends_one; by right|].
  eapply local_store; [exact Hok|exact Hx|exact Hl|done|]. intros q. congruence.
Qed.

#[local] Hint Resolve keeps_send_prepare : pbft.

Lemma keeps_in_wv mv n ver : keeps ver -> keeps (in_wv mv n ver).
Proof. intros Hv. unfold in_wv. keep. Qed.
#[local] Hint Resolve keeps_in_wv : pbft.

(** ** The handlers *)

(** What the authenticators guarantee of a message: a prepare that names a correct replica was sent by it,
    and a pre-prepare for this view has the header of one that a correct primary sent. *)
Definition authentic (net : network) (m : P_message) : Prop :=
  match m with
  | M_Prepare p => prepare_verify p = true -> faulty (pr_id p) = false -> (Z.to_nat (pr_id p), P_Prepare p) ∈ net
  | M_Pre_prepare p => pp_auth p = true -> pp_view p = v -> faulty primary_id = false -> header_sent net (pp_seqno p) (pp_digest p)
  | _ => True
  end.

Lemma authentic_mono net net' m : (forall x, x ∈ net -> x ∈ net') -> authentic net m -> authentic net' m.
Proof. intros Hn. destruct m; cbn; eauto using header_mono. Qed.

(** [in_wv] answers yes only for this view. *)
Lemma in_wv_view mv n ver k net s : keeps ver -> ok k net s ->
  wlp (in_wv mv n ver) (fun b s' o => ok k (sends net o) s' /\ (b = true -> mv = v)) s.
Proof.
  intros Hv Hs. unfold in_wv. apply wlp_bind, wlp_gets. cbv beta zeta. unfold id. destruct (_ && _) eqn:E.
  - apply wlp_ret. rewrite sends_nil. split; [done|]. intros _. bsimp. done.
  - match goal with |- wlp ?m _ _ => assert (Hm : keeps m) by keep end.
    eapply (wlp_mono _ (fun b s' o => ok k (sends net o) s' /\ b = false)); [|intros b s' o [? ->]; done].
    unfold wlp. specialize (Hm k net s Hs). unfold wlp in Hm. revert Hm. unfold bind, when, ret, emit.
    destruct ((v <? mv) || _); [|cbn; done]. destruct (ver s) as [w s1 o1|e]; [|done]. destruct w; cbn; done.
Qed.

Lemma keeps_handle_prepare k net s m : ok k net s -> authentic net (M_Prepare m) -> wlp (handle_prepare m) (fun _ s' o => ok k (sends net o) s') s.
Proof.
  intros Hs Ha. unfold handle_prepare. apply wlp_bind. eapply wlp_mono; [apply (in_wv_view _ _ _ k net s); [keep|done]|].
  intros b s1 o1 [H1 Hb]. cbv beta. apply wlp_bind, wlp_gets. cbv beta. unfold id. unfold when at 1.
  destruct (b && _ && _) eqn:E; [|apply wlp_ret; by rewrite app_nil_r]. apply andb_true_iff in E as [E Hne]. apply andb_true_iff in E as [-> _].
  specialize (Hb eq_refl). apply negb_true_iff, Z.eqb_neq in Hne. apply wlp_bind, wlp_fetch_p. intros x Hx. cbv beta.
  apply wlp_bind, wlp_of_option. intros [x' added] Hadd. cbv beta. apply wlp_bind, wlp_store_p. intros l Hl. cbv beta. cbn [fst snd] in *.
  assert (H2 : ok k (sends net o1) (set_plog l s1)).
  { eapply ok_update; [exact H1|by apply PLog.log_store_head in Hl|done|]. intros Hok. pose proof (ok_certs _ _ Hok _ _ Hx) as Hc.
    destruct (cert_add_prepare _ _ _ _ _ _ Hc Hadd Hb eq_refl ltac:(congruence)) as [Hc' Ep].
    { intros Hver Hf. apply sends_mono. by apply Ha. }
    eapply local_store; [exact Hok|exact Hx|exact Hl|done|]. intros q. congruence. }
  match goal with |- wlp ?m _ _ => assert (Hm : keeps m) by keep end. eapply wlp_mono; [exact (Hm k _ _ H2)|]. intros u s' o H3. cbn [app]. by rewrite sends_app.
Qed.

Lemma keeps_handle_pre_prepare k net s m : ok k net s -> authentic net (M_Pre_prepare m) -> wlp (handle_pre_prepare m) (fun _ s' o => ok k (sends net o) s') s.
Proof.
  intros Hs Ha. unfold handle_pre_prepare. apply wlp_bind. eapply wlp_mono; [apply (in_wv_view _ _ _ k net s); [keep|done]|].
  intros b s1 o1 [H1 Hb]. cbv beta. apply wlp_bind, wlp_gets. cbv beta. unfold id. unfold when at 1.
  destruct (b && _) eqn:E; [|apply wlp_ret; by rewrite app_nil_r]. apply andb_true_iff in E as [-> _].
  specialize (Hb eq_refl). apply wlp_bind, wlp_fetch_p. intros x Hx. cbv beta.
  apply wlp_bind, wlp_of_option. intros [[b' x'] added] Hadd. cbv beta iota zeta. apply wlp_bind, wlp_modify. cbv beta.
  apply wlp_bind, wlp_store_p. intros l Hl. cbv beta. cbn [plog set_brt] in Hl.
  assert (H2 : ok k (sends net o1) (set_plog l (set_brt b' s1))).
  { eapply (ok_update _ _ _ s1); [exact H1|by apply PLog.log_store_head in Hl|done|]. intros Hok. pose proof (ok_certs _ _ Hok _ _ Hx) as Hc.
    assert (Hsent : pp_auth m = true -> faulty primary_id = false -> header_sent (sends net o1) (pp_seqno m) (pp_digest m)).
    { intros Hau Hf. eapply header_mono; [|by apply Ha]. intros; by apply sends_mono. }
    destruct (cert_add_pp _ _ _ _ _ _ _ _ _ Hc Hb eq_refl Hsent Hadd) as [Hc' Ep].
    eapply (local_store _ (set_brt b' s1)); [eapply local_same; [..|exact Hok]; (done || cbn; lia)|exact Hx|exact Hl|done|done]. }
  match goal with |- wlp ?m _ _ => assert (Hm : keeps m) by keep end. eapply wlp_mono; [exact (Hm k _ _ H2)|]. intros u s' o H3. cbn [app]. by rewrite sends_app.
Qed.

Lemma keeps_handle_commit m : keeps (handle_commit m).
Proof. unfold handle_commit. keep. Qed.
Lemma keeps_checkpoint_late m slow : keeps (checkpoint_late m slow).
Proof. unfold checkpoint_late. keep. Qed.
#[local] Hint Resolve keeps_checkpoint_late : pbft.
Lemma keeps_handle_checkpoint m slow : keeps (handle_checkpoint m slow).
Proof. unfold handle_checkpoint. keep. Qed.

Lemma keeps_check_pcerts w : keeps (check_pcerts w).
Proof. induction w as [|[n i] w IH]; cbn [check_pcerts]; keep. Qed.

Lemma keeps_serve_waiting rd wp : keeps (serve_waiting rd wp).
Proof.
  unfold serve_waiting. destruct wp as [n i]. apply pbft_keeps_bind; [keep|]. intros l0. apply keeps_when. intros k net s Hs.
  apply wlp_bind, wlp_fetch_p. intros x Hx. cbv beta. apply wlp_bind, wlp_of_option. intros x' Hadd. cbv beta.
  apply wlp_bind, wlp_store_p. intros l Hl. cbv beta.
  assert (H2 : ok k net (set_plog l s)).
  { eapply ok_update; [exact Hs|by apply PLog.log_store_head in Hl|done|]. intros Hok. pose proof (ok_certs _ _ Hok _ _ Hx) as Hc.
    destruct (cert_add_digest _ _ _ _ _ _ Hc Hadd) as [Hc' Ep]. eapply local_store; [exact Hok|exact Hx|exact Hl|done|]. intros q. congruence. }
  match goal with |- wlp ?m _ _ => assert (Hm : keeps m) by keep end. exact (Hm k _ _ H2).
Qed.
#[local] Hint Resolve keeps_check_pcerts keeps_serve_waiting : pbft.

Lemma keeps_serve_all rd w : keeps (serve_all_waiting rd w).
Proof. induction w as [|wp w IH]; cbn [serve_all_waiting]; keep. Qed.
#[local] Hint Resolve keeps_serve_all : pbft.
Lemma keeps_add_request r verified : keeps (add_request r verified).
Proof. unfold add_request. keep. Qed.
Lemma keeps_append_request r : keeps (append_request r).
Proof. unfold append_request. keep. Qed.
#[local] Hint Resolve keeps_add_request keeps_append_request : pbft.
Lemma keeps_new_request m : keeps (new_request m).
Proof. unfold new_request. keep. Qed.
#[local] Hint Resolve keeps_new_request : pbft.
Lemma keeps_handle_request m : keeps (handle_request m).
Proof. unfold handle_request. keep. Qed.

Lemma handle_keeps m k net s : ok k net s -> authentic net m -> wlp (handle m) (fun _ s' o => ok k (sends net o) s') s.
Proof.
  intros Hs Ha. destruct m as [r|p|p|c|c slow|]; cbn [handle].
  - by apply keeps_handle_request.
  - by apply keeps_handle_pre_prepare.
  - by apply keeps_handle_prepare.
  - by apply keeps_handle_commit.
  - by apply keeps_handle_checkpoint.
  - by apply keeps_send_new_key.
Qed.

Lemma initial_ok sv net : (forall o, (me, o) ∉ net) -> ok 1 net (initial sv).
Proof.
  intros Hno. split; [cbn; lia|]. right. right. constructor; cbn.
  - split; [|lia]. constructor; cbn; [exists 8; split; [lia|done]|by rewrite length_replicate].
  - intros n x Hx. unfold PLog.fetch in Hx. destruct (PLog.within_range _ _); [|done]. apply lookup_replicate in Hx as [-> _]. apply cert_create.
  - intros m Hm. by apply Hno in Hm.
  - intros m m' Hm. by apply Hno in Hm.
  - intros p Hp. by apply Hno in Hp.
  - intros p q Hp. by apply Hno in Hp.
  - intros n p [Hp|Hp]; by apply Hno in Hp.
Qed.

End replica.
End PBFT.
