(* ===== verification/PBFTGroup.v ===== *)
(** * A PBFT group in one view

    The replicas of [PBFT.v], of which those of [faulty] do what they like: a correct
    replica handles any message at any time, but a prepare that verifies and
    names a correct replica was sent by it, and a pre-prepare that verifies under a correct
    primary has the header of one the primary sent. Requests, commits and checkpoints are
    arbitrary.

    The theorems: the batches that correct replicas execute under one number are the same,
    as long as none of them has changed its keys; but changing the keys makes a backup forget a prepare that
    it has sent, and then two correct replicas can commit different batches. *)

From stdpp Require Import gmap.
From S2P Require Import Prelude Effects Bytes ZlReplica Bitmap Certificate PLog PCert PReqQueue PPrepared PBFT.
Local Open Scope Z_scope.

Module PBFTGroup.
Import PBFT.
Section group.
Context {SV : Type} `{StateOps SV}.
Context (num_replicas num_principals f v : Z).
Context (auth_in mac_in : Prepare -> bool) (pp_auth : Pre_prepare -> bool) (rq_verify : P_Request -> bool).
Context (cm_auth : Commit -> bool) (ck_auth : Checkpoint -> bool).
Context (batch_digest : list Z -> list Z -> list Z -> Z) (choices : Z -> list Z) (room : Z) (loop_fuel : nat).

Local Abbreviation state := (@state SV).

Record system := mk_system { nodes : list state; net : list (nat * P_output) }.

Definition start (sv : SV) : system := mk_system (replicate (Z.to_nat num_replicas) (initial num_principals f sv)) [].

Definition run (i : nat) : P_message -> Effects.M state P_output unit :=
  handle (Z.of_nat i) num_replicas num_principals f v auth_in mac_in pp_auth rq_verify cm_auth ck_auth batch_digest choices room loop_fuel.

Definition fire (x : system) (i : nat) (m : P_message) : option system :=
  s ← nodes x !! i;
  match run i m s with
  | Done _ s' o => Some (mk_system (<[i := s']> (nodes x)) (net x ++ (pair i <$> o)))
  | Fault _ => None
  end.

Fixpoint fires (x : system) (l : list (nat * P_message)) : option system :=
  match l with [] => Some x | (i, m) :: l => y ← fire x i m; fires y l end.

Context (faulty : Z -> bool).

Local Abbreviation authentic i := (PBFT.authentic (Z.of_nat i) num_replicas v auth_in mac_in pp_auth faulty).
Local Abbreviation okn i := (PBFT.ok (Z.of_nat i) num_replicas f v i faulty 1).

(** A correct replica handles an authentic message. *)
Inductive step (x y : system) : Prop :=
| step_handle i m : faulty (Z.of_nat i) = false -> authentic i (net x) m -> fire x i m = Some y -> step x y.

(** The batch [p] was executed under the number [n]. *)
Definition ran (x : system) (i : nat) (n : Z) (p : Pre_prepare) : Prop := (i, P_Execute n p) ∈ net x \/ (i, P_Executed n p) ∈ net x.

(** An executable check that a message is authentic. *)
Definition sent_prepare (l : list (nat * P_output)) (p : Prepare) : bool :=
  existsb (fun jo => match jo with (j, P_Prepare q) => bool_decide (j = Z.to_nat (pr_id p) /\ q = p) | _ => false end) l.
Definition sent_header (l : list (nat * P_output)) (p : Pre_prepare) : bool :=
  existsb (fun jo => match jo with
    | (j, P_Pre_prepare q) => bool_decide (j = Z.to_nat (primary_id num_replicas v)) && (pp_view q =? v) && (pp_seqno q =? pp_seqno p) && (pp_digest q =? pp_digest p)
    | _ => false end) l.
Definition authentic_b (i : nat) (l : list (nat * P_output)) (m : P_message) : bool :=
  match m with
  | M_Prepare p => negb (Prepared.prepare_verify (Z.of_nat i) num_replicas auth_in mac_in p) || faulty (pr_id p) || sent_prepare l p
  | M_Pre_prepare p => negb (pp_auth p) || negb (pp_view p =? v) || faulty (primary_id num_replicas v) || sent_header l p
  | _ => true
  end.

(** A run of the group in which every message is authentic. *)
Fixpoint checked (x : system) (l : list (nat * P_message)) : option system :=
  match l with
  | [] => Some x
  | (i, m) :: l => if negb (faulty (Z.of_nat i)) && authentic_b i (net x) m then y ← fire x i m; checked y l else None
  end.

Lemma authentic_ok i l m : authentic_b i l m = true -> authentic i l m.
Proof.
  destruct m as [r|p|p|c|c slow|]; cbn; try done.
  - intros Hb Ha Hv Hf. rewrite Ha, Hf in Hb. cbn in Hb. rewrite (proj2 (Z.eqb_eq _ _)) in Hb by done. cbn in Hb. unfold sent_header in Hb.
    apply existsb_exists in Hb as ([j o] & Hin & Hb). destruct o as [q| | | | | | | | | | | |]; try done. bsimp. exists q. apply list_elem_of_In in Hin. done.
  - intros Hb Ha Hf. rewrite Ha, Hf in Hb. cbn in Hb. unfold sent_prepare in Hb. apply existsb_exists in Hb as ([j o] & Hin & Hb).
    destruct o as [|q| | | | | | | | | | |]; try done. apply bool_decide_eq_true in Hb as [-> ->]. by apply list_elem_of_In.
Qed.

Lemma checked_steps l : forall x y, checked x l = Some y -> rtc step x y.
Proof.
  induction l as [|[i m] l IH]; intros x y; cbn; [by intros [= <-]|]. destruct (negb _ && _) eqn:E; [|done].
  destruct (fire x i m) as [z|] eqn:Ez; [|done]. cbn. intros Hl. apply andb_true_iff in E as [Hf Ha]. apply negb_true_iff in Hf.
  eapply rtc_l; [|by apply IH]. econstructor; [done|by apply authentic_ok|done].
Qed.

(** ** The group invariant *)

Context (n_replicas : num_replicas = 3 * f + 1) (f_pos : 1 <= f) (n_max : num_replicas <= Max_num_replicas).
Context (few : Z.of_nat (length (filter (fun i => faulty i = true) (seqZ 0 num_replicas))) <= f).

Record group_ok (x : system) : Prop := {
  g_nodes : length (nodes x) = Z.to_nat num_replicas;
  g_ok : forall i s, nodes x !! i = Some s -> okn i (net x) s;
  g_net : forall i o, (i, o) ∈ net x -> is_Some (nodes x !! i)
}.

Lemma start_group_ok sv : group_ok (start sv).
Proof.
  constructor; cbn; [by rewrite length_replicate| |intros i o Ho; by apply elem_of_nil in Ho].
  intros i s Hs. apply lookup_replicate in Hs as [-> _]. apply PBFT.initial_ok; [done|]. intros o Ho. by apply elem_of_nil in Ho.
Qed.

Lemma step_group_ok x y : group_ok x -> step x y -> group_ok y.
Proof.
  intros [Hn Hok Hnet] [i m Hf Ha Hfire]. unfold fire in Hfire. destruct (nodes x !! i) as [s|] eqn:Es; [|done]. cbn in Hfire.
  destruct (run i m s) as [u s' o|e] eqn:Er; [|done]. injection Hfire as <-. apply lookup_lt_Some in Es as Hi.
  assert (Hi' : okn i (net x ++ (pair i <$> o)) s').
  { assert (Hr : is_replica num_replicas (Z.of_nat i) = true) by (unfold is_replica, PCert.is_replica; bsimp; lia).
    pose proof (PBFT.handle_keeps (Z.of_nat i) num_replicas num_principals f v auth_in mac_in pp_auth rq_verify cm_auth ck_auth batch_digest choices room loop_fuel
      i faulty eq_refl Hr ltac:(lia) f_pos m 1 (net x) s (Hok i s Es) Ha) as Hw. unfold wlp in Hw. unfold run in Er. by rewrite Er in Hw. }
  constructor; cbn.
  - by rewrite length_insert.
  - intros j t Hj. destruct (decide (i = j)) as [<-|Hne].
    + rewrite list_lookup_insert_eq in Hj by done. by injection Hj as <-.
    + rewrite list_lookup_insert_ne in Hj by done. destruct (Hok j t Hj) as [Hk Ht]. split; [done|].
      destruct Ht as [?|[?|Ht]]; [left; apply elem_of_app; by left|right; by left|right; right]. eapply PBFT.local_others; [| |exact Ht].
      * intros z Hz. apply elem_of_app. by left.
      * intros z Hz. apply elem_of_app in Hz as [?|Hz]; [done|]. apply list_elem_of_fmap in Hz as (? & [= E] & _). done.
  - intros j z Hz. apply lookup_lt_is_Some_2. rewrite length_insert.
    apply elem_of_app in Hz as [Hz|Hz]; [by eapply lookup_lt_is_Some, Hnet|]. by apply list_elem_of_fmap in Hz as (? & [= -> ->] & _).
Qed.

Lemma reach_ok sv x : rtc step (start sv) x -> group_ok x.
Proof.
  intros Hr. pose proof (start_group_ok sv) as Hs. revert Hs. induction Hr as [|a b c Hab Hbc IH]; intros Ha; [done|]. apply IH. by eapply step_group_ok.
Qed.

(** Two sets of [2f] backups have a correct one in common when the primary is faulty. *)
Lemma quorums_meet (l1 l2 : list Z) (pr : Z) : NoDup l1 -> NoDup l2 -> 2 * f <= Z.of_nat (length l1) -> 2 * f <= Z.of_nat (length l2) ->
  0 <= pr < num_replicas -> faulty pr = true ->
  (forall i, i ∈ l1 \/ i ∈ l2 -> 0 <= i < num_replicas /\ i <> pr) -> exists i, i ∈ l1 /\ i ∈ l2 /\ faulty i = false.
Proof.
  intros N1 N2 L1 L2 Hpr Hf Hin.
  assert (HU : Z.of_nat (length (pr :: l1 ++ filter (fun i => i ∉ l1) l2)) <= num_replicas).
  { assert (Hsub : pr :: l1 ++ filter (fun i => i ∉ l1) l2 ⊆+ seqZ 0 num_replicas).
    { apply NoDup_submseteq.
      - apply NoDup_cons. split; [intros Hp; apply elem_of_app in Hp as [Hp|Hp]; [by destruct (Hin pr ltac:(by left))|apply list_elem_of_filter in Hp as [_ Hp]; by destruct (Hin pr ltac:(by right))]|].
        apply NoDup_app. split; [done|]. split; [|by apply NoDup_filter]. intros i Hi Hi'. by apply list_elem_of_filter in Hi' as [? _].
      - intros i Hi. rewrite elem_of_seqZ. apply elem_of_cons in Hi as [->|Hi]; [lia|].
        apply elem_of_app in Hi as [Hi|Hi]; [destruct (Hin i ltac:(by left)); lia|apply list_elem_of_filter in Hi as [_ Hi]; destruct (Hin i ltac:(by right)); lia]. }
    apply submseteq_length in Hsub. rewrite length_seqZ in Hsub. lia. }
  cbn in HU. rewrite length_app in HU.
  assert (Hsplit : (length (filter (fun i => i ∈ l1) l2) + length (filter (fun i => i ∉ l1) l2) = length l2)%nat).
  { rewrite <- length_app. apply Permutation_length, filter_app_complement. }
  destruct (decide (Exists (fun i => faulty i = false) (filter (fun i => i ∈ l1) l2))) as [He|Hno].
  - apply Exists_exists in He as (i & Hi & Hfi). apply list_elem_of_filter in Hi as [? ?]. eauto.
  - exfalso. assert (Hsub : pr :: filter (fun i => i ∈ l1) l2 ⊆+ filter (fun i => faulty i = true) (seqZ 0 num_replicas)).
    { apply NoDup_submseteq.
      - apply NoDup_cons. split; [|by apply NoDup_filter]. intros Hp. apply list_elem_of_filter in Hp as [Hp _]. by destruct (Hin pr ltac:(by left)).
      - intros i Hi. apply list_elem_of_filter. apply elem_of_cons in Hi as [->|Hi]; [split; [done|]; rewrite elem_of_seqZ; lia|].
        split; [destruct (faulty i) eqn:E; [done|]; exfalso; apply Hno, Exists_exists; eauto|].
        apply list_elem_of_filter in Hi as [Hi _]. rewrite elem_of_seqZ. destruct (Hin i ltac:(by left)). lia. }
    apply submseteq_length in Hsub. cbn in Hsub. lia.
Qed.

Lemma node_local x i o : group_ok x -> (forall k, (k, P_New_key) ∉ net x) -> (forall k s, nodes x !! k = Some s -> PLog.head (plog s) < 2 ^ 31) ->
  (i, o) ∈ net x -> exists s : state, PBFT.local_ok (Z.of_nat i) num_replicas f v i faulty (net x) s.
Proof.
  intros [_ Hok Hnet] Hkey Hsmall Ho. destruct (Hnet i o Ho) as [s Hs]. exists s. destruct (Hok i s Hs) as [_ [Hk|[Hk|?]]]; [by apply Hkey in Hk| |done].
  specialize (Hsmall i s Hs). lia.
Qed.

(** Batches with [2f] prepares under one number are the same. *)
Lemma backed_agree x n d d' : group_ok x -> (forall k, (k, P_New_key) ∉ net x) -> (forall k s, nodes x !! k = Some s -> PLog.head (plog s) < 2 ^ 31) ->
  PBFT.backed num_replicas f v faulty (net x) n d -> PBFT.backed num_replicas f v faulty (net x) n d' -> d = d'.
Proof.
  intros Hx Hkey Hsmall [Hh (l1 & N1 & L1 & P1)] [Hh' (l2 & N2 & L2 & P2)]. destruct (faulty (primary_id num_replicas v)) eqn:Ef.
  - destruct (quorums_meet l1 l2 (primary_id num_replicas v) N1 N2 L1 L2) as (i & H1 & H2 & Hf); [|done| |].
    + unfold primary_id, Prepared.primary_of. apply Z.mod_pos_bound. lia.
    + intros i [Hi|Hi]; [destruct (P1 i Hi) as (Hr & ? & _)|destruct (P2 i Hi) as (Hr & ? & _)]; unfold is_replica, PCert.is_replica in Hr; bsimp; split; (done || lia).
    + destruct (P1 i H1) as (_ & _ & S1). destruct (P2 i H2) as (_ & _ & S2). destruct (S1 Hf) as (m & Hm & _ & En & <- & _). destruct (S2 Hf) as (m' & Hm' & _ & En' & <- & _).
      destruct (node_local x _ _ Hx Hkey Hsmall Hm) as [s Hs]. eapply (PBFT.ok_once _ _ _ _ _ _ _ _ Hs); [done|done|congruence].
  - destruct (Hh eq_refl) as (p & Hp & _ & En & <-). destruct (Hh' eq_refl) as (q & Hq & _ & En' & <-). destruct (node_local x _ _ Hx Hkey Hsmall Hp) as [s Hs].
    f_equal. eapply (PBFT.ok_pp_once _ _ _ _ _ _ _ _ Hs); [done|done|congruence].
Qed.

(** C4. Agreement of PBFT in a view: in a group of [3f + 1] replicas with at most [f] faulty ones, whatever the
    faulty ones (the primary, too) send and in whatever order messages arrive, the batches that correct replicas
    execute under one number, tentatively or committed, have the same digest. It holds in the states in which no
    correct replica has changed its keys and the log of each starts below [2 ^ 31]; prepares and
    pre-prepares that verify and name a correct replica were sent by it. *)
Theorem pbft_agreement sv x i j n p q : rtc step (start sv) x ->
  (forall k, (k, P_New_key) ∉ net x) -> (forall k s, nodes x !! k = Some s -> PLog.head (plog s) < 2 ^ 31) ->
  ran x i n p -> ran x j n q -> pp_digest p = pp_digest q.
Proof.
  intros Hr Hkey Hsmall Hp Hq. pose proof (reach_ok sv x Hr) as Hx.
  assert (Hb : forall k m r, ran x k m r -> PBFT.backed num_replicas f v faulty (net x) m (pp_digest r)).
  { intros k m r Hran. assert (Ho : exists o, (k, o) ∈ net x) by (destruct Hran; eauto). destruct Ho as [o Ho].
    destruct (node_local x k o Hx Hkey Hsmall Ho) as [s Hs]. by apply (PBFT.ok_ran _ _ _ _ _ _ _ _ Hs). }
  apply (backed_agree x n); [done|done|done|by eapply Hb|by eapply Hb].
Qed.
End group.
End PBFTGroup.

(** ** Examples *)

Module PBFTExample.
Import PBFT PBFTGroup.
Local Abbreviation system := (@PBFTGroup.system Z).

(** A service that counts the requests it has executed. *)
#[export] Instance counting : StateOps Z := {|
  exec_command := fun s _ _ _ => (s + 1, ([s], false));
  st_checkpoint := fun s _ => s; st_digest := fun s _ => s; st_discard := fun s _ _ => s; st_rollback := fun s => (s, 0)
|}.

Definition digest_of (a b c : list Z) : Z := foldr (fun x y => x + 1000 * y) 0 (a ++ b ++ c).
Definition yes {A} (_ : A) : bool := true.
Definition req (cid rid : Z) : P_Request := mk_preq cid rid false false 100 (-1) (10 * cid + rid) [].
Definition batch (n d : Z) : P_message := M_Pre_prepare (mk_pp 0 n d [] [d] []).
Definition prep (i n d : Z) : P_message := M_Prepare (mk_prepare 0 n d i false).
Definition comm (i n : Z) : P_message := M_Commit (mk_commit 0 n i).
Definition to (l : list nat) (m : P_message) : list (nat * P_message) := (fun i => (i, m)) <$> l.

(** The groups have two clients, and every message is authentic if the replica it names has sent it or is faulty. *)
Definition first_state (n f : Z) : system := start n (n + 2) f 0.
Definition play (n f : Z) (bad : Z -> bool) : list (nat * P_message) -> option system :=
  checked n (n + 2) f 0 yes yes yes yes yes yes digest_of (fun _ => []) 10000 300%nat bad (first_state n f).
Definition steps (n f : Z) (bad : Z -> bool) : system -> system -> Prop :=
  step n (n + 2) f 0 yes yes yes yes yes yes digest_of (fun _ => []) 10000 300%nat bad.

(** Four replicas, the last one silent: a request of client 4. *)
Definition normal : list (nat * P_message) :=
  to [0; 1; 2]%nat (M_Request (req 4 1)) ++ to [1; 2]%nat (batch 1 41) ++
  [(0%nat, prep 1 1 41); (0%nat, prep 2 1 41); (1%nat, prep 2 1 41); (2%nat, prep 1 1 41);
   (0%nat, comm 1 1); (0%nat, comm 2 1); (1%nat, comm 0 1); (1%nat, comm 2 1)].
Definition last_bad (i : Z) : bool := i =? 3.

(** What the replicas [is] have committed. *)
Definition committed_by (i : nat) (x : system) : list (Z * Z) :=
  omap (fun jo => match jo with (j, P_Executed n p) => if decide (i = j) then Some (n, pp_digest p) else None | _ => None end) (net x).
Definition digests_of (x : option system) (i : nat) : option (list (Z * Z)) := committed_by i <$> x.

Example normal_commits : (digests_of (play 4 1 last_bad normal) 0, digests_of (play 4 1 last_bad normal) 1) = (Some [(1, 41)], Some [(1, 41)]).
Proof. vm_compute. reflexivity. Qed.

(** No keys are changed in the run, and its numbers are small. *)
Definition quiet_b (x : system) : bool :=
  forallb (fun jo => match jo with (_, P_New_key) => false | _ => true end) (net x) && forallb (fun s => PLog.head (plog s) <? 2 ^ 31) (nodes x).

Lemma quiet_b_ok (x : system) : quiet_b x = true -> (forall k, (k, P_New_key) ∉ net x) /\ (forall k s, nodes x !! k = Some s -> PLog.head (plog s) < 2 ^ 31).
Proof.
  unfold quiet_b. rewrite andb_true_iff, !forallb_forall. intros [H1 H2]. split.
  - intros k Hk. apply list_elem_of_In in Hk. by apply H1 in Hk.
  - intros k s Hs. apply Z.ltb_lt, H2. apply list_elem_of_In. by apply list_elem_of_lookup_2 in Hs.
Qed.

Definition normal_end : system := default (first_state 4 1) (play 4 1 last_bad normal).
Definition the_batch : Pre_prepare := mk_pp 0 1 41 [] [41] [].

Lemma in_net (l : list (nat * P_output)) i n p : existsb (fun jo => match jo with (j, P_Executed m q) => bool_decide (i = j /\ n = m /\ p = q) | _ => false end) l = true ->
  (i, P_Executed n p) ∈ l.
Proof.
  intros Hb. apply existsb_exists in Hb as ([j o] & Hin & Hb). destruct o; try done. apply bool_decide_eq_true in Hb as (-> & -> & ->). by apply list_elem_of_In.
Qed.

Lemma pbft_agreement_witness : rtc (steps 4 1 last_bad) (first_state 4 1) normal_end /\
  ran normal_end 0 1 the_batch /\ ran normal_end 1 1 the_batch /\ pp_digest the_batch = pp_digest the_batch.
Proof.
  assert (Hr : rtc (steps 4 1 last_bad) (first_state 4 1) normal_end) by (apply (checked_steps _ _ _ _ _ _ _ _ _ _ _ _ _ _ _ normal); vm_compute; reflexivity).
  assert (H0 : ran normal_end 0 1 the_batch) by (right; apply in_net; vm_compute; reflexivity).
  assert (H1 : ran normal_end 1 1 the_batch) by (right; apply in_net; vm_compute; reflexivity).
  destruct (quiet_b_ok normal_end ltac:(vm_compute; reflexivity)) as [Hk Hs].
  split; [exact Hr|]. split; [exact H0|]. split; [exact H1|].
  apply (pbft_agreement 4 6 1 0 yes yes yes yes yes yes digest_of (fun _ => []) 10000 300%nat last_bad) with (sv := 0) (x := normal_end) (i := 0%nat) (j := 1%nat) (n := 1);
    [reflexivity|lia|unfold Max_num_replicas; lia|vm_compute; discriminate|exact Hr|exact Hk|exact Hs|exact H0|exact H1].
Defined.

(** Seven replicas; the primary 0 and replica 6 are faulty. The primary sends one batch to replicas 1 and 2 and another to 3 and 4.
    Replica 5 has three prepares for the first when it gets the second: it sends a prepare for it, which its own certificate refuses. After
    it has changed its keys, it accepts the first batch and sends a prepare for that too. *)
Definition bad_primary (i : Z) : bool := (i =? 0) || (i =? 6).
Definition divergence : list (nat * P_message) :=
  to [1; 2; 3; 4; 5]%nat (M_Request (req 7 1)) ++ to [1; 2; 3; 4; 5]%nat (M_Request (req 8 1)) ++
  to [1; 2]%nat (batch 1 71) ++ to [3; 4]%nat (batch 1 81) ++
  [(5%nat, prep 1 1 71); (5%nat, prep 2 1 71); (5%nat, prep 6 1 71); (5%nat, batch 1 81); (5%nat, M_New_key_timer); (5%nat, batch 1 71)] ++
  to [1; 2]%nat (prep 5 1 71) ++ to [1; 2]%nat (prep 6 1 71) ++ [(1%nat, prep 2 1 71); (2%nat, prep 1 1 71)] ++
  to [3; 4]%nat (prep 5 1 81) ++ to [3; 4]%nat (prep 6 1 81) ++ [(3%nat, prep 4 1 81); (4%nat, prep 3 1 81)] ++
  to [1; 3]%nat (comm 2 1) ++ to [1; 3]%nat (comm 4 1) ++ to [1; 3]%nat (comm 6 1) ++ [(1%nat, comm 3 1); (3%nat, comm 1 1)].
Definition diverged : system := default (first_state 7 2) (play 7 2 bad_primary divergence).

(** Changing keys breaks the agreement: [send_new_key] clears the pre-prepare of a certificate that is not complete, and a prepare
    that was sent but refused by the replica's own certificate ([add_mine] is not checked) is not remembered there. With two faulty
    replicas of seven, one of them the primary, the replica then sends a second prepare for the same number, and two correct replicas
    commit different batches under the number 1. *)
Example refresh_diverges : rtc (steps 7 2 bad_primary) (first_state 7 2) diverged /\
  length (filter (fun i => bad_primary i = true) (seqZ 0 7)) = 2%nat /\
  committed_by 1 diverged = [(1, 71)] /\ committed_by 3 diverged = [(1, 81)].
Proof.
  split; [|vm_compute; done]. apply (checked_steps _ _ _ _ _ _ _ _ _ _ _ _ _ _ _ divergence). vm_compute. reflexivity.
Qed.

(** Replica 5 of seven, with three prepares for the batch 71. *)
Abbreviation handle5 := (handle 5 7 9 2 0 yes yes yes yes yes yes digest_of (fun _ => []) 10000 300%nat).
Definition choice_batch (d : Z) : Pre_prepare := mk_pp 0 1 d [] [] [d].
Definition busy : @state Z :=
  match for_each [1; 2; 6] (fun i => handle5 (prep i 1 71)) (initial 9 2 0) with Done _ s _ => s | Fault _ => initial 9 2 0 end.
Definition busy_cert : Prepared.t := default (Prepared.create 2) (PLog.fetch (plog busy) 1).

Lemma busy_next_up : next_up 0 yes yes digest_of (choice_batch 81) busy_cert busy.
Proof.
  constructor; try (vm_compute; done). constructor; [|vm_compute; done]. exists 8. vm_compute. done.
Qed.

Lemma busy_taken : taken 0 (choice_batch 81) busy_cert.
Proof. constructor; try (vm_compute; done). exists (mk_prepare 0 1 71 1 false). vm_compute. done. Qed.

Lemma rekey_ends : match handle5 (M_Pre_prepare (choice_batch 81)) busy with
  | Done _ s1 _ => exists s2 o, handle5 M_New_key_timer s1 = Done tt s2 o | Fault _ => False end.
Proof. vm_compute. by eexists _, _. Qed.

Lemma rekey_from s1 o1 : handle5 (M_Pre_prepare (choice_batch 81)) busy = Done tt s1 o1 ->
  exists s2 o, handle5 M_New_key_timer s1 = Done tt s2 o.
Proof. intros H. pose proof rekey_ends as H'. rewrite H in H'. exact H'. Qed.

Lemma refresh_forgets_witness : exists s1 s2 s3 o,
  handle5 (M_Pre_prepare (choice_batch 81)) busy = Done tt s1 [P_Prepare (mk_prepare 0 1 81 5 false)] /\
  handle5 M_New_key_timer s1 = Done tt s2 o /\
  handle5 (M_Pre_prepare (choice_batch 71)) s2 = Done tt s3 [P_Prepare (mk_prepare 0 1 71 5 false)].
Proof.
  destruct (refresh_forgets 5 7 9 2 0 yes yes yes yes yes yes digest_of (fun _ => []) 10000 300%nat (choice_batch 81) (choice_batch 71) busy_cert busy
    ltac:(discriminate) busy_next_up busy_taken) as (s1 & H1 & H2); [vm_compute; reflexivity|vm_compute; discriminate|vm_compute; reflexivity..|].
  destruct (rekey_from _ _ H1) as (s2 & o & H3). destruct (H2 s2 o H3) as [s3 H4].
  exists s1, s2, s3, o. split; [exact H1|]. split; [exact H3|exact H4].
Defined.

(** A pre-prepare that nobody has authenticated, with a request of the client 9 of a group with six principals. *)
Definition stray : Pre_prepare := mk_pp 0 1 0 [mk_preq 9 1 false false 10 (-1) 5 []] [] [].
Definition no {A} (_ : A) : bool := false.

Lemma bad_request_crashes_witness :
  handle_pre_prepare 1 4 6 1 0 no no yes digest_of (fun _ => []) 10000 300%nat stray (initial 6 1 0) = Fault AssertFailed.
Proof.
  eapply (bad_request_crashes 1 4 6 1 0 no no yes digest_of (fun _ => []) 10000 300%nat stray);
    [reflexivity|reflexivity|reflexivity|right; vm_compute; discriminate|split; vm_compute; [reflexivity|discriminate]|vm_compute; reflexivity|vm_compute; reflexivity|vm_compute; reflexivity|vm_compute; reflexivity].
Defined.

(** A signed request of the faulty replica 3 whose command is not eight bytes long: [execute_prepared] leaves its reply unfinished, and
    sending that reply when the batch is committed fails an assertion, here at replica 0 and in the same way at every correct replica. *)
Definition short_recovery : P_Request := mk_preq 3 1 false true 100 (-1) 31 [0].
Definition recovery_run : list (nat * P_message) :=
  to [0; 1; 2]%nat (M_Request short_recovery) ++ to [1; 2]%nat (batch 1 31) ++
  [(0%nat, prep 1 1 31); (0%nat, prep 2 1 31); (1%nat, prep 2 1 31); (2%nat, prep 1 1 31); (0%nat, comm 1 1)].

Example short_recovery_crashes :
  match play 4 1 last_bad recovery_run with
  | Some x => match nodes x !! 0%nat with
              | Some s => run 4 6 1 0 yes yes yes yes yes yes digest_of (fun _ => []) 10000 300%nat 0 (comm 2 1) s = Fault AssertFailed
              | None => False
              end
  | None => False
  end.
Proof. vm_compute. reflexivity. Qed.
End PBFTExample.
