(* ===== verification/ZlClient.v ===== *)
(** * The ZLight client

    [src/protocols/zlight/zl_Client.cc] with [zl_Request::authenticate],
    [zl_Node::new_rid] and [zlight_libbyz.cc].

    [recv_reply] waits: it is a function of the packets and timer expiries that
    arrive, in order, and returns [Waiting] when they run out.  A packet carries
    the second at which it is received (the clock that [new_tstamp] reads), and
    no reply when its conversion fails.  The build has neither [CLIENT_MULTICAST]
    nor [CLIENT_SENDS_NOTIFICATION] nor [ADJUST_RTIMEOUT].  MD5 and the MACs are
    parameters. *)

From S2P Require Import Prelude Effects Bitmap Certificate Reply ReqHistory ZlReplica.
Local Open Scope Z_scope.
Local Open Scope handler_scope.

#[local] Existing Instance Reply.Reply_CertMsg.

(** ** Request identifiers *)

Module Rid.

(** [cur_rid = tstamp << 32]; the seconds are at most a signed word. *)
Definition new_tstamp (now : Z) : Z := wrapu 64 (Z.shiftl now 32).

Definition new_rid (now cur_rid : Z) : Z :=
  wrapu 64 ((if wrapu 32 cur_rid =? 4294967295 then new_tstamp now else cur_rid) + 1).

(** Identifiers increase: a new one is greater than the last, as long as a
    client that has used up the identifiers of its start second only asks for
    one in a later second. *)
Theorem new_rid_increases now cur : 0 <= cur < 2 ^ 63 -> 0 <= now < 2 ^ 31 -> (wrapu 32 cur = 4294967295 -> cur / 2 ^ 32 < now) ->
  cur < new_rid now cur < 2 ^ 63 /\ 0 < wrapu 32 (new_rid now cur).
Proof.
  intros Hc Hn Hw. unfold new_rid, new_tstamp. assert (Hd := Z.div_mod cur (2 ^ 32) ltac:(lia)). assert (Hm := Z.mod_pos_bound cur (2 ^ 32) ltac:(lia)).
  rewrite Z.shiftl_mul_pow2 by lia. destruct (Z.eqb_spec (wrapu 32 cur) 4294967295) as [E|E].
  - specialize (Hw E). rewrite (wrapu_id 64 (now * _)) by (unfold in_u; lia). rewrite wrapu_id by (unfold in_u; lia). unfold wrapu in *.
    split; [lia|]. rewrite Z.add_comm, Z.mod_add by lia. rewrite Z.mod_small by lia. lia.
  - rewrite wrapu_id by (unfold in_u; unfold wrapu in E; lia). unfold wrapu in *. split; [lia|].
    rewrite <- Zplus_mod_idemp_l. rewrite Z.mod_small by lia. lia.
Qed.

Lemma new_rid_increases_witness : 4294967295 < new_rid 7 4294967295 < 2 ^ 63 /\ 0 < wrapu 32 (new_rid 7 4294967295).
Proof. apply new_rid_increases; [lia|lia|]. intros _. reflexivity. Defined.

End Rid.

(** What waiting for a reply gives; [Returned None] is a null pointer. *)
Inductive outcome (R : Type) := Waiting | Returned (r : option R).
Arguments Waiting {R}.
Arguments Returned {R}.

(** Requests sent: to one replica, or to [zl_All_replicas]. *)
Inductive send_output (Q : Type) := Send_to (dest : Z) (q : Q) | Send_all (q : Q).
Arguments Send_to {Q}.
Arguments Send_all {Q}.

(** What arrives while a client waits. *)
Inductive input (R : Type) := Packet (now : Z) (m : option R) | Tick.
Arguments Packet {R}.
Arguments Tick {R}.

(** ** The ZLight client *)

Module ZlClient.
Section client.
Context (node_id num_replicas max_faulty primary : Z).
Context (MD5 : list Z -> Z) (MD5_request : Z -> Z -> list Z -> Z) (mac_ok : Reply.t -> bool).

Record state := mk_state {
  cur_rid : Z; out_rid : Z; out_req : option zl_Request; n_retrans : Z; rtimer : timer_state; r_reps : Certificate.t Reply.t
}.

Definition set_cur_rid (x : Z) (s : state) : state := mk_state x (out_rid s) (out_req s) (n_retrans s) (rtimer s) (r_reps s).
Definition set_out_rid (x : Z) (s : state) : state := mk_state (cur_rid s) x (out_req s) (n_retrans s) (rtimer s) (r_reps s).
Definition set_out_req (x : option zl_Request) (s : state) : state := mk_state (cur_rid s) (out_rid s) x (n_retrans s) (rtimer s) (r_reps s).
Definition set_n_retrans (x : Z) (s : state) : state := mk_state (cur_rid s) (out_rid s) (out_req s) x (rtimer s) (r_reps s).
Definition set_rtimer (x : timer_state) (s : state) : state := mk_state (cur_rid s) (out_rid s) (out_req s) (n_retrans s) x (r_reps s).
Definition set_r_reps (x : Certificate.t Reply.t) (s : state) : state := mk_state (cur_rid s) (out_rid s) (out_req s) (n_retrans s) (rtimer s) x.

Local Abbreviation M := (Effects.M state (send_output zl_Request)).

(** The constructor: [new_tstamp] in the node, then the first identifier. *)
Definition initial (now : Z) : state :=
  let t := Rid.new_tstamp now in
  let r := Rid.new_rid now t in
  mk_state r r None 0 stopped (Certificate.create (3 * max_faulty + 1)).

(** [out_rid = new_rid()]. *)
Definition renew (now : Z) : M unit :=
  modify (fun s => let r := Rid.new_rid now (cur_rid s) in set_out_rid r (set_cur_rid r s)).

Definition auth_size : Z := num_replicas * 8 + 8.
Definition Max_message_size : Z := 60000.

(** [authenticate(act_len, read_only)]; the bytes of the command are those the
    caller stored.  The field [command_size] is a [short]: with a negative one
    the digest is asked of [12 + command_size] bytes, an unsigned number beyond
    any message. *)
Definition authenticate (r : zl_Request) (act_len : Z) (read_only : bool) : M zl_Request :=
  assert_ (wrapu 32 act_len <=? Max_message_size - 40 - auth_size) ;;;
  if 12 + to_signed 16 act_len <? 0 then fail OutOfBounds else
  let extra := if read_only then Z.lor (Z.land (q_extra r) (-2)) 1 else Z.land (q_extra r) (-2) in
  let cmd := take (Z.to_nat act_len) (q_command r) in
  ret (mk_request (q_cid r) (q_rid r) (MD5_request (q_cid r) (q_rid r) cmd) extra cmd (ALIGNED_SIZE (40 + act_len + auth_size))).

Definition with_rid (x : Z) (r : zl_Request) : zl_Request := mk_request (q_cid r) x (q_od r) (q_extra r) (q_command r) (q_size r).

Definition send_request (req : zl_Request) (size : Z) (ro : bool) : M bool :=
  o <- gets out_req ;;
  match o with
  | Some _ => ret false
  | None =>
    rid <- gets out_rid ;;
    req <- authenticate (with_rid rid req) size ro ;;
    modify (set_out_req (Some req)) ;;;
    modify (fun s => set_r_reps (Certificate.clear (r_reps s)) s) ;;;
    modify (set_n_retrans 0) ;;;
    emit (Send_to primary req) ;;;
    modify (fun s => set_rtimer (timer_start (rtimer s)) s) ;;;
    ret true
  end.

Definition retransmit : M unit :=
  o <- gets out_req ;;
  (match o with
   | Some req =>
     modify (fun s => set_n_retrans (n_retrans s + 1) s) ;;;
     k <- gets n_retrans ;;
     if Z.odd (q_extra req) || (1 <? k) then emit (Send_all req) else emit (Send_to primary req)
   | None => ret tt
   end) ;;;
  modify (fun s => set_rtimer (timer_restart (rtimer s)) s).

(** [handle_timeouts], when the deadline of the timer has passed. *)
Definition tick : M unit :=
  t <- gets rtimer ;;
  match t with
  | running => modify (set_rtimer expired) ;;; retransmit
  | _ => ret tt
  end.

Abbreviation verify := (Reply.verify MD5 mac_ok num_replicas).

(** One turn of the loop of [recv_reply] with the reply [rep]. *)
Definition recv_one (now : Z) (rep : Reply.t) : M (option Reply.t) :=
  rid <- gets out_rid ;;
  if negb (Reply.rid rep =? rid) then ret None
  else if Reply.should_switch rep then
    modify (fun s => set_rtimer (timer_stop (rtimer s)) s) ;;;
    modify (fun s => set_r_reps (Certificate.clear (r_reps s)) s) ;;;
    modify (set_out_req None) ;;;
    renew now ;;;
    ret (Some rep)
  else
    c <- gets r_reps ;;
    in_bounds ((Reply.replica rep =? node_id) || Reply.reads_inside num_replicas rep) ;;;
    r <- of_option AssertFailed (Certificate.add node_id num_replicas verify c rep) ;;
    let c : Certificate.t Reply.t := r.1 in
    modify (set_r_reps c) ;;;
    if negb r.2 then ret None
    else if Certificate.is_complete c then
      v <- of_option NullDeref (Certificate.cvalue c) ;;
      if Reply.full v then
        (if Reply.should_switch v then ret tt else renew now) ;;;
        modify (fun s => set_rtimer (timer_stop (rtimer s)) s) ;;;
        modify (fun s => set_r_reps (Certificate.clear (r_reps s)) s) ;;;
        modify (set_out_req None) ;;;
        ret (Some v)
      else ret None
    else ret None.

Fixpoint recv_loop (ins : list (input Reply.t)) : M (outcome Reply.t) :=
  match ins with
  | [] => ret Waiting
  | Tick :: ins' => tick ;;; recv_loop ins'
  | Packet _ None :: ins' => recv_loop ins'
  | Packet now (Some rep) :: ins' =>
    r <- recv_one now rep ;;
    match r with Some v => ret (Returned (Some v)) | None => recv_loop ins' end
  end.

Definition recv_reply (ins : list (input Reply.t)) : M (outcome Reply.t) :=
  o <- gets out_req ;;
  match o with None => ret (Returned None) | Some _ => recv_loop ins end.

(** ** [zlight_libbyz] *)

(** What a call gives its caller: the value returned, the reply bytes, and the
    value assigned to [next_protocol_instance]; [Blocked] still waits. *)
Inductive invoke_result := Blocked | Result (retval : Z) (contents : list Z) (next : option protocols_e).

Definition zlight_send_request (req : zl_Request) (size : Z) (ro : bool) : M Z :=
  req <- authenticate req size ro ;;
  b <- send_request req size ro ;;
  ret (if (b : bool) then 0 else -1).

Definition zlight_recv_reply (ins : list (input Reply.t)) : M invoke_result :=
  r <- recv_reply ins ;;
  ret match r with
      | Waiting => Blocked
      | Returned None => Result (-1) [] None
      | Returned (Some rep) =>
        if Reply.should_switch rep then Result (-127) [] (Some (Reply.instance_id rep))
        else Result 0 (take (Z.to_nat (Reply.reply_size rep)) (Reply.body rep)) None
      end.

Definition zlight_invoke (req : zl_Request) (size : Z) (ro : bool) (ins : list (input Reply.t)) : M invoke_result :=
  k <- zlight_send_request req size ro ;;
  if k =? -1 then ret (Result (-1) [] None) else zlight_recv_reply ins.

(** ** What a returned reply means *)

Hypothesis replicas_ok : num_replicas = 3 * max_faulty + 1 /\ 0 < num_replicas <= Max_num_replicas.
Hypothesis client_id_ok : num_replicas <= node_id.

Abbreviation cert_inv := (Certificate.inv num_replicas verify).

Lemma nrep_ok : 0 <= num_replicas <= Max_num_replicas.
Proof. lia. Qed.

(** Between calls: no request is outstanding, the certificate is well formed. *)
Record idle (s : state) : Prop := {
  id_req : out_req s = None;
  id_rid : cur_rid s = out_rid s;
  id_cert : exists acc, cert_inv (r_reps s) acc;
  id_complete : Certificate.complete (r_reps s) = 3 * max_faulty + 1
}.

(** While waiting: the accepted replies [acc] are answers to the request. *)
Record waiting (rid : Z) (P : Reply.t -> Prop) (acc : list Reply.t) (s : state) : Prop := {
  wt_cert : cert_inv (r_reps s) acc;
  wt_complete : Certificate.complete (r_reps s) = 3 * max_faulty + 1;
  wt_rid : out_rid s = rid;
  wt_cur : cur_rid s = rid;
  wt_acc : Forall (fun m => P m /\ Reply.rid m = rid /\ Reply.should_switch m = false) acc
}.

(** A reply backed by every replica. *)
Definition backed (rid : Z) (P : Reply.t -> Prop) (v : Reply.t) : Prop :=
  Reply.full v = true /\ Reply.rid v = rid /\ forall i, 0 <= i < num_replicas ->
    exists m, P m /\ Reply.replica m = i /\ verify m = true /\ Reply.rid m = rid /\ (Reply.full m = true -> Reply.key m = Reply.key v).

(** What one reply does, at [now]: a returned one renews the identifier. *)
Definition received (rid now : Z) (P : Reply.t -> Prop) (m : Reply.t) (acc : list Reply.t) (r : option Reply.t) (s' : state) : Prop :=
  match r with
  | Some v => idle s' /\ out_rid s' = Rid.new_rid now rid /\ P v /\ Reply.rid v = rid /\ (Reply.should_switch v = false -> backed rid P v)
  | None => waiting rid P acc s' \/ waiting rid P (acc ++ [m]) s'
  end.

Lemma idle_clear s acc x t n : cert_inv (r_reps s) acc -> Certificate.complete (r_reps s) = 3 * max_faulty + 1 ->
  idle (mk_state x x None n t (Certificate.clear (r_reps s))).
Proof.
  intros Hi Hc. constructor; cbn; [done|done| |].
  - rewrite (Certificate.clear_create _ _ _ _ Hi). eexists. apply Certificate.create_inv.
  - done.
Qed.

Lemma complete_backed rid P c acc v : cert_inv c acc -> Certificate.complete c = 3 * max_faulty + 1 -> Certificate.is_complete c = true ->
  Certificate.value c = Some v -> Reply.full v = true -> Forall (fun m => P m /\ Reply.rid m = rid /\ Reply.should_switch m = false) acc ->
  P v /\ Reply.rid v = rid /\ Reply.should_switch v = false /\ backed rid P v.
Proof.
  intros Hi Hc Hd Hv Hf Ha. rewrite Forall_forall in Ha. assert (Hval := Certificate.inv_value _ _ _ _ Hi). rewrite Hv in Hval. destruct Hval as [Hin Hall].
  destruct (Ha v Hin) as (HP & Hr & Hs). split; [done|]. split; [done|]. split; [done|]. split; [done|]. split; [done|].
  intros i Hir. unfold Certificate.is_complete in Hd. bsimp.
  destruct (Certificate.inv_complete_all _ _ nrep_ok c acc Hi ltac:(lia) i Hir) as (m & Hm & <-). destruct (Ha m Hm) as (HPm & Hrm & _).
  exists m. split; [done|]. split; [done|]. split; [by apply (Certificate.inv_acc _ _ _ _ Hi)|]. split; [done|].
  intros Hfm. destruct (Hall m Hm Hfm) as [_ Hmm]. symmetry. by apply Reply.matches_full.
Qed.

Lemma recv_one_wp rid P acc now m s : waiting rid P acc s -> P m -> (Reply.rid m = rid -> Reply.reads_inside num_replicas m = true) ->
  wp (recv_one now m) (fun r s' _ => received rid now P m acc r s') s.
Proof.
  intros [Hi Hc Hr Hcur Ha] HP Hin. unfold recv_one. wp_steps. case_bool; bsimp; [wp_steps; by left|]. case_bool.
  - unfold renew. wp_steps. split; [by eapply idle_clear|]. split; [cbn; by rewrite Hcur|]. split; [done|]. split; [done|]. congruence.
  - wp_steps. apply wp_in_bounds; [by rewrite Hin, orb_true_r by congruence|]. wp_steps. destruct (Certificate.add_inv node_id num_replicas verify nrep_ok Reply.matches_refl _ _ m Hi) as (c' & b & Hadd & Hc' & Hi').
    eapply wp_of_option; [exact Hadd|]. cbn [fst snd]. rewrite Hc in Hc'. wp_steps. destruct b; cbn [negb]; [|wp_steps; by left].
    assert (Ha' : Forall (fun m => P m /\ Reply.rid m = out_rid s /\ Reply.should_switch m = false) (acc ++ [m])).
    { apply Forall_app. split; [done|by constructor]. }
    case_bool; [|wp_steps; by right]. assert (Hv := Certificate.inv_value _ _ _ _ Hi'). unfold Certificate.cvalue.
    destruct (Certificate.value c') as [v|] eqn:Ev; [|by destruct acc]. wp_steps. eapply wp_of_option; [done|].
    case_bool; [|wp_steps; by right].
    destruct (complete_backed (out_rid s) P c' _ v Hi' Hc' ltac:(done) Ev ltac:(done) Ha') as (HPv & Hrv & Hsv & Hbv). rewrite Hsv. unfold renew. wp_steps.
    split; [by apply (idle_clear (set_r_reps c' s) (acc ++ [m]))|]. split; [cbn; by rewrite Hcur|done].
Qed.

Lemma tick_wp rid P acc s : waiting rid P acc s -> wp tick (fun _ s' _ => waiting rid P acc s') s.
Proof.
  intros [Hi Hc Hr Hcur Ha]. unfold tick, retransmit. wp_steps. destruct (rtimer s); [by wp_steps| |by wp_steps]. wp_steps.
  cbn [out_req set_rtimer]. destruct (out_req s); wp_steps; [case_bool; wp_steps|]; done.
Qed.

(** The replies that arrive. *)
Definition arrived (ins : list (input Reply.t)) (m : Reply.t) : Prop := exists now, Packet now (Some m) ∈ ins.

(** The reply that ends a call came at a time [now], and the identifier is renewed then. *)
Definition renewed (N : Z -> Prop) (rid rid' : Z) : Prop := exists now, N now /\ rid' = Rid.new_rid now rid.

(** No reply to [rid] announces more bytes than its message holds. *)
Definition inside (rid : Z) (ins : list (input Reply.t)) : Prop :=
  forall m, arrived ins m -> Reply.rid m = rid -> Reply.reads_inside num_replicas m = true.

(** The seconds at which replies arrive. *)
Definition seconds (ins : list (input Reply.t)) (now : Z) : Prop := exists m, Packet now (Some m) ∈ ins.

Lemma recv_loop_wp rid P N ins : (forall m, arrived ins m -> P m) -> inside rid ins -> (forall now, seconds ins now -> N now) ->
  forall acc s, waiting rid P acc s ->
  wp (recv_loop ins) (fun r s' _ => match r with
    | Waiting => exists acc', waiting rid P acc' s'
    | Returned None => False
    | Returned (Some v) => idle s' /\ renewed N rid (out_rid s') /\ P v /\ Reply.rid v = rid /\ (Reply.should_switch v = false -> backed rid P v)
    end) s.
Proof.
  induction ins as [|x ins IH]; intros HP Hin HN acc s Hw; cbn [recv_loop]; [wp_steps; by exists acc|].
  assert (HP' : forall m, arrived ins m -> P m) by (intros m [now Hm]; apply HP; exists now; set_solver).
  assert (Hin' : inside rid ins) by (intros m [now Hm]; apply Hin; exists now; set_solver).
  assert (HN' : forall now, seconds ins now -> N now) by (intros now [m Hm]; apply HN; exists m; set_solver).
  destruct x as [now [m|]|]; [|by eapply IH|].
  - assert (Hm : arrived (Packet now (Some m) :: ins) m) by (exists now; set_solver).
    wp_steps. eapply wp_mono; [by eapply recv_one_wp; [done|apply HP|apply Hin]|]. intros [v|] s1 o1 H1.
    + wp_steps. destruct H1 as (? & ? & ?). split; [done|]. split; [|done]. exists now. split; [|done]. apply HN. exists m. set_solver.
    + destruct H1 as [H1|H1]; (eapply wp_mono; [by eapply IH|done]).
  - wp_steps. eapply wp_mono; [by eapply tick_wp|]. intros ? s1 o1 H1. eapply wp_mono; [exact (IH HP' Hin' HN' _ _ H1)|done].
Qed.

(** The length the assertion of [authenticate] allows, and its field holds. *)
Definition size_fits (size : Z) : Prop := 0 <= size <= Max_message_size - 40 - auth_size /\ size < 2 ^ 15.

Lemma authenticate_wp r size ro (Q : zl_Request -> state -> list (send_output zl_Request) -> Prop) s : size_fits size ->
  (forall r', q_rid r' = q_rid r -> q_command r' = take (Z.to_nat size) (q_command r) -> Q r' s []) -> wp (authenticate r size ro) Q s.
Proof.
  intros [[H0 Hf] H15] HQ. unfold authenticate. wp_steps. unfold auth_size, Max_message_size in *. rewrite wrapu_id by (unfold in_u; lia).
  rewrite (proj2 (Z.leb_le _ _)) by lia. wp_steps. rewrite to_signed_id by (unfold in_s; lia).
  rewrite (proj2 (Z.ltb_ge _ _)) by lia. wp_steps. by apply HQ.
Qed.

(** Commands of 32768 bytes and more, which the assertion allows, make
    [authenticate] read outside the message. *)
Theorem large_command_crashes r size ro s : 2 ^ 15 <= size <= Max_message_size - 40 - auth_size ->
  0 <= num_replicas -> authenticate r size ro s = Fault OutOfBounds.
Proof.
  clear replicas_ok client_id_ok. intros Hs Hn. unfold authenticate, bind, assert_. unfold auth_size, Max_message_size in *.
  rewrite wrapu_id by (unfold in_u; lia). rewrite (proj2 (Z.leb_le _ _)) by lia. cbn [ret].
  unfold to_signed. rewrite wrapu_id by (unfold in_u; lia). rewrite (proj2 (Z.ltb_ge size _)) by lia.
  by rewrite (proj2 (Z.ltb_lt _ _)) by lia.
Qed.

(** The request goes to the primary, under the identifier [rid]. *)
Definition request_sent (req : zl_Request) (size rid : Z) (o : list (send_output zl_Request)) : Prop :=
  exists q o', o = Send_to primary q :: o' /\ q_rid q = rid /\ q_command q = take (Z.to_nat size) (q_command req).

Lemma zlight_invoke_spec s req size ro ins : idle s -> size_fits size -> inside (out_rid s) ins ->
  wp (zlight_invoke req size ro ins) (fun r s' o => request_sent req size (out_rid s) o /\ match r with
    | Blocked => True
    | Result k contents next => idle s' /\ renewed (seconds ins) (out_rid s) (out_rid s') /\
      ((k = 0 /\ next = None /\ exists v, backed (out_rid s) (arrived ins) v /\ arrived ins v /\
        contents = take (Z.to_nat (Reply.reply_size v)) (Reply.body v)) \/
       (k = -127 /\ exists v, arrived ins v /\ Reply.rid v = out_rid s /\ Reply.should_switch v = true /\ next = Some (Reply.instance_id v)))
    end) s.
Proof.
  intros [Hreq Hrid (acc & Hi) Hc] Hf Hin. unfold zlight_invoke, zlight_send_request. wp_steps. apply authenticate_wp; [done|]. intros r1 _ Ec1.
  unfold send_request. wp_steps. rewrite Hreq. wp_steps. apply authenticate_wp; [done|]. intros r2 Er2 Ec2. wp_steps. cbn [Z.eqb].
  assert (Hs : forall o, request_sent req size (out_rid s) (Send_to primary r2 :: o)).
  { intros o. exists r2, o. split; [done|]. split; [exact Er2|]. rewrite Ec2. cbn [with_rid q_command]. by rewrite Ec1, take_take, Nat.min_id. }
  unfold zlight_recv_reply, recv_reply. wp_steps.
  match goal with |- wp _ _ ?t => assert (Hw : waiting (out_rid s) (arrived ins) [] t) end.
  { constructor; cbn; [|done..]. rewrite (Certificate.clear_create _ _ _ _ Hi). apply Certificate.create_inv. }
  eapply wp_mono; [eapply recv_loop_wp with (N := seconds ins); [| | |exact Hw]; done|]. intros [|[v|]] s' o' H; wp_steps; [by split; [apply Hs|]| |done].
  split; [apply Hs|]. destruct H as (Hid & Hn & HP & Hr & Hb). destruct (Reply.should_switch v) eqn:Es; (split; [done|]; split; [done|]).
  - right. split; [done|]. by exists v.
  - left. split; [done|]. split; [done|]. exists v. split; [by apply Hb|]. done.
Qed.

(** C20. A call on an idle client, with a command that fits the message and its length
    field, sends the request to the primary under the current identifier, and never
    faults as long as no reply to that identifier announces more bytes than it holds.  It returns 0 only with a full reply that carries that
    identifier and that every replica backs: each of them has sent an
    authenticated reply to that identifier, and those that carry the result
    agree with it.  Otherwise it returns -127, naming the protocol of a reply to that identifier with the switch flag.
    A call that returns leaves the client idle, with the identifier renewed. *)
Theorem zlight_invoke_sound s req size ro ins : idle s -> size_fits size -> inside (out_rid s) ins ->
  wp (zlight_invoke req size ro ins) (fun r s' o => request_sent req size (out_rid s) o /\ match r with
    | Blocked => True
    | Result k contents next => idle s' /\ renewed (seconds ins) (out_rid s) (out_rid s') /\
      ((k = 0 /\ next = None /\ exists v, backed (out_rid s) (arrived ins) v /\ arrived ins v /\
        contents = take (Z.to_nat (Reply.reply_size v)) (Reply.body v)) \/
       (k = -127 /\ exists v, arrived ins v /\ Reply.rid v = out_rid s /\ Reply.should_switch v = true /\ next = Some (Reply.instance_id v)))
    end) s.
Proof. intros Hi Hf Hin. by apply zlight_invoke_spec. Qed.

(** ** Completion *)

(** Replies of correct replicas: authenticated, and those with a result agree. *)
Definition good_reply (rid : Z) (k : Z * Z * Z * Z * Z) (m : Reply.t) : Prop :=
  Reply.rid m = rid /\ Reply.should_switch m = false /\ verify m = true /\ Reply.reads_inside num_replicas m = true /\
  (Reply.full m = true -> Reply.key m = k).

Definition finished (c : Certificate.t Reply.t) : Prop :=
  Certificate.is_complete c = true /\ exists v, Certificate.value c = Some v /\ Reply.full v = true.

Lemma good_accepted rid k c acc m : cert_inv c acc -> Forall (good_reply rid k) acc -> good_reply rid k m ->
  exists c', Certificate.add node_id num_replicas verify c m = Some (c', true) /\ Certificate.complete c' = Certificate.complete c /\ cert_inv c' (acc ++ [m]).
Proof.
  intros Hi Ha (_ & _ & Hv & _ & Hk). destruct (Certificate.add_inv node_id num_replicas verify nrep_ok Reply.matches_refl c acc m Hi) as (c' & b & Hadd & Hc & Hi').
  enough (b = true) as -> by (by exists c'). assert (Hr : Certificate.is_replica num_replicas (Reply.replica m) = true).
  { unfold Reply.verify in Hv. by destruct (Certificate.is_replica _ _). }
  revert Hadd. unfold Certificate.add. cbn [msg_id Reply.Reply_CertMsg]. rewrite Hv, Hr. unfold Certificate.is_replica in Hr. bsimp.
  rewrite (proj2 (Z.eqb_neq _ _)) by lia. cbn [andb].
  assert (Hm : Certificate.matches (Certificate.value c) m = true).
  { unfold Certificate.matches. assert (Hval := Certificate.inv_value _ _ _ _ Hi). destruct (Certificate.value c) as [v|]; [|done]. destruct Hval as [Hin _].
    destruct (proj1 (Forall_forall _ _) Ha v Hin) as (_ & _ & _ & _ & Hkv). cbn. destruct (Reply.full v) eqn:Fv, (Reply.full m) eqn:Fm.
    - apply Reply.matches_full; [done..|]. by rewrite Hkv, Hk.
    - unfold Reply.matches. unfold Reply.full in Fm. bsimp. rewrite (proj2 (Z.ltb_lt (Reply.reply_size m) 0)) by lia. done.
    - unfold Reply.matches. unfold Reply.full in Fv. bsimp. rewrite (proj2 (Z.ltb_lt (Reply.reply_size v) 0)) by lia. by rewrite orb_true_r.
    - unfold Reply.matches. unfold Reply.full in Fv. bsimp. rewrite (proj2 (Z.ltb_lt (Reply.reply_size v) 0)) by lia. by rewrite orb_true_r. }
  rewrite Hm. destruct (Certificate.mark c (Reply.replica m)); [|done]. cbn. congruence.
Qed.

(** The replies to [rid] that arrive, in order. *)
Definition replies_to (rid : Z) (ins : list (input Reply.t)) : list Reply.t :=
  omap (fun x => match x with Packet _ (Some m) => if Reply.rid m =? rid then Some m else None | _ => None end) ins.

Lemma recv_good_wp rid k acc now m s : waiting rid (fun _ => True) acc s -> Forall (good_reply rid k) acc -> good_reply rid k m ->
  wp (recv_one now m) (fun r s' _ => r = None -> waiting rid (fun _ => True) (acc ++ [m]) s' /\ ~ finished (r_reps s')) s.
Proof.
  intros [Hi Hc Hr Hcur Ha] Hg Hm. destruct (good_accepted rid k _ _ m Hi Hg Hm) as (c' & Hadd & Hc' & Hi'). destruct Hm as (Em & Es & _ & Hin & _).
  unfold recv_one. wp_steps. rewrite Hr, Em, Z.eqb_refl, Es. cbn [negb]. wp_steps. apply wp_in_bounds; [by rewrite Hin, orb_true_r|]. wp_steps. eapply wp_of_option; [exact Hadd|]. cbn [fst snd negb]. wp_steps.
  assert (Hw : waiting rid (fun _ => True) (acc ++ [m]) (set_r_reps c' s)).
  { constructor; cbn; [done|by rewrite Hc'|done|done|]. apply Forall_app. split; [done|]. by constructor. }
  case_bool.
  - assert (Hv := Certificate.inv_value _ _ _ _ Hi'). unfold Certificate.cvalue. destruct (Certificate.value c') as [v|] eqn:Ev; [|by destruct acc].
    wp_steps. eapply wp_of_option; [done|]. case_bool; [|wp_steps; intros _; split; [done|]; intros (_ & v' & Hv' & Hf'); cbn in Hv'; congruence].
    unfold renew. case_bool; wp_steps; done.
  - wp_steps. intros _. split; [done|]. intros [Hf _]. cbn in Hf. congruence.
Qed.

Lemma recv_loop_good rid k ins : Forall (good_reply rid k) (replies_to rid ins) -> forall acc s,
  waiting rid (fun _ => True) acc s -> Forall (good_reply rid k) acc -> acc = [] \/ ~ finished (r_reps s) ->
  wp (recv_loop ins) (fun r s' _ => r = Waiting -> waiting rid (fun _ => True) (acc ++ replies_to rid ins) s' /\
    (acc ++ replies_to rid ins = [] \/ ~ finished (r_reps s'))) s.
Proof.
  induction ins as [|x ins IH]; intros Hg acc s Hw Ha Hn; cbn [recv_loop]; [wp_steps; cbn; rewrite app_nil_r; done|].
  destruct x as [now [m|]|].
  - cbn in Hg |- *. destruct (Z.eqb_spec (Reply.rid m) rid) as [E|E].
    + apply Forall_cons in Hg as [Hm Hg]. wp_steps. eapply wp_mono; [by eapply recv_good_wp|]. intros [v|] s1 o1 H1; [by wp_steps|]. destruct (H1 eq_refl) as [Hw1 Hn1].
      assert (Ha1 : Forall (good_reply rid k) (acc ++ [m])) by (apply Forall_app; split; [done|by constructor]).
      eapply wp_mono; [exact (IH Hg _ _ Hw1 Ha1 (or_intror Hn1))|]. intros r s' o'. by rewrite <- app_assoc.
    + wp_steps. unfold recv_one. wp_steps. rewrite (wt_rid _ _ _ _ Hw), (proj2 (Z.eqb_neq _ _)) by done. cbn [negb]. wp_steps.
      eapply wp_mono; [exact (IH Hg _ _ Hw Ha Hn)|]. done.
  - exact (IH Hg _ _ Hw Ha Hn).
  - change (replies_to rid (Tick :: ins)) with (replies_to rid ins) in *. wp_steps. unfold tick, retransmit. wp_steps.
    assert (Hk : forall q t n, waiting rid (fun _ => True) acc (mk_state (cur_rid s) (out_rid s) q n t (r_reps s))).
    { intros q t n. destruct Hw. by constructor. }
    destruct (rtimer s); wp_steps; [eapply wp_mono; [exact (IH Hg _ _ Hw Ha Hn)|done]| |eapply wp_mono; [exact (IH Hg _ _ Hw Ha Hn)|done]].
    cbn [out_req set_rtimer]. destruct (out_req s); wp_steps; [case_bool; wp_steps|].
    all: eapply wp_mono; [refine (IH Hg acc _ _ Ha _); [apply Hk|exact Hn]|done].
Qed.

(** C21. A call completes: once replies of all the replicas to the current identifier
    have arrived, at least one of them with the result, the call has returned, whatever
    replies to other identifiers arrive and whenever the retransmission timer expires,
    provided that the command fits and that all the replies to the current identifier are authenticated, agree,
    lie within their messages and do not ask to switch. *)
Theorem zlight_invoke_completes s req size ro ins k : idle s -> size_fits size ->
  Forall (good_reply (out_rid s) k) (replies_to (out_rid s) ins) ->
  (forall i, 0 <= i < num_replicas -> exists m, m ∈ replies_to (out_rid s) ins /\ Reply.replica m = i) ->
  (exists m, m ∈ replies_to (out_rid s) ins /\ Reply.full m = true) ->
  wp (zlight_invoke req size ro ins) (fun r _ _ => r <> Blocked) s.
Proof.
  intros [Hreq Hrid (acc & Hi) Hc] Hf Hg Hall (mf & Hmf & Hff). unfold zlight_invoke, zlight_send_request. wp_steps. apply authenticate_wp; [done|]. intros r1 _ _.
  unfold send_request. wp_steps. rewrite Hreq. wp_steps. apply authenticate_wp; [done|]. intros r2 Er2 _. wp_steps. cbn [Z.eqb].
  unfold zlight_recv_reply, recv_reply. wp_steps.
  match goal with |- wp _ _ ?t => assert (Hw : waiting (out_rid s) (fun _ => True) [] t) end.
  { constructor; cbn; [|done..]. rewrite (Certificate.clear_create _ _ _ _ Hi). apply Certificate.create_inv. }
  eapply wp_mono; [apply (recv_loop_good _ k ins Hg [] _ Hw); [done|by left]|]. intros r s' o' H. wp_steps. destruct r as [|[v|]]; [|by destruct (Reply.should_switch v)|done].
  exfalso. destruct (H eq_refl) as [[Hi' Hc' _ _ _] [He|Hn]]; [cbn [app] in He; rewrite He in Hmf; by apply not_elem_of_nil in Hmf|]. apply Hn. cbn [app] in Hi'. split.
  - unfold Certificate.is_complete. apply Z.leb_le. rewrite Hc'. destruct replicas_ok as [<- _]. apply (Certificate.inv_all_count _ _ nrep_ok _ _ Hi'). exact Hall.
  - assert (Hv := Certificate.inv_value _ _ _ _ Hi'). destruct (Certificate.value (r_reps s')) as [v|]; [|rewrite Hv in Hmf; by apply not_elem_of_nil in Hmf].
    exists v. split; [done|]. by apply (proj2 Hv mf).
Qed.

(** Any datagram switches the client: a reply with the identifier of the
    outstanding request and the switch flag is returned without being verified,
    so one forged message makes the call return -127 and name the next
    protocol. *)
Theorem forged_switch_accepted now m s : out_req s <> None -> Reply.rid m = out_rid s -> Reply.should_switch m = true ->
  wp (zlight_recv_reply [Packet now (Some m)]) (fun r _ _ => r = Result (-127) [] (Some (Reply.instance_id m))) s.
Proof.
  intros Hq Hr Hs. unfold zlight_recv_reply, recv_reply. wp_steps. destruct (out_req s); [|done]. cbn [recv_loop]. unfold recv_one, renew. wp_steps.
  rewrite Hr, Z.eqb_refl, Hs. cbn [negb]. wp_steps. by rewrite Hs.
Qed.

End client.
End ZlClient.

(** ** Examples: client 9 of a group of four *)

Module ZlClientExample.
Import ZlClient.

Definition ex_md5 (l : list Z) : Z := foldr Z.add 0 l.
Definition ex_md5_request (c r : Z) (cmd : list Z) : Z := c + r.
Definition ex_mac (_ : Reply.t) : bool := true.
Definition ex_client : state := ZlClient.initial 1 1.
Definition ex_rid : Z := 4294967297.
Definition ex_reply (i : Z) : Reply.t := Reply.mk 0 ex_rid 0 3 i 2 9 false zlight 98 [1; 2].
Definition ex_switch : Reply.t := Reply.mk 0 ex_rid 0 0 7 (-1) 9 true aardvark 96 [].
Definition ex_inputs : list (input Reply.t) := Tick :: (Packet 2 ∘ Some ∘ ex_reply <$> [2; 0; 1; 3]).
Definition ex_request : zl_Request := mk_request 9 0 0 0 [5] 0.

Lemma group_of_four : 4 = 3 * 1 + 1 /\ 0 < 4 <= Max_num_replicas.
Proof. unfold Max_num_replicas. lia. Qed.

Lemma ex_idle : idle 4 1 ex_md5 ex_mac ex_client.
Proof. constructor; [done|done| |done]. eexists. apply Certificate.create_inv. Qed.

Lemma ex_fits : size_fits 4 1.
Proof. unfold size_fits, auth_size, Max_message_size. lia. Qed.

Lemma large_command_crashes_witness : authenticate 4 ex_md5_request ex_request 40000 false ex_client = Fault OutOfBounds.
Proof. apply large_command_crashes; unfold auth_size, Max_message_size; lia. Defined.

Lemma ex_inside : inside 4 ex_rid ex_inputs.
Proof.
  intros m [now Hm] _. unfold ex_inputs in Hm. apply elem_of_cons in Hm as [[=]|Hm]. apply list_elem_of_fmap in Hm as (i & [= _ ->] & Hi).
  repeat (apply elem_of_cons in Hi as [-> |Hi]; [vm_compute; reflexivity|]). by apply not_elem_of_nil in Hi.
Qed.

Lemma zlight_invoke_sound_witness :
  wp (zlight_invoke 9 4 0 ex_md5 ex_md5_request ex_mac ex_request 1 false ex_inputs) (fun r s' o =>
    request_sent 0 ex_request 1 ex_rid o /\ match r with
    | Blocked => True
    | Result k contents next => idle 4 1 ex_md5 ex_mac s' /\ renewed (seconds ex_inputs) ex_rid (out_rid s') /\
      ((k = 0 /\ next = None /\ exists v, backed 4 ex_md5 ex_mac ex_rid (arrived ex_inputs) v /\ arrived ex_inputs v /\
        contents = take (Z.to_nat (Reply.reply_size v)) (Reply.body v)) \/
       (k = -127 /\ exists v, arrived ex_inputs v /\ Reply.rid v = ex_rid /\ Reply.should_switch v = true /\ next = Some (Reply.instance_id v)))
    end) ex_client.
Proof. apply (zlight_invoke_sound 9 4 1 0 ex_md5 ex_md5_request ex_mac group_of_four ltac:(lia)); [apply ex_idle|apply ex_fits|apply ex_inside]. Defined.

Lemma ex_replies : replies_to (out_rid ex_client) ex_inputs = ex_reply <$> [2; 0; 1; 3].
Proof. vm_compute. reflexivity. Qed.

Lemma ex_reply_good i : i ∈ [2; 0; 1; 3] -> good_reply 4 ex_md5 ex_mac (out_rid ex_client) (0, 0, 9, ex_rid, 3) (ex_reply i).
Proof.
  intros Hi. split; [reflexivity|]. split; [reflexivity|].
  repeat (apply elem_of_cons in Hi as [-> |Hi]; [split; [|split]; vm_compute; reflexivity|]). by apply not_elem_of_nil in Hi.
Qed.

Lemma zlight_invoke_completes_witness :
  wp (zlight_invoke 9 4 0 ex_md5 ex_md5_request ex_mac ex_request 1 false ex_inputs) (fun r _ _ => r <> Blocked) ex_client.
Proof.
  apply (zlight_invoke_completes 9 4 1 0 ex_md5 ex_md5_request ex_mac group_of_four ltac:(lia) _ _ _ _ _ (0, 0, 9, ex_rid, 3)); [apply ex_idle|apply ex_fits|..].
  - rewrite ex_replies. apply Forall_fmap, Forall_forall. intros i Hi. by apply ex_reply_good.
  - intros i Hi. rewrite ex_replies. exists (ex_reply i). split; [|reflexivity]. apply list_elem_of_fmap_2.
    assert (i = 0 \/ i = 1 \/ i = 2 \/ i = 3) as [-> | [-> | [-> | ->]]] by lia; repeat constructor.
  - rewrite ex_replies. exists (ex_reply 2). split; [apply list_elem_of_here|reflexivity].
Defined.

Definition ex_busy : state := set_out_req (Some ex_request) ex_client.

Lemma forged_switch_accepted_witness :
  wp (zlight_recv_reply 9 4 0 ex_md5 (fun _ => false) [Packet 2 (Some ex_switch)])
    (fun r _ _ => r = Result (-127) [] (Some aardvark)) ex_busy.
Proof. apply forged_switch_accepted; [discriminate|reflexivity|reflexivity]. Defined.

End ZlClientExample.
