(* ===== verification/QClient.v ===== *)
(** * The Quorum client

    [src/protocols/quorum/Q_Client.cc] with [Q_Request::authenticate] and
    [quorum_libbyz.cc]; identifiers, waiting and reply certificates are those of
    [ZlClient].  A request is multicast, and a call returns when a reply of every
    replica has been accepted, one of them full.

    [is_panicking] is never set, so that [bail_out] is not either; the code they
    guard is modelled all the same, and the invariant says that it is not
    reached.  [lrand48] is a parameter. *)

From S2P Require Import Prelude Effects Bytes Bitmap Certificate Reply ReqHistory ZlReplica Quorum ZlClient.
Local Open Scope Z_scope.
Local Open Scope handler_scope.

#[local] Existing Instance Reply.Reply_CertMsg.

Module QClient.
Import Bytes.
Section client.
Context (node_id num_replicas max_faulty lrand48 : Z).
Context (MD5 : list Z -> Z) (MD5_request : Z -> Z -> list Z -> Z) (mac_ok : Reply.t -> bool).
Context (gen_auth : Z * Z * Z * Z * Z * Z * Z * Z -> list Z).

Record state := mk_state {
  cur_rid : Z; out_rid : Z; out_req : option Q_Request; n_retrans : Z; rtimer : timer_state;
  r_reps : Certificate.t Reply.t; is_panicking : bool; bail_out : bool
}.

Definition set_rids (r : Z) (s : state) : state :=
  mk_state r r (out_req s) (n_retrans s) (rtimer s) (r_reps s) (is_panicking s) (bail_out s).
Definition set_out_req (x : option Q_Request) (s : state) : state :=
  mk_state (cur_rid s) (out_rid s) x (n_retrans s) (rtimer s) (r_reps s) (is_panicking s) (bail_out s).
Definition set_n_retrans (x : Z) (s : state) : state :=
  mk_state (cur_rid s) (out_rid s) (out_req s) x (rtimer s) (r_reps s) (is_panicking s) (bail_out s).
Definition set_rtimer (x : timer_state) (s : state) : state :=
  mk_state (cur_rid s) (out_rid s) (out_req s) (n_retrans s) x (r_reps s) (is_panicking s) (bail_out s).
Definition set_r_reps (x : Certificate.t Reply.t) (s : state) : state :=
  mk_state (cur_rid s) (out_rid s) (out_req s) (n_retrans s) (rtimer s) x (is_panicking s) (bail_out s).
Definition set_is_panicking (x : bool) (s : state) : state :=
  mk_state (cur_rid s) (out_rid s) (out_req s) (n_retrans s) (rtimer s) (r_reps s) x (bail_out s).
Definition set_bail_out (x : bool) (s : state) : state :=
  mk_state (cur_rid s) (out_rid s) (out_req s) (n_retrans s) (rtimer s) (r_reps s) (is_panicking s) x.

(** Requests to all the replicas, and the notice the client sends to itself. *)
Inductive q_output := QSend_all (q : Q_Request) | QSend_self (rid : Z) (p : protocols_e).

Local Abbreviation M := (Effects.M state q_output).

Definition initial (now : Z) : state :=
  let r := Rid.new_rid now (Rid.new_tstamp now) in
  mk_state r r None 0 stopped (Certificate.create (3 * max_faulty + 1)) false false.

(** [out_rid = new_rid()]. *)
Definition renew (now : Z) : M unit := modify (fun s => set_rids (Rid.new_rid now (cur_rid s)) s).

(** The authenticator of a client has a MAC for every replica. *)
Definition client_auth_size : Z := num_replicas * 8 + 8.
Definition size_limit : Z := Quorum.Q_Max_message_size - Quorum.sizeof_Request_rep - client_auth_size.

(** The request [authenticate] completes: length, digest and authenticator. *)
Definition completed (r : Q_Request) (act_len : Z) (read_only : bool) : Q_Request :=
  let extra := if read_only then Z.lor (Z.land (qq_extra r) (-2)) 1 else Z.land (qq_extra r) (-2) in
  let cmd := take (Z.to_nat act_len) (qq_command r) in
  let replier := if qq_replier r =? -1 then lrand48 mod num_replicas else qq_replier r in
  let size := ALIGNED_SIZE (Quorum.sizeof_Request_rep + act_len + client_auth_size) in
  let r := mk_qreq extra size 0 replier (qq_cid r) (qq_rid r) (qq_unused r) cmd [] in
  let r := q_with_od (Quorum.comp_digest MD5_request r) r in
  mk_qreq (qq_extra r) (qq_size r) (qq_od r) (qq_replier r) (qq_cid r) (qq_rid r) (qq_unused r) (qq_command r)
    (gen_auth (Quorum.header r)).

(** [authenticate(act_len, read_only)]: as in ZLight, a length that does not fit
    the [short] field makes [comp_digest] read outside the message. *)
Definition authenticate (r : Q_Request) (act_len : Z) (read_only : bool) : M Q_Request :=
  assert_ (wrapu 32 act_len <=? size_limit) ;;;
  if 12 + to_signed 16 act_len <? 0 then fail OutOfBounds else
  assert_ (qq_size (completed r act_len read_only) <=? Quorum.Q_Max_message_size) ;;;
  ret (completed r act_len read_only).

(** [set_unused()] for read-only requests of node 5; [request_id() = out_rid]. *)
Definition prepare (rid : Z) (ro : bool) (r : Q_Request) : Q_Request :=
  mk_qreq (qq_extra r) (qq_size r) (qq_od r) (qq_replier r) (qq_cid r) rid
    (if (node_id =? 5) && ro then 1 else qq_unused r) (qq_command r) (qq_auth r).

Definition send_request (req : Q_Request) (size : Z) (ro : bool) : M bool :=
  o <- gets out_req ;;
  match o with
  | Some _ => ret false
  | None =>
    rid <- gets out_rid ;;
    req <- authenticate (prepare rid ro req) size false ;;
    modify (set_out_req (Some req)) ;;;
    modify (fun s => set_r_reps (Certificate.clear (r_reps s)) s) ;;;
    modify (set_n_retrans 0) ;;;
    modify (set_is_panicking false) ;;;
    emit (QSend_all req) ;;;
    modify (set_rtimer stopped) ;;;
    modify (fun s => set_rtimer (timer_start (rtimer s)) s) ;;;
    ret true
  end.

Definition nk_thresh : Z := 40.

Definition retransmit : M unit :=
  o <- gets out_req ;;
  p <- gets is_panicking ;;
  match o, p with
  | Some req, _ =>
    modify (fun s => set_n_retrans (n_retrans s + 1) s) ;;;
    emit (QSend_all req) ;;;
    modify (fun s => set_rtimer (timer_restart (rtimer s)) s)
  | None, true =>
    modify (fun s => set_n_retrans (n_retrans s + 1) s) ;;;
    k <- gets n_retrans ;;
    if k =? nk_thresh then
      modify (fun s => set_rtimer (timer_stop (rtimer s)) s) ;;;
      modify (set_n_retrans 0) ;;;
      modify (set_bail_out true) ;;;
      rid <- gets out_rid ;;
      emit (QSend_self rid Quorum.next_instance_id) ;;;
      modify (fun s => set_r_reps (Certificate.clear (r_reps s)) s) ;;;
      modify (set_is_panicking false)
    else modify (fun s => set_rtimer (timer_restart (rtimer s)) s)
  | None, false => modify (fun s => set_rtimer (timer_restart (rtimer s)) s)
  end.

Definition tick : M unit :=
  t <- gets rtimer ;;
  match t with
  | running => modify (set_rtimer expired) ;;; retransmit
  | _ => ret tt
  end.

Abbreviation verify := (Reply.verify MD5 mac_ok num_replicas).

(** One turn of the loop of [recv_reply] with the reply [rep]; the outer [None]
    goes on. *)
Definition recv_one (now : Z) (rep : Reply.t) : M (option (option Reply.t)) :=
  b <- gets bail_out ;;
  if (b : bool) then
    modify (set_bail_out false) ;;;
    modify (set_is_panicking false) ;;;
    modify (fun s => set_r_reps (Certificate.clear (r_reps s)) s) ;;;
    modify (set_out_req None) ;;;
    ret (Some None)
  else
  rid <- gets out_rid ;;
  if negb (Reply.rid rep =? rid) then ret None
  else if Reply.should_switch rep then
    modify (fun s => set_rtimer (timer_stop (rtimer s)) s) ;;;
    modify (fun s => set_r_reps (Certificate.clear (r_reps s)) s) ;;;
    modify (set_out_req None) ;;;
    renew now ;;;
    ret (Some (Some rep))
  else
    c <- gets r_reps ;;
    in_bounds ((Reply.replica rep =? node_id) || Reply.reads_inside num_replicas rep) ;;;
    r <- of_option AssertFailed (Certificate.add node_id num_replicas verify c rep) ;;
    let c : Certificate.t Reply.t := r.1 in
    modify (set_r_reps c) ;;;
    if negb r.2 then ret None
    else if Certificate.is_complete c then
      v <- of_option NullDeref (Certificate.cvalue c) ;;
      if Reply.full v then
        modify (fun s => set_rtimer (timer_stop (rtimer s)) s) ;;;
        renew now ;;;
        modify (set_out_req None) ;;;
        modify (set_n_retrans 0) ;;;
        modify (fun s => set_r_reps (Certificate.clear (r_reps s)) s) ;;;
        ret (Some (Some v))
      else ret None
    else ret None.

Fixpoint recv_loop (ins : list (input Reply.t)) : M (outcome Reply.t) :=
  match ins with
  | [] => ret Waiting
  | Tick :: ins' => tick ;;; recv_loop ins'
  | Packet _ None :: ins' => recv_loop ins'
  | Packet now (Some rep) :: ins' =>
    r <- recv_one now rep ;;
    match r with Some v => ret (Returned v) | None => recv_loop ins' end
  end.

Definition recv_reply (ins : list (input Reply.t)) : M (outcome Reply.t) :=
  o <- gets out_req ;;
  match o with None => ret (Returned None) | Some _ => recv_loop ins end.

(** ** [quorum_libbyz] *)

Definition quorum_send_request (req : Q_Request) (size : Z) (ro : bool) : M Z :=
  b <- send_request req size ro ;;
  ret (if (b : bool) then 0 else -1).

Definition quorum_recv_reply (ins : list (input Reply.t)) : M ZlClient.invoke_result :=
  r <- recv_reply ins ;;
  ret match r with
      | Waiting => ZlClient.Blocked
      | Returned None => ZlClient.Result (-1) [] None
      | Returned (Some rep) =>
        if Reply.should_switch rep then ZlClient.Result (-127) [] (Some (Reply.instance_id rep))
        else ZlClient.Result 0 (take (Z.to_nat (Reply.reply_size rep)) (Reply.body rep)) None
      end.

Definition quorum_invoke (req : Q_Request) (size : Z) (ro : bool) (ins : list (input Reply.t)) : M ZlClient.invoke_result :=
  k <- quorum_send_request req size ro ;;
  if k =? -1 then ret (ZlClient.Result (-1) [] None) else quorum_recv_reply ins.

(** ** What a returned reply means *)

Hypothesis replicas_ok : num_replicas = 3 * max_faulty + 1 /\ 0 < num_replicas <= Max_num_replicas.
Hypothesis client_id_ok : num_replicas <= node_id.

Abbreviation cert_inv := (Certificate.inv num_replicas verify).
Abbreviation backed := (ZlClient.backed num_replicas MD5 mac_ok).
Abbreviation good_reply := (ZlClient.good_reply num_replicas MD5 mac_ok).

(** Between calls. *)
Record idle (s : state) : Prop := {
  id_req : out_req s = None;
  id_rid : cur_rid s = out_rid s;
  id_calm : is_panicking s = false /\ bail_out s = false;
  id_cert : exists acc, cert_inv (r_reps s) acc;
  id_complete : Certificate.complete (r_reps s) = 3 * max_faulty + 1
}.

(** While waiting: the accepted replies [acc] are answers to the request, which
    [sent] is retransmitted until it is answered. *)
Record waiting (rid : Z) (P : Reply.t -> Prop) (acc : list Reply.t) (s : state) : Prop := {
  wt_req : is_Some (out_req s);
  wt_calm : is_panicking s = false /\ bail_out s = false;
  wt_cert : cert_inv (r_reps s) acc;
  wt_complete : Certificate.complete (r_reps s) = 3 * max_faulty + 1;
  wt_rid : out_rid s = rid;
  wt_cur : cur_rid s = rid;
  wt_acc : Forall (fun m => P m /\ Reply.rid m = rid /\ Reply.should_switch m = false) acc
}.

Lemma qc_idle_clear s acc x t n : cert_inv (r_reps s) acc -> Certificate.complete (r_reps s) = 3 * max_faulty + 1 ->
  idle (mk_state x x None n t (Certificate.clear (r_reps s)) false false).
Proof.
  intros Hi Hc. constructor; cbn; [done|done|done| |].
  - rewrite (Certificate.clear_create _ _ _ _ Hi). eexists. apply Certificate.create_inv.
  - done.
Qed.

(** What one reply does, at [now]: a returned one renews the identifier. *)
Definition received (rid now : Z) (P : Reply.t -> Prop) (m : Reply.t) (acc : list Reply.t) (r : option (option Reply.t)) (s' : state) : Prop :=
  match r with
  | Some (Some v) => idle s' /\ out_rid s' = Rid.new_rid now rid /\ P v /\ Reply.rid v = rid /\ (Reply.should_switch v = false -> backed rid P v)
  | Some None => False
  | None => waiting rid P acc s' \/ waiting rid P (acc ++ [m]) s'
  end.

Lemma qc_recv_one_wp rid P acc now m s : waiting rid P acc s -> P m -> (Reply.rid m = rid -> Reply.reads_inside num_replicas m = true) ->
  wp (recv_one now m) (fun r s' _ => received rid now P m acc r s') s.
Proof.
  intros Hw HP Hin. pose proof Hw as [Hq [Hpa Hb] Hi Hc Hr Hcur Ha]. unfold recv_one. wp_steps. rewrite Hb. wp_steps.
  case_bool; bsimp; [wp_steps; by left|]. case_bool.
  - unfold renew. wp_steps. split; [|split; [cbn; by rewrite Hcur|split; [done|split; [done|congruence]]]].
    unfold set_rids, set_out_req, set_r_reps, set_rtimer. cbn. rewrite Hpa, Hb. by eapply qc_idle_clear.
  - wp_steps. apply wp_in_bounds; [by rewrite Hin, orb_true_r by congruence|]. wp_steps. destruct (Certificate.add_inv node_id num_replicas verify (ZlClient.nrep_ok _ _ replicas_ok) Reply.matches_refl _ _ m Hi) as (c' & b & Hadd & Hc' & Hi').
    eapply wp_of_option; [exact Hadd|]. cbn [fst snd]. rewrite Hc in Hc'. wp_steps. destruct b; cbn [negb]; [|wp_steps; by left].
    assert (Ha' : Forall (fun m => P m /\ Reply.rid m = out_rid s /\ Reply.should_switch m = false) (acc ++ [m])).
    { apply Forall_app. split; [done|by constructor]. }
    case_bool; [|wp_steps; by right]. assert (Hv := Certificate.inv_value _ _ _ _ Hi'). unfold Certificate.cvalue.
    destruct (Certificate.value c') as [v|] eqn:Ev; [|by destruct acc]. wp_steps. eapply wp_of_option; [done|].
    case_bool; [|wp_steps; by right].
    destruct (ZlClient.complete_backed num_replicas max_faulty MD5 mac_ok replicas_ok (out_rid s) P c' _ v Hi' Hc' ltac:(done) Ev ltac:(done) Ha') as (HPv & Hrv & Hsv & Hbv).
    unfold renew. wp_steps. split; [|split; [cbn; by rewrite Hcur|done]]. unfold set_rids, set_out_req, set_r_reps, set_rtimer, set_n_retrans. cbn. rewrite Hpa, Hb.
    by apply (qc_idle_clear (set_r_reps c' s) (acc ++ [m])).
Qed.

Lemma qc_tick_wp rid P acc s : waiting rid P acc s -> wp tick (fun _ s' _ => waiting rid P acc s') s.
Proof.
  intros [[q Hq] Hp Hi Hc Hr Hcur Ha]. unfold tick, retransmit. wp_steps. destruct (rtimer s); [by wp_steps| |by wp_steps].
  wp_steps. cbn [out_req set_rtimer]. rewrite Hq. wp_steps. by constructor.
Qed.

Abbreviation arrived := ZlClient.arrived.
Abbreviation inside := (ZlClient.inside num_replicas).
Abbreviation seconds := ZlClient.seconds.
Abbreviation renewed := ZlClient.renewed.

Lemma qc_recv_loop_wp rid P N ins : (forall m, arrived ins m -> P m) -> inside rid ins -> (forall now, seconds ins now -> N now) ->
  forall acc s, waiting rid P acc s ->
  wp (recv_loop ins) (fun r s' _ => match r with
    | Waiting => exists acc', waiting rid P acc' s'
    | Returned None => False
    | Returned (Some v) => idle s' /\ renewed N rid (out_rid s') /\ P v /\ Reply.rid v = rid /\ (Reply.should_switch v = false -> backed rid P v)
    end) s.
Proof.
  induction ins as [|x ins IH]; intros HP Hin HN acc s Hw; cbn [recv_loop]; [wp_steps; by exists acc|].
  assert (HP' : forall m, arrived ins m -> P m) by (intros m [now Hm]; apply HP; exists now; set_solver).
  assert (Hin' : inside rid ins) by (intros m [now Hm]; apply Hin; exists now; set_solver).
  assert (HN' : forall now, seconds ins now -> N now) by (intros now [m Hm]; apply HN; exists m; set_solver).
  destruct x as [now [m|]|]; [|by eapply IH|].
  - assert (Hm : arrived (Packet now (Some m) :: ins) m) by (exists now; set_solver).
    wp_steps. eapply wp_mono; [by eapply qc_recv_one_wp; [done|apply HP|apply Hin]|].
    intros [[v|]|] s1 o1 H1; [|done|].
    + wp_steps. destruct H1 as (? & ? & ?). split; [done|]. split; [|done]. exists now. split; [|done]. apply HN. exists m. set_solver.
    + destruct H1 as [H1|H1]; (eapply wp_mono; [by eapply IH|done]).
  - wp_steps. eapply wp_mono; [by eapply qc_tick_wp|]. intros ? s1 o1 H1. eapply wp_mono; [exact (IH HP' Hin' HN' _ _ H1)|done].
Qed.

(** The lengths [authenticate] takes. *)
Definition size_fits (size : Z) : Prop := 0 <= size <= size_limit /\ size < 2 ^ 15.

Lemma qc_authenticate_wp r size ro (Q : Q_Request -> state -> list q_output -> Prop) s : size_fits size ->
  Q (completed r size ro) s [] -> wp (authenticate r size ro) Q s.
Proof.
  intros [[H0 Hf] H15] HQ. unfold authenticate. cbn [completed qq_size q_with_od].
  unfold size_limit, client_auth_size, Quorum.Q_Max_message_size, Quorum.sizeof_Request_rep in *.
  wp_steps. rewrite wrapu_id by (unfold in_u; lia). rewrite (proj2 (Z.leb_le _ _)) by lia. wp_steps.
  rewrite to_signed_id by (unfold in_s; lia). rewrite (proj2 (Z.ltb_ge _ _)) by lia. wp_steps.
  rewrite (proj2 (Z.leb_le (ALIGNED_SIZE _) _)) by (apply ALIGNED_SIZE_le; [done|lia]). wp_steps. exact HQ.
Qed.

Lemma completed_writes r size : Quorum.is_read_only (completed r size false) = false.
Proof.
  unfold Quorum.is_read_only. cbn [completed qq_extra q_with_od]. by rewrite <- Z.bit0_odd, Z.land_spec, andb_false_r.
Qed.

(** The state in which a call waits. *)
Lemma send_waiting P s q n t : idle s -> waiting (out_rid s) P [] (mk_state (cur_rid s) (out_rid s) (Some q) n t (Certificate.clear (r_reps s)) false false).
Proof.
  intros [Hreq Hrid Hp (acc & Hi) Hc]. constructor; cbn; try done.
  rewrite (Certificate.clear_create _ _ _ _ Hi). apply Certificate.create_inv.
Qed.

(** A call on an idle client sends one authenticated, writing request under the
    new identifier, and waits. *)
Lemma quorum_invoke_wp s req size ro ins Q : idle s -> size_fits size ->
  (forall n t, let q := completed (prepare (out_rid s) ro req) size false in
    wp (quorum_recv_reply ins) (fun r s' o => Q r s' (QSend_all q :: o))
       (mk_state (cur_rid s) (out_rid s) (Some q) n t (Certificate.clear (r_reps s)) false false)) ->
  wp (quorum_invoke req size ro ins) Q s.
Proof.
  intros [Hreq _ [Hp Hb] _ _] Hf HQ. unfold quorum_invoke, quorum_send_request, send_request. wp_steps. rewrite Hreq. wp_steps.
  apply qc_authenticate_wp; [done|]. wp_steps. cbn [Z.eqb].
  unfold set_rtimer, set_is_panicking, set_n_retrans, set_r_reps, set_out_req. cbn. rewrite Hb. by apply HQ.
Qed.

Lemma quorum_invoke_spec s req size ro ins : idle s -> size_fits size -> inside (out_rid s) ins ->
  wp (quorum_invoke req size ro ins) (fun r s' o =>
    (exists o', o = QSend_all (completed (prepare (out_rid s) ro req) size false) :: o') /\
    match r with
    | ZlClient.Blocked => True
    | ZlClient.Result k contents next => idle s' /\ renewed (seconds ins) (out_rid s) (out_rid s') /\
      ((k = 0 /\ next = None /\ exists v, backed (out_rid s) (arrived ins) v /\ arrived ins v /\
         contents = take (Z.to_nat (Reply.reply_size v)) (Reply.body v)) \/
       (k = -127 /\ exists v, arrived ins v /\ Reply.rid v = out_rid s /\ Reply.should_switch v = true /\ next = Some (Reply.instance_id v)))
    end) s.
Proof.
  intros Hid Hf Hin. apply quorum_invoke_wp; [done..|]. intros n t q. unfold quorum_recv_reply, recv_reply. wp_steps.
  eapply wp_mono; [eapply (qc_recv_loop_wp (out_rid s) (arrived ins) (seconds ins)); [done|done|done|by apply send_waiting]|].
  intros r s' o H. wp_steps. split; [by eexists|]. destruct r as [|[v|]]; [done| |done].
  destruct H as (Hid' & Hn & HP & Hr & Hb). destruct (Reply.should_switch v) eqn:Es; (split; [done|]; split; [done|]).
  - right. split; [done|]. by exists v.
  - left. split; [done|]. split; [done|]. exists v. split; [by apply Hb|done].
Qed.

(** C11. A call on an idle Quorum client, with a command that fits the message and its
    length field, sends the request to all the replicas under the current identifier as a
    writing request, and never faults as long as no reply to that identifier announces more bytes than it
    holds.  It returns 0 only with a full reply that carries that identifier and that
    every replica backs: each of them has sent an authenticated reply to that identifier,
    and those that carry the result agree with it, the history digest included; otherwise
    it returns -127, naming the protocol of a reply to that identifier with the switch
    flag.  A call that returns leaves the client idle, with the identifier renewed. *)
Theorem quorum_invoke_sound s req size ro ins : idle s -> size_fits size -> inside (out_rid s) ins ->
  wp (quorum_invoke req size ro ins) (fun r s' o =>
    (exists o', o = QSend_all (completed (prepare (out_rid s) ro req) size false) :: o') /\
    match r with
    | ZlClient.Blocked => True
    | ZlClient.Result k contents next => idle s' /\ renewed (seconds ins) (out_rid s) (out_rid s') /\
      ((k = 0 /\ next = None /\ exists v, backed (out_rid s) (arrived ins) v /\ arrived ins v /\
         contents = take (Z.to_nat (Reply.reply_size v)) (Reply.body v)) \/
       (k = -127 /\ exists v, arrived ins v /\ Reply.rid v = out_rid s /\ Reply.should_switch v = true /\ next = Some (Reply.instance_id v)))
    end) s.
Proof. intros Hi Hf Hin. by apply quorum_invoke_spec. Qed.

(** ** Completion *)

Abbreviation finished := ZlClient.finished.
Abbreviation replies_to := ZlClient.replies_to.

Lemma qc_recv_good_wp rid k acc now m s : waiting rid (fun _ => True) acc s -> Forall (good_reply rid k) acc -> good_reply rid k m ->
  wp (recv_one now m) (fun r s' _ => r = None -> waiting rid (fun _ => True) (acc ++ [m]) s' /\ ~ finished (r_reps s')) s.
Proof.
  intros [Hq [Hpa Hb] Hi Hc Hr Hcur Ha] Hg Hm.
  destruct (ZlClient.good_accepted node_id num_replicas max_faulty MD5 mac_ok replicas_ok client_id_ok rid k _ _ m Hi Hg Hm) as (c' & Hadd & Hc' & Hi').
  destruct Hm as (Em & Es & _ & Hin & _). unfold recv_one. wp_steps. rewrite Hb. wp_steps. rewrite Hr, Em, Z.eqb_refl, Es. cbn [negb]. wp_steps.
  apply wp_in_bounds; [by rewrite Hin, orb_true_r|]. wp_steps.
  eapply wp_of_option; [exact Hadd|]. cbn [fst snd negb]. wp_steps.
  assert (Hw : waiting rid (fun _ => True) (acc ++ [m]) (set_r_reps c' s)).
  { constructor; cbn; [done|done|done|by rewrite Hc'|done|done|]. apply Forall_app. split; [done|]. by constructor. }
  case_bool.
  - assert (Hv := Certificate.inv_value _ _ _ _ Hi'). unfold Certificate.cvalue. destruct (Certificate.value c') as [v|] eqn:Ev; [|by destruct acc].
    wp_steps. eapply wp_of_option; [done|]. case_bool; [|wp_steps; intros _; split; [done|]; intros (_ & v' & Hv' & Hf'); cbn in Hv'; congruence].
    unfold renew. wp_steps; done.
  - wp_steps. intros _. split; [done|]. intros [Hf _]. cbn in Hf. congruence.
Qed.

Lemma qc_recv_loop_good rid k ins : Forall (good_reply rid k) (replies_to rid ins) -> forall acc s,
  waiting rid (fun _ => True) acc s -> Forall (good_reply rid k) acc -> acc = [] \/ ~ finished (r_reps s) ->
  wp (recv_loop ins) (fun r s' _ => r = Waiting -> waiting rid (fun _ => True) (acc ++ replies_to rid ins) s' /\
    (acc ++ replies_to rid ins = [] \/ ~ finished (r_reps s'))) s.
Proof.
  induction ins as [|x ins IH]; intros Hg acc s Hw Ha Hn; cbn [recv_loop]; [wp_steps; cbn; rewrite app_nil_r; done|].
  destruct x as [now [m|]|].
  - cbn in Hg |- *. destruct (Z.eqb_spec (Reply.rid m) rid) as [E|E].
    + apply Forall_cons in Hg as [Hm Hg]. wp_steps. eapply wp_mono; [by eapply qc_recv_good_wp|]. intros [v|] s1 o1 H1; [by wp_steps|]. destruct (H1 eq_refl) as [Hw1 Hn1].
      assert (Ha1 : Forall (good_reply rid k) (acc ++ [m])) by (apply Forall_app; split; [done|by constructor]).
      eapply wp_mono; [exact (IH Hg _ _ Hw1 Ha1 (or_intror Hn1))|]. intros r s' o'. by rewrite <- app_assoc.
    + wp_steps. unfold recv_one. wp_steps. rewrite (proj2 (wt_calm _ _ _ _ Hw)). wp_steps.
      rewrite (wt_rid _ _ _ _ Hw), (proj2 (Z.eqb_neq _ _)) by done. cbn [negb]. wp_steps.
      eapply wp_mono; [exact (IH Hg _ _ Hw Ha Hn)|]. done.
  - exact (IH Hg _ _ Hw Ha Hn).
  - change (replies_to rid (Tick :: ins)) with (replies_to rid ins) in *. wp_steps.
    assert (Ht : wp tick (fun _ s' _ => waiting rid (fun _ => True) acc s' /\ r_reps s' = r_reps s) s).
    { pose proof Hw as [[q Hq] ?]. unfold tick, retransmit. wp_steps. destruct (rtimer s); [by wp_steps| |by wp_steps].
      wp_steps. cbn [out_req set_rtimer]. rewrite Hq. wp_steps. split; [by constructor|done]. }
    eapply wp_mono; [exact Ht|]. intros [] s1 o1 [Hw1 E1].
    eapply wp_mono; [refine (IH Hg acc _ Hw1 Ha _); by rewrite E1|]. done.
Qed.

Lemma quorum_invoke_returns s req size ro ins k : idle s -> size_fits size ->
  Forall (good_reply (out_rid s) k) (replies_to (out_rid s) ins) ->
  (forall i, 0 <= i < num_replicas -> exists m, m ∈ replies_to (out_rid s) ins /\ Reply.replica m = i) ->
  (exists m, m ∈ replies_to (out_rid s) ins /\ Reply.full m = true) ->
  wp (quorum_invoke req size ro ins) (fun r _ _ => r <> ZlClient.Blocked) s.
Proof.
  intros Hid Hf Hg Hall (mf & Hmf & Hff). apply quorum_invoke_wp; [done..|]. intros n t q.
  unfold quorum_recv_reply, recv_reply. wp_steps.
  eapply wp_mono; [apply (qc_recv_loop_good _ k ins Hg [] _ (send_waiting _ s q n t Hid)); [done|by left]|].
  intros r s' o' H. wp_steps. destruct r as [|[v|]]; [|by destruct (Reply.should_switch v)|done].
  exfalso. destruct (H eq_refl) as [[_ _ Hi' Hc' _ _ _] [He|Hn]]; [cbn [app] in He; rewrite He in Hmf; by apply not_elem_of_nil in Hmf|].
  apply Hn. cbn [app] in Hi'. split.
  - unfold Certificate.is_complete. apply Z.leb_le. rewrite Hc'. destruct replicas_ok as [<- _].
    apply (Certificate.inv_all_count _ _ (ZlClient.nrep_ok _ _ replicas_ok) _ _ Hi'). exact Hall.
  - assert (Hv := Certificate.inv_value _ _ _ _ Hi'). destruct (Certificate.value (r_reps s')) as [v|]; [|rewrite Hv in Hmf; by apply not_elem_of_nil in Hmf].
    exists v. split; [done|]. by apply (proj2 Hv mf).
Qed.

(** A call completes: once replies of all the replicas to the new identifier
    have arrived, all authenticated and agreeing and at least one with the
    result, the call has returned, whatever else arrives and whenever the
    retransmission timer expires. *)
Theorem quorum_invoke_completes s req size ro ins k : idle s -> size_fits size ->
  Forall (good_reply (out_rid s) k) (replies_to (out_rid s) ins) ->
  (forall i, 0 <= i < num_replicas -> exists m, m ∈ replies_to (out_rid s) ins /\ Reply.replica m = i) ->
  (exists m, m ∈ replies_to (out_rid s) ins /\ Reply.full m = true) ->
  wp (quorum_invoke req size ro ins) (fun r _ _ => r <> ZlClient.Blocked) s.
Proof. intros. by apply (quorum_invoke_returns s req size ro ins k). Qed.
End client.
End QClient.

(** ** Examples: client 9 of a group of four *)

Module QClientExample.
Import QClient ZlClientExample.

Definition q_client : state := QClient.initial 1 1.
Definition q_auth (_ : Z * Z * Z * Z * Z * Z * Z * Z) : list Z := [].
Definition q_request : Q_Request := mk_qreq 0 0 0 (-1) 9 0 0 [5] [].
Abbreviation q_invoke := (quorum_invoke 9 4 7 ex_md5 ex_md5_request ex_mac q_auth q_request 1 false ex_inputs).

Lemma q_idle : idle 4 1 ex_md5 ex_mac q_client.
Proof. constructor; [done|done|done| |done]. eexists. apply Certificate.create_inv. Qed.

Lemma q_fits : size_fits 4 1.
Proof. unfold size_fits, size_limit, client_auth_size, Quorum.Q_Max_message_size, Quorum.sizeof_Request_rep. lia. Qed.

Lemma quorum_invoke_sound_witness :
  wp q_invoke (fun r s' o => (exists o', o = QSend_all (completed 4 7 ex_md5_request q_auth (prepare 9 ex_rid false q_request) 1 false) :: o') /\
    match r with
    | ZlClient.Blocked => True
    | ZlClient.Result k contents next => idle 4 1 ex_md5 ex_mac s' /\ ZlClient.renewed (ZlClient.seconds ex_inputs) ex_rid (out_rid s') /\
      ((k = 0 /\ next = None /\ exists v, ZlClient.backed 4 ex_md5 ex_mac ex_rid (ZlClient.arrived ex_inputs) v /\ ZlClient.arrived ex_inputs v /\
         contents = take (Z.to_nat (Reply.reply_size v)) (Reply.body v)) \/
       (k = -127 /\ exists v, ZlClient.arrived ex_inputs v /\ Reply.rid v = ex_rid /\ Reply.should_switch v = true /\ next = Some (Reply.instance_id v)))
    end) q_client.
Proof. apply (quorum_invoke_sound 9 4 1 7 ex_md5 ex_md5_request ex_mac q_auth group_of_four ltac:(lia)); [apply q_idle|apply q_fits|apply ex_inside]. Defined.

Lemma quorum_invoke_completes_witness : wp q_invoke (fun r _ _ => r <> ZlClient.Blocked) q_client.
Proof.
  apply (quorum_invoke_completes 9 4 1 7 ex_md5 ex_md5_request ex_mac q_auth group_of_four ltac:(lia) _ _ _ _ _ (0, 0, 9, ex_rid, 3));
    [apply q_idle|apply q_fits|..]; change (out_rid q_client) with (ZlClient.out_rid ex_client).
  - rewrite ex_replies. apply Forall_fmap, Forall_forall. intros i Hi. by apply ex_reply_good.
  - intros i Hi. rewrite ex_replies. exists (ex_reply i). split; [|reflexivity]. apply list_elem_of_fmap_2.
    assert (i = 0 \/ i = 1 \/ i = 2 \/ i = 3) as [-> | [-> | [-> | ->]]] by lia; repeat constructor.
  - rewrite ex_replies. exists (ex_reply 2). split; [apply list_elem_of_here|reflexivity].
Defined.

End QClientExample.
