(* ===== verification/OClient.v ===== *)
(** * The CBFT client

    [src/protocols/cbft/O_Client.cc] with [O_Request::authenticate] and
    [cbft_libbyz.cc]; identifiers and reply certificates are those of [ZlClient].
    A request goes to the primary with the order -1; the primary's reply brings
    the order, and the client sends the request with its order to the backups.  A
    call returns when a matching reply of every replica has been accepted.

    Replies are processed by the receiving task ([processReceivedMessage]) while
    the call polls in [recv_reply]: the inputs of a call are the messages and the
    polls, in the order in which the scheduler interleaves them.

    [r_reps.add] deletes a reply it accepts without keeping it, and
    [processReceivedMessage] goes on reading it.  Nothing is known of what it reads: an
    input that brings a reply also brings what the memory of that reply reads as
    should it have been deleted, and the theorems hold for every such value.
    [lrand48] and the contents of a new [O_Reply] ([blank]) are parameters. *)

From S2P Require Import Prelude Effects Bytes Bitmap Certificate Reply ReqHistory ZlReplica CkptStore Quorum CBFT ZlClient.
Local Open Scope Z_scope.
Local Open Scope handler_scope.

#[export] Instance O_Reply_CertMsg : CertMsg O_Reply :=
  { msg_id := fun m => Reply.replica (or_rep m);
    msg_match := fun a b => Reply.matches (or_rep a) (or_rep b);
    msg_full := fun m => Reply.full (or_rep m) }.

Module OClient.
Import Bytes.
Section client.
Context (node_id num_replicas lrand48 : Z).
Context (MD5 : list Z -> Z) (MD5_request : Z -> Z -> list Z -> Z) (mac_ok : O_Reply -> bool).
Context (gen_auth : Z * (Z * Z * Z * Z * Z * Z * Z * Z) -> list Z).
Context (blank : O_Reply).

Record state := mk_state {
  cur_rid : Z; out_rid : Z; out_req : option O_Request; n_retrans : Z; r_reps : Certificate.t O_Reply;
  is_panicking : bool; bail_out : bool; recievedOrder : bool; order : Z; lastRequestSize : Z; responders : list bool
}.

Definition set_rids (r : Z) (s : state) : state :=
  mk_state r r (out_req s) (n_retrans s) (r_reps s) (is_panicking s) (bail_out s) (recievedOrder s) (order s)
    (lastRequestSize s) (responders s).
Definition set_out_req (x : option O_Request) (s : state) : state :=
  mk_state (cur_rid s) (out_rid s) x (n_retrans s) (r_reps s) (is_panicking s) (bail_out s) (recievedOrder s) (order s)
    (lastRequestSize s) (responders s).
Definition set_n_retrans (x : Z) (s : state) : state :=
  mk_state (cur_rid s) (out_rid s) (out_req s) x (r_reps s) (is_panicking s) (bail_out s) (recievedOrder s) (order s)
    (lastRequestSize s) (responders s).
Definition set_r_reps (x : Certificate.t O_Reply) (s : state) : state :=
  mk_state (cur_rid s) (out_rid s) (out_req s) (n_retrans s) x (is_panicking s) (bail_out s) (recievedOrder s) (order s)
    (lastRequestSize s) (responders s).
Definition set_is_panicking (x : bool) (s : state) : state :=
  mk_state (cur_rid s) (out_rid s) (out_req s) (n_retrans s) (r_reps s) x (bail_out s) (recievedOrder s) (order s)
    (lastRequestSize s) (responders s).
Definition set_bail_out (x : bool) (s : state) : state :=
  mk_state (cur_rid s) (out_rid s) (out_req s) (n_retrans s) (r_reps s) (is_panicking s) x (recievedOrder s) (order s)
    (lastRequestSize s) (responders s).
Definition set_order (b : bool) (x : Z) (s : state) : state :=
  mk_state (cur_rid s) (out_rid s) (out_req s) (n_retrans s) (r_reps s) (is_panicking s) (bail_out s) b x
    (lastRequestSize s) (responders s).
Definition set_lastRequestSize (x : Z) (s : state) : state :=
  mk_state (cur_rid s) (out_rid s) (out_req s) (n_retrans s) (r_reps s) (is_panicking s) (bail_out s) (recievedOrder s)
    (order s) x (responders s).
Definition set_responders (x : list bool) (s : state) : state :=
  mk_state (cur_rid s) (out_rid s) (out_req s) (n_retrans s) (r_reps s) (is_panicking s) (bail_out s) (recievedOrder s)
    (order s) (lastRequestSize s) x.

(** Requests to the primary, requests and panics to [O_All_replicas], which are
    the replicas but the primary. *)
Inductive o_output := OSend_primary (q : O_Request) | OSend_backups (q : O_Request) | OSend_panic (p : zl_Panic).

Local Abbreviation M := (Effects.M state o_output).

(** [bool responders[100]] is not initialised: [rs] is its first contents. *)
Definition initial (now order0 size0 : Z) (rs : list bool) : state :=
  let r := Rid.new_rid now (Rid.new_tstamp now) in
  mk_state r r None 0 (Certificate.create num_replicas) false false false order0 size0 rs.

(** [out_rid = new_rid()]. *)
Definition renew (now : Z) : M unit := modify (fun s => set_rids (Rid.new_rid now (cur_rid s)) s).

Definition client_auth_size : Z := num_replicas * 8 + 8.
Definition size_limit : Z := CBFT.O_Max_message_size - CBFT.sizeof_Request_rep - client_auth_size.

(** The request [authenticate] completes. *)
Definition completed (r : O_Request) (act_len : Z) (read_only : bool) : O_Request :=
  let b := oq_base r in
  let extra := if read_only then Z.lor (Z.land (qq_extra b) (-2)) 1 else Z.land (qq_extra b) (-2) in
  let cmd := take (Z.to_nat act_len) (qq_command b) in
  let replier := if qq_replier b =? -1 then lrand48 mod num_replicas else qq_replier b in
  let size := ALIGNED_SIZE (CBFT.sizeof_Request_rep + act_len + client_auth_size) in
  let b := mk_qreq extra size 0 replier (qq_cid b) (qq_rid b) (qq_unused b) cmd [] in
  let b := q_with_od (Quorum.comp_digest MD5_request b) b in
  let r := mk_oreq (oq_order r) b in
  mk_oreq (oq_order r)
    (mk_qreq (qq_extra b) (qq_size b) (qq_od b) (qq_replier b) (qq_cid b) (qq_rid b) (qq_unused b) (qq_command b)
       (gen_auth (CBFT.header r))).

Definition authenticate (r : O_Request) (act_len : Z) (read_only : bool) : M O_Request :=
  assert_ (wrapu 32 act_len <=? size_limit) ;;;
  if 12 + to_signed 16 act_len <? 0 then fail OutOfBounds else
  assert_ (qq_size (oq_base (completed r act_len read_only)) <=? CBFT.O_Max_message_size) ;;;
  ret (completed r act_len read_only).

(** [set_unused()] for read-only requests of node 5; [request_id() = out_rid];
    [setOrder(-1)]. *)
Definition prepare (rid : Z) (ro : bool) (r : O_Request) : O_Request :=
  let b := oq_base r in
  mk_oreq (-1) (mk_qreq (qq_extra b) (qq_size b) (qq_od b) (qq_replier b) (qq_cid b) rid
    (if (node_id =? 5) && ro then 1 else qq_unused b) (qq_command b) (qq_auth b)).

(** [clear_unused()] after the request is sent. *)
Definition clear_unused (r : O_Request) : O_Request :=
  let b := oq_base r in
  mk_oreq (oq_order r) (mk_qreq (qq_extra b) (qq_size b) (qq_od b) (qq_replier b) (qq_cid b) (qq_rid b) 0
    (qq_command b) (qq_auth b)).

Definition send_request (req : O_Request) (size : Z) (ro : bool) : M bool :=
  o <- gets out_req ;;
  match o with
  | Some _ => ret false
  | None =>
    modify (set_lastRequestSize size) ;;;
    rid <- gets out_rid ;;
    req <- authenticate (prepare rid ro req) size false ;;
    modify (fun s => set_r_reps (Certificate.clear (r_reps s)) s) ;;;
    modify (set_n_retrans 0) ;;;
    modify (set_is_panicking false) ;;;
    emit (OSend_primary req) ;;;
    modify (set_out_req (Some (clear_unused req))) ;;;
    ret true
  end.

(** [send_ordered_request(out_req, 0, false)]: the size is the last one. *)
Definition send_ordered_request : M bool :=
  size <- gets lastRequestSize ;;
  o <- gets out_req ;;
  match o with
  | None => ret false
  | Some req =>
    k <- gets order ;;
    req <- authenticate (setOrder k req) size false ;;
    modify (set_out_req (Some req)) ;;;
    emit (OSend_backups req) ;;;
    ret true
  end.

Definition verify (m : O_Reply) : bool := Reply.verify MD5 (fun _ => mac_ok m) num_replicas (or_rep m).

(** The reply is kept by the certificate, and not deleted, when it becomes its
    value. *)
Definition kept (c : Certificate.t O_Reply) (m : O_Reply) : bool :=
  match Certificate.value c with
  | None => true
  | Some v => negb (msg_full v) && msg_full m
  end.

Definition panic (now : Z) : M unit :=
  modify (set_n_retrans 0) ;;;
  modify (set_is_panicking true) ;;;
  modify (fun s => set_r_reps (Certificate.clear (r_reps s)) s) ;;;
  renew now ;;;
  rid <- gets out_rid ;;
  emit (OSend_panic (mk_panic node_id rid)).

(** [freed]: what the reply reads as once it is deleted. *)
Definition processReceivedMessage (now : Z) (rep freed : O_Reply) : M unit :=
  rid <- gets out_rid ;;
  ro <- gets recievedOrder ;;
  if negb (Reply.rid (or_rep rep) =? rid) then ret tt
  else if negb (Reply.replica (or_rep rep) =? CBFT.primary) && negb ro then ret tt
  else
    in_bounds ((Reply.replica (or_rep rep) =? node_id) || Reply.reads_inside num_replicas (or_rep rep)) ;;;
    c <- gets r_reps ;;
    r <- of_option AssertFailed (Certificate.add node_id num_replicas verify c rep) ;;
    if negb r.2 then
      match Certificate.cvalue c with
      | Some v => if negb (msg_match v rep) then panic now else ret tt
      | None => ret tt
      end
    else
      modify (set_r_reps r.1) ;;;
      let rep := if kept c rep then rep else freed in
      if Reply.replica (or_rep rep) =? CBFT.primary then
        modify (set_order true (or_order rep)) ;;;
        send_ordered_request ;;;
        ret tt
      else
        let i := Reply.replica (or_rep rep) in
        if (i <? 0) || (100 <=? i) then fail OutOfBounds
        else modify (fun s => set_responders (<[Z.to_nat i := true]> (responders s)) s).

(** [for (i = 0; i < num_replicas; i++) responders[i] = false]. *)
Definition reset_responders (l : list bool) : list bool :=
  imap (fun i b => if Z.of_nat i <? num_replicas then false else b) l.

(** One turn of the loop of [recv_reply]. *)
Definition poll (now : Z) : M (option O_Reply) :=
  b <- gets bail_out ;;
  if (b : bool) then
    modify (set_bail_out false) ;;;
    modify (set_is_panicking false) ;;;
    modify (fun s => set_r_reps (Certificate.clear (r_reps s)) s) ;;;
    modify (set_out_req None) ;;;
    modify (fun s => set_order false (order s) s) ;;;
    modify (fun s => set_responders (reset_responders (responders s)) s) ;;;
    ret (Some blank)
  else
    c <- gets r_reps ;;
    if Certificate.is_complete c then
      v <- of_option NullDeref (Certificate.cvalue c) ;;
      if msg_full v then
        renew now ;;;
        modify (set_out_req None) ;;;
        modify (fun s => set_order false (order s) s) ;;;
        modify (fun s => set_responders (reset_responders (responders s)) s) ;;;
        modify (set_n_retrans 0) ;;;
        modify (fun s => set_r_reps (Certificate.clear (r_reps s)) s) ;;;
        ret (Some v)
      else ret None
    else ret None.

(** What happens during a call: a message (a reply, or another one, which is
    dropped), or a poll. *)
Inductive o_input := Arrive (now : Z) (m : option O_Reply) (freed : O_Reply) | Poll (now : Z).

Fixpoint recv_loop (ins : list o_input) : M (outcome O_Reply) :=
  match ins with
  | [] => ret Waiting
  | Arrive _ None _ :: ins' => recv_loop ins'
  | Arrive now (Some rep) freed :: ins' => processReceivedMessage now rep freed ;;; recv_loop ins'
  | Poll now :: ins' =>
    r <- poll now ;;
    match r with Some v => ret (Returned (Some v)) | None => recv_loop ins' end
  end.

Definition recv_reply (ins : list o_input) : M (outcome O_Reply) :=
  o <- gets out_req ;;
  match o with None => ret (Returned None) | Some _ => recv_loop ins end.

(** [retransmit] returns at once. *)
Definition retransmit : M unit := ret tt.

(** ** [cbft_libbyz] *)

Definition cbft_send_request (req : O_Request) (size : Z) (ro : bool) : M Z :=
  b <- send_request req size ro ;;
  ret (if (b : bool) then 0 else -1).

(** What a call returns for a reply. *)
Definition result_of (m : O_Reply) : ZlClient.invoke_result :=
  let rep := or_rep m in
  if Reply.should_switch rep then ZlClient.Result (-127) [] (Some (Reply.instance_id rep))
  else ZlClient.Result 0 (take (Z.to_nat (Reply.reply_size rep)) (Reply.body rep)) None.

Definition cbft_recv_reply (ins : list o_input) : M ZlClient.invoke_result :=
  r <- recv_reply ins ;;
  ret match r with
      | Waiting => ZlClient.Blocked
      | Returned None => ZlClient.Result (-1) [] None
      | Returned (Some m) => result_of m
      end.

Definition cbft_invoke (req : O_Request) (size : Z) (ro : bool) (ins : list o_input) : M ZlClient.invoke_result :=
  k <- cbft_send_request req size ro ;;
  if k =? -1 then ret (ZlClient.Result (-1) [] None) else cbft_recv_reply ins.

(** ** What a returned reply means *)

Hypothesis replicas_ok : 0 < num_replicas <= Max_num_replicas.
Hypothesis client_id_ok : num_replicas <= node_id.

Abbreviation cert_inv := (Certificate.inv num_replicas verify).

Lemma o_matches_refl (m : O_Reply) : msg_match m m = true.
Proof. apply (Reply.matches_refl (or_rep m)). Qed.

(** Every replica has sent a verified reply to [rid], and those that are full
    agree with [v]. *)
Definition backed (rid : Z) (P : O_Reply -> Prop) (v : O_Reply) : Prop :=
  msg_full v = true /\ Reply.rid (or_rep v) = rid /\ forall i, 0 <= i < num_replicas ->
    exists m, P m /\ Reply.replica (or_rep m) = i /\ verify m = true /\ Reply.rid (or_rep m) = rid /\
      (msg_full m = true -> Reply.key (or_rep m) = Reply.key (or_rep v)).

(** The client's request, whatever its order. *)
Definition same_request (q q0 : O_Request) : Prop :=
  oq_cid q = oq_cid q0 /\ oq_rid q = oq_rid q0 /\ oq_command q = oq_command q0.

(** The lengths [authenticate] takes. *)
Definition size_fits (size : Z) : Prop := 0 <= size <= size_limit.

Record idle (s : state) : Prop := {
  id_req : out_req s = None;
  id_rids : cur_rid s = out_rid s;
  id_bail : bail_out s = false;
  id_order : recievedOrder s = false;
  id_cert : exists acc, cert_inv (r_reps s) acc;
  id_complete : Certificate.complete (r_reps s) = num_replicas
}.

(** While waiting for the answers to [q0]: [acc] are the accepted replies;
    [exact] until the client has panicked and changed its identifier. *)
Record waiting (q0 : O_Request) (P : O_Reply -> Prop) (exact : bool) (acc : list O_Reply) (s : state) : Prop := {
  wt_req : exists q, out_req s = Some q /\ same_request q q0;
  wt_rids : cur_rid s = out_rid s;
  wt_size : size_fits (lastRequestSize s) /\ zlen (oq_command q0) <= lastRequestSize s;
  wt_bail : bail_out s = false;
  wt_cert : cert_inv (r_reps s) acc;
  wt_complete : Certificate.complete (r_reps s) = num_replicas;
  wt_acc : Forall (fun m => P m /\ Reply.rid (or_rep m) = out_rid s) acc;
  wt_exact : exact = true -> out_rid s = oq_rid q0
}.

(** Every request to the backups is the client's own; its order was read from a
    verified reply, at a place [R] where that reply, or what is left of it, names the
    primary. *)
Definition relay_ok (q0 : O_Request) (R : O_Reply -> O_Reply -> Prop) (x : o_output) : Prop :=
  match x with
  | OSend_primary _ => False
  | OSend_panic _ => True
  | OSend_backups q => same_request q q0 /\ exists m x, R m x /\ verify m = true /\
      Reply.replica (or_rep x) = CBFT.primary /\ or_order x = oq_order q
  end.

(** The order was read from a verified reply of the primary itself. *)
Definition genuine_relay (rid : Z) (P : O_Reply -> Prop) (q : O_Request) : Prop :=
  exists m, P m /\ verify m = true /\ Reply.rid (or_rep m) = rid /\
    Reply.replica (or_rep m) = CBFT.primary /\ or_order m = oq_order q.

Definition no_panic (o : list o_output) : bool :=
  forallb (fun x => match x with OSend_panic _ => false | _ => true end) o.

Lemma oc_authenticate_wp r size ro (Q : O_Request -> state -> list o_output -> Prop) s : size_fits size ->
  Q (completed r size ro) s [] -> wp (authenticate r size ro) Q s.
Proof.
  intros [H0 Hf] HQ. unfold authenticate. cbn [completed oq_base qq_size q_with_od].
  unfold size_limit, client_auth_size, CBFT.O_Max_message_size, CBFT.sizeof_Request_rep in *.
  wp_steps. rewrite wrapu_id by (unfold in_u; lia). rewrite (proj2 (Z.leb_le _ _)) by lia. wp_steps.
  rewrite to_signed_id by (unfold in_s; lia). rewrite (proj2 (Z.ltb_ge _ _)) by lia. wp_steps.
  rewrite (proj2 (Z.leb_le (ALIGNED_SIZE _) _)) by (apply ALIGNED_SIZE_le; [done|lia]). wp_steps. exact HQ.
Qed.

Lemma completed_same r size ro q0 : same_request r q0 -> zlen (oq_command q0) <= size ->
  same_request (completed r size ro) q0.
Proof.
  intros (Hc & Hr & Hcmd) Hl. split; [done|]. split; [done|]. rewrite <- Hcmd in Hl |- *.
  unfold oq_command, zlen in *. cbn [completed oq_base qq_command q_with_od]. apply take_ge. lia.
Qed.

(** Sending the ordered request. *)
Lemma send_ordered_wp q0 P exact acc s : waiting q0 P exact acc s ->
  wp send_ordered_request (fun _ s' o => waiting q0 P exact acc s' /\ recievedOrder s' = recievedOrder s /\ out_rid s' = out_rid s /\
    exists q, o = [OSend_backups q] /\ same_request q q0 /\ oq_order q = order s) s.
Proof.
  intros [(q & Hq & Hs) Hrid [Hf Hl] Hb Hc Hn Ha He]. unfold send_ordered_request. wp_steps. rewrite Hq. wp_steps.
  apply oc_authenticate_wp; [done|]. wp_steps.
  assert (Hsame : same_request (completed (setOrder (order s) q) (lastRequestSize s) false) q0)
    by (by apply completed_same).
  split; [constructor; try done; by eexists|]. split; [done|]. split; [done|]. by eexists.
Qed.

Lemma oc_cert_clear s acc : cert_inv (r_reps s) acc -> cert_inv (Certificate.clear (r_reps s)) [].
Proof. intros Hi. rewrite (Certificate.clear_create _ _ _ _ Hi). apply Certificate.create_inv. Qed.

Lemma panic_wp q0 P exact acc now s : waiting q0 P exact acc s ->
  wp (panic now) (fun _ s' o => waiting q0 P false [] s' /\ exists p, o = [OSend_panic p]) s.
Proof.
  intros [Hq Hr Hs Hb Hc Hn Ha He]. unfold panic, renew. wp_steps. split; [|by eexists].
  constructor; simpl; try done. by eapply oc_cert_clear.
Qed.

Definition arrived (ins : list o_input) (m : O_Reply) : Prop := exists now g, Arrive now (Some m) g ∈ ins.

(** What the client reads for the reply [m] once it is accepted: the reply, or its
    memory after it was deleted. *)
Definition read_back (ins : list o_input) (m x : O_Reply) : Prop :=
  exists now g, Arrive now (Some m) g ∈ ins /\ (x = m \/ x = g).

(** A reply whose verification reads past its message, or a deleted reply that reads
    as one of a replica for which [responders] has no place. *)
Definition unsafe_read (ins : list o_input) : Prop :=
  exists now m g, Arrive now (Some m) g ∈ ins /\
    (Reply.reads_inside num_replicas (or_rep m) = false \/ ~ 0 <= Reply.replica (or_rep g) < 100).
Definition read_fault (ins : list o_input) (e : fault) : Prop := e = OutOfBounds /\ unsafe_read ins.

(** The certificate's answer when it takes the reply. *)
Lemma oc_added q0 P exact acc s m c' : waiting q0 P exact acc s -> P m -> Reply.rid (or_rep m) = out_rid s ->
  cert_inv c' (acc ++ [m]) -> Certificate.complete c' = Certificate.complete (r_reps s) ->
  waiting q0 P exact (acc ++ [m]) (set_r_reps c' s) /\ verify m = true /\ 0 <= Reply.replica (or_rep m) < 100.
Proof.
  intros [Hq Hr Hs Hb Hc Hn Ha He] HP Hrid Hi Hc'. split; [|split].
  - constructor; try done; [simpl; congruence|]. apply Forall_app. by split; [|constructor].
  - apply (Certificate.inv_acc _ _ _ _ Hi). set_solver.
  - assert (Hm : Certificate.is_replica num_replicas (Reply.replica (or_rep m)) = true)
      by (apply (Certificate.inv_acc _ _ _ _ Hi m); set_solver).
    unfold Certificate.is_replica in Hm. unfold Max_num_replicas in *. bsimp. lia.
Qed.

(** What one message does. *)
Lemma process_wp all q0 exact acc now m g s : waiting q0 (arrived all) exact acc s -> Arrive now (Some m) g ∈ all ->
  wpe (read_fault all) (processReceivedMessage now m g) (fun _ s' o =>
    (exists acc', waiting q0 (arrived all) (exact && no_panic o) acc' s') /\ Forall (relay_ok q0 (read_back all)) o) s.
Proof.
  intros Hw Hin. pose proof (wt_cert _ _ _ _ _ Hw) as Hc. assert (HP : arrived all m) by (by eexists _, _).
  assert (Hdone : (exists acc', waiting q0 (arrived all) (exact && no_panic []) acc' s) /\ Forall (relay_ok q0 (read_back all)) []).
  { simpl. rewrite andb_true_r. split; [by exists acc|done]. }
  unfold processReceivedMessage. wpe_steps. destruct (Z.eqb_spec (Reply.rid (or_rep m)) (out_rid s)) as [Hrid|]; cbn [negb]; [|by wpe_steps].
  case_match; [by wpe_steps|]. wpe_step. unfold in_bounds. case_match eqn:Hbnd.
  2:{ split; [done|]. bsimp. exists now, m, g. by split; [|left]. }
  wpe_steps. destruct (Certificate.add_inv node_id num_replicas verify ltac:(lia) o_matches_refl _ _ m Hc) as (c' & b & Hadd & Hc' & Hi').
  apply wp_wpe. eapply wp_of_option; [exact Hadd|]. cbn [fst snd]. destruct b; cbn [negb].
  2:{ destruct (Certificate.cvalue (r_reps s)) as [v|]; [|by wpe_steps]. case_match; [|by wpe_steps].
      apply wp_wpe. eapply wp_mono; [by eapply panic_wp|]. intros [] s' o (Hw' & p & ->). simpl. rewrite andb_false_r.
      split; [by exists []|by repeat constructor]. }
  destruct (oc_added _ _ _ _ _ _ _ Hw HP Hrid Hi' Hc') as (Hw' & Hv & Hid).
  assert (Hx : read_back all m (if kept (r_reps s) m then m else g)) by (exists now, g; destruct (kept _ _); auto).
  assert (Hu : ~ 0 <= Reply.replica (or_rep (if kept (r_reps s) m then m else g)) < 100 -> unsafe_read all).
  { intros Hn. exists now, m, g. split; [done|]. right. by destruct (kept _ _). }
  wpe_steps. set (x := if kept (r_reps s) m then m else g) in *. case_bool; bsimp.
  - wpe_steps. apply wp_wpe. eapply wp_mono; [eapply (send_ordered_wp q0 (arrived all) exact (acc ++ [m])); by destruct Hw'; constructor|].
    intros b s' o (Hw2 & _ & _ & q & -> & Hsame & Hord). wpe_steps. simpl. rewrite andb_true_r. split; [by exists (acc ++ [m])|].
    repeat constructor; try apply Hsame. by exists m, x.
  - case_bool; bsimp; [split; [done|]; apply Hu; lia|]. wpe_steps. simpl. rewrite andb_true_r.
    split; [|done]. exists (acc ++ [m]). destruct Hw'. by constructor.
Qed.

(** With no reply accepted yet, the next one is kept, and is the primary's. *)
Lemma process_first all q0 exact now m g s : waiting q0 (arrived all) exact [] s -> recievedOrder s = false -> arrived all m ->
  wlp (processReceivedMessage now m g) (fun _ s' o => o = [] /\ s' = s \/
    exists q, o = [OSend_backups q] /\ genuine_relay (out_rid s) (arrived all) q) s.
Proof.
  intros Hw Hro HP. pose proof (wt_cert _ _ _ _ _ Hw) as Hc. pose proof (Certificate.inv_value _ _ _ _ Hc) as Hval.
  assert (Hnone : Certificate.value (r_reps s) = None).
  { destruct (Certificate.value (r_reps s)); [|done]. destruct Hval as [Hin _]. by apply elem_of_nil in Hin. }
  unfold processReceivedMessage. wlp_steps. destruct (Z.eqb_spec (Reply.rid (or_rep m)) (out_rid s)) as [Hrid|]; cbn [negb]; [|by wlp_steps; left].
  rewrite Hro. cbn [negb]. rewrite andb_true_r. destruct (Z.eqb_spec (Reply.replica (or_rep m)) CBFT.primary) as [Hp|]; cbn [negb]; [|by wlp_steps; left].
  wlp_step. apply wlp_in_bounds. intros _. wlp_steps.
  destruct (Certificate.add_inv node_id num_replicas verify ltac:(lia) o_matches_refl _ _ m Hc) as (c' & b & Hadd & Hc' & Hi').
  apply wlp_of_option. intros cb E. rewrite Hadd in E. injection E as <-. cbn [fst snd]. destruct b; cbn [negb].
  2:{ unfold Certificate.cvalue. rewrite Hnone. wlp_steps. by left. }
  destruct (oc_added _ _ _ _ _ _ _ Hw HP Hrid Hi' Hc') as (Hw' & Hv & _).
  unfold kept. rewrite Hnone. cbv zeta. rewrite Hp, Z.eqb_refl. wlp_steps.
  eapply wlp_of_wp, wp_mono; [eapply (send_ordered_wp q0 (arrived all) exact ([] ++ [m])); by destruct Hw'; constructor|].
  intros b s' o (_ & _ & _ & q & -> & _ & Hord). wlp_steps. right. exists q. split; [done|]. by exists m.
Qed.

Lemma complete_all q0 P exact acc s v : waiting q0 P exact acc s -> Certificate.is_complete (r_reps s) = true ->
  Certificate.value (r_reps s) = Some v -> msg_full v = true -> P v /\ backed (out_rid s) P v.
Proof.
  intros [_ _ _ _ Hc Hn Ha _] Hd Hv Hf. rewrite Forall_forall in Ha. assert (Hval := Certificate.inv_value _ _ _ _ Hc).
  rewrite Hv in Hval. destruct Hval as [Hin Hall]. destruct (Ha v Hin) as [HP Hr]. split; [done|]. split; [done|]. split; [done|].
  intros i Hir. unfold Certificate.is_complete in Hd. bsimp.
  destruct (Certificate.inv_complete_all num_replicas verify ltac:(lia) (r_reps s) acc Hc ltac:(lia) i Hir) as (m & Hm & <-).
  destruct (Ha m Hm) as [HPm Hrm]. exists m. split; [done|]. split; [done|]. split; [by apply (Certificate.inv_acc _ _ _ _ Hc)|].
  split; [done|]. intros Hfm. destruct (Hall m Hm Hfm) as [_ Hmm]. symmetry. by apply Reply.matches_full.
Qed.

Lemma poll_wp q0 P exact acc now s : waiting q0 P exact acc s ->
  wp (poll now) (fun r s' o => o = [] /\ match r with
    | None => s' = s
    | Some v => idle s' /\ P v /\ backed (out_rid s) P v /\ out_rid s' = Rid.new_rid now (out_rid s)
    end) s.
Proof.
  intros Hw. pose proof Hw as [Hq Hr Hs Hb Hc Hn Ha He]. unfold poll. wp_steps. rewrite Hb. wp_steps.
  case_match eqn:Hd; [|by wp_steps]. assert (Hval := Certificate.inv_value _ _ _ _ Hc). unfold Certificate.cvalue.
  destruct (Certificate.value (r_reps s)) as [v|] eqn:Ev.
  2:{ exfalso. unfold Certificate.is_complete in Hd. apply Z.leb_le in Hd.
      destruct (Certificate.inv_complete_all num_replicas verify ltac:(lia) (r_reps s) acc Hc ltac:(lia) 0 ltac:(lia)) as (m & Hm & _).
      rewrite Hval in Hm. by apply elem_of_nil in Hm. }
  wp_step. eapply wp_of_option; [done|]. case_match eqn:Hf; [|by wp_steps]. unfold renew. wp_steps.
  destruct (complete_all _ _ _ _ _ v Hw Hd Ev Hf) as [HP Hbk]. split; [done|].
  split; [|split; [done|]; split; [done|]; simpl; congruence].
  constructor; simpl; try done. eexists. by eapply oc_cert_clear.
Qed.

Lemma no_panic_app o1 o2 : no_panic (o1 ++ o2) = no_panic o1 && no_panic o2.
Proof. apply forallb_app. Qed.

(** The second of the poll that returns renews the identifier. *)
Definition polled (ins : list o_input) (now : Z) : Prop := Poll now ∈ ins.

Lemma oc_recv_loop_wp all q0 ins : (forall x, x ∈ ins -> x ∈ all) -> forall exact acc s, waiting q0 (arrived all) exact acc s ->
  wpe (read_fault all) (recv_loop ins) (fun r s' o => Forall (relay_ok q0 (read_back all)) o /\ match r with
    | Waiting => True
    | Returned None => False
    | Returned (Some v) => idle s' /\ arrived all v /\ exists rid, backed rid (arrived all) v /\
        ZlClient.renewed (polled all) rid (out_rid s') /\ (exact && no_panic o = true -> rid = oq_rid q0)
    end) s.
Proof.
  induction ins as [|x ins IH]; intros Hall exact acc s Hw; cbn [recv_loop]; [by wpe_steps|].
  assert (Hall' : forall x, x ∈ ins -> x ∈ all) by set_solver. assert (Hx : x ∈ all) by set_solver.
  destruct x as [now [m|] g|now]; [|by eapply IH|].
  - wpe_steps. eapply wpe_mono; [by eapply process_wp|].
    intros [] s1 o1 [(acc1 & Hw1) Ho1]. eapply wpe_mono; [exact (IH Hall' _ _ _ Hw1)|]. intros r s2 o2 [Ho2 Hr].
    rewrite no_panic_app, andb_assoc. split; [by apply Forall_app|by destruct r as [|[v|]]].
  - wpe_steps. apply wp_wpe. eapply wp_mono; [by eapply poll_wp|]. intros [v|] s1 o1 [-> H1].
    + wpe_steps. split; [done|]. destruct H1 as (Hid & HPv & Hb & Hrid). split; [done|]. split; [done|]. eexists. split; [done|].
      split; [by exists now|]. simpl. rewrite andb_true_r. apply (wt_exact _ _ _ _ _ Hw).
    + subst s1. by eapply IH.
Qed.

Lemma recv_loop_first all q0 ins : (forall x, x ∈ ins -> x ∈ all) -> forall exact s, waiting q0 (arrived all) exact [] s ->
  recievedOrder s = false ->
  wlp (recv_loop ins) (fun _ _ o => forall q, head o = Some (OSend_backups q) -> genuine_relay (out_rid s) (arrived all) q) s.
Proof.
  induction ins as [|x ins IH]; intros Hall exact s Hw Hro; cbn [recv_loop]; [by wlp_steps|].
  assert (Hall' : forall x, x ∈ ins -> x ∈ all) by set_solver. assert (Hx : x ∈ all) by set_solver.
  destruct x as [now [m|] g|now]; [|by eapply IH|].
  - wlp_steps. eapply wlp_mono; [eapply process_first; try done; by eexists _, _|].
    intros [] s1 o1 [[-> ->]|(q & -> & Hq)]; [by eapply IH|].
    unfold wlp. destruct (recv_loop ins s1); [|done]. by intros q' [= <-].
  - wlp_steps. eapply wlp_of_wp, wp_mono; [by eapply poll_wp|]. intros [v|] s1 o1 [-> H1]; [by wlp_steps|]. subst s1. by eapply IH.
Qed.

Lemma start_waiting P s q n : idle s -> size_fits n -> zlen (oq_command q) <= n -> oq_rid q = out_rid s -> forall n' pk,
  waiting q P true [] (mk_state (cur_rid s) (out_rid s) (Some (clear_unused q)) n' (Certificate.clear (r_reps s)) pk false
    (recievedOrder s) (order s) n (responders s)).
Proof.
  intros [Hreq Hrids Hb Ho (acc & Hi) Hc] Hf Hl Hr n' pk. constructor; simpl; try done; [by eexists|by eapply oc_cert_clear].
Qed.

Lemma take_zlen (l : list Z) n : 0 <= n -> zlen (take (Z.to_nat n) l) <= n.
Proof. unfold zlen. rewrite length_take. lia. Qed.

(** A call on an idle client sends its request to the primary, and waits. *)
Lemma cbft_invoke_wp s req size ro ins : idle s -> size_fits size ->
  (forall P, let q := completed (prepare (out_rid s) ro req) size false in
    exists s1, waiting q P true [] s1 /\ recievedOrder s1 = false /\ out_rid s1 = out_rid s /\
    (forall E Q, wpe E (recv_loop ins) (fun r s' o => Q (match r with
         | Waiting => ZlClient.Blocked | Returned None => ZlClient.Result (-1) [] None | Returned (Some m) => result_of m end)
         s' (OSend_primary q :: o)) s1 ->
     wpe E (cbft_invoke req size ro ins) Q s)).
Proof.
  intros Hid Hf P q. pose proof Hid as [Hreq Hrids Hb Hor _ _].
  exists (mk_state (cur_rid s) (out_rid s) (Some (clear_unused q)) 0 (Certificate.clear (r_reps s)) false false
    (recievedOrder s) (order s) size (responders s)). split.
  { apply start_waiting; try done. unfold q, oq_command. cbn [completed oq_base qq_command q_with_od]. apply take_zlen, Hf. }
  split; [done|]. split; [done|]. intros E Q HQ. unfold cbft_invoke, cbft_send_request, send_request. wpe_steps. rewrite Hreq. wpe_steps.
  apply wp_wpe, oc_authenticate_wp; [done|]. wpe_steps. cbn [Z.eqb]. unfold cbft_recv_reply, recv_reply. wpe_steps.
  unfold set_out_req, set_is_panicking, set_n_retrans, set_r_reps, set_lastRequestSize. cbn. rewrite Hb.
  eapply wpe_mono; [exact HQ|]. intros r s' o Hr. wpe_steps. by rewrite app_nil_r.
Qed.

(** C16. A call on an idle CBFT client, of a command that fits, whatever messages come
    and whatever deleted replies read as.  Its only fault is an access out of bounds, and that
    only when a reply arrives whose verification reads past its message, or a deleted
    reply reads as one of a replica outside 0..99.  It sends the request to the primary
    with the order -1, under the client's current identifier.  Whatever it sends to the
    backups is that same request; the order is one read from a verified reply of
    the primary, or from a deleted reply that reads as one of the primary's, and what it
    sends first has the order of a verified reply of the primary to this identifier.
    It returns 0 or -127 only with a full reply
    (a result, or a notice to switch) that every replica backs, to the current
    identifier unless the client has panicked; and when it returns it is idle again,
    with the identifier renewed. *)
Theorem cbft_invoke_sound s req size ro ins : idle s -> size_fits size ->
  let q := completed (prepare (out_rid s) ro req) size false in
  wpe (fun e => e = OutOfBounds /\ unsafe_read ins) (cbft_invoke req size ro ins) (fun r s' o => exists o', o = OSend_primary q :: o' /\
    oq_order q = -1 /\ oq_rid q = out_rid s /\ Forall (relay_ok q (read_back ins)) o' /\
    (forall q', head o' = Some (OSend_backups q') -> genuine_relay (out_rid s) (arrived ins) q') /\
    (r = ZlClient.Blocked \/ idle s' /\ exists v rid, arrived ins v /\ backed rid (arrived ins) v /\ r = result_of v /\
        (no_panic o' = true -> rid = out_rid s) /\ ZlClient.renewed (polled ins) rid (out_rid s'))) s.
Proof.
  intros Hid Hf q.
  destruct (cbft_invoke_wp s req size ro ins Hid Hf (arrived ins)) as (s1 & Hw & Hro & Hrid & Hgo).
  apply Hgo. clear Hgo. pose proof (recv_loop_first ins q ins ltac:(done) _ s1 Hw Hro) as Hfirst.
  pose proof (oc_recv_loop_wp ins q ins ltac:(done) _ _ s1 Hw) as Hloop.
  unfold wlp, wpe in *. destruct (recv_loop ins s1) as [r s' o|e]; [|done]. destruct Hloop as [Ho Hr].
  exists o. do 4 (split; [done|]). split; [by rewrite <- Hrid|].
  destruct r as [|[v|]]; [by left| |done]. right. destruct Hr as (Hid' & HP & rid & Hb & Hren & He).
  split; [done|]. by exists v, rid.
Qed.

(** ** Completion *)

Definition good_reply (rid : Z) (k : Z * Z * Z * Z * Z) (m : O_Reply) : Prop :=
  Reply.rid (or_rep m) = rid /\ verify m = true /\ (msg_full m = true -> Reply.key (or_rep m) = k) /\
  Reply.reads_inside num_replicas (or_rep m) = true.

Definition replies_to (rid : Z) (ins : list o_input) : list O_Reply :=
  omap (fun x => match x with Arrive _ (Some m) _ => if Reply.rid (or_rep m) =? rid then Some m else None | _ => None end) ins.

Lemma oc_good_accepted rid k c acc m : cert_inv c acc -> Forall (good_reply rid k) acc -> good_reply rid k m ->
  exists c', Certificate.add node_id num_replicas verify c m = Some (c', true) /\
    Certificate.complete c' = Certificate.complete c /\ cert_inv c' (acc ++ [m]).
Proof.
  intros Hi Ha (_ & Hv & Hk & _).
  destruct (Certificate.add_inv node_id num_replicas verify ltac:(lia) o_matches_refl c acc m Hi) as (c' & b & Hadd & Hc & Hi').
  enough (b = true) as -> by (by exists c').
  assert (Hr : Certificate.is_replica num_replicas (Reply.replica (or_rep m)) = true).
  { unfold verify, Reply.verify in Hv. by destruct (Certificate.is_replica _ _). }
  revert Hadd. unfold Certificate.add. cbn [msg_id O_Reply_CertMsg]. rewrite Hv, Hr. unfold Certificate.is_replica in Hr. bsimp.
  rewrite (proj2 (Z.eqb_neq _ _)) by lia. cbn [andb].
  assert (Hm : Certificate.matches (Certificate.value c) m = true).
  { assert (Hval := Certificate.inv_value _ _ _ _ Hi). unfold Certificate.matches.
    destruct (Certificate.value c) as [v|]; [|done]. destruct Hval as [Hin _]. rewrite Forall_forall in Ha.
    destruct (Ha v Hin) as (_ & _ & Hkv & _). cbn [msg_match O_Reply_CertMsg]. unfold Reply.matches.
    cbn [msg_full O_Reply_CertMsg] in Hk, Hkv. unfold Reply.full in Hk, Hkv.
    destruct (Z.ltb_spec (Reply.reply_size (or_rep m)) 0); [done|]. destruct (Z.ltb_spec (Reply.reply_size (or_rep v)) 0); [done|].
    rewrite (proj2 (Z.leb_le _ _)) in Hk by lia. rewrite (proj2 (Z.leb_le _ _)) in Hkv by lia. specialize (Hk eq_refl). specialize (Hkv eq_refl).
    rewrite <- Hkv in Hk. unfold Reply.key in Hk. injection Hk as -> -> -> -> ->. by rewrite !Z.eqb_refl. }
  rewrite Hm. destruct (Certificate.mark c (Reply.replica (or_rep m))); [|done]. simpl. congruence.
Qed.

(** Waiting with good replies only. *)
Record collecting (q0 : O_Request) (P : O_Reply -> Prop) (rid : Z) (k : Z * Z * Z * Z * Z) (acc : list O_Reply) (s : state) : Prop := {
  cl_wait : waiting q0 P true acc s;
  cl_rid : out_rid s = rid;
  cl_good : Forall (good_reply rid k) acc
}.

Lemma process_good q0 P rid k acc now m g s : collecting q0 P rid k acc s -> P m -> good_reply rid k m ->
  recievedOrder s = true /\ 0 <= Reply.replica (or_rep g) < 100 \/ acc = [] /\ Reply.replica (or_rep m) = CBFT.primary ->
  wp (processReceivedMessage now m g) (fun _ s' _ => collecting q0 P rid k (acc ++ [m]) s' /\ recievedOrder s' = true) s.
Proof.
  intros [Hw Hrid Hg] HP Hm Hor. pose proof (wt_cert _ _ _ _ _ Hw) as Hc.
  destruct (oc_good_accepted rid k _ _ m Hc Hg Hm) as (c' & Hadd & Hc' & Hi').
  assert (Hg' : Forall (good_reply rid k) (acc ++ [m])) by (apply Forall_app; by split; [|constructor]).
  destruct Hm as (Em & Hv & _ & Hins). destruct (oc_added _ _ _ _ _ _ _ Hw HP ltac:(congruence) Hi' Hc') as (Hw' & _ & Hid).
  unfold processReceivedMessage. wp_steps. rewrite Hrid, Em, Z.eqb_refl. cbn [negb].
  replace (negb (Reply.replica (or_rep m) =? CBFT.primary) && negb (recievedOrder s)) with false.
  2:{ destruct Hor as [[-> _]|[_ ->]]; [by rewrite andb_false_r|done]. }
  wp_step. apply wp_in_bounds; [by rewrite Hins, orb_true_r|].
  wp_steps. eapply wp_of_option; [exact Hadd|]. cbn [fst snd negb]. wp_steps.
  set (x := if kept (r_reps s) m then m else g).
  assert (Hx : 0 <= Reply.replica (or_rep x) < 100 /\ (recievedOrder s = true \/ Reply.replica (or_rep x) = CBFT.primary)).
  { destruct Hor as [[Hro Hgid]|[-> Hp]]; [split; [by unfold x; destruct (kept _ _)|by left]|].
    pose proof (Certificate.inv_value _ _ _ _ Hc) as Hval. unfold x, kept.
    destruct (Certificate.value (r_reps s)); [destruct Hval as [Hin _]; by apply elem_of_nil in Hin|]. by split; [|right]. }
  destruct Hx as [Hxid Hxor]. case_bool; bsimp.
  - wp_steps. eapply wp_mono; [eapply (send_ordered_wp q0 P true (acc ++ [m])); by destruct Hw'; constructor|].
    intros b s' o (Hw2 & Hr2 & Hrid2 & _). wp_steps. split; [|done]. by constructor; [|rewrite Hrid2|].
  - destruct Hxor as [Hxor|]; [|done]. rewrite (proj2 (Z.ltb_ge _ _)), (proj2 (Z.leb_gt _ _)) by lia. cbn [orb]. wp_steps.
    split; [|done]. constructor; try done. by destruct Hw'; constructor.
Qed.

(** A poll that does not return has not got everything. *)
Lemma poll_good q0 P exact acc now s : waiting q0 P exact acc s -> (exists m, m ∈ acc /\ msg_full m = true) ->
  (forall i, 0 <= i < num_replicas -> exists m, m ∈ acc /\ Reply.replica (or_rep m) = i) ->
  wp (poll now) (fun r _ _ => is_Some r) s.
Proof.
  intros Hw (mf & Hmf & Hf) Hall. pose proof Hw as [Hq Hr Hs Hb Hc Hn Ha He]. unfold poll. wp_steps. rewrite Hb. wp_steps.
  assert (Hd : Certificate.is_complete (r_reps s) = true).
  { unfold Certificate.is_complete. apply Z.leb_le. rewrite Hn.
    by apply (Certificate.inv_all_count num_replicas verify ltac:(lia) _ acc). }
  rewrite Hd. assert (Hval := Certificate.inv_value _ _ _ _ Hc). unfold Certificate.cvalue.
  destruct (Certificate.value (r_reps s)) as [v|]; [|rewrite Hval in Hmf; by apply elem_of_nil in Hmf].
  wp_step. eapply wp_of_option; [done|]. destruct (proj2 Hval mf Hmf Hf) as [-> _]. unfold renew. by wp_steps.
Qed.

(** The deleted replies to [rid] read as replies of someone [responders] has a place for. *)
Definition names_kept (rid : Z) (ins : list o_input) : Prop := forall now m g,
  Arrive now (Some m) g ∈ ins -> Reply.rid (or_rep m) = rid -> 0 <= Reply.replica (or_rep g) < 100.

Lemma oc_recv_loop_good q0 P rid k ins t : (forall m, m ∈ replies_to rid ins -> P m) -> names_kept rid ins ->
  forall acc s, collecting q0 P rid k acc s -> recievedOrder s = true ->
  Forall (good_reply rid k) (replies_to rid ins) -> (exists m, m ∈ acc ++ replies_to rid ins /\ msg_full m = true) ->
  (forall i, 0 <= i < num_replicas -> exists m, m ∈ acc ++ replies_to rid ins /\ Reply.replica (or_rep m) = i) ->
  wp (recv_loop (ins ++ [Poll t])) (fun r _ _ => exists v, r = Returned (Some v) /\ P v /\ msg_full v = true) s.
Proof.
  induction ins as [|x ins IH]; intros HP Hnm acc s Hcl Hro Hg Hf Hall.
  { cbn. wp_steps. rewrite app_nil_r in Hf. pose proof (poll_wp _ _ _ _ t _ (cl_wait _ _ _ _ _ _ Hcl)) as H1.
    pose proof (poll_good _ _ _ _ t _ (cl_wait _ _ _ _ _ _ Hcl) Hf) as H2. unfold wp in *.
    destruct (poll t s) as [r s' o|]; [|done]. destruct H2 as [v ->].
    - intros i Hi. destruct (Hall i Hi) as (m & Hm & Hr). rewrite app_nil_r in Hm. by exists m.
    - destruct H1 as (_ & _ & HPv & [Hfv _] & _). wp_steps. by exists v. }
  assert (Hnm' : names_kept rid ins) by (intros now m g Hin; apply (Hnm now m g); by right).
  destruct x as [now [m|] g|now]; cbn [app recv_loop].
  - cbn in HP, Hg, Hf, Hall. destruct (Z.eqb_spec (Reply.rid (or_rep m)) rid) as [E|E].
    + apply Forall_cons in Hg as [Hm Hg]. wp_steps. eapply wp_mono; [eapply process_good; [done|apply HP; by left|done|]|].
      { left. split; [done|]. by apply (Hnm now m g); [left|]. }
      intros [] s1 o1 [Hcl1 Hro1]. eapply wp_mono; [apply (IH ltac:(intros; apply HP; by right) Hnm' (acc ++ [m])); try done; by setoid_rewrite <- app_assoc|]. done.
    + wp_steps. unfold processReceivedMessage. wp_steps. rewrite (cl_rid _ _ _ _ _ _ Hcl), (proj2 (Z.eqb_neq _ _)) by done.
      cbn [negb]. wp_steps. by eapply (IH HP Hnm').
  - by eapply (IH HP Hnm').
  - wp_steps. eapply wp_mono; [eapply poll_wp; apply Hcl|]. intros [v|] s1 o1 [-> H1]; [|subst s1; by eapply (IH HP Hnm')].
    wp_steps. destruct H1 as (_ & HPv & [Hfv _] & _). by exists v.
Qed.

(** C17. A call completes: the command fits; a verified reply of the primary to the
    current identifier arrives first, and then verified replies of all the backups; all the
    replies to this identifier are authenticated, agree where they are full and lie
    within their messages, at least one of them is full, and what is left of deleted ones
    names a replica in 0..99.  Then, whatever replies to other identifiers arrive and
    whenever the call has polled before, the next poll returns from the call: with the
    result of a full reply among them, or with -127 when that reply is a notice to
    switch. *)
Theorem cbft_invoke_completes s req size ro t p g ins t' k : idle s -> size_fits size ->
  good_reply (out_rid s) k p -> Reply.replica (or_rep p) = CBFT.primary ->
  Forall (good_reply (out_rid s) k) (replies_to (out_rid s) ins) -> names_kept (out_rid s) ins ->
  (forall i, 0 < i < num_replicas -> exists m, m ∈ replies_to (out_rid s) ins /\ Reply.replica (or_rep m) = i) ->
  (exists m, m ∈ p :: replies_to (out_rid s) ins /\ msg_full m = true) ->
  wp (cbft_invoke req size ro (Arrive t (Some p) g :: ins ++ [Poll t'])) (fun r s' _ =>
    exists v, v ∈ p :: replies_to (out_rid s) ins /\ msg_full v = true /\ r = result_of v) s.
Proof.
  intros Hid Hf Hp Hpr Hg Hnm Hall Hfull. set (P := fun m => m ∈ p :: replies_to (out_rid s) ins).
  destruct (cbft_invoke_wp s req size ro (Arrive t (Some p) g :: ins ++ [Poll t']) Hid Hf P) as (s1 & Hw & Hro & Hrid & Hgo).
  apply wpe_wp, Hgo, wp_wpe. clear Hgo. cbn [recv_loop]. wp_steps.
  assert (Hcl : collecting (completed (prepare (out_rid s) ro req) size false) P (out_rid s) k [] s1) by (by constructor).
  eapply wp_mono; [eapply process_good; [done|by left|done|by right]|]. intros [] s2 o2 [Hcl2 Hro2].
  eapply wp_mono; [eapply (oc_recv_loop_good _ P); [by right|done|done|done|done|exact Hfull|]|].
  - intros i Hi. destruct (Z.eq_dec i 0) as [->|]; [exists p; split; [left|done]|].
    destruct (Hall i ltac:(lia)) as (m & Hm & Hr). exists m. split; [by right|done].
  - intros r s3 o3 (v & -> & HPv & Hfv). by exists v.
Qed.
End client.

(** ** Client 9 of a group of four *)

Section example.

Definition oc_md5 (l : list Z) : Z := foldr Z.add 0 l.
Definition oc_md5_request (c r : Z) (bytes : list Z) : Z := 7.
Definition oc_mac (_ : O_Reply) : bool := true.
Definition oc_auth (_ : Z * (Z * Z * Z * Z * Z * Z * Z * Z)) : list Z := [].
Definition oc_blank : O_Reply := mk_orep 0 (Reply.mk 0 0 0 0 0 (-1) 0 false quorum 0 []).
Definition oc_client : state := initial 4 1 0 0 (replicate 100 false).
Definition oc_request : O_Request := mk_oreq 0 (mk_qreq 0 0 0 (-1) 9 0 0 [5] []).

(** The reply [8] of replica [i], to the order 3. *)
Definition oc_reply (i : Z) : O_Reply :=
  mk_orep 3 (Reply.mk 0 (out_rid oc_client) 11 8 i 1 (-1) false quorum 104 [8]).

(** Deleted replies read as they did. *)
Definition oc_arrive (now i : Z) : o_input := Arrive now (Some (oc_reply i)) (oc_reply i).

Definition oc_rest : list o_input := [Arrive 2 None oc_blank; oc_arrive 2 3; Poll 2; oc_arrive 3 1; oc_arrive 3 2].
Definition oc_inputs : list o_input := oc_arrive 1 0 :: oc_rest ++ [Poll 4].

Abbreviation oc_invoke := (cbft_invoke 9 4 7 oc_md5 oc_md5_request oc_mac oc_auth oc_blank oc_request 1 false).

Lemma oc_idle : idle 4 oc_md5 oc_mac oc_client.
Proof. constructor; try done. eexists. apply Certificate.create_inv. Qed.

Lemma oc_fits : size_fits 4 1.
Proof. unfold size_fits, size_limit, client_auth_size, CBFT.O_Max_message_size, CBFT.sizeof_Request_rep. lia. Qed.

Lemma oc_four : 0 < 4 <= Max_num_replicas.
Proof. unfold Max_num_replicas. lia. Qed.

Lemma oc_good i : 0 <= i < 4 -> good_reply 4 oc_md5 oc_mac (out_rid oc_client) (11, 0, -1, out_rid oc_client, 8) (oc_reply i).
Proof.
  intros Hi. split; [done|].
  assert (i = 0 \/ i = 1 \/ i = 2 \/ i = 3) as [-> | [-> | [-> | ->]]] by lia; repeat split.
Qed.

Lemma oc_arrivals now m g : Arrive now (Some m) g ∈ oc_inputs -> g = m /\ exists i, 0 <= i < 4 /\ m = oc_reply i.
Proof.
  intros Hin%list_elem_of_In. cbn [oc_inputs oc_rest app In] in Hin.
  repeat destruct Hin as [Hin|Hin]; try discriminate; try done; injection Hin as <- <- <-;
    (split; [done|]); eexists; (split; [|reflexivity]); lia.
Qed.

Abbreviation oc_sent := (completed 4 7 oc_md5_request oc_auth (prepare 9 (out_rid oc_client) false oc_request) 1 false).

Lemma oc_result : exists s' o, oc_invoke oc_inputs oc_client = Done (ZlClient.Result 0 [8] None) s' o /\ no_panic o = true.
Proof. eexists _, _. split; [vm_compute; reflexivity|reflexivity]. Qed.

Lemma cbft_invoke_sound_witness :
  exists s' o', oc_invoke oc_inputs oc_client = Done (ZlClient.Result 0 [8] None) s' (OSend_primary oc_sent :: o') /\
    idle 4 oc_md5 oc_mac s' /\ no_panic o' = true /\
    exists v, arrived oc_inputs v /\ backed 4 oc_md5 oc_mac (out_rid oc_client) (arrived oc_inputs) v /\
      ZlClient.Result 0 [8] None = result_of v.
Proof.
  pose proof (cbft_invoke_sound 9 4 7 oc_md5 oc_md5_request oc_mac oc_auth oc_blank oc_four ltac:(lia)
    oc_client oc_request 1 false oc_inputs oc_idle oc_fits) as H.
  destruct oc_result as (s' & o & E & Hn). apply (wpe_done _ _ _ _ _ _ _ H) in E as H'. clear H. rename H' into H.
  destruct H as (o' & -> & _ & _ & _ & _ & H). exists s', o'. split; [exact E|].
  destruct H as [H|(Hid & v & rid & Hv & Hb & Hr & Hrid & _)]; [discriminate H|].
  specialize (Hrid Hn). subst rid. split; [exact Hid|]. split; [exact Hn|].
  exists v. split; [exact Hv|]. split; [exact Hb|exact Hr].
Defined.

Lemma cbft_invoke_completes_witness : wp (oc_invoke oc_inputs) (fun r s' _ =>
    exists v, v ∈ oc_reply 0 :: replies_to (out_rid oc_client) oc_rest /\ msg_full v = true /\ r = result_of v) oc_client.
Proof.
  assert (Hr : replies_to (out_rid oc_client) oc_rest = [oc_reply 3; oc_reply 1; oc_reply 2]) by (vm_compute; reflexivity).
  apply (cbft_invoke_completes 9 4 7 oc_md5 oc_md5_request oc_mac oc_auth oc_blank oc_four ltac:(lia)
    oc_client oc_request 1 false 1 (oc_reply 0) (oc_reply 0) oc_rest 4 (11, 0, -1, out_rid oc_client, 8) oc_idle oc_fits);
    [apply oc_good; lia|reflexivity|rewrite Hr; apply Forall_forall; intros m Hm|..].
  - apply list_elem_of_In in Hm. cbn [In] in Hm. destruct Hm as [<-|[<-|[<-|[]]]]; apply oc_good; lia.
  - intros now m g Hin _. destruct (oc_arrivals now m g) as (-> & i & Hi & ->); [|cbn; lia].
    right. apply elem_of_app. by left.
  - rewrite Hr. intros i Hi. exists (oc_reply i). split; [|reflexivity].
    assert (i = 1 \/ i = 2 \/ i = 3) as [-> | [-> | ->]] by lia; apply list_elem_of_In; cbn [In]; tauto.
  - exists (oc_reply 0). split; [left|reflexivity].
Defined.

(** Reading a deleted reply: if the memory of the backup's reply, once freed, reads
    as a reply of the primary with another order, the client sends the request
    to the backups a second time, with that order. *)
Lemma freed_reply_relayed : exists s' o q q',
  recv_loop 9 4 7 oc_md5 oc_md5_request oc_mac oc_auth oc_blank
    [oc_arrive 1 0; Arrive 2 (Some (oc_reply 1)) (mk_orep 66 (or_rep (oc_reply 0)))]
    (set_out_req (Some (prepare 9 (out_rid oc_client) false oc_request)) (set_lastRequestSize 1 oc_client)) = Done Waiting s' o /\
  o = [OSend_backups q; OSend_backups q'] /\ oq_order q = 3 /\ oq_order q' = 66.
Proof. eexists _, _, _, _. split; [vm_compute; reflexivity|]. done. Qed.
End example.
End OClient.
