(* ===== verification/QuorumRoundTrip.v ===== *)
(** * A request through Quorum

    The composition of the Quorum client and the replicas: the request a client
    sends verifies at every replica, each executes it and answers, and the
    answers complete the client's certificate.

    The hypotheses on cryptography say that the checks accept what the other side
    generates: [verify_auth] the authenticators of [gen_auth], [mac_ok] the
    replies of replicas. *)

From S2P Require Import Prelude Effects Bytes Bitmap Certificate Reply ReqHistory SCSet Recover Smasher ZlReplica AtMostOnce Quorum ZlClient QClient.
Local Open Scope Z_scope.

#[local] Existing Instance Reply.Reply_CertMsg.

Module QuorumRoundTrip.
Import Bytes.
Section trip.
Context {S : Type}.
Context (num_replicas max_faulty num_principals node_id lrand48 : Z).
Context (modulus : Z) (MD5_sum : Z -> Z) (MD5_reply : list Z -> Z) (MD5_request : Z -> Z -> list Z -> Z).
Context (gen_auth : Z * Z * Z * Z * Z * Z * Z * Z -> list Z).
Context (verify_auth : Z -> Z -> Z * Z * Z * Z * Z * Z * Z * Z -> list Z -> bool) (mac_ok : Reply.t -> bool).
Context (checkpoint_sig : zl_Checkpoint -> bool) (abort_verify : Smasher.zl_Abort -> bool) (abort_digest : Smasher.zl_Abort -> Z) (sig_size : Z).
Context (exec_command : S -> Z -> list Z -> S * list Z).

Hypothesis replicas_ok : num_replicas = 3 * max_faulty + 1 /\ 2 < num_replicas <= Max_num_replicas.
Hypothesis client_ok : num_replicas <= node_id < num_principals.
Hypothesis modulus_ok : 2 ^ 128 <= modulus < 2 ^ (DSum.nbits - 1).
Hypothesis MD5_range : forall c r bytes, 0 <= MD5_request c r bytes < 2 ^ 128.
Hypothesis auth_accepted : forall nid h, 0 <= nid < num_replicas -> verify_auth nid node_id h (gen_auth h) = true.

Local Abbreviation state := (@Quorum.state S).
Local Abbreviation run_event := (Quorum.run_event num_replicas max_faulty num_principals modulus MD5_sum
  MD5_reply MD5_request verify_auth checkpoint_sig abort_verify abort_digest sig_size exec_command).
Local Abbreviation completed := (QClient.completed num_replicas lrand48 MD5_request gen_auth).
Local Abbreviation prepare := (QClient.prepare node_id).
Local Abbreviation request_verify := (Quorum.request_verify num_replicas num_principals MD5_request verify_auth).

Lemma trip_group : num_replicas = 3 * max_faulty + 1 /\ 0 < num_replicas <= Max_num_replicas.
Proof. lia. Qed.

(** ** The request *)

Lemma ALIGNED_SIZE_bound sz : ALIGNED_SIZE sz <= sz + 8.
Proof. unfold ALIGNED_SIZE. pose proof (Z.mod_pos_bound sz 8 ltac:(lia)). case_bool; lia. Qed.

Lemma ALIGNED_SIZE_ge sz : sz <= ALIGNED_SIZE sz.
Proof. unfold ALIGNED_SIZE. pose proof (Z.mod_pos_bound sz 8 ltac:(lia)). case_bool; lia. Qed.

Lemma request_verifies nid r size : 0 <= nid < num_replicas -> qq_cid r = node_id ->
  QClient.size_fits num_replicas size -> size <= zlen (qq_command r) ->
  request_verify nid (completed r size false) = true.
Proof.
  intros Hn Hc [[H0 Hf] H15] Hl. unfold Quorum.request_verify.
  assert (Hlen : zlen (qq_command (completed r size false)) = size).
  { cbn [QClient.completed qq_command q_with_od]. unfold zlen in *. rewrite length_take. lia. }
  assert (Hd : Quorum.comp_digest MD5_request (completed r size false) = qq_od (completed r size false)) by reflexivity.
  assert (Hh : verify_auth nid (qq_cid (completed r size false)) (Quorum.header (completed r size false)) (qq_auth (completed r size false)) = true).
  { rewrite <- (auth_accepted nid (Quorum.header (completed r size false)) Hn), <- Hc. reflexivity. }
  rewrite Hlen, Hd, Z.eqb_refl, Hh. cbn [QClient.completed qq_cid qq_size q_with_od]. rewrite Hc.
  unfold Quorum.is_principal, Quorum.auth_size. unfold QClient.size_limit, QClient.client_auth_size, Quorum.Q_Max_message_size, Quorum.sizeof_Request_rep in *.
  rewrite (proj2 (Z.leb_le 0 node_id)), (proj2 (Z.ltb_lt node_id num_principals)) by lia.
  rewrite (proj2 (Z.eqb_neq node_id nid)), (proj2 (Z.leb_le num_replicas node_id)) by lia.
  rewrite (proj2 (Z.ltb_ge node_id num_replicas)) by lia.
  pose proof (ALIGNED_SIZE_ge (48 + size + (num_replicas * 8 + 8))).
  pose proof (ALIGNED_SIZE_le (48 + size + (num_replicas * 8 + 8)) 60000 eq_refl ltac:(lia)).
  rewrite wrapu_id by (unfold in_u; lia). by rewrite (proj2 (Z.leb_le (num_replicas * 8 + 8) _)) by lia.
Qed.

(** What [authenticate] signs, [verify] accepts: a request of this client with
    at least [size] bytes of command verifies at every replica. *)
Theorem request_roundtrip nid r size : 0 <= nid < num_replicas -> qq_cid r = node_id ->
  QClient.size_fits num_replicas size -> size <= zlen (qq_command r) ->
  request_verify nid (completed r size false) = true.
Proof. apply request_verifies. Qed.

(** ** The answers *)

(** A replica in normal operation that has not executed the request, with the
    digest sum [D] of its history. *)
Record ready (D rid i : Z) (s : state) : Prop := {
  rd_inv : Quorum.inv num_replicas num_principals modulus s;
  rd_normal : Quorum.cur_state s = replica_state_NORMAL;
  rd_id : Quorum.node_id s = i;
  rd_sum : ReqHistory.rh_d (Quorum.rh s) = D;
  rd_slot : exists old, Quorum.replies s !! Z.to_nat node_id = Some old /\ rr_rid old < rid
}.

(** Delivering [q] to a replica in state [s] makes it execute [q] and send [rep]
    to the client. *)
Definition answers (s : state) (q : Q_Request) (rep : Reply.t) : Prop :=
  exists s' o, run_event (Quorum.Deliver false (Q_Request_msg q)) s = Done tt s' o /\
    Quorum.executed o = [q] /\ Quorum.sent o = [(node_id, rep)].

(** What the replies to a request have in common. *)
Definition reply_key (D : Z) (q : Q_Request) (out : list Z) : Z * Z * Z * Z * Z :=
  (MD5_sum ((D + qq_od q) mod modulus), 0, -1, qq_rid q, MD5_reply out).

(** A reply of replica [i] with the result [out]. *)
Record reply_of (D : Z) (q : Q_Request) (out : list Z) (i : Z) (rep : Reply.t) : Prop := {
  ro_id : Reply.replica rep = i;
  ro_rid : Reply.rid rep = qq_rid q;
  ro_stay : Reply.should_switch rep = false;
  ro_size : Reply.size_ok rep = true;
  ro_inside : Reply.reads_inside num_replicas rep = true;
  ro_full : Reply.full rep = true -> Reply.key rep = reply_key D q out /\
    Reply.reply_size rep = zlen out /\ Reply.body rep = Replica.pad out;
  ro_replier : i = Quorum.replier -> Reply.full rep = true
}.

Lemma size_ok_full n m : 0 <= n < 2 ^ 31 - 200 -> m = ALIGNED_SIZE (80 + n + 16) ->
  (wrapu 32 (wrapu 32 (m - 80) - n) <? 16) = false.
Proof.
  intros Hn ->. pose proof (ALIGNED_SIZE_ge (80 + n + 16)).
  assert (ALIGNED_SIZE (80 + n + 16) <= 80 + n + 16 + 8).
  { unfold ALIGNED_SIZE. pose proof (Z.mod_pos_bound (80 + n + 16) 8 ltac:(lia)). case_bool; lia. }
  rewrite !wrapu_id by (unfold in_u; try rewrite wrapu_id by (unfold in_u; lia); lia). apply Z.ltb_ge. lia.
Qed.

Lemma answer_reply_of me D q out rep : qq_cid q = node_id -> out <> [] -> zlen out < 2 ^ 31 - 200 ->
  Quorum.first_reply MD5_reply me q (MD5_sum ((D + qq_od q) mod modulus)) out = [(node_id, rep)] ->
  reply_of D q out me rep.
Proof.
  intros Hc Hne Hlen. unfold Quorum.first_reply, Quorum.answer. cbn [Quorum.new_slot rr_reply_size rr_digest].
  assert (Hpos : 0 < zlen out) by (destruct out; [done|rewrite zlen_cons; pose proof (zlen_nonneg out); lia]).
  rewrite (proj2 (Z.eqb_neq (zlen out) 0)) by lia.
  destruct ((zlen out <? 50) || (me =? Quorum.replier)) eqn:E; cbn; intros [= _ <-].
  - constructor; cbn; try done.
    + unfold Reply.size_ok, Reply.full, Reply.sizeof_rep, Reply.MAC_size. cbn [Reply.reply_size Reply.msg_size Quorum.full_reply Quorum.new_slot rr_reply_size].
      rewrite (proj2 (Z.leb_le 0 (zlen out))) by lia. by rewrite (size_ok_full (zlen out)) by (done || lia).
    + unfold Reply.reads_inside, Reply.full, Reply.sizeof_rep, Reply.MAC_size. cbn [Reply.reply_size Reply.msg_size Quorum.full_reply Quorum.new_slot rr_reply_size].
      rewrite (proj2 (Z.leb_le 0 (zlen out))) by lia. pose proof (ALIGNED_SIZE_ge (80 + zlen out + 16)).
      rewrite (proj2 (Z.leb_le _ (ALIGNED_SIZE _))) by done. by rewrite orb_true_r.
    + intros _. unfold Reply.full. cbn. apply Z.leb_le. lia.
  - bsimp. constructor; try done. unfold Reply.reads_inside. by rewrite orb_true_r.
Qed.

Lemma replica_answers D q i s out : 0 <= i < num_replicas -> ready D (qq_rid q) i s -> qq_cid q = node_id ->
  request_verify i q = true -> Quorum.is_read_only q = false -> 0 < qq_rid q -> Quorum.request_fits q ->
  (exec_command (Quorum.service s) node_id (qq_command q)).2 = out -> out <> [] -> zlen out < 2 ^ 31 - 200 ->
  exists rep, answers s q rep /\ forall rep', answers s q rep' -> reply_of D q out i rep'.
Proof.
  intros Hi [Hinv Hn Hid Hs (old & Hold & Hlt)] Hc Hv Hro Hr Hfit Hout Hne Hlen. subst i.
  rewrite <- Hc in Hold. 
  destruct (Quorum.deliver_fresh num_replicas max_faulty num_principals modulus MD5_sum MD5_reply MD5_request verify_auth
    checkpoint_sig abort_verify abort_digest sig_size exec_command modulus_ok MD5_range false q s old Hinv Hn Hv Hro Hr Hfit Hold Hlt)
    as (s' & o & Hrun & _ & _ & _ & old' & _ & Hb).
  rewrite Hc in Hb. destruct (exec_command (Quorum.service s) node_id (qq_command q)) as [sv out']. simpl in Hout. subst out'.
  destruct Hb as (dg & _ & -> & _ & _ & _ & Hdg & _). rewrite Hs in Hdg. subst dg.
  assert (Hsent := Quorum.sent_answer (Quorum.node_id s) q (Quorum.new_slot MD5_reply q (MD5_sum ((D + qq_od q) mod modulus)) out)
    (qq_rid q mod Quorum.NOTIF_PERIOD =? 0)).
  destruct (Quorum.first_reply_spec MD5_reply (Quorum.node_id s) q (MD5_sum ((D + qq_od q) mod modulus)) out Hne) as (rep & Hrep & _).
  rewrite Hc in Hrep. unfold Quorum.first_reply in Hrep. rewrite Hrep in Hsent.
  exists rep. split; [eexists _, _; split; [done|]; split; [apply Quorum.executed_answer|done]|].
  intros rep' (s1 & o1 & Hrun1 & _ & Hsent1). rewrite Hrun in Hrun1. injection Hrun1 as <- <-.
  rewrite Hsent in Hsent1. injection Hsent1 as <-. by apply answer_reply_of.
Qed.

(** The replies of replicas are ones the client's certificate takes. *)
Lemma reply_of_good D q out i rep : 0 <= i < num_replicas -> reply_of D q out i rep -> mac_ok rep = true ->
  ZlClient.good_reply num_replicas MD5_reply mac_ok (qq_rid q) (reply_key D q out) rep.
Proof.
  intros Hi [Hid Hr Hst Hsz Hin Hf _] Hm. split; [done|]. split; [done|]. split; [|split; [done|intros E; by destruct (Hf E)]].
  unfold Reply.verify, Certificate.is_replica. rewrite Hid, Hsz, Hm.
  rewrite (proj2 (Z.leb_le 0 i)), (proj2 (Z.ltb_lt i num_replicas)) by lia. cbn [negb andb].
  destruct (Reply.full rep) eqn:E; [|done]. destruct (Hf eq_refl) as (Hk & Hsize & Hbody). cbn [andb].
  rewrite Hsize, Hbody, (Replica.take_pad out : take (Z.to_nat (zlen out)) (Replica.pad out) = out).
  unfold Reply.key, reply_key in Hk. injection Hk as _ _ _ _ ->. by rewrite Z.eqb_refl.
Qed.

(** The replies to the call that arrive are those of the replicas to [q], each
    at least once. *)
Definition delivered (reps : list state) (q : Q_Request) (rs : list Reply.t) : Prop :=
  (forall m, m ∈ rs -> exists i s, reps !! i = Some s /\ answers s q m) /\
  (forall i s m, reps !! i = Some s -> answers s q m -> m ∈ rs).

(** The replicas can pass the request on. *)
Lemma completed_fits r size : QClient.size_fits num_replicas size -> size <= zlen (qq_command r) ->
  Quorum.request_fits (completed r size false).
Proof.
  intros [[H0 _] H15] Hl. pose proof (ALIGNED_SIZE_bound (Quorum.sizeof_Request_rep + size + QClient.client_auth_size num_replicas)) as Hb.
  pose proof (ALIGNED_SIZE_ge (Quorum.sizeof_Request_rep + size + QClient.client_auth_size num_replicas)) as Hg. split.
  - cbn [QClient.completed qq_command qq_size q_with_od]. unfold zlen in *. rewrite length_take.
    unfold QClient.client_auth_size in *. lia.
  - apply Z.leb_le. apply ALIGNED_SIZE_le; [done|]. simpl.
    unfold Quorum.sizeof_Request_rep, Quorum.sizeof_gag_rep, QClient.client_auth_size, Quorum.Q_Max_message_size, Max_num_replicas in *. lia.
Qed.

(** C12. A request makes the round trip, in a group whose replicas are all correct: an idle client calls with a
    command that fits; the replicas are in normal operation with equal history digests and
    equal, non-empty results for the command, below [2 ^ 31 - 200] bytes; then each replica verifies and
    executes the client's request, and once their replies have arrived, in whatever order and
    among replies to other requests, the call has returned 0 with that result. *)
Theorem quorum_round_trip (c : QClient.state) req size ro ins reps D out :
  QClient.idle num_replicas max_faulty MD5_reply mac_ok c -> QClient.size_fits num_replicas size ->
  qq_cid req = node_id -> size <= zlen (qq_command req) -> 0 < QClient.out_rid c ->
  Z.of_nat (length reps) = num_replicas ->
  (forall i s, reps !! i = Some s -> ready D (QClient.out_rid c) (Z.of_nat i) s /\
     (exec_command (Quorum.service s) node_id (take (Z.to_nat size) (qq_command req))).2 = out) ->
  out <> [] -> zlen out < 2 ^ 31 - 200 ->
  let q := completed (prepare (QClient.out_rid c) ro req) size false in
  (forall i s m, reps !! i = Some s -> answers s q m -> mac_ok m = true) ->
  delivered reps q (ZlClient.replies_to (QClient.out_rid c) ins) ->
  (forall i s, reps !! i = Some s -> exists rep, answers s q rep) /\
  wp (QClient.quorum_invoke node_id num_replicas lrand48 MD5_reply MD5_request mac_ok gen_auth req size ro ins)
     (fun r _ _ => r = ZlClient.Result 0 out None) c.
Proof.
  intros Hidle Hfits Hc Hl Hrid Hlen Hreps Hne Hsmall q Hmac [Hfrom Hto].
  assert (Hans : forall i s, reps !! i = Some s -> exists rep, answers s q rep /\
            forall rep', answers s q rep' -> reply_of D q out (Z.of_nat i) rep').
  { intros i s His. pose proof (lookup_lt_Some _ _ _ His). destruct (Hreps i s His) as [Hrd Hout].
    apply replica_answers; try done; [lia|apply request_verifies; try done; lia|apply QClient.completed_writes|by apply completed_fits]. }
  assert (Hgood : Forall (ZlClient.good_reply num_replicas MD5_reply mac_ok (QClient.out_rid c) (reply_key D q out))
            (ZlClient.replies_to (QClient.out_rid c) ins)).
  { apply Forall_forall. intros m (i & s & His & Hm)%Hfrom. pose proof (lookup_lt_Some _ _ _ His).
    destruct (Hans i s His) as (_ & _ & Hrep). change (QClient.out_rid c) with (qq_rid q).
    apply (reply_of_good D q out (Z.of_nat i)); [lia|by apply Hrep|by eapply Hmac]. }
  assert (Hget : forall i, 0 <= i < num_replicas -> exists m, m ∈ ZlClient.replies_to (QClient.out_rid c) ins /\ reply_of D q out i m).
  { intros i Hi. destruct (lookup_lt_is_Some_2 reps (Z.to_nat i)) as [s His]; [lia|].
    destruct (Hans _ s His) as (rep & Ha & Hrep). exists rep. split; [by eapply Hto|].
    rewrite <- (Z2Nat.id i) by lia. by apply Hrep. }
  split; [intros i s His; destruct (Hans i s His) as (rep & Ha & _); by exists rep|].
  pose proof (QClient.quorum_invoke_returns node_id num_replicas max_faulty lrand48 MD5_reply MD5_request mac_ok gen_auth trip_group
    ltac:(lia) c req size ro ins (reply_key D q out) Hidle Hfits Hgood
    ltac:(intros i Hi; destruct (Hget i Hi) as (m & Hm & Hro); exists m; split; [done|apply Hro])
    ltac:(destruct (Hget 2 ltac:(lia)) as (m & Hm & Hro); exists m; split; [done|by apply (ro_replier _ _ _ _ _ Hro)])) as Hret.
  assert (Hin : forall v, ZlClient.arrived ins v -> Reply.rid v = QClient.out_rid c -> v ∈ ZlClient.replies_to (QClient.out_rid c) ins).
  { intros v [now Hv] Hr. apply list_elem_of_omap. eexists. split; [exact Hv|]. simpl. by rewrite Hr, Z.eqb_refl. }
  assert (Hinside : ZlClient.inside num_replicas (QClient.out_rid c) ins).
  { intros m Hm Hr. rewrite Forall_forall in Hgood. by apply (Hgood m (Hin m Hm Hr)). }
  pose proof (QClient.quorum_invoke_spec node_id num_replicas max_faulty lrand48 MD5_reply MD5_request mac_ok gen_auth trip_group
    ltac:(lia) c req size ro ins Hidle Hfits Hinside) as Hspec.
  unfold wp in *. destruct (QClient.quorum_invoke _ _ _ _ _ _ _ _ _ _ _ c) as [r s' o|]; [|done].
  destruct r as [|k contents next]; [done|]. destruct Hspec as (_ & _ & _ & [(-> & -> & v & (Hf & Hr & _) & Hv & ->)|(-> & v & Hv & Hr & Hsw & _)]).
  - f_equal. destruct (Hfrom v (Hin v Hv Hr)) as (i & s & His & Ha). destruct (Hans i s His) as (_ & _ & Hrep).
    destruct (ro_full _ _ _ _ _ (Hrep v Ha) Hf) as (_ & -> & ->). apply (Replica.take_pad out).
  - rewrite Forall_forall in Hgood. destruct (Hgood v (Hin v Hv Hr)) as (_ & Hns & _). congruence.
Qed.
End trip.
End QuorumRoundTrip.

(** ** Four fresh replicas and client 4 *)

Module RoundTripExample.
Import Bytes QuorumRoundTrip ZlExample QExample.

Definition rt_gen (_ : Z * Z * Z * Z * Z * Z * Z * Z) : list Z := [].
Definition rt_mac (_ : Reply.t) : bool := true.
Definition rt_client : QClient.state := QClient.initial 1 1.
Definition rt_request : Q_Request := mk_qreq 0 0 0 (-1) 4 0 0 [7; 8; 9] [].
Definition rt_reps : list Quorum.state := (fun i => init_q i) <$> [0; 1; 2; 3].
Definition rt_sent : Q_Request :=
  QClient.completed 4 7 md5_client rt_gen (QClient.prepare 4 (QClient.out_rid rt_client) false rt_request) 2 false.

(** The replies of the four replicas, in some order, after a packet that is none. *)
Definition rt_answer (s : Quorum.state) : list Reply.t :=
  match run_event_q (Quorum.Deliver false (Q_Request_msg rt_sent)) s with
  | Done _ _ o => snd <$> Quorum.sent o
  | Fault _ => []
  end.
Definition rt_ins : list (input Reply.t) := Packet 2 None :: (Packet 3 ∘ Some <$> reverse (rt_reps ≫= rt_answer)).

Abbreviation answers_q := (answers 4 1 7 4 mod_ex md5_sum md5_reply md5_client auth_yes sig_yes sig_yes abort_d 40 log_service).

Lemma rt_group : 4 = 3 * 1 + 1 /\ 2 < 4 <= Max_num_replicas.
Proof. unfold Max_num_replicas. lia. Qed.

Lemma rt_answers i s m : rt_reps !! i = Some s -> answers_q s rt_sent m -> rt_answer s = [m].
Proof. intros _ (s' & o & Hr & _ & Hs). unfold rt_answer. by rewrite Hr, Hs. Qed.

Lemma rt_all_answer : Forall (fun s => exists m, rt_answer s = [m] /\ answers_q s rt_sent m /\ Reply.rid m = QClient.out_rid rt_client) rt_reps.
Proof. repeat constructor; (eexists; split; [vm_compute; reflexivity|]; split; [eexists _, _; split; [vm_compute; reflexivity|done]|done]). Qed.

Lemma rt_replies : ZlClient.replies_to (QClient.out_rid rt_client) rt_ins = reverse (rt_reps ≫= rt_answer).
Proof. vm_compute. reflexivity. Qed.

Lemma rt_delivered : delivered 4 1 7 4 mod_ex md5_sum md5_reply md5_client auth_yes sig_yes sig_yes abort_d 40 log_service
  rt_reps rt_sent (ZlClient.replies_to (QClient.out_rid rt_client) rt_ins).
Proof.
  rewrite rt_replies. pose proof rt_all_answer as Hall. rewrite Forall_forall in Hall. split.
  - intros m Hm. rewrite elem_of_reverse in Hm. apply list_elem_of_bind in Hm as (s & Hm & Hs).
    destruct (Hall s Hs) as (m' & E & Ha & _). rewrite E in Hm. apply list_elem_of_singleton in Hm as ->.
    apply list_elem_of_lookup in Hs as [i Hi]. by exists i, s.
  - intros i s m Hi Ha. rewrite elem_of_reverse. apply list_elem_of_bind. exists s.
    split; [|by eapply list_elem_of_lookup_2]. rewrite (rt_answers i s m Hi Ha). by apply list_elem_of_singleton.
Qed.

Lemma rt_ready i s : rt_reps !! i = Some s ->
  ready 4 7 4 mod_ex 0 (QClient.out_rid rt_client) (Z.of_nat i) s /\
  (log_service (Quorum.service s) 4 (take (Z.to_nat 2) (qq_command rt_request))).2 = [7; 8].
Proof.
  intros Hi. unfold rt_reps in Hi.
  do 4 (destruct i as [|i]; [injection Hi as <-; split; [|done]; constructor; try done; [apply init_q_inv|by exists rep_initial]|]).
  done.
Qed.

Lemma rt_idle : QClient.idle 4 1 md5_reply rt_mac rt_client.
Proof. constructor; [done|done|done| |done]. eexists. apply Certificate.create_inv. Qed.

Lemma rt_fits : QClient.size_fits 4 2.
Proof.
  unfold QClient.size_fits, QClient.size_limit, QClient.client_auth_size, Quorum.Q_Max_message_size, Quorum.sizeof_Request_rep. lia.
Qed.

Lemma request_roundtrip_witness :
  Quorum.request_verify 4 7 md5_client auth_yes 2 rt_sent = true.
Proof.
  apply (request_roundtrip 4 7 4 7 md5_client rt_gen auth_yes ltac:(lia) ltac:(done)); [lia|done|apply rt_fits|done].
Defined.

Lemma quorum_round_trip_witness :
  wp (QClient.quorum_invoke 4 4 7 md5_reply md5_client rt_mac rt_gen rt_request 2 false rt_ins)
     (fun r _ _ => r = ZlClient.Result 0 [7; 8] None) rt_client.
Proof.
  apply (quorum_round_trip 4 1 7 4 7 mod_ex md5_sum md5_reply md5_client rt_gen auth_yes rt_mac sig_yes sig_yes abort_d 40 log_service
    rt_group ltac:(lia) mod_ex_ok md5_client_range ltac:(done) rt_client rt_request 2 false rt_ins rt_reps 0 [7; 8]
    rt_idle rt_fits eq_refl ltac:(done) ltac:(done) eq_refl rt_ready ltac:(done) ltac:(done) ltac:(done) rt_delivered).
Defined.
End RoundTripExample.
