(* ===== verification/CClient.v ===== *)
(** * The Chain client

    [src/protocols/chain/C_Client.cc] with [C_Request::finalize] and
    [chain_libbyz.cc]; [C_Node::new_rid] is that of ZLight.  A packet is a reply
    and the words that follow its bytes; waiting is as in [ZlClient]. *)

From S2P Require Import Prelude Effects Bytes Certificate Reply ReqHistory ZlReplica ChainAuth ZlClient.
Local Open Scope Z_scope.
Local Open Scope handler_scope.

Module CClient.
Section client.
Context (node_id num_replicas max_faulty num_principals : Z).
Context (MD5 : list Z -> Z) (MD5_request : Z -> Z -> list Z -> Z) (UMAC : Z -> Z -> mac_data -> Z -> Z).

Record state := mk_state {
  cur_rid : Z; out_rid : Z; out_req : option C_Request; nb_received_requests : Z; n_retrans : Z; rtimer : timer_state; umac_nonce : Z
}.

Definition set_rids (r : Z) (s : state) : state := mk_state r r (out_req s) (nb_received_requests s) (n_retrans s) (rtimer s) (umac_nonce s).
Definition set_out_req (x : option C_Request) (s : state) : state :=
  mk_state (cur_rid s) (out_rid s) x (nb_received_requests s) (n_retrans s) (rtimer s) (umac_nonce s).
Definition set_nb_received (x : Z) (s : state) : state := mk_state (cur_rid s) (out_rid s) (out_req s) x (n_retrans s) (rtimer s) (umac_nonce s).
Definition set_n_retrans (x : Z) (s : state) : state := mk_state (cur_rid s) (out_rid s) (out_req s) (nb_received_requests s) x (rtimer s) (umac_nonce s).
Definition set_rtimer (x : timer_state) (s : state) : state := mk_state (cur_rid s) (out_rid s) (out_req s) (nb_received_requests s) (n_retrans s) x (umac_nonce s).
Definition set_umac_nonce (x : Z) (s : state) : state := mk_state (cur_rid s) (out_rid s) (out_req s) (nb_received_requests s) (n_retrans s) (rtimer s) x.

Local Abbreviation M := (Effects.M state (send_output C_Request)).

Definition initial (now : Z) : state :=
  let r := Rid.new_rid now (Rid.new_tstamp now) in mk_state r r None 0 0 stopped 0.

Definition sizeof_Request_rep : Z := 52.
Definition auth_bytes : Z := 8 * ChainAuth.auth_size max_faulty.
Definition Max_message_size : Z := 60000.

Definition with_rid (x : Z) (r : C_Request) : C_Request :=
  mk_creq (cq_extra r) (cq_size r) (cq_listnum r) (cq_od r) (cq_seqno r) (cq_cid r) x (cq_command r) (cq_auth r).

(** [finalize(act_len, read_only)]: the words of the authenticator start after
    the command. *)
Definition finalize (r : C_Request) (act_len : Z) (read_only : bool) : M C_Request :=
  assert_ (wrapu 32 act_len <=? Max_message_size - sizeof_Request_rep - auth_bytes) ;;;
  let extra := if read_only then Z.lor (Z.land (cq_extra r) (-2)) 1 else Z.land (cq_extra r) (-2) in
  let cmd := take (Z.to_nat act_len) (cq_command r) in
  let size := ALIGNED_SIZE (sizeof_Request_rep + act_len + auth_bytes) in
  assert_ (size <=? Max_message_size) ;;;
  ret (mk_creq extra size (cq_listnum r) (MD5_request (cq_cid r) (cq_rid r) cmd) (cq_seqno r) (cq_cid r) (cq_rid r) cmd (cq_auth r)).

(** Replica 0 is the head. *)
Definition send_request (req : C_Request) (ro : bool) : M bool :=
  if ro then ret false
  else
    o <- gets out_req ;;
    match o with
    | Some _ => ret false
    | None =>
      rid <- gets out_rid ;;
      let req := with_rid rid req in
      emit (Send_to 0 req) ;;;
      modify (set_out_req (Some req)) ;;;
      modify (fun s => set_rtimer (timer_start (rtimer s)) s) ;;;
      ret true
    end.

Definition retransmit : M unit :=
  o <- gets out_req ;;
  (match o with
   | Some req => modify (fun s => set_n_retrans (n_retrans s + 1) s) ;;; emit (Send_to 0 req)
   | None => ret tt
   end) ;;;
  modify (fun s => set_rtimer (timer_restart (rtimer s)) s).

Definition tick : M unit :=
  t <- gets rtimer ;;
  match t with
  | running => modify (set_rtimer expired) ;;; retransmit
  | _ => ret tt
  end.

(** A reply and the words that follow its bytes. *)
Abbreviation packet := (C_Reply * list Z)%type.
Abbreviation verify := (ChainAuth.reply_verify UMAC max_faulty num_replicas num_principals MD5 node_id).

Definition accept (now : Z) (rep : packet) : M (option packet) :=
  modify (fun s => set_rtimer (timer_stop (rtimer s)) s) ;;;
  modify (fun s => set_nb_received (nb_received_requests s + 1) s) ;;;
  modify (fun s => set_rids (Rid.new_rid now (cur_rid s)) s) ;;;
  modify (set_out_req None) ;;;
  ret (Some rep).

(** One turn of the loop of [recv_reply]. *)
Definition recv_one (now : Z) (rep : packet) : M (option packet) :=
  if cr_should_switch rep.1 then
    of_option OutOfBounds (verify rep.1 rep.2) ;;; accept now rep
  else
    rid <- gets out_rid ;;
    if negb (cr_rid rep.1 =? rid) then ret None
    else
      ok <- of_option OutOfBounds (verify rep.1 rep.2) ;;
      if negb ok then ret None else accept now rep.

Fixpoint recv_loop (ins : list (input packet)) : M (outcome packet) :=
  match ins with
  | [] => ret Waiting
  | Tick :: ins' => tick ;;; recv_loop ins'
  | Packet _ None :: ins' => recv_loop ins'
  | Packet now (Some rep) :: ins' =>
    r <- recv_one now rep ;;
    match r with Some v => ret (Returned (Some v)) | None => recv_loop ins' end
  end.

Definition recv_reply (ins : list (input packet)) : M (outcome packet) :=
  o <- gets out_req ;;
  match o with None => ret (Returned None) | Some _ => recv_loop ins end.

(** ** [chain_libbyz] *)

Definition chain_send_request (req : C_Request) (size : Z) (ro : bool) : M Z :=
  rid <- gets out_rid ;;
  req <- finalize (with_rid rid req) size ro ;;
  modify (fun s => set_umac_nonce (umac_nonce s + 1) s) ;;;
  u <- gets umac_nonce ;;
  req <- of_option OutOfBounds (ChainAuth.authenticate UMAC max_faulty num_replicas node_id (-1) 0 u None req) ;;
  b <- send_request req ro ;;
  ret (if (b : bool) then 0 else -1).

Definition chain_recv_reply (ins : list (input packet)) : M ZlClient.invoke_result :=
  r <- recv_reply ins ;;
  ret match r with
      | Waiting => ZlClient.Blocked
      | Returned None => ZlClient.Result (-1) [] None
      | Returned (Some (rep, _)) =>
        if cr_should_switch rep then ZlClient.Result (-127) [] (Some (cr_instance_id rep))
        else ZlClient.Result 0 (take (Z.to_nat (cr_reply_size rep)) (cr_body rep)) None
      end.

Definition chain_invoke (req : C_Request) (size : Z) (ro : bool) (ins : list (input packet)) : M ZlClient.invoke_result :=
  k <- chain_send_request req size ro ;;
  if k =? -1 then ret (ZlClient.Result (-1) [] None) else chain_recv_reply ins.

End client.

(** In a group of four the MACs of a reply play no part: the client returns any
    reply with the identifier of its outstanding request whose digest is that of
    the bytes it carries, whatever the words of its authenticator, so one node
    that is not a replica can decide the result of a call. *)
Theorem forged_chain_reply_accepted me num_principals MD5 UMAC now rep macs s : 4 <= me < num_principals -> out_req s <> None ->
  cr_rid rep = out_rid s -> cr_should_switch rep = false -> length macs = 4%nat -> 0 <= cr_replica rep <= 1 ->
  ChainAuth.sizeof_Reply_rep + cr_reply_size rep + 32 <= cr_size rep -> 0 <= cr_reply_size rep <= Bytes.zlen (cr_body rep) ->
  MD5 (take (Z.to_nat (cr_reply_size rep)) (cr_body rep)) = cr_digest rep ->
  wp (chain_recv_reply me 4 1 num_principals MD5 UMAC [Packet now (Some (rep, macs))])
    (fun r _ _ => r = ZlClient.Result 0 (take (Z.to_nat (cr_reply_size rep)) (cr_body rep)) None) s.
Proof.
  intros Hme Hq Hr Hs Hl Hrep Hsz Hb Hd. unfold chain_recv_reply, recv_reply. wp_steps. destruct (out_req s); [|done]. cbn [recv_loop]. unfold recv_one, accept.
  cbn [fst snd]. rewrite Hs. wp_steps. rewrite Hr, Z.eqb_refl. cbn [negb]. wp_steps. eapply wp_of_option.
  { apply ChainAuth.reply_macs_unused; (done || lia). }
  cbn [negb]. wp_steps. by rewrite Hs.
Qed.

(** A reply with the switch flag makes the Chain client switch whatever request
    it answers and whether or not it verifies. *)
Theorem forged_chain_switch_accepted me n f num_principals MD5 UMAC now rep macs b s : out_req s <> None -> cr_should_switch rep = true ->
  ChainAuth.reply_verify UMAC f n num_principals MD5 me rep macs = Some b ->
  wp (chain_recv_reply me n f num_principals MD5 UMAC [Packet now (Some (rep, macs))])
    (fun r s' _ => r = ZlClient.Result (-127) [] (Some (cr_instance_id rep)) /\ out_rid s' = Rid.new_rid now (cur_rid s)) s.
Proof.
  intros Hq Hs Hv. unfold chain_recv_reply, recv_reply. wp_steps. destruct (out_req s); [|done]. cbn [recv_loop]. unfold recv_one, accept.
  cbn [fst snd]. rewrite Hs. wp_steps. eapply wp_of_option; [done|]. wp_steps. by rewrite Hs.
Qed.

(** In a group of four, the request that the library sends for a call on an idle
    client carries the new identifier and the digest of its command, and every
    replica of the chain accepts it: it comes out of the last one with MACs the
    client's own check accepts. *)
Theorem chain_request_passes me num_principals MD5_request UMAC req size s n0 n1 n2 n3 k rr : 4 <= me < num_principals -> out_req s = None ->
  cq_cid req = me -> cq_seqno req = 0 -> (7 <= length (cq_auth req))%nat -> 0 <= size <= 59900 ->
  wp (chain_send_request me 4 1 MD5_request UMAC req size false) (fun r s' o => r = 0 /\ exists q r' w off,
    o = [Send_to 0 q] /\ out_req s' = Some q /\ cq_rid q = out_rid s /\ cq_command q = take (Z.to_nat size) (cq_command req) /\
    (x ← ChainAuth.relay UMAC 1 4 num_principals MD5_request 0 n0 k rr q; x ← ChainAuth.relay UMAC 1 4 num_principals MD5_request 1 n1 k rr x;
     x ← ChainAuth.relay UMAC 1 4 num_principals MD5_request 2 n2 k rr x; ChainAuth.relay UMAC 1 4 num_principals MD5_request 3 n3 k rr x) = Some r' /\
    ChainAuth.verify_auth UMAC 1 4 num_principals me 4 0 rr (take 4 (cq_auth r')) 0 = Some (true, w, off)) s.
Proof.
  intros Hme Hq Hc Hs Hl Hsz. unfold chain_send_request, finalize, assert_. wp_steps. change (auth_bytes 1) with 40. unfold Max_message_size, sizeof_Request_rep.
  rewrite wrapu_id by (unfold in_u; lia). rewrite (proj2 (Z.leb_le size _)) by lia. wp_steps.
  assert (Ha : ALIGNED_SIZE (52 + size + 40) <=? 60000 = true).
  { apply Z.leb_le. unfold ALIGNED_SIZE. pose proof (Z.mod_pos_bound (52 + size + 40) 8 ltac:(lia)). case_bool; lia. }
  rewrite Ha. wp_steps. cbn [with_rid cq_cid cq_rid cq_listnum cq_seqno cq_auth cq_command cq_extra].
  match goal with |- context [ChainAuth.authenticate UMAC 1 4 me (-1) 0 ?u None ?R] =>
    destruct (ChainAuth.chain_authenticates_sent UMAC MD5_request num_principals ltac:(lia) me Hme u n0 n1 n2 n3 k rr R) as (q & r' & w & off & Hau & Hb & Hp & Hv);
    [done|done|cbn; by rewrite Hc|done|] end.
  eapply wp_of_option; [exact Hau|]. unfold send_request. wp_steps. cbn [out_req set_umac_nonce]. rewrite Hq. wp_steps. split; [done|].
  assert (Er : with_rid (out_rid s) q = q) by (destruct q; cbn in Hb; injection Hb; intros; by subst).
  cbn [out_rid set_umac_nonce]. rewrite Er. exists q, r', w, off. split; [done|]. split; [done|]. destruct q; cbn in Hb; injection Hb; intros; by subst.
Qed.

End CClient.

(** ** Examples: client 9 of a group of four *)

Module CClientExample.
Import ZlClient ZlClientExample.

(** Chain: a client that waits, and a reply made up by someone else. *)
Definition ex_c_request : C_Request := ChainAuth.ex_request (replicate 7 0).
Definition ex_c_client : CClient.state := CClient.initial 1.
Definition ex_c_busy : CClient.state := CClient.set_out_req (Some ex_c_request) ex_c_client.
Definition ex_c_reply (b : bool) : C_Reply := mk_crep 128 0 ex_rid 0 6 0 2 (-1) b aardvark [2; 4] 0.

Lemma forged_chain_reply_accepted_witness :
  wp (CClient.chain_recv_reply 9 4 1 20 ex_md5 ChainAuth.ex_UMAC [Packet 2 (Some (ex_c_reply false, [0; 0; 0; 0]))])
    (fun r _ _ => r = Result 0 [2; 4] None) ex_c_busy.
Proof.
  apply CClient.forged_chain_reply_accepted; try reflexivity; try lia; try discriminate; cbn; unfold ChainAuth.sizeof_Reply_rep, Bytes.zlen; cbn; lia.
Defined.

Lemma forged_chain_switch_accepted_witness :
  wp (CClient.chain_recv_reply 9 4 1 20 ex_md5 ChainAuth.ex_UMAC [Packet 2 (Some (ex_c_reply true, [0; 0; 0; 0]))])
    (fun r s' _ => r = Result (-127) [] (Some aardvark) /\ CClient.out_rid s' = Rid.new_rid 2 (CClient.cur_rid ex_c_busy)) ex_c_busy.
Proof. apply (CClient.forged_chain_switch_accepted 9 4 1 20 ex_md5 ChainAuth.ex_UMAC 2 (ex_c_reply true) [0; 0; 0; 0] true ex_c_busy); [discriminate|reflexivity|reflexivity]. Defined.

Lemma chain_request_passes_witness :
  wp (CClient.chain_send_request 9 4 1 ex_md5_request ChainAuth.ex_UMAC ex_c_request 1 false) (fun r s' o => r = 0 /\ exists q r' w off,
    o = [Send_to 0 q] /\ CClient.out_req s' = Some q /\ cq_rid q = ex_rid /\ cq_command q = [7] /\
    (x ← ChainAuth.relay ChainAuth.ex_UMAC 1 4 20 ex_md5_request 0 1 6 (request_hdr ex_c_request) q;
     x ← ChainAuth.relay ChainAuth.ex_UMAC 1 4 20 ex_md5_request 1 2 6 (request_hdr ex_c_request) x;
     x ← ChainAuth.relay ChainAuth.ex_UMAC 1 4 20 ex_md5_request 2 3 6 (request_hdr ex_c_request) x;
     ChainAuth.relay ChainAuth.ex_UMAC 1 4 20 ex_md5_request 3 4 6 (request_hdr ex_c_request) x) = Some r' /\
    ChainAuth.verify_auth ChainAuth.ex_UMAC 1 4 20 9 4 0 (request_hdr ex_c_request) (take 4 (cq_auth r')) 0 = Some (true, w, off)) ex_c_client.
Proof.
  apply (CClient.chain_request_passes 9 20 ex_md5_request ChainAuth.ex_UMAC ex_c_request 1 ex_c_client 1 2 3 4 6 (request_hdr ex_c_request));
    try reflexivity; try lia; cbn; lia.
Defined.

End CClientExample.
