(* ===== verification/MBFT.v ===== *)
(** * The Modular BFT library

    [MBFT_invoke] of [src/modular_bft/libmodular_BFT.cc]: a call goes to the client of
    the current protocol, and the value -127 makes the protocol it named the
    current one.  ZLight and Chain are the clients of [ZlClient] and [CClient];
    those of the other protocols are a parameter. *)

From S2P Require Import Prelude Effects Bytes Certificate Reply ReqHistory ZlReplica ChainAuth ZlClient CClient.
Local Open Scope Z_scope.
Local Open Scope handler_scope.

Module MBFT.
Import ZlClient.
Section mbft.
Context (node_id num_replicas max_faulty primary num_principals : Z).
Context (MD5 : list Z -> Z) (MD5_request : Z -> Z -> list Z -> Z) (mac_ok : Reply.t -> bool) (UMAC : Z -> Z -> mac_data -> Z -> Z).
(** The clients of the other protocols, and a call on one of them. *)
Context {O : Type} (other_invoke : protocols_e -> O -> list Z -> Z -> bool -> O * invoke_result).

Record state := mk_state {
  current_protocol : protocols_e; next_protocol_instance : protocols_e;
  zl_client : ZlClient.state; c_client : CClient.state; others : O
}.

(** A request belongs to the protocol that allocated it. *)
Inductive Byz_req := Zl_req (r : zl_Request) | C_req (r : C_Request) | Other_req (r : list Z).

(** What arrives for the clients during the call. *)
Record arrivals := mk_arrivals { zl_in : list (input Reply.t); c_in : list (input (C_Reply * list Z)) }.

Definition set_current (p : protocols_e) (s : state) : state := mk_state p (next_protocol_instance s) (zl_client s) (c_client s) (others s).
Definition set_next (p : protocols_e) (s : state) : state := mk_state (current_protocol s) p (zl_client s) (c_client s) (others s).
Definition set_zl (x : ZlClient.state) (s : state) : state := mk_state (current_protocol s) (next_protocol_instance s) x (c_client s) (others s).
Definition set_c (x : CClient.state) (s : state) : state := mk_state (current_protocol s) (next_protocol_instance s) (zl_client s) x (others s).
Definition set_others (x : O) (s : state) : state := mk_state (current_protocol s) (next_protocol_instance s) (zl_client s) (c_client s) x.

Inductive output := Zl_out (x : send_output zl_Request) | C_out (x : send_output C_Request).
Local Abbreviation M := (Effects.M state output).

(** A computation on a part of the state. *)
Definition on_part {T P A} (get : state -> T) (set : T -> state -> state) (f : P -> output) (m : Effects.M T P A) : M A := fun s =>
  match m (get s) with
  | Done a t o => Done a (set t s) (f <$> o)
  | Fault e => Fault e
  end.

(** The request is used as one of the current protocol's class; another class
    is undefined. *)
Definition dispatch (p : protocols_e) (req : Byz_req) (size : Z) (ro : bool) (a : arrivals) : M invoke_result :=
  match p, req with
  | zlight, Zl_req r => on_part zl_client set_zl Zl_out (zlight_invoke node_id num_replicas primary MD5 MD5_request mac_ok r size ro (zl_in a))
  | chain, C_req r => on_part c_client set_c C_out (CClient.chain_invoke node_id num_replicas max_faulty num_principals MD5 MD5_request UMAC r size ro (c_in a))
  | (zlight | chain), _ => fail OutOfBounds
  | _, Other_req r =>
    o <- gets others ;;
    let x := other_invoke p o r size ro in
    modify (set_others x.1) ;;; ret x.2
  | _, _ => fail OutOfBounds
  end.

(** [MBFT_invoke]; the assignment to [next_protocol_instance] is made in the
    client library. *)
Definition MBFT_invoke (req : Byz_req) (size : Z) (ro : bool) (a : arrivals) : M invoke_result :=
  p <- gets current_protocol ;;
  r <- dispatch p req size ro a ;;
  (match r with
   | Blocked => ret tt
   | Result k _ next =>
     (match next with Some q => modify (set_next q) | None => ret tt end) ;;;
     if k =? -127 then q <- gets next_protocol_instance ;; modify (set_current q) else ret tt
   end) ;;;
  ret r.

Lemma on_part_wp {T P A} (get : state -> T) (set : T -> state -> state) (f : P -> output) (m : Effects.M T P A) Q s :
  wp m (fun a t o => Q a (set t s) (f <$> o)) (get s) -> wp (on_part get set f m) Q s.
Proof. unfold wp, on_part. by destruct (m (get s)). Qed.

Hypothesis replicas_ok : num_replicas = 3 * max_faulty + 1 /\ 0 < num_replicas <= Max_num_replicas.
Hypothesis client_id_ok : num_replicas <= node_id.

(** A call of the library while ZLight is the current protocol: it returns 0
    only with the bytes of a reply that every replica backs, and the current
    protocol does not change; it changes only when the call returns -127, to the
    protocol a reply to this call named. *)
Theorem MBFT_invoke_zlight req size ro a s : current_protocol s = zlight -> idle num_replicas max_faulty MD5 mac_ok (zl_client s) -> size_fits num_replicas size -> inside num_replicas (out_rid (zl_client s)) (zl_in a) ->
  wp (MBFT_invoke (Zl_req req) size ro a) (fun r s' _ => match r with
    | Blocked => current_protocol s' = zlight
    | Result 0 contents _ => current_protocol s' = zlight /\ idle num_replicas max_faulty MD5 mac_ok (zl_client s') /\
        exists v, backed num_replicas MD5 mac_ok (out_rid (zl_client s)) (arrived (zl_in a)) v /\ arrived (zl_in a) v /\
          contents = take (Z.to_nat (Reply.reply_size v)) (Reply.body v)
    | Result k _ _ => k = -127 /\ exists v, arrived (zl_in a) v /\ Reply.rid v = out_rid (zl_client s) /\ Reply.should_switch v = true /\
        current_protocol s' = Reply.instance_id v
    end) s.
Proof.
  intros Hp Hi Hf Hin. unfold MBFT_invoke. wp_steps. rewrite Hp. cbn [dispatch]. apply on_part_wp. eapply wp_mono.
  { by apply (zlight_invoke_spec node_id num_replicas max_faulty primary MD5 MD5_request mac_ok replicas_ok client_id_ok). }
  intros r t o [_ H]. destruct r as [|k contents next]; [wp_steps; done|]. destruct H as (Hid & _ & [(-> & -> & Hv)|(-> & v & Ha & Hr & Hs & ->)]); wp_steps; cbn [Z.eqb Pos.eqb]; wp_steps.
  - done.
  - split; [done|]. by exists v.
Qed.

End mbft.
End MBFT.

(** ** Example *)

Module MBFTExample.
Import ZlClient ZlClientExample CClientExample.

Definition ex_mbft : MBFT.state := MBFT.mk_state zlight pbft ex_client ex_c_client tt.
Definition ex_others (p : protocols_e) (o : unit) (r : list Z) (size : Z) (ro : bool) : unit * invoke_result := (o, Blocked).

Lemma MBFT_invoke_zlight_witness :
  wp (MBFT.MBFT_invoke 9 4 1 0 20 ex_md5 ex_md5_request ex_mac ChainAuth.ex_UMAC ex_others (MBFT.Zl_req ex_request) 1 false
       (MBFT.mk_arrivals ex_inputs [])) (fun r s' _ => match r with
    | Blocked => MBFT.current_protocol s' = zlight
    | Result 0 contents _ => MBFT.current_protocol s' = zlight /\ idle 4 1 ex_md5 ex_mac (MBFT.zl_client s') /\
        exists v, backed 4 ex_md5 ex_mac (out_rid ex_client) (arrived ex_inputs) v /\ arrived ex_inputs v /\
          contents = take (Z.to_nat (Reply.reply_size v)) (Reply.body v)
    | Result k _ _ => k = -127 /\ exists v, arrived ex_inputs v /\ Reply.rid v = out_rid ex_client /\ Reply.should_switch v = true /\
        MBFT.current_protocol s' = Reply.instance_id v
    end) ex_mbft.
Proof.
  apply (MBFT.MBFT_invoke_zlight 9 4 1 0 20 ex_md5 ex_md5_request ex_mac ChainAuth.ex_UMAC ex_others group_of_four ltac:(lia) ex_request 1 false
    (MBFT.mk_arrivals ex_inputs []) ex_mbft); [reflexivity|apply ex_idle|apply ex_fits|apply ex_inside].
Defined.

End MBFTExample.
