(* ===== verification/Intset.v ===== *)
(** * Integer sets

    Models [src/redis/src/intset.c]: a sorted array of 16-, 32- or 64-bit
    integers in one heap block, whose width is upgraded when a value does not
    fit.  The block is a byte buffer ([Bytes]); an access outside it, and the
    signed overflow of the midpoint computation, are [None].  The block's
    32-bit size computation wraps as in C.

    The theorems: the four operations implement a finite set of integers (add,
    remove, membership, and the enumeration in increasing order), for sets of
    fewer than 2^29 - 1 elements, where the size computation does not wrap. *)

From Stdlib Require Import Sorted.
From S2P Require Import Prelude Bytes.
Import Bytes.
Local Open Scope Z_scope.

Module Intset.
Section intset.
(** The content of fresh memory. *)
Context (junk : Z).

Record intset := mk_intset { encoding : Z; length_ : Z; contents : block }.

Definition INTSET_ENC_INT16 : Z := 2.
Definition INTSET_ENC_INT32 : Z := 4.
Definition INTSET_ENC_INT64 : Z := 8.

Definition intsetValueEncoding (v : Z) : Z :=
  if (v <? - 2 ^ 31) || (2 ^ 31 - 1 <? v) then INTSET_ENC_INT64
  else if (v <? - 2 ^ 15) || (2 ^ 15 - 1 <? v) then INTSET_ENC_INT32
  else INTSET_ENC_INT16.

(** The element size the code selects for an encoding. *)
Definition width (enc : Z) : Z :=
  if enc =? INTSET_ENC_INT64 then 8 else if enc =? INTSET_ENC_INT32 then 4 else 2.

Definition intsetGetEncoded (s : intset) (pos enc : Z) : option Z :=
  bs ← read (contents s) (pos * width enc) (width enc);
  Some (to_signed (8 * width enc) (le_decode bs)).

Definition intsetGet_ (s : intset) (pos : Z) : option Z := intsetGetEncoded s pos (encoding s).

Definition intsetSet (s : intset) (pos value : Z) : option intset :=
  let w := width (encoding s) in
  c ← write (contents s) (pos * w) (le_encode (Z.to_nat w) value);
  Some (mk_intset (encoding s) (length_ s) c).

Definition intsetNew : intset := mk_intset INTSET_ENC_INT16 0 [].

Definition intsetResize (s : intset) (len : Z) : intset :=
  let size := wrapu 32 (len * encoding s) in
  mk_intset (encoding s) (length_ s) (realloc junk (contents s) size).

(** The [while(max >= min)] loop; returns [min], [mid] and [cur]. *)
Fixpoint search_loop (fuel : nat) (s : intset) (value mn mx mid cur : Z) : option (Z * Z * Z) :=
  match fuel with
  | O => None
  | S fuel' =>
    if mn <=? mx then
      if 2 ^ 31 <=? mn + mx then None
      else
        let mid := Z.quot (mn + mx) 2 in
        cur ← intsetGet_ s mid;
        if cur <? value then search_loop fuel' s value (mid + 1) mx mid cur
        else if value <? cur then search_loop fuel' s value mn (mid - 1) mid cur
        else Some (mn, mid, cur)
    else Some (mn, mid, cur)
  end.

Definition intsetSearch (s : intset) (value : Z) : option (bool * Z) :=
  let mx := to_signed 32 (length_ s - 1) in
  if length_ s =? 0 then Some (false, 0)
  else
    last ← intsetGet_ s (length_ s - 1);
    if last <? value then Some (false, length_ s)
    else
      first ← intsetGet_ s 0;
      if value <? first then Some (false, 0)
      else
        '(mn, mid, cur) ← search_loop (S (Z.to_nat (length_ s))) s value 0 mx (-1) (-1);
        if value =? cur then Some (true, mid) else Some (false, mn).

(** [while(length--) _intsetSet(is, length+prepend, _intsetGetEncoded(is, length, curenc))] *)
Fixpoint upgrade_loop (n : nat) (s : intset) (prepend curenc : Z) : option intset :=
  match n with
  | O => Some s
  | S n' =>
    v ← intsetGetEncoded s (Z.of_nat n') curenc;
    s' ← intsetSet s (Z.of_nat n' + prepend) v;
    upgrade_loop n' s' prepend curenc
  end.

Definition intsetUpgradeAndAdd (s : intset) (value : Z) : option intset :=
  let curenc := encoding s in
  let newenc := intsetValueEncoding value in
  let prepend := if value <? 0 then 1 else 0 in
  let s := mk_intset newenc (length_ s) (contents s) in
  let s := intsetResize s (length_ s + 1) in
  s ← upgrade_loop (Z.to_nat (length_ s)) s prepend curenc;
  s ← (if prepend =? 1 then intsetSet s 0 value else intsetSet s (length_ s) value);
  Some (mk_intset (encoding s) (length_ s + 1) (contents s)).

Definition intsetMoveTail (s : intset) (from to : Z) : option intset :=
  let w := width (encoding s) in
  let bytes := wrapu 32 (wrapu 32 (length_ s - from) * w) in
  c ← memmove (contents s) (to * w) (from * w) bytes;
  Some (mk_intset (encoding s) (length_ s) c).

(** The result and [*success]. *)
Definition intsetAdd (s : intset) (value : Z) : option (intset * bool) :=
  let valenc := intsetValueEncoding value in
  if encoding s <? valenc then s ← intsetUpgradeAndAdd s value; Some (s, true)
  else
    '(found, pos) ← intsetSearch s value;
    if (found : bool) then Some (s, false)
    else
      let s := intsetResize s (length_ s + 1) in
      s ← (if pos <? length_ s then intsetMoveTail s pos (pos + 1) else Some s);
      s ← intsetSet s pos value;
      Some (mk_intset (encoding s) (length_ s + 1) (contents s), true).

Definition intsetRemove (s : intset) (value : Z) : option (intset * bool) :=
  let valenc := intsetValueEncoding value in
  if valenc <=? encoding s then
    '(found, pos) ← intsetSearch s value;
    if (found : bool) then
      s ← (if pos <? length_ s - 1 then intsetMoveTail s (pos + 1) pos else Some s);
      let s := intsetResize s (length_ s - 1) in
      Some (mk_intset (encoding s) (length_ s - 1) (contents s), true)
    else Some (s, false)
  else Some (s, false).

Definition intsetFind (s : intset) (value : Z) : option bool :=
  let valenc := intsetValueEncoding value in
  if valenc <=? encoding s then r ← intsetSearch s value; Some r.1 else Some false.

(** [r] is the result of [rand()]; the outer [None] includes the division by
    zero on an empty set. *)
Definition intsetRandom (s : intset) (r : Z) : option Z :=
  if length_ s =? 0 then None else intsetGet_ s (r mod length_ s).

Definition intsetGet (s : intset) (pos : Z) : option (option Z) :=
  if pos <? length_ s then v ← intsetGet_ s pos; Some (Some v) else Some None.

Definition intsetLen (s : intset) : Z := length_ s.

(** ** Representation *)

Definition is_enc (e : Z) : Prop := e = 2 \/ e = 4 \/ e = 8.

(** The block holds the words [vs], sorted and within the width. *)
Record layout (s : intset) (vs : list Z) : Prop := {
  lay_enc : is_enc (encoding s);
  lay_len : length_ s = Z.of_nat (length vs);
  lay_words : contents s = words (Z.to_nat (encoding s)) vs;
  lay_range : Forall (in_s (8 * encoding s)) vs;
  lay_sorted : StronglySorted Z.lt vs
}.

Definition max_len : Z := 2 ^ 29 - 1.

Lemma width_enc e : is_enc e -> width e = e.
Proof. by intros [->|[->| ->]]. Qed.

Lemma valueEncoding_enc v : is_enc (intsetValueEncoding v).
Proof. unfold intsetValueEncoding, is_enc. repeat case_bool; auto. Qed.

Lemma valueEncoding_fits v : in_s 64 v -> in_s (8 * intsetValueEncoding v) v.
Proof.
  unfold intsetValueEncoding, in_s. intros.
  repeat case_bool; unfold INTSET_ENC_INT16, INTSET_ENC_INT32, INTSET_ENC_INT64; simpl; bsimp; lia.
Qed.

Lemma in_s_mono e e' v : is_enc e -> is_enc e' -> e <= e' -> in_s (8 * e) v -> in_s (8 * e') v.
Proof.
  unfold in_s. intros [->|[->| ->]] [->|[->| ->]] He Hv; simpl in *; lia.
Qed.

(** A value that needs a larger encoding is outside the range of a smaller. *)
Lemma valueEncoding_outside e v : is_enc e -> in_s 64 v -> e < intsetValueEncoding v ->
  v < - 2 ^ (8 * e - 1) \/ 2 ^ (8 * e - 1) - 1 < v.
Proof.
  unfold intsetValueEncoding. intros [->|[->| ->]] Hv;
    repeat case_bool; unfold INTSET_ENC_INT16, INTSET_ENC_INT32, INTSET_ENC_INT64;
    repeat match goal with H : (_ || _) = true |- _ => apply orb_true_iff in H as [?|?] end;
    simpl; bsimp; intros; lia.
Qed.

Lemma valueEncoding_inside e v : is_enc e -> in_s (8 * e) v -> intsetValueEncoding v <= e.
Proof.
  unfold intsetValueEncoding, in_s. intros [->|[->| ->]] Hv; simpl in Hv;
    repeat case_bool; unfold INTSET_ENC_INT16, INTSET_ENC_INT32, INTSET_ENC_INT64;
    repeat match goal with H : (_ || _) = true |- _ => apply orb_true_iff in H as [?|?] end;
    bsimp; lia.
Qed.

Lemma signed_word e v : is_enc e -> in_s (8 * e) v ->
  to_signed (8 * e) (le_decode (le_encode (Z.to_nat e) v)) = v.
Proof.
  intros He Hv. rewrite le_decode_encode.
  assert (0 < e) by (destruct He as [->|[->| ->]]; lia). rewrite Z2Nat.id by lia.
  rewrite to_signed_mod by lia. by apply to_signed_id; [lia|].
Qed.

Lemma get_ok (s : intset) enc vs post i v : is_enc enc ->
  contents s = words (Z.to_nat enc) vs ++ post -> vs !! i = Some v -> in_s (8 * enc) v ->
  intsetGetEncoded s (Z.of_nat i) enc = Some v.
Proof.
  intros He Hc Hi Hv. unfold intsetGetEncoded. rewrite width_enc, Hc by done.
  assert (0 < enc) by (destruct He as [->|[->| ->]]; lia).
  pose proof (read_words (Z.to_nat enc) vs i v post Hi) as Hr. rewrite Z2Nat.id in Hr by lia.
  rewrite Hr. simpl. f_equal. by apply signed_word.
Qed.

Lemma layout_get s vs i v : layout s vs -> vs !! i = Some v -> intsetGet_ s (Z.of_nat i) = Some v.
Proof.
  intros [He Hl Hw Hr _] Hi. eapply (get_ok _ _ _ []); [done|by rewrite app_nil_r|done|].
  by eapply Forall_lookup_1.
Qed.

Lemma layout_get_z s vs z : layout s vs -> 0 <= z < Z.of_nat (length vs) ->
  exists v, vs !! Z.to_nat z = Some v /\ intsetGet_ s z = Some v.
Proof.
  intros Hl Hz. destruct (lookup_lt_is_Some_2 vs (Z.to_nat z)) as [v Hv]; [lia|].
  exists v. split; [done|]. rewrite <- (Z2Nat.id z) by lia. by eapply layout_get.
Qed.

(** ** Binary search *)

(** [pos] is where [x] belongs in [vs]. *)
Definition splits (vs : list Z) (x : Z) (pos : nat) : Prop :=
  (pos <= length vs)%nat /\ Forall (fun y => y < x) (take pos vs) /\ Forall (fun y => x < y) (drop pos vs).

Lemma sorted_lt vs i j a b : StronglySorted Z.lt vs -> (i < j)%nat -> vs !! i = Some a ->
  vs !! j = Some b -> a < b.
Proof.
  intros Hs. revert i j. induction Hs as [|x l Hs IH Hx]; intros i j Hij Ha Hb; [done|].
  destruct i as [|i], j as [|j]; simplify_eq/=; try lia.
  - by eapply (Forall_lookup_1 _ _ _ _ Hx).
  - eapply (IH i j); [lia|done..].
Qed.

Lemma below vs k v x : StronglySorted Z.lt vs -> vs !! k = Some v -> v < x ->
  Forall (fun y => y < x) (take (S k) vs).
Proof.
  intros Hs Hk Hx. apply Forall_lookup. intros i y Hy. apply lookup_take_Some in Hy as [Hy Hi].
  destruct (decide (i = k)) as [->|]; [by simplify_eq|].
  pose proof (sorted_lt vs i k y v Hs ltac:(lia) Hy Hk). lia.
Qed.

Lemma above vs k v x : StronglySorted Z.lt vs -> vs !! k = Some v -> x < v ->
  Forall (fun y => x < y) (drop k vs).
Proof.
  intros Hs Hk Hx. apply Forall_lookup. intros i y Hy. rewrite lookup_drop in Hy.
  destruct i as [|i]; [rewrite Nat.add_0_r in Hy; by simplify_eq|].
  pose proof (sorted_lt vs k (k + S i) v y Hs ltac:(lia) Hk Hy). lia.
Qed.

Lemma intset_search_loop_ok s vs x : layout s vs -> Z.of_nat (length vs) < 2 ^ 30 ->
  forall fuel mn mx mid cur,
  0 <= mn -> mx < Z.of_nat (length vs) -> mn <= mx + 1 -> (Z.to_nat (mx - mn + 1) < fuel)%nat ->
  Forall (fun y => y < x) (take (Z.to_nat mn) vs) ->
  Forall (fun y => x < y) (drop (Z.to_nat (mx + 1)) vs) ->
  (mn <= mx \/ cur <> x) ->
  exists mn' mid' cur', search_loop fuel s x mn mx mid cur = Some (mn', mid', cur') /\
    if x =? cur' then 0 <= mid' /\ vs !! Z.to_nat mid' = Some x else 0 <= mn' /\ splits vs x (Z.to_nat mn').
Proof.
  intros Hl Hlen fuel. induction fuel as [|fuel IH]; intros mn mx mid cur H0 Hmx Hle Hf Hlo Hhi Hcur; [lia|].
  simpl. destruct (Z.leb_spec mn mx).
  2:{ exists mn, mid, cur. split; [done|]. rewrite (proj2 (Z.eqb_neq _ _)) by lia.
      split; [done|]. replace (mx + 1) with mn in Hhi by lia. split; [lia|done]. }
  rewrite (proj2 (Z.leb_gt _ _)) by lia. rewrite Z.quot_div_nonneg by lia.
  assert (Hm : mn <= (mn + mx) / 2 <= mx) by (split; [apply Z.div_le_lower_bound|apply Z.div_le_upper_bound]; lia).
  set (k := (mn + mx) / 2) in *. clearbody k.
  destruct (layout_get_z s vs k Hl ltac:(lia)) as (v & Hv & ->). simpl.
  destruct (Z.ltb_spec v x).
  - apply IH; try lia; [|done]. replace (Z.to_nat (k + 1)) with (S (Z.to_nat k)) by lia.
    eapply below; [apply Hl|done..].
  - destruct (Z.ltb_spec x v).
    + apply IH; try lia; [done|]. replace (Z.to_nat (k - 1 + 1)) with (Z.to_nat k) by lia.
      eapply above; [apply Hl|done..].
    + exists mn, k, v. split; [done|]. assert (v = x) by lia. subst v. rewrite Z.eqb_refl.
      split; [lia|done].
Qed.

Lemma search_ok s vs x : layout s vs -> Z.of_nat (length vs) < 2 ^ 30 ->
  exists b pos, intsetSearch s x = Some (b, Z.of_nat pos) /\
    if b : bool then vs !! pos = Some x else splits vs x pos.
Proof.
  intros Hl Hlen. pose proof Hl as [_ Hn _ _ Hs]. unfold intsetSearch. rewrite Hn.
  destruct (Z.eqb_spec (Z.of_nat (length vs)) 0).
  { exists false, O. destruct vs; [|done]. split; [done|]. split; [done|]. by split. }
  destruct (layout_get_z s vs (Z.of_nat (length vs) - 1) Hl ltac:(lia)) as (lst & Hlst & ->). cbn [mbind option_bind].
  destruct (Z.ltb_spec lst x).
  { exists false, (length vs). split; [done|]. split; [done|]. split.
    - replace (length vs) with (S (Z.to_nat (Z.of_nat (length vs) - 1))) by lia. by eapply below.
    - by rewrite drop_all. }
  destruct (layout_get_z s vs 0 Hl ltac:(lia)) as (fst & Hfst & ->). cbn [mbind option_bind].
  destruct (Z.ltb_spec x fst).
  { exists false, O. split; [done|]. split; [lia|]. split; [done|]. by eapply above. }
  rewrite to_signed_id by (try unfold in_s; lia).
  destruct (intset_search_loop_ok s vs x Hl Hlen (S (Z.to_nat (Z.of_nat (length vs)))) 0
              (Z.of_nat (length vs) - 1) (-1) (-1)) as (mn & mid & cur & -> & Hr);
    try lia; [done|by rewrite drop_ge by lia|].
  cbn [mbind option_bind].
  destruct (x =? cur).
  - destruct Hr as [Hm Hr]. exists true, (Z.to_nat mid). by rewrite Z2Nat.id.
  - destruct Hr as [Hm Hr]. exists false, (Z.to_nat mn). by rewrite Z2Nat.id.
Qed.

Lemma splits_not_in vs x pos : splits vs x pos -> x ∉ vs.
Proof.
  intros (_ & Hlo & Hhi). rewrite <- (take_drop pos vs), elem_of_app. rewrite Forall_forall in Hlo, Hhi.
  intros [Hx|Hx]; [apply Hlo in Hx|apply Hhi in Hx]; lia.
Qed.

Lemma sorted_app l1 l2 : StronglySorted Z.lt l1 -> StronglySorted Z.lt l2 ->
  (forall a b, a ∈ l1 -> b ∈ l2 -> a < b) -> StronglySorted Z.lt (l1 ++ l2).
Proof.
  intros H1 H2 Hlt. induction H1 as [|a l1 H1 IH Ha]; [done|]. simpl. constructor.
  - apply IH. intros. apply Hlt; [by right|done].
  - apply Forall_app. split; [done|]. apply Forall_forall. intros. apply Hlt; [by left|done].
Qed.

Lemma sorted_app_inv l1 l2 : StronglySorted Z.lt (l1 ++ l2) ->
  StronglySorted Z.lt l1 /\ StronglySorted Z.lt l2 /\ (forall a b, a ∈ l1 -> b ∈ l2 -> a < b).
Proof.
  induction l1 as [|x l1 IH]; simpl; intros H; [split; [constructor|]; split; [done|set_solver]|].
  inversion_clear H as [|? ? Hs Hx]. apply Forall_app in Hx as [Hx1 Hx2].
  destruct (IH Hs) as (? & ? & Hlt). split; [by constructor|]. split; [done|].
  intros a b Ha Hb. apply elem_of_cons in Ha as [->|Ha]; [|by apply Hlt].
  rewrite Forall_forall in Hx2. by apply Hx2.
Qed.

Lemma splits_sorted vs x pos : StronglySorted Z.lt vs -> splits vs x pos ->
  StronglySorted Z.lt (take pos vs ++ x :: drop pos vs).
Proof.
  intros Hs (_ & Hlo & Hhi). rewrite <- (take_drop pos vs) in Hs.
  apply sorted_app_inv in Hs as (H1 & H2 & Hlt). rewrite Forall_forall in Hlo.
  apply sorted_app; [done|by constructor|]. intros a b Ha Hb.
  apply elem_of_cons in Hb as [->|Hb]; [by apply Hlo|by apply Hlt].
Qed.

(** ** Insertion at the width of the set *)

Lemma size_fits n w : 0 <= n < 2 ^ 29 -> 0 < w <= 8 -> in_u 32 (n * w).
Proof.
  intros Hn Hw. split; [lia|]. apply Z.le_lt_trans with ((2 ^ 29 - 1) * 8); [|lia].
  apply Z.mul_le_mono_nonneg; lia.
Qed.

Lemma intset_resize_grow s vs : layout s vs -> Z.of_nat (length vs) < max_len ->
  contents (intsetResize s (length_ s + 1))
    = words (Z.to_nat (encoding s)) vs ++ replicate (Z.to_nat (encoding s)) junk.
Proof.
  intros [He Hn Hw _ _] Hlen. unfold max_len in Hlen. simpl. rewrite Hn, Hw.
  assert (0 < encoding s <= 8) by (destruct He as [->|[->| ->]]; lia).
  rewrite wrapu_id by (unfold in_u; nia). rewrite realloc_grow by (rewrite words_length; nia).
  f_equal. f_equal. rewrite words_length. nia.
Qed.

Lemma write_gap w pre mid post v off : length mid = w -> off = Z.of_nat (length pre) ->
  write (pre ++ mid ++ post) off (le_encode w v) = Some (pre ++ le_encode w v ++ post).
Proof. intros Hm ->. apply write_app. by rewrite le_encode_length. Qed.

Lemma intset_insert_ok s vs x pos : layout s vs -> Z.of_nat (length vs) < max_len ->
  in_s (8 * encoding s) x -> splits vs x pos ->
  exists s', (let s1 := intsetResize s (length_ s + 1) in
       s2 ← (if Z.of_nat pos <? length_ s1 then intsetMoveTail s1 (Z.of_nat pos) (Z.of_nat pos + 1) else Some s1);
       s3 ← intsetSet s2 (Z.of_nat pos) x;
       Some (mk_intset (encoding s3) (length_ s3 + 1) (contents s3), true)) = Some (s', true) /\
    layout s' (take pos vs ++ x :: drop pos vs) /\ encoding s' = encoding s.
Proof.
  intros Hl Hlen Hx Hsp. pose proof Hl as [He Hn Hw Hr Hs]. pose proof Hsp as (Hpos & _ & _).
  pose proof (intset_resize_grow s vs Hl Hlen) as Hc.
  assert (Hw0 : 0 < encoding s <= 8) by (destruct He as [->|[->| ->]]; lia).
  set (w := Z.to_nat (encoding s)) in *. assert (Hwz : encoding s = Z.of_nat w) by lia.
  set (s1 := intsetResize s (length_ s + 1)) in *.
  assert (Hmv : exists mid, length mid = w /\
    (if Z.of_nat pos <? length_ s1 then intsetMoveTail s1 (Z.of_nat pos) (Z.of_nat pos + 1) else Some s1)
    = Some (mk_intset (encoding s) (length_ s) (words w (take pos vs) ++ mid ++ words w (drop pos vs)))).
  { change (length_ s1) with (length_ s). rewrite Hn. destruct (Z.ltb_spec (Z.of_nat pos) (Z.of_nat (length vs))).
    - exists (take w (words w (drop pos vs) ++ replicate w junk)).
      split; [rewrite length_take, length_app, length_replicate; lia|].
      unfold intsetMoveTail. change (encoding s1) with (encoding s). rewrite width_enc by done.
      change (length_ s1) with (length_ s). unfold max_len in Hlen.
      rewrite Hc, <- (take_drop pos vs) at 1. rewrite words_app, <- app_assoc.
      rewrite <- (app_nil_r (replicate w junk)).
      rewrite (memmove_up (words w (take pos vs)) (words w (drop pos vs)) (replicate w junk) []).
      + simpl. by rewrite Hn, length_replicate, !app_nil_r.
      + rewrite words_length, length_take, length_replicate. nia.
      + rewrite words_length, length_take. nia.
      + rewrite words_length, length_drop, Hn.
        rewrite (wrapu_id 32 (_ - _)) by (unfold in_u; lia). rewrite wrapu_id by (unfold in_u; nia). nia.
    - exists (replicate w junk). split; [apply length_replicate|].
      rewrite take_ge, drop_ge by lia. change (words w []) with (@nil Z). rewrite app_nil_r.
      transitivity (Some (mk_intset (encoding s1) (length_ s1) (contents s1))); [done|].
      rewrite Hc. simpl. by rewrite Hn. }
  destruct Hmv as (mid & Hmid & Hmv). cbv zeta. fold s1. rewrite Hmv. cbn [mbind option_bind].
  unfold intsetSet. simpl. rewrite width_enc by done. fold w.
  rewrite (write_gap w) by (try done; rewrite words_length, length_take; nia). simpl.
  eexists. split; [done|]. split; [|done]. constructor; simpl; try done.
  - rewrite Hn, length_app, length_take. simpl. rewrite length_drop. lia.
  - fold w. by rewrite words_app.
  - apply Forall_app. split; [by apply Forall_take|]. constructor; [done|by apply Forall_drop].
  - by apply splits_sorted.
Qed.

(** ** Upgrading the width in place *)

Lemma upgrade_loop_ok cw nw p vs tail len : is_enc cw -> is_enc nw -> cw <= nw -> (p <= 1)%nat ->
  Forall (in_s (8 * cw)) vs ->
  forall k gap s, (k <= length vs)%nat -> encoding s = nw -> length_ s = len ->
  contents s = words (Z.to_nat cw) (take k vs) ++ gap ++ words (Z.to_nat nw) (drop k vs) ++ tail ->
  (k * Z.to_nat cw + length gap = (k + p) * Z.to_nat nw)%nat ->
  exists gap', upgrade_loop k s (Z.of_nat p) cw
      = Some (mk_intset nw len (gap' ++ words (Z.to_nat nw) vs ++ tail)) /\
    length gap' = (p * Z.to_nat nw)%nat.
Proof.
  intros Hcw Hnw Hle Hp Hr k. induction k as [|k IH]; intros gap s Hk He Hlen Hc Hg.
  { exists gap. split; [|lia]. simpl. destruct s; simpl in *; subst. done. }
  destruct (lookup_lt_is_Some_2 vs k) as [v Hv]; [lia|].
  assert (Hw : 0 < cw /\ 0 < nw) by (destruct Hcw as [->|[->| ->]], Hnw as [->|[->| ->]]; lia).
  rewrite (take_S_r _ _ _ Hv), words_app, words_cons in Hc. change (words _ []) with (@nil Z) in Hc.
  rewrite app_nil_r, <- app_assoc in Hc.
  simpl. rewrite (get_ok s cw (take (S k) vs) (gap ++ words (Z.to_nat nw) (drop (S k) vs) ++ tail) k v);
    [|done| |by rewrite lookup_take_lt by lia|by eapply Forall_lookup_1].
  2:{ rewrite Hc, (take_S_r _ _ _ Hv), words_app, words_cons. change (words _ []) with (@nil Z).
      by rewrite app_nil_r, <- app_assoc. }
  simpl. unfold intsetSet. rewrite He, width_enc by done.
  set (X := le_encode (Z.to_nat cw) v ++ gap).
  assert (HX : length X = (Z.to_nat cw + length gap)%nat) by (unfold X; by rewrite length_app, le_encode_length).
  set (mm := (length X - Z.to_nat nw)%nat).
  assert (Hfit : (k * Z.to_nat cw + mm = (k + p) * Z.to_nat nw)%nat) by (unfold mm; nia).
  rewrite (write_at _ (words (Z.to_nat cw) (take k vs) ++ take mm X) (drop mm X)
             _ (words (Z.to_nat nw) (drop (S k) vs) ++ tail)).
  - simpl. edestruct (IH (take mm X)) as (gap' & Hrun & Hgap'); last first.
    + exists gap'. split; [|done]. rewrite <- Hrun. f_equal.
    + rewrite length_take. nia.
    + simpl. rewrite <- !app_assoc. f_equal. f_equal.
      rewrite (drop_S _ _ _ Hv), words_cons, <- !app_assoc. done.
    + done.
    + done.
    + lia.
  - rewrite Hc. rewrite <- app_assoc. f_equal. rewrite (app_assoc (take mm X)), take_drop.
    unfold X. by rewrite <- !app_assoc.
  - rewrite length_app, words_length, !length_take. nia.
  - rewrite length_drop, le_encode_length. unfold mm. nia.
Qed.

Lemma upgrade_ok s vs x : layout s vs -> Z.of_nat (length vs) < max_len -> in_s 64 x ->
  encoding s < intsetValueEncoding x ->
  exists s', intsetUpgradeAndAdd s x = Some s' /\
    layout s' (if x <? 0 then x :: vs else vs ++ [x]) /\ encoding s' = intsetValueEncoding x /\ x ∉ vs.
Proof.
  intros [He Hn Hw Hr Hs] Hlen Hx Henc. unfold max_len in Hlen.
  pose proof (valueEncoding_enc x) as He'. pose proof (valueEncoding_fits x Hx) as Hfit.
  pose proof (valueEncoding_outside _ _ He Hx Henc) as Hout.
  unfold intsetUpgradeAndAdd. cbv zeta. set (nw := intsetValueEncoding x) in *. clearbody nw.
  assert (Hw0 : 0 < encoding s /\ 0 < nw <= 8) by (destruct He as [->|[->| ->]], He' as [->|[->| ->]]; lia).
  assert (Hwide : Forall (in_s (8 * nw)) vs).
  { eapply Forall_impl; [exact Hr|]. intros v Hv. eapply in_s_mono; [exact He|done|lia|done]. }
  assert (Hbnd : Forall (fun v => - 2 ^ (8 * encoding s - 1) <= v < 2 ^ (8 * encoding s - 1)) vs) by exact Hr.
  assert (Hpow : 0 < 2 ^ (8 * encoding s - 1)) by (apply Z.pow_pos_nonneg; lia).
  assert (Hx' : (x <? 0 = true /\ Forall (fun v => x < v) vs) \/ (x <? 0 = false /\ Forall (fun v => v < x) vs)).
  { destruct (Z.ltb_spec x 0); [left|right]; (split; [done|]);
      (eapply Forall_impl; [exact Hbnd|]); simpl; lia. }
  set (p := if x <? 0 then 1%nat else O).
  replace (if x <? 0 then 1 else 0) with (Z.of_nat p) by (unfold p; by case_bool).
  unfold intsetResize. cbn [encoding length_ contents]. rewrite Hn, Nat2Z.id, wrapu_id by (apply size_fits; lia).
  rewrite Hw, realloc_grow by (rewrite words_length; clear -Hw0 Henc; nia).
  set (pad := replicate _ junk).
  assert (Hpad : (length vs * Z.to_nat (encoding s) + length pad = (length vs + 1) * Z.to_nat nw)%nat).
  { unfold pad. rewrite length_replicate, words_length. clear -Hw0 Henc. nia. }
  clearbody pad.
  assert (Hp1 : (p <= 1)%nat) by (unfold p; case_bool; lia).
  destruct (upgrade_loop_ok (encoding s) nw p vs (drop (length pad - (1 - p) * Z.to_nat nw) pad)
    (Z.of_nat (length vs)) He He' ltac:(lia) Hp1 Hr (length vs)
    (take (length pad - (1 - p) * Z.to_nat nw) pad)
    (mk_intset nw (Z.of_nat (length vs)) (words (Z.to_nat (encoding s)) vs ++ pad)))
    as (gap & Hrun & Hgap); try done.
  { simpl. rewrite take_ge, drop_ge by lia. change (words _ []) with (@nil Z). simpl.
    by rewrite take_drop. }
  { rewrite length_take. nia. }
  rewrite Hrun. cbn [mbind option_bind]. unfold intsetSet. simpl. rewrite width_enc by done.
  set (tl := drop _ pad) in *.
  assert (Htl : length tl = ((1 - p) * Z.to_nat nw)%nat) by (unfold tl; rewrite length_drop; nia).
  clearbody tl. clear Hrun.
  destruct Hx' as [[Hneg Hall]|[Hpos Hall]].
  - assert (p = 1%nat) as -> by (unfold p; by rewrite Hneg). rewrite Hneg. simpl in *.
    destruct tl; [|done].
    rewrite (write_at _ [] gap _ (words (Z.to_nat nw) vs)) by (rewrite ?app_nil_r, ?le_encode_length; (done || lia)).
    simpl. eexists. split; [done|]. simpl. split; [|split; [done|]].
    + constructor; simpl; try done; [lia|by constructor|]. by constructor.
    + rewrite Forall_forall in Hall. intros Hin%Hall. lia.
  - assert (p = O) as -> by (unfold p; by rewrite Hpos). rewrite Hpos. simpl in *.
    destruct gap; [|done]. simpl.
    rewrite (write_at _ (words (Z.to_nat nw) vs) tl _ [])
      by (rewrite ?app_nil_r, ?le_encode_length, ?words_length; (done || lia)).
    simpl. eexists. split; [done|]. simpl. split; [|split; [done|]].
    + constructor; simpl; try done.
      * rewrite length_app. simpl. lia.
      * rewrite words_app, words_cons. change (words _ []) with (@nil Z). done.
      * apply Forall_app. split; [done|by constructor].
      * apply sorted_app; [done|by repeat constructor|]. intros a b Ha Hb.
        apply list_elem_of_singleton in Hb as ->. rewrite Forall_forall in Hall. by apply Hall.
    + rewrite Forall_forall in Hall. intros Hin%Hall. lia.
Qed.

(** ** Removal *)

Lemma remove_ok s vs x pos : layout s vs -> Z.of_nat (length vs) <= max_len -> vs !! pos = Some x ->
  exists s', (s1 ← (if Z.of_nat pos <? length_ s - 1 then intsetMoveTail s (Z.of_nat pos + 1) (Z.of_nat pos) else Some s);
       let s2 := intsetResize s1 (length_ s1 - 1) in
       Some (mk_intset (encoding s2) (length_ s2 - 1) (contents s2), true)) = Some (s', true) /\
    layout s' (take pos vs ++ drop (S pos) vs).
Proof.
  intros Hl Hlen Hpos. pose proof Hl as [He Hn Hw Hr Hs]. unfold max_len in Hlen.
  pose proof (lookup_lt_Some _ _ _ Hpos) as Hlt.
  assert (Hw0 : 0 < encoding s <= 8) by (destruct He as [->|[->| ->]]; lia).
  set (w := Z.to_nat (encoding s)) in *. assert (Hwz : encoding s = Z.of_nat w) by lia.
  pose proof (words_split w vs pos x Hpos) as Hsp.
  assert (Hmv : exists rest,
    (if Z.of_nat pos <? length_ s - 1 then intsetMoveTail s (Z.of_nat pos + 1) (Z.of_nat pos) else Some s)
    = Some (mk_intset (encoding s) (length_ s) (words w (take pos vs ++ drop (S pos) vs) ++ rest))).
  { destruct (Z.ltb_spec (Z.of_nat pos) (length_ s - 1)).
    - eexists. unfold intsetMoveTail. rewrite width_enc by done. rewrite Hw, Hsp.
      rewrite <- (app_nil_r (words w (drop (S pos) vs))).
      rewrite (memmove_down (words w (take pos vs)) (le_encode w x) (words w (drop (S pos) vs)) []).
      + simpl. by rewrite words_app, app_assoc.
      + rewrite words_length, length_take. nia.
      + rewrite words_length, length_take, le_encode_length. nia.
      + rewrite words_length, length_drop, Hn. rewrite (wrapu_id 32 (_ - _)) by (unfold in_u; lia).
        rewrite wrapu_id by (apply size_fits; lia). nia.
    - exists (le_encode w x). rewrite drop_ge, app_nil_r by lia.
      rewrite drop_ge, app_nil_r in Hsp by lia. rewrite <- Hsp, <- Hw. by destruct s. }
  destruct Hmv as (rest & ->). cbn [mbind option_bind]. unfold intsetResize. cbn [encoding length_ contents].
  assert (Hlen' : length (take pos vs ++ drop (S pos) vs) = (length vs - 1)%nat).
  { rewrite length_app, length_take, length_drop. lia. }
  eexists. split; [done|]. cbn [encoding length_ contents]. constructor; cbn [encoding length_ contents]; try done.
  - rewrite Hlen', Hn. lia.
  - fold w. apply realloc_shrink. rewrite words_length, Hlen', Hn.
    rewrite wrapu_id by (apply size_fits; lia). nia.
  - apply Forall_app. split; [by apply Forall_take|by apply Forall_drop].
  - rewrite <- (take_drop_middle _ _ _ Hpos) in Hs. apply sorted_app_inv in Hs as (H1 & H2 & Hc).
    inversion_clear H2. apply sorted_app; [done..|]. intros a b Ha Hb. apply Hc; [done|by right].
Qed.

(** ** Refinement of finite sets *)

Definition represents (s : intset) (X : gset Z) : Prop :=
  exists vs, layout s vs /\ list_to_set vs = X.

Lemma sorted_NoDup vs : StronglySorted Z.lt vs -> NoDup vs.
Proof.
  induction 1 as [|x l Hs IH Hx]; constructor; [|done]. rewrite Forall_forall in Hx.
  intros Hin%Hx. lia.
Qed.

Lemma represents_size s (X : gset Z) vs : layout s vs -> list_to_set vs = X ->
  Z.of_nat (size X) = Z.of_nat (length vs).
Proof. intros Hl <-. by rewrite size_list_to_set by (by apply sorted_NoDup, Hl). Qed.

(** A value too wide for the set is not in it. *)
Lemma wide_not_in s vs x : layout s vs -> in_s 64 x -> encoding s < intsetValueEncoding x -> x ∉ vs.
Proof.
  intros [He _ _ Hr _] Hx Henc Hin. rewrite Forall_forall in Hr.
  pose proof (valueEncoding_inside _ _ He (Hr x Hin)). lia.
Qed.

Lemma add_refines s X x : represents s X -> Z.of_nat (size X) < max_len -> in_s 64 x ->
  exists s', intsetAdd s x = Some (s', bool_decide (x ∉ X)) /\ represents s' ({[x]} ∪ X).
Proof.
  intros (vs & Hl & HX) Hsz Hx. rewrite (represents_size s X vs Hl HX) in Hsz. unfold intsetAdd.
  destruct (Z.ltb_spec (encoding s) (intsetValueEncoding x)) as [Henc|Henc].
  - destruct (upgrade_ok s vs x Hl Hsz Hx Henc) as (s' & -> & Hl' & _ & Hni). simpl.
    exists s'. rewrite bool_decide_true by set_solver. split; [done|]. eexists. split; [done|].
    case_bool; set_solver.
  - destruct (search_ok s vs x Hl) as (b & pos & -> & Hb); [unfold max_len in Hsz; lia|].
    cbn [mbind option_bind]. destruct b.
    + apply list_elem_of_lookup_2 in Hb. exists s. rewrite bool_decide_false by set_solver.
      split; [done|]. exists vs. split; [done|]. set_solver.
    + assert (Hfit : in_s (8 * encoding s) x).
      { eapply in_s_mono; [apply valueEncoding_enc|apply Hl|exact Henc|]. by apply valueEncoding_fits. }
      destruct (intset_insert_ok s vs x pos Hl Hsz Hfit Hb) as (s' & Hrun & Hl' & _).
      cbv zeta in Hrun. exists s'.
      pose proof (splits_not_in _ _ _ Hb) as Hni. rewrite bool_decide_true by set_solver.
      split; [exact Hrun|]. eexists. split; [done|]. subst X. rewrite <- (take_drop pos vs) at 3.
      rewrite !list_to_set_app_L. simpl. set_solver.
Qed.

Lemma remove_refines s X x : represents s X -> Z.of_nat (size X) <= max_len -> in_s 64 x ->
  exists s', intsetRemove s x = Some (s', bool_decide (x ∈ X)) /\ represents s' (X ∖ {[x]}).
Proof.
  intros (vs & Hl & HX) Hsz Hx. rewrite (represents_size s X vs Hl HX) in Hsz. unfold intsetRemove.
  assert (Hno : x ∉ vs -> represents s (X ∖ {[x]})).
  { intros Hni. exists vs. split; [done|]. set_solver. }
  destruct (Z.leb_spec (intsetValueEncoding x) (encoding s)) as [Henc|Henc].
  - destruct (search_ok s vs x Hl) as (b & pos & -> & Hb); [unfold max_len in Hsz; lia|].
    cbn [mbind option_bind]. destruct b.
    + pose proof (list_elem_of_lookup_2 _ _ _ Hb) as Hin.
      destruct (remove_ok s vs x pos Hl Hsz Hb) as (s' & Hrun & Hl'). exists s'.
      rewrite bool_decide_true by set_solver. split; [exact Hrun|]. eexists. split; [done|].
      pose proof (sorted_NoDup _ (lay_sorted _ _ Hl)) as Hnd.
      rewrite <- (take_drop_middle _ _ _ Hb) in Hnd. subst X.
      rewrite <- (take_drop_middle _ _ _ Hb) at 3. rewrite !list_to_set_app_L. simpl.
      apply NoDup_app in Hnd as (_ & Hd & Hnd). apply NoDup_cons in Hnd as [Hx2 _].
      assert (x ∉ take pos vs) by (intros Hc; apply (Hd x Hc); by left). set_solver.
    + pose proof (splits_not_in _ _ _ Hb). exists s. rewrite bool_decide_false by set_solver. auto.
  - pose proof (wide_not_in s vs x Hl Hx Henc). exists s. rewrite bool_decide_false by set_solver. auto.
Qed.

Lemma find_refines s X x : represents s X -> Z.of_nat (size X) <= max_len -> in_s 64 x ->
  intsetFind s x = Some (bool_decide (x ∈ X)).
Proof.
  intros (vs & Hl & HX) Hsz Hx. rewrite (represents_size s X vs Hl HX) in Hsz. unfold intsetFind.
  destruct (Z.leb_spec (intsetValueEncoding x) (encoding s)) as [Henc|Henc].
  - destruct (search_ok s vs x Hl) as (b & pos & -> & Hb); [unfold max_len in Hsz; lia|]. simpl. f_equal.
    destruct b; symmetry.
    + apply list_elem_of_lookup_2 in Hb. apply bool_decide_true. set_solver.
    + pose proof (splits_not_in _ _ _ Hb). apply bool_decide_false. set_solver.
  - pose proof (wide_not_in s vs x Hl Hx Henc). f_equal. symmetry. apply bool_decide_false. set_solver.
Qed.

(** C37. An intset implements a finite set of 64-bit integers: on a block that
    represents [X], adding, removing and finding a value compute the set
    operation and its success flag without leaving the block, whatever the
    widths involved. *)
Theorem intset_refines_set s X x : represents s X -> Z.of_nat (size X) < max_len -> in_s 64 x ->
  (exists s', intsetAdd s x = Some (s', bool_decide (x ∉ X)) /\ represents s' ({[x]} ∪ X)) /\
  (exists s', intsetRemove s x = Some (s', bool_decide (x ∈ X)) /\ represents s' (X ∖ {[x]})) /\
  intsetFind s x = Some (bool_decide (x ∈ X)) /\ intsetLen s = Z.of_nat (size X).
Proof.
  intros Hr Hsz Hx. split; [by apply add_refines|]. split; [apply remove_refines; (done || lia)|].
  split; [apply find_refines; (done || lia)|]. destruct Hr as (vs & Hl & HX).
  rewrite (represents_size s X vs Hl HX). apply Hl.
Qed.

(** Reading by position enumerates the set in increasing order, and fails
    exactly beyond its size; a random member is a member. *)
Theorem intset_enumerates s X : represents s X ->
  exists vs, StronglySorted Z.lt vs /\ list_to_set vs = X /\
    (forall pos, 0 <= pos -> intsetGet s pos = Some (vs !! Z.to_nat pos)) /\
    (forall r, X <> ∅ -> exists v, intsetRandom s r = Some v /\ v ∈ X).
Proof.
  intros (vs & Hl & HX). exists vs. split; [apply Hl|]. split; [done|]. pose proof (lay_len _ _ Hl) as Hn. split.
  - intros pos Hpos. unfold intsetGet. rewrite Hn. destruct (Z.ltb_spec pos (Z.of_nat (length vs))).
    + destruct (layout_get_z s vs pos Hl ltac:(lia)) as (v & -> & ->). done.
    + by rewrite lookup_ge_None_2 by lia.
  - intros r Hne. unfold intsetRandom. rewrite Hn.
    destruct (Z.eqb_spec (Z.of_nat (length vs)) 0); [destruct vs; [set_solver|done]|].
    destruct (layout_get_z s vs (r mod Z.of_nat (length vs)) Hl) as (v & Hv & ->).
    { apply Z.mod_pos_bound. lia. }
    exists v. split; [done|]. apply list_elem_of_lookup_2 in Hv. set_solver.
Qed.

End intset.

(** ** Witnesses: a set that is upgraded twice *)

Definition ex_set : option intset :=
  '(s, _) ← intsetAdd 170 intsetNew 5; '(s, _) ← intsetAdd 170 s (-70000);
  '(s, _) ← intsetAdd 170 s 12; '(s, _) ← intsetAdd 170 s 5000000000; Some s.

Definition ex_block : intset := mk_intset 8 4 (words 8 [-70000; 5; 12; 5000000000]).

Lemma ex_layout : layout ex_block [-70000; 5; 12; 5000000000].
Proof.
  constructor; [by right; right|done|done|..]; repeat constructor; unfold in_s; simpl; lia.
Qed.

Lemma ex_represents : represents ex_block {[-70000; 5; 12; 5000000000]}.
Proof. exists [-70000; 5; 12; 5000000000]. split; [exact ex_layout|]. set_solver. Qed.

Lemma intset_refines_set_witness :
  ex_set = Some ex_block /\ intsetFind ex_block 12 = Some true /\
  exists s', intsetRemove 170 ex_block 12 = Some (s', true) /\ represents s' ({[-70000; 5; 12; 5000000000]} ∖ {[12]}).
Proof.
  split; [vm_compute; reflexivity|].
  destruct (intset_refines_set 170 ex_block {[-70000; 5; 12; 5000000000]} 12 ex_represents)
    as (_ & Hrem & Hf & _).
  { vm_compute. reflexivity. }
  { unfold in_s. lia. }
  split; [exact Hf|exact Hrem].
Defined.

Lemma intset_enumerates_witness :
  intsetGet ex_block 2 = Some (Some 12) /\
  exists vs, StronglySorted Z.lt vs /\ list_to_set vs = ({[-70000; 5; 12; 5000000000]} : gset Z) /\
    (forall pos, 0 <= pos -> intsetGet ex_block pos = Some (vs !! Z.to_nat pos)).
Proof.
  split; [vm_compute; reflexivity|].
  destruct (intset_enumerates ex_block _ ex_represents) as (vs & Hs & HX & Hg & _).
  by exists vs.
Defined.

End Intset.
