(* ===== verification/Adlist.v ===== *)
(** * Doubly linked lists

    Models [src/redis/src/adlist.c].  Nodes live in a heap (a finite map from
    addresses to nodes) and are linked by pointers; [NULL] is [None], and a
    dereference of [NULL] or of a freed node is the [None] of the operation.
    [zmalloc] is a parameter that returns an address not in use (it aborts the
    process rather than return [NULL]); the [dup], [free] and [match] methods
    are fields of the list, and the values passed to [free] are recorded.

    The theorems: with a list represented by the sequence of its nodes, every
    operation is the corresponding operation on the sequence, touches no other
    node of the heap, and never dereferences a bad pointer. *)

From S2P Require Import Prelude.
Local Open Scope Z_scope.

Module Adlist.
Section adlist.
Context {V : Type} `{EqDecision V}.

Abbreviation loc := positive.
Abbreviation ptr := (option positive).

Record listNode := mk_node { prev : ptr; next : ptr; value : V }.

Abbreviation heap := (gmap positive listNode).

Record lst := mk_list {
  head : ptr; tail : ptr;
  dup : option (V -> option V); free : bool; match_ : option (V -> V -> bool);
  len : Z
}.

Record listIter := mk_iter { it_next : ptr; it_direction : Z }.
Definition AL_START_HEAD : Z := 0.
Definition AL_START_TAIL : Z := 1.

Context (zmalloc : heap -> loc).

(** [*p] *)
Definition deref (h : heap) (p : ptr) : option listNode := a ← p; h !! a.

(** [p->next = n] and [p->prev = n] *)
Definition set_next (h : heap) (p n : ptr) : option heap :=
  a ← p; x ← h !! a; Some (<[a := mk_node (prev x) n (value x)]> h).
Definition set_prev (h : heap) (p n : ptr) : option heap :=
  a ← p; x ← h !! a; Some (<[a := mk_node n (next x) (value x)]> h).

Definition set_ends (L : lst) (hd tl : ptr) (n : Z) : lst :=
  mk_list hd tl (dup L) (free L) (match_ L) (wrapu 32 n).

Definition listCreate : lst := mk_list None None None false None 0.

(** [while(len--)]: the heap and the values given to [free]. *)
Fixpoint release_loop (n : nat) (h : heap) (current : ptr) (fr : bool) : option (heap * list V) :=
  match n with
  | O => Some (h, [])
  | S n' =>
    a ← current; x ← h !! a;
    '(h', vs) ← release_loop n' (delete a h) (next x) fr;
    Some (h', if fr then value x :: vs else vs)
  end.

Definition listRelease (h : heap) (L : lst) : option (heap * list V) :=
  release_loop (Z.to_nat (len L)) h (head L) (free L).

Definition listAddNodeHead (h : heap) (L : lst) (v : V) : option (heap * lst) :=
  let a := zmalloc h in
  if len L =? 0 then
    Some (<[a := mk_node None None v]> h, set_ends L (Some a) (Some a) (len L + 1))
  else
    let h := <[a := mk_node None (head L) v]> h in
    h ← set_prev h (head L) (Some a);
    Some (h, set_ends L (Some a) (tail L) (len L + 1)).

Definition listAddNodeTail (h : heap) (L : lst) (v : V) : option (heap * lst) :=
  let a := zmalloc h in
  if len L =? 0 then
    Some (<[a := mk_node None None v]> h, set_ends L (Some a) (Some a) (len L + 1))
  else
    let h := <[a := mk_node (tail L) None v]> h in
    h ← set_next h (tail L) (Some a);
    Some (h, set_ends L (head L) (Some a) (len L + 1)).

Definition listInsertNode (h : heap) (L : lst) (old : loc) (v : V) (after : bool) : option (heap * lst) :=
  let a := zmalloc h in
  x ← h !! old;
  let node := if after then mk_node (Some old) (next x) v else mk_node (prev x) (Some old) v in
  let hd := if after then head L else if decide (head L = Some old) then Some a else head L in
  let tl := if after then if decide (tail L = Some old) then Some a else tail L else tail L in
  let h := <[a := node]> h in
  h ← (match prev node with Some _ => set_next h (prev node) (Some a) | None => Some h end);
  h ← (match next node with Some _ => set_prev h (next node) (Some a) | None => Some h end);
  Some (h, set_ends L hd tl (len L + 1)).

(** Also the values given to [free]. *)
Definition listDelNode (h : heap) (L : lst) (node : loc) : option (heap * lst * list V) :=
  x ← h !! node;
  '(h, hd) ← (match prev x with
              | Some _ => h ← set_next h (prev x) (next x); Some (h, head L)
              | None => Some (h, next x)
              end);
  '(h, tl) ← (match next x with
              | Some _ => h ← set_prev h (next x) (prev x); Some (h, tail L)
              | None => Some (h, prev x)
              end);
  Some (delete node h, set_ends L hd tl (len L - 1), if free L then [value x] else []).

Definition listGetIterator (L : lst) (direction : Z) : listIter :=
  mk_iter (if direction =? AL_START_HEAD then head L else tail L) direction.

Definition listRewind (L : lst) : listIter := mk_iter (head L) AL_START_HEAD.
Definition listRewindTail (L : lst) : listIter := mk_iter (tail L) AL_START_TAIL.

Definition listNext (h : heap) (it : listIter) : option (ptr * listIter) :=
  match it_next it with
  | Some a =>
    x ← h !! a;
    Some (Some a, mk_iter (if it_direction it =? AL_START_HEAD then next x else prev x) (it_direction it))
  | None => Some (None, it)
  end.

(** The copying loop; the inner [None] is the failure of [dup], after which
    the copy is released. *)
Fixpoint dup_loop (fuel : nat) (h : heap) (copy : lst) (it : listIter) : option (heap * option lst) :=
  match fuel with
  | O => None
  | S fuel' =>
    '(node, it) ← listNext h it;
    match node with
    | None => Some (h, Some copy)
    | Some a =>
      x ← h !! a;
      match (match dup copy with Some f => f (value x) | None => Some (value x) end) with
      | None => '(h, _) ← listRelease h copy; Some (h, None)
      | Some v => '(h, copy) ← listAddNodeTail h copy v; dup_loop fuel' h copy it
      end
    end
  end.

Definition listDup (h : heap) (orig : lst) : option (heap * option lst) :=
  let copy := mk_list None None (dup orig) (free orig) (match_ orig) 0 in
  dup_loop (S (Z.to_nat (len orig))) h copy (listGetIterator orig AL_START_HEAD).

Fixpoint search_loop (fuel : nat) (h : heap) (L : lst) (key : V) (it : listIter) : option ptr :=
  match fuel with
  | O => None
  | S fuel' =>
    '(node, it) ← listNext h it;
    match node with
    | None => Some None
    | Some a =>
      x ← h !! a;
      if (match match_ L with Some f => f (value x) key | None => bool_decide (key = value x) end)
      then Some (Some a) else search_loop fuel' h L key it
    end
  end.

Definition listSearchKey (h : heap) (L : lst) (key : V) : option ptr :=
  search_loop (S (Z.to_nat (len L))) h L key (listGetIterator L AL_START_HEAD).

(** [while(index-- && n) n = n->next] *)
Fixpoint walk (k : nat) (h : heap) (n : ptr) (forward : bool) : option ptr :=
  match k, n with
  | O, _ => Some n
  | S _, None => Some None
  | S k', Some a => x ← h !! a; walk k' h (if forward then next x else prev x) forward
  end.

Definition listIndex (h : heap) (L : lst) (index : Z) : option ptr :=
  if index <? 0 then walk (Z.to_nat (- index - 1)) h (tail L) false
  else walk (Z.to_nat index) h (head L) true.

(** ** Representation *)

Abbreviation nodes := (list (positive * V)).

Definition first (l : nodes) (d : ptr) : ptr := match l with [] => d | (a, _) :: _ => Some a end.
Definition final (l : nodes) (d : ptr) : ptr := match last l with None => d | Some (a, _) => Some a end.

(** The segment [l] of the heap, with [p] before it and [n] after it. *)
Fixpoint seg (h : heap) (p : ptr) (l : nodes) (n : ptr) : Prop :=
  match l with
  | [] => True
  | (a, v) :: l' => h !! a = Some (mk_node p (first l' n) v) /\ seg h (Some a) l' n
  end.

Record rep (h : heap) (L : lst) (l : nodes) : Prop := {
  rep_seg : seg h None l None;
  rep_nodup : NoDup l.*1;
  rep_head : head L = first l None;
  rep_tail : tail L = final l None;
  rep_len : len L = Z.of_nat (length l);
  rep_max : Z.of_nat (length l) < 2 ^ 32
}.

(** The two heaps agree outside the nodes [l]. *)
Definition frame (h h' : heap) (l : nodes) : Prop := forall b, b ∉ l.*1 -> h' !! b = h !! b.

Lemma final_snoc l a v d : final (l ++ [(a, v)]) d = Some a.
Proof. unfold final. by rewrite last_snoc. Qed.

Lemma final_cons a v l d : final ((a, v) :: l) d = final l (Some a).
Proof. unfold final. rewrite last_cons. by destruct (last l) as [[]|]. Qed.

Lemma final_app l1 l2 d : final (l1 ++ l2) d = final l2 (final l1 d).
Proof. unfold final. rewrite last_app. destruct (last l2) as [[]|]; done. Qed.

Lemma first_app l1 l2 d : first (l1 ++ l2) d = first l1 (first l2 d).
Proof. destruct l1 as [|[]]; done. Qed.

Lemma seg_app h p l1 l2 n :
  seg h p (l1 ++ l2) n <-> seg h p l1 (first l2 n) /\ seg h (final l1 p) l2 n.
Proof.
  revert p. induction l1 as [|[a v] l1 IH]; intros p; simpl; [tauto|].
  rewrite IH, first_app, final_cons. tauto.
Qed.

Lemma seg_frame h a x p l n : a ∉ l.*1 -> seg h p l n -> seg (<[a := x]> h) p l n.
Proof.
  revert p. induction l as [|[b v] l IH]; intros p Hni Hs; simpl in *; [done|].
  destruct Hs as [Hb Hs]. apply not_elem_of_cons in Hni as [Hab Hni].
  split; [by rewrite lookup_insert_ne|by apply IH].
Qed.

Lemma seg_delete h a p l n : a ∉ l.*1 -> seg h p l n -> seg (delete a h) p l n.
Proof.
  revert p. induction l as [|[b v] l IH]; intros p Hni Hs; simpl in *; [done|].
  destruct Hs as [Hb Hs]. apply not_elem_of_cons in Hni as [Hab Hni].
  split; [by rewrite lookup_delete_ne|by apply IH].
Qed.

Lemma seg_in_dom h p l n a : seg h p l n -> a ∈ l.*1 -> is_Some (h !! a).
Proof.
  revert p. induction l as [|[b v] l IH]; intros p Hs Hin; simpl in *; [set_solver|].
  destruct Hs as [Hb Hs]. apply elem_of_cons in Hin as [->|Hin]; [by eexists|by eapply IH].
Qed.

(** Redirecting the pointer into a segment at either end. *)
Lemma seg_set_prev h p l n p' : l <> [] -> NoDup l.*1 -> seg h p l n ->
  exists h', set_prev h (first l None) p' = Some h' /\ seg h' p' l n /\ frame h h' l.
Proof.
  destruct l as [|[a v] l]; [done|]. intros _ Hnd [Ha Hs]. unfold set_prev. simpl. rewrite Ha. simpl.
  apply NoDup_cons in Hnd as [Hni Hnd]. eexists. split; [done|]. split.
  - split; [by rewrite lookup_insert_eq|by apply seg_frame].
  - intros b Hb. rewrite lookup_insert_ne by set_solver. done.
Qed.

Lemma seg_set_next h p l n n' : l <> [] -> NoDup l.*1 -> seg h p l n ->
  exists h', set_next h (final l None) n' = Some h' /\ seg h' p l n' /\ frame h h' l.
Proof.
  intros Hne. destruct (exists_last Hne) as (l0 & [a v] & ->). intros Hnd Hs.
  rewrite final_snoc. apply seg_app in Hs as [Hs0 [Ha _]]. rewrite fmap_app in Hnd.
  apply NoDup_app in Hnd as (_ & Hd & _).
  unfold set_next. simpl. rewrite Ha. simpl. eexists. split; [done|]. split.
  - apply seg_app. split; [|simpl; split; [by rewrite lookup_insert_eq|done]].
    apply seg_frame; [|done]. intros Hin. apply (Hd a Hin). simpl. by left.
  - intros b Hb. rewrite fmap_app, not_elem_of_app in Hb. rewrite lookup_insert_ne by set_solver. done.
Qed.

Lemma seg_agree h h' p l n : (forall b, b ∈ l.*1 -> h' !! b = h !! b) -> seg h p l n -> seg h' p l n.
Proof.
  revert p. induction l as [|[a v] l IH]; intros p Hag Hs; simpl in *; [done|].
  destruct Hs as [Ha Hs]. split; [by rewrite Hag by (by left)|].
  apply IH; [|done]. intros. apply Hag. by right.
Qed.

(** ** Linking and unlinking *)

(** [p->next = n] when [p] is not [NULL]; the same for [prev]. *)
Definition link_next (h : heap) (p n : ptr) : option heap :=
  match p with Some _ => set_next h p n | None => Some h end.
Definition link_prev (h : heap) (p n : ptr) : option heap :=
  match p with Some _ => set_prev h p n | None => Some h end.

Lemma link_next_ok h p l n n' : NoDup l.*1 -> seg h p l n ->
  exists h', link_next h (final l None) n' = Some h' /\ seg h' p l n' /\ frame h h' l.
Proof.
  intros Hnd Hs. destruct (decide (l = [])) as [->|Hne]; [by exists h|].
  unfold link_next. destruct (exists_last Hne) as (l0 & [a v] & ->). rewrite final_snoc.
  rewrite <- (final_snoc l0 a v None). eapply seg_set_next; [by destruct l0|done..].
Qed.

Lemma link_prev_ok h p l n p' : NoDup l.*1 -> seg h p l n ->
  exists h', link_prev h (first l None) p' = Some h' /\ seg h' p' l n /\ frame h h' l.
Proof.
  intros Hnd Hs. destruct l as [|[a v] l]; [by exists h|]. by eapply seg_set_prev.
Qed.

Lemma seg_keep h h' l p l' n : frame h h' l -> (forall b, b ∈ l'.*1 -> b ∉ l.*1) ->
  seg h p l' n -> seg h' p l' n.
Proof. intros Hf Hd. apply seg_agree. intros b Hb. apply Hf. by apply Hd. Qed.

(** A new node [a] between [l1] and [l2]. *)
Lemma insert_between h l1 l2 a v : NoDup (l1 ++ l2).*1 -> a ∉ (l1 ++ l2).*1 ->
  seg h None (l1 ++ l2) None ->
  exists h', (h1 ← link_next (<[a := mk_node (final l1 None) (first l2 None) v]> h) (final l1 None) (Some a);
              link_prev h1 (first l2 None) (Some a)) = Some h' /\
    seg h' None (l1 ++ (a, v) :: l2) None /\ frame h h' (l1 ++ (a, v) :: l2).
Proof.
  intros Hnd Hni Hs. apply seg_app in Hs as [H1 H2]. rewrite fmap_app in Hnd, Hni.
  apply NoDup_app in Hnd as (Hnd1 & Hd & Hnd2). apply not_elem_of_app in Hni as [Hn1 Hn2].
  set (x := mk_node (final l1 None) (first l2 None) v).
  destruct (link_next_ok (<[a := x]> h) None l1 (first l2 None) (Some a) Hnd1) as (h1 & -> & Hs1 & Hf1).
  { by apply seg_frame. }
  cbn [mbind option_bind].
  destruct (link_prev_ok h1 (final l1 None) l2 None (Some a) Hnd2) as (h2 & -> & Hs2 & Hf2).
  { eapply (seg_keep _ h1 l1); [done|set_solver|by apply seg_frame]. }
  exists h2. split; [done|]. split.
  - apply seg_app. split; [eapply (seg_keep h1 h2 l2); [done|set_solver|done]|].
    simpl. split; [|done]. rewrite Hf2, Hf1 by done. by rewrite lookup_insert_eq.
  - intros b Hb. rewrite fmap_app, fmap_cons in Hb. simpl in Hb.
    rewrite Hf2, Hf1, lookup_insert_ne by set_solver. done.
Qed.

(** Unlinking the node [a] between [l1] and [l2]. *)
Lemma remove_between h l1 l2 a v : NoDup (l1 ++ (a, v) :: l2).*1 -> seg h None (l1 ++ (a, v) :: l2) None ->
  h !! a = Some (mk_node (final l1 None) (first l2 None) v) /\
  exists h', (h1 ← link_next h (final l1 None) (first l2 None);
              link_prev h1 (first l2 None) (final l1 None)) = Some h' /\
    seg (delete a h') None (l1 ++ l2) None /\ frame h (delete a h') (l1 ++ (a, v) :: l2).
Proof.
  intros Hnd Hs. apply seg_app in Hs as [H1 [Ha H2]]. rewrite fmap_app in Hnd.
  apply NoDup_app in Hnd as (Hnd1 & Hd & Hnd2). simpl in Hd, Hnd2. apply NoDup_cons in Hnd2 as [Hn2 Hnd2].
  split; [done|].
  assert (Hn1 : a ∉ l1.*1) by (intros Hc; apply (Hd a Hc); by left).
  assert (Hd' : forall b, b ∈ l1.*1 -> b ∉ l2.*1) by (intros b Hb Hc; apply (Hd b Hb); by right).
  destruct (link_next_ok h None l1 (Some a) (first l2 None) Hnd1 H1) as (h1 & -> & Hs1 & Hf1).
  cbn [mbind option_bind].
  destruct (link_prev_ok h1 (Some a) l2 None (final l1 None) Hnd2) as (h2 & -> & Hs2 & Hf2).
  { eapply (seg_keep h h1 l1); [done|set_solver|done]. }
  exists h2. split; [done|]. split.
  - apply seg_app. split; (apply seg_delete; [done|]); [eapply (seg_keep h1 h2 l2); [done|set_solver|done]|done].
  - intros b Hb. rewrite fmap_app, fmap_cons in Hb. simpl in Hb.
    rewrite lookup_delete_ne, Hf2, Hf1 by set_solver. done.
Qed.

(** ** Operations *)

Context (zmalloc_fresh : forall h, h !! zmalloc h = None).

Lemma fresh_not_in h p l n : seg h p l n -> zmalloc h ∉ l.*1.
Proof.
  intros Hs Hin. destruct (seg_in_dom _ _ _ _ _ Hs Hin) as [x Hx]. by rewrite zmalloc_fresh in Hx.
Qed.

Lemma rep_set_ends h L l hd tl : seg h None l None -> NoDup l.*1 -> hd = first l None ->
  tl = final l None -> Z.of_nat (length l) < 2 ^ 32 -> forall n, n = Z.of_nat (length l) ->
  rep h (set_ends L hd tl n) l.
Proof. intros. subst. constructor; simpl; try done. apply wrapu_id. unfold in_u. lia. Qed.

Lemma middle_nodup (l1 l2 : nodes) a v : NoDup (l1 ++ l2).*1 -> a ∉ (l1 ++ l2).*1 ->
  NoDup (l1 ++ (a, v) :: l2).*1.
Proof.
  rewrite !fmap_app, fmap_cons. intros Hnd Hni. simpl.
  rewrite <- Permutation_middle. by constructor.
Qed.

(** The nodes after an insertion. *)
Definition inserted (h : heap) (L : lst) (l : nodes) (r : option (heap * lst)) (l1 l2 : nodes) (v : V) : Prop :=
  l = l1 ++ l2 /\
  exists h' L', r = Some (h', L') /\ rep h' L' (l1 ++ (zmalloc h, v) :: l2) /\
    frame h h' (l1 ++ (zmalloc h, v) :: l2) /\ dup L' = dup L /\ free L' = free L.

Lemma insert_rep h L l1 l2 v hd tl : rep h L (l1 ++ l2) -> Z.of_nat (length (l1 ++ l2)) < 2 ^ 32 - 1 ->
  hd = first (l1 ++ (zmalloc h, v) :: l2) None -> tl = final (l1 ++ (zmalloc h, v) :: l2) None ->
  inserted h L (l1 ++ l2)
    (h1 ← link_next (<[zmalloc h := mk_node (final l1 None) (first l2 None) v]> h) (final l1 None) (Some (zmalloc h));
     h2 ← link_prev h1 (first l2 None) (Some (zmalloc h));
     Some (h2, set_ends L hd tl (len L + 1))) l1 l2 v.
Proof.
  intros [Hs Hnd _ _ Hl _] Hmax Hhd Htl. split; [done|].
  pose proof (fresh_not_in _ _ _ _ Hs) as Hni.
  destruct (insert_between h l1 l2 (zmalloc h) v Hnd Hni Hs) as (h' & Hrun & Hs' & Hf).
  destruct (link_next _ _ _) as [h1|]; [|done]. simpl in *. rewrite Hrun. simpl.
  eexists _, _. split; [done|]. split; [|by split].
  apply rep_set_ends; try done.
  - by apply middle_nodup.
  - rewrite length_app in *. simpl. lia.
  - rewrite Hl, !length_app. simpl. lia.
Qed.

Lemma addHead_ok h L l v : rep h L l -> Z.of_nat (length l) < 2 ^ 32 - 1 ->
  inserted h L l (listAddNodeHead h L v) [] l v.
Proof.
  intros Hr Hm. pose proof Hr as [_ _ Hh Ht Hl _].
  pose proof (insert_rep h L [] l v (Some (zmalloc h)) (final ((zmalloc h, v) :: l) None) Hr Hm eq_refl eq_refl) as H.
  unfold listAddNodeHead. rewrite Hl.
  destruct l as [|[b w] l].
  - rewrite Hl in H. exact H.
  - rewrite (proj2 (Z.eqb_neq _ _)) by (simpl; lia).
    rewrite Hh. simpl in H |- *. rewrite Ht, final_cons. rewrite !final_cons in H. rewrite Hl in H. exact H.
Qed.

Lemma addTail_ok h L l v : rep h L l -> Z.of_nat (length l) < 2 ^ 32 - 1 ->
  inserted h L l (listAddNodeTail h L v) l [] v.
Proof.
  intros Hr Hm. pose proof Hr as [_ _ Hh Ht Hl _].
  assert (Hr' : rep h L (l ++ [])) by (by rewrite app_nil_r).
  pose proof (insert_rep h L l [] v (first (l ++ [(zmalloc h, v)]) None) (Some (zmalloc h)) Hr') as H.
  rewrite app_nil_r, final_snoc in H. specialize (H Hm eq_refl eq_refl).
  unfold listAddNodeTail. rewrite Hl.
  destruct (decide (l = [])) as [->|Hne].
  - rewrite Hl in H. exact H.
  - rewrite (proj2 (Z.eqb_neq _ _)) by (destruct l; [done|simpl; lia]).
    rewrite Hh, Ht. rewrite first_app in H.
    replace (first l (first [(zmalloc h, v)] None)) with (first l None) in H by (by destruct l as [|[]]).
    destruct (exists_last Hne) as (l0 & [b w] & E). rewrite E in H |- * at 2.
    rewrite E, final_snoc in *. rewrite <- E in *. simpl in H |- *. rewrite Hl in H. 
    exact H.
Qed.

Lemma node_at h L l1 l2 a w : rep h L (l1 ++ (a, w) :: l2) ->
  h !! a = Some (mk_node (final l1 None) (first l2 None) w).
Proof. intros [Hs _ _ _ _ _]. by apply seg_app in Hs as [_ [Ha _]]. Qed.

Lemma final_default (l : nodes) d d' : l <> [] -> final l d = final l d'.
Proof. intros Hne. destruct (exists_last Hne) as (l0 & [a v] & ->). by rewrite !final_snoc. Qed.

Lemma final_Some (l : nodes) d : l <> [] -> exists a, final l d = Some a.
Proof. intros Hne. destruct (exists_last Hne) as (l0 & [a v] & ->). exists a. by rewrite final_snoc. Qed.

Lemma final_in (l : nodes) d a : l <> [] -> final l d = Some a -> a ∈ l.*1.
Proof.
  intros Hne. destruct (exists_last Hne) as (l0 & [b v] & ->). rewrite final_snoc. intros [= ->].
  rewrite fmap_app. set_solver.
Qed.

Lemma insertNode_after_ok h L l1 l2 old w v : rep h L (l1 ++ (old, w) :: l2) ->
  Z.of_nat (length (l1 ++ (old, w) :: l2)) < 2 ^ 32 - 1 ->
  inserted h L (l1 ++ (old, w) :: l2) (listInsertNode h L old v true) (l1 ++ [(old, w)]) l2 v.
Proof.
  intros Hr Hm. pose proof Hr as [_ Hnd Hh Ht _ _].
  assert (Hassoc : forall x, (l1 ++ [(old, w)]) ++ x = l1 ++ (old, w) :: x) by (intros; by rewrite <- app_assoc).
  pose proof (insert_rep h L (l1 ++ [(old, w)]) l2 v (first (l1 ++ [(old, w)]) None)
                (final l2 (Some (zmalloc h)))) as H.
  rewrite !Hassoc in H. specialize (H Hr Hm).
  unfold listInsertNode. rewrite (node_at _ _ _ _ _ _ Hr). cbn [mbind option_bind prev next].
  rewrite final_snoc in H. cbv zeta. cbn [prev next].
  replace (if decide (tail L = Some old) then Some (zmalloc h) else tail L) with (final l2 (Some (zmalloc h))).
  - rewrite Hh. replace (first (l1 ++ (old, w) :: l2) None) with (first (l1 ++ [(old, w)]) None)
      by (by rewrite !first_app). apply H.
    + by rewrite !first_app.
    + by rewrite final_app, !final_cons.
  - rewrite Ht, final_app, final_cons. destruct l2 as [|x l2]; [by rewrite decide_True|].
    rewrite decide_False; [by apply final_default|].
    intros Hc. apply final_in in Hc; [|done]. rewrite fmap_app in Hnd.
    apply NoDup_app in Hnd as (_ & _ & Hnd). simpl in Hnd. apply NoDup_cons in Hnd as [Hni _]. done.
Qed.

Lemma insertNode_before_ok h L l1 l2 old w v : rep h L (l1 ++ (old, w) :: l2) ->
  Z.of_nat (length (l1 ++ (old, w) :: l2)) < 2 ^ 32 - 1 ->
  inserted h L (l1 ++ (old, w) :: l2) (listInsertNode h L old v false) l1 ((old, w) :: l2) v.
Proof.
  intros Hr Hm. pose proof Hr as [_ Hnd Hh Ht _ _].
  pose proof (insert_rep h L l1 ((old, w) :: l2) v (first l1 (Some (zmalloc h)))
                (final (l1 ++ (old, w) :: l2) None) Hr Hm) as H.
  unfold listInsertNode. rewrite (node_at _ _ _ _ _ _ Hr). cbv zeta. cbn [mbind option_bind prev next].
  replace (if decide (head L = Some old) then Some (zmalloc h) else head L) with (first l1 (Some (zmalloc h))).
  - rewrite Ht. apply H; [by rewrite first_app|]. by rewrite !final_app, !final_cons.
  - rewrite Hh, first_app. simpl. destruct l1 as [|[b x] l1]; simpl; [by rewrite decide_True|].
    rewrite decide_False; [done|]. intros [= ->]. rewrite fmap_app in Hnd. simpl in Hnd.
    apply NoDup_cons in Hnd as [Hni _]. set_solver.
Qed.

Lemma delNode_ok h L l1 l2 a w : rep h L (l1 ++ (a, w) :: l2) ->
  exists h' L', listDelNode h L a = Some (h', L', if free L then [w] else []) /\
    rep h' L' (l1 ++ l2) /\ h' !! a = None /\ frame h h' (l1 ++ (a, w) :: l2).
Proof.
  intros Hr. pose proof Hr as [Hs Hnd Hh Ht Hl Hm].
  destruct (remove_between h l1 l2 a w Hnd Hs) as (Ha & h' & Hrun & Hs' & Hf).
  unfold listDelNode. rewrite Ha. cbn [mbind option_bind prev next value].
  set (hd := match final l1 None with Some _ => head L | None => first l2 None end).
  set (tl := match first l2 None with Some _ => tail L | None => final l1 None end).
  assert (Hrw : forall (k : heap * ptr -> option (heap * lst * list V)),
     (match final l1 None with
      | Some _ => h ← set_next h (final l1 None) (first l2 None); Some (h, head L)
      | None => Some (h, first l2 None) end ≫= k)
     = (h1 ← link_next h (final l1 None) (first l2 None); k (h1, hd))).
  { intros k. unfold hd, link_next. destruct (final l1 None); [|done]. by destruct (set_next _ _ _). }
  rewrite (Hrw (fun '(h, hd) => _)). clear Hrw.
  destruct (link_next h _ _) as [h1|]; [|done]. cbn [mbind option_bind] in *.
  assert (Hrw : (match first l2 None with
      | Some _ => h ← set_prev h1 (first l2 None) (final l1 None); Some (h, tail L)
      | None => Some (h1, final l1 None) end) = Some (h', tl)).
  { unfold tl. unfold link_prev in Hrun. destruct (first l2 None); [by rewrite Hrun|congruence]. }
  rewrite Hrw. cbn [mbind option_bind].
  eexists _, _. split; [done|]. split; [|split; [by rewrite lookup_delete_eq|done]].
  apply rep_set_ends; try done.
  - rewrite fmap_app, fmap_cons in Hnd. rewrite <- Permutation_middle in Hnd.
    apply NoDup_cons in Hnd as [_ Hnd]. by rewrite fmap_app.
  - unfold hd. rewrite Hh, !first_app. destruct l1 as [|[b x] l1]; simpl; [done|].
    destruct (final_Some ((b, x) :: l1) None) as [c ->]; done.
  - unfold tl. rewrite Ht, !final_app, final_cons. destruct l2 as [|[b x] l2]; simpl; [done|]. by rewrite !final_cons.
  - rewrite !length_app in *. simpl in Hm. lia.
  - rewrite Hl, !length_app. simpl. lia.
Qed.

(** ** Traversals *)

Lemma walk_forward h l : forall k p, seg h p l None -> walk k h (first l None) true = Some (fst <$> l !! k).
Proof.
  induction l as [|[a v] l IH]; intros k p Hs; [by destruct k|].
  destruct Hs as [Ha Hs]. destruct k as [|k]; [done|]. simpl. rewrite Ha. simpl. by eapply IH.
Qed.

Lemma walk_backward h l : forall k n, seg h None l n ->
  walk k h (final l None) false = Some (fst <$> reverse l !! k).
Proof.
  induction l as [|[a v] l IH] using rev_ind; intros k n Hs; [by destruct k|].
  apply seg_app in Hs as [Hs [Ha _]]. rewrite final_snoc, reverse_snoc.
  destruct k as [|k]; [done|]. simpl. rewrite Ha. simpl. by eapply IH.
Qed.

Lemma adlist_search_loop_ok h L key l : forall fuel p, (length l < fuel)%nat -> seg h p l None ->
  search_loop fuel h L key (mk_iter (first l None) AL_START_HEAD)
  = Some (fst <$> List.find (fun x => match match_ L with Some f => f x.2 key | None => bool_decide (key = x.2) end) l).
Proof.
  induction l as [|[a v] l IH]; intros fuel p Hf Hs; (destruct fuel; [simpl in Hf; lia|]); [done|].
  destruct Hs as [Ha Hs]. simpl. unfold listNext. simpl. rewrite Ha. simpl. rewrite Ha. simpl.
  case_bool; [done|]. eapply IH; [simpl in Hf; lia|done].
Qed.

Lemma release_ok h l : forall p fr, seg h p l None -> NoDup l.*1 ->
  exists h', release_loop (length l) h (first l None) fr = Some (h', if fr then l.*2 else []) /\
    (forall b, b ∈ l.*1 -> h' !! b = None) /\ frame h h' l.
Proof.
  revert h. induction l as [|[a v] l IH]; intros h p fr Hs Hnd; simpl.
  { exists h. split; [by destruct fr|]. split; [set_solver|done]. }
  destruct Hs as [Ha Hs]. apply NoDup_cons in Hnd as [Hni Hnd]. rewrite Ha. simpl.
  destruct (IH (delete a h) (Some a) fr) as (h' & -> & Hb & Hf); [by apply seg_delete|done|].
  simpl. exists h'. split; [by destruct fr|]. split.
  - intros b Hin. destruct (decide (b ∈ l.*1)); [by apply Hb|].
    rewrite Hf by done. assert (b = a) as -> by set_solver. apply lookup_delete_eq.
  - intros b Hin. simpl in Hin. rewrite Hf by set_solver. apply lookup_delete_ne. set_solver.
Qed.

(** The values of a copy, when every value can be copied. *)
Definition dup_value (L : lst) (v : V) : option V :=
  match dup L with Some f => f v | None => Some v end.
Fixpoint dup_values (L : lst) (l : nodes) : option (list V) :=
  match l with
  | [] => Some []
  | (_, v) :: l' => v' ← dup_value L v; vs ← dup_values L l'; Some (v' :: vs)
  end.

Lemma dup_values_ext L L' l : dup L = dup L' -> dup_values L l = dup_values L' l.
Proof. intros E. induction l as [|[a v] l IH]; simpl; [done|]. unfold dup_value. by rewrite E, IH. Qed.

Lemma dup_loop_ok l : forall fuel h0 h p copy lc, (length l < fuel)%nat ->
  seg h p l None -> NoDup (l.*1 ++ lc.*1) -> rep h copy lc -> (forall b, b ∈ lc.*1 -> h0 !! b = None) ->
  (forall b, b ∉ lc.*1 -> h !! b = h0 !! b) -> Z.of_nat (length lc + length l) < 2 ^ 32 - 1 ->
  exists h', match dup_values copy l with
    | Some vs => exists copy' lc', dup_loop fuel h copy (mk_iter (first l None) AL_START_HEAD) = Some (h', Some copy') /\
        rep h' copy' lc' /\ lc'.*2 = lc.*2 ++ vs /\ (forall b, b ∈ lc'.*1 -> h0 !! b = None) /\
        (forall b, b ∉ lc'.*1 -> h' !! b = h0 !! b)
    | None => dup_loop fuel h copy (mk_iter (first l None) AL_START_HEAD) = Some (h', None) /\ h' = h0
    end.
Proof.
  induction l as [|[a v] l IH]; intros fuel h0 h p copy lc Hf Hs Hnd Hr Hnew Hold Hm;
    (destruct fuel; [simpl in Hf; lia|]).
  { exists h. simpl. exists copy, lc. rewrite app_nil_r. done. }
  destruct Hs as [Ha Hs]. cbn [dup_loop dup_values first]. unfold listNext. cbn [it_next it_direction].
  rewrite Ha. cbn [mbind option_bind next]. rewrite Ha. cbn [mbind option_bind value].
  fold (dup_value copy v). destruct (dup_value copy v) as [v'|]; cbn [mbind option_bind].
  - destruct (addTail_ok h copy lc v' Hr) as (_ & h1 & copy1 & -> & Hr1 & Hf1 & Hdup & _); [simpl in Hm; lia|].
    csimpl in Hnd. apply NoDup_cons in Hnd as [Hna Hnd]. cbn [mbind option_bind].
    assert (Hz : zmalloc h ∉ l.*1) by (by eapply fresh_not_in).
    assert (Hz0 : zmalloc h ∉ lc.*1) by (by eapply fresh_not_in; apply Hr).
    apply NoDup_app in Hnd as (Hnd1 & Hd & Hnd2).
    destruct (IH fuel h0 h1 (Some a) copy1 (lc ++ [(zmalloc h, v')])) as (h' & Hrun); try done.
    + simpl in Hf. lia.
    + eapply (seg_keep h h1); [exact Hf1| |done]. intros b Hb. rewrite fmap_app. simpl. set_solver.
    + rewrite fmap_app. simpl. apply NoDup_app. split; [done|]. split; [set_solver|].
      apply NoDup_app. split; [done|]. split; [set_solver|apply NoDup_singleton].
    + intros b. rewrite fmap_app. simpl. rewrite elem_of_app, list_elem_of_singleton. intros [Hb| ->]; [by apply Hnew|].
      rewrite <- Hold by done. apply zmalloc_fresh.
    + intros b. rewrite fmap_app. simpl. intros Hb. rewrite Hf1 by (rewrite fmap_app; simpl; set_solver).
      apply Hold. set_solver.
    + rewrite length_app. simpl in *. lia.
    + exists h'. rewrite (dup_values_ext copy1 copy l Hdup) in Hrun.
      destruct (dup_values copy l) as [vs|]; cbn [mbind option_bind]; [|exact Hrun].
      destruct Hrun as (copy' & lc' & Hrun & Hr' & Hv & Hn' & Ho'). exists copy', lc'.
      split; [done|]. split; [done|]. split; [|done]. rewrite Hv, fmap_app. simpl. by rewrite <- app_assoc.
  - pose proof Hr as [Hsc Hndc Hh _ Hl _]. unfold listRelease. rewrite Hl, Hh, Nat2Z.id.
    destruct (release_ok h lc None (free copy) Hsc Hndc) as (h' & -> & Hb & Hfr). simpl. exists h'. split; [done|].
    apply map_eq. intros b. destruct (decide (b ∈ lc.*1)); [by rewrite Hnew, Hb|by rewrite Hfr, Hold].
Qed.

(** ** The list as a sequence *)

(** Mutations: on a list whose nodes are [l1 ++ (a, w) :: l2], adding at
    either end, inserting before or after the node [a], and deleting it yield
    the nodes of the sequence operation, with length, head and tail updated;
    no other heap cell changes, and a deleted node is freed. *)
Theorem list_mutations h L l1 a w l2 v : rep h L (l1 ++ (a, w) :: l2) ->
  Z.of_nat (length (l1 ++ (a, w) :: l2)) < 2 ^ 32 - 1 ->
  let l := l1 ++ (a, w) :: l2 in
  inserted h L l (listAddNodeHead h L v) [] l v /\
  inserted h L l (listAddNodeTail h L v) l [] v /\
  inserted h L l (listInsertNode h L a v false) l1 ((a, w) :: l2) v /\
  inserted h L l (listInsertNode h L a v true) (l1 ++ [(a, w)]) l2 v /\
  exists h' L', listDelNode h L a = Some (h', L', if free L then [w] else []) /\
    rep h' L' (l1 ++ l2) /\ h' !! a = None /\ frame h h' l.
Proof.
  intros Hr Hm l. split; [by apply addHead_ok|]. split; [by apply addTail_ok|].
  split; [by apply insertNode_before_ok|]. split; [by apply insertNode_after_ok|]. by apply delNode_ok.
Qed.

(** Reads: searching returns the first node that matches the key, and
    indexing counts from the head, or from the tail for negative indices, with
    [NULL] out of range. *)
Theorem list_reads h L l : rep h L l ->
  (forall key, listSearchKey h L key
     = Some (fst <$> List.find (fun x => match match_ L with Some f => f x.2 key
                                         | None => bool_decide (key = x.2) end) l)) /\
  (forall i, listIndex h L i
     = Some (fst <$> if i <? 0 then reverse l !! Z.to_nat (- i - 1) else l !! Z.to_nat i)).
Proof.
  intros [Hs _ Hh Ht Hl _]. split.
  - intros key. unfold listSearchKey, listGetIterator. rewrite Z.eqb_refl, Hh, Hl.
    eapply adlist_search_loop_ok; [lia|done].
  - intros i. unfold listIndex. rewrite Hh, Ht. case_bool; [by eapply walk_backward|by eapply walk_forward].
Qed.

(** Duplicating: when every value can be copied, the copy is a disjoint
    list of the copied values and the original is unchanged; when [dup] fails,
    everything allocated is freed and the heap is as before. *)
Theorem listDup_copies h L l : rep h L l -> Z.of_nat (length l) < 2 ^ 32 - 1 ->
  match dup_values L l with
  | Some vs => exists h' C lc, listDup h L = Some (h', Some C) /\ rep h' C lc /\ lc.*2 = vs /\
                 rep h' L l /\ (forall b, b ∈ lc.*1 -> h !! b = None) /\ frame h h' lc
  | None => listDup h L = Some (h, None)
  end.
Proof.
  intros Hr Hm. pose proof Hr as [Hs Hnd Hh Ht Hl _]. unfold listDup, listGetIterator. rewrite Z.eqb_refl, Hh, Hl.
  destruct (dup_loop_ok l (S (Z.to_nat (Z.of_nat (length l)))) h h None
              (mk_list None None (dup L) (free L) (match_ L) 0) []) as (h' & H); try done.
  - lia.
  - by rewrite app_nil_r.
  - constructor; try done. apply NoDup_nil_2.
  - set_solver.
  - rewrite (dup_values_ext _ L) in H by done. destruct (dup_values L l) as [vs|].
    + destruct H as (C & lc & Hrun & HrC & Hv & Hnew & Hold). exists h', C, lc.
      split; [done|]. split; [done|]. split; [done|]. split; [|done].
      constructor; try done; [|by destruct Hr]. eapply seg_agree; [|done]. intros b Hb. apply Hold.
      intros Hc. destruct (seg_in_dom _ _ _ _ _ Hs Hb) as [x Hx]. by rewrite Hnew in Hx.
    + by destruct H as [-> ->].
Qed.

End adlist.

(** ** Witnesses: a three-node list, allocated one above the highest address *)

Definition ex_heap : gmap positive (@listNode Z) :=
  {[5%positive := mk_node None (Some 9%positive) 50; 9%positive := mk_node (Some 5%positive) (Some 2%positive) 90;
    2%positive := mk_node (Some 9%positive) None 20]}.
Definition ex_list : @lst Z := mk_list (Some 5%positive) (Some 2%positive) None true None 3.
Definition ex_nodes : list (positive * Z) := [(5%positive, 50); (9%positive, 90); (2%positive, 20)].

Lemma adlist_ex_rep : rep ex_heap ex_list ex_nodes.
Proof.
  constructor; try done.
  repeat constructor; set_solver.
Qed.

Lemma list_mutations_witness :
  exists h' L', listDelNode ex_heap ex_list 9 = Some (h', L', [90]) /\
    rep h' L' [(5%positive, 50); (2%positive, 20)] /\ h' !! 9%positive = None /\ frame ex_heap h' ex_nodes.
Proof.
  apply (list_mutations bump_alloc bump_alloc_fresh ex_heap ex_list [(5%positive, 50)] 9 90 [(2%positive, 20)] 7
           adlist_ex_rep). simpl. lia.
Defined.

Lemma list_reads_witness :
  listSearchKey ex_heap ex_list 20 = Some (Some 2%positive) /\
  listIndex ex_heap ex_list (-3) = Some (Some 5%positive) /\ listIndex ex_heap ex_list 3 = Some None.
Proof.
  destruct (list_reads bump_alloc ex_heap ex_list ex_nodes adlist_ex_rep) as [Hs Hi].
  rewrite Hs, !Hi. split; [reflexivity|]. split; reflexivity.
Defined.

Lemma listDup_copies_witness :
  exists h' C lc, listDup bump_alloc ex_heap ex_list = Some (h', Some C) /\ rep h' C lc /\ lc.*2 = [50; 90; 20].
Proof.
  pose proof (listDup_copies bump_alloc bump_alloc_fresh ex_heap ex_list ex_nodes adlist_ex_rep ltac:(simpl; lia)) as H.
  simpl in H. destruct H as (h' & C & lc & Hr & Hc & Hv & _). by exists h', C, lc.
Defined.

End Adlist.
