(* ===== verification/Dict.v ===== *)
(** * Hash tables with incremental rehashing

    Models [src/redis/src/dict.c] and [dict.h]: two tables of chains, the
    second one in use while entries move from the first to it one bucket at a
    time ([rehashidx]).  A chain is the list of its entries; a [NULL] table, an
    index out of range and a non-terminating search are [None].  The hash
    function and the duplication of keys and values are the fields of
    [dictType]; keys are compared by content.  Sizes ([unsigned long]) and hashes have 32 bits.

    The theorems: whatever the state of the rehashing, the operations implement
    a finite map; rehashing moves entries without losing or duplicating any and
    ends; a full iteration visits every entry once. *)

From S2P Require Import Prelude.
Local Open Scope Z_scope.

Module Dict.

(** ** Hash functions *)

Definition dictIntHashFunction (key : Z) : Z :=
  let not x := wrapu 32 (Z.lnot x) in
  let key := wrapu 32 (key + not (wrapu 32 (Z.shiftl key 15))) in
  let key := Z.lxor key (Z.shiftr key 10) in
  let key := wrapu 32 (key + wrapu 32 (Z.shiftl key 3)) in
  let key := Z.lxor key (Z.shiftr key 6) in
  let key := wrapu 32 (key + not (wrapu 32 (Z.shiftl key 11))) in
  Z.lxor key (Z.shiftr key 16).

Definition dictIdentityHashFunction (key : Z) : Z := key.

Definition dictGenHashFunction (buf : list Z) : Z :=
  foldl (fun hash c => wrapu 32 (wrapu 32 (wrapu 32 (Z.shiftl hash 5) + hash) + c)) 5381 buf.

Section dict.
Context {K V : Type} `{Countable K}.

(** ** Tables *)

Abbreviation bucket := (list (K * V)).

Record dictht := mk_ht { table : option (list bucket); size : Z; sizemask : Z; used : Z }.

Record dict := mk_dict { ht0 : dictht; ht1 : dictht; rehashidx : Z; iterators : Z }.

Record dictIterator := mk_iter { it_table : Z; it_index : Z; it_entry : bucket; it_next : bucket }.

Context (hashFunction : K -> Z) (keyDup : K -> K) (valDup : V -> V).
(** The global [dict_can_resize]. *)
Context (dict_can_resize : bool).

Definition DICT_HT_INITIAL_SIZE : Z := 4.
Definition LONG_MAX : Z := 2 ^ 31 - 1.

Definition dictReset : dictht := mk_ht None 0 0 0.

Definition dictCreate : dict := mk_dict dictReset dictReset (-1) 0.

Definition dictIsRehashing (d : dict) : bool := negb (rehashidx d =? -1).

Definition dictSize (d : dict) : Z := wrapu 32 (used (ht0 d) + used (ht1 d)).

(** The doubling loop runs at most 32 times before [i] wraps to zero. *)
Fixpoint next_power (fuel : nat) (i size : Z) : option Z :=
  match fuel with
  | O => None
  | S fuel' => if size <=? i then Some i else next_power fuel' (wrapu 32 (i * 2)) size
  end.

Definition dictNextPower (size : Z) : option Z :=
  if LONG_MAX <=? size then Some LONG_MAX else next_power 32 DICT_HT_INITIAL_SIZE size.

(** The flag is [DICT_OK]. *)
Definition dictExpand (d : dict) (sz : Z) : option (dict * bool) :=
  realsize ← dictNextPower sz;
  if dictIsRehashing d || (sz <? used (ht0 d)) then Some (d, false)
  else
    let n := mk_ht (Some (replicate (Z.to_nat realsize) [])) realsize (realsize - 1) 0 in
    match table (ht0 d) with
    | None => Some (mk_dict n (ht1 d) (rehashidx d) (iterators d), true)
    | Some _ => Some (mk_dict (ht0 d) n 0 (iterators d), true)
    end.

Definition dictResize (d : dict) : option (dict * bool) :=
  if negb dict_can_resize || dictIsRehashing d then Some (d, false)
  else
    let minimal := to_signed 32 (used (ht0 d)) in
    let minimal := if minimal <? DICT_HT_INITIAL_SIZE then DICT_HT_INITIAL_SIZE else minimal in
    dictExpand d minimal.

(** [ht->table[i]] and [ht->table[i] = b] *)
Definition get_bucket (h : dictht) (i : Z) : option bucket :=
  if i <? 0 then None else t ← table h; t !! Z.to_nat i.

Definition set_bucket (h : dictht) (i : Z) (b : bucket) (u : Z) : option dictht :=
  t ← table h;
  if (0 <=? i) && (i <? Z.of_nat (length t))
  then Some (mk_ht (Some (<[Z.to_nat i := b]> t)) (size h) (sizemask h) (wrapu 32 u)) else None.

(** [dictHashKey(d, key) & ht->sizemask] *)
Definition slot (h : dictht) (k : K) : Z := Z.land (hashFunction k) (sizemask h).

(** The inner loop of [dictRehash]: moving a chain into the second table. *)
Fixpoint move_bucket (b : bucket) (h0 h1 : dictht) : option (dictht * dictht) :=
  match b with
  | [] => Some (h0, h1)
  | e :: b' =>
    let i := slot h1 e.1 in
    c ← get_bucket h1 i;
    h1 ← set_bucket h1 i (e :: c) (used h1 + 1);
    move_bucket b' (mk_ht (table h0) (size h0) (sizemask h0) (wrapu 32 (used h0 - 1))) h1
  end.

(** [while(d->ht[0].table[d->rehashidx] == NULL) d->rehashidx++] *)
Fixpoint skip_empty (fuel : nat) (h : dictht) (i : Z) : option Z :=
  match fuel with
  | O => None
  | S fuel' =>
    b ← get_bucket h i;
    match b with [] => skip_empty fuel' h (i + 1) | _ => Some i end
  end.

(** One iteration of [while(n--)]; the flag is false when the rehashing ended. *)
Definition rehash_one (d : dict) : option (dict * bool) :=
  if used (ht0 d) =? 0 then Some (mk_dict (ht1 d) dictReset (-1) (iterators d), false)
  else
    i ← skip_empty (S (Z.to_nat (size (ht0 d)))) (ht0 d) (rehashidx d);
    b ← get_bucket (ht0 d) i;
    '(h0, h1) ← move_bucket b (ht0 d) (ht1 d);
    h0 ← set_bucket h0 i [] (used h0);
    Some (mk_dict h0 h1 (i + 1) (iterators d), true).

Fixpoint rehash_loop (n : nat) (d : dict) : option (dict * Z) :=
  match n with
  | O => Some (d, 1)
  | S n' => '(d, go) ← rehash_one d; if (go : bool) then rehash_loop n' d else Some (d, 0)
  end.

Definition dictRehash (d : dict) (n : nat) : option (dict * Z) :=
  if negb (dictIsRehashing d) then Some (d, 0) else rehash_loop n d.

Definition dictRehashStep (d : dict) : option dict :=
  if iterators d =? 0 then '(d, _) ← dictRehash d 1; Some d else Some d.

(** [if (dictIsRehashing(d)) _dictRehashStep(d)] *)
Definition step_if_rehashing (d : dict) : option dict :=
  if dictIsRehashing d then dictRehashStep d else Some d.

Definition dictExpandIfNeeded (d : dict) : option (dict * bool) :=
  if dictIsRehashing d then Some (d, true)
  else if size (ht0 d) =? 0 then dictExpand d DICT_HT_INITIAL_SIZE
  else if (size (ht0 d) <=? used (ht0 d)) && dict_can_resize then
    dictExpand d (wrapu 32 ((if used (ht0 d) <? size (ht0 d) then size (ht0 d) else used (ht0 d)) * 2))
  else Some (d, true).

(** The position in the chain of the first entry with the key. *)
Fixpoint chain_pos (b : bucket) (k : K) : option nat :=
  match b with
  | [] => None
  | e :: b' => if decide (k = e.1) then Some O else S <$> chain_pos b' k
  end.

Definition find_in (h : dictht) (k : K) : option (option nat) :=
  b ← get_bucket h (slot h k); Some (chain_pos b k).

(** [-1] when the key exists or the expansion fails. *)
Definition dictKeyIndex (d : dict) (k : K) : option (dict * Z) :=
  '(d, ok) ← dictExpandIfNeeded d;
  if negb ok then Some (d, -1)
  else
    r0 ← find_in (ht0 d) k;
    match r0 with
    | Some _ => Some (d, -1)
    | None =>
      if negb (dictIsRehashing d) then Some (d, to_signed 32 (slot (ht0 d) k))
      else
        r1 ← find_in (ht1 d) k;
        match r1 with
        | Some _ => Some (d, -1)
        | None => Some (d, to_signed 32 (slot (ht1 d) k))
        end
    end.

Definition dictAdd (d : dict) (k : K) (v : V) : option (dict * bool) :=
  d ← step_if_rehashing d;
  '(d, index) ← dictKeyIndex d k;
  if index =? -1 then Some (d, false)
  else
    let e := (keyDup k, valDup v) in
    if dictIsRehashing d then
      c ← get_bucket (ht1 d) index;
      h ← set_bucket (ht1 d) index (e :: c) (used (ht1 d) + 1);
      Some (mk_dict (ht0 d) h (rehashidx d) (iterators d), true)
    else
      c ← get_bucket (ht0 d) index;
      h ← set_bucket (ht0 d) index (e :: c) (used (ht0 d) + 1);
      Some (mk_dict h (ht1 d) (rehashidx d) (iterators d), true).

(** The entry found: its table, and its position in the chain of the key. *)
Definition dictFind (d : dict) (k : K) : option (dict * option (bool * nat)) :=
  if size (ht0 d) =? 0 then Some (d, None)
  else
    d ← step_if_rehashing d;
    r0 ← find_in (ht0 d) k;
    match r0 with
    | Some j => Some (d, Some (false, j))
    | None =>
      if negb (dictIsRehashing d) then Some (d, None)
      else
        r1 ← find_in (ht1 d) k;
        match r1 with Some j => Some (d, Some (true, j)) | None => Some (d, None) end
    end.

(** The contents of the entry a search returned. *)
Definition entry_at (d : dict) (k : K) (p : bool * nat) : option (K * V) :=
  let h := if p.1 then ht1 d else ht0 d in
  b ← get_bucket h (slot h k); b !! p.2.

Definition dictFetchValue (d : dict) (k : K) : option (dict * option V) :=
  '(d, r) ← dictFind d k;
  match r with
  | None => Some (d, None)
  | Some p => e ← entry_at d k p; Some (d, Some e.2)
  end.

(** The flag is true when the key was added from scratch. *)
Definition dictReplace (d : dict) (k : K) (v : V) : option (dict * bool) :=
  '(d, added) ← dictAdd d k v;
  if (added : bool) then Some (d, true)
  else
    '(d, r) ← dictFind d k;
    match r with
    | None => None
    | Some p =>
      e ← entry_at d k p;
      let h := if (p.1 : bool) then ht1 d else ht0 d in
      b ← get_bucket h (slot h k);
      h ← set_bucket h (slot h k) (<[p.2 := (e.1, valDup v)]> b) (used h);
      Some (if (p.1 : bool) then mk_dict (ht0 d) h (rehashidx d) (iterators d)
            else mk_dict h (ht1 d) (rehashidx d) (iterators d), false)
    end.

(** Unlinking the entry at position [j] of the chain of [k] in a table. *)
Definition unlink (h : dictht) (k : K) (j : nat) : option dictht :=
  b ← get_bucket h (slot h k);
  set_bucket h (slot h k) (take j b ++ drop (S j) b) (used h - 1).

Definition dictGenericDelete (d : dict) (k : K) : option (dict * bool) :=
  if size (ht0 d) =? 0 then Some (d, false)
  else
    d ← step_if_rehashing d;
    r0 ← find_in (ht0 d) k;
    match r0 with
    | Some j => h ← unlink (ht0 d) k j; Some (mk_dict h (ht1 d) (rehashidx d) (iterators d), true)
    | None =>
      if negb (dictIsRehashing d) then Some (d, false)
      else
        r1 ← find_in (ht1 d) k;
        match r1 with
        | Some j => h ← unlink (ht1 d) k j; Some (mk_dict (ht0 d) h (rehashidx d) (iterators d), true)
        | None => Some (d, false)
        end
    end.

Definition dictDelete (d : dict) (k : K) : option (dict * bool) := dictGenericDelete d k.

(** [_dictClear] leaves a reset table. *)
Definition dictEmpty (d : dict) : dict := mk_dict dictReset dictReset (-1) 0.

(** ** Iterators *)

Definition dictGetIterator : dictIterator := mk_iter 0 (-1) [] [].

(** The entry [it_entry] is the rest of the chain it heads ([[]] is [NULL]). *)
Fixpoint next_loop (fuel : nat) (d : dict) (it : dictIterator) : option (dict * dictIterator * option (K * V)) :=
  match fuel with
  | O => None
  | S fuel' =>
    let got d it (rest : bucket) :=
      match rest with
      | [] => next_loop fuel' d (mk_iter (it_table it) (it_index it) [] (it_next it))
      | e :: nxt => Some (d, mk_iter (it_table it) (it_index it) rest nxt, Some e)
      end in
    match it_entry it with
    | [] =>
      let ht := if it_table it =? 0 then ht0 d else ht1 d in
      let d := if (it_index it =? -1) && (it_table it =? 0)
               then mk_dict (ht0 d) (ht1 d) (rehashidx d) (iterators d + 1) else d in
      let idx := it_index it + 1 in
      if to_signed 32 (size ht) <=? idx then
        if dictIsRehashing d && (it_table it =? 0) then
          b ← get_bucket (ht1 d) 0; got d (mk_iter 1 0 [] (it_next it)) b
        else Some (d, mk_iter (it_table it) idx [] (it_next it), None)
      else b ← get_bucket ht idx; got d (mk_iter (it_table it) idx [] (it_next it)) b
    | _ => got d it (it_next it)
    end
  end.

Definition slots (d : dict) : nat := Z.to_nat (size (ht0 d) + size (ht1 d)).

Definition dictNext (d : dict) (it : dictIterator) := next_loop (S (S (slots d))) d it.

Definition dictReleaseIterator (d : dict) (it : dictIterator) : dict :=
  if negb ((it_index it =? -1) && (it_table it =? 0))
  then mk_dict (ht0 d) (ht1 d) (rehashidx d) (iterators d - 1) else d.

(** ** Representation *)

Definition entries (h : dictht) : list (K * V) := match table h with None => [] | Some t => concat t end.
Definition content (d : dict) : list (K * V) := entries (ht0 d) ++ entries (ht1 d).

(** A table in use: a power of two of buckets, every entry in its slot. *)
Record ht_ok (h : dictht) (t : list bucket) (p : Z) : Prop := {
  ht_table : table h = Some t;
  ht_pow : 2 <= p <= 30;
  ht_size : size h = 2 ^ p;
  ht_length : Z.of_nat (length t) = 2 ^ p;
  ht_mask : sizemask h = 2 ^ p - 1;
  ht_used : used h = Z.of_nat (length (concat t));
  ht_slots : forall i b e, t !! i = Some b -> e ∈ b -> slot h e.1 = Z.of_nat i
}.

(** Either a single table (possibly none yet), or two with the first one
    emptied below [rehashidx]. *)
Definition tables_ok (d : dict) : Prop :=
  (rehashidx d = -1 /\ ht1 d = dictReset /\ (ht0 d = dictReset \/ exists t p, ht_ok (ht0 d) t p)) \/
  (0 <= rehashidx d <= size (ht0 d) /\
   (exists t p, ht_ok (ht0 d) t p /\ forall i b, t !! i = Some b -> Z.of_nat i < rehashidx d -> b = []) /\
   exists t p, ht_ok (ht1 d) t p).

Definition small : Z := 2 ^ 28.

Definition dict_ok (d : dict) : Prop :=
  tables_ok d /\ NoDup (content d).*1 /\ Z.of_nat (length (content d)) <= small.

(** [d] implements the finite map [m]. *)
Definition rep (d : dict) (m : gmap K V) : Prop := dict_ok d /\ list_to_map (content d) = m.

Context (hash_range : forall k, in_u 32 (hashFunction k)).

Lemma slot_range h t p k : ht_ok h t p -> 0 <= slot h k < 2 ^ p.
Proof.
  intros [_ Hp _ _ Hm _ _]. unfold slot. rewrite Hm.
  replace (2 ^ p - 1) with (Z.ones p) by (rewrite Z.ones_equiv; lia).
  rewrite Z.land_ones by lia. apply Z.mod_pos_bound. lia.
Qed.

Lemma get_bucket_ok h t p i : ht_ok h t p -> 0 <= i < 2 ^ p ->
  exists b, t !! Z.to_nat i = Some b /\ get_bucket h i = Some b.
Proof.
  intros [Ht _ _ Hl _ _ _] Hi. destruct (lookup_lt_is_Some_2 t (Z.to_nat i)) as [b Hb]; [lia|].
  exists b. split; [done|]. unfold get_bucket. rewrite (proj2 (Z.ltb_ge _ _)), Ht by lia. done.
Qed.

Lemma concat_insert (t : list bucket) i b b' : t !! i = Some b ->
  concat (<[i := b']> t) ++ b ≡ₚ concat t ++ b'.
Proof.
  intros Hi. pose proof (lookup_lt_Some _ _ _ Hi).
  rewrite insert_take_drop by done. rewrite <- (take_drop_middle t i b Hi) at 3.
  rewrite !concat_app. simpl. rewrite <- !app_assoc. apply Permutation_app_head.
  rewrite (Permutation_app_comm b'), <- app_assoc. apply Permutation_app_swap_app.
Qed.

Lemma set_bucket_ok h t p i b b' u : ht_ok h t p -> 0 <= i < 2 ^ p -> t !! Z.to_nat i = Some b ->
  (forall e, e ∈ b' -> slot h e.1 = i) -> u + Z.of_nat (length b) = used h + Z.of_nat (length b') ->
  0 <= u < 2 ^ 32 ->
  exists h', set_bucket h i b' u = Some h' /\ ht_ok h' (<[Z.to_nat i := b']> t) p /\
    entries h' ++ b ≡ₚ entries h ++ b' /\ size h' = size h.
Proof.
  intros [Ht Hp Hs Hl Hm Hu Hsl] Hi Hb Hslot Hcount Hr. unfold set_bucket. rewrite Ht. simpl.
  rewrite (proj2 (Z.leb_le _ _)), (proj2 (Z.ltb_lt _ _)) by lia. simpl.
  pose proof (concat_insert t _ b b' Hb) as Hperm.
  eexists. split; [done|]. split; [|split; [|done]].
  - constructor; simpl; try done.
    + by rewrite length_insert.
    + rewrite wrapu_id by done. apply Permutation_length in Hperm. rewrite !length_app in Hperm. lia.
    + intros j c e Hj He. apply list_lookup_insert_Some in Hj as [(<- & <- & _)|[_ Hj]].
      * change (slot h e.1 = Z.of_nat (Z.to_nat i)). rewrite Hslot by done. lia.
      * by eapply (Hsl j c e).
  - unfold entries. simpl. by rewrite Ht.
Qed.

Lemma elem_of_concat (t : list bucket) e : e ∈ concat t <-> exists b, b ∈ t /\ e ∈ b.
Proof.
  rewrite list_elem_of_In, in_concat. split; intros (b & Hb & He); exists b.
  - by rewrite !list_elem_of_In.
  - by rewrite <- !list_elem_of_In.
Qed.

Lemma in_entries h t p e : ht_ok h t p -> e ∈ entries h -> exists b, t !! Z.to_nat (slot h e.1) = Some b /\ e ∈ b.
Proof.
  intros Hh He. unfold entries in He. rewrite (ht_table _ _ _ Hh) in He.
  apply elem_of_concat in He as (b & Hb & He). apply list_elem_of_lookup in Hb as [i Hi].
  exists b. rewrite (ht_slots _ _ _ Hh i b e Hi He), Nat2Z.id. done.
Qed.

Lemma bucket_in_entries h t p i b e : ht_ok h t p -> t !! i = Some b -> e ∈ b -> e ∈ entries h.
Proof.
  intros Hh Hi He. unfold entries. rewrite (ht_table _ _ _ Hh). apply elem_of_concat.
  exists b. split; [by eapply list_elem_of_lookup_2|done].
Qed.

Lemma chain_pos_spec (b : bucket) k :
  match chain_pos b k with
  | Some j => exists v, b !! j = Some (k, v)
  | None => k ∉ b.*1
  end.
Proof.
  induction b as [|[k' v] b IH]; simpl; [set_solver|].
  destruct (decide (k = k')) as [->|]; simpl; [by exists v|].
  destruct (chain_pos b k) as [j|]; simpl; [done|]. set_solver.
Qed.

(** A search in one table finds the entry of the key, if the table has one. *)
Lemma find_in_spec h t p k : ht_ok h t p ->
  exists b, t !! Z.to_nat (slot h k) = Some b /\ get_bucket h (slot h k) = Some b /\
    find_in h k = Some (chain_pos b k) /\
    match chain_pos b k with
    | Some j => exists v, b !! j = Some (k, v) /\ (k, v) ∈ entries h
    | None => k ∉ (entries h).*1
    end.
Proof.
  intros Hh. destruct (get_bucket_ok h t p (slot h k) Hh (slot_range h t p k Hh)) as (b & Hb & Hg).
  exists b. split; [done|]. split; [done|]. unfold find_in. rewrite Hg. split; [done|].
  pose proof (chain_pos_spec b k) as Hc. destruct (chain_pos b k) as [j|].
  - destruct Hc as (v & Hj). exists v. split; [done|]. eapply bucket_in_entries; [done|exact Hb|].
    by eapply list_elem_of_lookup_2.
  - intros ([k' v] & -> & He)%list_elem_of_fmap. simpl in *.
    destruct (in_entries _ _ _ _ Hh He) as (b' & Hb' & He'). simpl in Hb'. simplify_eq.
    apply Hc. by apply list_elem_of_fmap_2 with (f := fst) in He'.
Qed.

(** ** Rehashing *)

Lemma move_bucket_ok b : forall h0 h1 t1 p1, ht_ok h1 t1 p1 ->
  Z.of_nat (length b) <= used h0 < 2 ^ 31 -> used h1 + Z.of_nat (length b) < 2 ^ 31 ->
  exists h1' t1', move_bucket b h0 h1
      = Some (mk_ht (table h0) (size h0) (sizemask h0) (used h0 - Z.of_nat (length b)), h1') /\
    ht_ok h1' t1' p1 /\ entries h1' ≡ₚ b ++ entries h1.
Proof.
  induction b as [|e b IH]; intros h0 h1 t1 p1 H1 Hu0 Hu1; simpl.
  { exists h1, t1. rewrite Z.sub_0_r. by destruct h0. }
  simpl in Hu0, Hu1. pose proof (slot_range h1 t1 p1 e.1 H1) as Hsl.
  destruct (get_bucket_ok h1 t1 p1 _ H1 Hsl) as (c & Hc & ->). cbn [mbind option_bind].
  destruct (set_bucket_ok h1 t1 p1 (slot h1 e.1) c (e :: c) (used h1 + 1) H1 Hsl Hc) as (h1' & -> & H1' & Hp & _).
  - intros x Hx. apply elem_of_cons in Hx as [->|Hx]; [done|].
    rewrite (ht_slots _ _ _ H1 _ _ _ Hc Hx). lia.
  - simpl. lia.
  - rewrite (ht_used _ _ _ H1) in *. lia.
  - cbn [mbind option_bind].
    assert (Hp' : entries h1' ≡ₚ e :: entries h1).
    { apply (Permutation_app_inv_r c). rewrite Hp. simpl. by rewrite <- Permutation_middle. }
    assert (Hu' : used h1' = used h1 + 1).
    { apply Permutation_length in Hp'. unfold entries in Hp'.
      rewrite (ht_table _ _ _ H1'), (ht_table _ _ _ H1) in Hp'. simpl in Hp'.
      rewrite (ht_used _ _ _ H1'), (ht_used _ _ _ H1). lia. }
    edestruct (IH (mk_ht (table h0) (size h0) (sizemask h0) (wrapu 32 (used h0 - 1))) h1' _ p1 H1')
      as (h1'' & t1'' & -> & H1'' & Hperm).
    + cbn [used]. rewrite wrapu_id by (unfold in_u; lia). lia.
    + lia.
    + exists h1'', t1''. cbn [table size sizemask used]. rewrite wrapu_id by (unfold in_u; lia).
      split; [f_equal; f_equal; f_equal; lia|]. split; [done|]. rewrite Hperm, Hp'.
      by rewrite <- Permutation_middle.
Qed.

Lemma skip_empty_ok h t p i : ht_ok h t p -> 0 <= i -> 
  (exists j b, t !! j = Some b /\ b <> [] /\ i <= Z.of_nat j) ->
  forall fuel, (Z.to_nat (2 ^ p - i) < fuel)%nat ->
  exists j b, skip_empty fuel h i = Some j /\ i <= j < 2 ^ p /\ t !! Z.to_nat j = Some b /\ b <> [] /\
    forall k c, t !! k = Some c -> i <= Z.of_nat k < j -> c = [].
Proof.
  intros Hh Hi (j & b & Hj & Hb & Hij) fuel. revert i Hi Hij.
  induction fuel as [|fuel IH]; intros i Hi Hij Hf; [lia|].
  pose proof (lookup_lt_Some _ _ _ Hj) as Hlt. pose proof (ht_length _ _ _ Hh) as Hl.
  destruct (get_bucket_ok h t p i Hh) as (c & Hc & Hg); [lia|]. simpl. rewrite Hg. simpl.
  destruct c as [|e c].
  - assert (i <> Z.of_nat j) by (intros ->; rewrite Nat2Z.id in Hc; simplify_eq).
    destruct (IH (i + 1)) as (j' & b' & Hs & Hj' & Hb' & Hne & Hemp); [lia..|].
    exists j', b'. split; [done|]. split; [lia|]. split; [done|]. split; [done|].
    intros k x Hk Hr. destruct (decide (Z.of_nat k = i)) as [E|]; [|apply (Hemp k); [done|lia]].
    rewrite <- E, Nat2Z.id in Hc. simplify_eq. done.
  - exists i, (e :: c). split; [done|]. split; [lia|]. split; [done|]. split; [done|]. intros; lia.
Qed.

Lemma concat_nonempty (t : list bucket) : concat t <> [] -> exists j b, t !! j = Some b /\ b <> [].
Proof.
  induction t as [|b t IH]; simpl; [done|]. intros Hne.
  destruct b as [|e b]; [destruct IH as (j & b & Hj & Hb); [done|]; by exists (S j), b|].
  by exists O, (e :: b).
Qed.

Definition rehashing_ok (d : dict) : Prop :=
  0 <= rehashidx d <= size (ht0 d) /\
  (exists t p, ht_ok (ht0 d) t p /\ forall i b, t !! i = Some b -> Z.of_nat i < rehashidx d -> b = []) /\
  exists t p, ht_ok (ht1 d) t p.

(** One step of rehashing: the content stays, and the index advances or the
    second table becomes the first. *)
Lemma rehash_one_ok d : rehashing_ok d -> Z.of_nat (length (content d)) <= small ->
  exists d' go, rehash_one d = Some (d', go) /\ tables_ok d' /\ content d' ≡ₚ content d /\
    iterators d' = iterators d /\ (exists t p, ht_ok (ht0 d') t p) /\
    if go : bool then rehashing_ok d' /\ rehashidx d < rehashidx d' /\ size (ht0 d') = size (ht0 d)
    else dictIsRehashing d' = false.
Proof.
  intros (Hri & (t0 & p0 & H0 & Hlow) & (t1 & p1 & H1)) Hsm. unfold small in Hsm.
  assert (Hu0 : used (ht0 d) = Z.of_nat (length (entries (ht0 d)))).
  { unfold entries. rewrite (ht_table _ _ _ H0). apply H0. }
  assert (Hu1 : used (ht1 d) = Z.of_nat (length (entries (ht1 d)))).
  { unfold entries. rewrite (ht_table _ _ _ H1). apply H1. }
  unfold content in Hsm. rewrite length_app in Hsm. unfold rehash_one.
  destruct (Z.eqb_spec (used (ht0 d)) 0) as [E|E].
  - eexists _, _. split; [done|]. simpl. split.
    + left. simpl. split; [done|]. split; [done|]. right. by exists t1, p1.
    + split; [|split; [done|split; [by exists t1, p1|done]]].
      unfold content. simpl. destruct (entries (ht0 d)) eqn:He; [|simpl in *; lia]. by rewrite app_nil_r.
  - assert (Hne : concat t0 <> []).
    { intros Hc. rewrite (ht_used _ _ _ H0), Hc in E. done. }
    destruct (concat_nonempty t0 Hne) as (j0 & b0 & Hj0 & Hb0).
    destruct (skip_empty_ok (ht0 d) t0 p0 (rehashidx d) H0) with (fuel := S (Z.to_nat (size (ht0 d))))
      as (j & b & -> & Hj & Hb & _ & Hemp); [lia| |rewrite (ht_size _ _ _ H0); lia|].
    { exists j0, b0. split; [done|]. split; [done|].
      destruct (Z.le_gt_cases (rehashidx d) (Z.of_nat j0)); [done|]. by rewrite (Hlow j0 b0) in Hb0 by done. }
    cbn [mbind option_bind].
    destruct (get_bucket_ok (ht0 d) t0 p0 j H0) as (b' & Hb' & ->); [lia|]. simplify_eq. cbn [mbind option_bind].
    assert (Hble : Z.of_nat (length b) <= used (ht0 d)).
    { rewrite (ht_used _ _ _ H0). pose proof (concat_insert t0 _ b [] Hb) as Hp.
      apply Permutation_length in Hp. rewrite !length_app in Hp. simpl in Hp. lia. }
    destruct (move_bucket_ok b (ht0 d) (ht1 d) t1 p1 H1) as (h1' & t1' & -> & H1' & Hp1); [lia|lia|].
    cbn [mbind option_bind].
    pose proof (set_bucket_ok (ht0 d) t0 p0 j b [] (used (ht0 d) - Z.of_nat (length b)) H0) as Hset.
    destruct Hset as (h0' & Hrun & H0' & Hp0 & Hsz0); [lia|done|set_solver|simpl; lia|lia|].
    assert (Hrun' : set_bucket (mk_ht (table (ht0 d)) (size (ht0 d)) (sizemask (ht0 d))
                      (used (ht0 d) - Z.of_nat (length b))) j [] (used (ht0 d) - Z.of_nat (length b)) = Some h0').
    { exact Hrun. }
    cbn [used]. rewrite Hrun'. cbn [mbind option_bind].
    eexists _, _. split; [done|].
    assert (Hlow' : forall k c, <[Z.to_nat j := []]> t0 !! k = Some c -> Z.of_nat k < j + 1 -> c = []).
    { intros k c Hk Hkj. apply list_lookup_insert_Some in Hk as [(<- & <- & _)|[Hkne Hk]]; [done|].
      destruct (Z.lt_ge_cases (Z.of_nat k) (rehashidx d)); [by eapply Hlow|].
      eapply (Hemp k c Hk). lia. }
    assert (Hok : rehashing_ok (mk_dict h0' h1' (j + 1) (iterators d))).
    { split; [simpl; rewrite Hsz0, (ht_size _ _ _ H0); lia|]. split; [by eexists _, _|by exists t1', p1]. }
    split; [by right|]. split; [|split; [done|split; [by eexists _, _|split; [done|split; [simpl; lia|done]]]]].
    unfold content. cbn [ht0 ht1]. rewrite Hp1, app_assoc. apply Permutation_app_tail.
    rewrite app_nil_r in Hp0. done.
Qed.

Lemma tables_rehashing d : tables_ok d -> dictIsRehashing d = true -> rehashing_ok d.
Proof.
  unfold dictIsRehashing. intros [(E & _)|Hx] Hr; [by rewrite E in Hr|exact Hx].
Qed.

Lemma content_ok d d' : tables_ok d' -> content d' ≡ₚ content d -> dict_ok d -> dict_ok d'.
Proof. intros Ht Hp (_ & Hnd & Hsm). split; [done|]. by rewrite Hp. Qed.

Lemma rehash_loop_ok n : forall d, dict_ok d -> dictIsRehashing d = true ->
  exists d' r, rehash_loop n d = Some (d', r) /\ dict_ok d' /\ content d' ≡ₚ content d /\
    iterators d' = iterators d /\ (exists t p, ht_ok (ht0 d') t p) /\
    ((r = 0 /\ dictIsRehashing d' = false) \/ (r = 1 /\ dictIsRehashing d' = true /\
       size (ht0 d') = size (ht0 d) /\ rehashidx d + Z.of_nat n <= rehashidx d')).
Proof.
  induction n as [|n IH]; intros d Hd Hr; simpl.
  { exists d, 1. split; [done|]. split; [done|]. split; [done|]. split; [done|].
    split; [|right; by rewrite Z.add_0_r].
    destruct (tables_rehashing d (proj1 Hd) Hr) as (_ & (t & p & H0 & _) & _). by exists t, p. }
  destruct (rehash_one_ok d) as (d' & go & -> & Ht & Hp & Hit & H0' & Hgo);
    [apply tables_rehashing; [apply Hd|done]|apply Hd|]. cbn [mbind option_bind].
  pose proof (content_ok d d' Ht Hp Hd) as Hd'. destruct go.
  - destruct Hgo as (Hok & Hlt & Hsz).
    assert (Hr' : dictIsRehashing d' = true).
    { unfold dictIsRehashing. destruct Hok as ((? & ?) & _). by rewrite (proj2 (Z.eqb_neq _ _)) by lia. }
    destruct (IH d' Hd' Hr') as (d'' & r & -> & Hd'' & Hp'' & Hit'' & H0'' & Hcase).
    exists d'', r. split; [done|]. split; [done|]. split; [by rewrite Hp''|]. split; [congruence|].
    split; [done|].
    destruct Hcase as [?|(-> & ? & ? & ?)]; [by left|right]. repeat split; try done; [congruence|lia].
  - exists d', 0. repeat split; try done; try apply Hd'. by left.
Qed.

Lemma dict_step_ok d : dict_ok d ->
  exists d', step_if_rehashing d = Some d' /\ dict_ok d' /\ content d' ≡ₚ content d /\
    iterators d' = iterators d /\ ((exists t p, ht_ok (ht0 d) t p) -> exists t p, ht_ok (ht0 d') t p).
Proof.
  intros Hd. unfold step_if_rehashing. destruct (dictIsRehashing d) eqn:Hr; [|by exists d].
  unfold dictRehashStep. case_bool; [|by exists d]. unfold dictRehash. rewrite Hr. cbn [negb].
  destruct (rehash_loop_ok 1 d Hd Hr) as (d' & r & -> & ? & ? & ? & ? & _). by exists d'.
Qed.

(** ** Searching both tables *)

(** The entry of [k] is at position [j] of its chain [b] in [h]. *)
Definition found (h : dictht) (k : K) (j : nat) : Prop :=
  exists t p b v, ht_ok h t p /\ t !! Z.to_nat (slot h k) = Some b /\ get_bucket h (slot h k) = Some b /\
    find_in h k = Some (Some j) /\ b !! j = Some (k, v) /\ (k, v) ∈ entries h.

Definition absent (h : dictht) (k : K) : Prop := find_in h k = Some None /\ k ∉ (entries h).*1.

(** The three outcomes of the loop over the tables. *)
Inductive located (d : dict) (k : K) : Prop :=
| in_first j : found (ht0 d) k j -> located d k
| in_second j : dictIsRehashing d = true -> absent (ht0 d) k -> found (ht1 d) k j -> located d k
| nowhere : absent (ht0 d) k ->
    (dictIsRehashing d = false /\ entries (ht1 d) = [] \/ dictIsRehashing d = true /\ absent (ht1 d) k) ->
    k ∉ (content d).*1 -> located d k.

Lemma search_table h t p k : ht_ok h t p -> (exists j, found h k j) \/ absent h k.
Proof.
  intros Hh. destruct (find_in_spec h t p k Hh) as (b & Hb & Hg & Hf & Hc).
  destruct (chain_pos b k) as [j|]; [left|by right].
  destruct Hc as (v & Hj & Hin). exists j, t, p, b, v. done.
Qed.

Lemma locate d k t p : tables_ok d -> ht_ok (ht0 d) t p -> located d k.
Proof.
  intros Ht H0. destruct (search_table _ _ _ k H0) as [[j Hj]|Ha]; [by eapply in_first|].
  destruct Ht as [(Hr & H1 & _)|Hrh].
  - assert (Hre : dictIsRehashing d = false) by (unfold dictIsRehashing; by rewrite Hr).
    apply nowhere; [done| |]; rewrite ?H1.
    + left. by split.
    + unfold content. rewrite H1. simpl. rewrite app_nil_r. apply Ha.
  - assert (Hre : dictIsRehashing d = true).
    { unfold dictIsRehashing. destruct Hrh as ((? & ?) & _). by rewrite (proj2 (Z.eqb_neq _ _)) by lia. }
    destruct Hrh as (_ & _ & t1 & p1 & H1). destruct (search_table _ _ _ k H1) as [[j Hj]|Ha1]; [by eapply in_second|].
    apply nowhere; [done|by right|]. unfold content. rewrite fmap_app, not_elem_of_app. split; [apply Ha|apply Ha1].
Qed.

(** A dictionary either has no table and no content, or a first table. *)
Lemma first_table d : tables_ok d ->
  (size (ht0 d) = 0 /\ content d = [] /\ dictIsRehashing d = false /\ ht0 d = dictReset) \/
  (size (ht0 d) <> 0 /\ exists t p, ht_ok (ht0 d) t p).
Proof.
  assert (Hpos : forall t p, ht_ok (ht0 d) t p -> size (ht0 d) <> 0).
  { intros t p H0. rewrite (ht_size _ _ _ H0). pose proof (ht_pow _ _ _ H0). lia. }
  intros [(Hr & H1 & [H0|(t & p & H0)])|(_ & (t & p & H0 & _) & _)].
  - left. unfold content, dictIsRehashing. rewrite H0, H1, Hr. done.
  - right. split; [by eapply Hpos|by exists t, p].
  - right. split; [by eapply Hpos|by exists t, p].
Qed.

(** ** Find *)

Lemma dict_find_ok d k : dict_ok d ->
  exists d' r, dictFind d k = Some (d', r) /\ dict_ok d' /\ content d' ≡ₚ content d /\ iterators d' = iterators d /\
    match r with
    | Some q => (exists v, entry_at d' k q = Some (k, v) /\ (k, v) ∈ content d') /\
                found (if q.1 then ht1 d' else ht0 d') k q.2
    | None => k ∉ (content d').*1
    end.
Proof.
  intros Hd. unfold dictFind. destruct (first_table d) as [(Hz & Hc & _)|(Hz & t & p & H0)]; [apply Hd|..].
  { rewrite Hz. exists d, None. repeat split; try done; try apply Hd. rewrite Hc. set_solver. }
  rewrite (proj2 (Z.eqb_neq _ _) Hz).
  destruct (dict_step_ok d Hd) as (d' & -> & Hd' & Hp & Hit & H0'). cbn [mbind option_bind].
  destruct H0' as (t' & p' & H0'); [by exists t, p|].
  destruct (locate d' k t' p' (proj1 Hd') H0') as [j Hf|j Hr Ha Hf|Ha Hr Hn].
  - pose proof Hf as (tt' & pp & b & v & _ & _ & Hg & Hfi & Hj & Hin). rewrite Hfi. cbn [mbind option_bind].
    exists d', (Some (false, j)). do 4 (split; [done|]). split; [|done]. exists v.
    unfold entry_at. cbn [fst snd]. rewrite Hg. split; [done|]. unfold content. set_solver.
  - rewrite (proj1 Ha), Hr. cbn [mbind option_bind negb].
    pose proof Hf as (tt' & pp & b & v & _ & _ & Hg & Hfi & Hj & Hin). rewrite Hfi. cbn [mbind option_bind].
    exists d', (Some (true, j)). do 4 (split; [done|]). split; [|done]. exists v.
    unfold entry_at. cbn [fst snd]. rewrite Hg. split; [done|]. unfold content. set_solver.
  - rewrite (proj1 Ha). cbn [mbind option_bind]. exists d', None.
    destruct Hr as [[-> _]|[-> [Ha1 _]]]; cbn [negb]; [done|]. by rewrite Ha1.
Qed.

(** ** Expansion *)

Lemma next_power_ok sz : 0 <= sz <= 2 ^ 30 ->
  forall fuel q, 2 <= q <= 30 -> (30 - Z.to_nat q < fuel)%nat -> 
  exists r, next_power fuel (2 ^ q) sz = Some (2 ^ r) /\ 2 <= r <= 30 /\ sz <= 2 ^ r.
Proof.
  intros Hsz. induction fuel as [|fuel IH]; intros q Hq Hf; [lia|]. simpl.
  destruct (Z.leb_spec sz (2 ^ q)); [by exists q|].
  assert (q < 30). { destruct (decide (q = 30)) as [->|]; lia. }
  replace (2 ^ q * 2) with (2 ^ (q + 1)) by (rewrite Z.pow_add_r by lia; lia).
  rewrite wrapu_id; [apply IH; lia|]. split; [lia|]. apply Z.pow_lt_mono_r; lia.
Qed.

Lemma concat_replicate_nil n : concat (replicate n (@nil (K * V))) = [].
Proof. by induction n. Qed.

Lemma new_table_ok q : 2 <= q <= 30 ->
  ht_ok (mk_ht (Some (replicate (Z.to_nat (2 ^ q)) [])) (2 ^ q) (2 ^ q - 1) 0) (replicate (Z.to_nat (2 ^ q)) []) q.
Proof.
  intros Hq. constructor; simpl; try done.
  - rewrite length_replicate. lia.
  - by rewrite concat_replicate_nil.
  - intros i b e Hi He. apply lookup_replicate in Hi as [-> _]. set_solver.
Qed.

Lemma entries_new q : entries (mk_ht (Some (replicate (Z.to_nat (2 ^ q)) [])) (2 ^ q) (2 ^ q - 1) 0) = [].
Proof. unfold entries. simpl. apply concat_replicate_nil. Qed.

Lemma expand_ok d : dict_ok d ->
  exists d', dictExpandIfNeeded d = Some (d', true) /\ dict_ok d' /\ content d' = content d /\
    iterators d' = iterators d /\ exists t p, ht_ok (ht0 d') t p.
Proof.
  intros Hd. unfold dictExpandIfNeeded. pose proof Hd as (Ht & Hnd & Hsm). unfold small in Hsm.
  destruct (dictIsRehashing d) eqn:Hr.
  { exists d. do 4 (split; [done|]). destruct (tables_rehashing d Ht Hr) as (_ & (t & p & H0 & _) & _). by exists t, p. }
  assert (H1 : ht1 d = dictReset /\ rehashidx d = -1).
  { unfold dictIsRehashing in Hr. destruct Ht as [(? & ? & _)|((? & _) & _)]; [done|]. bsimp. lia. }
  destruct (first_table d Ht) as [(Hz & Hc & _ & Hz0)|(Hz & t & p & H0)].
  - rewrite Hz. simpl. unfold dictExpand, dictNextPower.
    rewrite (proj2 (Z.leb_gt _ _)) by (unfold LONG_MAX, DICT_HT_INITIAL_SIZE; lia).
    destruct (next_power_ok DICT_HT_INITIAL_SIZE ltac:(unfold DICT_HT_INITIAL_SIZE; lia) 32 2) as (q & Hq & Hq1 & _); [lia..|].
    change (2 ^ 2) with DICT_HT_INITIAL_SIZE in Hq. rewrite Hq. cbn [mbind option_bind].
    rewrite Hr, Hz0. simpl. eexists. split; [done|].
    assert (Hcont : content (mk_dict (mk_ht (Some (replicate (Z.to_nat (2 ^ q)) [])) (2 ^ q) (2 ^ q - 1) 0)
                      (ht1 d) (rehashidx d) (iterators d)) = content d).
    { unfold content. cbn [ht0 ht1]. by rewrite entries_new, Hz0. }
    split; [|split; [done|split; [done|eexists _, _; by apply new_table_ok]]].
    split; [|by rewrite Hcont]. left. cbn [ht0 ht1 rehashidx]. destruct H1 as [-> ->].
    split; [done|]. split; [done|]. right. eexists _, _. by apply new_table_ok.
  - rewrite (proj2 (Z.eqb_neq _ _) Hz).
    destruct ((size (ht0 d) <=? used (ht0 d)) && dict_can_resize) eqn:Hfull.
    2:{ exists d. do 4 (split; [done|]). by exists t, p. }
    bsimp. rewrite (proj2 (Z.ltb_ge _ _)) by done.
    assert (Hu : used (ht0 d) <= 2 ^ 28).
    { rewrite (ht_used _ _ _ H0). unfold content, entries in Hsm. rewrite (ht_table _ _ _ H0) in Hsm.
      rewrite length_app in Hsm. lia. }
    assert (Hu0 : 0 <= used (ht0 d)) by (rewrite (ht_used _ _ _ H0); lia).
    rewrite wrapu_id by (unfold in_u; lia). unfold dictExpand, dictNextPower.
    rewrite (proj2 (Z.leb_gt _ _)) by (unfold LONG_MAX; lia).
    destruct (next_power_ok (used (ht0 d) * 2) ltac:(lia) 32 2) as (q & Hq & Hq1 & _); [lia..|].
    change (2 ^ 2) with DICT_HT_INITIAL_SIZE in Hq. rewrite Hq. cbn [mbind option_bind].
    rewrite Hr, (proj2 (Z.ltb_ge _ _)) by lia. cbn [orb]. rewrite (ht_table _ _ _ H0).
    eexists. split; [done|].
    assert (Hcont : content (mk_dict (ht0 d) (mk_ht (Some (replicate (Z.to_nat (2 ^ q)) [])) (2 ^ q) (2 ^ q - 1) 0)
                      0 (iterators d)) = content d).
    { unfold content. cbn [ht0 ht1]. by rewrite entries_new, (proj1 H1). }
    split; [|split; [done|split; [done|by exists t, p]]].
    split; [|by rewrite Hcont]. right. cbn [ht0 ht1 rehashidx]. split; [|split].
    + rewrite (ht_size _ _ _ H0). pose proof (ht_pow _ _ _ H0). split; [lia|]. apply Z.pow_nonneg. lia.
    + exists t, p. split; [done|]. intros. lia.
    + eexists _, _. by apply new_table_ok.
Qed.

(** ** Changing one chain *)

Lemma slot_index h t p k : ht_ok h t p -> to_signed 32 (slot h k) = slot h k.
Proof.
  intros Hh. pose proof (slot_range h t p k Hh). pose proof (ht_pow _ _ _ Hh).
  apply to_signed_id; [lia|]. unfold in_s.
  assert (2 ^ p <= 2 ^ 30) by (apply Z.pow_le_mono_r; lia). lia.
Qed.

Lemma used_entries h t p : ht_ok h t p -> used h = Z.of_nat (length (entries h)).
Proof. intros Hh. unfold entries. rewrite (ht_table _ _ _ Hh). apply Hh. Qed.

(** Prepending an entry to its chain. *)
Lemma push_ok h t p k v : ht_ok h t p -> used h < 2 ^ 31 ->
  exists c h' t', get_bucket h (slot h k) = Some c /\
    set_bucket h (slot h k) ((k, v) :: c) (used h + 1) = Some h' /\ ht_ok h' t' p /\
    entries h' ≡ₚ (k, v) :: entries h /\ size h' = size h.
Proof.
  intros Hh Hu. pose proof (slot_range h t p k Hh) as Hsl.
  destruct (get_bucket_ok h t p _ Hh Hsl) as (c & Hc & Hg).
  destruct (set_bucket_ok h t p (slot h k) c ((k, v) :: c) (used h + 1) Hh Hsl Hc) as (h' & Hs & Hh' & Hp & Hsz).
  - intros e He. apply elem_of_cons in He as [->|He]; [done|]. rewrite (ht_slots _ _ _ Hh _ _ _ Hc He). lia.
  - simpl. lia.
  - rewrite (used_entries _ _ _ Hh) in *. lia.
  - exists c, h'. eexists. split; [done|]. split; [done|]. split; [done|]. split; [|done].
    apply (Permutation_app_inv_r c). rewrite Hp. by rewrite <- Permutation_middle.
Qed.

(** Replacing a chain by one with entries of the same slot. *)
Lemma splice_ok h t p k b b' u : ht_ok h t p -> t !! Z.to_nat (slot h k) = Some b ->
  (forall e, e ∈ b' -> e ∈ b \/ e.1 = k) ->
  u = used h - Z.of_nat (length b) + Z.of_nat (length b') -> used h + Z.of_nat (length b') < 2 ^ 31 ->
  exists h', set_bucket h (slot h k) b' u = Some h' /\ ht_ok h' (<[Z.to_nat (slot h k) := b']> t) p /\
    entries h' ++ b ≡ₚ entries h ++ b' /\ size h' = size h.
Proof.
  intros Hh Hb Hb' Hu Hub. pose proof (slot_range h t p k Hh) as Hsl.
  assert (Hbl : (length b <= length (entries h))%nat).
  { unfold entries. rewrite (ht_table _ _ _ Hh). pose proof (concat_insert t _ b [] Hb) as Hp.
    apply Permutation_length in Hp. rewrite !length_app in Hp. simpl in Hp. lia. }
  pose proof (used_entries _ _ _ Hh) as Hue.
  apply (set_bucket_ok h t p (slot h k) b b' u); try done; try lia.
  intros e He. destruct (Hb' e He) as [Hin|E].
  - rewrite (ht_slots _ _ _ Hh _ _ _ Hb Hin). lia.
  - unfold slot. by rewrite E.
Qed.

Lemma first_low d t p : tables_ok d -> ht_ok (ht0 d) t p ->
  forall i b, t !! i = Some b -> Z.of_nat i < rehashidx d -> b = [].
Proof.
  intros [(Hr & _)|(_ & (t' & p' & H0' & Hlow) & _)] H0; [intros; lia|].
  pose proof (ht_table _ _ _ H0) as E. rewrite (ht_table _ _ _ H0') in E. by simplify_eq.
Qed.

Lemma set_first_ok d h t p : ht_ok h t p -> size h = size (ht0 d) -> tables_ok d ->
  (forall i b, t !! i = Some b -> Z.of_nat i < rehashidx d -> b = []) ->
  tables_ok (mk_dict h (ht1 d) (rehashidx d) (iterators d)).
Proof.
  intros Hh Hsz Ht Hlow. destruct Ht as [(Hr & H1 & _)|(Hri & _ & H1)].
  - left. split; [done|]. split; [done|]. right. by exists t, p.
  - right. simpl. rewrite Hsz. split; [done|]. split; [by exists t, p|done].
Qed.

Lemma set_second_ok d h t p : ht_ok h t p -> tables_ok d -> dictIsRehashing d = true ->
  tables_ok (mk_dict (ht0 d) h (rehashidx d) (iterators d)).
Proof.
  intros Hh Ht Hr. destruct (tables_rehashing d Ht Hr) as (Hri & H0 & _). right.
  split; [done|]. split; [done|]. by exists t, p.
Qed.

(** ** Add *)

Context (keyDup_same : forall k, keyDup k = k).

Lemma add_ok d k v : dict_ok d -> Z.of_nat (length (content d)) < small ->
  exists d', dictAdd d k v = Some (d', bool_decide (k ∉ (content d).*1)) /\ dict_ok d' /\ iterators d' = iterators d /\
    content d' ≡ₚ (if decide (k ∈ (content d).*1) then content d else (k, valDup v) :: content d).
Proof.
  intros Hd Hsm. unfold dictAdd.
  destruct (dict_step_ok d Hd) as (d1 & -> & Hd1 & Hp1 & Hit1 & _). cbn [mbind option_bind].
  unfold dictKeyIndex.
  destruct (expand_ok d1 Hd1) as (d2 & -> & Hd2 & Hp2 & Hit2 & t & p & H0). cbn [mbind option_bind negb].
  assert (Hkeys : k ∈ (content d2).*1 <-> k ∈ (content d).*1) by (by rewrite Hp2, Hp1).
  assert (Hlen : Z.of_nat (length (content d2)) < small) by (by rewrite Hp2, Hp1).
  assert (Hperm : content d2 ≡ₚ content d) by (by rewrite Hp2).
  assert (Hin_case : forall r, r = Some (d2, -1) -> k ∈ (content d2).*1 ->
    exists d', (p0 ← r; (let '(d, index) := p0 in
        if index =? -1 then Some (d, false)
        else let e := (keyDup k, valDup v) in
          if dictIsRehashing d then
            c ← get_bucket (ht1 d) index; h ← set_bucket (ht1 d) index (e :: c) (used (ht1 d) + 1);
            Some (mk_dict (ht0 d) h (rehashidx d) (iterators d), true)
          else c ← get_bucket (ht0 d) index; h ← set_bucket (ht0 d) index (e :: c) (used (ht0 d) + 1);
            Some (mk_dict h (ht1 d) (rehashidx d) (iterators d), true)))
      = Some (d', bool_decide (k ∉ (content d).*1)) /\ dict_ok d' /\ iterators d' = iterators d /\
      content d' ≡ₚ (if decide (k ∈ (content d).*1) then content d else (k, valDup v) :: content d)).
  { intros r -> Hin. exists d2. rewrite bool_decide_false by tauto. rewrite decide_True by tauto.
    split; [done|]. split; [done|]. split; [congruence|done]. }
  assert (Hsize : used (ht0 d2) < 2 ^ 31 /\ (forall t1 p1, ht_ok (ht1 d2) t1 p1 -> used (ht1 d2) < 2 ^ 31)).
  { unfold small, content in Hlen. rewrite length_app in Hlen. split; [rewrite (used_entries _ _ _ H0); lia|].
    intros t1 p1 H1. rewrite (used_entries _ _ _ H1). lia. }
  destruct (locate d2 k t p (proj1 Hd2) H0) as [j Hf|j Hr Ha Hf|Ha Hr Hn].
  - destruct Hf as (t' & p' & b & w & _ & _ & _ & -> & _ & Hin). cbn [mbind option_bind].
    apply (Hin_case (Some (d2, -1)) eq_refl). unfold content. rewrite fmap_app, elem_of_app. left.
    by apply (list_elem_of_fmap_2 fst) in Hin.
  - destruct Hf as (t' & p' & b & w & _ & _ & _ & Hfi & _ & Hin).
    rewrite (proj1 Ha), Hr. cbn [mbind option_bind negb]. rewrite Hfi. cbn [mbind option_bind].
    rewrite <- Hr. apply (Hin_case (Some (d2, -1)) eq_refl). unfold content. rewrite fmap_app, elem_of_app. right.
    by apply (list_elem_of_fmap_2 fst) in Hin.
  - clear Hin_case. rewrite (proj1 Ha). cbn [mbind option_bind].
    assert (Hni : k ∉ (content d).*1) by tauto.
    rewrite bool_decide_true by done. rewrite decide_False by done. rewrite keyDup_same.
    assert (Hfin : forall d', tables_ok d' -> content d' ≡ₚ (k, valDup v) :: content d2 -> dict_ok d').
    { intros d' Ht' Hp'. split; [done|]. rewrite Hp'. split; [|simpl; lia].
      apply NoDup_cons. split; [done|apply Hd2]. }
    destruct Hr as [[Hr He1]|[Hr Ha1]]; rewrite Hr; cbn [negb mbind option_bind].
    + rewrite (slot_index _ _ _ _ H0). rewrite (proj2 (Z.eqb_neq _ _)) by (pose proof (slot_range _ _ _ k H0); lia).
      rewrite Hr. destruct (push_ok (ht0 d2) t p k (valDup v) H0 (proj1 Hsize)) as (c & h' & t' & -> & Hs & Hh' & Hp & Hsz).
      cbn [mbind option_bind]. rewrite Hs. cbn [mbind option_bind]. eexists. split; [done|].
      assert (Hc' : content (mk_dict h' (ht1 d2) (rehashidx d2) (iterators d2)) ≡ₚ (k, valDup v) :: content d2).
      { unfold content. cbn [ht0 ht1]. by rewrite Hp. }
      split; [|split; [simpl; congruence|by rewrite Hc', Hperm]].
      apply Hfin; [|done]. eapply set_first_ok; [done|done|apply Hd2|].
      intros i b _ Hlt. unfold dictIsRehashing in Hr. bsimp. lia.
    + rewrite (proj1 Ha1). cbn [mbind option_bind].
      destruct (tables_rehashing d2 (proj1 Hd2) Hr) as (_ & _ & t1 & p1 & H1).
      rewrite (slot_index _ _ _ _ H1). rewrite (proj2 (Z.eqb_neq _ _)) by (pose proof (slot_range _ _ _ k H1); lia).
      rewrite Hr.
      destruct (push_ok (ht1 d2) t1 p1 k (valDup v) H1 (proj2 Hsize _ _ H1)) as (c & h' & t' & -> & Hs & Hh' & Hp & Hsz).
      cbn [mbind option_bind]. rewrite Hs. cbn [mbind option_bind]. eexists. split; [done|].
      assert (Hc' : content (mk_dict (ht0 d2) h' (rehashidx d2) (iterators d2)) ≡ₚ (k, valDup v) :: content d2).
      { unfold content. cbn [ht0 ht1]. rewrite Hp. by rewrite <- Permutation_middle. }
      split; [|split; [simpl; congruence|by rewrite Hc', Hperm]].
      apply Hfin; [|done]. eapply set_second_ok; [done|apply Hd2|done].
Qed.

(** ** Replace and delete *)

(** Changing the chain of a key that is there, in either table. *)
Lemma change_chain d (second : bool) k b b' u j v :
  dict_ok d -> (second = true -> dictIsRehashing d = true) ->
  found (if second then ht1 d else ht0 d) k j ->
  get_bucket (if second then ht1 d else ht0 d) (slot (if second then ht1 d else ht0 d) k) = Some b ->
  b !! j = Some (k, v) -> (forall e, e ∈ b' -> e ∈ b \/ e.1 = k) -> (length b' <= length b)%nat ->
  u = used (if second then ht1 d else ht0 d) - Z.of_nat (length b) + Z.of_nat (length b') ->
  exists h', set_bucket (if second then ht1 d else ht0 d) (slot (if second then ht1 d else ht0 d) k) b' u = Some h' /\
    let d' := if second then mk_dict (ht0 d) h' (rehashidx d) (iterators d)
              else mk_dict h' (ht1 d) (rehashidx d) (iterators d) in
    tables_ok d' /\ content d' ++ b ≡ₚ content d ++ b'.
Proof.
  intros (Ht & _ & Hsm) Hr (t & p & b0 & v0 & Hh & Hb & Hg0 & _ & _ & _) Hg Hj Hb' Hlen Hu.
  rewrite Hg0 in Hg. simplify_eq. unfold small, content in Hsm. rewrite length_app in Hsm.
  assert (Hbl : (length b <= length (entries (if second then ht1 d else ht0 d)))%nat).
  { unfold entries. rewrite (ht_table _ _ _ Hh). pose proof (concat_insert t _ b [] Hb) as Hp.
    apply Permutation_length in Hp. rewrite !length_app in Hp. simpl in Hp. lia. }
  pose proof (used_entries _ _ _ Hh) as Hue.
  destruct (splice_ok _ t p k b b' _ Hh Hb Hb' eq_refl) as (h' & Hs & Hh' & Hp & Hsz); [destruct second; lia|].
  exists h'. split; [exact Hs|]. destruct second; cbv zeta.
  - split; [eapply set_second_ok; [done|done|by apply Hr]|].
    unfold content. cbn [ht0 ht1]. rewrite <- !app_assoc. by rewrite Hp.
  - split.
    + eapply set_first_ok; [done|done|done|]. intros i c Hi Hlt.
      apply list_lookup_insert_Some in Hi as [(<- & <- & _)|[_ Hi]]; [|by eapply first_low].
      rewrite (first_low d t p Ht Hh _ _ Hb Hlt) in Hj. done.
    + unfold content. cbn [ht0 ht1]. rewrite <- !app_assoc.
      rewrite (Permutation_app_comm _ b), (Permutation_app_comm _ b'), !app_assoc. by rewrite Hp.
Qed.

Lemma replace_ok d k v : dict_ok d -> Z.of_nat (length (content d)) < small ->
  exists d', dictReplace d k v = Some (d', bool_decide (k ∉ (content d).*1)) /\ dict_ok d' /\
    list_to_map (content d') = (<[k := valDup v]> (list_to_map (content d)) : gmap K V).
Proof.
  intros Hd Hsm. unfold dictReplace.
  destruct (add_ok d k v Hd Hsm) as (d1 & -> & Hd1 & _ & Hp1). cbn [mbind option_bind].
  destruct (decide (k ∈ (content d).*1)) as [Hin|Hni].
  2:{ rewrite bool_decide_true by done. exists d1. split; [done|]. split; [done|].
      rewrite (list_to_map_proper _ ((k, valDup v) :: content d)); [done|apply Hd1|done]. }
  rewrite bool_decide_false by tauto.
  destruct (dict_find_ok d1 k Hd1) as (d2 & [q|] & -> & Hd2 & Hp2 & _ & Hr).
  2:{ exfalso. apply Hr. by rewrite Hp2, Hp1. }
  cbn [mbind option_bind]. destruct Hr as [(w & He & Hw) Hf]. rewrite He. cbn [mbind option_bind].
  destruct q as [second j]. cbn [fst snd] in *.
  pose proof Hf as (t & p & b & w' & Hh & Hb & Hg & Hfi & Hj & _).
  assert (w' = w) as -> by (unfold entry_at in He; cbn [fst snd] in He; rewrite Hg in He; simpl in He; congruence).
  rewrite Hg. cbn [mbind option_bind].
  assert (Hsec : second = true -> dictIsRehashing d2 = true).
  { intros ->. unfold dictIsRehashing. destruct (proj1 Hd2) as [(_ & E & _)|((? & _) & _)];
      [|by rewrite (proj2 (Z.eqb_neq _ _)) by lia].
    exfalso. pose proof (ht_table _ _ _ Hh) as Htt. rewrite E in Htt. done. }
  destruct (change_chain d2 second k b (<[j := (k, valDup v)]> b) (used (if second then ht1 d2 else ht0 d2)) j w Hd2 Hsec Hf Hg Hj)
    as (h' & Hs & Ht' & Hp').
  { intros e He'. apply list_elem_of_lookup in He' as [i Hi].
    apply list_lookup_insert_Some in Hi as [(_ & <- & _)|[_ Hi]]; [by right|left; by eapply list_elem_of_lookup_2]. }
  { by rewrite length_insert. }
  { rewrite length_insert. lia. }
  rewrite Hs. cbn [mbind option_bind].
  exists (if second then mk_dict (ht0 d2) h' (rehashidx d2) (iterators d2)
          else mk_dict h' (ht1 d2) (rehashidx d2) (iterators d2)).
  split; [done|]. cbv zeta in Ht', Hp'.
  set (d' := if second then mk_dict (ht0 d2) h' (rehashidx d2) (iterators d2)
             else mk_dict h' (ht1 d2) (rehashidx d2) (iterators d2)) in *. clearbody d'.
  pose proof (take_drop_middle b j (k, w) Hj) as Hbb. pose proof (lookup_lt_Some _ _ _ Hj) as Hjl.
  rewrite insert_take_drop in Hp' by done.
  assert (Hsplit : exists r, content d2 ≡ₚ (k, w) :: r /\ content d' ≡ₚ (k, valDup v) :: r).
  { destruct (proj1 (elem_of_Permutation _ _) Hw) as [r Hr]. exists r. split; [done|].
    apply (Permutation_app_inv_r b). rewrite Hp', Hr. rewrite <- Hbb at 3.
    simpl. rewrite <- !Permutation_middle. simpl. apply perm_swap. }
  destruct Hsplit as (r & Hr2 & Hr').
  assert (Hnd' : NoDup (content d').*1).
  { rewrite Hr'. pose proof (proj1 (proj2 Hd2)) as Hnd. rewrite Hr2 in Hnd. exact Hnd. }
  split.
  - split; [done|]. split; [done|]. pose proof (proj2 (proj2 Hd2)) as Hl. rewrite Hr2 in Hl. rewrite Hr'. exact Hl.
  - rewrite (list_to_map_proper _ _ Hnd' Hr'). simpl.
    rewrite (list_to_map_proper (content d) ((k, w) :: r)); [|apply Hd|].
    + simpl. by rewrite insert_insert_eq.
    + rewrite <- Hr2, Hp2. by rewrite Hp1.
Qed.

Lemma dict_delete_ok d k : dict_ok d ->
  exists d', dictDelete d k = Some (d', bool_decide (k ∈ (content d).*1)) /\ dict_ok d' /\
    list_to_map (content d') = (delete k (list_to_map (content d)) : gmap K V).
Proof.
  intros Hd. unfold dictDelete, dictGenericDelete.
  assert (Hno : forall d', dict_ok d' -> content d' ≡ₚ content d -> k ∉ (content d).*1 ->
    list_to_map (content d') = (delete k (list_to_map (content d)) : gmap K V)).
  { intros d' Hd' Hp Hni. rewrite (list_to_map_proper _ _ (proj1 (proj2 Hd')) Hp).
    rewrite delete_id; [done|]. by apply not_elem_of_list_to_map_1. }
  destruct (first_table d (proj1 Hd)) as [(Hz & Hc & _)|(Hz & t0 & p0 & H0)].
  { rewrite Hz. simpl. exists d. rewrite bool_decide_false by (rewrite Hc; set_solver).
    split; [done|]. split; [done|]. apply Hno; [done|done|rewrite Hc; set_solver]. }
  rewrite (proj2 (Z.eqb_neq _ _) Hz).
  destruct (dict_step_ok d Hd) as (d1 & -> & Hd1 & Hp1 & _ & H0'). cbn [mbind option_bind].
  destruct H0' as (t & p & H0'); [by exists t0, p0|].
  assert (Hfin : forall (second : bool) j, (second = true -> dictIsRehashing d1 = true) ->
     found (if second then ht1 d1 else ht0 d1) k j ->
     exists h', unlink (if second then ht1 d1 else ht0 d1) k j = Some h' /\
       let d' := if second then mk_dict (ht0 d1) h' (rehashidx d1) (iterators d1)
                 else mk_dict h' (ht1 d1) (rehashidx d1) (iterators d1) in
       bool_decide (k ∈ (content d).*1) = true /\ dict_ok d' /\
       list_to_map (content d') = (delete k (list_to_map (content d)) : gmap K V)).
  { intros second j Hsec Hf. pose proof Hf as (t' & p' & b & w & Hh & Hb & Hg & _ & Hj & Hin).
    pose proof (take_drop_middle b j (k, w) Hj) as Hbb. pose proof (lookup_lt_Some _ _ _ Hj) as Hjl.
    assert (Hlb : length (take j b ++ drop (S j) b) = (length b - 1)%nat)
      by (rewrite length_app, length_take, length_drop; lia).
    destruct (change_chain d1 second k b (take j b ++ drop (S j) b)
      (used (if second then ht1 d1 else ht0 d1) - 1) j w Hd1 Hsec Hf Hg Hj) as (h' & Hs & Ht' & Hp').
    { intros e He. left. rewrite <- Hbb. set_solver. }
    { lia. }
    { lia. }
    exists h'. unfold unlink. rewrite Hg. cbn [mbind option_bind]. split; [done|]. cbv zeta in Ht', Hp' |- *.
    set (d' := if second then mk_dict (ht0 d1) h' (rehashidx d1) (iterators d1)
               else mk_dict h' (ht1 d1) (rehashidx d1) (iterators d1)) in *. clearbody d'.
    assert (Hc1 : content d1 ≡ₚ (k, w) :: content d').
    { apply (Permutation_app_inv_r (take j b ++ drop (S j) b)). rewrite <- Hp'. rewrite <- Hbb at 1.
      simpl. by rewrite <- !Permutation_middle. }
    assert (Hkin : k ∈ (content d).*1) by (rewrite <- Hp1, Hc1; set_solver).
    pose proof (proj1 (proj2 Hd1)) as Hnd. rewrite Hc1 in Hnd. csimpl in Hnd. apply NoDup_cons in Hnd as [Hnk Hnd].
    split; [by apply bool_decide_true|]. split.
    - split; [done|]. split; [done|]. pose proof (proj2 (proj2 Hd1)) as Hl. rewrite Hc1 in Hl. simpl in Hl. lia.
    - rewrite (list_to_map_proper (content d) ((k, w) :: content d')); [|apply Hd|by rewrite <- Hc1].
      simpl. rewrite delete_insert_id; [done|]. by apply not_elem_of_list_to_map_1. }
  destruct (locate d1 k t p (proj1 Hd1) H0') as [j Hf|j Hr Ha Hf|Ha Hr Hn].
  - destruct (Hfin false j) as (h' & Hu & -> & Hd' & Hm); [done|done|].
    destruct Hf as (? & ? & ? & ? & _ & _ & _ & -> & _). cbn [mbind option_bind]. rewrite Hu. cbn [mbind option_bind].
    eexists. split; [done|]. done.
  - destruct (Hfin true j) as (h' & Hu & -> & Hd' & Hm); [done|done|].
    rewrite (proj1 Ha), Hr. cbn [mbind option_bind negb].
    destruct Hf as (? & ? & ? & ? & _ & _ & _ & -> & _). cbn [mbind option_bind]. rewrite Hu. cbn [mbind option_bind].
    eexists. split; [done|]. done.
  - assert (Hni : k ∉ (content d).*1) by (by rewrite <- Hp1).
    rewrite (proj1 Ha), bool_decide_false by done. cbn [mbind option_bind]. exists d1.
    destruct Hr as [[-> _]|[-> [Ha1 _]]]; cbn [negb]; rewrite ?Ha1; cbn [mbind option_bind]; (split; [done|]; split; [done|]; by apply Hno).
Qed.

(** ** Refinement of finite maps *)

Lemma rep_keys d m k : rep d m -> k ∈ (content d).*1 <-> is_Some (m !! k).
Proof.
  intros [Hd <-]. split.
  - intros ([k' v] & -> & Hin)%list_elem_of_fmap. exists v. apply elem_of_list_to_map; [apply Hd|done].
  - intros [v Hv]. apply elem_of_list_to_map_2 in Hv. by apply (list_elem_of_fmap_2 fst) in Hv.
Qed.

Lemma rep_length d m : rep d m -> length (content d) = base.size m.
Proof.
  intros [Hd <-]. rewrite <- (Permutation_length (map_to_list_to_map (M := gmap K) (content d) (proj1 (proj2 Hd)))).
  apply length_map_to_list.
Qed.

(** C33. Whatever the state of the rehashing, below 2^28 entries, [dictAdd], [dictReplace],
    [dictDelete] and [dictFetchValue] implement a finite map: they return
    without a fault, with the flag and value the map gives, in a dictionary of
    the updated map; adding an existing key changes nothing. *)
Theorem dict_refines_map d m k v : rep d m -> Z.of_nat (base.size m) < small ->
  (exists d', dictAdd d k v = Some (d', bool_decide (m !! k = None)) /\
     rep d' (if decide (m !! k = None) then <[k := valDup v]> m else m)) /\
  (exists d', dictReplace d k v = Some (d', bool_decide (m !! k = None)) /\ rep d' (<[k := valDup v]> m)) /\
  (exists d', dictDelete d k = Some (d', bool_decide (is_Some (m !! k))) /\ rep d' (delete k m)) /\
  (exists d', dictFetchValue d k = Some (d', m !! k) /\ rep d' m).
Proof.
  intros Hrep Hsz. pose proof Hrep as [Hd Hm]. rewrite <- (rep_length d m Hrep) in Hsz.
  pose proof (rep_keys d m k Hrep) as Hk.
  assert (Hb : bool_decide (k ∉ (content d).*1) = bool_decide (m !! k = None)).
  { apply bool_decide_ext. rewrite Hk. by rewrite <- eq_None_not_Some. }
  split; [|split; [|split]].
  - destruct (add_ok d k v Hd Hsz) as (d' & -> & Hd' & _ & Hp). rewrite Hb. exists d'. split; [done|].
    split; [done|]. rewrite (list_to_map_proper _ _ (proj1 (proj2 Hd')) Hp). destruct (decide (m !! k = None)) as [E|E].
    + rewrite decide_False by (rewrite Hk, E; apply is_Some_None). simpl. by rewrite Hm.
    + rewrite decide_True; [done|]. rewrite Hk. by apply not_eq_None_Some.
  - destruct (replace_ok d k v Hd Hsz) as (d' & -> & Hd' & Hm'). rewrite Hb. exists d'. split; [done|].
    split; [done|]. by rewrite Hm', Hm.
  - destruct (dict_delete_ok d k Hd) as (d' & -> & Hd' & Hm'). exists d'. rewrite (bool_decide_ext _ _ Hk).
    split; [done|]. split; [done|]. by rewrite Hm', Hm.
  - unfold dictFetchValue. destruct (dict_find_ok d k Hd) as (d' & r & -> & Hd' & Hp & _ & Hr). cbn [mbind option_bind].
    assert (Hm' : list_to_map (content d') = m) by (rewrite (list_to_map_proper _ _ (proj1 (proj2 Hd')) Hp); done).
    destruct r as [q|].
    + destruct Hr as [(w & -> & Hin) _]. cbn [mbind option_bind]. exists d'. split; [|by split].
      cbn [snd]. f_equal. f_equal. symmetry. rewrite <- Hm'. apply elem_of_list_to_map; [apply Hd'|done].
    + exists d'. split; [|by split]. do 2 f_equal. symmetry. rewrite <- Hm'. by apply not_elem_of_list_to_map_1.
Qed.

(** C34. Incremental rehashing neither loses nor duplicates an entry, returns 0
    exactly when it has ended (the tables are exchanged one step after the last key
    has moved, so it still returns 1 when no key is left), and ends within one step more
    than the buckets of the old table. *)
Theorem rehash_preserves d m n : rep d m ->
  exists d' r, dictRehash d n = Some (d', r) /\ rep d' m /\
    (r = 0 <-> dictIsRehashing d' = false) /\ (size (ht0 d) < Z.of_nat n -> r = 0).
Proof.
  intros [Hd Hm]. unfold dictRehash. destruct (dictIsRehashing d) eqn:Hr; cbn [negb].
  2:{ exists d, 0. split; [done|]. split; [done|]. done. }
  destruct (rehash_loop_ok n d Hd Hr) as (d' & r & -> & Hd' & Hp & _ & _ & Hcase).
  exists d', r. split; [done|].
  split; [split; [done|]; rewrite (list_to_map_proper _ _ (proj1 (proj2 Hd')) Hp); done|].
  destruct Hcase as [(-> & Hr')|(-> & Hr' & Hsz & Hidx)]; [by rewrite Hr'|].
  split; [rewrite Hr'; split; done|]. intros Hn. exfalso.
  destruct (tables_rehashing d (proj1 Hd) Hr) as ((? & ?) & _).
  destruct (tables_rehashing d' (proj1 Hd') Hr') as ((? & ?) & _). lia.
Qed.

(** ** Iteration *)

Definition buckets (h : dictht) : list bucket := default [] (table h).

Definition it_ht (d : dict) (it : dictIterator) : dictht := if it_table it =? 0 then ht0 d else ht1 d.

Definition second_pass (d : dict) (it : dictIterator) : list bucket :=
  if (it_table it =? 0) && dictIsRehashing d then buckets (ht1 d) else [].

(** The entries the iterator has still to return. *)
Definition remaining (d : dict) (it : dictIterator) : list (K * V) :=
  (match it_entry it with [] => [] | _ => it_next it end) ++
  concat (drop (Z.to_nat (it_index it + 1)) (buckets (it_ht d it))) ++ concat (second_pass d it).

Record it_valid (d : dict) (it : dictIterator) : Prop := {
  iv_table : it_table it = 0 \/ (it_table it = 1 /\ dictIsRehashing d = true /\ 0 <= it_index it);
  iv_index : -1 <= it_index it
}.

Definition same_tables (d d' : dict) : Prop :=
  ht0 d' = ht0 d /\ ht1 d' = ht1 d /\ rehashidx d' = rehashidx d.

(** The buckets the iterator has still to open. *)
Definition left_buckets (d : dict) (it : dictIterator) : nat :=
  length (drop (Z.to_nat (it_index it + 1)) (buckets (it_ht d it))) + length (second_pass d it).

Lemma tables_size d it : tables_ok d -> it_valid d it ->
  to_signed 32 (size (it_ht d it)) = Z.of_nat (length (buckets (it_ht d it))).
Proof.
  assert (Hok : forall h t p, ht_ok h t p -> to_signed 32 (size h) = Z.of_nat (length (buckets h))).
  { intros h t p Hh. unfold buckets. rewrite (ht_table _ _ _ Hh), (ht_size _ _ _ Hh). simpl.
    rewrite (ht_length _ _ _ Hh). pose proof (ht_pow _ _ _ Hh). apply to_signed_id; [lia|].
    assert (2 ^ p <= 2 ^ 30) by (apply Z.pow_le_mono_r; lia). unfold in_s.
    assert (0 <= 2 ^ p) by (apply Z.pow_nonneg; lia). lia. }
  intros Ht [Htab _]. unfold it_ht. destruct Htab as [->|(-> & Hr & _)]; simpl.
  - destruct Ht as [(_ & _ & [E|(t & p & H0)])|(_ & (t & p & H0 & _) & _)]; [by rewrite E|eauto..].
  - destruct (tables_rehashing d Ht Hr) as (_ & _ & t & p & H1). eauto.
Qed.

Lemma dict_get_nth h i : 0 <= i < Z.of_nat (length (buckets h)) ->
  exists b, get_bucket h i = Some b /\ drop (Z.to_nat i) (buckets h) = b :: drop (Z.to_nat (i + 1)) (buckets h).
Proof.
  intros Hi. unfold get_bucket, buckets in *. rewrite (proj2 (Z.ltb_ge _ _)) by lia.
  destruct (table h) as [t|]; simpl in *; [|lia].
  destruct (lookup_lt_is_Some_2 t (Z.to_nat i)) as [b Hb]; [lia|]. exists b. split; [done|].
  replace (Z.to_nat (i + 1)) with (S (Z.to_nat i)) by lia. by apply drop_S.
Qed.

Lemma next_loop_ok fuel : forall d it, tables_ok d -> it_valid d it ->
  (left_buckets d it + (match it_entry it with [] => 0 | _ => 1 end) < fuel)%nat ->
  exists d' it', next_loop fuel d it = Some (d', it', List.head (remaining d it)) /\ same_tables d d' /\
    it_valid d' it' /\ remaining d' it' = tail (remaining d it).
Proof.
  induction fuel as [|fuel IH]; intros d it Ht Hv Hf; [lia|]. simpl.
  destruct (it_entry it) as [|e0 rest0] eqn:He.
  2:{ unfold remaining. rewrite He. destruct (it_next it) as [|e nxt] eqn:Hn.
      - destruct (IH d (mk_iter (it_table it) (it_index it) [] [])) as (d' & it' & Hrun & Hst & Hv' & Hrem);
          [done|by destruct Hv|unfold left_buckets, second_pass, it_ht in *; simpl in *; lia|].
        exists d', it'. split; [exact Hrun|]. by split.
      - eexists _, _. split; [done|]. split; [done|]. split; [by destruct Hv|]. done. }
  set (d1 := if (it_index it =? -1) && (it_table it =? 0)
             then mk_dict (ht0 d) (ht1 d) (rehashidx d) (iterators d + 1) else d).
  assert (Hst1 : same_tables d d1) by (unfold d1; by case_bool).
  assert (Hre1 : dictIsRehashing d1 = dictIsRehashing d) by (unfold d1; by case_bool).
  assert (Hrem1 : forall it0, remaining d1 it0 = remaining d it0) by (intros; unfold d1; by case_bool).
  assert (Hlb1 : forall it0, left_buckets d1 it0 = left_buckets d it0) by (intros; unfold d1; by case_bool).
  assert (Ht1 : tables_ok d1) by (unfold d1; by case_bool).
  assert (Hval1 : forall it0, it_valid d it0 -> it_valid d1 it0).
  { intros it0 [A B]. constructor; [|done]. by rewrite Hre1. }
  fold (it_ht d it). rewrite (tables_size d it Ht Hv).
  (** Opening a bucket [b] at [it1]. *)
  assert (Hopen : forall it1 b, it_entry it1 = [] -> it_valid d it1 -> (S (left_buckets d it1) <= fuel)%nat ->
    remaining d it = b ++ remaining d it1 ->
    exists d' it', match b with
      | [] => next_loop fuel d1 (mk_iter (it_table it1) (it_index it1) [] (it_next it1))
      | e :: nxt => Some (d1, mk_iter (it_table it1) (it_index it1) b nxt, Some e)
      end = Some (d', it', List.head (remaining d it)) /\ same_tables d d' /\ it_valid d' it' /\
      remaining d' it' = tail (remaining d it)).
  { intros it1 b He1 Hv1 Hfu Hre. destruct b as [|e nxt].
    - destruct (IH d1 (mk_iter (it_table it1) (it_index it1) [] (it_next it1))) as (d' & it' & Hrun & Hst & Hv' & Hrem).
      + done.
      + apply Hval1. by destruct Hv1.
      + rewrite Hlb1. simpl. unfold left_buckets, it_ht, second_pass in *. simpl. lia.
      + exists d', it'. rewrite Hrem1 in Hrun, Hrem. rewrite Hre. 
        assert (Hsame : remaining d (mk_iter (it_table it1) (it_index it1) [] (it_next it1)) = remaining d it1).
        { unfold remaining. by rewrite He1. }
        rewrite Hsame in Hrun, Hrem. split; [exact Hrun|]. split; [|done].
        destruct Hst1 as (? & ? & ?), Hst as (? & ? & ?). split; [congruence|]. split; congruence.
    - eexists _, _. rewrite Hre. split; [done|]. split; [done|]. split; [apply Hval1; by destruct Hv1|].
      rewrite Hrem1. unfold remaining. rewrite He1. done. }
  destruct Hv as [Htab Hidx].
  destruct (Z.leb_spec (Z.of_nat (length (buckets (it_ht d it)))) (it_index it + 1)) as [Hend|Hmore].
  - rewrite Hre1. unfold remaining in Hopen |- *. rewrite He in *.
    destruct (dictIsRehashing d && (it_table it =? 0)) eqn:Hsec.
    + apply andb_true_iff in Hsec as [Hr Htb].
      destruct (tables_rehashing d Ht Hr) as (_ & _ & t1 & p1 & H1).
      assert (Hlen1 : 0 <= 0 < Z.of_nat (length (buckets (ht1 d)))).
      { unfold buckets. rewrite (ht_table _ _ _ H1). simpl. pose proof (ht_length _ _ _ H1). pose proof (ht_pow _ _ _ H1). 
        assert (0 < 2 ^ p1) by (apply Z.pow_pos_nonneg; lia). lia. }
      destruct (dict_get_nth (ht1 d) 0 Hlen1) as (b & Hg & Hdr).
      replace (get_bucket (ht1 d1) 0) with (get_bucket (ht1 d) 0) by (by destruct Hst1 as (_ & -> & _)).
      rewrite Hg. cbn [mbind option_bind].
      apply (Hopen (mk_iter 1 0 [] (it_next it)) b); [done| | |].
      * constructor; simpl; [right; done|lia].
      * unfold left_buckets, it_ht, second_pass in *. rewrite Htb, Hr in Hf. simpl in *.
        rewrite length_drop in *. lia.
      * unfold second_pass at 1. rewrite Htb, Hr. cbn [andb app]. rewrite drop_ge by lia. simpl.
        unfold second_pass, it_ht. simpl. rewrite app_nil_r. simpl in Hdr. rewrite Hdr at 1. done.
    + unfold second_pass. rewrite andb_comm, Hsec. rewrite drop_ge by lia. simpl.
      eexists _, _. split; [done|]. split; [done|]. split; [|].
      * apply Hval1. constructor; simpl; [|lia]. destruct Htab as [?|(? & ? & ?)]; [by left|right; split; [done|split; [done|lia]]].
      * simpl. replace (it_ht d1 (mk_iter (it_table it) (it_index it + 1) [] (it_next it))) with (it_ht d it)
          by (unfold it_ht; simpl; destruct Hst1 as (-> & -> & _); done).
        rewrite drop_ge by lia. rewrite Hre1, andb_comm, Hsec. done.
  - destruct (dict_get_nth (it_ht d it) (it_index it + 1)) as (b & Hg & Hdr); [lia|].
    rewrite Hg. cbn [mbind option_bind].
    apply (Hopen (mk_iter (it_table it) (it_index it + 1) [] (it_next it)) b); [done| | |].
    + constructor; simpl; [|lia]. destruct Htab as [?|(? & ? & ?)]; [by left|right; split; [done|split; [done|lia]]].
    + unfold left_buckets, second_pass in *. simpl in *.
      change (it_ht d (mk_iter (it_table it) (it_index it + 1) [] (it_next it))) with (it_ht d it).
      rewrite Hdr in Hf. simpl in Hf. lia.
    + unfold remaining. rewrite He. simpl. unfold second_pass. simpl.
      change (it_ht d (mk_iter (it_table it) (it_index it + 1) [] (it_next it))) with (it_ht d it).
      rewrite Hdr. simpl. by rewrite <- app_assoc.
Qed.

(** Calling [dictNext] until it returns [NULL]. *)
Fixpoint iterate (fuel : nat) (d : dict) (it : dictIterator) : option (list (K * V)) :=
  match fuel with
  | O => None
  | S fuel' =>
    '(d', it', r) ← dictNext d it;
    match r with
    | None => Some []
    | Some e => l ← iterate fuel' d' it'; Some (e :: l)
    end
  end.

(** The fuel of [dictNext] covers every bucket of both tables. *)
Lemma left_fuel d it : tables_ok d -> it_valid d it ->
  (left_buckets d it + match it_entry it with [] => 0 | _ => 1 end < S (S (slots d)))%nat.
Proof.
  intros Ht Hv.
  assert (Hlen : forall h t p, ht_ok h t p -> Z.of_nat (length (buckets h)) = size h).
  { intros h t p Hh. unfold buckets. rewrite (ht_table _ _ _ Hh), (ht_size _ _ _ Hh). apply (ht_length _ _ _ Hh). }
  assert (H0 : Z.of_nat (length (buckets (ht0 d))) = size (ht0 d)).
  { destruct Ht as [(_ & _ & [E|(t & p & H0)])|(_ & (t & p & H0 & _) & _)]; [by rewrite E|eauto..]. }
  assert (H1 : dictIsRehashing d = true -> Z.of_nat (length (buckets (ht1 d))) = size (ht1 d)).
  { intros Hr. destruct (tables_rehashing d Ht Hr) as (_ & _ & t & p & H1). eauto. }
  assert (H2 : dictIsRehashing d = false -> size (ht1 d) = 0).
  { intros Hr. destruct Ht as [(_ & -> & _)|(E & _)]; [done|].
    unfold dictIsRehashing in Hr. apply negb_false_iff, Z.eqb_eq in Hr. lia. }
  unfold left_buckets, second_pass, slots, it_ht. rewrite length_drop.
  destruct Hv as [[->|(-> & Hr & _)] _]; simpl; [destruct (dictIsRehashing d) eqn:Hr|];
    destruct (it_entry it); simpl; specialize (H1 eq_refl) || specialize (H1 Hr) || specialize (H2 eq_refl); lia.
Qed.

Lemma iterate_ok l : forall fuel d it, tables_ok d -> it_valid d it -> (length l < fuel)%nat ->
  remaining d it = l -> iterate fuel d it = Some l.
Proof.
  induction l as [|e l IH]; intros fuel d it Ht Hv Hf Hrem; (destruct fuel as [|fuel]; [simpl in Hf; lia|]); simpl; unfold dictNext.
  all: destruct (next_loop_ok (S (S (slots d))) d it Ht Hv (left_fuel d it Ht Hv))
         as (d' & it' & -> & (E0 & E1 & Er) & Hv' & Hrem'); rewrite Hrem in *; cbn [mbind option_bind List.head tail] in *.
  { done. }
  rewrite (IH fuel d' it'); [done| |done|simpl in Hf; lia|done].
  unfold tables_ok in *. unfold dictIsRehashing in *. rewrite E0, E1, Er. done.
Qed.

(** Whatever the state of the rehashing, [dictNext] called until it returns
    [NULL] yields every entry of the dictionary exactly once. *)
Theorem iteration_complete d m : rep d m ->
  exists l, iterate (S (base.size m)) d dictGetIterator = Some l /\ l ≡ₚ map_to_list m.
Proof.
  intros Hrep. pose proof (rep_length d m Hrep) as Hlen. destruct Hrep as [Hd Hm].
  assert (Hrem : remaining d dictGetIterator = content d).
  { unfold remaining, content, entries, second_pass, it_ht, buckets. simpl.
    destruct Hd as [Ht _]. rewrite drop_0. destruct (dictIsRehashing d) eqn:Hr; [by destruct (table (ht0 d)), (table (ht1 d))|].
    destruct Ht as [(_ & -> & _)|(E & _)]; [by destruct (table (ht0 d))|].
    unfold dictIsRehashing in Hr. apply negb_false_iff, Z.eqb_eq in Hr. lia. }
  exists (content d). split.
  - apply iterate_ok; [apply Hd| |lia|done]. constructor; simpl; [by left|lia].
  - rewrite <- Hm. symmetry. apply map_to_list_to_map. apply Hd.
Qed.

(** A dictionary filled with [dictAdd]. *)
Fixpoint add_all (d : dict) (l : list (K * V)) : option dict :=
  match l with [] => Some d | (k, v) :: l' => '(d', _) ← dictAdd d k v; add_all d' l' end.

Lemma dict_create_rep : rep dictCreate ∅.
Proof. split; [|done]. split; [left; split; [done|]; split; [done|by left]|]. split; [constructor|done]. Qed.

Lemma add_all_rep l : forall d m, rep d m -> Z.of_nat (base.size m + length l) < small ->
  exists d' m', add_all d l = Some d' /\ rep d' m' /\ (base.size m' <= base.size m + length l)%nat.
Proof.
  induction l as [|[k v] l IH]; intros d m Hrep Hsz; [exists d, m; split; [done|]; split; [done|simpl; lia]|].
  simpl in *. pose proof (rep_length d m Hrep) as Hl. destruct (add_ok d k v (proj1 Hrep)) as (d' & -> & Hd' & _ & Hp); [lia|].
  cbn [mbind option_bind].
  assert (Hrep' : rep d' (list_to_map (content d'))) by done.
  pose proof (rep_length _ _ Hrep') as Hl'. apply Permutation_length in Hp.
  destruct (IH d' _ Hrep') as (d2 & m2 & -> & Hr2 & Hs2); [case_decide; simpl in *; lia|].
  exists d2, m2. split; [done|]. split; [done|]. case_decide; simpl in *; lia.
Qed.

End dict.

(** ** Examples *)

Definition ex_hash (k : Z) : Z := dictIntHashFunction (wrapu 32 k).

Lemma ex_hash_range k : in_u 32 (ex_hash k).
Proof.
  unfold ex_hash, dictIntHashFunction.
  eauto 10 with bft lia.
Qed.

Definition ex_dict : option (@dict Z Z) :=
  add_all ex_hash id id true dictCreate [(1, 10); (2, 20); (3, 30); (4, 40); (5, 50)].

(** Five keys: the fifth has started the rehashing. *)
Lemma ex_dict_rep : exists d m, ex_dict = Some d /\ rep ex_hash d m /\ Z.of_nat (base.size m) < small /\
  dictIsRehashing d = true.
Proof.
  destruct (add_all_rep (K := Z) (V := Z) ex_hash id id true ex_hash_range (fun _ => eq_refl)
    [(1, 10); (2, 20); (3, 30); (4, 40); (5, 50)] dictCreate ∅ (dict_create_rep ex_hash)) as (d & m & Ha & Hr & Hs); [done|].
  exists d, m. split; [exact Ha|]. split; [done|]. split; [simpl in Hs; unfold small; change (base.size ∅) with 0%nat in Hs; lia|].
  vm_compute in Ha. injection Ha as <-. done.
Qed.

Lemma dict_refines_map_witness : exists d (m : gmap Z Z), rep ex_hash d m /\ dictIsRehashing d = true /\
  exists d', dictReplace ex_hash id id true d 3 33 = Some (d', bool_decide (m !! 3 = None)) /\ rep ex_hash d' (<[3 := 33]> m).
Proof.
  destruct ex_dict_rep as (d & m & _ & Hr & Hs & Hre). exists d, m. split; [done|]. split; [done|].
  apply (dict_refines_map ex_hash id id true ex_hash_range (fun _ => eq_refl) d m 3 33 Hr Hs).
Defined.

Lemma rehash_preserves_witness : exists d (m : gmap Z Z), rep ex_hash d m /\ dictIsRehashing d = true /\
  exists d' r, dictRehash ex_hash d 2 = Some (d', r) /\ rep ex_hash d' m.
Proof.
  destruct ex_dict_rep as (d & m & _ & Hr & Hs & Hre). exists d, m. split; [done|]. split; [done|].
  destruct (rehash_preserves ex_hash ex_hash_range d m 2 Hr) as (d' & r & ? & ? & _). by exists d', r.
Defined.

(** A dictionary with one key, being rehashed: the step that moves the key answers 1, although no key is left to move. *)
Example rehash_reports_late : exists d d' : @dict Z Z,
  ('(d, _) ← dictAdd ex_hash id id true dictCreate 1 10; '(d, _) ← dictExpand d 8; Some d) = Some d /\
  dictRehash ex_hash d 1 = Some (d', 1) /\ used (ht0 d') = 0.
Proof. eexists _, _. split; [vm_compute; reflexivity|]. split; [vm_compute; reflexivity|reflexivity]. Qed.

Lemma iteration_complete_witness : exists d (m : gmap Z Z), rep ex_hash d m /\ dictIsRehashing d = true /\
  exists l, iterate (S (base.size m)) d dictGetIterator = Some l /\ l ≡ₚ map_to_list m.
Proof.
  destruct ex_dict_rep as (d & m & _ & Hr & Hs & Hre). exists d, m. split; [done|]. split; [done|].
  apply (iteration_complete ex_hash d m Hr).
Defined.

End Dict.
