(* ===== verification/Sds.v ===== *)
(** * Simple dynamic strings

    [redis/src/sds.c]: strings with a header [len], [free] before their bytes.
    An [sds] value is the heap block: the two [int]s of the header and the
    bytes of [buf], whose number is the size of the allocation less the header.
    Memory arguments ([void *t], [char *s]) are the bytes from the pointer to
    the end of their object, a [NULL] pointer is [None]; an access outside an
    object makes the operation [None].  [zmalloc] and [zrealloc] succeed
    ([sdsOomAbort] otherwise) and leave new bytes with the value [junk]. *)

From S2P Require Import Prelude Bytes.
Local Open Scope Z_scope.

Module Sds.
Import Bytes.

Record sdshdr := mk_sds { len : Z; free : Z; buf : block }.

(** ** The C library *)

Fixpoint strlen (s : block) : option Z :=
  match s with
  | [] => None
  | c :: s' => if c =? 0 then Some 0 else n ← strlen s'; Some (n + 1)
  end.

(** [strchr(cset, c) != NULL]: the terminator is found too. *)
Definition strchr (cset : list Z) (c : Z) : bool := (c =? 0) || bool_decide (c ∈ cset).

Definition tolower (c : Z) : Z := if (65 <=? c) && (c <=? 90) then c + 32 else c.
Definition toupper (c : Z) : Z := if (97 <=? c) && (c <=? 122) then c - 32 else c.
Definition isspace (c : Z) : bool := ((9 <=? c) && (c <=? 13)) || (c =? 32).
Definition isprint (c : Z) : bool := (32 <=? c) && (c <=? 126).
Definition hexdigit (d : Z) : Z := if d <? 10 then 48 + d else 87 + d.

Section sds.
Context (junk : Z).

(** ** Creation *)

Definition sdsnewlen (init : option block) (initlen : Z) : option sdshdr :=
  let b := replicate (Z.to_nat (initlen + 1)) junk in
  b ← (if initlen =? 0 then Some b
       else match init with
            | Some t => d ← read t 0 initlen; write b 0 d
            | None => write b 0 (replicate (Z.to_nat initlen) 0)
            end);
  b ← write b initlen [0];
  Some (mk_sds (to_signed 32 initlen) 0 b).

Definition sdsempty : option sdshdr := sdsnewlen (Some [0]) 0.

Definition sdsnew (init : option block) : option sdshdr :=
  initlen ← match init with None => Some 0 | Some s => strlen s end;
  sdsnewlen init initlen.

Definition sdslen (s : sdshdr) : Z := wrapu 32 (len s).
Definition sdsavail (s : sdshdr) : Z := wrapu 32 (free s).

Definition sdsdup (s : sdshdr) : option sdshdr := sdsnewlen (Some (buf s)) (sdslen s).

Definition sdsupdatelen (s : sdshdr) : option sdshdr :=
  n ← strlen (buf s);
  let reallen := to_signed 32 n in
  Some (mk_sds reallen (to_signed 32 (free s + (len s - reallen))) (buf s)).

(** ** Growing and copying *)

Definition sdsMakeRoomFor (s : sdshdr) (addlen : Z) : sdshdr :=
  if addlen <=? sdsavail s then s
  else
    let newlen := wrapu 32 ((sdslen s + addlen) * 2) in
    mk_sds (len s) (to_signed 32 (newlen - sdslen s)) (realloc junk (buf s) (newlen + 1)).

Definition sdscatlen (s : sdshdr) (t : block) (n : Z) : option sdshdr :=
  let curlen := sdslen s in
  let s := sdsMakeRoomFor s n in
  d ← read t 0 n;
  b ← write (buf s) curlen d;
  b ← write b (wrapu 32 (curlen + n)) [0];
  Some (mk_sds (to_signed 32 (curlen + n)) (to_signed 32 (free s - n)) b).

Definition sdscat (s : sdshdr) (t : block) : option sdshdr := n ← strlen t; sdscatlen s t n.

Definition sdscpylen (s : sdshdr) (t : block) (n : Z) : option sdshdr :=
  let totlen := wrapu 32 (to_signed 32 (free s + len s)) in
  let s := if totlen <? n then sdsMakeRoomFor s (wrapu 32 (n - len s)) else s in
  let totlen := if totlen <? n then wrapu 32 (to_signed 32 (free s + len s)) else totlen in
  d ← read t 0 n;
  b ← write (buf s) 0 d;
  b ← write b n [0];
  Some (mk_sds (to_signed 32 n) (to_signed 32 (totlen - n)) b).

Definition sdscpy (s : sdshdr) (t : block) : option sdshdr := n ← strlen t; sdscpylen s t n.

(** [vsnprintf(buf, size, ...)] of the text [txt]: as much as fits, then 0. *)
Definition vsnprintf (b : block) (size : Z) (txt : list Z) : option block :=
  let out := take (Z.to_nat (size - 1)) txt in write b 0 (out ++ [0]).

(** The text the format and its arguments stand for is [txt]; [buflen] starts
    at 16 and doubles until the text fits. *)
Fixpoint printf_loop (fuel : nat) (buflen : Z) (txt : list Z) : option block :=
  match fuel with
  | O => None
  | S fuel' =>
    let b := replicate (Z.to_nat buflen) junk in
    b ← write b (buflen - 2) [0];
    b ← vsnprintf b buflen txt;
    c ← get b (buflen - 2);
    if negb (c =? 0) then printf_loop fuel' (wrapu 32 (buflen * 2)) txt else Some b
  end.

Definition sdscatprintf (s : sdshdr) (txt : list Z) : option sdshdr :=
  b ← printf_loop (S (length txt)) 16 txt; sdscat s b.

(** ** Slices *)

Fixpoint trim_left (fuel : nat) (b : block) (cset : list Z) (sp end_ : Z) : option Z :=
  match fuel with
  | O => None
  | S fuel' =>
    if sp <=? end_ then
      c ← get b sp; if strchr cset c then trim_left fuel' b cset (sp + 1) end_ else Some sp
    else Some sp
  end.

Fixpoint trim_right (fuel : nat) (b : block) (cset : list Z) (ep start : Z) : option Z :=
  match fuel with
  | O => None
  | S fuel' =>
    if start <? ep then
      c ← get b ep; if strchr cset c then trim_right fuel' b cset (ep - 1) start else Some ep
    else Some ep
  end.

Definition sdstrim (s : sdshdr) (cset : list Z) : option sdshdr :=
  let end_ := sdslen s - 1 in
  let fuel := S (length (buf s)) in
  sp ← trim_left fuel (buf s) cset 0 end_;
  ep ← trim_right fuel (buf s) cset end_ 0;
  let n := if ep <? sp then 0 else (ep - sp) + 1 in
  b ← (if negb (sp =? 0) then memmove (buf s) 0 sp n else Some (buf s));
  b ← write b n [0];
  Some (mk_sds (to_signed 32 n) (to_signed 32 (free s + (len s - n))) b).

Definition sdsrange (s : sdshdr) (start end_ : Z) : option sdshdr :=
  let ln := sdslen s in
  if ln =? 0 then Some s
  else
    let clip x := if x <? 0 then let x := to_signed 32 (ln + x) in if x <? 0 then 0 else x else x in
    let start := clip start in
    let end_ := clip end_ in
    let span start end_ := if end_ <? start then 0 else wrapu 32 (to_signed 32 ((end_ - start) + 1)) in
    let newlen := span start end_ in
    let '(start, newlen) :=
      if negb (newlen =? 0) then
        let start := if to_signed 32 ln <=? start then to_signed 32 (ln - 1) else start in
        let end_ := if to_signed 32 ln <=? end_ then to_signed 32 (ln - 1) else end_ in
        (start, span start end_)
      else (0, newlen) in
    b ← (if negb (start =? 0) then memmove (buf s) 0 start newlen else Some (buf s));
    b ← write b newlen [0];
    Some (mk_sds (to_signed 32 newlen) (to_signed 32 (free s + (len s - newlen))) b).

(** [for (j = 0; j < len; j++) s[j] = f(s[j])]. *)
Fixpoint map_loop (f : Z -> Z) (fuel : nat) (b : block) (j : Z) : option block :=
  match fuel with
  | O => Some b
  | S fuel' => c ← get b j; b ← write b j [f c]; map_loop f fuel' b (j + 1)
  end.

Definition sdstolower (s : sdshdr) : option sdshdr :=
  b ← map_loop tolower (Z.to_nat (to_signed 32 (sdslen s))) (buf s) 0; Some (mk_sds (len s) (free s) b).

Definition sdstoupper (s : sdshdr) : option sdshdr :=
  b ← map_loop toupper (Z.to_nat (to_signed 32 (sdslen s))) (buf s) 0; Some (mk_sds (len s) (free s) b).

Definition sdscmp (s1 s2 : sdshdr) : option Z :=
  let l1 := sdslen s1 in
  let l2 := sdslen s2 in
  let minlen := if l1 <? l2 then l1 else l2 in
  a ← read (buf s1) 0 minlen;
  b ← read (buf s2) 0 minlen;
  let cmp := memcmp a b in
  if cmp =? 0 then Some (to_signed 32 (l1 - l2)) else Some cmp.

(** ** Splitting *)

(** [slots] is the capacity of the array [tokens]; storing past it is a fault. *)
Fixpoint split_loop (fuel : nat) (s : block) (ln : Z) (sep : block) (seplen : Z)
    (slots : Z) (tokens : list sdshdr) (start j : Z) : option (Z * list sdshdr * Z) :=
  match fuel with
  | O => None
  | S fuel' =>
    if j <? ln - (seplen - 1) then
      let elements := Z.of_nat (length tokens) in
      let slots := if slots <? elements + 2 then slots * 2 else slots in
      c ← get s j;
      c0 ← get sep 0;
      hit ← (if (seplen =? 1) && (c =? c0) then Some true
             else a ← read s j seplen; b ← read sep 0 seplen; Some (memcmp a b =? 0));
      if (hit : bool) then
        t ← sdsnewlen (Some (drop (Z.to_nat start) s)) (wrapu 32 (j - start));
        if slots <=? elements then None
        else split_loop fuel' s ln sep seplen slots (tokens ++ [t]) (j + seplen) (j + seplen - 1 + 1)
      else split_loop fuel' s ln sep seplen slots tokens start (j + 1)
    else Some (slots, tokens, start)
  end.

(** The inner [None] is a [NULL] result. *)
Definition sdssplitlen (s : block) (ln : Z) (sep : block) (seplen : Z) : option (option (list sdshdr)) :=
  if (seplen <? 1) || (ln <? 0) then Some None
  else if ln =? 0 then Some (Some [])
  else
    '(slots, tokens, start) ← split_loop (S (Z.to_nat ln)) s ln sep seplen 5 [] 0 0;
    t ← sdsnewlen (Some (drop (Z.to_nat start) s)) (wrapu 32 (ln - start));
    if slots <=? Z.of_nat (length tokens) then None else Some (Some (tokens ++ [t])).

(** ** Conversions *)

(** [do { *p-- = '0'+(v%10); v /= 10; } while(v);] *)
Fixpoint digits_loop (fuel : nat) (b : block) (p v : Z) : option (block * Z) :=
  match fuel with
  | O => None
  | S fuel' =>
    b ← write b p [48 + v mod 10];
    let v := v / 10 in
    if v =? 0 then Some (b, p - 1) else digits_loop fuel' b (p - 1) v
  end.

Definition sdsfromlonglong (value : Z) : option sdshdr :=
  let b := replicate 32 junk in
  let v := if value <? 0 then wrapu 64 (- value) else value in
  '(b, p) ← digits_loop 20 b 31 v;
  '(b, p) ← (if value <? 0 then b ← write b p [45]; Some (b, p - 1) else Some (b, p));
  let p := p + 1 in
  sdsnewlen (Some (drop (Z.to_nat p) b)) (32 - p).

(** The literals of the source are C strings of two characters, of which
    [sdscatlen] is asked to copy one. *)
Fixpoint repr_loop (s : sdshdr) (p : list Z) : option sdshdr :=
  match p with
  | [] => Some s
  | c :: p' =>
    s ← (if (c =? 92) || (c =? 34) then sdscatprintf s [92; c]
         else if c =? 10 then sdscatlen s [92; 110; 0] 1
         else if c =? 13 then sdscatlen s [92; 114; 0] 1
         else if c =? 9 then sdscatlen s [92; 116; 0] 1
         else if c =? 7 then sdscatlen s [92; 97; 0] 1
         else if c =? 8 then sdscatlen s [92; 98; 0] 1
         else if isprint c then sdscatprintf s [c]
         else sdscatprintf s [92; 120; hexdigit (c / 16); hexdigit (c mod 16)]);
    repr_loop s p'
  end.

Definition sdscatrepr (s : sdshdr) (p : block) (n : Z) : option sdshdr :=
  s ← sdscatlen s [34; 0] 1;
  d ← read p 0 n;
  s ← repr_loop s d;
  sdscatlen s [34; 0] 1.

(** The state of the token loop: [p], [inq] and the token so far; the inner
    [None] is [goto err]. *)
Definition unescape (c : Z) : Z :=
  if c =? 110 then 10 else if c =? 114 then 13 else if c =? 116 then 9
  else if c =? 98 then 8 else if c =? 97 then 7 else c.

Fixpoint token_loop (fuel : nat) (line : block) (p : Z) (inq : bool) (current : sdshdr)
    : option (option (Z * sdshdr)) :=
  match fuel with
  | O => None
  | S fuel' =>
    c ← get line p;
    let next p current inq done :=
      c ← get line p;
      let p := if negb (c =? 0) then p + 1 else p in
      if (done : bool) then Some (Some (p, current)) else token_loop fuel' line p inq current in
    if inq then
      esc ← (if c =? 92 then c1 ← get line (p + 1); Some (negb (c1 =? 0)) else Some false);
      if (esc : bool) then
        c1 ← get line (p + 1);
        current ← sdscatlen current [unescape c1] 1;
        next (p + 1) current true false
      else if c =? 34 then
        c1 ← get line (p + 1);
        if negb (c1 =? 0) && negb (isspace c1) then Some None else next p current true true
      else if c =? 0 then Some None
      else current ← sdscatlen current [c] 1; next p current true false
    else if (c =? 32) || (c =? 10) || (c =? 13) || (c =? 9) || (c =? 0) then next p current false true
    else if c =? 34 then next p current true false
    else current ← sdscatlen current [c] 1; next p current false false
  end.

Fixpoint skip_blanks (fuel : nat) (line : block) (p : Z) : option Z :=
  match fuel with
  | O => None
  | S fuel' =>
    c ← get line p;
    if negb (c =? 0) && isspace c then skip_blanks fuel' line (p + 1) else Some p
  end.

Fixpoint args_loop (fuel : nat) (line : block) (p : Z) (vector : list sdshdr)
    : option (option (list sdshdr)) :=
  match fuel with
  | O => None
  | S fuel' =>
    p ← skip_blanks (S (length line)) line p;
    c ← get line p;
    if c =? 0 then Some (Some vector)
    else
      current ← sdsempty;
      r ← token_loop (S (length line)) line p false current;
      match r with
      | None => Some None
      | Some (p, current) => args_loop fuel' line p (vector ++ [current])
      end
  end.

(** The inner [None] is the [err] exit, with [*argc] negative; a line with no
    argument gives [*argc = 0]. *)
Definition sdssplitargs (line : block) : option (option (list sdshdr)) :=
  args_loop (S (length line)) line 0 [].

(** ** Representation *)

(** [s] holds the string [st], with its terminator and [free] spare bytes. *)
Definition rep (s : sdshdr) (st : list Z) : Prop :=
  exists rest, s = mk_sds (Z.of_nat (length st)) (Z.of_nat (length rest)) (st ++ [0] ++ rest) /\
    Z.of_nat (length st + length rest) < 2 ^ 31.

(** Strings the [int] header can double for. *)
Definition fits (n : Z) : Prop := 0 <= n < 2 ^ 30.

Lemma int_id z : 0 <= z < 2 ^ 31 -> to_signed 32 z = z.
Proof. intros. apply to_signed_id; [lia|]. unfold in_s. change (32 - 1) with 31. lia. Qed.

Lemma rep_len s st : rep s st -> sdslen s = Z.of_nat (length st).
Proof. intros (rest & -> & Hb). apply wrapu_id. unfold in_u. simpl. lia. Qed.

Lemma newlen_ok t n : 0 <= n < 2 ^ 31 -> n <= Z.of_nat (length t) ->
  exists s, sdsnewlen (Some t) n = Some s /\ rep s (take (Z.to_nat n) t).
Proof.
  intros Hn Hl. unfold sdsnewlen.
  set (d := take (Z.to_nat n) t). assert (Hd : length d = Z.to_nat n) by (unfold d; rewrite length_take; lia).
  replace (if n =? 0 then _ else _) with (Some (d ++ [junk])).
  2:{ rewrite read_prefix by lia. fold d. replace (Z.to_nat (n + 1)) with (Z.to_nat n + 1)%nat by lia.
      rewrite replicate_add. destruct (Z.eqb_spec n 0) as [->|]; [by destruct d|]. cbn [mbind option_bind].
      symmetry. apply (write_at _ [] (replicate (Z.to_nat n) junk) d [junk] 0); [done|done|]. by rewrite length_replicate. }
  cbn [mbind option_bind]. rewrite (write_at _ d [junk] [0] []) by (rewrite ?Hd, ?app_nil_r; try done; lia).
  cbn [mbind option_bind]. eexists. split; [done|]. exists []. rewrite int_id by lia. simpl. rewrite Hd. split; [|lia].
  f_equal. lia.
Qed.

(** Making room keeps the string. *)
Lemma make_room s st n : rep s st -> 0 <= n -> fits (Z.of_nat (length st) + n) ->
  rep (sdsMakeRoomFor s n) st /\ n <= free (sdsMakeRoomFor s n).
Proof.
  intros Hrep Hn Hf. pose proof (rep_len s st Hrep) as Hlen. destruct Hrep as (rest & -> & Hb). unfold fits in Hf.
  unfold sdsMakeRoomFor. rewrite Hlen. simpl. unfold sdsavail. simpl. rewrite (wrapu_id 32 (Z.of_nat (length rest))) by (unfold in_u; lia).
  destruct (Z.leb_spec n (Z.of_nat (length rest))); [split; [by exists rest|done]|]. simpl.
  rewrite wrapu_id by (unfold in_u; lia). rewrite int_id by lia.
  set (new := (Z.of_nat (length st) + n) * 2).
  rewrite realloc_grow by (rewrite length_app; simpl; lia). split; [|lia].
  eexists (rest ++ replicate _ junk). split.
  - rewrite <- !app_assoc. simpl. f_equal. rewrite length_app, length_replicate, length_app. simpl. lia.
  - rewrite !length_app, length_replicate. simpl. lia.
Qed.

Lemma catlen_ok s st t n : rep s st -> 0 <= n <= Z.of_nat (length t) -> fits (Z.of_nat (length st) + n) ->
  exists s', sdscatlen s t n = Some s' /\ rep s' (st ++ take (Z.to_nat n) t).
Proof.
  intros Hrep Hn Hf. pose proof (rep_len s st Hrep) as Hlen. unfold sdscatlen. rewrite Hlen, read_prefix by lia.
  destruct (make_room s st n Hrep) as [(rest & -> & Hb) Hfree]; [lia|done|]. unfold fits in Hf. simpl in *.
  set (d := take (Z.to_nat n) t). assert (Hd : length d = Z.to_nat n) by (unfold d; rewrite length_take; lia).
  assert (Hsplit : 0 :: rest = take (length d) (0 :: rest) ++ drop (length d) (0 :: rest)) by (by rewrite take_drop).
  rewrite (write_at _ st (take (length d) (0 :: rest)) d (drop (length d) (0 :: rest))); [|by rewrite <- Hsplit|done|].
  2:{ rewrite length_take. simpl. lia. }
  cbn [mbind option_bind].
  assert (Hdr : length (drop (length d) (0 :: rest)) = (length rest + 1 - length d)%nat) by (rewrite length_drop; simpl; lia).
  destruct (drop (length d) (0 :: rest)) as [|x rest'] eqn:Ed; [simpl in *; lia|].
  rewrite wrapu_id by (unfold in_u; lia).
  rewrite (write_at _ (st ++ d) [x] [0] rest'); [|by rewrite <- app_assoc|rewrite length_app; lia|done].
  cbn [mbind option_bind]. eexists. split; [done|]. exists rest'. simpl in Hdr. rewrite length_app, Hd. split; [|lia].
  f_equal; rewrite int_id; lia.
Qed.

(** Storing the string [d] at the start of a block of [len + free + 1] bytes. *)
Lemma store_ok (b d : list Z) tot : Z.of_nat (length b) = tot + 1 -> tot < 2 ^ 31 -> Z.of_nat (length d) <= tot ->
  exists b', (b1 ← write b 0 d; write b1 (Z.of_nat (length d)) [0]) = Some b' /\
    rep (mk_sds (to_signed 32 (Z.of_nat (length d))) (to_signed 32 (tot - Z.of_nat (length d))) b') d.
Proof.
  intros Hb Ht Hd.
  assert (Hdr : length (drop (length d) b) = (length b - length d)%nat) by apply length_drop.
  rewrite (write_at b [] (take (length d) b) d (drop (length d) b)); [|by rewrite take_drop|done|rewrite length_take; lia].
  cbn [mbind option_bind app]. destruct (drop (length d) b) as [|x rest]; [simpl in *; lia|].
  rewrite (write_at _ d [x] [0] rest) by done. eexists. split; [done|]. simpl in Hdr.
  exists rest. rewrite !int_id by lia. split; [f_equal; lia|lia].
Qed.

Lemma cpylen_ok s st t n : rep s st -> 0 <= n <= Z.of_nat (length t) -> fits n ->
  exists s', sdscpylen s t n = Some s' /\ rep s' (take (Z.to_nat n) t).
Proof.
  intros Hrep Hn Hf. unfold sdscpylen, fits in *. rewrite read_prefix by lia.
  set (d := take (Z.to_nat n) t). assert (Hd : length d = Z.to_nat n) by (unfold d; rewrite length_take; lia).
  assert (Htot : forall s0 st0, rep s0 st0 -> wrapu 32 (to_signed 32 (free s0 + len s0)) = Z.of_nat (length (buf s0)) - 1 /\
    Z.of_nat (length (buf s0)) <= 2 ^ 31 /\ free s0 + len s0 = Z.of_nat (length (buf s0)) - 1).
  { intros s0 st0 (rest & -> & Hb). simpl. rewrite int_id by lia. rewrite wrapu_id by (unfold in_u; lia).
    rewrite length_app. simpl. lia. }
  destruct (Htot s st Hrep) as (-> & Hmax & Hfl).
  assert (Hend : forall s0 st0, rep s0 st0 -> n <= Z.of_nat (length (buf s0)) - 1 ->
    exists s', (b ← write (buf s0) 0 d; b ← write b n [0];
      Some (mk_sds (to_signed 32 n) (to_signed 32 (Z.of_nat (length (buf s0)) - 1 - n)) b)) = Some s' /\ rep s' d).
  { intros s0 st0 Hr0 Hle. destruct (Htot s0 st0 Hr0) as (_ & Hm0 & _).
    destruct (store_ok (buf s0) d (Z.of_nat (length (buf s0)) - 1)) as (b' & Hb' & Hr'); [lia..|].
    destruct (write (buf s0) 0 d) as [b1|]; [|done]. cbn [mbind option_bind] in *.
    replace (Z.of_nat (length d)) with n in * by lia. rewrite Hb'. eexists. split; done. }
  destruct (Z.ltb_spec (Z.of_nat (length (buf s)) - 1) n) as [Hgrow|Hle]; [|by apply (Hend s st)].
  destruct (make_room s st (wrapu 32 (n - len s)) Hrep) as [Hr' Hfree].
  1: apply wrapu_range; lia.
  1: destruct Hrep as (rest & -> & Hb); simpl in *; rewrite length_app in *; simpl in *; rewrite wrapu_id by (unfold in_u; lia); unfold fits; lia.
  destruct (Htot _ st Hr') as (-> & _ & Hfl'). apply (Hend _ st Hr').
  assert (Hw : wrapu 32 (n - len s) = n - len s).
  { destruct Hrep as (rest & -> & Hb). simpl in *. rewrite length_app in *. simpl in *. apply wrapu_id. unfold in_u. lia. }
  rewrite Hw in *. destruct Hr' as (rest' & E & _). rewrite E in *. simpl in *.
  destruct Hrep as (rest & -> & Hb). simpl in *. lia.
Qed.

Lemma strlen_app st rest : 0 ∉ st -> strlen (st ++ 0 :: rest) = Some (Z.of_nat (length st)).
Proof.
  induction st as [|c st IH]; intros Hn; [done|]. simpl.
  destruct (Z.eqb_spec c 0) as [->|]; [set_solver|]. rewrite IH by set_solver. simpl. f_equal. lia.
Qed.

(** While lengths stay below 2^30, creating, duplicating, appending and
    overwriting a string return without a fault the string they name,
    terminated and with [len] and [free] accounting for the whole block. *)
Theorem sds_strings s st t n : rep s st -> 0 <= n <= Z.of_nat (length t) -> fits (Z.of_nat (length st) + n) ->
  (exists s', sdsnewlen (Some t) n = Some s' /\ rep s' (take (Z.to_nat n) t)) /\
  (exists s', sdsdup s = Some s' /\ rep s' st) /\
  (exists s', sdscatlen s t n = Some s' /\ rep s' (st ++ take (Z.to_nat n) t)) /\
  (exists s', sdscpylen s t n = Some s' /\ rep s' (take (Z.to_nat n) t)) /\
  (0 ∉ st -> sdsupdatelen s = Some s).
Proof.
  intros Hrep Hn Hf. unfold fits in Hf. split; [apply newlen_ok; lia|]. split; [|split; [by apply catlen_ok|split; [apply (cpylen_ok s st); [done|done|unfold fits; lia]|]]].
  - unfold sdsdup. rewrite (rep_len s st Hrep). destruct Hrep as (rest & -> & Hb). simpl.
    destruct (newlen_ok (st ++ 0 :: rest) (Z.of_nat (length st))) as (s' & -> & Hr); [lia|rewrite length_app; lia|].
    exists s'. split; [done|]. by rewrite Nat2Z.id, take_app_length in Hr.
  - intros Hz. destruct Hrep as (rest & -> & Hb). unfold sdsupdatelen. simpl. rewrite strlen_app by done. simpl.
    rewrite !int_id by lia. f_equal. f_equal. lia.
Qed.

(** ** Slices *)

Lemma trim_left_ok cset l : forall fuel pre x, Forall (fun c => strchr cset c = true) l ->
  (forall c x', x = c :: x' -> strchr cset c = false) -> (length l < fuel)%nat ->
  forall tl, trim_left fuel (pre ++ l ++ x ++ tl) cset (Z.of_nat (length pre)) (Z.of_nat (length pre + length l + length x) - 1)
    = Some (Z.of_nat (length pre + length l)).
Proof.
  induction l as [|c l IH]; intros fuel pre x Hl Hx Hf tl; (destruct fuel as [|fuel]; [lia|]); simpl.
  - destruct x as [|c x].
    + simpl. rewrite (proj2 (Z.leb_gt _ _)) by lia. f_equal. lia.
    + rewrite (proj2 (Z.leb_le _ _)) by (simpl; lia). simpl. rewrite get_app by done. simpl.
      rewrite (Hx c x eq_refl). f_equal. lia.
  - rewrite (proj2 (Z.leb_le _ _)) by (simpl; lia). rewrite get_app by done. simpl.
    inversion Hl as [|? ? Hc Hl']; subst. rewrite Hc.
    specialize (IH fuel (pre ++ [c]) x Hl' Hx ltac:(simpl in Hf; lia) tl).
    rewrite length_app in IH. simpl in IH. rewrite <- app_assoc in IH. simpl in IH.
    replace (Z.of_nat (length pre) + 1) with (Z.of_nat (length pre + 1)) by lia.
    replace (length pre + S (length l))%nat with (length pre + 1 + length l)%nat by lia. exact IH.
Qed.

Lemma trim_right_ok cset r : forall fuel a c tl, Forall (fun c => strchr cset c = true) r ->
  (a = [] \/ strchr cset c = false) -> (length r < fuel)%nat ->
  trim_right fuel (a ++ [c] ++ r ++ tl) cset (Z.of_nat (length a + length r)) 0 = Some (Z.of_nat (length a)).
Proof.
  induction r as [|z r IH] using rev_ind; intros fuel a c tl Hr Ha Hf; (destruct fuel as [|fuel]; [simpl in Hf; lia|]); simpl.
  - rewrite Nat.add_0_r. destruct (Z.ltb_spec 0 (Z.of_nat (length a))); [|done].
    rewrite get_app by done. simpl. destruct Ha as [->| ->]; [simpl in *; lia|done].
  - rewrite length_app in *. simpl in *. rewrite (proj2 (Z.ltb_lt _ _)) by lia.
    replace (a ++ c :: (r ++ [z]) ++ tl) with ((a ++ [c] ++ r) ++ z :: tl) by (rewrite <- !app_assoc; done).
    rewrite get_app by (rewrite !length_app; simpl; lia). simpl.
    apply Forall_app in Hr as [Hr Hz]. inversion Hz as [|? ? Hz' _]; subst. rewrite Hz'.
    replace (Z.of_nat (length a + (length r + 1)) - 1) with (Z.of_nat (length a + length r)) by lia.
    replace ((a ++ c :: r) ++ z :: tl) with (a ++ [c] ++ r ++ (z :: tl)) by (rewrite <- !app_assoc; done).
    apply IH; [done|done|lia].
Qed.

(** The common end of [sdstrim] and [sdsrange]: the slice [m] of
    [l ++ m ++ r] moved to the front and terminated. *)
Lemma slice_ok l m r rest (n sp : Z) : n = Z.of_nat (length m) -> (sp = Z.of_nat (length l) \/ m = [] /\ 0 <= sp <= Z.of_nat (length (l ++ m ++ r))) ->
  Z.of_nat (length (l ++ m ++ r) + length rest) < 2 ^ 31 ->
  exists b', (b ← (if negb (sp =? 0) then memmove ((l ++ m ++ r) ++ 0 :: rest) 0 sp n else Some ((l ++ m ++ r) ++ 0 :: rest));
              write b n [0]) = Some b' /\
    rep (mk_sds (to_signed 32 n) (to_signed 32 (Z.of_nat (length rest) + (Z.of_nat (length (l ++ m ++ r)) - n))) b') m.
Proof.
  intros -> Hsp Hmax.
  assert (Hmv : exists x tl, (if negb (sp =? 0) then memmove ((l ++ m ++ r) ++ 0 :: rest) 0 sp (Z.of_nat (length m))
      else Some ((l ++ m ++ r) ++ 0 :: rest)) = Some (m ++ x :: tl) /\ length tl = (length l + length r + length rest)%nat).
  { assert (Hne : forall k : list Z, (0 < length k)%nat -> exists x tl, k = x :: tl) by (intros [|x tl] Hk; [simpl in Hk; lia|eauto]).
    assert (Hx : forall full, full = m ++ drop (length m) full -> length full = length ((l ++ m ++ r) ++ 0 :: rest) ->
      exists x tl, Some full = Some (m ++ x :: tl) /\ length tl = (length l + length r + length rest)%nat).
    { intros full E Hlen. rewrite !length_app in Hlen. simpl in Hlen.
      destruct (Hne (drop (length m) full)) as (x & tl & Etl); [rewrite length_drop; lia|].
      exists x, tl. rewrite E, Etl. split; [done|]. apply (f_equal length) in Etl. rewrite length_drop in Etl. simpl in Etl. lia. }
    destruct Hsp as [-> | [-> Hsp]].
    - destruct (Z.eqb_spec (Z.of_nat (length l)) 0) as [E|E]; simpl.
      + apply Hx; [|done]. destruct l; [|simpl in E; lia]. simpl. by rewrite <- app_assoc, drop_app_length.
      + rewrite <- !app_assoc. rewrite (memmove_down [] l m (r ++ 0 :: rest)) by (simpl; lia). simpl.
        apply Hx; [by rewrite drop_app_length|]. rewrite !length_app, length_drop, !length_app. simpl. lia.
    - assert (Hm0 : memmove ((l ++ [] ++ r) ++ 0 :: rest) 0 sp 0 = Some ((l ++ [] ++ r) ++ 0 :: rest)).
      { unfold memmove, read. simpl in *.
        rewrite (proj2 (Z.leb_le 0 sp)), (proj2 (Z.leb_le (sp + 0) _)) by (rewrite ?length_app in *; simpl in *; rewrite ?length_app in *; lia).
        change (Z.to_nat 0) with O. rewrite take_0. simpl. unfold write. change (length []) with O.
        rewrite (proj2 (Z.leb_le (0 + _) _)) by (simpl; lia). done. }
      simpl length. change (Z.of_nat 0) with 0. rewrite Hm0. destruct (negb (sp =? 0)); apply Hx; done. }
  destruct Hmv as (x & tl & -> & Htl). cbn [mbind option_bind].
  rewrite (write_at _ m [x] [0] tl) by done. eexists. split; [done|]. exists tl. rewrite !length_app in *.
  rewrite !int_id by lia. split; [f_equal; lia|lia].
Qed.

(** Where the two loops of [sdstrim] stop. *)
Lemma trim_bounds cset fuel l m r rest : (length (l ++ m ++ r) < fuel)%nat ->
  Forall (fun c => strchr cset c = true) l -> Forall (fun c => strchr cset c = true) r ->
  (forall c m', m = c :: m' -> strchr cset c = false) -> (forall c m', m = m' ++ [c] -> strchr cset c = false) ->
  exists sp ep,
      trim_left fuel ((l ++ m ++ r) ++ 0 :: rest) cset 0 (Z.of_nat (length (l ++ m ++ r)) - 1) = Some sp /\
      trim_right fuel ((l ++ m ++ r) ++ 0 :: rest) cset (Z.of_nat (length (l ++ m ++ r)) - 1) 0 = Some ep /\
      (if ep <? sp then 0 else ep - sp + 1) = Z.of_nat (length m) /\
      (sp = Z.of_nat (length l) \/ m = [] /\ 0 <= sp <= Z.of_nat (length (l ++ m ++ r))).
Proof.
  intros Hfuel Hl Hr Hhd Hlast.
  destruct m as [|c0 m0].
  - assert (Hlr : Forall (fun c => strchr cset c = true) (l ++ r)) by (by apply Forall_app).
    change (l ++ [] ++ r) with (l ++ r) in *. exists (Z.of_nat (length (l ++ r))).
    pose proof (trim_left_ok cset (l ++ r) fuel [] [] Hlr ltac:(done) Hfuel (0 :: rest)) as HL.
    cbn [app length] in HL. rewrite Nat.add_0_r in HL. cbn [Nat.add] in HL. change (Z.of_nat 0) with 0 in HL. rewrite HL.
    destruct (l ++ r) as [|c k] eqn:E.
    + exists (-1). destruct fuel; [simpl in Hfuel; lia|]. split; [done|]. split; [done|]. split; [done|]. right. split; [done|simpl; lia].
    + exists 0. split; [done|]. inversion Hlr; subst.
      pose proof (trim_right_ok cset k fuel [] c (0 :: rest) ltac:(done) ltac:(by left) ltac:(simpl in Hfuel; lia)) as HR.
      cbn [app length Nat.add] in HR.
      replace (Z.of_nat (length (c :: k)) - 1) with (Z.of_nat (length k)) by (simpl; lia).
      split; [exact HR|]. simpl. split; [done|]. right. split; [done|lia].
  - exists (Z.of_nat (length l)).
    destruct (exists_last (l := c0 :: m0) ltac:(done)) as (a & c & Em). rewrite Em in *.
    exists (Z.of_nat (length (l ++ a))). rewrite !length_app in Hfuel. simpl in Hfuel.
    pose proof (trim_left_ok cset l fuel [] ((a ++ [c]) ++ r) Hl) as HL. cbn [app length Nat.add] in HL.
    split.
    { rewrite <- (app_assoc l), length_app. apply HL; [|lia].
      intros c1 x' E. destruct a as [|a0 a]; simpl in *; injection E as <- _; eapply Hhd; done. }
    pose proof (trim_right_ok cset r fuel (l ++ a) c (0 :: rest) Hr) as HR.
    split.
    { replace ((l ++ (a ++ [c]) ++ r) ++ 0 :: rest) with ((l ++ a) ++ [c] ++ r ++ 0 :: rest) by (rewrite <- !app_assoc; done).
      replace (Z.of_nat (length (l ++ (a ++ [c]) ++ r)) - 1) with (Z.of_nat (length (l ++ a) + length r))
        by (rewrite !length_app; simpl; lia).
      apply HR; [right; by eapply Hlast|lia]. }
    rewrite !length_app. simpl. rewrite (proj2 (Z.ltb_ge _ _)) by lia. split; [lia|by left].
Qed.

Lemma trim_ok s l m r cset : rep s (l ++ m ++ r) ->
  Forall (fun c => strchr cset c = true) l -> Forall (fun c => strchr cset c = true) r ->
  (forall c m', m = c :: m' -> strchr cset c = false) -> (forall c m', m = m' ++ [c] -> strchr cset c = false) ->
  exists s', sdstrim s cset = Some s' /\ rep s' m.
Proof.
  intros Hrep Hl Hr Hhd Hlast. unfold sdstrim. rewrite (rep_len _ _ Hrep). destruct Hrep as (rest & -> & Hb).
  cbn [buf len free app].
  set (fuel := S (length ((l ++ m ++ r) ++ 0 :: rest))).
  assert (Hfuel : (length (l ++ m ++ r) < fuel)%nat) by (unfold fuel; rewrite (length_app _ (0 :: _)); simpl; lia).
  destruct (trim_bounds cset fuel l m r rest Hfuel Hl Hr Hhd Hlast) as (sp & ep & -> & -> & Hn & Hsp). cbn [mbind option_bind]. rewrite Hn.
  destruct (slice_ok l m r rest _ sp eq_refl Hsp Hb) as (b' & Hb' & Hr').
  destruct (if negb (sp =? 0) then _ else _) as [b|]; [|done]. cbn [mbind option_bind] in *. rewrite Hb'. 
  cbn [mbind option_bind]. eexists. split; done.
Qed.

(** The bounds [sdsrange] works with, for a string of [n] bytes. *)
Definition norm (n x : Z) : Z := if x <? 0 then Z.max 0 (n + x) else x.

Definition slice (st : list Z) (start end_ : Z) : list Z :=
  let n := Z.of_nat (length st) in
  let start := norm n start in
  let end_ := norm n end_ in
  if end_ <? start then []
  else
    let start := Z.min start (n - 1) in
    let end_ := Z.min end_ (n - 1) in
    take (Z.to_nat (end_ - start + 1)) (drop (Z.to_nat start) st).

Lemma range_ok s st start end_ : rep s st -> in_s 32 start -> in_s 32 end_ ->
  exists s', sdsrange s start end_ = Some s' /\ rep s' (slice st start end_).
Proof.
  intros Hrep Hs He. unfold sdsrange. rewrite (rep_len _ _ Hrep). unfold in_s in *. change (32 - 1) with 31 in *.
  destruct (Z.eqb_spec (Z.of_nat (length st)) 0) as [E0|E0].
  { exists s. split; [done|]. destruct st; [|simpl in E0; lia]. unfold slice. rewrite drop_nil, take_nil. by destruct (_ <? _). }
  destruct Hrep as (rest & -> & Hb). cbn [buf len free].
  set (n := Z.of_nat (length st)) in *.
  assert (Hclip : forall x, - 2 ^ 31 <= x < 2 ^ 31 ->
    (if x <? 0 then if to_signed 32 (n + x) <? 0 then 0 else to_signed 32 (n + x) else x) = norm n x).
  { intros x Hx. unfold norm. destruct (Z.ltb_spec x 0); [|done].
    rewrite to_signed_id by (unfold in_s; change (32 - 1) with 31; lia). destruct (Z.ltb_spec (n + x) 0); lia. }
  rewrite !Hclip by lia. unfold slice. fold n.
  assert (Hns : 0 <= norm n start < 2 ^ 31) by (unfold norm; destruct (Z.ltb_spec start 0); lia).
  assert (Hne : 0 <= norm n end_ < 2 ^ 31) by (unfold norm; destruct (Z.ltb_spec end_ 0); lia).
  clear Hclip. revert Hns Hne. generalize (norm n start) (norm n end_). intros a b Ha Hbb.
  assert (Hfin : forall l m r sp, st = l ++ m ++ r -> (sp = Z.of_nat (length l) \/ m = [] /\ sp = 0) ->
    exists s', (b0 ← (if negb (sp =? 0) then memmove (st ++ [0] ++ rest) 0 sp (Z.of_nat (length m)) else Some (st ++ [0] ++ rest));
      b1 ← write b0 (Z.of_nat (length m)) [0];
      Some (mk_sds (to_signed 32 (Z.of_nat (length m))) (to_signed 32 (Z.of_nat (length rest) + (n - Z.of_nat (length m)))) b1))
      = Some s' /\ rep s' m).
  { intros l m r sp E Hsp. destruct (slice_ok l m r rest _ sp eq_refl) as (b' & Hb' & Hr').
    - destruct Hsp as [|[? ->]]; [by left|right; split; [done|lia]].
    - by rewrite <- E.
    - rewrite <- E in *. fold n in Hr'. cbn [app].
      destruct (if negb (sp =? 0) then _ else _) as [b0|]; [|done]. cbn [mbind option_bind] in *. rewrite Hb'. eexists. by split. }
  destruct (Z.ltb_spec b a) as [Hlt|Hge].
  - cbn [negb Z.eqb]. apply (Hfin [] [] st 0); [done|by left].
  - assert (Hspan : (wrapu 32 (to_signed 32 (b - a + 1)) =? 0) = false).
    { apply Z.eqb_neq. destruct (decide (b - a + 1 < 2 ^ 31)) as [Hsm|Hbig].
      - rewrite int_id by lia. rewrite wrapu_id by (unfold in_u; lia). lia.
      - assert (a = 0 /\ b = 2 ^ 31 - 1) as [-> ->] by lia. done. }
    rewrite Hspan. cbn [negb]. rewrite (int_id n), (int_id (n - 1)) by lia.
    assert (Hmin : forall x, (if n <=? x then n - 1 else x) = Z.min x (n - 1)) by (intros x; destruct (Z.leb_spec n x); lia).
    rewrite !Hmin. set (a' := Z.min a (n - 1)). set (b' := Z.min b (n - 1)).
    rewrite (proj2 (Z.ltb_ge b' a')) by lia. rewrite (int_id (b' - a' + 1)) by lia. rewrite (wrapu_id 32 (b' - a' + 1)) by (unfold in_u; lia).
    set (m := take (Z.to_nat (b' - a' + 1)) (drop (Z.to_nat a') st)).
    assert (Hm : Z.of_nat (length m) = b' - a' + 1) by (unfold m; rewrite length_take, length_drop; lia).
    rewrite <- Hm.
    apply (Hfin (take (Z.to_nat a') st) m (drop (Z.to_nat (b' - a' + 1)) (drop (Z.to_nat a') st)) a').
    + unfold m. by rewrite !take_drop.
    + left. rewrite length_take. lia.
Qed.

Lemma map_loop_ok f : forall b pre tl, map_loop f (length b) (pre ++ b ++ tl) (Z.of_nat (length pre)) = Some (pre ++ map f b ++ tl).
Proof.
  induction b as [|c b IH]; intros pre tl; [done|]. cbn [length map_loop app]. rewrite get_app by done. cbn [mbind option_bind].
  rewrite (write_at _ pre [c] [f c] (b ++ tl)) by done. cbn [mbind option_bind app].
  specialize (IH (pre ++ [f c]) tl). rewrite length_app in IH. simpl in IH. rewrite <- !app_assoc in IH. simpl in IH.
  replace (Z.of_nat (length pre) + 1) with (Z.of_nat (length pre + 1)) by lia. exact IH.
Qed.

Lemma map_ok f s st : rep s st ->
  exists b, map_loop f (Z.to_nat (to_signed 32 (sdslen s))) (buf s) 0 = Some b /\ rep (mk_sds (len s) (free s) b) (map f st).
Proof.
  intros Hrep. rewrite (rep_len _ _ Hrep). destruct Hrep as (rest & -> & Hb). rewrite int_id by lia. rewrite Nat2Z.id. cbn [buf len free].
  pose proof (map_loop_ok f st [] ([0] ++ rest)) as Hm. cbn [app length] in Hm. change (Z.of_nat 0) with 0 in Hm.
  cbn [app]. rewrite Hm. eexists. split; [done|]. exists rest. by rewrite length_map.
Qed.

(** Lexicographic order of byte strings, a prefix first. *)
Fixpoint lex (a b : list Z) : Z :=
  match a, b with
  | [], [] => 0
  | [], _ => -1
  | _, [] => 1
  | x :: a', y :: b' => if x =? y then lex a' b' else if x <? y then -1 else 1
  end.

Lemma lex_memcmp a : forall b, let n := Nat.min (length a) (length b) in
  lex a b = if memcmp (take n a) (take n b) =? 0 then Z.sgn (Z.of_nat (length a) - Z.of_nat (length b)) else memcmp (take n a) (take n b).
Proof.
  induction a as [|x a IH]; intros [|y b]; simpl; [done|by destruct (length b)|done|].
  destruct (Z.eqb_spec x y); [|destruct (x <? y); done]. rewrite IH. simpl. destruct (_ =? 0); [|done]. f_equal. lia.
Qed.

Lemma memcmp_sgn a : forall b, Z.sgn (memcmp a b) = memcmp a b.
Proof. induction a as [|x a IH]; intros [|y b]; simpl; [done..|]. destruct (x =? y); [done|by destruct (x <? y)]. Qed.

Lemma cmp_ok s1 s2 st1 st2 : rep s1 st1 -> rep s2 st2 -> exists r, sdscmp s1 s2 = Some r /\ Z.sgn r = lex st1 st2.
Proof.
  intros H1 H2. unfold sdscmp. rewrite (rep_len _ _ H1), (rep_len _ _ H2).
  destruct H1 as (r1 & -> & Hb1), H2 as (r2 & -> & Hb2). cbn [buf].
  set (n := Nat.min (length st1) (length st2)).
  assert (Hmin : (if Z.of_nat (length st1) <? Z.of_nat (length st2) then Z.of_nat (length st1) else Z.of_nat (length st2)) = Z.of_nat n)
    by (destruct (Z.ltb_spec (Z.of_nat (length st1)) (Z.of_nat (length st2))); lia).
  rewrite Hmin, !read_prefix by (rewrite length_app; lia). cbn [mbind option_bind]. rewrite Nat2Z.id, !take_app_le by lia.
  rewrite (lex_memcmp st1 st2). fold n. destruct (memcmp _ _ =? 0).
  - eexists. split; [done|]. rewrite to_signed_id by (try unfold in_s; change (32 - 1) with 31; lia). done.
  - eexists. split; [done|]. apply memcmp_sgn.
Qed.

(** [sdstrim] removes exactly the leading and trailing bytes of the set,
    [sdsrange] keeps the bytes between its two normalised bounds, and the case
    conversions map every byte, in place. *)
Theorem sds_slices s st :
  rep s st ->
  (forall l m r cset, st = l ++ m ++ r ->
     Forall (fun c => strchr cset c = true) l -> Forall (fun c => strchr cset c = true) r ->
     (forall c m', m = c :: m' -> strchr cset c = false) -> (forall c m', m = m' ++ [c] -> strchr cset c = false) ->
     exists s', sdstrim s cset = Some s' /\ rep s' m) /\
  (forall start end_, in_s 32 start -> in_s 32 end_ ->
     exists s', sdsrange s start end_ = Some s' /\ rep s' (slice st start end_)) /\
  (exists s', sdstolower s = Some s' /\ rep s' (map tolower st)) /\
  (exists s', sdstoupper s = Some s' /\ rep s' (map toupper st)).
Proof.
  intros Hrep. split; [|split; [|split]].
  - intros l m r cset ->. by apply trim_ok.
  - intros. by apply range_ok.
  - unfold sdstolower. destruct (map_ok tolower s st Hrep) as (b & -> & Hr). eexists. by split.
  - unfold sdstoupper. destruct (map_ok toupper s st Hrep) as (b & -> & Hr). eexists. by split.
Qed.

(** A range that starts past the end of the string is not empty: it is the
    last byte. *)
Theorem sdsrange_past_end s st c start end_ : rep s (st ++ [c]) ->
  Z.of_nat (length st) < start <= end_ -> end_ < 2 ^ 31 ->
  exists s', sdsrange s start end_ = Some s' /\ rep s' [c].
Proof.
  intros Hrep Hs He. destruct (range_ok s (st ++ [c]) start end_ Hrep) as (s' & Hr & Hrep').
  1,2: unfold in_s; change (32 - 1) with 31; lia.
  exists s'. split; [done|]. unfold slice, norm in Hrep'. rewrite length_app in Hrep'. simpl in Hrep'.
  rewrite (proj2 (Z.ltb_ge start 0)), (proj2 (Z.ltb_ge end_ 0)), (proj2 (Z.ltb_ge end_ start)) in Hrep' by lia.
  replace (Z.min start _) with (Z.of_nat (length st)) in Hrep' by lia.
  replace (Z.min end_ _) with (Z.of_nat (length st)) in Hrep' by lia.
  rewrite Nat2Z.id, drop_app_length in Hrep'. replace (_ - _ + 1) with 1 in Hrep' by lia. done.
Qed.

(** [sdscmp] orders strings lexicographically, a proper prefix first. *)
Theorem sdscmp_lex s1 s2 st1 st2 : rep s1 st1 -> rep s2 st2 ->
  exists r, sdscmp s1 s2 = Some r /\ Z.sgn r = lex st1 st2 /\ (r = 0 <-> st1 = st2).
Proof.
  intros H1 H2. destruct (cmp_ok s1 s2 st1 st2 H1 H2) as (r & Hr & Hs). exists r. split; [done|]. split; [done|].
  rewrite <- Z.sgn_null_iff, Hs. clear. revert st2. induction st1 as [|x a IH]; intros [|y b]; simpl; [done..|].
  destruct (Z.eqb_spec x y) as [->|]; [rewrite IH; split; [by intros ->|by intros [=]]|].
  destruct (x <? y); split; try done; by intros [=].
Qed.

(** ** Splitting *)

Definition occurs (sep s : list Z) (i : nat) : Prop := take (length sep) (drop i s) = sep.

(** Cutting [s] at the leftmost separators, from left to right. *)
Inductive splits (sep : list Z) : list Z -> list (list Z) -> Prop :=
  | split_last s : (forall i, ~ occurs sep s i) -> splits sep s [s]
  | split_more tok rest ts : (forall i, (i < length tok)%nat -> ~ occurs sep (tok ++ sep ++ rest) i) ->
      splits sep rest ts -> splits sep (tok ++ sep ++ rest) (tok :: ts).

Fixpoint join (sep : list Z) (ts : list (list Z)) : list Z :=
  match ts with [] => [] | [t] => t | t :: ts' => t ++ sep ++ join sep ts' end.

Lemma splits_join sep s ts : splits sep s ts -> join sep ts = s.
Proof.
  induction 1 as [|tok rest ts _ Hs IH]; [done|]. destruct ts as [|t ts]; [by inversion Hs|].
  change (join sep (tok :: t :: ts)) with (tok ++ sep ++ join sep (t :: ts)). by rewrite IH.
Qed.

(** The test of the separator at [j]. *)
Lemma hit_ok s sep j : (1 <= length sep)%nat -> (Z.to_nat j + length sep <= length s)%nat -> 0 <= j ->
  exists hit : bool, (c ← get s j; c0 ← get sep 0;
    (if (Z.of_nat (length sep) =? 1) && (c =? c0) then Some true
     else a ← read s j (Z.of_nat (length sep)); b ← read sep 0 (Z.of_nat (length sep)); Some (memcmp a b =? 0))) = Some hit /\
    (hit = true <-> occurs sep s (Z.to_nat j)).
Proof.
  intros Hsep Hle Hj. set (a := take (length sep) (drop (Z.to_nat j) s)).
  assert (Ha : length a = length sep) by (unfold a; rewrite length_take, length_drop; lia).
  assert (Hread : read s j (Z.of_nat (length sep)) = Some a).
  { unfold read. rewrite (proj2 (Z.leb_le 0 j)), (proj2 (Z.leb_le 0 (Z.of_nat _))), (proj2 (Z.leb_le (j + _) _)) by lia. simpl. by rewrite Nat2Z.id. }
  destruct (lookup_lt_is_Some_2 s (Z.to_nat j)) as [c Hc]; [lia|].
  unfold get. rewrite (proj2 (Z.ltb_ge j 0)) by lia. rewrite Hc. cbn [mbind option_bind].
  destruct sep as [|c0 sep'] eqn:Esep; [simpl in *; lia|]. rewrite <- Esep in *. change (0 <? 0) with false. cbv iota.
  replace (sep !! Z.to_nat 0) with (Some c0) by (by rewrite Esep). cbn [mbind option_bind].
  rewrite Hread, read_prefix by lia. cbn [mbind option_bind]. rewrite Nat2Z.id, firstn_all.
  pose proof (memcmp_eq a sep Ha) as Heq. unfold occurs. fold a.
  destruct ((Z.of_nat (length sep) =? 1) && (c =? c0)) eqn:E.
  - eexists. split; [done|]. split; [|done]. intros _. bsimp. unfold a. rewrite (drop_S _ _ _ Hc).
    destruct sep' as [|]; [|simpl in *; lia]. by simpl.
  - eexists. split; [done|]. rewrite Z.eqb_eq, Heq. unfold a. by rewrite <- Esep.
Qed.

Lemma split_loop_ok s sep : (1 <= length sep)%nat -> Z.of_nat (length s) < 2 ^ 31 ->
  forall fuel slots toks start j, (start <= j <= length s)%nat -> (length s - j < fuel)%nat ->
  (forall i, (start <= i < j)%nat -> ~ occurs sep s i) -> 5 <= slots -> Z.of_nat (length toks) < slots ->
  exists slots' toks' start' ts,
    split_loop fuel s (Z.of_nat (length s)) sep (Z.of_nat (length sep)) slots toks (Z.of_nat start) (Z.of_nat j)
      = Some (slots', toks ++ toks', Z.of_nat start') /\
    Z.of_nat (length (toks ++ toks')) < slots' /\ (start' <= length s)%nat /\
    Forall2 rep toks' ts /\ splits sep (drop start s) (ts ++ [drop start' s]).
Proof.
  intros Hsep Hmax. induction fuel as [|fuel IH]; intros slots toks start j Hj Hf Hno Hsl Htk; [lia|]. cbn [split_loop].
  destruct (Z.ltb_spec (Z.of_nat j) (Z.of_nat (length s) - (Z.of_nat (length sep) - 1))) as [Hlt|Hge].
  2:{ exists slots, [], start, []. rewrite app_nil_r. split; [done|]. split; [done|]. split; [lia|]. split; [constructor|].
      simpl. constructor. intros i Ho. unfold occurs in Ho. rewrite drop_drop in Ho.
      destruct (decide (start + i < j)%nat) as [Hi|Hi]; [apply (Hno (start + i)%nat); [lia|done]|].
      apply (f_equal length) in Ho. rewrite length_take, length_drop in Ho. lia. }
  destruct (hit_ok s sep (Z.of_nat j)) as (hit & Hhit & Hocc); [done|lia|lia|]. rewrite Nat2Z.id in Hocc.
  destruct (get s (Z.of_nat j)) as [c|]; [|done]. cbn [mbind option_bind] in *.
  destruct (get sep 0) as [c0|]; [|done]. cbn [mbind option_bind] in *. rewrite Hhit. cbn [mbind option_bind].
  set (slots1 := if slots <? Z.of_nat (length toks) + 2 then slots * 2 else slots).
  assert (Hs1 : 5 <= slots1 /\ Z.of_nat (length toks) + 1 < slots1)
    by (unfold slots1; destruct (Z.ltb_spec slots (Z.of_nat (length toks) + 2)); lia).
  destruct hit.
  - assert (Ho : occurs sep s j) by (by apply Hocc). rewrite wrapu_id by (unfold in_u; lia). rewrite Nat2Z.id.
    destruct (newlen_ok (drop start s) (Z.of_nat j - Z.of_nat start)) as (t & -> & Ht); [lia|rewrite length_drop; lia|].
    cbn [mbind option_bind]. rewrite (proj2 (Z.leb_gt _ _)) by lia.
    replace (Z.of_nat j + Z.of_nat (length sep)) with (Z.of_nat (j + length sep)) by lia.
    replace (Z.of_nat (j + length sep) - 1 + 1) with (Z.of_nat (j + length sep)) by lia.
    destruct (IH slots1 (toks ++ [t]) (j + length sep)%nat (j + length sep)%nat) as (sl & tk & st & ts & -> & Hlen & Hst & Hrep & Hsp);
      [lia|lia|lia|lia|rewrite length_app; simpl; lia|].
    exists sl, (t :: tk), st, (take (Z.to_nat (Z.of_nat j - Z.of_nat start)) (drop start s) :: ts).
    rewrite <- app_assoc in *. split; [done|]. split; [done|]. split; [done|]. split; [by constructor|].
    replace (Z.to_nat (Z.of_nat j - Z.of_nat start)) with (j - start)%nat by lia. set (tok := take (j - start) (drop start s)).
    assert (Hcut : drop start s = tok ++ sep ++ drop (j + length sep) s).
    { assert (E1 : drop start s = tok ++ drop j s).
      { unfold tok. rewrite <- (take_drop (j - start) (drop start s)) at 1. rewrite drop_drop. do 2 f_equal. lia. }
      assert (E2 : drop j s = sep ++ drop (j + length sep) s).
      { rewrite <- (take_drop (length sep) (drop j s)) at 1. rewrite drop_drop. unfold occurs in Ho. by rewrite Ho. }
      by rewrite E1, E2. }
    rewrite Hcut. simpl. constructor; [|done]. intros i Hi Hoc. rewrite <- Hcut in Hoc.
    unfold tok in Hi. rewrite length_take, length_drop in Hi.
    apply (Hno (start + i)%nat); [lia|]. unfold occurs in *. by rewrite drop_drop in Hoc.
  - replace (Z.of_nat j + 1) with (Z.of_nat (S j)) by lia.
    destruct (IH slots1 toks start (S j)) as (sl & tk & st & ts & Hrun); [lia|lia| |lia|lia|by exists sl, tk, st, ts].
    intros i Hi. destruct (decide (i = j)) as [->|]; [|apply Hno; lia]. intros Ho. apply Hocc in Ho. done.
Qed.

(** [sdssplitlen] cuts a non-empty string at the leftmost occurrences of
    the separator: it returns, never storing past the token array it grows, and
    joining the tokens with the separator gives the string back. *)
Theorem sdssplitlen_splits s sep : (1 <= length sep)%nat -> 0 < Z.of_nat (length s) < 2 ^ 31 ->
  exists toks ts, sdssplitlen s (Z.of_nat (length s)) sep (Z.of_nat (length sep)) = Some (Some toks) /\
    Forall2 rep toks ts /\ splits sep s ts /\ join sep ts = s.
Proof.
  intros Hsep Hs. unfold sdssplitlen.
  rewrite (proj2 (Z.ltb_ge _ 1)), (proj2 (Z.ltb_ge _ 0)), (proj2 (Z.eqb_neq _ _)) by lia. cbn [orb].
  destruct (split_loop_ok s sep Hsep ltac:(lia) (S (Z.to_nat (Z.of_nat (length s)))) 5 [] 0 0) as (sl & tk & st & ts & Hrun & Hlen & Hst & Hrep & Hsp);
    [lia|lia|lia|lia|done|].
  change (Z.of_nat 0) with 0 in Hrun. rewrite Hrun. cbn [mbind option_bind app]. rewrite wrapu_id by (unfold in_u; lia). rewrite Nat2Z.id.
  destruct (newlen_ok (drop st s) (Z.of_nat (length s) - Z.of_nat st)) as (t & -> & Ht); [lia|rewrite length_drop; lia|].
  cbn [mbind option_bind]. rewrite (proj2 (Z.leb_gt _ _)) by done.
  exists (tk ++ [t]), (ts ++ [drop st s]). rewrite take_ge in Ht by (rewrite length_drop; lia).
  rewrite drop_0 in Hsp. split; [done|]. split; [by apply Forall2_app; [|constructor]|]. split; [done|]. by apply splits_join.
Qed.

(** ** Decimal conversion *)

Definition decval (ds : list Z) : Z := fold_left (fun a c => 10 * a + (c - 48)) ds 0.

Definition digit (c : Z) : Prop := 48 <= c <= 57.

(** The integer a decimal string stands for. *)
Definition decimal (st : list Z) : Z :=
  match st with c :: ds => if c =? 45 then - decval ds else decval st | [] => 0 end.

Lemma decval_snoc ds c : decval (ds ++ [c]) = 10 * decval ds + (c - 48).
Proof. unfold decval. by rewrite fold_left_app. Qed.

(** The digits the loop writes. *)
Fixpoint digs (fuel : nat) (v : Z) : list Z :=
  match fuel with
  | O => []
  | S fuel' => (if v / 10 =? 0 then [] else digs fuel' (v / 10)) ++ [48 + v mod 10]
  end.

Lemma digits_loop_ok fuel : forall pre post v, 0 <= v < 10 ^ Z.of_nat fuel -> (fuel <= length pre)%nat -> (0 < fuel)%nat ->
  exists pre' ds, digits_loop fuel (pre ++ post) (Z.of_nat (length pre) - 1) v = Some (pre' ++ ds ++ post, Z.of_nat (length pre') - 1) /\
    length pre = (length pre' + length ds)%nat /\ (0 < length ds <= fuel)%nat /\ Forall digit ds /\ decval ds = v /\
    ds = digs fuel v.
Proof.
  induction fuel as [|fuel IH]; intros pre post v Hv Hl Hp; [lia|].
  destruct (exists_last (l := pre)) as (pre0 & x & ->); [intros ->; simpl in Hl; lia|].
  rewrite length_app in *. simpl in *. pose proof (Z.mod_pos_bound v 10 ltac:(lia)) as Hmod.
  rewrite (write_at _ pre0 [x] [48 + v mod 10] post); [|by rewrite <- app_assoc|lia|done]. cbn [mbind option_bind].
  pose proof (Z.div_mod v 10 ltac:(lia)) as Hdm.
  destruct (Z.eqb_spec (v / 10) 0) as [E|E].
  - exists pre0, [48 + v mod 10]. split; [repeat f_equal; lia|]. split; [simpl; lia|]. split; [simpl; lia|].
    split; [constructor; [unfold digit; lia|constructor]|]. split; [unfold decval; simpl; lia|].
    done.
  - assert (Hr : 0 <= v / 10 < 10 ^ Z.of_nat fuel).
    { rewrite Nat2Z.inj_succ, Z.pow_succ_r in Hv by lia. split; [apply Z.div_pos; lia|]. apply Z.div_lt_upper_bound; lia. }
    destruct fuel as [|fuel]; [simpl in Hr; lia|].
    destruct (IH pre0 ([48 + v mod 10] ++ post) (v / 10) Hr) as (pre' & ds & Hrun & Hlen & Hds & Hdig & Hval & Edig); [lia|lia|].
    replace (Z.of_nat (length pre0 + 1) - 1 - 1) with (Z.of_nat (length pre0) - 1) by lia. rewrite Hrun.
    exists pre', (ds ++ [48 + v mod 10]). rewrite length_app. simpl. split; [by rewrite <- !app_assoc|].
    split; [lia|]. split; [lia|]. split; [apply Forall_app; split; [done|]; constructor; [unfold digit; lia|constructor]|].
    split; [rewrite decval_snoc, Hval; lia|]. by rewrite Edig.
Qed.

(** [sdsfromlonglong] is right inverse to reading a decimal number, for
    every [long long], the least one included. *)
Theorem sdsfromlonglong_decimal value : in_s 64 value ->
  exists s st, sdsfromlonglong value = Some s /\ rep s st /\ decimal st = value.
Proof.
  intros Hv. unfold in_s in Hv. change (64 - 1) with 63 in Hv. unfold sdsfromlonglong.
  set (v := if value <? 0 then wrapu 64 (- value) else value).
  assert (Hvabs : v = Z.abs value).
  { unfold v. destruct (Z.ltb_spec value 0); [rewrite wrapu_id by (unfold in_u; lia)|]; lia. }
  destruct (digits_loop_ok 20 (replicate 32 junk) [] v) as (pre & ds & Hrun & Hlen & Hds & Hdig & Hval & _);
    [change (10 ^ Z.of_nat 20) with (10 ^ 20); lia|rewrite length_replicate; lia|lia|].
  rewrite length_replicate in *. rewrite !app_nil_r in Hrun. change (Z.of_nat 32 - 1) with 31 in Hrun.
  rewrite Hrun. clear Hrun. cbn [mbind option_bind].
  assert (Hds0 : forall c d', ds = c :: d' -> c <> 45).
  { intros c d' ->. inversion Hdig as [|? ? Hc _]; subst. unfold digit in Hc. lia. }
  destruct (Z.ltb_spec value 0) as [Hneg|Hpos].
  - destruct (exists_last (l := pre)) as (pre0 & x & ->); [intros ->; simpl in *; lia|]. rewrite length_app in *. simpl in *.
    rewrite (write_at _ pre0 [x] [45] ds); [|by rewrite <- app_assoc|lia|done]. cbn [mbind option_bind].
    replace (Z.to_nat (Z.of_nat (length pre0 + 1) - 1 - 1 + 1)) with (length pre0) by lia. rewrite drop_app_length.
    destruct (newlen_ok ([45] ++ ds) (32 - (Z.of_nat (length pre0 + 1) - 1 - 1 + 1))) as (s & -> & Hr); [lia|simpl; lia|].
    rewrite take_ge in Hr by (simpl; lia). eexists _, _. split; [done|]. split; [exact Hr|]. simpl. lia.
  - cbn [mbind option_bind]. replace (Z.to_nat (Z.of_nat (length pre) - 1 + 1)) with (length pre) by lia. rewrite drop_app_length.
    destruct (newlen_ok ds (32 - (Z.of_nat (length pre) - 1 + 1))) as (s & -> & Hr); [lia|lia|].
    rewrite take_ge in Hr by lia. eexists _, _. split; [done|]. split; [exact Hr|]. unfold decimal.
    destruct ds as [|c d']; [simpl in Hds; lia|]. pose proof (Hds0 c d' eq_refl).
    rewrite (proj2 (Z.eqb_neq _ _)) by done. lia.
Qed.

(** ** Quoting *)

Lemma printf_loop_ok txt : 0 ∉ txt -> Z.of_nat (length txt) < 2 ^ 30 ->
  forall fuel buflen, 16 <= buflen -> Z.of_nat (length txt) + 2 < buflen + Z.of_nat fuel -> (0 < fuel)%nat ->
  exists rest, printf_loop fuel buflen txt = Some (txt ++ 0 :: rest).
Proof.
  intros Hz Hmax. induction fuel as [|fuel IH]; intros buflen Hb Hf Hp; [lia|]. simpl.
  replace (Z.to_nat buflen) with (Z.to_nat (buflen - 2) + 2)%nat by lia. rewrite replicate_add.
  rewrite (write_at _ (replicate (Z.to_nat (buflen - 2)) junk) [junk] [0] [junk]); [|done|rewrite length_replicate; lia|done].
  cbn [mbind option_bind]. set (b := replicate (Z.to_nat (buflen - 2)) junk ++ [0] ++ [junk]).
  assert (Hbl : Z.of_nat (length b) = buflen) by (unfold b; rewrite length_app, length_replicate; simpl; lia).
  unfold vsnprintf. set (out := take (Z.to_nat (buflen - 1)) txt ++ [0]).
  assert (Hout : length out = (Nat.min (Z.to_nat (buflen - 1)) (length txt) + 1)%nat) by (unfold out; rewrite length_app, length_take; done).
  rewrite (write_at b [] (take (length out) b) out (drop (length out) b)); [|by rewrite take_drop|done|rewrite length_take; lia].
  cbn [mbind option_bind app]. destruct (decide (Z.of_nat (length txt) <= buflen - 2)) as [Hle|Hgt].
  - assert (Eo : out = txt ++ [0]) by (unfold out; rewrite take_ge by lia; done).
    assert (Hg : get (out ++ drop (length out) b) (buflen - 2) = Some 0).
    { unfold get. rewrite (proj2 (Z.ltb_ge _ _)) by lia. destruct (decide (Z.of_nat (length txt) = buflen - 2)) as [E|E].
      - rewrite Eo, <- app_assoc. replace (Z.to_nat (buflen - 2)) with (length txt) by lia. by apply list_lookup_middle.
      - rewrite lookup_app_r by lia. rewrite lookup_drop.
        replace (length out + (Z.to_nat (buflen - 2) - length out))%nat with (length (replicate (Z.to_nat (buflen - 2)) junk))
          by (rewrite length_replicate; lia).
        unfold b. by apply list_lookup_middle. }
    rewrite Hg. cbn [mbind option_bind Z.eqb negb]. exists (drop (length out) b). by rewrite Eo, <- app_assoc.
  - destruct (lookup_lt_is_Some_2 txt (Z.to_nat (buflen - 2))) as [c Hc]; [lia|].
    assert (Hg : get (out ++ drop (length out) b) (buflen - 2) = Some c).
    { unfold get. rewrite (proj2 (Z.ltb_ge _ _)) by lia. unfold out. rewrite <- app_assoc.
      rewrite lookup_app_l by (rewrite length_take; lia). by rewrite lookup_take_lt by lia. }
    rewrite Hg. cbn [mbind option_bind]. apply list_elem_of_lookup_2 in Hc. destruct (Z.eqb_spec c 0) as [->|]; [done|]. cbn [negb].
    rewrite wrapu_id by (unfold in_u; lia). apply IH; lia.
Qed.

Lemma catprintf_ok s st txt : rep s st -> 0 ∉ txt -> fits (Z.of_nat (length st) + Z.of_nat (length txt)) ->
  exists s', sdscatprintf s txt = Some s' /\ rep s' (st ++ txt).
Proof.
  intros Hrep Hz Hf. unfold sdscatprintf, fits in *.
  destruct (printf_loop_ok txt Hz ltac:(lia) (S (length txt)) 16) as (rest & ->); [lia|lia|lia|].
  cbn [mbind option_bind]. unfold sdscat. rewrite strlen_app by done. cbn [mbind option_bind].
  destruct (catlen_ok s st (txt ++ 0 :: rest) (Z.of_nat (length txt)) Hrep) as (s' & -> & Hr); [rewrite length_app; lia|done|].
  exists s'. split; [done|]. by rewrite Nat2Z.id, take_app_length in Hr.
Qed.

Definition printable (c : Z) : Prop := 32 <= c <= 126.
Definition esc (c : Z) : list Z := if (c =? 92) || (c =? 34) then [92; c] else [c].
Definition quote (st : list Z) : list Z := [34] ++ (st ≫= esc) ++ [34].

Lemma esc_length st : (length st <= length (st ≫= esc) <= 2 * length st)%nat.
Proof. induction st as [|c st IH]; [simpl; lia|]. rewrite bind_cons, length_app. cbn [length].
  assert (1 <= length (esc c) <= 2)%nat by (unfold esc; destruct (_ || _); simpl; lia). lia. Qed.

(** Appending one character of a literal. *)
Lemma cat1_ok s st c t : rep s st -> fits (Z.of_nat (length st) + 1) ->
  exists s', sdscatlen s (c :: t) 1 = Some s' /\ rep s' (st ++ [c]).
Proof. intros Hrep Hf. apply (catlen_ok s st (c :: t) 1 Hrep); [simpl; lia|done]. Qed.

Lemma repr_loop_ok p : forall s st, Forall printable p -> rep s st -> fits (Z.of_nat (length st + 2 * length p)) ->
  exists s', repr_loop s p = Some s' /\ rep s' (st ++ (p ≫= esc)).
Proof.
  induction p as [|c p IH]; intros s st Hp Hrep Hf; [exists s; simpl; by rewrite app_nil_r|].
  inversion Hp as [|? ? Hc Hp']; subst. unfold printable in Hc. unfold fits in Hf. simpl in Hf |- *.
  assert (Hne : forall k, k < 32 -> (c =? k) = false) by (intros; apply Z.eqb_neq; lia).
  rewrite (Hne 10), (Hne 13), (Hne 9), (Hne 7), (Hne 8) by lia. unfold isprint. rewrite (proj2 (Z.leb_le 32 c)), (proj2 (Z.leb_le c 126)) by lia. cbn [andb].
  assert (Hstep : exists s1, (if (c =? 92) || (c =? 34) then sdscatprintf s [92; c] else sdscatprintf s [c]) = Some s1 /\ rep s1 (st ++ esc c)).
  { unfold esc. destruct (_ || _); apply catprintf_ok; try done; unfold fits; simpl; try lia; intros Hin; set_unfold in Hin; lia. }
  destruct Hstep as (s1 & -> & Hr1). cbn [mbind option_bind].
  destruct (IH s1 (st ++ esc c) Hp' Hr1) as (s2 & -> & Hr2).
  - rewrite length_app. unfold fits, esc. destruct (_ || _); simpl; lia.
  - exists s2. split; [done|]. by rewrite <- app_assoc in Hr2.
Qed.

Lemma catrepr_ok s st p : rep s st -> Forall printable p -> fits (Z.of_nat (length st + 2 * length p + 2)) ->
  exists s', sdscatrepr s p (Z.of_nat (length p)) = Some s' /\ rep s' (st ++ quote p).
Proof.
  intros Hrep Hp Hf. unfold sdscatrepr, fits in *.
  destruct (cat1_ok s st 34 [0] Hrep) as (s1 & -> & Hr1); [unfold fits; lia|]. cbn [mbind option_bind].
  rewrite read_prefix by lia. cbn [mbind option_bind]. rewrite Nat2Z.id, take_ge by lia.
  destruct (repr_loop_ok p s1 _ Hp Hr1) as (s2 & -> & Hr2); [unfold fits; rewrite length_app; simpl; lia|]. cbn [mbind option_bind].
  pose proof (esc_length p).
  destruct (cat1_ok s2 _ 34 [0] Hr2) as (s3 & -> & Hr3); [unfold fits; rewrite !length_app; simpl; lia|].
  exists s3. split; [done|]. unfold quote. by rewrite !app_assoc.
Qed.

(** The token loop inside quotes reads an escaped string. *)
Lemma token_quoted st : forall line pre tl fuel cur cst, line = pre ++ (st ≫= esc) ++ tl ->
  Forall printable st -> rep cur cst -> fits (Z.of_nat (length cst + length st)) ->
  exists cur', rep cur' (cst ++ st) /\
    token_loop (length st + fuel) line (Z.of_nat (length pre)) true cur =
    token_loop fuel line (Z.of_nat (length pre + length (st ≫= esc))) true cur'.
Proof.
  induction st as [|c st IH]; intros line pre tl fuel cur cst El Hp Hrep Hf.
  { exists cur. rewrite app_nil_r. simpl. by rewrite Nat.add_0_r. }
  inversion Hp as [|? ? Hc Hp']; subst. unfold printable in Hc. unfold fits in Hf. simpl in Hf.
  set (line := pre ++ ((c :: st) ≫= esc) ++ tl).
  assert (El2 : line = (pre ++ esc c) ++ (st ≫= esc) ++ tl) by (unfold line; by rewrite bind_cons, <- !app_assoc).
  assert (Hcat : forall c1, exists cur1, sdscatlen cur [c1] 1 = Some cur1 /\ rep cur1 (cst ++ [c1]))
    by (intros; apply cat1_ok; [done|unfold fits; lia]).
  destruct (Hcat c) as (cur1 & Hc1 & Hr1).
  destruct (IH line (pre ++ esc c) tl fuel cur1 (cst ++ [c]) El2 Hp' Hr1) as (cur' & Hr' & Hrun);
    [unfold fits; rewrite length_app; simpl; lia|].
  exists cur'. rewrite <- app_assoc in Hr'. split; [done|].
  change (length (c :: st) + fuel)%nat with (S (length st + fuel)). rewrite bind_cons, length_app.
  rewrite length_app in Hrun. rewrite Nat.add_assoc, <- Hrun. cbn [token_loop].
  unfold esc in El2 |- *. destruct ((c =? 92) || (c =? 34)) eqn:E.
  - assert (Hg0 : get line (Z.of_nat (length pre)) = Some 92) by (rewrite El2; simpl; rewrite <- app_assoc; by apply get_app).
    assert (Hg1 : get line (Z.of_nat (length pre) + 1) = Some c).
    { rewrite El2. replace (pre ++ [92; c]) with ((pre ++ [92]) ++ [c]) by (by rewrite <- app_assoc).
      rewrite <- app_assoc. apply get_app. rewrite length_app. simpl. lia. }
    assert (Hun : unescape c = c) by (apply orb_true_iff in E as [->%Z.eqb_eq | ->%Z.eqb_eq]; done).
    rewrite Hg0. cbn [mbind option_bind Z.eqb Pos.eqb]. rewrite Hg1. cbn [mbind option_bind].
    rewrite (proj2 (Z.eqb_neq c 0)) by lia. cbn [mbind option_bind negb]. rewrite Hun, Hc1. cbn [mbind option_bind].
    f_equal. simpl. lia.
  - apply orb_false_iff in E as [E1 E2].
    assert (Hg0 : get line (Z.of_nat (length pre)) = Some c) by (rewrite El2; simpl; rewrite <- app_assoc; by apply get_app).
    rewrite Hg0. cbn [mbind option_bind]. rewrite E1. cbn [mbind option_bind]. rewrite E2, (proj2 (Z.eqb_neq c 0)), Hc1 by lia.
    cbn [mbind option_bind negb]. f_equal. simpl. lia.
Qed.

(** A quoted string followed by a blank or the end of the line is one token. *)
Lemma token_ok st line pre c1 tl fuel cur : line = pre ++ quote st ++ c1 :: tl -> c1 = 0 \/ c1 = 32 ->
  Forall printable st -> rep cur [] -> fits (Z.of_nat (length st)) -> (length st + 2 <= fuel)%nat ->
  exists cur', rep cur' st /\
    token_loop fuel line (Z.of_nat (length pre)) false cur = Some (Some (Z.of_nat (length (pre ++ quote st)), cur')).
Proof.
  intros El Hc1 Hp Hrep Hf Hfu. destruct fuel as [|fuel]; [lia|]. cbn [token_loop].
  assert (Hg : get line (Z.of_nat (length pre)) = Some 34) by (rewrite El; by apply get_app).
  rewrite Hg. cbn [mbind option_bind Z.eqb Pos.eqb orb negb].
  replace fuel with (length st + S (fuel - length st - 1))%nat by lia.
  destruct (token_quoted st line (pre ++ [34]) ([34] ++ c1 :: tl) (S (fuel - length st - 1)) cur []) as (cur' & Hr & Hrun).
  - rewrite El. unfold quote. by rewrite <- !app_assoc.
  - done.
  - done.
  - done.
  - exists cur'. split; [done|]. rewrite length_app in Hrun. simpl length in Hrun.
    replace (Z.of_nat (length pre) + 1) with (Z.of_nat (length pre + 1)) by lia. rewrite Hrun. cbn [token_loop].
    set (at_ := (length pre + 1 + length (st ≫= esc))%nat).
    assert (Hg1 : get line (Z.of_nat at_) = Some 34).
    { replace line with ((pre ++ [34] ++ (st ≫= esc)) ++ 34 :: c1 :: tl) by (rewrite El; unfold quote; by rewrite <- !app_assoc).
      apply get_app. rewrite !length_app. simpl. unfold at_. lia. }
    assert (Hg2 : get line (Z.of_nat at_ + 1) = Some c1).
    { replace line with ((pre ++ quote st) ++ c1 :: tl) by (rewrite El; by rewrite <- !app_assoc).
      apply get_app. unfold quote. rewrite !length_app. simpl. unfold at_. lia. }
    rewrite Hg1. cbn [mbind option_bind Z.eqb Pos.eqb]. rewrite Hg2. cbn [mbind option_bind].
    assert (E : negb (c1 =? 0) && negb (isspace c1) = false) by (destruct Hc1 as [-> | ->]; done).
    rewrite E. cbn [negb]. do 3 f_equal. unfold quote, at_. rewrite !length_app. simpl. lia.
Qed.

(** The strings [sts] quoted, a blank before each. *)
Definition quoted_line (sts : list (list Z)) : list Z := sts ≫= (fun st => 32 :: quote st).

Lemma empty_ok : exists s, sdsempty = Some s /\ rep s [].
Proof. apply (newlen_ok [0] 0); simpl; lia. Qed.

Lemma args_loop_ok line sts : forall pre vec fuel, line = pre ++ quoted_line sts ++ [0] ->
  Forall (Forall printable) sts -> Forall (fun st => fits (Z.of_nat (length st))) sts -> (length sts < fuel)%nat ->
  exists toks, args_loop fuel line (Z.of_nat (length pre)) vec = Some (Some (vec ++ toks)) /\ Forall2 rep toks sts.
Proof.
  induction sts as [|st sts IH]; intros pre vec fuel El Hp Hf Hfu; (destruct fuel as [|fuel]; [simpl in Hfu; lia|]); cbn [args_loop].
  - assert (Hg : get line (Z.of_nat (length pre)) = Some 0) by (rewrite El; by apply get_app).
    cbn [skip_blanks]. rewrite Hg. cbn [mbind option_bind Z.eqb negb andb]. rewrite Hg. cbn [mbind option_bind Z.eqb].
    exists []. by rewrite app_nil_r.
  - apply Forall_cons in Hp as [Hp1 Hp2]. apply Forall_cons in Hf as [Hf1 Hf2].
    assert (Hg : get line (Z.of_nat (length pre)) = Some 32) by (rewrite El; by apply get_app).
    unfold quoted_line in El. rewrite bind_cons in El. fold (quoted_line sts) in El.
    replace (pre ++ _) with ((pre ++ [32]) ++ quote st ++ quoted_line sts ++ [0]) in El by (rewrite <- !app_assoc; done).
    assert (Hg1 : get line (Z.of_nat (length pre) + 1) = Some 34) by (rewrite El; apply get_app; rewrite length_app; simpl; lia).
    assert (Hlen : exists k, length line = S k) by (rewrite El; exists (length line - 1)%nat; rewrite El, !length_app; simpl; lia).
    destruct Hlen as [k Hk]. rewrite Hk. cbn [skip_blanks]. rewrite Hg. cbn [mbind option_bind]. change (negb (32 =? 0) && isspace 32) with true. cbv iota.
    rewrite Hg1. cbn [mbind option_bind]. change (negb (34 =? 0) && isspace 34) with false. cbv iota. cbn [mbind option_bind].
    rewrite Hg1. cbn [mbind option_bind Z.eqb]. destruct empty_ok as (cur & -> & Hcur). cbn [mbind option_bind].
    assert (Htl : exists c1 tl, quoted_line sts ++ [0] = c1 :: tl /\ (c1 = 0 \/ c1 = 32)).
    { destruct sts; [eexists _, _; split; [done|by left]|eexists _, _; split; [done|by right]]. }
    destruct Htl as (c1 & tl & Etl & Hc1).
    assert (Hfuel : (length st + 2 <= S (S k))%nat).
    { rewrite <- Hk, El. unfold quote. rewrite !length_app. pose proof (esc_length st). simpl. lia. }
    destruct (token_ok st line (pre ++ [32]) c1 tl (S (S k)) cur) as (cur' & Hr' & Htok); try done; [by rewrite El, Etl|].
    rewrite length_app in Htok. simpl length in Htok.
    replace (Z.of_nat (length pre) + 1) with (Z.of_nat (length pre + 1)) by lia. rewrite Htok. cbn [mbind option_bind].
    destruct (IH ((pre ++ [32]) ++ quote st) (vec ++ [cur']) fuel) as (toks & Hrun & Hall); [|done|done|simpl in Hfu; lia|].
    + rewrite El. by rewrite <- !app_assoc.
    + exists (cur' :: toks). rewrite <- (app_assoc vec) in Hrun. split; [exact Hrun|by constructor].
Qed.

(** On printable strings [sdscatrepr] appends a quoted form which
    [sdssplitargs] reads back: a line of quoted arguments splits into exactly
    those arguments. *)
Theorem repr_splitargs_roundtrip s st sts : rep s st -> Forall (Forall printable) sts ->
  Forall (fun p => fits (Z.of_nat (length st + 2 * length p + 2))) sts ->
  Forall (fun p => exists s', sdscatrepr s p (Z.of_nat (length p)) = Some s' /\ rep s' (st ++ quote p)) sts /\
  exists toks, sdssplitargs (quoted_line sts ++ [0]) = Some (Some toks) /\ Forall2 rep toks sts.
Proof.
  intros Hrep Hp Hf. split.
  - apply Forall_forall. intros p Hin. rewrite Forall_forall in Hp, Hf. apply catrepr_ok; auto.
  - assert (Hlen : (length sts <= length (quoted_line sts))%nat).
    { clear. induction sts as [|p sts IH]; [done|]. unfold quoted_line in *. rewrite bind_cons, length_app. simpl. lia. }
    destruct (args_loop_ok (quoted_line sts ++ [0]) sts [] [] (S (length (quoted_line sts ++ [0])))) as (toks & Hrun & Hall).
    + done.
    + done.
    + eapply Forall_impl; [exact Hf|]. unfold fits. intros p Hx. simpl in Hx |- *. lia.
    + rewrite length_app. lia.
    + by exists toks.
Qed.

(** A quoted string that ends in a lone backslash is never closed. *)
Lemma unterminated st : Forall printable st -> Z.of_nat (length st) < 2 ^ 20 ->
  sdssplitargs ([34] ++ (st ≫= esc) ++ [92; 34] ++ [0]) = Some None.
Proof.
  intros Hp Hl. pose proof (esc_length st) as Hel. unfold sdssplitargs.
  set (line := [34] ++ (st ≫= esc) ++ [92; 34] ++ [0]).
  assert (Hlen : length line = (length (st ≫= esc) + 4)%nat) by (unfold line; rewrite !length_app; simpl; lia).
  assert (Hg : get line 0 = Some 34) by done.
  cbn [args_loop skip_blanks]. rewrite Hg. cbn [mbind option_bind]. change (negb (34 =? 0) && isspace 34) with false. cbv iota.
  cbn [mbind option_bind]. rewrite Hg. cbn [mbind option_bind Z.eqb].
  destruct empty_ok as (cur & -> & Hcur). cbn [mbind option_bind]. rewrite Hlen. cbn [token_loop]. rewrite Hg.
  cbn [mbind option_bind Z.eqb Pos.eqb orb negb].
  destruct (token_quoted st line [34] ([92; 34] ++ [0]) (length (st ≫= esc) + 4 - length st)%nat cur []) as (cur' & Hr & Hrun);
    [done|done|done|unfold fits; simpl; lia|].
  replace (length st + (length (st ≫= esc) + 4 - length st))%nat with (length (st ≫= esc) + 4)%nat in Hrun by lia.
  cbn [length] in Hrun. change (0 + 1) with (Z.of_nat 1). rewrite Hrun.
  set (at_ := (1 + length (st ≫= esc))%nat).
  assert (Hat : forall i c, [92; 34; 0] !! i = Some c -> get line (Z.of_nat at_ + Z.of_nat i) = Some c).
  { intros i c Hi. unfold get. rewrite (proj2 (Z.ltb_ge _ _)) by lia. unfold line. rewrite app_assoc.
    rewrite lookup_app_r by (rewrite length_app; simpl; unfold at_; lia). rewrite <- Hi. f_equal. rewrite length_app. simpl. unfold at_. lia. }
  pose proof (Hat 0%nat 92 eq_refl) as G0. pose proof (Hat 1%nat 34 eq_refl) as G1. pose proof (Hat 2%nat 0 eq_refl) as G2.
  change (Z.of_nat 0) with 0 in G0. rewrite Z.add_0_r in G0. change (Z.of_nat 1) with 1 in G1. change (Z.of_nat 2) with 2 in G2.
  replace (length (st ≫= esc) + 4 - length st)%nat with (S (S (length (st ≫= esc) + 2 - length st))) by lia.
  cbn [token_loop]. rewrite G0. cbn [mbind option_bind Z.eqb Pos.eqb]. rewrite G1. cbn [mbind option_bind Z.eqb negb].
  destruct (cat1_ok cur' _ (unescape 34) [] Hr) as (cur2 & -> & Hr2); [unfold fits; simpl; lia|]. cbn [mbind option_bind].
  replace (Z.of_nat at_ + 1 + 1) with (Z.of_nat at_ + 2) by lia. rewrite G2. done.
Qed.

(** A newline is written as a lone backslash, so that the quoted form of a
    string ending in one is not read back at all; and a byte written [\xff] is
    read back as the three letters [xff]. *)
Theorem repr_not_inverse st : Forall printable st -> Z.of_nat (length st) < 2 ^ 20 ->
  (exists s0 s', sdsempty = Some s0 /\ sdscatrepr s0 (st ++ [10]) (Z.of_nat (length (st ++ [10]))) = Some s' /\
     rep s' ([34] ++ (st ≫= esc) ++ [92; 34]) /\
     sdssplitargs ([34] ++ (st ≫= esc) ++ [92; 34] ++ [0]) = Some None) /\
  (exists s0 s' t, sdsempty = Some s0 /\ sdscatrepr s0 [255] 1 = Some s' /\
     sdssplitargs (take (Z.to_nat (len s')) (buf s') ++ [0]) = Some (Some [t]) /\ rep t [120; 102; 102]).
Proof.
  intros Hp Hl. pose proof (esc_length st) as Hel. split.
  - destruct empty_ok as (s0 & E0 & H0). exists s0.
    destruct (cat1_ok s0 [] 34 [0] H0) as (s1 & E1 & H1); [unfold fits; simpl; lia|].
    destruct (repr_loop_ok st s1 _ Hp H1) as (s2 & E2 & H2); [unfold fits; simpl; lia|].
    destruct (cat1_ok s2 _ 92 [110; 0] H2) as (s3 & E3 & H3); [unfold fits; rewrite !length_app; simpl; lia|].
    destruct (cat1_ok s3 _ 34 [0] H3) as (s4 & E4 & H4); [unfold fits; rewrite !length_app; simpl; lia|].
    exists s4. split; [done|]. split; [|split].
    + unfold sdscatrepr. rewrite E1. cbn [mbind option_bind]. rewrite read_prefix by lia. cbn [mbind option_bind].
      rewrite Nat2Z.id, firstn_all.
      assert (Happ : forall l s s', repr_loop s l = Some s' -> repr_loop s (l ++ [10]) = sdscatlen s' [92; 110; 0] 1).
      { induction l as [|c l IH]; intros s s' Hs; cbn [app repr_loop] in Hs |- *.
        - injection Hs as ->. cbn [Z.eqb Pos.eqb orb]. by destruct (sdscatlen s' [92; 110; 0] 1).
        - destruct (if (c =? 92) || (c =? 34) then _ else _) as [sx|]; [|done]. cbn [mbind option_bind] in *. by apply IH. }
      rewrite (Happ _ _ _ E2), E3. done.
    + rewrite <- !app_assoc in H4. exact H4.
    + by apply unterminated.
  - eexists _, _, _. split; [vm_compute; reflexivity|]. split; [vm_compute; reflexivity|].
    split; [vm_compute; reflexivity|]. eexists [_; _; _]. split; [reflexivity|vm_compute; reflexivity].
Qed.

End sds.

(** ** Examples *)

(** ["ab"], with two spare bytes. *)
Definition ex_ab : sdshdr := mk_sds 2 2 [97; 98; 0; 7; 7].

Lemma ex_ab_rep : rep ex_ab [97; 98].
Proof. exists [7; 7]. done. Qed.

Lemma sds_strings_witness :
  exists s', sdscatlen 9 ex_ab [99; 100; 101; 0] 3 = Some s' /\ rep s' [97; 98; 99; 100; 101].
Proof. apply (sds_strings 9 ex_ab [97; 98] [99; 100; 101; 0] 3 ex_ab_rep); [simpl; lia|unfold fits; simpl; lia]. Defined.

Lemma sds_slices_witness : exists s', sdsrange ex_ab (-1) 5 = Some s' /\ rep s' [98].
Proof. apply (proj1 (proj2 (sds_slices ex_ab [97; 98] ex_ab_rep)) (-1) 5); unfold in_s; lia. Defined.

Lemma sdsrange_past_end_witness : exists s', sdsrange ex_ab 10 20 = Some s' /\ rep s' [98].
Proof. apply (sdsrange_past_end ex_ab [97] 98 10 20 ex_ab_rep); simpl; lia. Defined.

Lemma sdscmp_lex_witness : exists r, sdscmp ex_ab (mk_sds 1 0 [97; 0]) = Some r /\ Z.sgn r = 1.
Proof.
  destruct (sdscmp_lex ex_ab (mk_sds 1 0 [97; 0]) [97; 98] [97] ex_ab_rep) as (r & ? & ? & _); [by exists []|]. by exists r.
Defined.

Lemma sdssplitlen_splits_witness :
  exists toks ts, sdssplitlen 9 [97; 45; 95; 45; 98; 45] 6 [45; 95; 45] 3 = Some (Some toks) /\
    Forall2 rep toks ts /\ join [45; 95; 45] ts = [97; 45; 95; 45; 98; 45].
Proof.
  destruct (sdssplitlen_splits 9 [97; 45; 95; 45; 98; 45] [45; 95; 45]) as (toks & ts & ? & ? & _ & ?); [simpl; lia|simpl; lia|].
  by exists toks, ts.
Defined.

Lemma sdsfromlonglong_decimal_witness :
  exists s st, sdsfromlonglong 9 (- 2 ^ 63) = Some s /\ rep s st /\ decimal st = - 2 ^ 63.
Proof. apply (sdsfromlonglong_decimal 9 (- 2 ^ 63)). unfold in_s. lia. Defined.

Lemma repr_splitargs_roundtrip_witness :
  exists toks, sdssplitargs 9 (quoted_line [[97; 32; 34]; []; [92]] ++ [0]) = Some (Some toks) /\
    Forall2 rep toks [[97; 32; 34]; []; [92]].
Proof.
  apply (repr_splitargs_roundtrip 9 ex_ab [97; 98] [[97; 32; 34]; []; [92]] ex_ab_rep).
  - repeat constructor; unfold printable; lia.
  - repeat constructor; simpl; lia.
Defined.

Lemma repr_not_inverse_witness : sdssplitargs 9 [34; 97; 92; 34; 0] = Some None.
Proof.
  destruct (repr_not_inverse 9 [97]) as ((s0 & s' & _ & _ & _ & H) & _); [repeat constructor; unfold printable; lia|simpl; lia|exact H].
Defined.

End Sds.
