(* ===== verification/Zipmap.v ===== *)
(** * Zipmaps

    [redis/src/zipmap.c]: a map from strings to strings in one heap block, a
    count byte, the entries and an end byte.  Pointers into the block are
    offsets, a [NULL] pointer is [None]; an access outside the block is [None]
    of the operation.  Lengths are [unsigned int]s and wrap at 2^32. *)

From S2P Require Import Prelude Bytes.
Local Open Scope Z_scope.

Module Zipmap.
Import Bytes.

Definition ZIPMAP_BIGLEN : Z := 254.
Definition ZIPMAP_END : Z := 255.
Definition ZIPMAP_VALUE_MAX_FREE : Z := 4.
Definition ZIPMAP_LEN_BYTES (l : Z) : Z := if l <? ZIPMAP_BIGLEN then 1 else 5.

Abbreviation u32 := (wrapu 32).

Section zipmap.
Context (junk : Z).

Definition zipmapNew : block := [0; ZIPMAP_END].

Definition zipmapDecodeLength (zm : block) (p : Z) : option Z :=
  len ← get zm p;
  if len <? ZIPMAP_BIGLEN then Some len else d ← read zm (p + 1) 4; Some (le_decode d).

(** With a non-[NULL] [p]; with [NULL] the result is [ZIPMAP_LEN_BYTES len]. *)
Definition zipmapEncodeLength (zm : block) (p len : Z) : option (block * Z) :=
  if len <? ZIPMAP_BIGLEN then zm ← write zm p [len]; Some (zm, 1)
  else zm ← write zm p [ZIPMAP_BIGLEN]; zm ← write zm (p + 1) (le_encode 4 len); Some (zm, 5).

(** [k] is the entry found so far; [wanttot] tells whether [totlen] is not
    [NULL]. *)
Fixpoint lookup_loop (fuel : nat) (zm key : block) (klen : Z) (wanttot : bool) (p : Z) (k : option Z)
    : option (option Z * Z) :=
  match fuel with
  | O => None
  | S fuel' =>
    c ← get zm p;
    if c =? ZIPMAP_END then Some (k, u32 (u32 p + 1))
    else
      l ← zipmapDecodeLength zm p;
      let llen := ZIPMAP_LEN_BYTES l in
      hit ← (match k with
             | None => if l =? klen then a ← read zm (p + llen) l; b ← read key 0 l; Some (memcmp a b =? 0) else Some false
             | Some _ => Some false
             end);
      if (hit : bool) && negb wanttot then Some (Some p, 0)
      else
        let k := if (hit : bool) then Some p else k in
        let p := p + u32 (llen + l) in
        l ← zipmapDecodeLength zm p;
        let p := p + ZIPMAP_LEN_BYTES l in
        free ← get zm p;
        lookup_loop fuel' zm key klen wanttot (p + u32 (u32 (l + 1) + free)) k
  end.

(** The result is the entry and [*totlen]. *)
Definition zipmapLookupRaw (zm key : block) (klen : Z) (wanttot : bool) : option (option Z * Z) :=
  lookup_loop (length zm) zm key klen wanttot 1 None.

Definition zipmapRequiredLength (klen vlen : Z) : Z :=
  let l := u32 (u32 (klen + vlen) + 3) in
  let l := if ZIPMAP_BIGLEN <=? klen then u32 (l + 4) else l in
  if ZIPMAP_BIGLEN <=? vlen then u32 (l + 4) else l.

Definition zipmapRawKeyLength (zm : block) (p : Z) : option Z :=
  l ← zipmapDecodeLength zm p; Some (u32 (ZIPMAP_LEN_BYTES l + l)).

Definition zipmapRawValueLength (zm : block) (p : Z) : option Z :=
  l ← zipmapDecodeLength zm p;
  let used := ZIPMAP_LEN_BYTES l in
  free ← get zm (p + used);
  Some (u32 (used + u32 (u32 (free + 1) + l))).

Definition zipmapRawEntryLength (zm : block) (p : Z) : option Z :=
  l ← zipmapRawKeyLength zm p;
  v ← zipmapRawValueLength zm (p + l);
  Some (u32 (l + v)).

Definition zipmapResize (zm : block) (len : Z) : option block :=
  write (realloc junk zm len) (u32 (len - 1)) [ZIPMAP_END].

(** The end of [zipmapSet]: the key and the value written at [p]. *)
Definition put_entry (zm : block) (p : Z) (key : block) (klen : Z) (val : block) (vlen vempty : Z) : option block :=
  '(zm, n) ← zipmapEncodeLength zm p klen;
  let p := p + n in
  d ← read key 0 klen;
  zm ← write zm p d;
  let p := p + klen in
  '(zm, n) ← zipmapEncodeLength zm p vlen;
  let p := p + n in
  zm ← write zm p [vempty];
  d ← read val 0 vlen;
  write zm (p + 1) d.

(** The second component is [*update]. *)
Definition zipmapSet (zm key : block) (klen : Z) (val : block) (vlen : Z) : option (block * Z) :=
  let reqlen := zipmapRequiredLength klen vlen in
  '(r, zmlen) ← zipmapLookupRaw zm key klen true;
  '(zm, p, zmlen, freelen, update) ←
    match r with
    | None =>
      zm ← zipmapResize zm (u32 (zmlen + reqlen));
      let p := zmlen - 1 in
      c ← get zm 0;
      zm ← (if c <? ZIPMAP_BIGLEN then write zm 0 [c + 1] else Some zm);
      Some (zm, p, u32 (zmlen + reqlen), reqlen, 0)
    | Some p =>
      freelen ← zipmapRawEntryLength zm p;
      if freelen <? reqlen then
        let offset := p in
        zm ← zipmapResize zm (u32 (u32 (zmlen - freelen) + reqlen));
        zm ← memmove zm (p + reqlen) (p + freelen) (u32 (zmlen - (offset + freelen + 1)));
        Some (zm, p, u32 (u32 (zmlen - freelen) + reqlen), reqlen, 1)
      else Some (zm, p, zmlen, freelen, 1)
    end;
  let empty := u32 (freelen - reqlen) in
  '(zm, vempty) ←
    (if ZIPMAP_VALUE_MAX_FREE <=? empty then
       let offset := p in
       zm ← memmove zm (p + reqlen) (p + freelen) (u32 (zmlen - (offset + freelen + 1)));
       zm ← zipmapResize zm (u32 (zmlen - empty));
       Some (zm, 0)
     else Some (zm, empty));
  zm ← put_entry zm p key klen val vlen vempty;
  Some (zm, update).

(** The second component is [*deleted]. *)
Definition zipmapDel (zm key : block) (klen : Z) : option (block * Z) :=
  '(r, zmlen) ← zipmapLookupRaw zm key klen true;
  match r with
  | Some p =>
    freelen ← zipmapRawEntryLength zm p;
    zm ← memmove zm p (p + freelen) (zmlen - (p + freelen + 1));
    zm ← zipmapResize zm (u32 (zmlen - freelen));
    c ← get zm 0;
    zm ← (if c <? ZIPMAP_BIGLEN then write zm 0 [wrapu 8 (c - 1)] else Some zm);
    Some (zm, 1)
  | None => Some (zm, 0)
  end.

Definition zipmapRewind : Z := 1.

(** The key and value as an offset and a length each, and the next offset;
    the inner [None] is a [NULL] result. *)
Definition zipmapNext (zm : block) (p : Z) : option (option ((Z * Z) * (Z * Z) * Z)) :=
  c ← get zm p;
  if c =? ZIPMAP_END then Some None
  else
    klen ← zipmapDecodeLength zm p;
    let key := p + ZIPMAP_LEN_BYTES klen in
    n ← zipmapRawKeyLength zm p;
    let p := p + n in
    vlen ← zipmapDecodeLength zm p;
    let value := p + 1 + ZIPMAP_LEN_BYTES vlen in
    n ← zipmapRawValueLength zm p;
    Some (Some ((key, klen), (value, vlen), p + n)).

Definition zipmapGet (zm key : block) (klen : Z) : option (option (Z * Z)) :=
  '(r, _) ← zipmapLookupRaw zm key klen false;
  match r with
  | None => Some None
  | Some p =>
    n ← zipmapRawKeyLength zm p;
    let p := p + n in
    vlen ← zipmapDecodeLength zm p;
    Some (Some (p + ZIPMAP_LEN_BYTES vlen + 1, vlen))
  end.

Definition zipmapExists (zm key : block) (klen : Z) : option bool :=
  '(r, _) ← zipmapLookupRaw zm key klen false; Some (bool_decide (is_Some r)).

Fixpoint len_loop (fuel : nat) (zm : block) (p len : Z) : option Z :=
  match fuel with
  | O => None
  | S fuel' =>
    r ← zipmapNext zm p;
    match r with None => Some len | Some (_, _, p) => len_loop fuel' zm p (u32 (len + 1)) end
  end.

(** The block too: its count byte may be stored again. *)
Definition zipmapLen (zm : block) : option (block * Z) :=
  c ← get zm 0;
  if c <? ZIPMAP_BIGLEN then Some (zm, c)
  else
    len ← len_loop (length zm) zm zipmapRewind 0;
    if len <? ZIPMAP_BIGLEN then zm ← write zm 0 [len]; Some (zm, len) else Some (zm, len).

(** ** Representation *)

(** The bytes of an encoded length, and of an entry: a key, a value and the
    free bytes after it. *)
Definition enc_len (l : Z) : list Z := if l <? ZIPMAP_BIGLEN then [l] else ZIPMAP_BIGLEN :: le_encode 4 l.

Record entry := mk_entry { ekey : list Z; evalue : list Z; epad : list Z }.

Definition enc_key (k : list Z) : list Z := enc_len (zlen k) ++ k.
Definition enc_value (v pad : list Z) : list Z := enc_len (zlen v) ++ [zlen pad] ++ v ++ pad.
Definition enc_entry (e : entry) : list Z := enc_key (ekey e) ++ enc_value (evalue e) (epad e).

Definition body (es : list entry) : list Z := es ≫= enc_entry.

Definition rep (zm : block) (es : list entry) : Prop :=
  exists cnt, zm = cnt :: body es ++ [ZIPMAP_END] /\
    (0 <= cnt < ZIPMAP_BIGLEN /\ cnt = Z.of_nat (length es) \/ cnt = ZIPMAP_BIGLEN) /\
    zlen zm < 2 ^ 31.

(** ** Lengths and entries *)

Lemma zlen_enc_len l : zlen (enc_len l) = ZIPMAP_LEN_BYTES l.
Proof. unfold zlen, enc_len, ZIPMAP_LEN_BYTES. destruct (l <? ZIPMAP_BIGLEN); [done|]. cbn [length]. by rewrite le_encode_length. Qed.

Lemma enc_len_cons l : 0 <= l -> exists c tl, enc_len l = c :: tl /\ (c =? ZIPMAP_END) = false /\ (c = l /\ l < 254 /\ tl = [] \/ c = 254 /\ 254 <= l /\ tl = le_encode 4 l).
Proof.
  intros Hl. unfold enc_len, ZIPMAP_BIGLEN, ZIPMAP_END. destruct (Z.ltb_spec l 254); eexists _, _; (split; [done|]).
  - split; [apply Z.eqb_neq; lia|]. by left.
  - split; [done|]. by right.
Qed.

Lemma bytes_of_len l : 1 <= ZIPMAP_LEN_BYTES l <= 5.
Proof. unfold ZIPMAP_LEN_BYTES. destruct (_ <? _); lia. Qed.

Lemma zipmap_decode_at zm pre l post p : zm = pre ++ enc_len l ++ post -> p = zlen pre -> 0 <= l < 2 ^ 32 ->
  zipmapDecodeLength zm p = Some l.
Proof.
  intros -> -> Hl. destruct (enc_len_cons l) as (c & tl & E & _ & Hc); [lia|]. rewrite E.
  unfold zipmapDecodeLength. cbn [app]. rewrite get_zlen by done. cbn [mbind option_bind]. unfold ZIPMAP_BIGLEN.
  destruct Hc as [(-> & Hlt & _)|(-> & _ & ->)]; [by rewrite (proj2 (Z.ltb_lt l 254))|]. cbn [Z.ltb Z.compare Pos.compare Pos.compare_cont].
  rewrite (read_at _ (pre ++ [254]) (le_encode 4 l) post).
  - cbn [mbind option_bind]. rewrite le_decode_encode. f_equal. by apply Z.mod_small.
  - by rewrite <- app_assoc.
  - unfold zlen. rewrite length_app. simpl. lia.
  - by rewrite le_encode_length.
Qed.

Lemma zlen_enc_key k : zlen (enc_key k) = ZIPMAP_LEN_BYTES (zlen k) + zlen k.
Proof. unfold enc_key. by rewrite zlen_app, zlen_enc_len. Qed.

Lemma zlen_enc_value v pad : zlen (enc_value v pad) = ZIPMAP_LEN_BYTES (zlen v) + 1 + zlen v + zlen pad.
Proof. unfold enc_value. rewrite !zlen_app, zlen_enc_len. unfold zlen. simpl. lia. Qed.

Lemma raw_key_at zm pre k post p : zm = pre ++ enc_key k ++ post -> p = zlen pre -> zlen zm < 2 ^ 31 ->
  zipmapRawKeyLength zm p = Some (zlen (enc_key k)).
Proof.
  intros E -> Hz. unfold zipmapRawKeyLength. pose proof (zlen_nonneg k). pose proof (bytes_of_len (zlen k)).
  assert (zlen (enc_key k) < 2 ^ 31) by (rewrite E, !zlen_app in Hz; pose proof (zlen_nonneg pre); pose proof (zlen_nonneg post); lia).
  rewrite zlen_enc_key in *.
  rewrite (zipmap_decode_at zm pre (zlen k) (k ++ post)); [|rewrite E; unfold enc_key; by rewrite <- app_assoc|done|lia].
  cbn [mbind option_bind]. rewrite wrapu_id by (unfold in_u; lia). done.
Qed.

Lemma raw_value_at zm pre v pad post p : zm = pre ++ enc_value v pad ++ post -> p = zlen pre -> zlen zm < 2 ^ 31 ->
  zipmapRawValueLength zm p = Some (zlen (enc_value v pad)).
Proof.
  intros E -> Hz. unfold zipmapRawValueLength. pose proof (zlen_nonneg v). pose proof (zlen_nonneg pad). pose proof (bytes_of_len (zlen v)).
  assert (zlen (enc_value v pad) < 2 ^ 31) by (rewrite E, !zlen_app in Hz; pose proof (zlen_nonneg pre); pose proof (zlen_nonneg post); lia).
  rewrite zlen_enc_value in *.
  rewrite (zipmap_decode_at zm pre (zlen v) ([zlen pad] ++ v ++ pad ++ post)); [|rewrite E; unfold enc_value; by rewrite <- !app_assoc|done|lia].
  cbn [mbind option_bind]. replace zm with ((pre ++ enc_len (zlen v)) ++ zlen pad :: (v ++ pad ++ post)) by (rewrite E; unfold enc_value; by rewrite <- !app_assoc).
  rewrite get_zlen by (by rewrite zlen_app, zlen_enc_len). cbn [mbind option_bind].
  rewrite (wrapu_id 32 (zlen pad + 1)) by (unfold in_u; lia). rewrite (wrapu_id 32 (zlen pad + 1 + _)) by (unfold in_u; lia).
  rewrite wrapu_id by (unfold in_u; lia). f_equal. lia.
Qed.

Lemma raw_entry_at zm pre e post p : zm = pre ++ enc_entry e ++ post -> p = zlen pre -> zlen zm < 2 ^ 31 ->
  zipmapRawEntryLength zm p = Some (zlen (enc_entry e)).
Proof.
  intros E -> Hz. unfold zipmapRawEntryLength, enc_entry in *.
  rewrite (raw_key_at zm pre (ekey e) (enc_value (evalue e) (epad e) ++ post)); [|rewrite E; by rewrite <- !app_assoc|done|done].
  cbn [mbind option_bind].
  rewrite (raw_value_at zm (pre ++ enc_key (ekey e)) (evalue e) (epad e) post); [|rewrite E; by rewrite <- !app_assoc|by rewrite zlen_app|done].
  cbn [mbind option_bind]. rewrite zlen_app. rewrite wrapu_id; [done|]. rewrite E, !zlen_app in Hz.
  pose proof (zlen_nonneg pre); pose proof (zlen_nonneg post); pose proof (zlen_nonneg (enc_key (ekey e)));
  pose proof (zlen_nonneg (enc_value (evalue e) (epad e))). unfold in_u. lia.
Qed.

(** ** Lookup *)

(** The offset of the first entry of a key. *)
Fixpoint find_off (key : list Z) (es : list entry) : option Z :=
  match es with
  | [] => None
  | e :: es' => if decide (ekey e = key) then Some 0 else (fun o => zlen (enc_entry e) + o) <$> find_off key es'
  end.

Lemma find_cases key es :
  (find_off key es = None /\ key ∉ ekey <$> es) \/
  exists es1 e es2, es = es1 ++ e :: es2 /\ ekey e = key /\ key ∉ ekey <$> es1 /\ find_off key es = Some (zlen (body es1)).
Proof.
  induction es as [|e es IH]; [left; split; [done|apply not_elem_of_nil]|]. simpl. destruct (decide (ekey e = key)) as [E|E].
  - right. exists [], e, es. split; [done|]. split; [done|]. split; [apply not_elem_of_nil|done].
  - destruct IH as [[-> Hn]|(es1 & e1 & es2 & -> & Hk & Hn & ->)].
    + left. split; [done|]. apply not_elem_of_cons. by split.
    + right. exists (e :: es1), e1, es2. split; [done|]. split; [done|]. split; [apply not_elem_of_cons; by split|].
      cbn [fmap option_fmap option_map]. f_equal. unfold body. by rewrite bind_cons, zlen_app.
Qed.

Definition lookup_result (want : bool) (tot : Z) (base : Z) (k : option Z) (r : option Z) : option Z * Z :=
  match k with
  | Some q => (Some q, tot)
  | None => match r with Some o => (Some (base + o), if want then tot else 0) | None => (None, tot) end
  end.

Lemma lookup_loop_ok key want : forall es pre zm k fuel, zm = pre ++ body es ++ [ZIPMAP_END] -> zlen zm < 2 ^ 31 ->
  (length es < fuel)%nat -> (want = false -> k = None) ->
  lookup_loop fuel zm key (zlen key) want (zlen pre) k = Some (lookup_result want (zlen zm) (zlen pre) k (find_off key es)).
Proof.
  induction es as [|e es IH]; intros pre zm k fuel Ez Hz Hf Hk; (destruct fuel as [|fuel]; [simpl in Hf; lia|]); cbn [lookup_loop].
  - rewrite Ez at 1. cbn [body mbind list_bind app]. rewrite get_zlen by done. cbn [mbind option_bind]. change (ZIPMAP_END =? ZIPMAP_END) with true. cbv iota.
    assert (Et : zlen zm = zlen pre + 1) by (rewrite Ez, zlen_app; done). pose proof (zlen_nonneg pre).
    rewrite (wrapu_id 32 (zlen pre)), wrapu_id by (unfold in_u; lia). rewrite <- Et. by destruct k.
  - set (kk := ekey e). set (vv := evalue e). set (tl := body es ++ [ZIPMAP_END]).
    assert (E1 : zm = pre ++ enc_len (zlen kk) ++ kk ++ enc_value vv (epad e) ++ tl).
    { rewrite Ez. unfold body. rewrite bind_cons. unfold enc_entry, enc_key. by rewrite <- !app_assoc. }
    pose proof (zlen_nonneg kk) as Hk0. pose proof (zlen_nonneg vv) as Hv0. pose proof (zlen_nonneg (epad e)) as Hp0.
    pose proof (zlen_nonneg pre) as Hpre0. pose proof (zlen_nonneg tl) as Htl0.
    pose proof (bytes_of_len (zlen kk)) as Hkb. pose proof (bytes_of_len (zlen vv)) as Hvb.
    assert (Hsum : zlen zm = zlen pre + (ZIPMAP_LEN_BYTES (zlen kk) + zlen kk) + (ZIPMAP_LEN_BYTES (zlen vv) + 1 + zlen vv + zlen (epad e)) + zlen tl).
    { rewrite E1, !zlen_app, zlen_enc_len, zlen_enc_value. lia. }
    destruct (enc_len_cons (zlen kk) Hk0) as (c & ctl & Ec & Hne & _).
    rewrite E1 at 1. rewrite Ec. cbn [app]. rewrite get_zlen by done. cbn [mbind option_bind]. rewrite Hne.
    rewrite (zipmap_decode_at zm pre (zlen kk) (kk ++ enc_value vv (epad e) ++ tl)) by (done || lia). cbn [mbind option_bind].
    assert (Hhit : (match k with
             | None => if zlen kk =? zlen key then a ← read zm (zlen pre + ZIPMAP_LEN_BYTES (zlen kk)) (zlen kk); b ← read key 0 (zlen kk); Some (memcmp a b =? 0) else Some false
             | Some _ => Some false end) = Some (match k with None => bool_decide (kk = key) | Some _ => false end)).
    { destruct k; [done|]. destruct (Z.eqb_spec (zlen kk) (zlen key)) as [El|El].
      2:{ rewrite bool_decide_false; [done|]. by intros ->. }
      rewrite (read_at zm (pre ++ enc_len (zlen kk)) kk (enc_value vv (epad e) ++ tl));
        [|rewrite E1; by rewrite <- !app_assoc|by fold (zlen (pre ++ enc_len (zlen kk))); rewrite zlen_app, zlen_enc_len|done].
      cbn [mbind option_bind]. rewrite read_prefix by (unfold zlen in *; lia). cbn [mbind option_bind].
      rewrite take_ge by (unfold zlen in *; lia). f_equal.
      pose proof (memcmp_eq kk key ltac:(unfold zlen in *; lia)) as Hm. apply eq_bool_prop_intro.
      rewrite !Is_true_true, Z.eqb_eq, bool_decide_eq_true. exact Hm. }
    rewrite Hhit. cbn [mbind option_bind]. clear Hhit. cbn [find_off]. fold kk.
    destruct (match k with None => bool_decide (kk = key) | Some _ => false end && negb want) eqn:Eret.
    { apply andb_true_iff in Eret as [Eh Ew]. apply negb_true_iff in Ew. subst want. destruct k; [done|]. apply bool_decide_eq_true in Eh.
      rewrite decide_True by done. simpl. do 3 f_equal. lia. }
    rewrite (wrapu_id 32 (_ + zlen kk)) by (unfold in_u; lia).
    set (pv := pre ++ enc_key kk). assert (Epv : zlen pv = zlen pre + (ZIPMAP_LEN_BYTES (zlen kk) + zlen kk)) by (unfold pv; by rewrite zlen_app, zlen_enc_key).
    assert (E2 : zm = pv ++ enc_len (zlen vv) ++ [zlen (epad e)] ++ vv ++ epad e ++ tl).
    { rewrite E1. unfold pv, enc_key, enc_value. by rewrite <- !app_assoc. }
    rewrite <- Epv. rewrite (zipmap_decode_at zm pv (zlen vv) ([zlen (epad e)] ++ vv ++ epad e ++ tl)) by (done || lia). cbn [mbind option_bind].
    rewrite E2 at 1. rewrite (app_assoc pv). cbn [app]. rewrite get_zlen by (by rewrite zlen_app, zlen_enc_len). cbn [mbind option_bind].
    rewrite (wrapu_id 32 (zlen vv + 1)), (wrapu_id 32 (zlen vv + 1 + _)) by (unfold in_u; lia).
    set (pe := pre ++ enc_entry e). assert (Epe : zlen pe = zlen pre + zlen (enc_entry e)) by (unfold pe; by rewrite zlen_app).
    assert (Eent : zlen (enc_entry e) = zlen (enc_key kk) + zlen (enc_value vv (epad e))) by (unfold enc_entry; by rewrite zlen_app).
    rewrite zlen_enc_key, zlen_enc_value in Eent.
    replace (zlen pv + ZIPMAP_LEN_BYTES (zlen vv) + (zlen vv + 1 + zlen (epad e))) with (zlen pe) by lia.
    rewrite (IH pe zm); [|rewrite Ez; unfold pe, body; rewrite bind_cons; by rewrite <- !app_assoc|done|simpl in Hf; lia|].
    + rewrite Epe. destruct k; [done|]. destruct (decide (kk = key)) as [Ek|Ek].
      * rewrite bool_decide_true by done. destruct want; [|rewrite bool_decide_true in Eret by done; done]. simpl. do 3 f_equal. lia.
      * rewrite bool_decide_false by done. destruct (find_off key es) as [o|]; [|done]. simpl. do 3 f_equal. lia.
    + intros Hw. rewrite (Hk Hw) in *. subst want. destruct (bool_decide (kk = key)); [done|done].
Qed.

(** ** Writing an entry *)

Lemma encode_at zm a r b p l : zm = a ++ r ++ b -> p = zlen a -> zlen r = ZIPMAP_LEN_BYTES l ->
  zipmapEncodeLength zm p l = Some (a ++ enc_len l ++ b, ZIPMAP_LEN_BYTES l).
Proof.
  intros -> -> Hr. unfold zipmapEncodeLength, enc_len, ZIPMAP_LEN_BYTES in *. destruct (l <? ZIPMAP_BIGLEN).
  - by rewrite (write_zlen _ a r [l] b) by done.
  - destruct (cut r 1 4) as (r1 & r2 & -> & H1 & H2); [lia..|].
    rewrite (write_zlen _ a r1 [ZIPMAP_BIGLEN] (r2 ++ b)) by (rewrite <- ?app_assoc; done). cbn [mbind option_bind].
    rewrite (write_zlen _ (a ++ [ZIPMAP_BIGLEN]) r2 (le_encode 4 l) b);
      [|by rewrite <- app_assoc|by rewrite zlen_app|unfold zlen in *; rewrite le_encode_length; lia].
    cbn [mbind option_bind]. by rewrite <- app_assoc.
Qed.

(** The bytes an entry needs. *)
Definition need (k v : list Z) : Z := zlen (enc_key k) + (ZIPMAP_LEN_BYTES (zlen v) + 1 + zlen v).

Lemma required_ok k v : need k v < 2 ^ 31 -> zipmapRequiredLength (zlen k) (zlen v) = need k v.
Proof.
  unfold need. rewrite zlen_enc_key. unfold zipmapRequiredLength, ZIPMAP_LEN_BYTES, ZIPMAP_BIGLEN.
  pose proof (zlen_nonneg k). pose proof (zlen_nonneg v). intros Hn.
  rewrite (wrapu_id 32 (zlen k + zlen v)), (wrapu_id 32 (zlen k + zlen v + 3)) by (unfold in_u; destruct (_ <? _), (_ <? _); lia).
  destruct (Z.ltb_spec (zlen k) 254), (Z.ltb_spec (zlen v) 254); destruct (Z.leb_spec 254 (zlen k)), (Z.leb_spec 254 (zlen v)); try lia;
    rewrite ?(wrapu_id 32 (zlen k + zlen v + 3 + 4)) by (unfold in_u; lia); rewrite ?wrapu_id by (unfold in_u; lia); lia.
Qed.

Lemma zipmap_put_ok zm a r b k v e : zm = a ++ r ++ b -> zlen r = need k v + e -> 0 <= e ->
  exists pad, zlen pad = e /\
    put_entry zm (zlen a) k (zlen k) v (zlen v) e = Some (a ++ enc_entry (mk_entry k v pad) ++ b).
Proof.
  intros -> Hr He. unfold need in Hr. rewrite zlen_enc_key in Hr.
  pose proof (zlen_nonneg k). pose proof (zlen_nonneg v). pose proof (bytes_of_len (zlen k)). pose proof (bytes_of_len (zlen v)).
  destruct (cut r (ZIPMAP_LEN_BYTES (zlen k)) (zlen k + (ZIPMAP_LEN_BYTES (zlen v) + 1 + zlen v) + e)) as (r1 & q1 & -> & R1 & Q1); [lia..|].
  destruct (cut q1 (zlen k) (ZIPMAP_LEN_BYTES (zlen v) + 1 + zlen v + e)) as (r2 & q2 & -> & R2 & Q2); [lia..|].
  destruct (cut q2 (ZIPMAP_LEN_BYTES (zlen v)) (1 + zlen v + e)) as (r3 & q3 & -> & R3 & Q3); [lia..|].
  destruct (cut q3 1 (zlen v + e)) as (r4 & q4 & -> & R4 & Q4); [lia..|].
  destruct (cut q4 (zlen v) e) as (r5 & pad & -> & R5 & Hpad); [lia..|].
  exists pad. split; [done|]. unfold put_entry.
  rewrite (encode_at _ a r1 (r2 ++ r3 ++ r4 ++ r5 ++ pad ++ b)); [|by rewrite <- !app_assoc|done|done]. cbn [mbind option_bind].
  rewrite !read_prefix by (unfold zlen in *; lia). cbn [mbind option_bind]. rewrite !take_ge by (unfold zlen; lia).
  rewrite (write_zlen _ (a ++ enc_len (zlen k)) r2 k (r3 ++ r4 ++ r5 ++ pad ++ b)); [|by rewrite <- !app_assoc|by rewrite zlen_app, zlen_enc_len|done].
  cbn [mbind option_bind].
  rewrite (encode_at _ ((a ++ enc_len (zlen k)) ++ k) r3 (r4 ++ r5 ++ pad ++ b)); [|by rewrite <- !app_assoc|by rewrite !zlen_app, zlen_enc_len|done].
  cbn [mbind option_bind].
  rewrite (write_zlen _ ((((a ++ enc_len (zlen k)) ++ k) ++ enc_len (zlen v))) r4 [e] (r5 ++ pad ++ b));
    [|by rewrite <- !app_assoc|by rewrite !zlen_app, !zlen_enc_len|done].
  cbn [mbind option_bind].
  rewrite (write_zlen _ (((((a ++ enc_len (zlen k)) ++ k) ++ enc_len (zlen v))) ++ [e]) r5 v (pad ++ b));
    [|by rewrite <- !app_assoc|rewrite !zlen_app, !zlen_enc_len; done|done].
  f_equal. unfold enc_entry, enc_key, enc_value. cbn [ekey evalue epad]. rewrite Hpad. by rewrite <- !app_assoc.
Qed.

(** ** Resizing *)

Lemma zlen_replicate n : zlen (replicate n junk) = Z.of_nat n.
Proof. unfold zlen. by rewrite length_replicate. Qed.

(** Growing by [n > 0] bytes: what was the end byte starts the new room. *)
Lemma zipmap_resize_grow a n : 0 < n -> zlen a + 1 + n < 2 ^ 31 ->
  exists r, zlen r = n /\ zipmapResize (a ++ [ZIPMAP_END]) (u32 (zlen a + 1 + n)) = Some (a ++ r ++ [ZIPMAP_END]).
Proof.
  intros Hn Hb. pose proof (zlen_nonneg a). rewrite wrapu_id by (unfold in_u; lia). unfold zipmapResize.
  rewrite realloc_grow by (rewrite length_app; unfold zlen in *; simpl; lia).
  set (j := replicate (Z.to_nat (zlen a + 1 + n) - length (a ++ [ZIPMAP_END])) junk).
  assert (Hj : zlen j = n) by (unfold j; rewrite zlen_replicate, length_app; unfold zlen in *; simpl; lia).
  destruct (cut j (n - 1) 1) as (j1 & j2 & -> & H1 & H2); [lia..|].
  exists ([ZIPMAP_END] ++ j1). split; [rewrite zlen_app, H1; change (zlen [ZIPMAP_END]) with 1; lia|].
  rewrite wrapu_id by (unfold in_u; lia).
  rewrite (write_zlen _ (a ++ [ZIPMAP_END] ++ j1) j2 [ZIPMAP_END] []); [by rewrite app_nil_r, <- app_assoc|by rewrite app_nil_r, <- !app_assoc| |done].
  rewrite !zlen_app, H1. change (zlen [ZIPMAP_END]) with 1. lia.
Qed.

Lemma zipmap_resize_shrink a r n : 0 < zlen r -> n = zlen a + 1 -> n < 2 ^ 31 ->
  zipmapResize (a ++ r) (u32 n) = Some (a ++ [ZIPMAP_END]).
Proof.
  intros Hr -> Hb. pose proof (zlen_nonneg a). rewrite wrapu_id by (unfold in_u; lia). unfold zipmapResize.
  destruct (cut r 1 (zlen r - 1)) as (r1 & r2 & -> & H1 & _); [lia..|].
  rewrite app_assoc, (realloc_shrink junk (a ++ r1) r2) by (rewrite length_app; unfold zlen in *; lia).
  rewrite wrapu_id by (unfold in_u; lia).
  rewrite (write_zlen _ a r1 [ZIPMAP_END] []); [by rewrite app_nil_r|by rewrite app_nil_r|lia|done].
Qed.

(** ** The abstract map: keys and values in insertion order *)

Definition pairs (es : list entry) : list (list Z * list Z) := (fun e => (ekey e, evalue e)) <$> es.

Fixpoint set_pair (k v : list Z) (l : list (list Z * list Z)) : list (list Z * list Z) :=
  match l with
  | [] => [(k, v)]
  | (k', v') :: l' => if decide (k' = k) then (k, v) :: l' else (k', v') :: set_pair k v l'
  end.

Fixpoint del_pair (k : list Z) (l : list (list Z * list Z)) : list (list Z * list Z) :=
  match l with
  | [] => []
  | (k', v') :: l' => if decide (k' = k) then l' else (k', v') :: del_pair k l'
  end.

Fixpoint get_pair (k : list Z) (l : list (list Z * list Z)) : option (list Z) :=
  match l with
  | [] => None
  | (k', v') :: l' => if decide (k' = k) then Some v' else get_pair k l'
  end.

Lemma pair_absent k es : k ∉ ekey <$> es ->
  (forall v, set_pair k v (pairs es) = pairs es ++ [(k, v)]) /\ del_pair k (pairs es) = pairs es /\ get_pair k (pairs es) = None.
Proof.
  induction es as [|e es IH]; intros Hn; [done|]. rewrite fmap_cons in Hn. apply not_elem_of_cons in Hn as [Hne Hn].
  destruct (IH Hn) as (H1 & H2 & H3). simpl. rewrite !decide_False by done. rewrite H2, H3. split; [|done].
  intros v. rewrite decide_False by done. by rewrite H1.
Qed.

Lemma pair_present k es1 e es2 : ekey e = k -> k ∉ ekey <$> es1 ->
  (forall v pad, set_pair k v (pairs (es1 ++ e :: es2)) = pairs (es1 ++ mk_entry k v pad :: es2)) /\
  del_pair k (pairs (es1 ++ e :: es2)) = pairs (es1 ++ es2) /\ get_pair k (pairs (es1 ++ e :: es2)) = Some (evalue e).
Proof.
  intros Hk. induction es1 as [|e1 es1 IH]; intros Hn; simpl.
  - rewrite !decide_True by done. split; [|done]. intros. rewrite decide_True by done. done.
  - rewrite fmap_cons in Hn. apply not_elem_of_cons in Hn as [Hne Hn]. destruct (IH Hn) as (H1 & H2 & H3).
    rewrite !decide_False by done. rewrite H2, H3. split; [|done]. intros v pad. rewrite decide_False by done. by rewrite (H1 v pad).
Qed.

Lemma body_app es1 es2 : body (es1 ++ es2) = body es1 ++ body es2.
Proof. apply bind_app. Qed.

Lemma body_length es : (length es <= length (body es))%nat.
Proof.
  induction es as [|e es IH]; [done|]. unfold body in *. rewrite bind_cons, length_app.
  pose proof (zlen_enc_key (ekey e)) as Hk. pose proof (bytes_of_len (zlen (ekey e))). pose proof (zlen_nonneg (ekey e)).
  assert (1 <= length (enc_entry e))%nat by (unfold enc_entry; rewrite length_app; unfold zlen in *; lia). cbn [length]. lia.
Qed.

Lemma lookup_ok zm es key want : rep zm es ->
  zipmapLookupRaw zm key (zlen key) want = Some (lookup_result want (zlen zm) 1 None (find_off key es)).
Proof.
  intros (cnt & Ez & _ & Hz). apply (lookup_loop_ok key want es [cnt]); [done|done| |done].
  rewrite Ez. cbn [length]. rewrite length_app. pose proof (body_length es). lia.
Qed.

(** What [zipmapSet] has made before it writes the entry: room [r] for it, the
    rest of the map around. *)
Lemma grow_entry a e b req : zlen (enc_entry e) < req -> zlen (a ++ enc_entry e ++ b ++ [ZIPMAP_END]) + req < 2 ^ 31 ->
  let zm := a ++ enc_entry e ++ b ++ [ZIPMAP_END] in
  let freelen := zlen (enc_entry e) in
  exists r, zlen r = req /\
    (zm' ← zipmapResize zm (u32 (u32 (zlen zm - freelen) + req));
     memmove zm' (zlen a + req) (zlen a + freelen) (u32 (zlen zm - (zlen a + freelen + 1)))) = Some (a ++ r ++ b ++ [ZIPMAP_END]).
Proof.
  intros Hlt Hb zm freelen. pose proof (zlen_nonneg a). pose proof (zlen_nonneg b). pose proof (zlen_nonneg (enc_entry e)).
  assert (Hz : zlen zm = zlen a + freelen + zlen b + 1) by (unfold zm; rewrite !zlen_app; change (zlen [ZIPMAP_END]) with 1; lia).
  fold zm in Hb. rewrite (wrapu_id 32 (zlen zm - freelen)) by (unfold in_u; lia).
  destruct (zipmap_resize_grow (a ++ enc_entry e ++ b) (req - freelen)) as (r & Hr & Hrs); [lia|rewrite !zlen_app; fold freelen; lia|].
  replace (zlen (a ++ enc_entry e ++ b) + 1 + (req - freelen)) with (zlen zm - freelen + req) in Hrs by (rewrite !zlen_app; fold freelen; lia).
  replace ((a ++ enc_entry e ++ b) ++ [ZIPMAP_END]) with zm in Hrs by (unfold zm; by rewrite <- !app_assoc).
  rewrite Hrs. cbn [mbind option_bind]. rewrite wrapu_id by (unfold in_u; lia).
  replace ((a ++ enc_entry e ++ b) ++ r ++ [ZIPMAP_END]) with ((a ++ enc_entry e) ++ b ++ r ++ [ZIPMAP_END]) by (by rewrite <- !app_assoc).
  rewrite memmove_up; [|rewrite ?length_app; unfold freelen, zlen in *; lia..].
  exists (enc_entry e ++ take (length r) (b ++ r)). split; [|by rewrite <- !app_assoc].
  rewrite zlen_app. fold freelen. unfold zlen at 1. rewrite length_take, length_app. unfold zlen in Hr. lia.
Qed.

Lemma shrink_entry a e b req : 0 <= req -> req < zlen (enc_entry e) -> zlen (a ++ enc_entry e ++ b ++ [ZIPMAP_END]) < 2 ^ 31 ->
  let zm := a ++ enc_entry e ++ b ++ [ZIPMAP_END] in
  let freelen := zlen (enc_entry e) in
  exists r, zlen r = req /\
    (zm' ← memmove zm (zlen a + req) (zlen a + freelen) (u32 (zlen zm - (zlen a + freelen + 1)));
     zipmapResize zm' (u32 (zlen zm - (freelen - req)))) = Some (a ++ r ++ b ++ [ZIPMAP_END]).
Proof.
  intros H0 Hlt Hb zm freelen. pose proof (zlen_nonneg a). pose proof (zlen_nonneg b).
  assert (Hz : zlen zm = zlen a + freelen + zlen b + 1) by (unfold zm; rewrite !zlen_app; change (zlen [ZIPMAP_END]) with 1; lia).
  fold zm in Hb. rewrite (wrapu_id 32 (zlen zm - (zlen a + freelen + 1))) by (unfold in_u; lia).
  destruct (cut (enc_entry e) req (freelen - req)) as (r & gap & Er & Hr & Hg); [unfold freelen; lia..|].
  exists r. split; [done|].
  assert (Ezm : zm = (a ++ r) ++ gap ++ b ++ [ZIPMAP_END]) by (unfold zm; rewrite Er; by rewrite <- !app_assoc).
  fold freelen in Hlt. clearbody zm freelen. rewrite Ezm at 1.
  rewrite memmove_down; [|rewrite ?length_app; unfold zlen in *; lia..]. cbn [mbind option_bind].
  rewrite app_assoc.
  rewrite (zipmap_resize_shrink ((a ++ r) ++ b)).
  - by rewrite <- !app_assoc.
  - unfold zlen. rewrite !length_app. simpl. lia.
  - rewrite !zlen_app. lia.
  - lia.
Qed.

Definition cnt_ok (cnt : Z) (es : list entry) : Prop :=
  0 <= cnt < ZIPMAP_BIGLEN /\ cnt = Z.of_nat (length es) \/ cnt = ZIPMAP_BIGLEN.

Lemma rep_parts zm es1 e es2 : rep zm (es1 ++ e :: es2) -> exists cnt,
  zm = (cnt :: body es1) ++ enc_entry e ++ body es2 ++ [ZIPMAP_END] /\
  cnt_ok cnt (es1 ++ e :: es2) /\ zlen zm < 2 ^ 31.
Proof.
  intros (cnt & -> & Hc & Hz). exists cnt. split; [|done]. rewrite body_app.
  change (body (e :: es2)) with (enc_entry e ++ body es2). simpl. by rewrite <- !app_assoc.
Qed.

Lemma rep_intro cnt es1 e es2 : cnt_ok cnt (es1 ++ e :: es2) ->
  zlen ((cnt :: body es1) ++ enc_entry e ++ body es2 ++ [ZIPMAP_END]) < 2 ^ 31 ->
  rep ((cnt :: body es1) ++ enc_entry e ++ body es2 ++ [ZIPMAP_END]) (es1 ++ e :: es2).
Proof.
  intros Hc Hz. exists cnt. split; [|done]. rewrite body_app.
  change (body (e :: es2)) with (enc_entry e ++ body es2). simpl. by rewrite <- !app_assoc.
Qed.

Lemma zipmap_zlen_entry k v pad : zlen (enc_entry (mk_entry k v pad)) = need k v + zlen pad.
Proof. unfold enc_entry, need. rewrite zlen_app, zlen_enc_value. simpl. lia. Qed.

Lemma need_pos k v : 0 < need k v.
Proof.
  unfold need. rewrite zlen_enc_key. pose proof (zlen_nonneg k). pose proof (zlen_nonneg v).
  pose proof (bytes_of_len (zlen k)). pose proof (bytes_of_len (zlen v)). lia.
Qed.

Lemma update_ok zm es1 e es2 k v : rep zm (es1 ++ e :: es2) -> find_off k (es1 ++ e :: es2) = Some (zlen (body es1)) ->
  zlen zm + need k v < 2 ^ 31 ->
  exists zm' pad, zipmapSet zm k (zlen k) v (zlen v) = Some (zm', 1) /\ rep zm' (es1 ++ mk_entry k v pad :: es2).
Proof.
  intros Hrep Hoff Hb. unfold zipmapSet. rewrite (lookup_ok zm _ k true Hrep).
  rewrite Hoff. cbn [lookup_result mbind option_bind]. pose proof (zlen_nonneg zm). pose proof (need_pos k v).
  rewrite required_ok by lia.
  destruct (rep_parts zm es1 e es2 Hrep) as (cnt & Ez & Hcnt & Hz). set (a := cnt :: body es1) in *.
  assert (Ha : 1 + zlen (body es1) = zlen a) by (unfold a, zlen; simpl; lia). rewrite Ha.
  rewrite (raw_entry_at zm a e (body es2 ++ [ZIPMAP_END])) by done. cbn [mbind option_bind].
  assert (Hlen : forall r, zlen (a ++ r ++ body es2 ++ [ZIPMAP_END]) = zlen a + zlen r + zlen (body es2) + 1)
    by (intros; rewrite !zlen_app; change (zlen [ZIPMAP_END]) with 1; lia).
  assert (Hent : zlen zm = zlen a + zlen (enc_entry e) + zlen (body es2) + 1) by (by rewrite Ez, Hlen).
  pose proof (zlen_nonneg a). pose proof (zlen_nonneg (body es2)). pose proof (zlen_nonneg (enc_entry e)).
  assert (Hfin : forall r emp, zlen r = need k v + emp -> 0 <= emp < 4 ->
    exists zm' pad, (zm0 ← put_entry (a ++ r ++ body es2 ++ [ZIPMAP_END]) (zlen a) k (zlen k) v (zlen v) emp; Some (zm0, 1)) = Some (zm', 1) /\
      (zlen a + zlen r + zlen (body es2) + 1 < 2 ^ 31 -> rep zm' (es1 ++ mk_entry k v pad :: es2))).
  { intros r emp Hr He. destruct (zipmap_put_ok _ a r (body es2 ++ [ZIPMAP_END]) k v emp eq_refl Hr) as (pad & Hpad & ->); [lia|].
    eexists _, pad. split; [done|]. intros Hsz. apply rep_intro.
    - unfold cnt_ok in *. rewrite !length_app in *. exact Hcnt.
    - rewrite Hlen, zipmap_zlen_entry, Hpad, <- Hr. exact Hsz. }
  destruct (Z.ltb_spec (zlen (enc_entry e)) (need k v)) as [Hlt|Hge].
  - destruct (grow_entry a e (body es2) (need k v) Hlt) as (r & Hr & Hrun); [rewrite Hlen; lia|]. rewrite <- Ez in Hrun.
    destruct (zipmapResize zm _) as [zm1|]; [|done]. cbn [mbind option_bind] in *. rewrite Hrun. cbn [mbind option_bind].
    rewrite Z.sub_diag. change (u32 0) with 0. change (ZIPMAP_VALUE_MAX_FREE <=? 0) with false. cbn [mbind option_bind].
    destruct (Hfin r 0) as (zm' & pad & -> & Hr'); [lia|lia|]. exists zm', pad. split; [done|]. apply Hr'. lia.
  - cbn [mbind option_bind]. rewrite (wrapu_id 32 (zlen (enc_entry e) - need k v)) by (unfold in_u; lia).
    unfold ZIPMAP_VALUE_MAX_FREE. destruct (Z.leb_spec 4 (zlen (enc_entry e) - need k v)) as [H4|H4].
    + destruct (shrink_entry a e (body es2) (need k v)) as (r & Hr & Hrun); [lia|lia|rewrite Hlen; lia|]. rewrite <- Ez in Hrun.
      destruct (memmove zm _ _ _) as [zm1|]; [|done]. cbn [mbind option_bind] in *. rewrite Hrun. cbn [mbind option_bind].
      destruct (Hfin r 0) as (zm' & pad & -> & Hr'); [lia|lia|]. exists zm', pad. split; [done|]. apply Hr'. lia.
    + cbn [mbind option_bind]. rewrite Ez. destruct (Hfin (enc_entry e) (zlen (enc_entry e) - need k v)) as (zm' & pad & -> & Hr'); [lia|lia|].
      exists zm', pad. split; [done|]. apply Hr'. lia.
Qed.

Lemma body_snoc es e : body (es ++ [e]) = body es ++ enc_entry e.
Proof. rewrite body_app. unfold body at 2. rewrite bind_cons. by rewrite app_nil_r. Qed.

Lemma zipmap_insert_ok zm es k v : rep zm es -> find_off k es = None -> zlen zm + need k v < 2 ^ 31 ->
  exists zm', zipmapSet zm k (zlen k) v (zlen v) = Some (zm', 0) /\ rep zm' (es ++ [mk_entry k v []]).
Proof.
  intros Hrep Hoff Hb. unfold zipmapSet. rewrite (lookup_ok zm _ k true Hrep), Hoff.
  cbn [lookup_result mbind option_bind]. pose proof (need_pos k v). pose proof (zlen_nonneg zm).
  rewrite required_ok by lia. destruct Hrep as (cnt & Ez & Hcnt & Hz).
  pose proof (zlen_nonneg (body es)).
  assert (Hzl : zlen zm = zlen (cnt :: body es) + 1) by (rewrite Ez; unfold zlen; simpl; rewrite length_app; simpl; lia).
  destruct (zipmap_resize_grow (cnt :: body es) (need k v)) as (r & Hr & Hrs); [lia|lia|]. rewrite <- Hzl in Hrs.
  change ((cnt :: body es) ++ [ZIPMAP_END]) with (cnt :: body es ++ [ZIPMAP_END]) in Hrs. rewrite <- Ez in Hrs. rewrite Hrs. cbn [mbind option_bind].
  change (get ((cnt :: body es) ++ r ++ [ZIPMAP_END]) 0) with (Some cnt). cbn [mbind option_bind].
  assert (Hcnt' : exists cnt', (if cnt <? ZIPMAP_BIGLEN then write ((cnt :: body es) ++ r ++ [ZIPMAP_END]) 0 [cnt + 1] else Some ((cnt :: body es) ++ r ++ [ZIPMAP_END]))
      = Some ((cnt' :: body es) ++ r ++ [ZIPMAP_END]) /\ cnt_ok cnt' (es ++ [mk_entry k v []])).
  { unfold cnt_ok, ZIPMAP_BIGLEN in *. rewrite length_app. simpl length. destruct (Z.ltb_spec cnt 254).
    - exists (cnt + 1). split; [by rewrite (write_zlen _ [] [cnt] [cnt + 1] (body es ++ r ++ [ZIPMAP_END]))|]. lia.
    - exists cnt. split; [done|]. lia. }
  destruct Hcnt' as (cnt' & -> & Hc'). cbn [mbind option_bind]. rewrite Z.sub_diag. change (u32 0) with 0.
  change (ZIPMAP_VALUE_MAX_FREE <=? 0) with false. cbn [mbind option_bind].
  replace (zlen zm - 1) with (zlen (cnt' :: body es)) by (rewrite Hzl; unfold zlen; simpl; lia).
  destruct (zipmap_put_ok _ (cnt' :: body es) r [ZIPMAP_END] k v 0 eq_refl) as (pad & Hpad & ->); [lia|lia|]. cbn [mbind option_bind].
  destruct pad; [|unfold zlen in Hpad; simpl in Hpad; lia].
  eexists. split; [done|]. exists cnt'. split; [rewrite body_snoc; simpl; by rewrite <- app_assoc|]. split; [done|].
  rewrite !zlen_app, zipmap_zlen_entry. change (zlen []) with 0. change (zlen [ZIPMAP_END]) with 1.
  assert (zlen (cnt' :: body es) = zlen (cnt :: body es)) by (unfold zlen; simpl; done). lia.
Qed.

Lemma zipmap_delete_ok zm es1 e es2 k : rep zm (es1 ++ e :: es2) -> find_off k (es1 ++ e :: es2) = Some (zlen (body es1)) ->
  exists zm', zipmapDel zm k (zlen k) = Some (zm', 1) /\ rep zm' (es1 ++ es2).
Proof.
  intros Hrep Hoff. unfold zipmapDel. rewrite (lookup_ok zm _ k true Hrep), Hoff. cbn [lookup_result mbind option_bind].
  destruct (rep_parts zm es1 e es2 Hrep) as (cnt & Ez & Hcnt & Hz). set (a := cnt :: body es1) in *.
  assert (Ha : 1 + zlen (body es1) = zlen a) by (unfold a, zlen; simpl; lia). rewrite Ha.
  rewrite (raw_entry_at zm a e (body es2 ++ [ZIPMAP_END])) by done. cbn [mbind option_bind].
  assert (Hent : zlen zm = zlen a + zlen (enc_entry e) + zlen (body es2) + 1) by (rewrite Ez, !zlen_app; change (zlen [ZIPMAP_END]) with 1; lia).
  assert (He : 0 < zlen (enc_entry e)) by (destruct e as [k0 v0 p0]; rewrite zipmap_zlen_entry; pose proof (need_pos k0 v0); pose proof (zlen_nonneg p0); lia).
  pose proof (zlen_nonneg a). pose proof (zlen_nonneg (body es2)).
  destruct (shrink_entry a e (body es2) 0) as (r & Hr & Hrun); [lia|done|by rewrite <- Ez|]. rewrite <- Ez in Hrun.
  rewrite Z.add_0_r, Z.sub_0_r in Hrun. rewrite (wrapu_id 32 (zlen zm - (zlen a + zlen (enc_entry e) + 1))) in Hrun by (unfold in_u; lia).
  destruct (memmove zm _ _ _) as [zm1|]; [|done]. cbn [mbind option_bind] in *. rewrite Hrun. cbn [mbind option_bind].
  assert (r = []) as -> by (destruct r; [done|unfold zlen in Hr; simpl in Hr; lia]). cbn [app].
  change (get (a ++ body es2 ++ [ZIPMAP_END]) 0) with (Some cnt). cbn [mbind option_bind].
  assert (Hout : forall cnt', cnt_ok cnt' (es1 ++ es2) -> rep ((cnt' :: body es1) ++ body es2 ++ [ZIPMAP_END]) (es1 ++ es2)).
  { intros cnt' Hc'. exists cnt'. split; [rewrite body_app; simpl; by rewrite <- app_assoc|]. split; [done|].
    rewrite !zlen_app. change (zlen (cnt' :: body es1)) with (zlen a). change (zlen [ZIPMAP_END]) with 1. lia. }
  unfold cnt_ok, ZIPMAP_BIGLEN in *. rewrite length_app in *. simpl length in *. destruct (Z.ltb_spec cnt 254).
  - rewrite (write_zlen _ [] [cnt] [wrapu 8 (cnt - 1)] (body es1 ++ body es2 ++ [ZIPMAP_END])); [|done|done|done]. cbn [mbind option_bind].
    eexists. split; [done|]. rewrite wrapu_id by (unfold in_u; lia). apply Hout. lia.
  - cbn [mbind option_bind]. eexists. split; [done|]. apply Hout. lia.
Qed.

(** ** Reading *)

Lemma next_at zm pre e post : zm = pre ++ enc_entry e ++ post -> zlen zm < 2 ^ 31 ->
  exists ko vo, zipmapNext zm (zlen pre) = Some (Some ((ko, zlen (ekey e)), (vo, zlen (evalue e)), zlen (pre ++ enc_entry e))) /\
    read zm ko (zlen (ekey e)) = Some (ekey e) /\ read zm vo (zlen (evalue e)) = Some (evalue e) /\
    zipmapRawKeyLength zm (zlen pre) = Some (zlen (enc_key (ekey e))) /\
    zipmapDecodeLength zm (zlen pre + zlen (enc_key (ekey e))) = Some (zlen (evalue e)) /\
    vo = zlen pre + zlen (enc_key (ekey e)) + ZIPMAP_LEN_BYTES (zlen (evalue e)) + 1.
Proof.
  intros Ez Hz. set (k := ekey e) in *. set (v := evalue e) in *.
  assert (E1 : zm = pre ++ enc_len (zlen k) ++ k ++ enc_value v (epad e) ++ post).
  { rewrite Ez. unfold enc_entry, enc_key. fold k v. by rewrite <- !app_assoc. }
  assert (E2 : zm = (pre ++ enc_key k) ++ enc_len (zlen v) ++ [zlen (epad e)] ++ v ++ epad e ++ post).
  { rewrite E1. unfold enc_key, enc_value. by rewrite <- !app_assoc. }
  assert (Hl : 0 <= zlen k < 2 ^ 32 /\ 0 <= zlen v < 2 ^ 32).
  { pose proof (zlen_nonneg k). pose proof (zlen_nonneg v). pose proof (zlen_nonneg pre). pose proof (zlen_nonneg post).
    pose proof (zlen_nonneg (epad e)). pose proof (bytes_of_len (zlen v)). pose proof (bytes_of_len (zlen k)).
    rewrite E1, !zlen_app, zlen_enc_len, zlen_enc_value in Hz. lia. }
  assert (Hkey : zipmapRawKeyLength zm (zlen pre) = Some (zlen (enc_key k))).
  { apply (raw_key_at zm pre k (enc_value v (epad e) ++ post)); [|done|done]. rewrite E1. unfold enc_key. by rewrite <- app_assoc. }
  assert (Hval : zipmapDecodeLength zm (zlen pre + zlen (enc_key k)) = Some (zlen v)).
  { apply (zipmap_decode_at zm (pre ++ enc_key k) (zlen v) ([zlen (epad e)] ++ v ++ epad e ++ post)); [done|by rewrite zlen_app|lia]. }
  unfold zipmapNext. destruct (enc_len_cons (zlen k)) as (c & tl & Ec & Hne & _); [lia|].
  assert (Hg : get zm (zlen pre) = Some c) by (rewrite E1, Ec; by apply get_zlen).
  rewrite Hg. cbn [mbind option_bind]. rewrite Hne. rewrite (zipmap_decode_at zm pre (zlen k) (k ++ enc_value v (epad e) ++ post)) by (done || lia).
  cbn [mbind option_bind]. rewrite Hkey. cbn [mbind option_bind]. rewrite Hval. cbn [mbind option_bind].
  rewrite (raw_value_at zm (pre ++ enc_key k) v (epad e) post); [|rewrite E1; unfold enc_key; by rewrite <- !app_assoc|by rewrite zlen_app|done].
  cbn [mbind option_bind]. eexists _, _. split.
  { replace (zlen (pre ++ enc_entry e)) with (zlen pre + zlen (enc_key k) + zlen (enc_value v (epad e)))
      by (unfold enc_entry; fold k v; rewrite !zlen_app; lia). done. }
  split; [|split; [|split; [done|split; [done|lia]]]].
  - eapply (read_at zm (pre ++ enc_len (zlen k)) k); [rewrite E1; by rewrite <- app_assoc| |done].
    fold (zlen (pre ++ enc_len (zlen k))). by rewrite zlen_app, zlen_enc_len.
  - eapply (read_at zm ((pre ++ enc_key k) ++ enc_len (zlen v) ++ [zlen (epad e)]) v); [rewrite E2; by rewrite <- !app_assoc| |done].
    fold (zlen ((pre ++ enc_key k) ++ enc_len (zlen v) ++ [zlen (epad e)])). rewrite !zlen_app, zlen_enc_len. change (zlen [_]) with 1. lia.
Qed.

Lemma zipmap_len_loop_ok es : forall pre zm len fuel, zm = pre ++ body es ++ [ZIPMAP_END] -> zlen zm < 2 ^ 31 -> (length es < fuel)%nat ->
  0 <= len -> len + Z.of_nat (length es) < 2 ^ 31 -> len_loop fuel zm (zlen pre) len = Some (len + Z.of_nat (length es)).
Proof.
  induction es as [|e es IH]; intros pre zm len fuel Ez Hz Hf Hl Hb; (destruct fuel as [|fuel]; [simpl in Hf; lia|]); cbn [len_loop].
  - unfold zipmapNext. rewrite Ez. cbn [body mbind list_bind app]. rewrite get_zlen by done. simpl. f_equal. lia.
  - assert (Ez' : zm = pre ++ enc_entry e ++ body es ++ [ZIPMAP_END]) by (rewrite Ez; unfold body; rewrite bind_cons; by rewrite <- app_assoc).
    destruct (next_at zm pre e _ Ez' Hz) as (ko & vo & -> & _). cbn [mbind option_bind]. simpl length in *.
    rewrite wrapu_id by (unfold in_u; lia). rewrite (IH (pre ++ enc_entry e) zm); [f_equal; lia|by rewrite <- app_assoc|done|lia|lia|lia].
Qed.

(** A zipmap is a map in insertion order: [zipmapSet] replaces the value of
    its key or appends the pair and says which, moving and resizing the block
    as the sizes require, and [zipmapDel] removes the pair; neither faults nor
    touches another pair. *)
Theorem zipmap_updates zm es k v : rep zm es -> zlen zm + need k v < 2 ^ 31 ->
  (exists zm' es', zipmapSet zm k (zlen k) v (zlen v) = Some (zm', if decide (k ∈ ekey <$> es) then 1 else 0) /\
     rep zm' es' /\ pairs es' = set_pair k v (pairs es)) /\
  (exists zm' es', zipmapDel zm k (zlen k) = Some (zm', if decide (k ∈ ekey <$> es) then 1 else 0) /\
     rep zm' es' /\ pairs es' = del_pair k (pairs es)).
Proof.
  intros Hrep Hb. destruct (find_cases k es) as [[Hoff Hn]|(es1 & e & es2 & -> & Hk & Hn & Hoff)].
  - destruct (pair_absent k es Hn) as (Hs & Hd & _). rewrite !decide_False by done. split.
    + destruct (zipmap_insert_ok zm es k v Hrep Hoff Hb) as (zm' & -> & Hr). eexists _, _. split; [done|]. split; [exact Hr|].
      rewrite Hs. unfold pairs. by rewrite fmap_app.
    + exists zm, es. unfold zipmapDel. rewrite (lookup_ok zm _ k true Hrep), Hoff. split; [done|]. by split.
  - destruct (pair_present k es1 e es2 Hk Hn) as (Hs & Hd & _).
    rewrite !decide_True by (rewrite fmap_app, fmap_cons; set_solver). split.
    + destruct (update_ok zm es1 e es2 k v Hrep Hoff Hb) as (zm' & pad & -> & Hr). eexists _, _. split; [done|]. split; [exact Hr|].
      by rewrite (Hs v pad).
    + destruct (zipmap_delete_ok zm es1 e es2 k Hrep Hoff) as (zm' & -> & Hr). eexists _, _. split; [done|]. by split.
Qed.

(** [zipmapGet] gives the place of the value of a key, [zipmapExists] tells
    whether there is one, and [zipmapLen] counts the pairs even when the count
    byte is saturated. *)
Theorem zipmap_reads zm es k : rep zm es ->
  match get_pair k (pairs es) with
  | Some v => exists off, zipmapGet zm k (zlen k) = Some (Some (off, zlen v)) /\ read zm off (zlen v) = Some v
  | None => zipmapGet zm k (zlen k) = Some None
  end /\
  zipmapExists zm k (zlen k) = Some (bool_decide (is_Some (get_pair k (pairs es)))) /\
  exists zm', zipmapLen zm = Some (zm', Z.of_nat (length (pairs es))) /\ rep zm' es.
Proof.
  intros Hrep. unfold zipmapGet, zipmapExists. rewrite (lookup_ok zm _ k false Hrep). split; [|split].
  - destruct (find_cases k es) as [[Hoff Hn]|(es1 & e & es2 & -> & Hk & Hn & Hoff)]; rewrite Hoff.
    + by rewrite (proj2 (proj2 (pair_absent k es Hn))).
    + rewrite (proj2 (proj2 (pair_present k es1 e es2 Hk Hn))). cbn [lookup_result mbind option_bind].
      destruct (rep_parts zm es1 e es2 Hrep) as (cnt & Ez & _ & Hz).
      replace (1 + zlen (body es1)) with (zlen (cnt :: body es1)) by (unfold zlen; simpl; lia).
      destruct (next_at zm _ e _ Ez Hz) as (ko & vo & _ & _ & Hv & -> & Hd & ->). cbn [mbind option_bind]. rewrite Hd. by eexists.
  - destruct (find_cases k es) as [[Hoff Hn]|(es1 & e & es2 & -> & Hk & Hn & Hoff)]; rewrite Hoff.
    + by rewrite (proj2 (proj2 (pair_absent k es Hn))).
    + rewrite (proj2 (proj2 (pair_present k es1 e es2 Hk Hn))). done.
  - unfold pairs. rewrite length_fmap. unfold zipmapLen. pose proof Hrep as (cnt & Ez & Hc & Hz).
    assert (Hbl : (length es < length zm)%nat) by (rewrite Ez; cbn [length]; rewrite length_app; pose proof (body_length es); lia).
    replace (get zm 0) with (Some cnt) by (by rewrite Ez). cbn [mbind option_bind]. unfold ZIPMAP_BIGLEN in *.
    destruct (Z.ltb_spec cnt 254) as [Hlt|Hge]; [exists zm; split; [do 2 f_equal; lia|done]|].
    change zipmapRewind with (zlen [cnt]). rewrite (zipmap_len_loop_ok es [cnt] zm 0 (length zm)) by (done || unfold zlen in *; lia). cbn [mbind option_bind].
    destruct (Z.ltb_spec (0 + Z.of_nat (length es)) 254) as [Hs|Hs]; [|by exists zm].
    rewrite (write_zlen zm [] [cnt] [0 + Z.of_nat (length es)] (body es ++ [ZIPMAP_END])) by done. cbn [mbind option_bind].
    eexists. split; [done|]. eexists. split; [done|]. split; [unfold ZIPMAP_BIGLEN; lia|]. rewrite Ez in Hz. exact Hz.
Qed.

(** Walking a zipmap with [zipmapRewind] and [zipmapNext] meets the pairs
    in order and ends. *)
Theorem zipmap_walk zm es : rep zm es ->
  exists offs, length offs = length es /\ offs !! 0%nat = (if decide (es = []) then None else Some zipmapRewind) /\
  forall i e, es !! i = Some e -> exists p ko vo nxt, offs !! i = Some p /\
    zipmapNext zm p = Some (Some ((ko, zlen (ekey e)), (vo, zlen (evalue e)), nxt)) /\
    read zm ko (zlen (ekey e)) = Some (ekey e) /\ read zm vo (zlen (evalue e)) = Some (evalue e) /\
    match offs !! S i with Some q => nxt = q | None => zipmapNext zm nxt = Some None end.
Proof.
  intros (cnt & Ez & _ & Hz).
  set (off := fun i => zlen (cnt :: body (take i es))).
  exists (off <$> seq 0 (length es)). split; [by rewrite length_fmap, length_seq|]. split.
  { destruct es; [done|]. rewrite decide_False by done. done. }
  intros i e Hi. pose proof (lookup_lt_Some _ _ _ Hi) as Hlt.
  assert (Ees : es = take i es ++ e :: drop (S i) es) by (symmetry; by apply take_drop_middle).
  assert (Ezm : zm = (cnt :: body (take i es)) ++ enc_entry e ++ body (drop (S i) es) ++ [ZIPMAP_END]).
  { rewrite Ez, Ees at 1. rewrite body_app. change (body (e :: ?l)) with (enc_entry e ++ body l). simpl. by rewrite <- !app_assoc. }
  assert (Hnext : zlen ((cnt :: body (take i es)) ++ enc_entry e) = off (S i)).
  { unfold off. rewrite (take_S_r es i e Hi), body_snoc. done. }
  destruct (next_at zm _ e _ Ezm Hz) as (ko & vo & Hn & Hrk & Hrv & _). rewrite Hnext in Hn.
  exists (off i), ko, vo, (off (S i)). split; [rewrite list_lookup_fmap, lookup_seq_lt by lia; done|].
  split; [exact Hn|]. split; [done|]. split; [done|].
  rewrite list_lookup_fmap. destruct (decide (S i < length es)%nat) as [Hs|Hs].
  - rewrite lookup_seq_lt by lia. done.
  - rewrite lookup_seq_ge by lia. simpl. unfold zipmapNext. rewrite Ez. unfold off. rewrite take_ge by lia.
    rewrite (app_comm_cons (body es)), get_zlen by done. done.
Qed.

End zipmap.

(** ** Examples *)

Definition ex_es : list entry := [mk_entry [97] [98] []; mk_entry [99; 99] [100] [7; 7]].
Definition ex_zm : block := [2; 1; 97; 1; 0; 98; 2; 99; 99; 1; 2; 100; 7; 7; 255].

Lemma zipmap_ex_rep : rep ex_zm ex_es.
Proof. exists 2. split; [done|]. split; [by left|done]. Qed.

Lemma zipmap_updates_witness :
  exists zm' es', zipmapSet 9 ex_zm [97] 1 [65; 66; 67] 3 = Some (zm', 1) /\ rep zm' es' /\
    pairs es' = [([97], [65; 66; 67]); ([99; 99], [100])].
Proof. apply (proj1 (zipmap_updates 9 ex_zm ex_es [97] [65; 66; 67] zipmap_ex_rep ltac:(done))). Defined.

Lemma zipmap_reads_witness :
  exists off, zipmapGet ex_zm [99; 99] 2 = Some (Some (off, 1)) /\ read ex_zm off 1 = Some [100].
Proof. apply (proj1 (zipmap_reads ex_zm ex_es [99; 99] zipmap_ex_rep)). Defined.

Lemma zipmap_walk_witness : exists offs, length offs = 2%nat /\ offs !! 0%nat = Some 1.
Proof. destruct (zipmap_walk ex_zm ex_es zipmap_ex_rep) as (offs & Hl & H0 & _). exists offs. split; [exact Hl|exact H0]. Defined.

End Zipmap.
