(* ===== verification/Util.v ===== *)
(** * Number conversions

    [redis/src/util.c]: integers to and from decimal text, with the C library
    functions they rest on ([strtoll] in base 10, [strcasecmp]). *)

From S2P Require Import Prelude Bytes Sds.
Local Open Scope Z_scope.

Module Util.
Import Bytes Sds.

Definition LLONG_MAX : Z := 2 ^ 63 - 1.
Definition LLONG_MIN : Z := - 2 ^ 63.
(** [long] has 32 bits. *)
Definition LONG_MAX : Z := 2 ^ 31 - 1.
Definition LONG_MIN : Z := - 2 ^ 31.

Definition isdigit (c : Z) : bool := (48 <=? c) && (c <=? 57).

(** ** The C library *)

Fixpoint skip_space (fuel : nat) (s : block) (p : Z) : option Z :=
  match fuel with
  | O => None
  | S fuel' => c ← get s p; if isspace c then skip_space fuel' s (p + 1) else Some p
  end.

Fixpoint scan_digits (fuel : nat) (s : block) (p acc : Z) : option (Z * Z) :=
  match fuel with
  | O => None
  | S fuel' => c ← get s p; if isdigit c then scan_digits fuel' s (p + 1) (10 * acc + (c - 48)) else Some (acc, p)
  end.

(** [strtoll(s, &end, 10)]: the value, clamped to a [long long], and [end]. *)
Definition strtoll (s : block) : option (Z * Z) :=
  p ← skip_space (S (length s)) s 0;
  c ← get s p;
  let neg := c =? 45 in
  let start := if neg || (c =? 43) then p + 1 else p in
  '(acc, e) ← scan_digits (S (length s)) s start 0;
  if e =? start then Some (0, 0)
  else Some (if neg then Z.max LLONG_MIN (- acc) else Z.min LLONG_MAX acc, e).

(** The characters of a C string. *)
Fixpoint cstr (s : block) : option (list Z) :=
  match s with
  | [] => None
  | c :: s' => if c =? 0 then Some [] else l ← cstr s'; Some (c :: l)
  end.

(** [strcasecmp(s, lit) == 0] for a lower-case [lit]. *)
Definition strcaseeq (s : block) (lit : list Z) : option bool :=
  l ← cstr s; Some (bool_decide (map tolower l = lit)).

Section util.
Context (junk : Z).

(** ** util.c *)

(** [s] is the caller's buffer, of at least [len] bytes; the result is the
    buffer and the length written. *)
Definition ll2string (s : block) (len value : Z) : option (block * Z) :=
  if len =? 0 then Some (s, 0)
  else
    let buf := replicate 32 junk in
    let v := if value <? 0 then wrapu 64 (- value) else value in
    '(buf, p) ← digits_loop 20 buf 31 v;
    '(buf, p) ← (if value <? 0 then buf ← write buf p [45]; Some (buf, p - 1) else Some (buf, p));
    let p := p + 1 in
    let l := 32 - p in
    let l := if len <? l + 1 then len - 1 else l in
    d ← read buf p l;
    s ← write s 0 d;
    s ← write s l [0];
    Some (s, l).

(** The inner [None] is [REDIS_ERR]. *)
Definition isStringRepresentableAsLongLong (s : sdshdr) : option (option Z) :=
  '(value, e) ← strtoll (buf s);
  c ← get (buf s) e;
  if negb (c =? 0) then Some None
  else
    '(b, slen) ← ll2string (replicate 32 junk) 32 value;
    if negb (sdslen s =? slen) then Some None
    else
      x ← read b 0 slen;
      y ← read (buf s) 0 slen;
      if negb (memcmp x y =? 0) then Some None else Some (Some value).

Definition isStringRepresentableAsLong (s : sdshdr) : option (option Z) :=
  r ← isStringRepresentableAsLongLong s;
  match r with
  | None => Some None
  | Some ll => if (ll <? LONG_MIN) || (LONG_MAX <? ll) then Some None else Some (Some ll)
  end.

Fixpoint skip_digits (fuel : nat) (s : block) (p : Z) : option Z :=
  match fuel with
  | O => None
  | S fuel' => c ← get s p; if negb (c =? 0) && isdigit c then skip_digits fuel' s (p + 1) else Some p
  end.

(** The units, in the order of the tests. *)
Definition units : list (list Z * Z) :=
  [([98], 1); ([107], 1000); ([107; 98], 1024); ([109], 1000 * 1000); ([109; 98], 1024 * 1024);
   ([103], 1000 * 1000 * 1000); ([103; 98], 1024 * 1024 * 1024)].

Fixpoint find_unit (u : block) (l : list (list Z * Z)) : option (option Z) :=
  match l with
  | [] => Some None
  | (lit, mul) :: l' => b ← strcaseeq u lit; if (b : bool) then Some (Some mul) else find_unit u l'
  end.

(** The result and [*err]. *)
Definition memtoll (p : block) : option (Z * Z) :=
  c ← get p 0;
  u ← skip_digits (S (length p)) p (if c =? 45 then 1 else 0);
  c ← get p u;
  r ← (if c =? 0 then Some (Some 1) else find_unit (drop (Z.to_nat u) p) units);
  let '(mul, err) := match r with Some mul => (mul, 0) | None => (1, 1) end in
  let digits := u in
  if 128 <=? digits then Some (LLONG_MAX, 1)
  else
    d ← read p 0 digits;
    '(val, _) ← strtoll (d ++ [0]);
    Some (to_signed 64 (val * mul), err).

(** ** Decimal text *)

#[local] Arguments digs : simpl never.
#[local] Arguments digits_loop : simpl never.

Definition dec (v : Z) : list Z := if v <? 0 then 45 :: digs 20 (- v) else digs 20 v.

Lemma digs_ok v : 0 <= v < 2 ^ 64 -> Forall digit (digs 20 v) /\ decval (digs 20 v) = v /\ (0 < length (digs 20 v) <= 20)%nat.
Proof.
  intros Hv. destruct (digits_loop_ok 20 (replicate 32 0) [] v) as (_ & ds & _ & _ & Hl & Hd & Hval & ->);
    [change (10 ^ Z.of_nat 20) with (10 ^ 20); lia|rewrite length_replicate; lia|lia|]. done.
Qed.

Lemma dec_length v : in_s 64 v -> (0 < length (dec v) <= 21)%nat.
Proof.
  intros [Hl Hh]. change (64 - 1) with 63 in *. unfold dec. destruct (Z.ltb_spec v 0).
  - destruct (digs_ok (- v)) as (_ & _ & ?); [lia|]. cbn [length]. lia.
  - destruct (digs_ok v) as (_ & _ & ?); [lia|]. lia.
Qed.

(** The buffer of [ll2string] holds the text of the value at its end. *)
Lemma format_ok value : in_s 64 value -> exists pre,
  ('(buf, p) ← digits_loop 20 (replicate 32 junk) 31 (if value <? 0 then wrapu 64 (- value) else value);
   (if value <? 0 then buf ← write buf p [45]; Some (buf, p - 1) else Some (buf, p)))
  = Some (pre ++ dec value, Z.of_nat (length pre) - 1) /\ length (pre ++ dec value) = 32%nat.
Proof.
  intros [Hlo Hhi]. change (64 - 1) with 63 in *. unfold dec.
  assert (Hv : (if value <? 0 then wrapu 64 (- value) else value) = Z.abs value).
  { destruct (Z.ltb_spec value 0); [rewrite wrapu_id by (unfold in_u; lia)|]; lia. }
  rewrite Hv. clear Hv.
  destruct (digits_loop_ok 20 (replicate 32 junk) [] (Z.abs value)) as (pre & ds & Hrun & Hlen & Hl & _ & _ & Eds);
    [change (10 ^ Z.of_nat 20) with (10 ^ 20); lia|rewrite length_replicate; lia|lia|].
  rewrite length_replicate in *. rewrite !app_nil_r in Hrun. change (Z.of_nat 32 - 1) with 31 in Hrun.
  rewrite Hrun. clear Hrun. cbn [mbind option_bind]. destruct (Z.ltb_spec value 0) as [Hn|Hp].
  - rewrite <- (Z.abs_neq value) by lia. rewrite <- Eds. clear Eds.
    destruct (exists_last (l := pre)) as (pre0 & x & ->); [intros ->; simpl in *; lia|]. rewrite length_app in *. simpl in *.
    rewrite (write_at _ pre0 [x] [45] ds); [|by rewrite <- app_assoc|lia|done]. cbn [mbind option_bind].
    exists pre0. split; [repeat f_equal; lia|]. rewrite length_app. simpl. lia.
  - rewrite <- (Z.abs_eq value) by lia. rewrite <- Eds. exists pre. split; [done|]. rewrite length_app. lia.
Qed.

Lemma ll2string_ok s len value : in_s 64 value -> 0 < len <= Z.of_nat (length s) ->
  let l := Z.min (Z.of_nat (length (dec value))) (len - 1) in
  ll2string s len value = Some (take (Z.to_nat l) (dec value) ++ [0] ++ drop (Z.to_nat l + 1) s, l).
Proof.
  intros Hv Hl l. unfold ll2string. rewrite (proj2 (Z.eqb_neq len 0)) by lia.
  pose proof (dec_length value Hv) as Hdl.
  destruct (format_ok value Hv) as (pre & Hrun & Hlen). rewrite length_app in Hlen.
  destruct (digits_loop _ _ _ _) as [[b p]|]; [|done]. cbn [mbind option_bind] in *.
  destruct (if value <? 0 then _ else _) as [[b' p']|]; [|done]. injection Hrun as -> ->. cbn [mbind option_bind].
  replace (32 - (Z.of_nat (length pre) - 1 + 1)) with (Z.of_nat (length (dec value))) by lia.
  assert (El : (if len <? Z.of_nat (length (dec value)) + 1 then len - 1 else Z.of_nat (length (dec value))) = l)
    by (unfold l; destruct (Z.ltb_spec len (Z.of_nat (length (dec value)) + 1)); lia).
  rewrite El. set (d := take (Z.to_nat l) (dec value)).
  assert (Hd : length d = Z.to_nat l) by (unfold d; rewrite length_take; lia).
  rewrite (read_at _ pre d (drop (Z.to_nat l) (dec value))); [|unfold d; by rewrite take_drop|lia|lia]. cbn [mbind option_bind].
  rewrite (write_at s [] (take (Z.to_nat l) s) d (drop (Z.to_nat l) s)); [|by rewrite take_drop|done|rewrite length_take; lia].
  cbn [mbind option_bind app].
  destruct (drop (Z.to_nat l) s) as [|x tl] eqn:E; [apply (f_equal length) in E; rewrite length_drop in E; simpl in E; lia|].
  rewrite (write_at _ d [x] [0] tl); [|done|lia|done]. cbn [mbind option_bind]. do 4 f_equal.
  rewrite <- drop_drop, E. done.
Qed.

(** ** Reading a number *)

Lemma scan_digits_ok ds : forall s pre c tl acc fuel, s = pre ++ ds ++ c :: tl -> Forall digit ds -> isdigit c = false -> (length ds < fuel)%nat ->
  scan_digits fuel s (Z.of_nat (length pre)) acc =
  Some (fold_left (fun a c => 10 * a + (c - 48)) ds acc, Z.of_nat (length pre + length ds)).
Proof.
  induction ds as [|d ds IH]; intros s pre c tl acc fuel Es Hd Hc Hf; (destruct fuel as [|fuel]; [simpl in Hf; lia|]); cbn [scan_digits].
  - rewrite Es. cbn [app]. rewrite get_app by done. cbn [mbind option_bind]. rewrite Hc. simpl. do 2 f_equal. lia.
  - inversion Hd as [|? ? H1 H2]; subst. cbn [app]. rewrite get_app by done. cbn [mbind option_bind].
    unfold digit in H1. unfold isdigit at 1. rewrite (proj2 (Z.leb_le 48 d)), (proj2 (Z.leb_le d 57)) by lia. cbn [andb].
    replace (Z.of_nat (length pre) + 1) with (Z.of_nat (length (pre ++ [d]))) by (rewrite length_app; simpl; lia).
    rewrite (IH _ (pre ++ [d]) c tl); [|by rewrite <- app_assoc|done|done|simpl in Hf; lia].
    cbn [fold_left]. do 2 f_equal. rewrite length_app. simpl. lia.
Qed.

Lemma digit_facts c : digit c -> isspace c = false /\ (c =? 45) = false /\ (c =? 43) = false.
Proof.
  unfold digit, isspace. intros Hc. rewrite !(proj2 (Z.eqb_neq c _)) by lia. rewrite (proj2 (Z.leb_gt c 13)) by lia.
  by rewrite andb_false_r.
Qed.

Lemma strtoll_dec v c tl : in_s 64 v -> isdigit c = false -> strtoll (dec v ++ c :: tl) = Some (v, Z.of_nat (length (dec v))).
Proof.
  intros [Hlo Hhi] Hc. change (64 - 1) with 63 in *. unfold strtoll, dec. set (s := (if v <? 0 then _ else _) ++ c :: tl).
  destruct (Z.ltb_spec v 0) as [Hn|Hp].
  - destruct (digs_ok (- v)) as (Hd & Hval & Hl); [lia|]. assert (Hg : get s 0 = Some 45) by done.
    cbn [skip_space]. rewrite Hg. cbn [mbind option_bind]. change (isspace 45) with false. cbv iota. cbn [mbind option_bind]. rewrite Hg.
    cbn [mbind option_bind]. change (45 =? 45) with true. cbn [orb].
    replace (0 + 1) with (Z.of_nat (length [45])) by done.
    rewrite (scan_digits_ok (digs 20 (- v)) s [45] c tl 0); [|done|done|done|unfold s; rewrite length_app; cbn [length]; lia].
    cbn [mbind option_bind]. rewrite (proj2 (Z.eqb_neq _ _)) by (simpl length; lia). fold (decval (digs 20 (- v))). rewrite Hval.
    do 2 f_equal. unfold LLONG_MIN. lia.
  - destruct (digs_ok v) as (Hd & Hval & Hl); [lia|].
    assert (Hd0 : exists d ds', digs 20 v = d :: ds' /\ digit d) by (destruct (digs 20 v) as [|d ds'] eqn:E; [simpl in Hl; lia|]; inversion Hd; eauto).
    destruct Hd0 as (d & ds' & Ed & Hdd). destruct (digit_facts d Hdd) as (F1 & F2 & F3).
    assert (Hg : get s 0 = Some d) by (unfold s; rewrite Ed; done).
    cbn [skip_space]. rewrite Hg. cbn [mbind option_bind]. rewrite F1. cbn [mbind option_bind]. rewrite Hg. cbn [mbind option_bind]. rewrite F2, F3. cbn [orb].
    pose proof (scan_digits_ok (digs 20 v) s [] c tl 0 (S (length s))) as Hsc. cbn [length app Nat.add] in Hsc. change (Z.of_nat 0) with 0 in Hsc.
    rewrite Hsc; [|done|done|done|unfold s; rewrite length_app; cbn [length]; lia].
    cbn [mbind option_bind]. rewrite (proj2 (Z.eqb_neq _ _)) by lia. fold (decval (digs 20 v)). rewrite Hval. do 2 f_equal. unfold LLONG_MAX. lia.
Qed.

Lemma get_upto (pre post : list Z) i : 0 <= i <= Z.of_nat (length pre) -> exists c, get (pre ++ 0 :: post) i = Some c /\ (c <> 0 -> i < Z.of_nat (length pre)).
Proof.
  intros Hi. unfold get. rewrite (proj2 (Z.ltb_ge i 0)) by lia.
  destruct (decide (i = Z.of_nat (length pre))) as [->|Hne].
  - exists 0. rewrite Nat2Z.id. split; [by apply list_lookup_middle|done].
  - destruct (lookup_lt_is_Some_2 (pre ++ 0 :: post) (Z.to_nat i)) as [c Hc]; [rewrite length_app; lia|]. exists c. split; [done|lia].
Qed.

(** [strtoll] stops at the terminator at the latest. *)
Lemma strtoll_total pre post : exists v e c, strtoll (pre ++ 0 :: post) = Some (v, e) /\ in_s 64 v /\ get (pre ++ 0 :: post) e = Some c.
Proof.
  set (s := pre ++ 0 :: post).
  assert (Hgu : forall i, 0 <= i <= Z.of_nat (length pre) -> exists c, get s i = Some c /\ (c <> 0 -> i < Z.of_nat (length pre)))
    by (intros; by apply get_upto).
  assert (Hsk : forall fuel p, 0 <= p <= Z.of_nat (length pre) -> Z.of_nat (length pre) - p < Z.of_nat fuel ->
    exists q, skip_space fuel s p = Some q /\ p <= q <= Z.of_nat (length pre)).
  { induction fuel as [|fuel IH]; intros p Hp Hf; [lia|]. cbn [skip_space].
    destruct (Hgu p Hp) as (c & -> & Hc). cbn [mbind option_bind]. destruct (isspace c) eqn:Ec; [|exists p; split; [done|lia]].
    assert (c <> 0) by (by intros ->). destruct (IH (p + 1)) as (q & -> & Hq); [lia|lia|]. exists q. split; [done|lia]. }
  assert (Hsc : forall fuel p acc, 0 <= acc -> 0 <= p <= Z.of_nat (length pre) -> Z.of_nat (length pre) - p < Z.of_nat fuel ->
    exists a q, scan_digits fuel s p acc = Some (a, q) /\ 0 <= a /\ p <= q <= Z.of_nat (length pre)).
  { induction fuel as [|fuel IH]; intros p acc Ha Hp Hf; [lia|]. cbn [scan_digits].
    destruct (Hgu p Hp) as (c & -> & Hc). cbn [mbind option_bind]. destruct (isdigit c) eqn:Ec; [|exists acc, p; split; [done|lia]].
    unfold isdigit in Ec. bsimp. destruct (IH (p + 1) (10 * acc + (c - 48))) as (a & q & -> & Ha' & Hq); [lia|lia|lia|]. exists a, q. split; [done|lia]. }
  assert (Hlen : (length pre < length s)%nat) by (unfold s; rewrite length_app; simpl; lia).
  unfold strtoll. destruct (Hsk (S (length s)) 0) as (q & -> & Hq); [lia|lia|]. cbn [mbind option_bind].
  destruct (Hgu q) as (c & -> & Hc); [lia|]. cbn [mbind option_bind].
  set (start := if (c =? 45) || (c =? 43) then q + 1 else q).
  assert (Hst : 0 <= start <= Z.of_nat (length pre)).
  { unfold start. destruct ((c =? 45) || (c =? 43)) eqn:E; [|lia]. apply orb_true_iff in E as [E%Z.eqb_eq|E%Z.eqb_eq]; subst; lia. }
  destruct (Hsc (S (length s)) start 0) as (a & e & -> & Ha & He); [lia|lia|lia|]. cbn [mbind option_bind].
  destruct (e =? start).
  - destruct (Hgu 0) as (c0 & Hc0 & _); [lia|]. exists 0, 0, c0. split; [done|]. split; [|done]. unfold in_s. lia.
  - destruct (Hgu e) as (c0 & Hc0 & _); [lia|]. eexists _, e, c0. split; [done|]. split; [|done].
    unfold in_s, LLONG_MIN, LLONG_MAX. change (64 - 1) with 63. destruct (c =? 45); lia.
Qed.

(** A string is representable as a [long long] exactly when it is the
    decimal text of one, which is then the value stored; the test reads no byte
    outside the string and its terminator, whatever the string. *)
Theorem representable_iff s st : rep s st ->
  exists r, isStringRepresentableAsLongLong s = Some r /\ forall v, r = Some v <-> in_s 64 v /\ st = dec v.
Proof.
  intros Hrep. unfold isStringRepresentableAsLongLong. pose proof (rep_len s st Hrep) as Hlen. rewrite Hlen.
  destruct Hrep as (rest & -> & Hb). cbn [buf app].
  destruct (strtoll_total st rest) as (v & e & c & Hst & Hv & Hg). rewrite Hst. cbn [mbind option_bind]. rewrite Hg. cbn [mbind option_bind].
  assert (Huniq : forall w, in_s 64 w -> st = dec w -> v = w /\ c = 0).
  { intros w Hw Est. rewrite Est, (strtoll_dec w 0 rest Hw eq_refl) in Hst. injection Hst as -> <-. split; [done|].
    rewrite Est, get_app in Hg by done. congruence. }
  destruct (Z.eqb_spec c 0) as [->|Hc]; cbn [negb].
  2:{ exists None. split; [done|]. intros w. split; [done|]. intros [Hw Est]. destruct (Huniq w Hw Est). done. }
  pose proof (dec_length v Hv) as Hdl.
  rewrite ll2string_ok by (try done; rewrite ?length_replicate; lia). rewrite length_replicate || idtac. cbn [mbind option_bind].
  replace (Z.min (Z.of_nat (length (dec v))) (32 - 1)) with (Z.of_nat (length (dec v))) by lia. rewrite Nat2Z.id, take_ge by lia.
  destruct (Z.eqb_spec (Z.of_nat (length st)) (Z.of_nat (length (dec v)))) as [El|El]; cbn [negb].
  2:{ exists None. split; [done|]. intros w. split; [done|]. intros [Hw Est]. destruct (Huniq w Hw Est) as [<- _]. by rewrite Est in El. }
  rewrite !read_prefix by (rewrite !length_app; lia). cbn [mbind option_bind]. rewrite Nat2Z.id, take_app_length.
  replace (length (dec v)) with (length st) by lia. rewrite take_app_length.
  pose proof (memcmp_eq (dec v) st ltac:(lia)) as Hm.
  destruct (Z.eqb_spec (memcmp (dec v) st) 0) as [E|E]; cbn [negb].
  - exists (Some v). split; [done|]. apply Hm in E. intros w. split; [intros [= <-]; done|].
    intros [Hw Est]. destruct (Huniq w Hw Est) as [<- _]. done.
  - exists None. split; [done|]. intros w. split; [done|]. intros [Hw Est]. destruct (Huniq w Hw Est) as [<- _]. exfalso. apply E, Hm. done.
Qed.

(** ** Amounts of memory *)

Lemma skip_digits_ok ds : forall s pre c tl fuel, s = pre ++ ds ++ c :: tl -> Forall digit ds -> isdigit c = false -> (length ds < fuel)%nat ->
  skip_digits fuel s (Z.of_nat (length pre)) = Some (Z.of_nat (length pre + length ds)).
Proof.
  induction ds as [|d ds IH]; intros s pre c tl fuel Es Hd Hc Hf; (destruct fuel as [|fuel]; [simpl in Hf; lia|]); cbn [skip_digits].
  - rewrite Es. cbn [app]. rewrite get_app by done. cbn [mbind option_bind]. rewrite Hc, andb_false_r. simpl. f_equal. lia.
  - inversion Hd as [|? ? H1 H2]; subst. cbn [app]. rewrite get_app by done. cbn [mbind option_bind].
    unfold digit in H1. unfold isdigit at 1. rewrite (proj2 (Z.eqb_neq d 0)), (proj2 (Z.leb_le 48 d)), (proj2 (Z.leb_le d 57)) by lia. cbn [andb negb].
    replace (Z.of_nat (length pre) + 1) with (Z.of_nat (length (pre ++ [d]))) by (rewrite length_app; simpl; lia).
    rewrite (IH _ (pre ++ [d]) c tl); [|by rewrite <- app_assoc|done|done|simpl in Hf; lia]. f_equal. rewrite length_app. simpl. lia.
Qed.

Lemma skip_dec n c tl : in_s 64 n -> isdigit c = false ->
  (c0 ← get (dec n ++ c :: tl) 0; skip_digits (S (length (dec n ++ c :: tl))) (dec n ++ c :: tl) (if c0 =? 45 then 1 else 0))
  = Some (Z.of_nat (length (dec n))).
Proof.
  intros [Hlo Hhi] Hc. change (64 - 1) with 63 in *. unfold dec. destruct (Z.ltb_spec n 0).
  - destruct (digs_ok (- n)) as (Hd & _ & _); [lia|]. change (get ((45 :: digs 20 (- n)) ++ c :: tl) 0) with (Some 45). cbn [mbind option_bind].
    change (45 =? 45) with true. cbv iota. change 1 with (Z.of_nat (length [45])).
    rewrite (skip_digits_ok (digs 20 (- n)) _ [45] c tl); [done|done|done|done|rewrite length_app; cbn [length]; lia].
  - destruct (digs_ok n) as (Hd & _ & Hl); [lia|]. destruct (digs 20 n) as [|d ds'] eqn:E; [simpl in Hl; lia|]. rewrite <- E in *.
    assert (Hdd : digit d) by (rewrite E in Hd; by inversion Hd). destruct (digit_facts d Hdd) as (_ & F2 & _).
    replace (get (digs 20 n ++ c :: tl) 0) with (Some d) by (by rewrite E). cbn [mbind option_bind]. rewrite F2.
    change 0 with (Z.of_nat (length (@nil Z))).
    rewrite (skip_digits_ok (digs 20 n) _ [] c tl); [done|done|done|done|rewrite length_app; cbn [length]; lia].
Qed.

Lemma cstr_app u tl : 0 ∉ u -> cstr (u ++ 0 :: tl) = Some u.
Proof.
  induction u as [|c u IH]; intros Hn; [done|]. simpl. rewrite (proj2 (Z.eqb_neq c 0)) by set_solver. by rewrite IH by set_solver.
Qed.

Lemma tolower_zero u : 0 ∈ u -> 0 ∈ map tolower u.
Proof. intros Hin. change 0 with (tolower 0). apply list_elem_of_fmap. by exists 0. Qed.

Lemma tolower_digit c : isdigit c = true -> tolower c = c.
Proof. unfold isdigit, tolower. intros Hc. bsimp. by rewrite (proj2 (Z.leb_gt 65 c)) by lia. Qed.

(** [memtoll] reads an amount written as a decimal number with no unit or
    one of the seven units, in any case, as the number times the unit, without
    an error, whenever the product is a [long long]. *)
Theorem memtoll_units n u mul tl : in_s 64 n -> in_s 64 (n * mul) ->
  u = [] /\ mul = 1 \/ (map tolower u, mul) ∈ units ->
  memtoll (dec n ++ u ++ 0 :: tl) = Some (n * mul, 0).
Proof.
  intros Hn Hm Hu.
  assert (Hz : 0 ∉ u).
  { intros Hin. destruct Hu as [[-> _]|Hu]; [by apply elem_of_nil in Hin|]. apply tolower_zero in Hin.
    unfold units in Hu. repeat (apply elem_of_cons in Hu as [[= E _]|Hu]; [rewrite E in Hin; set_unfold in Hin; lia|]). by apply elem_of_nil in Hu. }
  assert (Hhd : exists c tl', u ++ 0 :: tl = c :: tl' /\ isdigit c = false).
  { destruct u as [|c u]; [by eexists _, _|]. eexists c, _. split; [done|]. destruct (isdigit c) eqn:E; [|done]. exfalso.
    destruct Hu as [[? _]|Hu]; [done|]. cbn [map] in Hu. rewrite (tolower_digit c E) in Hu. unfold isdigit in E. bsimp.
    unfold units in Hu. repeat (apply elem_of_cons in Hu as [[= E1 _]|Hu]; [subst; lia|]). by apply elem_of_nil in Hu. }
  destruct Hhd as (c & tl' & Ehd & Hc). pose proof (dec_length n Hn) as Hdl. unfold memtoll. rewrite Ehd.
  pose proof (skip_dec n c tl' Hn Hc) as Hskip. destruct (get (dec n ++ c :: tl') 0) as [c0|]; [|done]. cbn [mbind option_bind] in *. rewrite Hskip.
  cbn [mbind option_bind]. rewrite get_app by done. cbn [mbind option_bind]. rewrite Nat2Z.id, drop_app_length, <- Ehd.
  assert (Hunit : (if c =? 0 then Some (Some 1) else find_unit (u ++ 0 :: tl) units) = Some (Some mul)).
  { destruct Hu as [[-> ->]|Hu]; [injection Ehd as <- _; done|].
    assert (c <> 0) by (destruct u; [unfold units in Hu; set_unfold in Hu; naive_solver|injection Ehd as -> _; set_solver]).
    rewrite (proj2 (Z.eqb_neq c 0)) by done. unfold units in *. cbn [find_unit]. unfold strcaseeq. rewrite (cstr_app u tl Hz). cbn [mbind option_bind].
    repeat (apply elem_of_cons in Hu as [[= -> ->]|Hu]; [reflexivity|]). by apply elem_of_nil in Hu. }
  rewrite Hunit. cbn [mbind option_bind]. rewrite (proj2 (Z.leb_gt _ _)) by lia.
  rewrite read_prefix by (rewrite length_app; lia). cbn [mbind option_bind]. rewrite Nat2Z.id, take_app_length.
  rewrite (strtoll_dec n 0 [] Hn eq_refl). cbn [mbind option_bind]. rewrite to_signed_id by (done || lia). done.
Qed.

End util.

(** ** Examples *)

(** ["-12"] *)
Definition ex_num : sdshdr := mk_sds 3 0 [45; 49; 50; 0].

Lemma representable_iff_witness : exists r, isStringRepresentableAsLongLong 9 ex_num = Some r /\
  forall v, r = Some v <-> in_s 64 v /\ [45; 49; 50] = dec v.
Proof. apply (representable_iff 9 ex_num [45; 49; 50]). exists []. done. Defined.

(** ["12Kb"] *)
Lemma memtoll_units_witness : memtoll [49; 50; 75; 98; 0] = Some (12288, 0).
Proof.
  apply (memtoll_units 12 [75; 98] 1024 []); [unfold in_s; lia|unfold in_s; lia|right].
  apply list_elem_of_lookup_2 with 2%nat. reflexivity.
Defined.

End Util.
