(* ===== verification/Glob.v ===== *)
(** * Glob patterns

    [stringmatchlen] and [stringmatch] of [redis/src/util.c], the matcher of
    [KEYS] and [PSUBSCRIBE].  [pattern] and [string] are buffers read through
    offsets [p] and [s]; a read outside a buffer is [None].  A character is a
    byte of the buffer; where the code widens it to an [int], [schar] is its
    signed value. *)

From S2P Require Import Prelude Bytes Sds Util.
Local Open Scope Z_scope.

Module Glob.
Import Bytes Sds Util.

Definition schar (c : Z) : Z := to_signed 8 c.

(** The comparison of two characters, folded with [nocase]. *)
Definition char_eq (nocase : bool) (a b : Z) : bool :=
  if nocase then tolower (schar a) =? tolower (schar b) else schar a =? schar b.

(** The test of a range of a class. *)
Definition in_range (nocase : bool) (lo hi c : Z) : bool :=
  let '(start, stop) := if schar hi <? schar lo then (schar hi, schar lo) else (schar lo, schar hi) in
  if nocase then (tolower start <=? tolower (schar c)) && (tolower (schar c) <=? tolower stop)
  else (start <=? schar c) && (schar c <=? stop).

(** [while (pattern[1] == '*')]. *)
Fixpoint skip_next_stars (fuel : nat) (pattern : block) (p plen : Z) : option (Z * Z) :=
  match fuel with
  | O => None
  | S fuel' => c ← get pattern (p + 1); if c =? 42 then skip_next_stars fuel' pattern (p + 1) (plen - 1) else Some (p, plen)
  end.

(** [while ( *pattern == '*')]. *)
Fixpoint skip_stars (fuel : nat) (pattern : block) (p plen : Z) : option (Z * Z) :=
  match fuel with
  | O => None
  | S fuel' => c ← get pattern p; if c =? 42 then skip_stars fuel' pattern (p + 1) (plen - 1) else Some (p, plen)
  end.

(** [while (stringLen)] of the star, [rec] being the recursive call. *)
Fixpoint star_loop (rec : Z -> Z -> option bool) (fuel : nat) (s slen : Z) : option bool :=
  match fuel with
  | O => None
  | S fuel' =>
    if slen =? 0 then Some false
    else r ← rec s slen; if r : bool then Some true else star_loop rec fuel' (s + 1) (slen - 1)
  end.

(** [while (1)] over the items of a class: the place of the bracket and [match]. *)
Fixpoint class_loop (fuel : nat) (pattern string : block) (nocase : bool) (s p plen : Z) (hit : bool) : option (Z * Z * bool) :=
  match fuel with
  | O => None
  | S fuel' =>
    c ← get pattern p;
    if c =? 92 then
      c1 ← get pattern (p + 1); d ← get string s;
      class_loop fuel' pattern string nocase s (p + 2) (plen - 2) (hit || (c1 =? d))
    else if c =? 93 then Some (p, plen, hit)
    else if plen =? 0 then Some (p - 1, plen + 1, hit)
    else
      c1 ← get pattern (p + 1);
      if (c1 =? 45) && (3 <=? plen) then
        stop ← get pattern (p + 2); d ← get string s;
        class_loop fuel' pattern string nocase s (p + 3) (plen - 3) (hit || in_range nocase c stop d)
      else
        d ← get string s;
        class_loop fuel' pattern string nocase s (p + 1) (plen - 1) (hit || char_eq nocase c d)
  end.

(** One pass of the [switch] for a pattern character that is not a star:
    [inl] a [return 0], [inr] the pattern and the string after it. *)
Definition match_one (pattern string : block) (nocase : bool) (c p plen s slen : Z) : option (unit + Z * Z * Z * Z) :=
  if c =? 63 then Some (if slen =? 0 then inl () else inr (p, plen, s + 1, slen - 1))
  else if c =? 91 then
    c1 ← get pattern (p + 1);
    let not := c1 =? 94 in
    '(p, plen, hit) ← class_loop (S (length pattern)) pattern string nocase s
        (if not then p + 2 else p + 1) (if not then plen - 2 else plen - 1) false;
    Some (if xorb not hit then inr (p, plen, s + 1, slen - 1) else inl ())
  else
    let '(p, plen) := if (c =? 92) && (2 <=? plen) then (p + 1, plen - 1) else (p, plen) in
    c ← get pattern p; d ← get string s;
    Some (if char_eq nocase c d then inr (p, plen, s + 1, slen - 1) else inl ()).

(** The outer loop from [p] and [s].  Every pass and every call consumes a
    character of the pattern. *)
Fixpoint match_loop (fuel : nat) (pattern string : block) (nocase : bool) (p plen s slen : Z) : option bool :=
  match fuel with
  | O => None
  | S fuel' =>
    if plen =? 0 then Some (slen =? 0)
    else
      c ← get pattern p;
      if c =? 42 then
        '(p, plen) ← skip_next_stars (S (length pattern)) pattern p plen;
        if plen =? 1 then Some true
        else star_loop (match_loop fuel' pattern string nocase (p + 1) (plen - 1)) (S (length string)) s slen
      else
        r ← match_one pattern string nocase c p plen s slen;
        match r with
        | inl _ => Some false
        | inr (p, plen, s, slen) =>
          if slen =? 0 then
            '(_, plen) ← skip_stars (S (length pattern)) pattern (p + 1) (plen - 1);
            Some (plen =? 0)
          else match_loop fuel' pattern string nocase (p + 1) (plen - 1) s slen
        end
  end.

Definition stringmatchlen (pattern : block) (patternLen : Z) (string : block) (stringLen : Z) (nocase : bool) : option bool :=
  match_loop (S (length pattern)) pattern string nocase 0 patternLen 0 stringLen.

Definition stringmatch (pattern string : block) (nocase : bool) : option bool :=
  p ← cstr pattern; s ← cstr string;
  stringmatchlen pattern (Z.of_nat (length p)) string (Z.of_nat (length s)) nocase.

(** ** Patterns *)

Inductive item := Char (c : Z) | Escaped (c : Z) | Range (lo hi : Z).
Inductive token := Star | Any | Lit (escaped : bool) (c : Z) | Class_ (neg : bool) (items : list item).

Definition item_text (i : item) : list Z :=
  match i with Char c => [c] | Escaped c => [92; c] | Range lo hi => [lo; 45; hi] end.
Definition items_text (items : list item) : list Z := mjoin (item_text <$> items).
Definition token_text (t : token) : list Z :=
  match t with
  | Star => [42]
  | Any => [63]
  | Lit escaped c => (if escaped then [92] else []) ++ [c]
  | Class_ neg items => 91 :: (if neg then [94] else []) ++ items_text items ++ [93]
  end.
Definition text (ts : list token) : list Z := mjoin (token_text <$> ts).

(** What makes the text of a class read back: plain characters are not special
    and not followed by a dash. *)
Definition item_ok (i : item) : bool :=
  match i with Char c | Range c _ => negb (c =? 92) && negb (c =? 93) | Escaped _ => true end.
Definition dash_first (items : list item) : bool :=
  match items with (Char c | Range c _) :: _ => c =? 45 | _ => false end.
Definition caret_first (items : list item) : bool :=
  match items with (Char c | Range c _) :: _ => c =? 94 | _ => false end.
Fixpoint items_ok (items : list item) : bool :=
  match items with
  | [] => true
  | i :: items' => item_ok i && (match i with Char _ => negb (dash_first items') | _ => true end) && items_ok items'
  end.
Definition token_ok (t : token) : bool :=
  match t with
  | Lit false c => negb (c =? 42) && negb (c =? 63) && negb (c =? 91) && negb (c =? 92)
  | Class_ neg items => items_ok items && (neg || negb (caret_first items))
  | _ => true
  end.

Definition item_hit (nocase : bool) (d : Z) (i : item) : bool :=
  match i with Char c => char_eq nocase c d | Escaped c => c =? d | Range lo hi => in_range nocase lo hi d end.

(** What a pattern means. *)
Inductive glob (nocase : bool) : list token -> list Z -> Prop :=
| glob_nil : glob nocase [] []
| glob_star ts s1 s2 : glob nocase ts s2 -> glob nocase (Star :: ts) (s1 ++ s2)
| glob_any ts d s : glob nocase ts s -> glob nocase (Any :: ts) (d :: s)
| glob_lit e c ts d s : char_eq nocase c d = true -> glob nocase ts s -> glob nocase (Lit e c :: ts) (d :: s)
| glob_class neg items ts d s : xorb neg (existsb (item_hit nocase d) items) = true -> glob nocase ts s ->
    glob nocase (Class_ neg items :: ts) (d :: s).

(** A pattern that may meet the empty string: it does not start with what reads
    a character without testing the length. *)
Definition guards_empty (ts : list token) : bool :=
  match ts with Lit _ c :: _ => negb (schar c =? 0) | Class_ _ _ :: _ => false | _ => true end.

(** ** Positions *)

Definition at_ (b : block) (p : Z) (l : list Z) : Prop := exists pre, b = pre ++ l /\ p = zlen pre.

Lemma at_get b p c l : at_ b p (c :: l) -> get b p = Some c.
Proof. intros (pre & -> & ->). by apply get_zlen. Qed.

Lemma at_next b p c l : at_ b p (c :: l) -> at_ b (p + 1) l.
Proof. intros (pre & -> & ->). exists (pre ++ [c]). split; [by rewrite <- app_assoc|]. by rewrite zlen_app. Qed.

Lemma at_skip b p l l' : at_ b p (l ++ l') -> at_ b (p + zlen l) l'.
Proof. intros (pre & -> & ->). exists (pre ++ l). split; [by rewrite <- app_assoc|]. by rewrite zlen_app. Qed.

Lemma at_length b p l : at_ b p l -> (length l <= length b)%nat.
Proof. intros (pre & -> & _). rewrite length_app. lia. Qed.

Ltac at_reads := repeat match goal with
  | H : at_ ?b ?p (?c :: ?l) |- context [get ?b ?p] => rewrite (at_get b p c l H); cbn [mbind option_bind]
  end.

(** ** Texts *)

Lemma text_cons t ts : text (t :: ts) = token_text t ++ text ts.
Proof. done. Qed.

Lemma text_stars k ts : text (replicate k Star ++ ts) = replicate k 42 ++ text ts.
Proof. induction k as [|k IH]; [done|]. simpl replicate. cbn [app]. rewrite text_cons, IH. done. Qed.

Definition star_first (ts : list token) : bool := match ts with Star :: _ => true | _ => false end.

Lemma split_stars ts : exists k ts', ts = replicate k Star ++ ts' /\ star_first ts' = false.
Proof.
  induction ts as [|t ts (k & ts' & -> & Hs)]; [by exists O, []|].
  destruct t; [by exists (S k), ts'|..]; (eexists O, _; by split).
Qed.

(** The character after the stars. *)
Lemma text_head ts : forallb token_ok ts = true -> star_first ts = false -> exists c l, text ts ++ [0] = c :: l /\ c <> 42.
Proof.
  destruct ts as [|t ts]; intros Hok Hs; [by exists 0, []|]. apply andb_true_iff in Hok as [Ht _].
  rewrite text_cons, <- app_assoc. destruct t as [| |[] c|neg items]; [done|..]; (eexists _, _; split; [reflexivity|]); [done|done| |done].
  by intros ->.
Qed.

Lemma text_length ts : (length ts <= length (text ts))%nat.
Proof.
  induction ts as [|t ts IH]; [done|]. rewrite text_cons, length_app. simpl length.
  destruct t as [| |[] c|neg items]; simpl; lia.
Qed.

Lemma text_nil ts : zlen (text ts) = 0 -> ts = [].
Proof. intros E. unfold zlen in E. pose proof (text_length ts). destruct ts; [done|simpl in *; lia]. Qed.

(** ** The loops *)

Lemma skip_stars_ok pattern c l : c <> 42 -> forall k fuel p plen, at_ pattern p (replicate k 42 ++ c :: l) -> (k < fuel)%nat ->
  skip_stars fuel pattern p plen = Some (p + Z.of_nat k, plen - Z.of_nat k).
Proof.
  intros Hc. induction k as [|k IH]; intros fuel p plen Hat Hf; (destruct fuel as [|fuel]; [lia|]); cbn [skip_stars].
  - cbn in Hat. at_reads. rewrite (proj2 (Z.eqb_neq _ _) Hc). f_equal. f_equal; lia.
  - cbn [replicate app] in Hat. at_reads. cbn [Z.eqb]. rewrite IH by (by (eapply at_next; exact Hat) || lia). f_equal. f_equal; lia.
Qed.

Lemma skip_next_stars_ok pattern c l : c <> 42 -> forall k fuel p plen, at_ pattern (p + 1) (replicate k 42 ++ c :: l) -> (k < fuel)%nat ->
  skip_next_stars fuel pattern p plen = Some (p + Z.of_nat k, plen - Z.of_nat k).
Proof.
  intros Hc. induction k as [|k IH]; intros fuel p plen Hat Hf; (destruct fuel as [|fuel]; [lia|]); cbn [skip_next_stars].
  - cbn in Hat. at_reads. rewrite (proj2 (Z.eqb_neq _ _) Hc). f_equal. f_equal; lia.
  - cbn [replicate app] in Hat. at_reads. cbn [Z.eqb]. rewrite IH by (by (eapply at_next; exact Hat) || lia). f_equal. f_equal; lia.
Qed.

Lemma star_loop_ok rec string (P : list Z -> Prop) :
  (forall s st, st <> [] -> at_ string s (st ++ [0]) -> exists r, rec s (zlen st) = Some r /\ (r = true <-> P st)) ->
  forall st s fuel, at_ string s (st ++ [0]) -> (length st < fuel)%nat ->
  exists r, star_loop rec fuel s (zlen st) = Some r /\ (r = true <-> exists s1 s2, st = s1 ++ s2 /\ s2 <> [] /\ P s2).
Proof.
  intros Hrec. induction st as [|d st IH]; intros s fuel Hat Hf; (destruct fuel as [|fuel]; [simpl in Hf; lia|]); cbn [star_loop].
  - exists false. split; [done|]. split; [done|]. intros (s1 & s2 & E & Hne & _). symmetry in E. by apply app_nil in E as [_ ->].
  - rewrite zlen_cons, (proj2 (Z.eqb_neq _ _)) by (pose proof (zlen_nonneg st); lia). rewrite <- (zlen_cons d st).
    destruct (Hrec s (d :: st)) as (r & -> & Hr); [done|done|]. cbn [mbind option_bind]. destruct r.
    + exists true. split; [done|]. split; [|done]. intros _. exists [], (d :: st). split; [done|]. split; [done|]. by apply Hr.
    + rewrite zlen_cons. replace (1 + zlen st - 1) with (zlen st) by lia.
      destruct (IH (s + 1) fuel) as (r & -> & Hr'); [exact (at_next string s d _ Hat)|simpl in Hf; lia|]. exists r. split; [done|]. rewrite Hr'. split.
      * intros (s1 & s2 & -> & Hne & HP). by exists (d :: s1), s2.
      * intros ([|d' s1] & s2 & E & Hne & HP); simplify_eq/=; [by apply Hr in HP|]. by exists s1, s2.
Qed.

(** The start of the text of the items and the bracket is not a dash. *)
Lemma items_no_dash items l : dash_first items = false -> exists c r, items_text items ++ 93 :: l = c :: r /\ c <> 45.
Proof.
  destruct items as [|[c|c|lo hi] items]; intros Hd; (eexists _, _; split; [reflexivity|]); [done| |done|]; by apply Z.eqb_neq.
Qed.

Lemma class_loop_ok pattern string nocase s d l : get string s = Some d -> forall items fuel p plen hit,
  items_ok items = true -> at_ pattern p (items_text items ++ 93 :: l) ->
  zlen (items_text items) < plen -> (length items < fuel)%nat ->
  class_loop fuel pattern string nocase s p plen hit =
    Some (p + zlen (items_text items), plen - zlen (items_text items), hit || existsb (item_hit nocase d) items).
Proof.
  intros Hd. induction items as [|i items IH]; intros fuel p plen hit Hok Hat Hlen Hf; (destruct fuel as [|fuel]; [simpl in Hf; lia|]); cbn [class_loop].
  - cbn in Hat. at_reads. cbn [Z.eqb]. cbn. rewrite orb_false_r. by rewrite Z.add_0_r, Z.sub_0_r.
  - cbn [items_ok] in Hok. apply andb_true_iff in Hok as [[Hi Hdash]%andb_true_iff Hok]. change (items_text (i :: items)) with (item_text i ++ items_text items) in *.
    rewrite zlen_app in *. rewrite <- app_assoc in Hat. simpl in Hf. pose proof (zlen_nonneg (items_text items)).
    assert (IH' := fun p plen hit => IH fuel p plen hit Hok). clear IH.
    pose proof (at_skip _ _ _ _ Hat) as Hrest.
    destruct i as [c|c|lo hi]; cbn [item_text app] in *.
    + change (zlen [c]) with 1 in *. apply andb_true_iff in Hi as [H92%negb_true_iff H93%negb_true_iff]. apply negb_true_iff in Hdash.
      destruct (items_no_dash items l Hdash) as (c1 & r & E & Hc1). pose proof Hrest as Hrest'. rewrite E in Hrest'. at_reads. rewrite H92, H93.
      rewrite (proj2 (Z.eqb_neq plen 0)) by lia. at_reads. rewrite (proj2 (Z.eqb_neq _ _) Hc1). cbn [andb].
      rewrite Hd. cbn [mbind option_bind]. rewrite IH' by (done || lia). cbn [existsb item_hit]. rewrite orb_assoc. f_equal. f_equal. f_equal; lia.
    + change (zlen [92; c]) with 2 in *. at_reads. cbn [Z.eqb Pos.eqb]. apply at_next in Hat. at_reads.
      rewrite Hd. cbn [mbind option_bind]. rewrite IH' by (done || lia). cbn [existsb item_hit]. rewrite orb_assoc. f_equal. f_equal. f_equal; lia.
    + change (zlen [lo; 45; hi]) with 3 in *. apply andb_true_iff in Hi as [H92%negb_true_iff H93%negb_true_iff]. at_reads. rewrite H92, H93.
      rewrite (proj2 (Z.eqb_neq plen 0)) by lia. apply at_next in Hat. at_reads. cbn [Z.eqb Pos.eqb andb]. rewrite (proj2 (Z.leb_le 3 plen)) by lia.
      apply at_next in Hat. rewrite <- Z.add_assoc in Hat. change (1 + 1) with 2 in Hat. at_reads.
      rewrite Hd. cbn [mbind option_bind]. rewrite IH' by (done || lia). cbn [existsb item_hit]. rewrite orb_assoc. f_equal. f_equal. f_equal; lia.
Qed.

(** ** One token *)

Definition token_hit (nocase : bool) (d : Z) (t : token) : bool :=
  match t with
  | Star => false
  | Any => true
  | Lit _ c => char_eq nocase c d
  | Class_ neg items => xorb neg (existsb (item_hit nocase d) items)
  end.

Lemma items_length items : (length items <= length (items_text items))%nat.
Proof.
  induction items as [|i items IH]; [done|]. change (items_text (i :: items)) with (item_text i ++ items_text items).
  rewrite length_app. simpl length. destruct i; simpl; lia.
Qed.

(** The start of the items is not a caret. *)
Lemma items_no_caret items l : caret_first items = false -> exists c r, items_text items ++ 93 :: l = c :: r /\ c <> 94.
Proof.
  destruct items as [|[c|c|lo hi] items]; intros Hd; (eexists _, _; split; [reflexivity|]); [done| |done|]; by apply Z.eqb_neq.
Qed.

Lemma match_class_ok pattern string nocase s d l neg items p plen slen :
  token_ok (Class_ neg items) = true -> at_ pattern p (token_text (Class_ neg items) ++ l) -> get string s = Some d ->
  zlen (token_text (Class_ neg items)) <= plen ->
  match_one pattern string nocase 91 p plen s slen =
    Some (if token_hit nocase d (Class_ neg items)
          then inr (p + zlen (token_text (Class_ neg items)) - 1, plen - zlen (token_text (Class_ neg items)) + 1, s + 1, slen - 1) else inl ()).
Proof.
  intros Hok Hat Hd Hlen. cbn [token_ok] in Hok. apply andb_true_iff in Hok as [Hi Hcaret].
  assert (Hfuel : (length items < S (length pattern))%nat).
  { apply at_length in Hat. rewrite length_app in Hat. cbn [token_text] in Hat. simpl length in Hat. rewrite !length_app in Hat. pose proof (items_length items). lia. }
  unfold match_one. cbn [Z.eqb Pos.eqb token_hit]. destruct neg; cbn [token_text app] in *; rewrite !zlen_cons, zlen_app in *; change (zlen [93]) with 1 in *;
    rewrite <- app_assoc in Hat; cbn [app] in Hat; apply at_next in Hat.
  - at_reads. cbn [Z.eqb Pos.eqb]. apply at_next in Hat. rewrite <- Z.add_assoc in Hat. change (1 + 1) with 2 in Hat.
    rewrite (class_loop_ok _ _ _ _ d l Hd items) by (done || lia). cbn [mbind option_bind orb]. destruct (existsb _ _); cbn [xorb]; [done|]. do 2 f_equal. repeat f_equal; lia.
  - destruct (items_no_caret items l) as (c1 & r & E & Hc1); [by apply negb_true_iff in Hcaret|]. pose proof Hat as Hat'. rewrite E in Hat'. at_reads.
    rewrite (proj2 (Z.eqb_neq _ _) Hc1).
    rewrite (class_loop_ok _ _ _ _ d l Hd items) by (done || lia). cbn [mbind option_bind orb]. destruct (existsb _ _); cbn [xorb]; [|done]. do 2 f_equal. repeat f_equal; lia.
Qed.

Lemma match_one_ok pattern string nocase t c s d l l' p plen slen :
  token_ok t = true -> t <> Star -> token_text t = c :: l' -> at_ pattern p (token_text t ++ l) -> get string s = Some d ->
  zlen (token_text t) <= plen -> 0 < slen ->
  match_one pattern string nocase c p plen s slen =
    Some (if token_hit nocase d t then inr (p + zlen (token_text t) - 1, plen - zlen (token_text t) + 1, s + 1, slen - 1) else inl ()).
Proof.
  intros Hok Hns E Hat Hd Hlen Hs. destruct t as [| |escaped c'|neg items]; [done|..].
  - injection E as <- <-. unfold match_one. cbn [Z.eqb Pos.eqb token_hit]. rewrite (proj2 (Z.eqb_neq slen 0)) by lia. change (zlen (token_text Any)) with 1. do 2 f_equal. repeat f_equal; lia.
  - unfold match_one. destruct escaped; cbn [token_text app] in *; injection E as <- <-.
    + change (zlen [92; c']) with 2 in *. cbn [Z.eqb Pos.eqb andb]. rewrite (proj2 (Z.leb_le 2 plen)) by lia. apply at_next in Hat. at_reads.
      rewrite Hd. cbn [mbind option_bind token_hit]. destruct (char_eq _ _ _); [|done]. do 2 f_equal. repeat f_equal; lia.
    + change (zlen [c']) with 1 in *. cbn [token_ok] in Hok. rewrite !andb_true_iff, !negb_true_iff in Hok. destruct Hok as [[[_ H63] H91] H92].
      rewrite H63, H91, H92. cbn [andb]. at_reads.
      rewrite Hd. cbn [mbind option_bind token_hit]. destruct (char_eq _ _ _); [|done]. do 2 f_equal. repeat f_equal; lia.
  - injection E as <- <-. by apply (match_class_ok _ _ _ _ _ l).
Qed.

(** At the empty string. *)
Lemma match_one_empty pattern string nocase t ts c s l l' p plen :
  token_ok t = true -> t <> Star -> guards_empty (t :: ts) = true -> token_text t = c :: l' -> at_ pattern p (token_text t ++ l) ->
  get string s = Some 0 -> zlen (token_text t) <= plen ->
  match_one pattern string nocase c p plen s 0 = Some (inl ()).
Proof.
  intros Hok Hns Hg E Hat Hd Hlen. destruct t as [| |escaped c'|neg items]; [done|..|done].
  - injection E as <- <-. done.
  - assert (Hne : char_eq nocase c' 0 = false).
    { apply negb_true_iff, Z.eqb_neq in Hg. unfold char_eq. change (schar 0) with 0. change (tolower 0) with 0.
      destruct nocase; apply Z.eqb_neq; [|done]. unfold tolower. destruct ((65 <=? schar c') && (schar c' <=? 90)) eqn:E'; [|done].
      apply andb_true_iff in E' as [?%Z.leb_le ?]. lia. }
    unfold match_one. destruct escaped; cbn [token_text app] in *; injection E as <- <-.
    + change (zlen [92; c']) with 2 in *. cbn [Z.eqb Pos.eqb andb]. rewrite (proj2 (Z.leb_le 2 plen)) by lia. apply at_next in Hat. at_reads.
      rewrite Hd. cbn [mbind option_bind]. by rewrite Hne.
    + cbn [token_ok] in Hok. rewrite !andb_true_iff, !negb_true_iff in Hok. destruct Hok as [[[_ H63] H91] H92].
      rewrite H63, H91, H92. cbn [andb]. at_reads. rewrite Hd. cbn [mbind option_bind]. by rewrite Hne.
Qed.

(** ** The meaning *)

Lemma glob_token nocase t ts d s : t <> Star -> glob nocase (t :: ts) (d :: s) <-> token_hit nocase d t = true /\ glob nocase ts s.
Proof.
  intros Hns. split.
  - intros H. inversion H; subst; by split.
  - intros [Ht Hs]. destruct t; [done|by constructor..].
Qed.

Lemma glob_empty nocase t ts : t <> Star -> ~ glob nocase (t :: ts) [].
Proof. intros Hns H. inversion H; subst. done. Qed.

Lemma glob_stars nocase k ts s : glob nocase (replicate (S k) Star ++ ts) s <-> exists s1 s2, s = s1 ++ s2 /\ glob nocase ts s2.
Proof.
  revert s. induction k as [|k IH]; intros s; split.
  - intros H. inversion H; subst. by exists s1, s2.
  - intros (s1 & s2 & -> & H). by apply glob_star.
  - intros H. inversion H as [|? s1 s2 Hs| | |]; subst. apply IH in Hs as (s3 & s4 & -> & Hs). exists (s1 ++ s3), s4. by rewrite app_assoc.
  - intros (s1 & s2 & -> & H). cbn [replicate app]. apply (glob_star _ _ s1 s2). apply IH. by exists [], s2.
Qed.

Lemma glob_stars_nil nocase k ts : star_first ts = false -> glob nocase (replicate k Star ++ ts) [] <-> ts = [].
Proof.
  intros Hs. assert (Hnil : glob nocase ts [] <-> ts = []).
  { split; [|by intros ->; constructor]. destruct ts as [|t ts]; [done|]. intros H. exfalso. eapply glob_empty; [|exact H]. by intros ->. }
  destruct k as [|k]; [done|]. rewrite glob_stars, <- Hnil. split; [|by exists [], []].
  intros (s1 & s2 & E & H). symmetry in E. by apply app_nil in E as [_ ->].
Qed.

(** ** The matcher *)

Section matcher.
Context (pattern string : block) (nocase : bool).

(** What the loop does from a place where the tokens [ts] are left, on any rest
    of the string. *)
Definition decides (ts : list token) : Prop := forall fuel p s st,
  (length ts < fuel)%nat -> at_ pattern p (text ts ++ [0]) -> at_ string s (st ++ [0]) -> st <> [] \/ guards_empty ts = true ->
  exists r, match_loop fuel pattern string nocase p (zlen (text ts)) s (zlen st) = Some r /\ (r = true <-> glob nocase ts st).

Lemma decides_stars k ts : forallb token_ok ts = true -> star_first ts = false -> decides ts -> decides (replicate (S k) Star ++ ts).
Proof.
  intros Hok Hs Hts fuel p s st Hf Hat Hst _. destruct fuel as [|fuel]; [lia|]. rewrite length_app, length_replicate in Hf.
  rewrite text_stars in *. rewrite <- app_assoc in Hat. destruct (text_head ts Hok Hs) as (c & l & E & Hc). rewrite E in Hat.
  pose proof (at_length _ _ _ Hat) as Hlen. rewrite length_app, length_replicate in Hlen.
  pose proof (at_skip _ _ _ _ Hat) as Hrest. assert (Hz : zlen (replicate (S k) 42) = Z.of_nat (S k)) by (unfold zlen; by rewrite length_replicate).
  rewrite zlen_app, Hz in *. rewrite <- E in Hrest. pose proof (zlen_nonneg (text ts)). cbn [match_loop].
  rewrite (proj2 (Z.eqb_neq _ 0)) by lia. cbn [replicate app] in Hat. at_reads. cbn [Z.eqb Pos.eqb].
  rewrite (skip_next_stars_ok pattern c l Hc k) by (done || lia || (by apply at_next in Hat)). cbn [mbind option_bind].
  destruct (Z.eqb_spec (Z.of_nat (S k) + zlen (text ts) - Z.of_nat k) 1) as [E1|E1].
  - exists true. split; [done|]. split; [|done]. intros _. rewrite (text_nil ts) by lia. apply glob_stars. exists st, []. split; [by rewrite app_nil_r|constructor].
  - replace (p + Z.of_nat k + 1) with (p + Z.of_nat (S k)) by lia.
    replace (Z.of_nat (S k) + zlen (text ts) - Z.of_nat k - 1) with (zlen (text ts)) by lia.
    destruct (star_loop_ok (match_loop fuel pattern string nocase (p + Z.of_nat (S k)) (zlen (text ts))) string (glob nocase ts)) with (st := st) (s := s) (fuel := S (length string)) as (r & Hr & Hg).
    + intros s' st' Hne Hat'. apply Hts; [lia|done|done|by left].
    + done.
    + apply at_length in Hst. rewrite length_app in Hst. lia.
    + exists r. split; [done|]. rewrite Hg, glob_stars. split; [intros (s1 & s2 & -> & _ & HG); by exists s1, s2|].
      intros (s1 & s2 & -> & HG). exists s1, s2. split; [done|]. split; [|done]. intros ->.
      apply (glob_stars_nil nocase 0 ts Hs) in HG as ->. change (zlen (text [])) with 0 in E1. lia.
Qed.

Lemma decides_token t ts : t <> Star -> token_ok t = true -> forallb token_ok ts = true -> decides ts -> decides (t :: ts).
Proof.
  intros Hns Ht Hok Hts fuel p s st Hf Hat Hst Hg. destruct fuel as [|fuel]; [lia|]. simpl in Hf. rewrite text_cons in *. rewrite <- app_assoc in Hat.
  destruct (token_text t) as [|c l'] eqn:E; [by destruct t as [| |[]|]|]. rewrite <- E in *.
  assert (Hc : c <> 42 /\ 0 < zlen (token_text t)).
  { split; [|rewrite E, zlen_cons; pose proof (zlen_nonneg l'); lia].
    destruct t as [| |[] c'|]; [done|injection E as <- _..]; try lia. intros ->. done. }
  destruct Hc as [Hc Hz]. pose proof (zlen_nonneg (text ts)). rewrite zlen_app. cbn [match_loop]. rewrite (proj2 (Z.eqb_neq _ 0)) by lia.
  assert (Hget : get pattern p = Some c) by (rewrite E in Hat; cbn in Hat; by apply at_get in Hat).
  rewrite Hget. cbn [mbind option_bind]. rewrite (proj2 (Z.eqb_neq _ _) Hc). destruct st as [|d st].
  - destruct Hg as [Hg|Hg]; [done|]. rewrite (match_one_empty _ _ _ t ts c _ (text ts ++ [0]) l') by (done || lia || (by apply at_get in Hst)).
    exists false. split; [done|]. split; [done|]. intros HG. by apply glob_empty in HG.
  - rewrite (match_one_ok _ _ _ t c s d (text ts ++ [0]) l') by (done || lia || (by apply at_get in Hst) || (rewrite zlen_cons; pose proof (zlen_nonneg st); lia)).
    cbn [mbind option_bind]. setoid_rewrite (glob_token nocase t ts d st Hns). destruct (token_hit nocase d t); [|exists false; split; [done|]; by split; [|intros [? _]]].
    rewrite zlen_cons. replace (1 + zlen st - 1) with (zlen st) by lia. apply at_skip in Hat. apply at_next in Hst.
    replace (p + zlen (token_text t) - 1 + 1) with (p + zlen (token_text t)) by lia.
    replace (zlen (token_text t) + zlen (text ts) - zlen (token_text t) + 1 - 1) with (zlen (text ts)) by lia.
    destruct (Z.eqb_spec (zlen st) 0) as [E0|E0].
    + assert (st = []) as -> by (destruct st; [done|rewrite zlen_cons in E0; pose proof (zlen_nonneg st); lia]).
      destruct (split_stars ts) as (k & ts' & -> & Hs). rewrite text_stars in *. rewrite forallb_app in Hok. apply andb_true_iff in Hok as [_ Hok].
      destruct (text_head ts' Hok Hs) as (c1 & l & E1 & Hc1). rewrite <- app_assoc, E1 in Hat. pose proof (at_length _ _ _ Hat) as Hlen. rewrite length_app, length_replicate in Hlen.
      rewrite (skip_stars_ok pattern c1 l Hc1 k) by (done || lia). cbn [mbind option_bind]. eexists. split; [done|]. rewrite glob_stars_nil by done.
      rewrite zlen_app. assert (zlen (replicate k 42) = Z.of_nat k) as -> by (unfold zlen; by rewrite length_replicate).
      rewrite Z.eqb_eq. split; [intros Heq; split; [done|]; apply text_nil; lia|]. intros [_ ->]. change (zlen (text [])) with 0. lia.
    + destruct (Hts fuel _ _ st ltac:(lia) Hat Hst) as (r & -> & Hr); [left; by intros ->|]. exists r. split; [done|]. rewrite Hr. tauto.
Qed.

Lemma decides_all n : forall ts, (length ts <= n)%nat -> forallb token_ok ts = true -> decides ts.
Proof.
  induction n as [|n IH]; intros ts Hn Hok.
  - destruct ts; [|simpl in Hn; lia]. intros [|fuel] p s st Hf Hat Hst _; [simpl in Hf; lia|]. eexists. split; [done|]. rewrite Z.eqb_eq. split.
    + intros E. destruct st; [constructor|rewrite zlen_cons in E; pose proof (zlen_nonneg st); lia].
    + intros H. by inversion H.
  - destruct (split_stars ts) as ([|k] & ts' & -> & Hs).
    + destruct ts' as [|t ts']; [apply IH; [simpl; lia|done]|]. cbn in Hok, Hn |- *. apply andb_true_iff in Hok as [Ht Hok].
      apply decides_token; [by intros ->|done|done|]. apply IH; [lia|done].
    + rewrite forallb_app in Hok. apply andb_true_iff in Hok as [_ Hok]. rewrite length_app, length_replicate in Hn.
      apply decides_stars; [done|done|]. apply IH; [lia|done].
Qed.

End matcher.

(** C32. On the text of a well-formed pattern the matcher returns, reads nothing
    outside its two strings, and answers whether the string is in the language
    of the pattern, with or without case; an empty string needs a pattern that
    does not start with a class or a NUL. *)
Theorem stringmatchlen_decides ts st nocase : forallb token_ok ts = true -> st <> [] \/ guards_empty ts = true ->
  exists r, stringmatchlen (text ts ++ [0]) (zlen (text ts)) (st ++ [0]) (zlen st) nocase = Some r /\
    (r = true <-> glob nocase ts st).
Proof.
  intros Hok Hst. apply (decides_all _ _ nocase (length ts) ts); [done|done| |by exists []|by exists []|done].
  rewrite length_app. simpl. pose proof (text_length ts). lia.
Qed.

(** On an empty string, two negated classes read past the end of the string,
    and a class that ends in a backslash reads past the end of the pattern. *)
Theorem class_overruns : stringmatchlen (text [Class_ true [Char 97]; Class_ true [Char 97]] ++ [0]) 8 [0] 0 false = None /\
  stringmatchlen [91; 92; 0] 2 [97; 0] 1 false = None.
Proof. by vm_compute. Qed.

(** ** Examples *)

(** [a*[0-9]?] on [abc7d]. *)
Definition ex_pattern : list token := [Lit false 97; Star; Class_ false [Range 48 57]; Any].

Lemma stringmatchlen_decides_witness :
  exists r, stringmatchlen (text ex_pattern ++ [0]) (zlen (text ex_pattern)) ([97; 98; 99; 55; 100] ++ [0]) 5 false = Some r /\
    (r = true <-> glob false ex_pattern [97; 98; 99; 55; 100]).
Proof. apply (stringmatchlen_decides ex_pattern [97; 98; 99; 55; 100] false); [reflexivity|by left]. Defined.

Example stringmatchlen_ex : stringmatchlen (text ex_pattern ++ [0]) (zlen (text ex_pattern)) ([97; 98; 99; 55; 100] ++ [0]) 5 false = Some true.
Proof. reflexivity. Qed.

End Glob.
