(* ===== verification/Ziplist.v ===== *)
(** * Ziplists

    [redis/src/ziplist.c]: a list of strings and integers in one heap block.
    The header has the size of the block, the offset of the last entry and the
    number of entries; each entry has the length of the previous one, the
    encoding and length of its payload, and the payload; a byte 255 ends the
    block.  Pointers into the block are offsets, an access outside it (and a
    failed [assert]) is [None].  The variables of the C code that are [unsigned
    int] wrap at 2^32, also where they are subtracted from a pointer.

    An entry whose size passes 254 makes the length of the previous entry five
    bytes instead of one; the theorems on the operations are for lists whose
    entries stay below that size, and two theorems show what goes wrong above. *)

From S2P Require Import Prelude Bytes Sds Util.
Local Open Scope Z_scope.

Module Ziplist.
Import Bytes.

Definition ZIP_END : Z := 255.
Definition ZIP_BIGLEN : Z := 254.
Definition ZIP_ENC_RAW : Z := 0.
Definition ZIP_ENC_INT16 : Z := 1.
Definition ZIP_ENC_INT32 : Z := 2.
Definition ZIP_ENC_INT64 : Z := 3.
Definition UINT16_MAX : Z := 65535.
Definition ZIPLIST_HEADER_SIZE : Z := 10.

Abbreviation u32 := (wrapu 32).

Definition zlword (zl : block) (off n : Z) : option Z := d ← read zl off n; Some (le_decode d).
Definition ZIPLIST_BYTES (zl : block) : option Z := zlword zl 0 4.
Definition ZIPLIST_TAIL_OFFSET (zl : block) : option Z := zlword zl 4 4.
Definition ZIPLIST_LENGTH (zl : block) : option Z := zlword zl 8 2.
Definition set_bytes (zl : block) (v : Z) : option block := write zl 0 (le_encode 4 v).
Definition set_tail (zl : block) (v : Z) : option block := write zl 4 (le_encode 4 v).
Definition set_length (zl : block) (v : Z) : option block := write zl 8 (le_encode 2 v).

Definition ZIPLIST_INCR_LENGTH (zl : block) (incr : Z) : option block :=
  n ← ZIPLIST_LENGTH zl; if n <? UINT16_MAX then set_length zl (wrapu 16 (n + incr)) else Some zl.

Record zlentry := mk_zlentry {
  prevrawlensize : Z; prevrawlen : Z; lensize : Z; len : Z; headersize : Z; encoding : Z; ep : Z }.

Section ziplist.
(** New heap bytes, and the uninitialised [buf[0]] of [zipEncodeLength]. *)
Context (junk : Z) (jb : Z).

(** ** Entries *)

Definition zipEncodingSize (enc : Z) : option Z :=
  if enc =? ZIP_ENC_INT16 then Some 2 else if enc =? ZIP_ENC_INT32 then Some 4
  else if enc =? ZIP_ENC_INT64 then Some 8 else None.

Definition ZIP_ENCODING (zl : block) (p : Z) : option Z := c ← get zl p; Some (Z.shiftr c 6).

(** The length and [*lensize]. *)
Definition zipDecodeLength (zl : block) (p : Z) : option (Z * Z) :=
  enc ← ZIP_ENCODING zl p;
  c ← get zl p;
  if enc =? ZIP_ENC_RAW then
    let lenenc := Z.land (Z.shiftr c 4) 3 in
    if lenenc =? 0 then Some (Z.land c 15, 1)
    else if lenenc =? 1 then
      b1 ← get zl (p + 1); b2 ← get zl (p + 2);
      Some (Z.lor b1 (Z.shiftl b2 8), 3)
    else
      b1 ← get zl (p + 1); b2 ← get zl (p + 2); b3 ← get zl (p + 3); b4 ← get zl (p + 4);
      Some (u32 (Z.lor (Z.lor (Z.lor b1 (Z.shiftl b2 8)) (Z.shiftl b3 16)) (Z.shiftl b4 24)), 5)
  else n ← zipEncodingSize enc; Some (n, 1).

(** With [p == NULL]: the bytes needed. *)
Definition zipEncodeLength_size (enc rawlen : Z) : Z :=
  if enc =? ZIP_ENC_RAW then if rawlen <=? 15 then 1 else if rawlen <=? 65535 then 3 else 5 else 1.

(** [jb] is what [buf[0]] holds before. *)
Definition header_bytes (jb enc rawlen : Z) : list Z :=
  let b := fun (b0 : Z) => Z.lor (Z.shiftl enc 6) (Z.land b0 63) in
  let len4 := fun (lenenc b0 : Z) => Z.lor (Z.shiftl lenenc 4) (Z.land b0 15) in
  if enc =? ZIP_ENC_RAW then
    if rawlen <=? 15 then [b (len4 0 rawlen)]
    else if rawlen <=? 65535 then [b (len4 1 jb); Z.land rawlen 255; Z.land (Z.shiftr rawlen 8) 255]
    else [b (len4 2 jb); Z.land rawlen 255; Z.land (Z.shiftr rawlen 8) 255;
          Z.land (Z.shiftr rawlen 16) 255; Z.land (Z.shiftr rawlen 24) 255]
  else [b jb].

Definition zipEncodeLength (zl : block) (p enc rawlen : Z) : option (block * Z) :=
  zl ← write zl p (header_bytes jb enc rawlen); Some (zl, zipEncodeLength_size enc rawlen).

Definition zipPrevDecodeLength (zl : block) (p : Z) : option (Z * Z) :=
  len ← get zl p;
  if len <? ZIP_BIGLEN then Some (len, 1) else d ← read zl (p + 1) 4; Some (le_decode d, 5).

Definition zipPrevEncodeLength_size (len : Z) : Z := if len <? ZIP_BIGLEN then 1 else 5.

Definition zipPrevEncodeLength (zl : block) (p len : Z) : option (block * Z) :=
  if len <? ZIP_BIGLEN then zl ← write zl p [len]; Some (zl, 1)
  else zl ← write zl p [ZIP_BIGLEN]; zl ← write zl (p + 1) (le_encode 4 len); Some (zl, 5).

Definition zipPrevLenByteDiff (zl : block) (p len : Z) : option Z :=
  '(_, prevlensize) ← zipPrevDecodeLength zl p;
  Some (to_signed 32 (zipPrevEncodeLength_size len - prevlensize)).

(** The value and its encoding; the inner [None] is the result 0. *)
Definition zipTryEncoding (entry : block) (entrylen : Z) : option (option (Z * Z)) :=
  if (32 <=? entrylen) || (entrylen =? 0) then Some None
  else
    c ← get entry 0;
    if (c =? 45) || ((48 <=? c) && (c <=? 57)) then
      d ← read entry 0 entrylen;
      buf ← write (replicate 32 junk) 0 d;
      buf ← write buf entrylen [0];
      '(value, eptr) ← Util.strtoll buf;
      e ← get buf eptr;
      if negb (e =? 0) then Some None
      else
        '(buf, slen) ← Util.ll2string junk buf 32 value;
        if negb (entrylen =? slen) then Some None
        else
          x ← read buf 0 slen;
          y ← read entry 0 slen;
          if negb (memcmp x y =? 0) then Some None
          else if (- 2 ^ 15 <=? value) && (value <=? 2 ^ 15 - 1) then Some (Some (value, ZIP_ENC_INT16))
          else if (- 2 ^ 31 <=? value) && (value <=? 2 ^ 31 - 1) then Some (Some (value, ZIP_ENC_INT32))
          else Some (Some (value, ZIP_ENC_INT64))
    else Some None.

Definition zipSaveInteger (zl : block) (p value enc : Z) : option block :=
  n ← zipEncodingSize enc; write zl p (le_encode (Z.to_nat n) value).

Definition zipLoadInteger (zl : block) (p enc : Z) : option Z :=
  n ← zipEncodingSize enc; d ← read zl p n; Some (to_signed (8 * n) (le_decode d)).

Definition zipEntry (zl : block) (p : Z) : option zlentry :=
  '(prevlen, prevsize) ← zipPrevDecodeLength zl p;
  '(l, lsize) ← zipDecodeLength zl (p + prevsize);
  enc ← ZIP_ENCODING zl (p + prevsize);
  Some (mk_zlentry prevsize prevlen lsize l (prevsize + lsize) enc p).

Definition zipRawEntryLength (zl : block) (p : Z) : option Z :=
  e ← zipEntry zl p; Some (u32 (headersize e + len e)).

(** ** The list *)

Definition ziplistNew : option block :=
  let bytes := ZIPLIST_HEADER_SIZE + 1 in
  let zl := replicate (Z.to_nat bytes) junk in
  zl ← set_bytes zl bytes;
  zl ← set_tail zl ZIPLIST_HEADER_SIZE;
  zl ← set_length zl 0;
  write zl (bytes - 1) [ZIP_END].

Definition ziplistResize (zl : block) (len : Z) : option block :=
  let zl := realloc junk zl len in
  zl ← set_bytes zl len;
  write zl (u32 (len - 1)) [ZIP_END].

(** [for (i = 0; p[0] != ZIP_END && i < num; i++)]: the pointer reached and the
    number of entries passed. *)
Fixpoint skip_entries (fuel : nat) (zl : block) (p i num : Z) : option (Z * Z) :=
  match fuel with
  | O => None
  | S fuel' =>
    c ← get zl p;
    if negb (c =? ZIP_END) && (i <? num) then
      n ← zipRawEntryLength zl p; skip_entries fuel' zl (p + n) (i + 1) num
    else Some (p, i)
  end.

Definition ziplistDelete_ (zl : block) (p num : Z) : option block :=
  first ← zipEntry zl p;
  '(p, deleted) ← skip_entries (S (length zl)) zl p 0 num;
  let totlen := u32 (p - ep first) in
  if 0 <? totlen then
    c ← get zl p;
    '(zl, nextdiff) ←
      (if negb (c =? ZIP_END) then
         nextdiff ← zipPrevLenByteDiff zl p (prevrawlen first);
         '(zl, _) ← zipPrevEncodeLength zl (p - nextdiff) (prevrawlen first);
         t ← ZIPLIST_TAIL_OFFSET zl;
         zl ← set_tail zl (u32 (t - (totlen + nextdiff)));
         b ← ZIPLIST_BYTES zl;
         zl ← memmove zl (ep first) (p - nextdiff) (b - p - 1 + nextdiff);
         Some (zl, nextdiff)
       else zl ← set_tail zl (u32 (ep first - prevrawlen first)); Some (zl, 0));
    b ← ZIPLIST_BYTES zl;
    zl ← ziplistResize zl (u32 (b - totlen + nextdiff));
    ZIPLIST_INCR_LENGTH zl (u32 (- deleted))
  else Some zl.

(** What [__ziplistInsert] finds before it writes: the length of the previous
    entry, and the encoding of the new one. *)
Definition insert_prevlen (zl : block) (p : Z) : option Z :=
  c ← get zl p;
  if negb (c =? ZIP_END) then e ← zipEntry zl p; Some (prevrawlen e)
  else
    t ← ZIPLIST_TAIL_OFFSET zl;
    c ← get zl t;
    if negb (c =? ZIP_END) then zipRawEntryLength zl t else Some 0.

Definition ziplistInsert_ (zl : block) (p : Z) (s : block) (slen : Z) : option block :=
  curlen ← ZIPLIST_BYTES zl;
  prevlen ← insert_prevlen zl p;
  r ← zipTryEncoding s slen;
  let enc := match r with Some (_, enc) => enc | None => ZIP_ENC_RAW end in
  reqlen ← (match r with Some _ => zipEncodingSize enc | None => Some slen end);
  let reqlen := u32 (reqlen + zipPrevEncodeLength_size prevlen) in
  let reqlen := u32 (reqlen + zipEncodeLength_size enc slen) in
  c ← get zl p;
  nextdiff ← (if negb (c =? ZIP_END) then zipPrevLenByteDiff zl p reqlen else Some 0);
  let nextdiff := u32 nextdiff in
  let offset := u32 p in
  zl ← ziplistResize zl (u32 (u32 (curlen + reqlen) + nextdiff));
  c ← get zl p;
  zl ← (if negb (c =? ZIP_END) then
          zl ← memmove zl (p + reqlen) (p - nextdiff) (u32 (u32 (u32 (curlen - offset) - 1) + nextdiff));
          '(zl, _) ← zipPrevEncodeLength zl (p + reqlen) reqlen;
          t ← ZIPLIST_TAIL_OFFSET zl;
          set_tail zl (u32 (t + u32 (reqlen + nextdiff)))
        else set_tail zl (u32 p));
  '(zl, n) ← zipPrevEncodeLength zl p prevlen;
  let p := p + n in
  '(zl, n) ← zipEncodeLength zl p enc slen;
  let p := p + n in
  zl ← (match r with
        | Some (value, enc) => zipSaveInteger zl p value enc
        | None => d ← read s 0 slen; write zl p d
        end);
  ZIPLIST_INCR_LENGTH zl 1.

(** [head] tells whether [where == ZIPLIST_HEAD]. *)
Definition ziplistPush (zl : block) (s : block) (slen : Z) (head : bool) : option block :=
  b ← ZIPLIST_BYTES zl;
  ziplistInsert_ zl (if head then ZIPLIST_HEADER_SIZE else b - 1) s slen.

(** [while (entry.prevrawlen > 0 && index--)]. *)
Fixpoint index_back (fuel : nat) (zl : block) (p : Z) (e : zlentry) (index : Z) : option (Z * Z) :=
  match fuel with
  | O => None
  | S fuel' =>
    if 0 <? prevrawlen e then
      if index =? 0 then Some (p, -1)
      else
        let p := p - prevrawlen e in
        e ← zipEntry zl p; index_back fuel' zl p e (index - 1)
    else Some (p, index)
  end.

(** [while (p[0] != ZIP_END && index--)]. *)
Fixpoint index_forward (fuel : nat) (zl : block) (p index : Z) : option (Z * Z) :=
  match fuel with
  | O => None
  | S fuel' =>
    c ← get zl p;
    if negb (c =? ZIP_END) then
      if index =? 0 then Some (p, -1)
      else n ← zipRawEntryLength zl p; index_forward fuel' zl (p + n) (index - 1)
    else Some (p, index)
  end.

(** The inner [None] is a [NULL] result. *)
Definition ziplistIndex (zl : block) (index : Z) : option (option Z) :=
  '(p, index) ←
    (if index <? 0 then
       let index := to_signed 32 (- index - 1) in
       p ← ZIPLIST_TAIL_OFFSET zl;
       c ← get zl p;
       if negb (c =? ZIP_END) then e ← zipEntry zl p; index_back (S (length zl)) zl p e index else Some (p, index)
     else index_forward (S (length zl)) zl ZIPLIST_HEADER_SIZE index);
  c ← get zl p;
  Some (if (c =? ZIP_END) || (0 <? index) then None else Some p).

Definition ziplistNext (zl : block) (p : Z) : option (option Z) :=
  c ← get zl p;
  if c =? ZIP_END then Some None
  else
    n ← zipRawEntryLength zl p;
    let p := p + n in
    c ← get zl p;
    Some (if c =? ZIP_END then None else Some p).

Definition ziplistPrev (zl : block) (p : Z) : option (option Z) :=
  c ← get zl p;
  if c =? ZIP_END then
    t ← ZIPLIST_TAIL_OFFSET zl;
    c ← get zl t;
    Some (if c =? ZIP_END then None else Some t)
  else if p =? ZIPLIST_HEADER_SIZE then Some None
  else e ← zipEntry zl p; Some (Some (p - prevrawlen e)).

(** [*sstr] and [*slen], or [*sval]; [None] inside is the result 0. *)
Definition ziplistGet (zl : block) (p : option Z) : option (option (Z * Z + Z)) :=
  match p with
  | None => Some None
  | Some p =>
    c ← get zl p;
    if c =? ZIP_END then Some None
    else
      e ← zipEntry zl p;
      if encoding e =? ZIP_ENC_RAW then Some (Some (inl (p + headersize e, len e)))
      else v ← zipLoadInteger zl (p + headersize e) (encoding e); Some (Some (inr v))
  end.

Definition ziplistInsert (zl : block) (p : Z) (s : block) (slen : Z) : option block := ziplistInsert_ zl p s slen.

Definition ziplistDelete (zl : block) (p : Z) : option (block * Z) :=
  let offset := u32 p in
  zl ← ziplistDelete_ zl p 1; Some (zl, offset).

Definition ziplistDeleteRange (zl : block) (index num : Z) : option block :=
  p ← ziplistIndex zl (to_signed 32 index);
  match p with None => Some zl | Some p => ziplistDelete_ zl p num end.

Definition ziplistCompare (zl : block) (p : Z) (sstr : block) (slen : Z) : option bool :=
  c ← get zl p;
  if c =? ZIP_END then Some false
  else
    e ← zipEntry zl p;
    if encoding e =? ZIP_ENC_RAW then
      if len e =? slen then
        x ← read zl (p + headersize e) slen; y ← read sstr 0 slen; Some (memcmp x y =? 0)
      else Some false
    else
      r ← zipTryEncoding sstr slen;
      match r with
      | Some (sval, sencoding) =>
        if encoding e =? sencoding then
          zval ← zipLoadInteger zl (p + headersize e) (encoding e); Some (zval =? sval)
        else Some false
      | None => Some false
      end.

Fixpoint len_loop (fuel : nat) (zl : block) (p len : Z) : option Z :=
  match fuel with
  | O => None
  | S fuel' =>
    c ← get zl p;
    if negb (c =? ZIP_END) then n ← zipRawEntryLength zl p; len_loop fuel' zl (p + n) (u32 (len + 1)) else Some len
  end.

Definition ziplistLen (zl : block) : option (block * Z) :=
  n ← ZIPLIST_LENGTH zl;
  if n <? UINT16_MAX then Some (zl, n)
  else
    len ← len_loop (S (length zl)) zl ZIPLIST_HEADER_SIZE 0;
    if len <? UINT16_MAX then zl ← set_length zl len; Some (zl, len) else Some (zl, len).

Definition ziplistSize (zl : block) : option Z := ZIPLIST_BYTES zl.

(** ** Representation *)

(** An entry is a string or an integer, which has the narrowest encoding. *)
Inductive zval := ZStr (s : list Z) | ZInt (v : Z).

(** An entry and the uninitialised bits its header has kept. *)
Record item := mk_item { ival : zval; ijunk : Z }.

(** The string an entry stands for. *)
Definition text (it : item) : list Z := match ival it with ZStr s => s | ZInt v => Util.dec v end.

Definition enc_of (v : Z) : Z :=
  if (- 2 ^ 15 <=? v) && (v <=? 2 ^ 15 - 1) then 1 else if (- 2 ^ 31 <=? v) && (v <=? 2 ^ 31 - 1) then 2 else 3.

Definition isize (enc : Z) : Z := if enc =? 1 then 2 else if enc =? 2 then 4 else 8.

Definition ienc (it : item) : Z := match ival it with ZStr _ => 0 | ZInt v => enc_of v end.

Definition payload (it : item) : list Z :=
  match ival it with ZStr s => s | ZInt v => le_encode (Z.to_nat (isize (enc_of v))) v end.

Definition hdr (it : item) : list Z := header_bytes (ijunk it) (ienc it) (zlen (payload it)).

Definition rawlen (it : item) : Z := 1 + zlen (hdr it) + zlen (payload it).

Definition item_ok (it : item) : Prop :=
  rawlen it < ZIP_BIGLEN /\ match ival it with ZStr _ => True | ZInt v => in_s 64 v end.

(** The entries, the first after an entry of [prev] bytes. *)
Fixpoint chain (prev : Z) (its : list item) : list Z :=
  match its with
  | [] => []
  | it :: its' => (prev :: hdr it ++ payload it) ++ chain (rawlen it) its'
  end.

Fixpoint last_len (prev : Z) (its : list item) : Z :=
  match its with [] => prev | it :: its' => last_len (rawlen it) its' end.

(** The offset after the entries [its]. *)
Definition off (its : list item) : Z := ZIPLIST_HEADER_SIZE + zlen (chain 0 its).

Definition tail_off (its : list item) : Z := off its - last_len 0 its.

Definition header (total tail cnt : Z) : list Z := le_encode 4 total ++ le_encode 4 tail ++ le_encode 2 cnt.

Definition cnt_ok (cnt : Z) (its : list item) : Prop :=
  0 <= cnt < UINT16_MAX /\ cnt = Z.of_nat (length its) \/ cnt = UINT16_MAX.

Definition rep (zl : block) (its : list item) : Prop :=
  exists cnt, zl = header (off its + 1) (tail_off its) cnt ++ chain 0 its ++ [ZIP_END] /\
    cnt_ok cnt its /\ Forall item_ok its /\ off its + 1 < 2 ^ 31.

(** ** Bits of the entry header *)

Lemma enc_of_cases v : (enc_of v = 1 /\ in_s 16 v) \/ (enc_of v = 2 /\ in_s 32 v) \/ enc_of v = 3.
Proof.
  unfold enc_of, in_s. change (16 - 1) with 15. change (32 - 1) with 31.
  destruct ((- 2 ^ 15 <=? v) && (v <=? 2 ^ 15 - 1)) eqn:E1; [left; bsimp; lia|].
  destruct ((- 2 ^ 31 <=? v) && (v <=? 2 ^ 31 - 1)) eqn:E2; [right; left; bsimp; lia|]. by right; right.
Qed.

Lemma land_ones_range z k : 0 <= k -> 0 <= Z.land z (Z.ones k) < 2 ^ k.
Proof. intros Hk. rewrite Z.land_ones by done. apply Z.mod_pos_bound. lia. Qed.

Lemma nib_bits n : 0 <= n <= 15 ->
  let c := fun le => Z.lor (Z.shiftl 0 6) (Z.land (Z.lor (Z.shiftl le 4) n) 63) in
  Z.shiftr (c 0) 6 = 0 /\ Z.land (Z.shiftr (c 0) 4) 3 = 0 /\ Z.land (c 0) 15 = n /\
  Z.shiftr (c 1) 6 = 0 /\ Z.land (Z.shiftr (c 1) 4) 3 = 1.
Proof.
  intros Hn c.
  assert (Hc : In n [0; 1; 2; 3; 4; 5; 6; 7; 8; 9; 10; 11; 12; 13; 14; 15]) by (simpl; lia).
  simpl in Hc. repeat (destruct Hc as [<-|Hc]; [vm_compute; done|]). done.
Qed.

Lemma enc_bits enc b : Z.shiftr (Z.lor (Z.shiftl enc 6) (Z.land b 63)) 6 = enc.
Proof.
  rewrite Z.shiftr_lor, Z.shiftr_shiftl_l by lia. change (6 - 6) with 0. rewrite Z.shiftl_0_r.
  pose proof (land_ones_range b 6 ltac:(lia)) as Hr. change (Z.ones 6) with 63 in Hr.
  rewrite (Z.shiftr_div_pow2 _ 6) by lia. rewrite Z.div_small by lia. apply Z.lor_0_r.
Qed.

Lemma lor_add a b k : 0 <= k -> 0 <= a < 2 ^ k -> Z.lor a (Z.shiftl b k) = a + b * 2 ^ k.
Proof.
  intros Hk Ha. rewrite <- Z.shiftl_mul_pow2 by done. symmetry. apply Z.add_nocarry_lor. apply Z.bits_inj'. intros i Hi.
  rewrite Z.land_spec, Z.bits_0. destruct (decide (i < k)) as [Hlt|Hge].
  - rewrite Z.shiftl_spec_low by done. by rewrite andb_false_r.
  - rewrite <- (Z.mod_small a (2 ^ k)) by done. rewrite Z.mod_pow2_bits_high by lia. done.
Qed.

Lemma two_bytes n : 0 <= n <= 65535 -> Z.lor (Z.land n 255) (Z.shiftl (Z.land (Z.shiftr n 8) 255) 8) = n.
Proof.
  intros Hn. change 255 with (Z.ones 8). rewrite !Z.land_ones, Z.shiftr_div_pow2 by lia. change (2 ^ 8) with 256.
  rewrite (Z.mod_small (n / 256)) by (split; [apply Z.div_pos; lia|apply Z.div_lt_upper_bound; lia]).
  rewrite lor_add by (try lia; apply Z.mod_pos_bound; lia). change (2 ^ 8) with 256. pose proof (Z.div_mod n 256). lia.
Qed.

(** ** Reading an entry *)

Lemma zlen_nil : zlen [] = 0.
Proof. done. Qed.

Lemma zlen_hdr it : zlen (hdr it) = zipEncodeLength_size (ienc it) (zlen (payload it)).
Proof.
  unfold hdr, header_bytes, zipEncodeLength_size. destruct (ienc it =? ZIP_ENC_RAW); [|done].
  destruct (zlen (payload it) <=? 15); [done|]. by destruct (zlen (payload it) <=? 65535).
Qed.

Lemma zlen_payload_int it v : ival it = ZInt v -> zlen (payload it) = isize (enc_of v).
Proof.
  intros E. unfold payload. rewrite E. unfold zlen. rewrite le_encode_length.
  unfold isize. destruct (enc_of v =? 1), (enc_of v =? 2); done.
Qed.

Lemma hdr_size it : 1 <= zlen (hdr it) <= 5.
Proof.
  rewrite zlen_hdr. unfold zipEncodeLength_size. destruct (_ =? _); [|lia]. destruct (_ <=? 15); [lia|]. destruct (_ <=? 65535); lia.
Qed.

Lemma ziplist_get_nth (pre l post : list Z) n c p : p = zlen pre + Z.of_nat n -> l !! n = Some c -> get (pre ++ l ++ post) p = Some c.
Proof.
  intros -> Hl. unfold get. rewrite (proj2 (Z.ltb_ge _ _)) by (unfold zlen; lia).
  rewrite lookup_app_r by (unfold zlen; lia). rewrite lookup_app_l by (apply lookup_lt_Some in Hl; unfold zlen; lia).
  rewrite <- Hl. f_equal. unfold zlen. lia.
Qed.

Lemma ziplist_decode_at zl pre it post p : zl = pre ++ hdr it ++ post -> p = zlen pre -> item_ok it ->
  zipDecodeLength zl p = Some (zlen (payload it), zlen (hdr it)) /\ ZIP_ENCODING zl p = Some (ienc it).
Proof.
  intros Ez Hp [Hsm Hok]. rewrite zlen_hdr. unfold rawlen, ZIP_BIGLEN in Hsm.
  pose proof (zlen_nonneg (payload it)) as Hp0. pose proof (hdr_size it) as Hh.
  assert (Hget : forall n c, hdr it !! n = Some c -> get zl (p + Z.of_nat n) = Some c)
    by (intros; rewrite Ez; apply (ziplist_get_nth pre (hdr it) post n); [lia|done]).
  pose proof (Hget 0%nat) as G0. change (Z.of_nat 0) with 0 in G0. rewrite Z.add_0_r in G0.
  unfold zipDecodeLength, ZIP_ENCODING, zipEncodeLength_size. unfold hdr, header_bytes in Hget, G0.
  destruct (ival it) as [s|v] eqn:Ev.
  - assert (Ei : ienc it = 0) by (unfold ienc; by rewrite Ev). rewrite Ei in *. change (0 =? ZIP_ENC_RAW) with true in *.
    destruct (Z.leb_spec (zlen (payload it)) 15) as [H15|H15].
    + rewrite (G0 _ eq_refl). cbn [mbind option_bind]. change (Z.land (zlen (payload it)) 15) with (Z.land (zlen (payload it)) (Z.ones 4)).
      rewrite (Z.land_ones (zlen (payload it)) 4), Z.mod_small by (change (2 ^ 4) with 16; lia).
      destruct (nib_bits (zlen (payload it))) as (-> & -> & -> & _); [lia|]. split; reflexivity.
    + rewrite (proj2 (Z.leb_le _ 65535)) in * by lia.
      rewrite (G0 _ eq_refl). cbn [mbind option_bind].
      pose proof (Hget 1%nat _ eq_refl) as G1. pose proof (Hget 2%nat _ eq_refl) as G2. change (Z.of_nat 1) with 1 in G1. change (Z.of_nat 2) with 2 in G2.
      pose proof (land_ones_range (ijunk it) 4 ltac:(lia)) as Hr. change (Z.ones 4) with 15 in Hr. change (2 ^ 4) with 16 in Hr.
      destruct (nib_bits (Z.land (ijunk it) 15)) as (_ & _ & _ & -> & ->); [lia|]. change (1 =? 0) with false. change (1 =? 1) with true. cbv iota.
      change (0 =? ZIP_ENC_RAW) with true. cbv iota. rewrite G1, G2. cbn [mbind option_bind]. split; [|done]. rewrite two_bytes by lia. done.
  - assert (Ei : ienc it = enc_of v) by (unfold ienc; by rewrite Ev). rewrite (zlen_payload_int it v Ev) in *. rewrite Ei in *.
    assert (Hne : (enc_of v =? ZIP_ENC_RAW) = false) by (destruct (enc_of_cases v) as [[-> _]|[[-> _]| ->]]; done). rewrite Hne in *.
    rewrite (G0 _ eq_refl). cbn [mbind option_bind]. rewrite enc_bits, Hne.
    split; [|done]. destruct (enc_of_cases v) as [[-> _]|[[-> _]| ->]]; done.
Qed.

Lemma entry_at zl pre prev it post p : zl = pre ++ (prev :: hdr it ++ payload it) ++ post -> p = zlen pre ->
  0 <= prev < 254 -> item_ok it ->
  zipEntry zl p = Some (mk_zlentry 1 prev (zlen (hdr it)) (zlen (payload it)) (1 + zlen (hdr it)) (ienc it) p) /\
  zipRawEntryLength zl p = Some (rawlen it) /\ get zl p = Some prev.
Proof.
  intros Ez Hp Hprev Hok.
  assert (Hg : get zl p = Some prev) by (rewrite Ez; by apply get_zlen).
  assert (He : zipEntry zl p = Some (mk_zlentry 1 prev (zlen (hdr it)) (zlen (payload it)) (1 + zlen (hdr it)) (ienc it) p)).
  { unfold zipEntry, zipPrevDecodeLength. rewrite Hg. cbn [mbind option_bind]. unfold ZIP_BIGLEN. rewrite (proj2 (Z.ltb_lt prev 254)) by lia. cbn [mbind option_bind].
    destruct (ziplist_decode_at zl (pre ++ [prev]) it (payload it ++ post) (p + 1)) as [-> ->]; [rewrite Ez; simpl; by rewrite <- !app_assoc|rewrite zlen_app; change (zlen [prev]) with 1; lia|done|].
    done. }
  split; [done|]. split; [|done]. unfold zipRawEntryLength. rewrite He. cbn [mbind option_bind headersize len]. f_equal.
  destruct Hok as [Hs _]. unfold rawlen, ZIP_BIGLEN in *. pose proof (hdr_size it). pose proof (zlen_nonneg (payload it)). rewrite wrapu_id by (unfold in_u; lia). lia.
Qed.

(** ** The header *)

Lemma zlen_le n z : zlen (le_encode n z) = Z.of_nat n.
Proof. unfold zlen. by rewrite le_encode_length. Qed.

Lemma zlen_header a b c : zlen (header a b c) = ZIPLIST_HEADER_SIZE.
Proof. unfold header. by rewrite !zlen_app, !zlen_le. Qed.

Lemma le_small n v : 0 <= v < 2 ^ (8 * Z.of_nat n) -> le_decode (le_encode n v) = v.
Proof. intros Hv. rewrite le_decode_encode. by apply Z.mod_small. Qed.

Lemma bytes_at a b c rest : 0 <= a < 2 ^ 32 -> ZIPLIST_BYTES (header a b c ++ rest) = Some a.
Proof.
  intros Ha. unfold ZIPLIST_BYTES, zlword, header. rewrite (read_at _ [] (le_encode 4 a) ((le_encode 4 b ++ le_encode 2 c) ++ rest)) by done.
  cbn [mbind option_bind]. by rewrite le_small.
Qed.

Lemma tail_at a b c rest : 0 <= b < 2 ^ 32 -> ZIPLIST_TAIL_OFFSET (header a b c ++ rest) = Some b.
Proof.
  intros Hb. unfold ZIPLIST_TAIL_OFFSET, zlword, header. rewrite (read_at _ (le_encode 4 a) (le_encode 4 b) (le_encode 2 c ++ rest)) by (rewrite <- ?app_assoc; done).
  cbn [mbind option_bind]. by rewrite le_small.
Qed.

Lemma length_at a b c rest : 0 <= c < 2 ^ 16 -> ZIPLIST_LENGTH (header a b c ++ rest) = Some c.
Proof.
  intros Hc. unfold ZIPLIST_LENGTH, zlword, header. rewrite (read_at _ (le_encode 4 a ++ le_encode 4 b) (le_encode 2 c) rest) by (rewrite <- ?app_assoc; done).
  cbn [mbind option_bind]. by rewrite le_small.
Qed.

Lemma set_bytes_at a b c rest v : set_bytes (header a b c ++ rest) v = Some (header v b c ++ rest).
Proof. unfold set_bytes, header. rewrite <- !app_assoc. by rewrite (write_at _ [] (le_encode 4 a) (le_encode 4 v) (le_encode 4 b ++ le_encode 2 c ++ rest)). Qed.

Lemma set_tail_at a b c rest v : set_tail (header a b c ++ rest) v = Some (header a v c ++ rest).
Proof. unfold set_tail, header. rewrite <- !app_assoc. by rewrite (write_at _ (le_encode 4 a) (le_encode 4 b) (le_encode 4 v) (le_encode 2 c ++ rest)). Qed.

Lemma set_length_at a b c rest v : set_length (header a b c ++ rest) v = Some (header a b v ++ rest).
Proof.
  unfold set_length, header. rewrite (write_at _ (le_encode 4 a ++ le_encode 4 b) (le_encode 2 c) (le_encode 2 v) rest) by (rewrite <- ?app_assoc; done).
  by rewrite <- !app_assoc.
Qed.

Lemma incr_at a b c rest incr : 0 <= c < 2 ^ 16 -> (c < UINT16_MAX -> 0 <= c + incr < 2 ^ 16) ->
  forall u, u mod 2 ^ 16 = incr mod 2 ^ 16 ->
  ZIPLIST_INCR_LENGTH (header a b c ++ rest) u = Some (header a b (if c <? UINT16_MAX then c + incr else c) ++ rest).
Proof.
  intros Hc Hi u Hu. unfold ZIPLIST_INCR_LENGTH. rewrite length_at by done. cbn [mbind option_bind].
  destruct (Z.ltb_spec c UINT16_MAX); [|done]. rewrite set_length_at. do 2 f_equal. unfold header. do 3 f_equal. unfold wrapu.
  rewrite Zplus_mod, Hu, <- Zplus_mod. apply Z.mod_small. lia.
Qed.

(** ** Chains of entries *)

Lemma chain_app prev a b : chain prev (a ++ b) = chain prev a ++ chain (last_len prev a) b.
Proof. revert prev. induction a as [|it a IH]; intros prev; [done|]. cbn [app chain last_len]. rewrite IH. cbn [app]. by rewrite <- !app_assoc. Qed.

Lemma last_len_app prev a b : last_len prev (a ++ b) = last_len (last_len prev a) b.
Proof. revert prev. induction a as [|it a IH]; intros prev; [done|]. apply IH. Qed.

Lemma rawlen_pos it : 2 <= rawlen it.
Proof. unfold rawlen. pose proof (hdr_size it). pose proof (zlen_nonneg (payload it)). lia. Qed.

Lemma last_len_range prev its : Forall item_ok its -> 0 <= prev < 254 -> 0 <= last_len prev its < 254.
Proof.
  intros Hok. revert prev. induction Hok as [|it its [Hit _] _ IH]; intros prev Hp; [done|].
  apply IH. pose proof (rawlen_pos it). unfold ZIP_BIGLEN in Hit. lia.
Qed.

Lemma ziplist_zlen_entry prev it : zlen (prev :: hdr it ++ payload it) = rawlen it.
Proof. rewrite zlen_cons, zlen_app. unfold rawlen. lia. Qed.

Lemma zlen_chain_cons prev it its : zlen (chain prev (it :: its)) = rawlen it + zlen (chain (rawlen it) its).
Proof. cbn [chain]. rewrite zlen_app, ziplist_zlen_entry. done. Qed.

Lemma zlen_chain_prev prev prev' its : zlen (chain prev its) = zlen (chain prev' its).
Proof. destruct its; [done|]. by rewrite !zlen_chain_cons. Qed.

Lemma chain_length prev its : Z.of_nat (length its) <= zlen (chain prev its).
Proof.
  revert prev. induction its as [|it its IH]; intros prev; [done|]. rewrite zlen_chain_cons. pose proof (rawlen_pos it).
  specialize (IH (rawlen it)). simpl length. lia.
Qed.

Lemma off_app a b : off (a ++ b) = off a + zlen (chain (last_len 0 a) b).
Proof. unfold off. rewrite chain_app, zlen_app. lia. Qed.

Lemma off_pos its : ZIPLIST_HEADER_SIZE <= off its.
Proof. unfold off. pose proof (zlen_nonneg (chain 0 its)). lia. Qed.

Lemma tail_off_snoc a it : tail_off (a ++ [it]) = off a.
Proof. unfold tail_off. rewrite off_app, last_len_app. cbn [last_len]. rewrite zlen_chain_cons. change (zlen (chain (rawlen it) [])) with 0. lia. Qed.

Lemma tail_off_range its : ZIPLIST_HEADER_SIZE <= tail_off its <= off its.
Proof.
  destruct its as [|it its] using rev_ind; [done|]. rewrite tail_off_snoc, off_app. pose proof (off_pos its).
  pose proof (zlen_nonneg (chain (last_len 0 its) [it])). lia.
Qed.

(** A represented list cut before an entry. *)
Lemma rep_cut zl a b : rep zl (a ++ b) -> exists cnt,
  let pre := header (off (a ++ b) + 1) (tail_off (a ++ b)) cnt ++ chain 0 a in
  zl = pre ++ chain (last_len 0 a) b ++ [ZIP_END] /\ zlen pre = off a /\ cnt_ok cnt (a ++ b) /\ Forall item_ok (a ++ b) /\
  0 <= last_len 0 a < 254 /\ off (a ++ b) + 1 < 2 ^ 31.
Proof.
  intros (cnt & Ez & Hc & Hok & Hb). exists cnt. split; [rewrite Ez, chain_app; by rewrite <- !app_assoc|].
  split; [rewrite zlen_app, zlen_header; unfold off; lia|]. split; [done|]. split; [done|]. split; [|done].
  apply last_len_range; [|lia]. apply Forall_app in Hok. apply Hok.
Qed.

Lemma rep_zlen zl its : rep zl its -> zlen zl = off its + 1.
Proof. intros (cnt & -> & _). rewrite !zlen_app, zlen_header. unfold off. change (zlen [ZIP_END]) with 1. lia. Qed.

(** The byte and the entry at a cut. *)
Lemma cut_end zl a : rep zl a -> get zl (off a) = Some ZIP_END.
Proof.
  intros Hr. rewrite <- (app_nil_r a) in Hr. destruct (rep_cut zl a [] Hr) as (cnt & Ez & Hp & _). rewrite Ez, app_nil_r in *.
  by apply get_zlen.
Qed.

Lemma cut_entry zl a it b : rep zl (a ++ it :: b) ->
  zipEntry zl (off a) = Some (mk_zlentry 1 (last_len 0 a) (zlen (hdr it)) (zlen (payload it)) (1 + zlen (hdr it)) (ienc it) (off a)) /\
  zipRawEntryLength zl (off a) = Some (rawlen it) /\ get zl (off a) = Some (last_len 0 a) /\ (last_len 0 a =? ZIP_END) = false.
Proof.
  intros Hr. destruct (rep_cut zl a (it :: b) Hr) as (cnt & Ez & Hp & _ & Hok & Hl & _). cbn [chain] in Ez.
  apply Forall_app in Hok as [_ Hok]. inversion Hok as [|? ? Hit _]; subst x l.
  destruct (entry_at zl (header (off (a ++ it :: b) + 1) (tail_off (a ++ it :: b)) cnt ++ chain 0 a) (last_len 0 a) it
    (chain (rawlen it) b ++ [ZIP_END]) (off a)) as (H1 & H2 & H3).
  - rewrite Ez. cbn [app]. by rewrite <- !app_assoc.
  - symmetry. exact Hp.
  - done.
  - done.
  - split; [done|]. split; [done|]. split; [done|]. apply Z.eqb_neq. unfold ZIP_END. lia.
Qed.

Lemma off_snoc a it : off (a ++ [it]) = off a + rawlen it.
Proof. rewrite off_app, zlen_chain_cons. change (zlen (chain (rawlen it) [])) with 0. lia. Qed.

(** ** Traversals *)

Lemma skip_ok zl b : forall a c i num fuel, rep zl (a ++ b ++ c) -> 0 <= i -> i + Z.of_nat (length b) <= num ->
  (i + Z.of_nat (length b) = num \/ c = []) -> (length b < fuel)%nat ->
  skip_entries fuel zl (off a) i num = Some (off (a ++ b), i + Z.of_nat (length b)).
Proof.
  induction b as [|it b IH]; intros a c i num fuel Hr Hi Hn Hend Hf; (destruct fuel as [|fuel]; [simpl in Hf; lia|]); cbn [skip_entries].
  - rewrite app_nil_r. simpl in Hn, Hend. destruct Hend as [Hend| ->].
    + assert (Hg : exists c0, get zl (off a) = Some c0).
      { destruct c as [|it c]; [simpl in Hr; rewrite app_nil_r in Hr; eexists; by apply cut_end|]. eexists. apply (cut_entry zl a it c Hr). }
      destruct Hg as [c0 ->]. cbn [mbind option_bind]. rewrite (proj2 (Z.ltb_ge i num)), andb_false_r by lia. simpl. do 2 f_equal. lia.
    + simpl in Hr. rewrite app_nil_r in Hr. rewrite (cut_end zl a Hr). cbn [mbind option_bind]. change (ZIP_END =? ZIP_END) with true. simpl. do 2 f_equal. lia.
  - destruct (cut_entry zl a it (b ++ c) Hr) as (_ & Hraw & Hg & Hne). rewrite Hg. cbn [mbind option_bind]. rewrite Hne. simpl length in *.
    rewrite (proj2 (Z.ltb_lt i num)) by lia. cbn [negb andb]. rewrite Hraw. cbn [mbind option_bind]. rewrite <- off_snoc.
    rewrite (IH (a ++ [it]) c); [rewrite <- app_assoc; do 2 f_equal; lia|by rewrite <- app_assoc|lia|lia|destruct Hend as [?| ->]; [left; lia|by right]|lia].
Qed.

Lemma forward_ok zl b : forall a c index fuel, rep zl (a ++ b ++ c) -> Z.of_nat (length b) <= index ->
  (Z.of_nat (length b) = index \/ c = []) -> (length b < fuel)%nat ->
  index_forward fuel zl (off a) index = Some (off (a ++ b), if decide (c = []) then index - Z.of_nat (length b) else -1).
Proof.
  induction b as [|it b IH]; intros a c index fuel Hr Hn Hend Hf; (destruct fuel as [|fuel]; [simpl in Hf; lia|]); cbn [index_forward].
  - rewrite app_nil_r. simpl in Hn, Hend. destruct c as [|it c].
    + simpl in Hr. rewrite app_nil_r in Hr. rewrite (cut_end zl a Hr). cbn [mbind option_bind]. change (ZIP_END =? ZIP_END) with true. simpl. do 2 f_equal. lia.
    + destruct Hend as [Hend|]; [|done]. destruct (cut_entry zl a it c Hr) as (_ & _ & -> & Hne). cbn [mbind option_bind]. rewrite Hne. cbn [negb].
      rewrite (proj2 (Z.eqb_eq index 0)) by lia. done.
  - destruct (cut_entry zl a it (b ++ c) Hr) as (_ & Hraw & Hg & Hne). rewrite Hg. cbn [mbind option_bind]. rewrite Hne. simpl length in *. cbn [negb].
    rewrite (proj2 (Z.eqb_neq index 0)) by lia. rewrite Hraw. cbn [mbind option_bind]. rewrite <- off_snoc.
    rewrite (IH (a ++ [it]) c); [rewrite <- app_assoc; do 2 f_equal; case_decide; lia|by rewrite <- app_assoc|lia|destruct Hend as [?| ->]; [left; lia|by right]|lia].
Qed.

Lemma back_ok zl b : forall a it c index fuel e, rep zl ((a ++ b) ++ it :: c) -> zipEntry zl (off (a ++ b)) = Some e ->
  0 <= index -> Z.of_nat (length b) <= index -> (Z.of_nat (length b) = index \/ a = []) -> (length b < fuel)%nat ->
  index_back fuel zl (off (a ++ b)) e index = Some (off a, if decide (a = []) then index - Z.of_nat (length b) else -1).
Proof.
  induction b as [|x b IH] using rev_ind; intros a it c index fuel e Hr He Hi Hn Hend Hf; (destruct fuel as [|fuel]; [simpl in Hf; lia|]); cbn [index_back].
  - rewrite app_nil_r in *. destruct (cut_entry zl a it c Hr) as (He' & _). rewrite He' in He. injection He as <-. cbn [prevrawlen].
    destruct a as [|y a _] using rev_ind.
    + simpl. do 2 f_equal. lia.
    + rewrite last_len_app. cbn [last_len]. pose proof (rawlen_pos y). rewrite (proj2 (Z.ltb_lt 0 (rawlen y))) by lia.
      destruct Hend as [Hend|Hend]; [|by destruct a]. rewrite (proj2 (Z.eqb_eq index 0)) by (simpl in Hend; lia).
      rewrite decide_False by (by destruct a). done.
  - destruct (cut_entry zl (a ++ b ++ [x]) it c Hr) as (He' & _). rewrite He' in He. injection He as <-. cbn [prevrawlen].
    rewrite app_assoc, last_len_app. cbn [last_len]. pose proof (rawlen_pos x). rewrite (proj2 (Z.ltb_lt 0 (rawlen x))) by lia.
    rewrite length_app in *. simpl length in *. rewrite (proj2 (Z.eqb_neq index 0)) by lia.
    rewrite off_snoc. replace (off (a ++ b) + rawlen x - rawlen x) with (off (a ++ b)) by lia.
    assert (Hr' : rep zl ((a ++ b) ++ x :: it :: c)) by (rewrite <- !app_assoc in *; exact Hr).
    destruct (cut_entry zl (a ++ b) x (it :: c) Hr') as (He2 & _). rewrite He2. cbn [mbind option_bind].
    rewrite (IH a x (it :: c)); [do 2 f_equal; case_decide; lia|done|done|lia|lia|destruct Hend as [?| ->]; [left; lia|by right]|lia].
Qed.

Lemma ziplist_len_loop_ok zl b : forall a n fuel, rep zl (a ++ b) -> 0 <= n -> n + Z.of_nat (length b) < 2 ^ 31 -> (length b < fuel)%nat ->
  len_loop fuel zl (off a) n = Some (n + Z.of_nat (length b)).
Proof.
  induction b as [|it b IH]; intros a n fuel Hr Hn Hb Hf; (destruct fuel as [|fuel]; [simpl in Hf; lia|]); cbn [len_loop].
  - rewrite app_nil_r in Hr. rewrite (cut_end zl a Hr). cbn [mbind option_bind]. change (ZIP_END =? ZIP_END) with true. simpl. f_equal. lia.
  - destruct (cut_entry zl a it b Hr) as (_ & Hraw & Hg & Hne). rewrite Hg. cbn [mbind option_bind]. rewrite Hne. cbn [negb].
    rewrite Hraw. cbn [mbind option_bind]. simpl length in *. rewrite wrapu_id by (unfold in_u; lia). rewrite <- off_snoc.
    rewrite (IH (a ++ [it])); [f_equal; lia|by rewrite <- app_assoc|lia|lia|lia].
Qed.

(** The fuel of the traversals, the size of the block, is enough. *)
Lemma rep_fuel zl its : rep zl its -> (length its < length zl)%nat.
Proof.
  intros Hr. pose proof (rep_zlen zl its Hr) as Hz. unfold off in Hz. pose proof (chain_length 0 its). unfold zlen, ZIPLIST_HEADER_SIZE in *. lia.
Qed.

(** ** Integers as text *)

Lemma try_ok s : zlen s < 2 ^ 31 -> exists r, zipTryEncoding s (zlen s) = Some r /\
  match r with
  | Some (v, e) => in_s 64 v /\ s = Util.dec v /\ e = enc_of v
  | None => forall v, in_s 64 v -> s <> Util.dec v
  end.
Proof.
  intros Hs. unfold zipTryEncoding. set (jj := replicate 32 junk). pose proof (zlen_nonneg s) as Hs0.
  assert (Hdec : forall v, in_s 64 v -> s = Util.dec v -> 0 < zlen s < 32).
  { intros v Hv ->. pose proof (Util.dec_length v Hv). unfold zlen. lia. }
  destruct ((32 <=? zlen s) || (zlen s =? 0)) eqn:E.
  { exists None. split; [done|]. intros v Hv Es. pose proof (Hdec v Hv Es). apply orb_true_iff in E as [E|E]; bsimp; lia. }
  bsimp. destruct s as [|c s'] eqn:Es; [done|]. rewrite <- Es in *.
  replace (get s 0) with (Some c) by (by rewrite Es). cbn [mbind option_bind].
  assert (Hfirst : forall v, in_s 64 v -> s = Util.dec v -> (c =? 45) || ((48 <=? c) && (c <=? 57)) = true).
  { intros v [Hlo Hhi] Ed. change (64 - 1) with 63 in *. rewrite Es in Ed. unfold Util.dec in Ed. destruct (Z.ltb_spec v 0).
    - assert (c = 45) as -> by (revert Ed; generalize (Sds.digs 20 (- v)); intros l; congruence). done.
    - destruct (Util.digs_ok v) as (Hd & _ & _); [lia|]. rewrite <- Ed in Hd. inversion Hd as [|? ? Hc _]; subst. unfold Sds.digit in Hc.
      rewrite (proj2 (Z.leb_le 48 c)), (proj2 (Z.leb_le c 57)) by lia. by rewrite orb_true_r. }
  destruct ((c =? 45) || ((48 <=? c) && (c <=? 57))) eqn:Ec.
  2:{ exists None. split; [done|]. intros v Hv Ed. pose proof (Hfirst v Hv Ed). done. }
  rewrite read_prefix by (unfold zlen; lia). cbn [mbind option_bind]. replace (Z.to_nat (zlen s)) with (length s) by (unfold zlen; lia). rewrite firstn_all.
  assert (Hj : zlen jj = zlen s + (1 + (31 - zlen s))) by (change (zlen jj) with 32; lia).
  destruct (cut _ _ _ Hj) as (j1 & j2 & Ej & H1 & H2); [lia|lia|]. clearbody jj. subst jj.
  destruct (cut j2 1 (31 - zlen s)) as (j3 & j4 & -> & H3 & H4); [lia..|].
  rewrite (write_zlen _ [] j1 s (j3 ++ j4)) by done. cbn [mbind option_bind app].
  rewrite (write_zlen _ s j3 [0] j4) by done. cbn [mbind option_bind app].
  destruct (Util.strtoll_total s j4) as (v & e & c0 & Hst & Hv & Hg). rewrite Hst. cbn [mbind option_bind]. rewrite Hg. cbn [mbind option_bind].
  assert (Huniq : forall w, in_s 64 w -> s = Util.dec w -> v = w /\ c0 = 0).
  { intros w Hw Ew. rewrite Ew, (Util.strtoll_dec w 0 j4 Hw eq_refl) in Hst. injection Hst as -> <-. split; [done|].
    rewrite Ew, get_app in Hg by done. congruence. }
  destruct (Z.eqb_spec c0 0) as [->|Hc0]; cbn [negb].
  2:{ exists None. split; [done|]. intros w Hw Ew. destruct (Huniq w Hw Ew). done. }
  pose proof (Util.dec_length v Hv) as Hdl.
  assert (Hbuf : Z.of_nat (length (s ++ 0 :: j4)) = 32) by (rewrite length_app; unfold zlen in *; simpl; lia).
  rewrite Util.ll2string_ok by (done || lia). cbn [mbind option_bind].
  replace (Z.min (Z.of_nat (length (Util.dec v))) (32 - 1)) with (Z.of_nat (length (Util.dec v))) by lia. rewrite Nat2Z.id, (take_ge (Util.dec v)) by lia.
  destruct (Z.eqb_spec (zlen s) (Z.of_nat (length (Util.dec v)))) as [El|El]; cbn [negb].
  2:{ exists None. split; [done|]. intros w Hw Ew. destruct (Huniq w Hw Ew) as [<- _]. by rewrite Ew in El. }
  rewrite !read_prefix by (rewrite ?length_app; unfold zlen in *; lia). cbn [mbind option_bind]. rewrite Nat2Z.id, take_app_length, (take_ge s) by (unfold zlen in *; lia).
  pose proof (memcmp_eq (Util.dec v) s ltac:(unfold zlen in *; lia)) as Hm.
  destruct (Z.eqb_spec (memcmp (Util.dec v) s) 0) as [E0|E0]; cbn [negb].
  - exists (Some (v, enc_of v)). split.
    { unfold enc_of. destruct ((- 2 ^ 15 <=? v) && (v <=? 2 ^ 15 - 1)); [reflexivity|].
      by destruct ((- 2 ^ 31 <=? v) && (v <=? 2 ^ 31 - 1)). }
    apply Hm in E0. done.
  - exists None. split; [done|]. intros w Hw Ew. destruct (Huniq w Hw Ew) as [<- _]. apply E0, Hm. done.
Qed.

(** The entry the code makes for a string. *)
Lemma try_item s : zlen s < 2 ^ 31 -> exists r it, zipTryEncoding s (zlen s) = Some r /\ text it = s /\ ijunk it = jb /\
  match r with Some (v, e) => ival it = ZInt v /\ in_s 64 v /\ e = enc_of v | None => ival it = ZStr s end.
Proof.
  intros Hs. destruct (try_ok s Hs) as ([[v e]|] & Hr & Hm).
  - destruct Hm as (Hv & Ed & ->). exists (Some (v, enc_of v)), (mk_item (ZInt v) jb). split; [done|]. split; [by rewrite Ed|]. by split.
  - exists None, (mk_item (ZStr s) jb). by split.
Qed.

(** ** Insertion *)

Lemma last_cases (l : list item) : l = [] \/ exists l' it, l = l' ++ [it].
Proof. destruct l as [|it l _] using rev_ind; [by left|right; eauto]. Qed.

Lemma prevlen_ok zl a b : rep zl (a ++ b) -> insert_prevlen zl (off a) = Some (last_len 0 a).
Proof.
  intros Hr. unfold insert_prevlen. destruct b as [|it b].
  - rewrite app_nil_r in Hr. rewrite (cut_end zl a Hr). cbn [mbind option_bind]. change (ZIP_END =? ZIP_END) with true. cbn [negb].
    pose proof Hr as (cnt & Ez & _ & _ & Hb). pose proof (tail_off_range a). pose proof (off_pos a). unfold ZIPLIST_HEADER_SIZE in *.
    rewrite Ez at 1. rewrite tail_at by lia. cbn [mbind option_bind].
    destruct (last_cases a) as [->|(a' & it & ->)].
    + change (tail_off []) with (off []). rewrite (cut_end zl [] Hr). done.
    + rewrite tail_off_snoc. destruct (cut_entry zl a' it [] Hr) as (_ & Hraw & Hg & Hne). rewrite Hg. cbn [mbind option_bind]. rewrite Hne. cbn [negb].
      by rewrite Hraw, last_len_app.
  - destruct (cut_entry zl a it b Hr) as (He & _ & Hg & Hne). rewrite Hg. cbn [mbind option_bind]. rewrite Hne. cbn [negb]. by rewrite He.
Qed.

(** Growing the block by [n > 0] bytes. *)
Lemma ziplist_resize_grow tot tail cnt mid n : tot = ZIPLIST_HEADER_SIZE + zlen mid + 1 -> 0 < n -> tot + n < 2 ^ 31 ->
  exists r, zlen r = n /\ (exists r', r = ZIP_END :: r') /\
    ziplistResize (header tot tail cnt ++ mid ++ [ZIP_END]) (tot + n) = Some (header (tot + n) tail cnt ++ mid ++ r ++ [ZIP_END]).
Proof.
  intros Ht Hn Hb. pose proof (zlen_nonneg mid). unfold ZIPLIST_HEADER_SIZE in *. unfold ziplistResize.
  assert (Hz : zlen (header tot tail cnt ++ mid ++ [ZIP_END]) = tot) by (rewrite !zlen_app, zlen_header; change (zlen [ZIP_END]) with 1; unfold ZIPLIST_HEADER_SIZE; lia).
  rewrite realloc_grow by (unfold zlen in Hz; lia).
  set (j := replicate (Z.to_nat (tot + n) - length (header tot tail cnt ++ mid ++ [ZIP_END])) junk).
  assert (Hj : zlen j = n) by (unfold j, zlen at 1; rewrite length_replicate; unfold zlen in Hz; lia).
  destruct (cut j (n - 1) 1) as (j1 & j2 & -> & H1 & H2); [lia..|].
  exists ([ZIP_END] ++ j1). split; [rewrite zlen_app, H1; change (zlen [ZIP_END]) with 1; lia|]. split; [by eexists|].
  rewrite <- !app_assoc, set_bytes_at. cbn [mbind option_bind]. rewrite wrapu_id by (unfold in_u; lia).
  rewrite (write_zlen _ (header (tot + n) tail cnt ++ mid ++ [ZIP_END] ++ j1) j2 [ZIP_END] []).
  - by rewrite app_nil_r, <- !app_assoc.
  - by rewrite app_nil_r, <- !app_assoc.
  - rewrite !zlen_app, zlen_header, H1. change (zlen [ZIP_END]) with 1. unfold ZIPLIST_HEADER_SIZE. lia.
  - done.
Qed.

Lemma header_size_ok it enc n : enc = ienc it -> (enc = 0 -> n = zlen (payload it)) ->
  header_bytes (ijunk it) enc n = hdr it /\ zipEncodeLength_size enc n = zlen (hdr it).
Proof.
  intros -> Hn. rewrite zlen_hdr. unfold hdr, header_bytes, zipEncodeLength_size, ZIP_ENC_RAW.
  destruct (Z.eqb_spec (ienc it) 0) as [E|E]; [by rewrite (Hn E)|done].
Qed.

(** The end of [__ziplistInsert]: the entry written over [rawlen it] bytes. *)
Lemma ziplist_put_ok a r b prev it enc n s (v : option (Z * Z)) : zlen r = rawlen it -> 0 <= prev < 254 -> ijunk it = jb -> enc = ienc it ->
  (enc = 0 -> n = zlen (payload it)) ->
  match v with Some (w, e) => ival it = ZInt w /\ e = enc_of w | None => ival it = ZStr s /\ n = zlen s end ->
  ('(zl, k) ← zipPrevEncodeLength (a ++ r ++ b) (zlen a) prev;
   let p := zlen a + k in
   '(zl, k) ← zipEncodeLength zl p enc n;
   let p := p + k in
   match v with
   | Some (value, enc) => zipSaveInteger zl p value enc
   | None => d ← read s 0 n; write zl p d
   end) = Some (a ++ (prev :: hdr it ++ payload it) ++ b).
Proof.
  intros Hr Hp Hj He Hn Hv. destruct (header_size_ok it enc n He Hn) as [Hh1 Hh2]. unfold rawlen in Hr.
  pose proof (hdr_size it). pose proof (zlen_nonneg (payload it)).
  destruct (cut r 1 (zlen (hdr it) + zlen (payload it))) as (r1 & q1 & -> & R1 & Q1); [lia..|].
  destruct (cut q1 (zlen (hdr it)) (zlen (payload it))) as (r2 & r3 & -> & R2 & R3); [lia..|].
  unfold zipPrevEncodeLength, ZIP_BIGLEN. rewrite (proj2 (Z.ltb_lt prev 254)) by lia.
  rewrite (write_zlen _ a r1 [prev] (r2 ++ r3 ++ b)); [|by rewrite <- !app_assoc|done|done]. cbn [mbind option_bind].
  unfold zipEncodeLength. rewrite <- Hj, Hh1, Hh2.
  rewrite (write_zlen _ (a ++ [prev]) r2 (hdr it) (r3 ++ b)); [|by rewrite <- !app_assoc|by rewrite zlen_app|done]. cbn [mbind option_bind].
  assert (Hfin : write ((a ++ [prev]) ++ hdr it ++ r3 ++ b) (zlen a + 1 + zlen (hdr it)) (payload it) = Some (a ++ (prev :: hdr it ++ payload it) ++ b)).
  { rewrite (write_zlen _ ((a ++ [prev]) ++ hdr it) r3 (payload it) b); [|by rewrite <- !app_assoc|by rewrite !zlen_app|done].
    f_equal. rewrite <- !app_assoc. cbn [app]. by rewrite <- app_assoc. }
  destruct v as [[w e]|].
  - destruct Hv as (Ei & ->). unfold zipSaveInteger. unfold payload in Hfin at 1. rewrite Ei in Hfin.
    assert (Hsz : zipEncodingSize (enc_of w) = Some (isize (enc_of w))) by (destruct (enc_of_cases w) as [[-> _]|[[-> _]| ->]]; done).
    rewrite Hsz. cbn [mbind option_bind]. exact Hfin.
  - destruct Hv as (Ei & ->). unfold payload in Hfin at 1. rewrite Ei in Hfin. rewrite read_prefix by (unfold zlen; lia). cbn [mbind option_bind].
    rewrite take_ge by (unfold zlen; lia). exact Hfin.
Qed.

Lemma cnt_range cnt its : cnt_ok cnt its -> 0 <= cnt < 2 ^ 16.
Proof. unfold cnt_ok, UINT16_MAX. lia. Qed.

(** The middle of [__ziplistInsert]: room for an entry of [req] bytes. *)
Lemma room_ok zl a b req : rep zl (a ++ b) -> 2 <= req < 254 -> off (a ++ b) + 1 + req < 2 ^ 31 ->
  exists cnt r, zlen r = req /\ cnt_ok cnt (a ++ b) /\
  (c ← get zl (off a);
   nextdiff ← (if negb (c =? ZIP_END) then zipPrevLenByteDiff zl (off a) req else Some 0);
   let nextdiff := u32 nextdiff in
   let offset := u32 (off a) in
   zl ← ziplistResize zl (u32 (u32 (off (a ++ b) + 1 + req) + nextdiff));
   c ← get zl (off a);
   if negb (c =? ZIP_END) then
     zl ← memmove zl (off a + req) (off a - nextdiff) (u32 (u32 (u32 (off (a ++ b) + 1 - offset) - 1) + nextdiff));
     '(zl, _) ← zipPrevEncodeLength zl (off a + req) req;
     t ← ZIPLIST_TAIL_OFFSET zl;
     set_tail zl (u32 (t + u32 (req + nextdiff)))
   else set_tail zl (u32 (off a)))
  = Some (header (off (a ++ b) + 1 + req) (if decide (b = []) then off a else tail_off (a ++ b) + req) cnt ++
          chain 0 a ++ r ++ chain req b ++ [ZIP_END]).
Proof.
  intros Hr Hreq Hb. destruct (rep_cut zl a b Hr) as (cnt & Ez & Hp & Hc & Hok & Hl & _). exists cnt.
  pose proof (off_pos a) as Ho. pose proof (off_app a b) as Hab. pose proof (zlen_nonneg (chain (last_len 0 a) b)). pose proof (tail_off_range (a ++ b)) as Htr.
  unfold ZIPLIST_HEADER_SIZE in *.
  destruct (ziplist_resize_grow (off (a ++ b) + 1) (tail_off (a ++ b)) cnt (chain 0 a ++ chain (last_len 0 a) b) req) as (r & Hrl & (r' & Er) & Hrs);
    [rewrite zlen_app; unfold off, ZIPLIST_HEADER_SIZE in *; rewrite chain_app, zlen_app; lia|lia|lia|].
  rewrite <- !app_assoc in Hrs. rewrite app_assoc in Hrs. rewrite <- Ez in Hrs.
  assert (Hg : exists c, get zl (off a) = Some c /\ (if negb (c =? ZIP_END) then zipPrevLenByteDiff zl (off a) req else Some 0) = Some 0).
  { destruct b as [|it b].
    - rewrite app_nil_r in Hr. rewrite (cut_end zl a Hr). by eexists.
    - destruct (cut_entry zl a it b Hr) as (_ & _ & Hg & Hne). eexists. split; [exact Hg|]. rewrite Hne. cbn [negb].
      unfold zipPrevLenByteDiff, zipPrevDecodeLength. rewrite Hg. cbn [mbind option_bind]. unfold ZIP_BIGLEN, zipPrevEncodeLength_size.
      rewrite (proj2 (Z.ltb_lt (last_len 0 a) 254)) by lia. cbn [mbind option_bind]. unfold ZIP_BIGLEN. by rewrite (proj2 (Z.ltb_lt req 254)) by lia. }
  destruct Hg as (c & -> & Hnd). cbn [mbind option_bind]. rewrite Hnd. cbn [mbind option_bind]. change (u32 0) with 0.
  rewrite !Z.add_0_r, Z.sub_0_r. rewrite (wrapu_id 32 (wrapu 32 (off (a ++ b) + 1 + req))) by (apply wrapu_range; lia).
  rewrite (wrapu_id 32 (off (a ++ b) + 1 + req)) by (unfold in_u; lia). rewrite Hrs. cbn [mbind option_bind].
  rewrite (wrapu_id 32 (off a)) by (unfold in_u; lia).
  assert (Hhz : forall tl, zlen (header (off (a ++ b) + 1 + req) tl cnt ++ chain 0 a) = off a) by (intros; rewrite zlen_app, zlen_header; done).
  destruct b as [|it b].
  - exists r. split; [done|]. split; [done|]. cbn [chain app]. rewrite Er.
    assert (Hge : get ((header (off (a ++ []) + 1 + req) (tail_off (a ++ [])) cnt ++ chain 0 a) ++ (ZIP_END :: r') ++ [ZIP_END]) (off a) = Some ZIP_END)
      by (apply get_zlen; by rewrite Hhz).
    rewrite <- app_assoc in Hge. rewrite Hge. cbn [mbind option_bind]. change (ZIP_END =? ZIP_END) with true. cbn [negb].
    rewrite set_tail_at. by rewrite decide_True by done.
  - set (cb := chain (last_len 0 a) (it :: b)) in *.
    exists (take (length r) (cb ++ r)). split; [unfold zlen in *; rewrite length_take, length_app; lia|]. split; [done|].
    assert (Hge : get ((header (off (a ++ it :: b) + 1 + req) (tail_off (a ++ it :: b)) cnt ++ chain 0 a) ++ cb ++ r ++ [ZIP_END]) (off a) = Some (last_len 0 a))
      by (unfold cb; cbn [chain app]; apply get_zlen; by rewrite Hhz).
    rewrite <- app_assoc in Hge. rewrite Hge. cbn [mbind option_bind]. rewrite (proj2 (Z.eqb_neq (last_len 0 a) ZIP_END)) by (unfold ZIP_END; lia). cbn [negb].
    assert (Hcb : zlen cb = off (a ++ it :: b) - off a) by (unfold cb; rewrite off_app; lia).
    rewrite (wrapu_id 32 (off (a ++ it :: b) + 1 - off a)), (wrapu_id 32 (off (a ++ it :: b) + 1 - off a - 1)) by (unfold in_u; lia).
    rewrite (wrapu_id 32 (off (a ++ it :: b) + 1 - off a - 1)) by (unfold in_u; lia).
    rewrite (app_assoc (header _ _ _) (chain 0 a)), memmove_up;
      [|rewrite <- (Hhz (tail_off (a ++ it :: b))); unfold zlen in *; lia|rewrite <- (Hhz (tail_off (a ++ it :: b))) at 1; done|unfold zlen in *; lia].
    cbn [mbind option_bind]. unfold zipPrevEncodeLength, ZIP_BIGLEN. rewrite (proj2 (Z.ltb_lt req 254)) by lia.
    rewrite (write_zlen _ ((header (off (a ++ it :: b) + 1 + req) (tail_off (a ++ it :: b)) cnt ++ chain 0 a) ++ take (length r) (cb ++ r)) [last_len 0 a] [req]
      (hdr it ++ payload it ++ chain (rawlen it) b ++ [ZIP_END])).
    + cbn [mbind option_bind]. rewrite <- !app_assoc. rewrite tail_at by lia. cbn [mbind option_bind].
      rewrite (wrapu_id 32 req), wrapu_id by (unfold in_u; lia). rewrite set_tail_at. rewrite decide_False by done. do 2 f_equal.
      cbn [chain app]. by rewrite <- !app_assoc.
    + unfold cb at 2. cbn [chain app]. by rewrite <- !app_assoc.
    + rewrite zlen_app, Hhz. unfold zlen at 1. rewrite length_take, length_app. unfold zlen in *. lia.
    + done.
Qed.

Lemma new_item_ok s : zlen s < 250 -> exists r it, zipTryEncoding s (zlen s) = Some r /\ text it = s /\ ijunk it = jb /\ item_ok it /\
  ienc it = match r with Some (_, e) => e | None => ZIP_ENC_RAW end /\
  match r with Some _ => zipEncodingSize (ienc it) | None => Some (zlen s) end = Some (zlen (payload it)) /\
  (ienc it = 0 -> zlen s = zlen (payload it)) /\
  match r with Some (w, e) => ival it = ZInt w /\ e = enc_of w | None => ival it = ZStr s /\ zlen s = zlen s end.
Proof.
  intros Hs. pose proof (zlen_nonneg s). destruct (try_item s) as (r & it & Hr & Ht & Hj & Hm); [lia|]. exists r, it.
  split; [done|]. split; [done|]. split; [done|]. destruct r as [[v e]|].
  - destruct Hm as (Ei & Hv & ->). pose proof (zlen_payload_int it v Ei) as Hp.
    assert (Hie : ienc it = enc_of v) by (unfold ienc; by rewrite Ei). rewrite Hie, Hp.
    split; [|split; [done|split; [|split; [|done]]]].
    + split; [|by rewrite Ei]. unfold rawlen. rewrite zlen_hdr, Hp, Hie. unfold ZIP_BIGLEN. destruct (enc_of_cases v) as [[-> _]|[[-> _]| ->]]; vm_compute; done.
    + destruct (enc_of_cases v) as [[-> _]|[[-> _]| ->]]; done.
    + intros E. destruct (enc_of_cases v) as [[E' _]|[[E' _]|E']]; rewrite E' in E; done.
  - assert (Hie : ienc it = 0) by (unfold ienc; by rewrite Hm). assert (Hp : payload it = s) by (unfold payload; by rewrite Hm).
    rewrite Hie, Hp. split; [|done]. split; [|by rewrite Hm]. unfold rawlen. rewrite zlen_hdr, Hp, Hie. unfold ZIP_BIGLEN, zipEncodeLength_size.
    change (0 =? ZIP_ENC_RAW) with true. cbv iota. destruct (_ <=? 15); [lia|]. destruct (Z.leb_spec (zlen s) 65535); lia.
Qed.

Lemma tail_insert a b it : (if decide (b = []) then off a else tail_off (a ++ b) + rawlen it) = tail_off (a ++ it :: b).
Proof.
  destruct b as [|x b]; [by rewrite decide_True, tail_off_snoc|]. rewrite decide_False by done. unfold tail_off.
  rewrite !off_app, !last_len_app. cbn [last_len]. rewrite !zlen_chain_cons. lia.
Qed.

Lemma off_insert a b it : off (a ++ it :: b) = off (a ++ b) + rawlen it.
Proof. rewrite !off_app, zlen_chain_cons. rewrite (zlen_chain_prev (rawlen it) (last_len 0 a) b). lia. Qed.

Lemma ziplist_insert_ok zl a b s : rep zl (a ++ b) -> zlen s < 250 -> off (a ++ b) < 2 ^ 30 ->
  exists zl' it, ziplistInsert_ zl (off a) s (zlen s) = Some zl' /\ rep zl' (a ++ it :: b) /\ text it = s.
Proof.
  intros Hr Hs Hb. destruct (new_item_ok s Hs) as (r & it & Htry & Htext & Hj & Hok & Henc & Hreq & Hlen & Hv).
  pose proof (off_pos (a ++ b)) as Ho. unfold ZIPLIST_HEADER_SIZE in Ho.
  pose proof (rawlen_pos it) as Hrp. pose proof Hok as [Hsm _]. unfold ZIP_BIGLEN in Hsm.
  destruct (rep_cut zl a b Hr) as (cnt0 & Ez0 & _ & _ & Hall & Hl & _).
  assert (Hby : ZIPLIST_BYTES zl = Some (off (a ++ b) + 1)) by (rewrite Ez0, <- app_assoc; apply bytes_at; lia).
  unfold ziplistInsert_. rewrite Hby. cbn [mbind option_bind].
  rewrite (prevlen_ok zl a b Hr). cbn [mbind option_bind]. rewrite Htry. cbn [mbind option_bind].
  assert (Ereq : (match r with Some _ => zipEncodingSize match r with Some (_, enc) => enc | None => ZIP_ENC_RAW end | None => Some (zlen s) end)
    = Some (zlen (payload it))) by (destruct r as [[w e]|]; [by rewrite <- Henc|done]).
  rewrite Ereq. cbn [mbind option_bind]. rewrite <- Henc.
  destruct (header_size_ok it (ienc it) (zlen s) eq_refl Hlen) as [Hh1 Hh2]. rewrite Hh2.
  unfold zipPrevEncodeLength_size, ZIP_BIGLEN. rewrite (proj2 (Z.ltb_lt (last_len 0 a) 254)) by lia.
  pose proof (hdr_size it). pose proof (zlen_nonneg (payload it)). unfold rawlen in Hsm, Hrp.
  rewrite (wrapu_id 32 (zlen (payload it) + 1)), (wrapu_id 32 (zlen (payload it) + 1 + zlen (hdr it))) by (unfold in_u; lia).
  replace (zlen (payload it) + 1 + zlen (hdr it)) with (rawlen it) by (unfold rawlen; lia).
  destruct (room_ok zl a b (rawlen it) Hr) as (cnt & room & Hroom & Hcnt & Hrun); [unfold rawlen; lia|unfold rawlen; lia|].
  destruct (get zl (off a)) as [c|]; [|done]. cbn [mbind option_bind] in *.
  destruct (if negb (c =? ZIP_END) then _ else _) as [nd|]; [|done]. cbn [mbind option_bind] in *.
  destruct (ziplistResize zl _) as [zl1|]; [|done]. cbn [mbind option_bind] in *.
  destruct (get zl1 (off a)) as [c1|]; [|done]. cbn [mbind option_bind] in *. rewrite Hrun. cbn [mbind option_bind].
  rewrite tail_insert. set (hd := header (off (a ++ b) + 1 + rawlen it) (tail_off (a ++ it :: b)) cnt).
  pose proof (ziplist_put_ok (hd ++ chain 0 a) room (chain (rawlen it) b ++ [ZIP_END]) (last_len 0 a) it (ienc it) (zlen s) s r
    Hroom Hl Hj eq_refl Hlen Hv) as Hput.
  assert (Hza : zlen (hd ++ chain 0 a) = off a) by (unfold hd; by rewrite zlen_app, zlen_header). rewrite Hza in Hput. rewrite <- app_assoc in Hput.
  destruct (zipPrevEncodeLength _ _ _) as [[z1 k1]|]; [|done]. cbn [mbind option_bind] in *.
  destruct (zipEncodeLength _ _ _ _) as [[z2 k2]|]; [|done]. cbn [mbind option_bind] in *. rewrite Hput. cbn [mbind option_bind].
  rewrite <- app_assoc. unfold hd. pose proof (cnt_range cnt _ Hcnt) as Hcr.
  rewrite (incr_at _ _ cnt _ 1 Hcr) by (try done; unfold UINT16_MAX; lia).
  eexists _, it. split; [done|]. split; [|done]. exists (if cnt <? UINT16_MAX then cnt + 1 else cnt). rewrite off_insert. split; [|split; [|split]].
  - replace (off (a ++ b) + 1 + rawlen it) with (off (a ++ b) + rawlen it + 1) by lia.
    rewrite chain_app. cbn [chain app]. rewrite <- !app_assoc. cbn [app]. by rewrite <- ?app_assoc.
  - unfold cnt_ok, UINT16_MAX in *. rewrite length_app in *. simpl length. destruct (Z.ltb_spec cnt 65535); lia.
  - apply Forall_app in Hall as [H1 H2]. apply Forall_app. split; [done|]. by constructor.
  - unfold rawlen. lia.
Qed.

(** ** Deletion *)

Lemma ziplist_resize_shrink tot tail cnt mid r n : 0 < zlen r -> n = ZIPLIST_HEADER_SIZE + zlen mid + 1 -> n < 2 ^ 31 ->
  ziplistResize (header tot tail cnt ++ mid ++ r) n = Some (header n tail cnt ++ mid ++ [ZIP_END]).
Proof.
  intros Hr Hn Hb. unfold ziplistResize. pose proof (zlen_nonneg mid).
  destruct (cut r 1 (zlen r - 1)) as (r1 & r2 & -> & R1 & _); [lia..|].
  assert (Hz : zlen (header tot tail cnt ++ mid ++ r1) = n) by (rewrite !zlen_app, zlen_header; lia).
  replace (header tot tail cnt ++ mid ++ r1 ++ r2) with ((header tot tail cnt ++ mid ++ r1) ++ r2) by (by rewrite <- !app_assoc).
  rewrite (realloc_shrink junk _ r2) by (unfold zlen in Hz; lia). rewrite set_bytes_at. cbn [mbind option_bind].
  unfold ZIPLIST_HEADER_SIZE in *. rewrite wrapu_id by (unfold in_u; lia).
  rewrite (write_zlen _ (header n tail cnt ++ mid) r1 [ZIP_END] []); [by rewrite app_nil_r, <- app_assoc|by rewrite app_nil_r, <- app_assoc| |done].
  rewrite zlen_app, zlen_header. unfold ZIPLIST_HEADER_SIZE. lia.
Qed.

(** The middle of [__ziplistDelete]: the entries [d] gone, their bytes left
    before the end of the block. *)
Lemma close_ok zl a d b : rep zl (a ++ d ++ b) -> d <> [] ->
  let totlen := zlen (chain (last_len 0 a) d) in
  exists cnt r, zlen r = totlen + 1 /\ cnt_ok cnt (a ++ d ++ b) /\
  (c ← get zl (off (a ++ d));
   if negb (c =? ZIP_END) then
     nextdiff ← zipPrevLenByteDiff zl (off (a ++ d)) (last_len 0 a);
     '(zl, _) ← zipPrevEncodeLength zl (off (a ++ d) - nextdiff) (last_len 0 a);
     t ← ZIPLIST_TAIL_OFFSET zl;
     zl ← set_tail zl (u32 (t - (totlen + nextdiff)));
     b ← ZIPLIST_BYTES zl;
     zl ← memmove zl (off a) (off (a ++ d) - nextdiff) (b - off (a ++ d) - 1 + nextdiff);
     Some (zl, nextdiff)
   else zl ← set_tail zl (u32 (off a - last_len 0 a)); Some (zl, 0))
  = Some (header (off (a ++ d ++ b) + 1) (tail_off (a ++ b)) cnt ++ (chain 0 a ++ chain (last_len 0 a) b) ++ r, 0).
Proof.
  intros Hr Hd totlen. pose proof Hr as Hr0. rewrite app_assoc in Hr.
  destruct (rep_cut zl (a ++ d) b Hr) as (cnt & Ez & Hp & Hc & Hok & Hl & Hb). rewrite <- (app_assoc a d b) in *.
  exists cnt. pose proof (off_pos a) as Ho. pose proof (off_app a d) as Had. fold totlen in Had.
  pose proof (tail_off_range (a ++ d ++ b)) as Htr. pose proof (tail_off_range a) as Hta. unfold ZIPLIST_HEADER_SIZE in *.
  assert (Htot : 0 < totlen).
  { unfold totlen. destruct d as [|it d]; [done|]. rewrite zlen_chain_cons. pose proof (rawlen_pos it). pose proof (zlen_nonneg (chain (rawlen it) d)). lia. }
  assert (Hla : 0 <= last_len 0 a < 254).
  { apply last_len_range; [|lia]. apply Forall_app in Hok as [H1 _]. apply H1. }
  set (hd := fun tl => header (off (a ++ d ++ b) + 1) tl cnt) in *.
  assert (Hhz : forall tl, zlen (hd tl ++ chain 0 a) = off a) by (intros; unfold hd; by rewrite zlen_app, zlen_header).
  assert (Ez1 : zl = hd (tail_off (a ++ d ++ b)) ++ chain 0 a ++ chain (last_len 0 a) d ++ chain (last_len 0 (a ++ d)) b ++ [ZIP_END])
    by (rewrite Ez, chain_app; fold (hd (tail_off (a ++ d ++ b))); by rewrite <- !app_assoc).
  destruct b as [|it b].
  - exists (chain (last_len 0 a) d ++ [ZIP_END]). split; [rewrite zlen_app; done|]. split; [done|].
    assert (Hr' : rep zl (a ++ d)) by (by rewrite app_nil_r in Hr0). rewrite (cut_end zl (a ++ d) Hr'). cbn [mbind option_bind]. change (ZIP_END =? ZIP_END) with true. cbn [negb].
    assert (0 <= off a - last_len 0 a) by (unfold tail_off in Hta; lia). pose proof (off_app a (d ++ [])). pose proof (zlen_nonneg (chain (last_len 0 a) (d ++ []))).
    rewrite wrapu_id by (unfold in_u; lia). rewrite Ez1. unfold hd at 1. rewrite set_tail_at. cbn [mbind option_bind chain].
    rewrite !app_nil_r. done.
  - assert (Hr1 : rep zl ((a ++ d) ++ it :: b)) by (by rewrite <- app_assoc).
    destruct (cut_entry zl (a ++ d) it b Hr1) as (_ & _ & Hg & Hne). rewrite Hg. cbn [mbind option_bind]. rewrite Hne. cbn [negb].
    unfold zipPrevLenByteDiff, zipPrevDecodeLength. rewrite Hg. cbn [mbind option_bind]. unfold ZIP_BIGLEN, zipPrevEncodeLength_size.
    rewrite (proj2 (Z.ltb_lt (last_len 0 (a ++ d)) 254)) by lia. cbn [mbind option_bind]. unfold ZIP_BIGLEN. rewrite (proj2 (Z.ltb_lt (last_len 0 a) 254)) by lia.
    change (to_signed 32 (1 - 1)) with 0. rewrite !Z.sub_0_r, !Z.add_0_r. unfold zipPrevEncodeLength, ZIP_BIGLEN. rewrite (proj2 (Z.ltb_lt (last_len 0 a) 254)) by lia.
    set (tl := hdr it ++ payload it ++ chain (rawlen it) b).
    rewrite (write_zlen zl (hd (tail_off (a ++ d ++ it :: b)) ++ chain 0 a ++ chain (last_len 0 a) d) [last_len 0 (a ++ d)] [last_len 0 a] (tl ++ [ZIP_END])).
    2:{ rewrite Ez1. unfold tl. cbn [chain app]. rewrite <- !app_assoc. cbn [app]. by rewrite <- ?app_assoc. }
    2:{ rewrite app_assoc, zlen_app, Hhz. exact Had. }
    2:{ done. }
    cbn [mbind option_bind]. unfold hd. rewrite <- !app_assoc. rewrite tail_at by lia. cbn [mbind option_bind]. rewrite set_tail_at. cbn [mbind option_bind].
    rewrite bytes_at by lia. cbn [mbind option_bind].
    assert (Hcb : chain (last_len 0 a) (it :: b) = [last_len 0 a] ++ tl) by (unfold tl; cbn [chain app]; by rewrite <- !app_assoc).
    assert (Hzb : zlen (chain (last_len 0 a) (it :: b)) = off (a ++ d ++ it :: b) - off (a ++ d)).
    { rewrite (app_assoc a d), (off_app (a ++ d)). rewrite (zlen_chain_prev _ (last_len 0 (a ++ d))). lia. }
    set (tl' := tail_off (a ++ d ++ it :: b) - totlen).
    assert (Htl : tl' = tail_off (a ++ it :: b)).
    { unfold tl', tail_off. rewrite !off_app, !last_len_app. cbn [last_len]. rewrite chain_app, zlen_app. fold totlen.
      rewrite (zlen_chain_prev (last_len (last_len 0 a) d) (last_len 0 a)). lia. }
    pose proof (tail_off_range (a ++ it :: b)) as Htr2. unfold ZIPLIST_HEADER_SIZE in Htr2.
    rewrite (wrapu_id 32 tl') by (unfold in_u; lia).
    replace (header (off (a ++ d ++ it :: b) + 1) tl' cnt ++ chain 0 a ++ chain (last_len 0 a) d ++ [last_len 0 a] ++ tl ++ [ZIP_END])
      with ((hd tl' ++ chain 0 a) ++ chain (last_len 0 a) d ++ chain (last_len 0 a) (it :: b) ++ [ZIP_END]) by (rewrite Hcb; unfold hd; by rewrite <- !app_assoc).
    rewrite memmove_down; [|rewrite <- (Hhz tl'); done|rewrite Had, <- (Hhz tl'); unfold totlen, zlen; lia|fold (zlen (chain (last_len 0 a) (it :: b))); lia].
    cbn [mbind option_bind]. eexists. split; [|split; [done|]].
    2:{ rewrite <- Htl. rewrite <- !app_assoc. unfold hd. reflexivity. }
    rewrite zlen_app. change (zlen [ZIP_END]) with 1. unfold zlen at 1. rewrite length_drop, length_app. unfold totlen, zlen. lia.
Qed.

Lemma ziplist_delete_ok zl a d b num : rep zl (a ++ d ++ b) -> d <> [] -> Z.of_nat (length d) <= num ->
  (Z.of_nat (length d) = num \/ b = []) -> exists zl', ziplistDelete_ zl (off a) num = Some zl' /\ rep zl' (a ++ b).
Proof.
  intros Hr Hd Hn Hend. unfold ziplistDelete_.
  assert (He : exists e, zipEntry zl (off a) = Some e /\ ep e = off a /\ prevrawlen e = last_len 0 a).
  { destruct d as [|it d]; [done|]. destruct (cut_entry zl a it (d ++ b) Hr) as (-> & _). by eexists. }
  destruct He as (e & -> & Hep & Hprev). cbn [mbind option_bind].
  pose proof (rep_fuel zl _ Hr) as Hfuel. rewrite !length_app in Hfuel.
  pose proof (skip_ok zl d a b 0 num (S (length zl)) Hr ltac:(lia) ltac:(lia)) as Hskip.
  rewrite Hskip; [|destruct Hend as [?| ->]; [left; lia|by right]|lia]. cbn [mbind option_bind]. rewrite Hep, Hprev.
  destruct (close_ok zl a d b Hr Hd) as (cnt & r & Hrl & Hc & Hrun). set (totlen := zlen (chain (last_len 0 a) d)) in *.
  destruct Hr as (_ & _ & _ & Hok & Hb). pose proof (off_pos a). pose proof (off_app a d) as Had. fold totlen in Had.
  pose proof (zlen_nonneg (chain (last_len 0 a) (d ++ b))) as Hdb0. pose proof (off_app a (d ++ b)) as Hadb. pose proof (off_app a b) as Hab.
  assert (Hdb : zlen (chain (last_len 0 a) (d ++ b)) = totlen + zlen (chain (last_len 0 a) b)).
  { rewrite chain_app, zlen_app. by rewrite (zlen_chain_prev _ (last_len 0 a) b). }
  pose proof (zlen_nonneg (chain (last_len 0 a) b)). pose proof (zlen_nonneg r). unfold ZIPLIST_HEADER_SIZE in *.
  assert (Htot : 0 < totlen).
  { unfold totlen. destruct d as [|it d]; [done|]. rewrite zlen_chain_cons. pose proof (rawlen_pos it). pose proof (zlen_nonneg (chain (rawlen it) d)). lia. }
  replace (off (a ++ d) - off a) with totlen by lia. rewrite (wrapu_id 32 totlen) by (unfold in_u; lia). rewrite (proj2 (Z.ltb_lt 0 totlen)) by done.
  destruct (get zl (off (a ++ d))) as [c|]; [|done]. cbn [mbind option_bind] in *. rewrite Hrun. cbn [mbind option_bind].
  rewrite bytes_at by lia. cbn [mbind option_bind]. rewrite Z.add_0_r, (wrapu_id 32 (off (a ++ d ++ b) + 1 - totlen)) by (unfold in_u; lia).
  rewrite (ziplist_resize_shrink _ _ _ (chain 0 a ++ chain (last_len 0 a) b) r); [|lia|unfold ZIPLIST_HEADER_SIZE; rewrite zlen_app; unfold off, ZIPLIST_HEADER_SIZE in *; lia|lia].
  cbn [mbind option_bind]. pose proof (cnt_range cnt _ Hc) as Hcr.
  assert (Hcd : cnt < UINT16_MAX -> 0 <= cnt + - Z.of_nat (length d) < 2 ^ 16) by (unfold cnt_ok, UINT16_MAX in *; rewrite !length_app in Hc; lia).
  rewrite (incr_at _ _ cnt _ (- Z.of_nat (length d)) Hcr Hcd).
  2:{ unfold wrapu. rewrite Z.add_0_l. change (2 ^ 32) with (2 ^ 16 * 2 ^ 16). rewrite Z.rem_mul_r by lia. rewrite Z.mul_comm, Z_mod_plus_full. apply Zmod_mod. }
  eexists. split; [done|]. exists (if cnt <? UINT16_MAX then cnt + - Z.of_nat (length d) else cnt). split; [|split; [|split]].
  - rewrite chain_app. replace (off (a ++ d ++ b) + 1 - totlen) with (off (a ++ b) + 1) by lia. by rewrite <- !app_assoc.
  - unfold cnt_ok, UINT16_MAX in *. rewrite !length_app in *. destruct (Z.ltb_spec cnt 65535); lia.
  - rewrite !Forall_app in *. tauto.
  - lia.
Qed.

(** ** Reading *)

Lemma payload_at zl a it b : rep zl (a ++ it :: b) -> read zl (off a + (1 + zlen (hdr it))) (zlen (payload it)) = Some (payload it).
Proof.
  intros Hr. destruct (rep_cut zl a (it :: b) Hr) as (cnt & Ez & Hp & _). cbn [chain] in Ez.
  set (pre := header (off (a ++ it :: b) + 1) (tail_off (a ++ it :: b)) cnt ++ chain 0 a) in *.
  apply (read_at zl (pre ++ last_len 0 a :: hdr it) (payload it) (chain (rawlen it) b ++ [ZIP_END])); [|fold (zlen (pre ++ last_len 0 a :: hdr it))|done].
  - rewrite Ez, <- !app_assoc. cbn [app]. by rewrite <- !app_assoc.
  - rewrite zlen_app, zlen_cons. lia.
Qed.

Lemma load_ok zl a it b v : rep zl (a ++ it :: b) -> ival it = ZInt v ->
  zipLoadInteger zl (off a + (1 + zlen (hdr it))) (enc_of v) = Some v.
Proof.
  intros Hr Ei. pose proof (payload_at zl a it b Hr) as Hrd. rewrite (zlen_payload_int it v Ei) in Hrd.
  assert (Hok : in_s 64 v).
  { destruct Hr as (_ & _ & _ & Hok & _). apply Forall_app in Hok as [_ Hok]. inversion Hok as [|? ? [_ Hv] _]; subst. by rewrite Ei in Hv. }
  unfold zipLoadInteger. assert (Hsz : zipEncodingSize (enc_of v) = Some (isize (enc_of v))) by (destruct (enc_of_cases v) as [[-> _]|[[-> _]| ->]]; done).
  rewrite Hsz. cbn [mbind option_bind]. rewrite Hrd. cbn [mbind option_bind]. f_equal. unfold payload. rewrite Ei, le_decode_encode.
  assert (Hfit : forall n, (0 < n)%nat -> in_s (8 * Z.of_nat n) v -> to_signed (8 * Z.of_nat n) (v mod 2 ^ (8 * Z.of_nat n)) = v).
  { intros n Hn Hv. rewrite to_signed_mod by lia. apply to_signed_id; [lia|done]. }
  destruct (enc_of_cases v) as [[-> Hv]|[[-> Hv]| ->]]; [apply (Hfit 2%nat)|apply (Hfit 4%nat)|apply (Hfit 8%nat)]; (lia || done).
Qed.

Lemma dec_inj v w : in_s 64 v -> in_s 64 w -> Util.dec v = Util.dec w -> v = w.
Proof.
  intros Hv Hw E. pose proof (Util.strtoll_dec v 0 [] Hv eq_refl) as H1. rewrite E, (Util.strtoll_dec w 0 [] Hw eq_refl) in H1. congruence.
Qed.

Lemma compare_ok zl a it b s : rep zl (a ++ it :: b) -> zlen s < 2 ^ 31 ->
  ziplistCompare zl (off a) s (zlen s) = Some (bool_decide (text it = s)).
Proof.
  intros Hr Hs. destruct (cut_entry zl a it b Hr) as (He & _ & Hg & Hne). unfold ziplistCompare. rewrite Hg. cbn [mbind option_bind]. rewrite Hne, He.
  cbn [mbind option_bind encoding len headersize]. unfold ienc, text. destruct (ival it) as [s0|v] eqn:Ei.
  - change (0 =? ZIP_ENC_RAW) with true. cbv iota. assert (Hp : payload it = s0) by (unfold payload; by rewrite Ei).
    pose proof (payload_at zl a it b Hr) as Hrd. rewrite Hp in *. destruct (Z.eqb_spec (zlen s0) (zlen s)) as [El|El].
    + rewrite <- El, Hrd. cbn [mbind option_bind]. rewrite read_prefix by (unfold zlen in *; lia). cbn [mbind option_bind]. rewrite take_ge by (unfold zlen in *; lia).
      f_equal. apply eq_bool_prop_intro. rewrite !Is_true_true, Z.eqb_eq, bool_decide_eq_true. apply memcmp_eq. unfold zlen in El. lia.
    + rewrite bool_decide_false; [done|]. by intros ->.
  - assert (Hv : in_s 64 v).
    { destruct Hr as (_ & _ & _ & Hok & _). apply Forall_app in Hok as [_ Hok]. inversion Hok as [|? ? [_ Hv] _]; subst. by rewrite Ei in Hv. }
    rewrite (proj2 (Z.eqb_neq (enc_of v) ZIP_ENC_RAW)) by (destruct (enc_of_cases v) as [[-> _]|[[-> _]| ->]]; done).
    destruct (try_ok s Hs) as ([[w e]|] & -> & Hm); cbn [mbind option_bind].
    + destruct Hm as (Hw & -> & ->). rewrite (load_ok zl a it b v Hr Ei). cbn [mbind option_bind].
      destruct (Z.eqb_spec v w) as [->|Hne2].
      * rewrite Z.eqb_refl. by rewrite bool_decide_true.
      * assert (Hdv : Util.dec v <> Util.dec w) by (intros E; apply Hne2; by apply dec_inj).
        rewrite bool_decide_false by exact Hdv. destruct (enc_of v =? enc_of w); reflexivity.
    + rewrite bool_decide_false; [done|]. intros E. by apply (Hm v Hv).
Qed.

(** Where an index of [ziplistIndex] leads, in a list of [n] entries. *)
Definition position (n : nat) (i : Z) : option nat :=
  if i <? 0 then if Z.of_nat n + i <? 0 then None else Some (Z.to_nat (Z.of_nat n + i))
  else if i <? Z.of_nat n then Some (Z.to_nat i) else None.

Lemma index_nonneg zl its i : rep zl its -> 0 <= i -> ziplistIndex zl i = Some ((fun k => off (take k its)) <$> position (length its) i).
Proof.
  intros Hr Hi. unfold ziplistIndex, position. rewrite (proj2 (Z.ltb_ge i 0)) by lia. pose proof (rep_fuel zl its Hr) as Hf.
  destruct (Z.ltb_spec i (Z.of_nat (length its))) as [Hlt|Hge].
  - destruct (lookup_lt_is_Some_2 its (Z.to_nat i)) as [it Hit]; [lia|].
    assert (Es : its = take (Z.to_nat i) its ++ it :: drop (S (Z.to_nat i)) its) by (symmetry; by apply take_drop_middle).
    pose proof (forward_ok zl (take (Z.to_nat i) its) [] (drop (Z.to_nat i) its) i (S (length zl))) as Hfw.
    change ZIPLIST_HEADER_SIZE with (off []). rewrite Hfw.
    + cbn [mbind option_bind app]. rewrite (drop_S _ _ _ Hit), decide_False by done.
      rewrite Es in Hr. destruct (cut_entry zl _ it _ Hr) as (_ & _ & -> & Hne). cbn [mbind option_bind]. rewrite Hne. done.
    + cbn [app]. by rewrite take_drop.
    + rewrite length_take. lia.
    + left. rewrite length_take. lia.
    + rewrite length_take. lia.
  - change ZIPLIST_HEADER_SIZE with (off []). rewrite (forward_ok zl its [] [] i (S (length zl))); [|by rewrite app_nil_r|lia|by right|lia].
    cbn [mbind option_bind app]. rewrite (cut_end zl its Hr). done.
Qed.

Lemma index_neg zl its i : rep zl its -> - 2 ^ 31 <= i < 0 -> ziplistIndex zl i = Some ((fun k => off (take k its)) <$> position (length its) i).
Proof.
  intros Hr Hi. unfold ziplistIndex, position. rewrite (proj2 (Z.ltb_lt i 0)) by lia. pose proof (rep_fuel zl its Hr) as Hf.
  rewrite to_signed_id by (unfold in_s; change (32 - 1) with 31; lia).
  assert (Ht : ZIPLIST_TAIL_OFFSET zl = Some (tail_off its)).
  { destruct Hr as (cnt & Ez & _ & _ & Hb). rewrite Ez. apply tail_at. pose proof (tail_off_range its). unfold ZIPLIST_HEADER_SIZE in *. lia. }
  rewrite Ht. cbn [mbind option_bind]. destruct (last_cases its) as [->|(l & it & ->)].
  - change (tail_off []) with (off []). rewrite (cut_end zl [] Hr). cbn [mbind option_bind]. change (ZIP_END =? ZIP_END) with true. cbn [negb mbind option_bind].
    rewrite (cut_end zl [] Hr). cbn [mbind option_bind]. rewrite (proj2 (Z.ltb_lt _ 0)) by (simpl; lia). done.
  - rewrite tail_off_snoc. destruct (cut_entry zl l it [] Hr) as (He & _ & Hg & Hne). rewrite Hg. cbn [mbind option_bind]. rewrite Hne. cbn [negb].
    rewrite He. cbn [mbind option_bind]. rewrite length_app in *. simpl length in *.
    set (k := (length l - Z.to_nat (- i - 1))%nat). assert (Hk : (k <= length l)%nat) by lia.
    assert (Hback : index_back (S (length zl)) zl (off (take k l ++ drop k l)) (mk_zlentry 1 (last_len 0 l) (zlen (hdr it)) (zlen (payload it)) (1 + zlen (hdr it)) (ienc it) (off l)) (- i - 1)
      = Some (off (take k l), if decide (take k l = []) then (- i - 1) - Z.of_nat (length (drop k l)) else -1)).
    { apply (back_ok zl (drop k l) (take k l) it []); rewrite ?take_drop; try done; [lia|rewrite length_drop; lia| |rewrite length_drop; lia].
      destruct (decide (k = O)) as [->|]; [by right|left; rewrite length_drop; lia]. }
    rewrite take_drop in Hback. rewrite Hback. cbn [mbind option_bind]. rewrite length_drop.
    assert (Hgk : exists c, get zl (off (take k l)) = Some c /\ (c =? ZIP_END) = false).
    { destruct (decide (k = length l)) as [->|Hne2]; [rewrite firstn_all; by exists (last_len 0 l)|].
      destruct (lookup_lt_is_Some_2 l k) as [x Hx]; [lia|]. rewrite <- (take_drop_middle l k x Hx), <- app_assoc in Hr. cbn [app] in Hr.
      destruct (cut_entry zl (take k l) x _ Hr) as (_ & _ & ? & ?). by eexists. }
    destruct Hgk as (c & -> & Hce). cbn [mbind option_bind]. rewrite Hce. cbn [orb].
    destruct (Z.ltb_spec (Z.of_nat (length l + 1) + i) 0) as [Hneg|Hpos].
    + assert (k = O) as -> by lia. rewrite decide_True by done. rewrite (proj2 (Z.ltb_lt 0 _)) by lia. done.
    + replace (Z.to_nat (Z.of_nat (length l + 1) + i)) with k by lia. cbn [fmap option_fmap option_map]. rewrite (take_app_le l [it] k) by lia.
      destruct (decide (take k l = [])) as [E|E]; [|done]. apply (f_equal length) in E. rewrite length_take in E. simpl in E.
      rewrite (proj2 (Z.ltb_ge 0 _)) by lia. done.
Qed.

(** ** Theorems *)

(** The offset of the entry of an index. *)
Definition off_of (its : list item) (i : nat) : Z := off (take i its).

(** While entries stay below 250 bytes, a ziplist is a list of strings: an
    insertion at the place of an index (or at the end, as [ziplistPush] does)
    adds exactly the string there, whatever its encoding, and a deletion of
    [num] entries removes exactly those, both moving and resizing the block
    without a fault and keeping its three header fields right. *)
Theorem ziplist_updates zl its i s : rep zl its -> off its < 2 ^ 30 -> (i <= length its)%nat -> zlen s < 250 ->
  (exists zl' it, ziplistInsert zl (off_of its i) s (zlen s) = Some zl' /\
     rep zl' (take i its ++ it :: drop i its) /\ text it = s) /\
  (forall head, exists zl' it, ziplistPush zl s (zlen s) head = Some zl' /\
     rep zl' (if head then it :: its else its ++ [it]) /\ text it = s) /\
  (forall num, (i < length its)%nat -> 0 < num -> exists zl', ziplistDelete_ zl (off_of its i) num = Some zl' /\
     rep zl' (take i its ++ drop (i + Z.to_nat num) its)).
Proof.
  intros Hr Hb Hi Hs. split; [|split].
  - rewrite <- (take_drop i its) in Hr, Hb. apply ziplist_insert_ok; done.
  - intros head. unfold ziplistPush.
    assert (Hby : ZIPLIST_BYTES zl = Some (off its + 1)).
    { destruct Hr as (cnt & Ez & _ & _ & _). rewrite Ez. apply bytes_at. pose proof (off_pos its). unfold ZIPLIST_HEADER_SIZE in *. lia. }
    rewrite Hby. cbn [mbind option_bind]. replace (off its + 1 - 1) with (off its) by lia. destruct head.
    + apply (ziplist_insert_ok zl [] its s); done.
    + apply (ziplist_insert_ok zl its [] s); rewrite ?app_nil_r; done.
  - intros num Hlt Hnum. destruct (decide (i + Z.to_nat num <= length its)%nat) as [Hle|Hgt].
    + set (d := take (Z.to_nat num) (drop i its)).
      assert (Hdl : length d = Z.to_nat num) by (unfold d; rewrite length_take, length_drop; lia).
      apply (ziplist_delete_ok zl (take i its) d (drop (i + Z.to_nat num) its)).
      * unfold d. rewrite <- drop_drop, take_drop, take_drop. done.
      * intros E. rewrite E in Hdl. simpl in Hdl. lia.
      * lia.
      * left. lia.
    + rewrite (drop_ge its (i + Z.to_nat num)) by lia. apply (ziplist_delete_ok zl (take i its) (drop i its) []).
      * by rewrite app_nil_r, take_drop.
      * intros E. apply (f_equal length) in E. rewrite length_drop in E. simpl in E. lia.
      * rewrite length_drop. lia.
      * by right.
Qed.

(** [ziplistIndex] finds the entry of every index, from either end, and
    [ziplistLen] the number of entries, also when the 16-bit count is
    saturated. *)
Theorem ziplist_index zl its i : rep zl its -> in_s 32 i ->
  ziplistIndex zl i = Some (off_of its <$> position (length its) i) /\
  exists zl', ziplistLen zl = Some (zl', Z.of_nat (length its)) /\ rep zl' its.
Proof.
  intros Hr [Hlo Hhi]. change (32 - 1) with 31 in *. split.
  - destruct (decide (0 <= i)); [by apply index_nonneg|apply index_neg; [done|lia]].
  - pose proof Hr as (cnt & Ez & Hc & Hok & Hb). pose proof (cnt_range cnt _ Hc) as Hcr. pose proof (off_pos its). pose proof (rep_fuel zl its Hr).
    pose proof (chain_length 0 its) as Hcl. unfold ziplistLen.
    assert (Hl : ZIPLIST_LENGTH zl = Some cnt) by (rewrite Ez; by apply length_at). rewrite Hl. cbn [mbind option_bind].
    unfold UINT16_MAX, cnt_ok in *. destruct (Z.ltb_spec cnt 65535); [exists zl; split; [do 2 f_equal; unfold UINT16_MAX in Hc; lia|done]|].
    change ZIPLIST_HEADER_SIZE with (off []). rewrite (ziplist_len_loop_ok zl its [] 0) by (done || unfold off, ZIPLIST_HEADER_SIZE in *; lia). cbn [mbind option_bind].
    rewrite Z.add_0_l. destruct (Z.ltb_spec (Z.of_nat (length its)) 65535); [|by exists zl].
    rewrite Ez, set_length_at. cbn [mbind option_bind]. eexists. split; [done|]. exists (Z.of_nat (length its)). split; [done|]. split; [left; unfold UINT16_MAX; lia|done].
Qed.

(** At the entry of an index, [ziplistGet] gives the bytes of a string or
    the value of an integer, [ziplistCompare] tells whether the entry is a given
    string, whatever the encoding of either, and [ziplistNext] and
    [ziplistPrev] give the neighbours. *)
Theorem ziplist_entry zl its i it : rep zl its -> its !! i = Some it ->
  match ival it with
  | ZStr s => exists o, ziplistGet zl (Some (off_of its i)) = Some (Some (inl (o, zlen s))) /\ read zl o (zlen s) = Some s
  | ZInt v => ziplistGet zl (Some (off_of its i)) = Some (Some (inr v))
  end /\
  (forall s, zlen s < 2 ^ 31 -> ziplistCompare zl (off_of its i) s (zlen s) = Some (bool_decide (text it = s))) /\
  ziplistNext zl (off_of its i) = Some (if decide (S i < length its)%nat then Some (off_of its (S i)) else None) /\
  ziplistPrev zl (off_of its i) = Some (if decide (i = O) then None else Some (off_of its (i - 1))).
Proof.
  intros Hr Hi. pose proof (take_drop_middle its i it Hi) as Es. pose proof Hr as Hr0. rewrite <- Es in Hr. unfold off_of.
  destruct (cut_entry zl (take i its) it (drop (S i) its) Hr) as (He & Hraw & Hg & Hne). pose proof (lookup_lt_Some _ _ _ Hi) as Hlt.
  split; [|split; [|split]].
  - unfold ziplistGet. rewrite Hg. cbn [mbind option_bind]. rewrite Hne, He. cbn [mbind option_bind encoding headersize len].
    pose proof (payload_at zl (take i its) it _ Hr) as Hrd. unfold ienc. destruct (ival it) as [s|v] eqn:Ei.
    + change (0 =? ZIP_ENC_RAW) with true. cbv iota. assert (Hp : payload it = s) by (unfold payload; by rewrite Ei). rewrite Hp in *. by eexists.
    + rewrite (proj2 (Z.eqb_neq (enc_of v) ZIP_ENC_RAW)) by (destruct (enc_of_cases v) as [[-> _]|[[-> _]| ->]]; done).
      by rewrite (load_ok zl _ it _ v Hr Ei).
  - intros s Hs. by apply (compare_ok zl (take i its) it (drop (S i) its)).
  - unfold ziplistNext. rewrite Hg. cbn [mbind option_bind]. rewrite Hne, Hraw. cbn [mbind option_bind]. rewrite <- off_snoc, <- (take_S_r its i it Hi).
    destruct (decide (S i < length its)%nat) as [Hs|Hs].
    + destruct (lookup_lt_is_Some_2 its (S i)) as [x Hx]; [lia|]. rewrite <- (take_drop_middle its (S i) x Hx) in Hr0.
      destruct (cut_entry zl (take (S i) its) x _ Hr0) as (_ & _ & -> & Hne2). cbn [mbind option_bind]. by rewrite Hne2.
    + rewrite take_ge by lia. rewrite (cut_end zl its Hr0). done.
  - unfold ziplistPrev. rewrite Hg. cbn [mbind option_bind]. rewrite Hne. destruct i as [|i]; [done|]. rewrite decide_False by done.
    destruct (lookup_lt_is_Some_2 its i) as [x Hx]; [lia|]. rewrite (take_S_r its i x Hx), off_snoc in *. pose proof (off_pos (take i its)). pose proof (rawlen_pos x).
    rewrite (proj2 (Z.eqb_neq _ _)) by lia. rewrite He. cbn [mbind option_bind prevrawlen]. rewrite last_len_app. cbn [last_len].
    replace (S i - 1)%nat with i by lia. do 2 f_equal. lia.
Qed.

End ziplist.

(** ** Entries of 254 bytes and more *)

Definition big : list Z := replicate 260 65.

(** A new list after the pushes of [l], at the head where the flag is set. *)
Definition build (l : list (list Z * bool)) : option block :=
  foldl (fun r p => zl ← r; ziplistPush 9 5 zl p.1 (zlen p.1) p.2) (ziplistNew 9) l.

(** With an entry of 254 bytes or more the list breaks in three ways.
    Pushing one in front of a single short entry leaves the tail offset four
    bytes too far, so that the last entry is not found where the second one is.
    Inserting a short entry before one that follows a long entry moves memory
    from 2^32 - 4 bytes before the entry, outside the block.  Deleting a long
    entry before two short ones leaves the tail offset past the end of the
    block. *)
Theorem big_entries_break :
  (zl ← build [([102; 111; 111], false); (big, true)]; '(_, n) ← ziplistLen zl; Some (n, ziplistIndex zl 1, ziplistIndex zl (-1)))
    = Some (2, Some (Some 274), Some (Some 278)) /\
  (zl ← build [(big, false); ([102], false)]; p ← ziplistIndex zl 1; p ← p; Some (ziplistInsert 9 5 zl p [103] 1)) = Some None /\
  (zl ← build [(big, false); ([102], false); ([103], false)]; zl ← ziplistDeleteRange 9 zl 0 1;
   Some (ziplistIndex zl 1, ziplistIndex zl (-1))) = Some (Some (Some 13), None).
Proof. split; [|split]; vm_compute; reflexivity. Qed.

(** ** Examples *)

(** ["hi"], ["foo"] and 1024. *)
Definition ex_zl : block :=
  [24; 0; 0; 0; 19; 0; 0; 0; 3; 0; 0; 2; 104; 105; 4; 3; 102; 111; 111; 5; 69; 0; 4; 255].
Definition ex_its : list item :=
  [mk_item (ZStr [104; 105]) 5; mk_item (ZStr [102; 111; 111]) 5; mk_item (ZInt 1024) 5].

Lemma ziplist_ex_rep : rep ex_zl ex_its.
Proof.
  exists 3. split; [vm_compute; reflexivity|]. split; [left; done|]. split; [|done].
  repeat constructor; try done.
Qed.

Lemma ziplist_updates_witness : exists zl' it, ziplistInsert 9 5 ex_zl (off_of ex_its 1) [45; 55] (zlen [45; 55]) = Some zl' /\
  rep zl' (take 1 ex_its ++ it :: drop 1 ex_its) /\ text it = [45; 55].
Proof.
  destruct (ziplist_updates 9 5 ex_zl ex_its 1 [45; 55] ziplist_ex_rep) as (Hins & _); [vm_compute; reflexivity|simpl; lia|vm_compute; reflexivity|].
  exact Hins.
Defined.

Lemma ziplist_index_witness : ziplistIndex ex_zl (-2) = Some (Some 14).
Proof. destruct (ziplist_index ex_zl ex_its (-2) ziplist_ex_rep) as [Hi _]; [unfold in_s; lia|]. rewrite Hi. vm_compute. reflexivity. Defined.

Lemma ziplist_entry_witness : ziplistGet ex_zl (Some 19) = Some (Some (inr 1024)).
Proof. apply (ziplist_entry 9 ex_zl ex_its 2 (mk_item (ZInt 1024) 5) ziplist_ex_rep eq_refl). Defined.

End Ziplist.
