(* ===== verification/Skiplist.v ===== *)
(** * Skip lists

    [redis/src/t_zset.c], the skip lists of sorted sets: [zslCreate],
    [zslInsert], [zslDelete], [zslDeleteRangeByScore], [zslDeleteRangeByRank],
    [zslFirstWithScore], [zslistTypeGetRank], [zslistTypeGetElementByRank],
    [zslRandomLevel] and [zslFree].

    Nodes live in a heap; [NULL] is [None], and reading a node that is not
    there, or an entry outside the arrays [forward] and [span] of a node, is the
    [None] of the operation, as is a walk that does not end.  [span[i-1]] is the
    number of elements a link of level [i] crosses.  Scores are ordered by the
    class [ScoreOrder] (doubles other than NaN), objects by [ObjOrder]
    ([compareStringObjects], whose laws [StrObj] discharges); [zmalloc] returns an address not in use, and new
    arrays have arbitrary contents.

    The theorems: with the list represented by its elements in order, the
    operations are those of a sorted list, every link skips exactly the lower
    nodes and every span is the distance it crosses, so ranks are positions. *)

From S2P Require Import Prelude.
Local Open Scope Z_scope.

(** The comparisons of [double]s, and their laws without NaN. *)
Class ScoreOps (Sc : Type) := { slt : Sc -> Sc -> bool; seq_ : Sc -> Sc -> bool }.
Class ScoreOrder (Sc : Type) `{ScoreOps Sc} : Prop := {
  slt_irrefl x : slt x x = false;
  slt_trans x y z : slt x y = true -> slt y z = true -> slt x z = true;
  slt_total x y z : slt x y = true -> slt x z = true \/ slt z y = true;
  seq_spec x y : seq_ x y = negb (slt x y) && negb (slt y x)
}.

(** The comparisons of string objects, [compareStringObjects] and
    [equalStringObjects]: the list relies on a weak order. *)
Class ObjOps (Obj : Type) := { cmp : Obj -> Obj -> Z; equal : Obj -> Obj -> bool }.
Class ObjOrder (Obj : Type) `{ObjOps Obj} : Prop := {
  cmp_refl x : cmp x x = 0;
  cmp_trans x y z : cmp x y < 0 -> cmp y z < 0 -> cmp x z < 0;
  cmp_anti x y : cmp x y < 0 <-> 0 < cmp y x;
  cmp_total x y z : cmp x y < 0 -> cmp x z < 0 \/ cmp z y < 0;
  equal_spec x y : equal x y = (cmp x y =? 0)
}.

Module Skiplist.
Section skiplist.
Context {Sc Obj : Type} `{ScoreOps Sc} `{ObjOps Obj}.

Abbreviation loc := positive.
Abbreviation ptr := (option positive).

Record zskiplistNode := mk_node { forward : list ptr; backward : ptr; span : list Z; score : Sc; obj : option Obj }.
Abbreviation heap := (gmap positive zskiplistNode).
Record zskiplist := mk_zsl { mem : heap; header : loc; tail : ptr; length_ : Z; level : nat }.

Definition ZSKIPLIST_MAXLEVEL : nat := 32.

(** [zmalloc], and the contents of new memory. *)
Context (zmalloc : heap -> loc) (junk_ptr : ptr) (junk_span : Z).

(** ** Reading and writing nodes *)

Definition get_forward (h : heap) (a : loc) (i : nat) : option ptr := n ← h !! a; forward n !! i.
(** The elements the link of level [i] crosses. *)
Definition crossed (n : zskiplistNode) (i : nat) : option Z := match i with O => Some 1 | S j => span n !! j end.

Definition put {A} (l : list A) (i : nat) (x : A) : option (list A) := if (i <? length l)%nat then Some (<[i := x]> l) else None.
Definition set_forward (h : heap) (a : loc) (i : nat) (p : ptr) : option heap :=
  n ← h !! a; f ← put (forward n) i p; Some (<[a := mk_node f (backward n) (span n) (score n) (obj n)]> h).
(** [span[i-1] = s]. *)
Definition set_span (h : heap) (a : loc) (i : nat) (s : Z) : option heap :=
  n ← h !! a; sp ← put (span n) (i - 1) (wrapu 32 s); Some (<[a := mk_node (forward n) (backward n) sp (score n) (obj n)]> h).
Definition get_span (h : heap) (a : loc) (i : nat) : option Z := n ← h !! a; span n !! (i - 1)%nat.
Definition set_backward (h : heap) (a : loc) (p : ptr) : option heap :=
  n ← h !! a; Some (<[a := mk_node (forward n) p (span n) (score n) (obj n)]> h).

Definition zslCreateNode (level : nat) (sc : Sc) (o : option Obj) : zskiplistNode :=
  mk_node (replicate level junk_ptr) junk_ptr (replicate (level - 1) junk_span) sc o.

(** The loop over the header sets its links and spans. *)
Definition zslCreate (sc0 : Sc) : zskiplist :=
  let h : heap := ∅ in
  let a := zmalloc h in
  mk_zsl (<[a := mk_node (replicate ZSKIPLIST_MAXLEVEL None) None (replicate (ZSKIPLIST_MAXLEVEL - 1) 0) sc0 None]> h) a None 0 1.

(** [random() & 0xFFFF < 0.25 * 0xFFFF]; [rs] are the numbers drawn. *)
Fixpoint random_loop (rs : list Z) (level : Z) : option Z :=
  match rs with
  | [] => None
  | r :: rs' => if Z.land r 65535 <? 16384 then random_loop rs' (level + 1) else Some level
  end.
Definition zslRandomLevel (rs : list Z) : option nat :=
  level ← random_loop rs 1;
  Some (if level <? Z.of_nat ZSKIPLIST_MAXLEVEL then Z.to_nat level else ZSKIPLIST_MAXLEVEL).

(** ** Walking *)

(** Whether to follow the link of level [i] from the first node to the second,
    and the rank afterwards; [None] is a bad access. *)
Abbreviation mover := (nat -> Z -> zskiplistNode -> zskiplistNode -> option (option Z)).

(** [while (x->forward[i] && ...)], one level. *)
Fixpoint walk (fuel : nat) (go : mover) (h : heap) (i : nat) (x : loc) (r : Z) : option (loc * Z) :=
  match fuel with
  | O => None
  | S fuel' =>
    n ← h !! x; f ← forward n !! i;
    match f with
    | None => Some (x, r)
    | Some y =>
      m ← h !! y; g ← go i r n m;
      match g with
      | Some r' => walk fuel' go h i y r'
      | None => Some (x, r)
      end
    end
  end.

Definition steps (h : heap) : nat := S (size h).

(** [for (i = level-1; i >= 0; i--)]: where the walk ends, its rank, and the
    arrays [update] and [rank], from level 0 up. *)
Fixpoint descend (go : mover) (h : heap) (i : nat) (x : loc) (r : Z) (acc : list (loc * Z)) : option (loc * Z * list (loc * Z)) :=
  match i with
  | O => Some (x, r, acc)
  | S i' => '(x', r') ← walk (steps h) go h i' x r; descend go h i' x' r' ((x', r') :: acc)
  end.

Definition search (go : mover) (z : zskiplist) : option (loc * Z * list (loc * Z)) := descend go (mem z) (level z) (header z) 0 [].

(** The tests of the loops. *)
Definition before (sc : Sc) (o : Obj) (n : zskiplistNode) : option bool :=
  if slt (score n) sc then Some true
  else if seq_ (score n) sc then o' ← obj n; Some (cmp o' o <? 0) else Some false.
Definition upto (sc : Sc) (o : Obj) (n : zskiplistNode) : option bool :=
  if slt (score n) sc then Some true
  else if seq_ (score n) sc then o' ← obj n; Some (cmp o' o <=? 0) else Some false.

(** A test on the next node, without and with the rank. *)
Definition go_plain (test : zskiplistNode -> option bool) : mover := fun i r n m =>
  b ← test m; Some (if (b : bool) then Some r else None).
Definition go_rank (test : zskiplistNode -> option bool) : mover := fun i r n m =>
  b ← test m; if (b : bool) then s ← crossed n i; Some (Some (wrapu 32 (r + s))) else Some None.
(** A test on the rank of the next node. *)
Definition go_below (test : Z -> bool) : mover := fun i r n m =>
  s ← crossed n i; let r' := wrapu 32 (r + s) in Some (if test r' then Some r' else None).

(** ** Insertion *)

(** [for (i = a; i < a + k; i++)], one step a level. *)
Fixpoint levels (step : nat -> heap -> option heap) (k i : nat) (h : heap) : option heap :=
  match k with
  | O => Some h
  | S k' => h ← step i h; levels step k' (S i) h
  end.

(** Levels not used before: the span of the header's link is the length. *)
Definition grow_step (hd : loc) (len : Z) (i : nat) (h : heap) : option heap := set_span h hd i len.

(** Linking the new node [x]. *)
Definition link_step (ups : list (loc * Z)) (x : loc) (rank0 : Z) (i : nat) (h : heap) : option heap :=
  '(u, r) ← ups !! i;
  f ← get_forward h u i; h ← set_forward h x i f; h ← set_forward h u i (Some x);
  if (0 <? i)%nat then
    s ← get_span h u i;
    h ← set_span h x i (s - (rank0 - r)); set_span h u i (rank0 - r + 1)
  else Some h.

(** [update[i]->span[i-1]++]. *)
Definition widen_step (ups : list (loc * Z)) (i : nat) (h : heap) : option heap :=
  '(u, _) ← ups !! i; s ← get_span h u i; set_span h u i (s + 1).

(** [lv] is the level drawn. *)
Definition zslInsert (z : zskiplist) (sc : Sc) (o : Obj) (lv : nat) : option zskiplist :=
  '(_, _, ups) ← search (go_rank (before sc o)) z;
  let zlevel := level z in
  h ← levels (grow_step (header z) (length_ z)) (lv - zlevel) zlevel (mem z);
  let ups := ups ++ replicate (lv - zlevel) (header z, 0) in
  let zlevel := Nat.max zlevel lv in
  let x := zmalloc h in
  let h := <[x := zslCreateNode lv sc (Some o)]> h in
  '(u0, rank0) ← ups !! 0%nat;
  h ← levels (link_step ups x rank0) lv 0 h;
  h ← levels (widen_step ups) (zlevel - lv) lv h;
  h ← set_backward h x (if decide (u0 = header z) then None else Some u0);
  f ← get_forward h x 0;
  '(h, tl) ← (match f with
              | Some y => h ← set_backward h y (Some x); Some (h, tail z)
              | None => Some (h, Some x)
              end);
  Some (mk_zsl h (header z) tl (wrapu 32 (length_ z + 1)) zlevel).

(** ** Deletion *)

(** The loop of [zslDeleteNode]. *)
Definition unlink_step (ups : list (loc * Z)) (x : loc) (i : nat) (h : heap) : option heap :=
  '(u, _) ← ups !! i;
  f ← get_forward h u i;
  if decide (f = Some x) then
    h ← (if (0 <? i)%nat then s ← get_span h u i; sx ← get_span h x i; set_span h u i (s + (sx - 1)) else Some h);
    g ← get_forward h x i; set_forward h u i g
  else s ← get_span h u i; set_span h u i (s - 1).

(** [while (zsl->level > 1 && header->forward[level-1] == NULL)]. *)
Fixpoint lower (k : nat) (h : heap) (hd : loc) : option nat :=
  match k with
  | O => Some O
  | S O => Some 1%nat
  | S k' => f ← get_forward h hd k'; match f with None => lower k' h hd | Some _ => Some k end
  end.

Definition zslDeleteNode (z : zskiplist) (x : loc) (ups : list (loc * Z)) : option zskiplist :=
  h ← levels (unlink_step ups x) (level z) 0 (mem z);
  n ← h !! x;
  f ← forward n !! 0%nat;
  '(h, tl) ← (match f with
              | Some y => h ← set_backward h y (backward n); Some (h, tail z)
              | None => Some (h, backward n)
              end);
  lv ← lower (level z) h (header z);
  Some (mk_zsl h (header z) tl (wrapu 32 (length_ z - 1)) lv).

Definition zslFreeNode (z : zskiplist) (x : loc) : zskiplist := mk_zsl (delete x (mem z)) (header z) (tail z) (length_ z) (level z).

(** The list and the returned flag. *)
Definition zslDelete (z : zskiplist) (sc : Sc) (o : Obj) : option (zskiplist * Z) :=
  '(x, _, ups) ← search (go_plain (before sc o)) z;
  f ← get_forward (mem z) x 0;
  match f with
  | None => Some (z, 0)
  | Some y =>
    n ← mem z !! y;
    same ← (if seq_ sc (score n) then o' ← obj n; Some (equal o' o) else Some false);
    if (same : bool) then z ← zslDeleteNode z y ups; Some (zslFreeNode z y, 1) else Some (z, 0)
  end.

(** [while (x && ...)] of the two range deletions: the objects given to
    [dictDelete], whose number is the result. *)
Fixpoint delete_loop (fuel : nat) (test : Z -> zskiplistNode -> bool) (z : zskiplist) (p : ptr) (t : Z) (ups : list (loc * Z))
    : option (zskiplist * list Obj) :=
  match fuel with
  | O => None
  | S fuel' =>
    match p with
    | None => Some (z, [])
    | Some x =>
      n ← mem z !! x;
      if test t n then
        next ← forward n !! 0%nat;
        z ← zslDeleteNode z x ups;
        n ← mem z !! x; o ← obj n;
        '(z, os) ← delete_loop fuel' test (zslFreeNode z x) next (wrapu 32 (t + 1)) ups;
        Some (z, o :: os)
      else Some (z, [])
    end
  end.

Definition zslDeleteRangeByScore (z : zskiplist) (min max : Sc) : option (zskiplist * list Obj) :=
  '(x, _, ups) ← search (go_plain (fun n => Some (slt (score n) min))) z;
  f ← get_forward (mem z) x 0;
  delete_loop (steps (mem z)) (fun _ n => slt (score n) max || seq_ (score n) max) z f 0 ups.

Definition zslDeleteRangeByRank (z : zskiplist) (start end_ : Z) : option (zskiplist * list Obj) :=
  '(x, traversed, ups) ← search (go_below (fun r => r <? start)) z;
  f ← get_forward (mem z) x 0;
  delete_loop (steps (mem z)) (fun t _ => t <=? end_) z f (wrapu 32 (traversed + 1)) ups.

(** ** Queries *)

Definition zslFirstWithScore (z : zskiplist) (sc : Sc) : option ptr :=
  '(x, _, _) ← search (go_plain (fun n => Some (slt (score n) sc))) z;
  get_forward (mem z) x 0.

(** The loops that may return after each level. *)
Fixpoint seek {A} (go : mover) (found : loc -> zskiplistNode -> Z -> option (option A)) (h : heap) (i : nat) (x : loc) (r : Z) : option (option A) :=
  match i with
  | O => Some None
  | S i' =>
    '(x', r') ← walk (steps h) go h i' x r;
    n ← h !! x'; a ← found x' n r';
    match a with Some v => Some (Some v) | None => seek go found h i' x' r' end
  end.

Definition zslistTypeGetRank (z : zskiplist) (sc : Sc) (o : Obj) : option Z :=
  r ← seek (go_rank (upto sc o)) (fun _ n r => match obj n with
                                               | Some o' => Some (if equal o' o then Some r else None)
                                               | None => Some None
                                               end) (mem z) (level z) (header z) 0;
  Some (default 0 r).

Definition zslistTypeGetElementByRank (z : zskiplist) (rank : Z) : option ptr :=
  seek (go_below (fun r => r <=? rank)) (fun x _ r => Some (if r =? rank then Some x else None)) (mem z) (level z) (header z) 0.

(** [zslFree]: the objects released. *)
Fixpoint free_loop (fuel : nat) (h : heap) (p : ptr) : option (heap * list (option Obj)) :=
  match fuel with
  | O => None
  | S fuel' =>
    match p with
    | None => Some (h, [])
    | Some x => n ← h !! x; next ← forward n !! 0%nat; '(h, os) ← free_loop fuel' (delete x h) next; Some (h, obj n :: os)
    end
  end.
Definition zslFree (z : zskiplist) : option (heap * list (option Obj)) :=
  f ← get_forward (mem z) (header z) 0;
  free_loop (steps (mem z)) (delete (header z) (mem z)) f.

(** ** Positions

    A list is described by its cells in order, the header first: the address,
    the number of levels, the score and the object of each node. *)

Record cell := mk_cell { ad : loc; lv : nat; sc : Sc; ob : option Obj }.

(** The next position after [p] with a link of level [i]. *)
Definition is_next (L : list cell) (i p : nat) (oq : option nat) : Prop :=
  match oq with
  | Some q => (p < q)%nat /\ (exists c, L !! q = Some c /\ (i < lv c)%nat) /\
              forall r c, (p < r < q)%nat -> L !! r = Some c -> (lv c <= i)%nat
  | None => forall r c, (p < r)%nat -> L !! r = Some c -> (lv c <= i)%nat
  end.

(** The last position up to [m] with a link of level [i]. *)
Definition is_prev (L : list cell) (i m p : nat) : Prop :=
  (p <= m)%nat /\ (exists c, L !! p = Some c /\ (i < lv c)%nat) /\
  forall r c, (p < r <= m)%nat -> L !! r = Some c -> (lv c <= i)%nat.

Definition addr (L : list cell) (oq : option nat) : ptr := q ← oq; ad <$> L !! q.

(** The links of one level, and what their spans count. *)
Definition crosses (L : list cell) (i p : nat) (oq : option nat) (s : Z) : Prop :=
  match oq with
  | Some q => s = Z.of_nat q - Z.of_nat p
  | None => i = O \/ s = Z.of_nat (length L) - 1 - Z.of_nat p
  end.
Definition chained (g : loc -> option (ptr * Z)) (L : list cell) (i : nat) : Prop :=
  forall p c, L !! p = Some c -> (i < lv c)%nat ->
    exists oq s, is_next L i p oq /\ crosses L i p oq s /\ g (ad c) = Some (addr L oq, s).

(** The list with [x] after position [m], and where the others go. *)
Definition ins (L : list cell) (m : nat) (x : cell) : list cell := take (S m) L ++ x :: drop (S m) L.
Definition shift (m q : nat) : nat := if (q <=? m)%nat then q else S q.

Lemma shift_le m q : (q <= m)%nat -> shift m q = q.
Proof. intros. unfold shift. destruct (Nat.leb_spec q m); lia. Qed.
Lemma shift_gt m q : (m < q)%nat -> shift m q = S q.
Proof. intros. unfold shift. destruct (Nat.leb_spec q m); lia. Qed.

(** Every position is the new one or comes from an old one. *)
Lemma shift_split m r : r = S m \/ exists q, r = shift m q.
Proof.
  destruct (lt_eq_lt_dec r (S m)) as [[?|?]|?]; [right|by left|right].
  - exists r. rewrite shift_le; lia.
  - exists (r - 1)%nat. rewrite shift_gt; lia.
Qed.

Lemma shift_mono m p q : (shift m p < shift m q)%nat <-> (p < q)%nat.
Proof. unfold shift. destruct (Nat.leb_spec p m), (Nat.leb_spec q m); lia. Qed.

Lemma shift_new m p : (shift m p < S m)%nat <-> (p <= m)%nat.
Proof. unfold shift. destruct (Nat.leb_spec p m); lia. Qed.

Lemma shift_not_new m p : shift m p <> S m.
Proof. unfold shift. destruct (Nat.leb_spec p m); lia. Qed.

Lemma ins_length L m x : length (ins L m x) = S (length L).
Proof. unfold ins. rewrite length_app, length_take, length_cons, length_drop. lia. Qed.

Section insert.
Context (L : list cell) (m : nat) (x : cell) (Hm : (m < length L)%nat).

Lemma ins_new : ins L m x !! S m = Some x.
Proof. unfold ins. rewrite lookup_app_r by (rewrite length_take; lia). rewrite length_take, Nat.min_l by lia. by rewrite Nat.sub_diag. Qed.

Lemma ins_old q : ins L m x !! shift m q = L !! q.
Proof.
  unfold ins, shift. destruct (Nat.leb_spec q m).
  - rewrite lookup_app_l by (rewrite length_take; lia). apply lookup_take_lt. lia.
  - rewrite lookup_app_r by (rewrite length_take; lia). rewrite length_take, Nat.min_l by lia.
    replace (S q - S m)%nat with (S (q - S m)) by lia. simpl. rewrite lookup_drop. f_equal. lia.
Qed.

Lemma unshift_next i p oq : is_next (ins L m x) i (shift m p) (shift m <$> oq) -> is_next L i p oq.
Proof.
  destruct oq as [q|]; simpl.
  - intros (Hlt & (c & Hc & Hi) & Hb). rewrite ins_old in Hc. split_and!; [by apply (shift_mono m)|eauto|].
    intros r d Hr Hd. apply (Hb (shift m r)); [rewrite !shift_mono; lia|by rewrite ins_old].
  - intros Hb r d Hr Hd. apply (Hb (shift m r)); [by rewrite shift_mono|by rewrite ins_old].
Qed.

(** A link that does not cross the new position, or has no node there. *)
Lemma shift_next i p oq :
  ((lv x <= i)%nat \/ (m < p)%nat \/ exists q, oq = Some q /\ (q <= m)%nat) ->
  is_next L i p oq -> is_next (ins L m x) i (shift m p) (shift m <$> oq).
Proof.
  intros Hx. destruct oq as [q|]; simpl.
  - intros (Hlt & (c & Hc & Hi) & Hb). split_and!; [by apply shift_mono|exists c; by rewrite ins_old|].
    intros r d Hr Hd. destruct (shift_split m r) as [->|[r' ->]].
    + rewrite ins_new in Hd. injection Hd as <-. destruct Hr as [Hr1 Hr2]. rewrite shift_new in Hr1.
      destruct Hx as [?|[?|(q' & [= <-] & ?)]]; [done|lia|]. rewrite shift_le in Hr2; lia.
    + rewrite ins_old in Hd. apply (Hb r'); [rewrite !shift_mono in Hr; lia|done].
  - intros Hb r d Hr Hd. destruct (shift_split m r) as [->|[r' ->]].
    + rewrite ins_new in Hd. injection Hd as <-. rewrite shift_new in Hr. destruct Hx as [?|[?|(? & ? & ?)]]; [done|lia|done].
    + rewrite ins_old in Hd. apply (Hb r'); [by rewrite shift_mono in Hr|done].
Qed.

(** A link to the new node, and its own. *)
Lemma next_new i p : (i < lv x)%nat -> is_prev L i m p -> is_next (ins L m x) i p (Some (S m)).
Proof.
  intros Hx (Hp & _ & Hb). simpl. split_and!; [lia|exists x; by rewrite ins_new|].
  intros r c Hr Hc. apply (Hb r); [lia|]. by rewrite <- ins_old, shift_le by lia.
Qed.

Lemma new_next i p oq : is_prev L i m p -> is_next L i p oq -> is_next (ins L m x) i (S m) (shift m <$> oq).
Proof.
  intros (Hp & _ & Hb). destruct oq as [q|]; simpl.
  - intros (Hlt & (c & Hc & Hi) & Hn).
    assert (m < q)%nat. { destruct (decide (q <= m)%nat); [|lia]. pose proof (Hb q c ltac:(lia) Hc). lia. }
    rewrite shift_gt by done. split_and!; [lia|exists c; by rewrite <- (shift_gt m), ins_old|].
    intros r d Hr Hd. apply (Hn (r - 1)%nat); [lia|]. rewrite <- ins_old, shift_gt by lia. by replace (S (r - 1)) with r by lia.
  - intros Hn r d Hr Hd. apply (Hn (r - 1)%nat); [lia|]. rewrite <- ins_old, shift_gt by lia. by replace (S (r - 1)) with r by lia.
Qed.

(** Taking the new node out again. *)
Lemma skip_new i p oq :
  is_next (ins L m x) i (shift m p) (Some (S m)) -> is_next (ins L m x) i (S m) (shift m <$> oq) -> is_next L i p oq.
Proof.
  intros (Hp & _ & Hb) Hn. rewrite shift_new in Hp.
  assert (Hbelow : forall r d, (p < r <= m)%nat -> L !! r = Some d -> (lv d <= i)%nat).
  { intros r d Hr Hd. apply (Hb (shift m r)); [rewrite shift_mono, shift_new; lia|by rewrite ins_old]. }
  destruct oq as [q|]; simpl in *.
  - destruct Hn as (Hlt & (c & Hc & Hi) & Hn). rewrite ins_old in Hc.
    assert (m < q)%nat by (unfold shift in Hlt; destruct (Nat.leb_spec q m); lia).
    split_and!; [lia|eauto|]. intros r d Hr Hd. destruct (decide (r <= m)%nat); [apply (Hbelow r); [lia|done]|].
    apply (Hn (shift m r)); [|by rewrite ins_old]. rewrite shift_mono, shift_gt by lia. lia.
  - intros r d Hr Hd. destruct (decide (r <= m)%nat); [apply (Hbelow r); [lia|done]|].
    apply (Hn (shift m r)); [|by rewrite ins_old]. rewrite shift_gt; lia.
Qed.
End insert.

Lemma prev_last L i m p0 p c : is_prev L i m p0 -> L !! p = Some c -> (i < lv c)%nat -> (p <= m)%nat -> (p <= p0)%nat.
Proof. intros (_ & _ & Hb) Hc Hi Hp. destruct (decide (p <= p0)%nat); [done|]. pose proof (Hb p c ltac:(lia) Hc). lia. Qed.

(** From a position before the last one, the link does not pass it. *)
Lemma next_within L i m p0 p oq : is_prev L i m p0 -> is_next L i p oq -> (p < p0)%nat -> exists q, oq = Some q /\ (q <= m)%nat.
Proof.
  intros (Hp0 & (c & Hc & Hi) & _) Hn Hp. destruct oq as [q|]; simpl in Hn.
  - exists q. split; [done|]. destruct (decide (q <= p0)%nat); [lia|].
    destruct Hn as (_ & _ & Hn). pose proof (Hn p0 c ltac:(lia) Hc). lia.
  - pose proof (Hn p0 c Hp Hc). lia.
Qed.

(** The link of the last position passes [m]. *)
Lemma next_beyond L i m p0 oq : is_prev L i m p0 -> is_next L i p0 oq -> forall q, oq = Some q -> (m < q)%nat.
Proof.
  intros (_ & _ & Hb) Hn q ->. destruct Hn as (Hlt & (c & Hc & Hi) & _).
  destruct (decide (m < q)%nat); [done|]. pose proof (Hb q c ltac:(lia) Hc). lia.
Qed.

Lemma next_det L i p o1 o2 : is_next L i p o1 -> is_next L i p o2 -> o1 = o2.
Proof.
  assert (Hlt : forall q o, is_next L i p (Some q) -> is_next L i p o -> exists q', o = Some q' /\ (q' <= q)%nat).
  { intros q o (Hp & (c & Hc & Hi) & _) Hn. destruct o as [q'|]; simpl in Hn.
    - exists q'. split; [done|]. destruct (decide (q' <= q)%nat); [done|]. destruct Hn as (_ & _ & Hn).
      pose proof (Hn q c ltac:(lia) Hc). lia.
    - pose proof (Hn q c Hp Hc). lia. }
  intros H1 H2. destruct o1 as [q1|], o2 as [q2|]; [|by destruct (Hlt _ _ H1 H2) as (? & ? & ?)|by destruct (Hlt _ _ H2 H1) as (? & ? & ?)|done].
  destruct (Hlt _ _ H1 H2) as (? & [= <-] & ?), (Hlt _ _ H2 H1) as (? & [= <-] & ?). f_equal. lia.
Qed.

Lemma next_lt L i p q : is_next L i p (Some q) -> (p < q)%nat.
Proof. by intros [? _]. Qed.

Lemma addr_ins L m x oq : (m < length L)%nat -> addr (ins L m x) (shift m <$> oq) = addr L oq.
Proof. intros Hm. destruct oq as [q|]; simpl; [|done]. unfold addr. simpl. by rewrite ins_old. Qed.

Lemma crosses_same L m x i p oq s : is_next L i p oq -> ((m < p)%nat \/ exists q, oq = Some q /\ (q <= m)%nat) ->
  crosses L i p oq s <-> crosses (ins L m x) i (shift m p) (shift m <$> oq) s.
Proof.
  intros Hn Hx. destruct oq as [q|]; simpl in *.
  - destruct Hn as [Hlt _]. destruct Hx as [?|(? & [= <-] & ?)]; [rewrite !shift_gt by lia|rewrite !shift_le by lia]; lia.
  - destruct Hx as [?|(? & ? & ?)]; [|done]. rewrite ins_length, shift_gt by lia. lia.
Qed.

Lemma crosses_wider L m x i p oq s : (p <= m)%nat -> (forall q, oq = Some q -> (m < q)%nat) ->
  crosses L i p oq s <-> crosses (ins L m x) i (shift m p) (shift m <$> oq) (s + 1).
Proof.
  intros Hp Hq. rewrite shift_le by done. destruct oq as [q|]; simpl.
  - rewrite shift_gt by auto. lia.
  - rewrite ins_length. lia.
Qed.

Lemma crosses_new L m x i p oq s : (p <= m)%nat -> (forall q, oq = Some q -> (m < q)%nat) ->
  crosses L i p oq s <-> crosses (ins L m x) i (S m) (shift m <$> oq) (s - (Z.of_nat m - Z.of_nat p)).
Proof.
  intros Hp Hq. destruct oq as [q|]; simpl.
  - rewrite shift_gt by auto. lia.
  - rewrite ins_length. lia.
Qed.

(** ** The links of a level when a node comes or goes *)

Definition apart (L : list cell) : Prop := forall p q c d, L !! p = Some c -> L !! q = Some d -> ad c = ad d -> p = q.

Definition linked (g : loc -> option (ptr * Z)) (x u : loc) (f : ptr) (s d : Z) (a : loc) : option (ptr * Z) :=
  if decide (a = x) then Some (f, s - d) else if decide (a = u) then Some (Some x, d + 1) else g a.
Definition respanned (g : loc -> option (ptr * Z)) (u : loc) (f : ptr) (s : Z) (a : loc) : option (ptr * Z) :=
  if decide (a = u) then Some (f, s) else g a.

Section level.
Context (L : list cell) (m : nat) (x : cell) (Hm : (m < length L)%nat) (HL : apart L).
Context (Hx : forall c, c ∈ L -> ad c <> ad x).
Context (g : loc -> option (ptr * Z)) (i p0 : nat) (u : cell) (f0 : ptr) (s0 : Z).
Context (Hprev : is_prev L i m p0) (Hu : L !! p0 = Some u).

Lemma not_new p c : L !! p = Some c -> ad c <> ad x.
Proof. intros Hc. apply Hx. by eapply list_elem_of_lookup_2. Qed.

Lemma last_level : (i < lv u)%nat.
Proof. destruct Hprev as (_ & (c & Hc & Hi) & _). congruence. Qed.

(** Positions other than the last one keep their link. *)
Lemma keep_next p c oq : L !! p = Some c -> (i < lv c)%nat -> p <> p0 -> is_next L i p oq ->
  (m < p)%nat \/ exists q, oq = Some q /\ (q <= m)%nat.
Proof.
  intros Hc Hi Hp Hn. destruct (decide (m < p)%nat); [by left|right].
  assert (p <= p0)%nat by (eapply prev_last; [done..|lia]). eapply next_within; [done..|lia].
Qed.

Lemma chained_link : (i < lv x)%nat -> chained g L i -> g (ad u) = Some (f0, s0) ->
  chained (linked g (ad x) (ad u) f0 s0 (Z.of_nat m - Z.of_nat p0)) (ins L m x) i.
Proof.
  intros Hi Hg Hgu p' c Hc Hic. unfold linked. pose proof Hprev as (Hp0 & _ & _).
  destruct (Hg p0 u Hu last_level) as (oq0 & s & Hn0 & Hs0 & E0). rewrite Hgu in E0. injection E0 as -> ->.
  pose proof (next_beyond _ _ _ _ _ Hprev Hn0) as Hbeyond.
  destruct (shift_split m p') as [->|[p ->]].
  - rewrite ins_new in Hc by done. injection Hc as <-. rewrite decide_True by done.
    exists (shift m <$> oq0), (s - (Z.of_nat m - Z.of_nat p0)).
    split_and!; [by eapply new_next|by apply crosses_new|by rewrite addr_ins].
  - rewrite ins_old in Hc by done. rewrite decide_False by (by eapply not_new). case_decide as Ha.
    + assert (p = p0) as -> by (by eapply HL). rewrite shift_le by done.
      exists (Some (S m)), (Z.of_nat m - Z.of_nat p0 + 1).
      split_and!; [by apply next_new|simpl; lia|]. unfold addr. simpl. by rewrite ins_new.
    + destruct (Hg p c Hc Hic) as (oq & t & Hn & Hs & E).
      assert (Hk : (m < p)%nat \/ exists q, oq = Some q /\ (q <= m)%nat) by (eapply keep_next; [done..|congruence|done]).
      exists (shift m <$> oq), t. split_and!; [apply shift_next; auto|by apply crosses_same|by rewrite addr_ins].
Qed.

Lemma chained_widen : (lv x <= i)%nat -> chained g L i -> g (ad u) = Some (f0, s0) ->
  chained (respanned g (ad u) f0 (s0 + 1)) (ins L m x) i.
Proof.
  intros Hi Hg Hgu p' c Hc Hic. unfold respanned. pose proof Hprev as (Hp0 & _ & _).
  destruct (shift_split m p') as [->|[p ->]].
  - rewrite ins_new in Hc by done. injection Hc as <-. lia.
  - rewrite ins_old in Hc by done. destruct (Hg p c Hc Hic) as (oq & t & Hn & Hs & E).
    exists (shift m <$> oq). case_decide as Ha.
    + assert (p = p0) as -> by (by eapply HL). assert (c = u) as -> by congruence. rewrite Hgu in E. injection E as -> ->.
      pose proof (next_beyond _ _ _ _ _ Hprev Hn). exists (t + 1).
      split_and!; [apply shift_next; auto|by apply crosses_wider|by rewrite addr_ins].
    + assert (Hk : (m < p)%nat \/ exists q, oq = Some q /\ (q <= m)%nat) by (eapply keep_next; [done..|congruence|done]).
      exists t. split_and!; [apply shift_next; auto|by apply crosses_same|by rewrite addr_ins].
Qed.

(** Deletion is stated on the list without the node. *)
Lemma old_next p oq : is_next (ins L m x) i (shift m p) oq -> oq = Some (S m) \/ exists oq', oq = shift m <$> oq' /\ is_next L i p oq'.
Proof.
  intros Hn. destruct oq as [q|].
  - destruct (shift_split m q) as [->|[q' ->]]; [by left|right]. exists (Some q'). split; [done|]. by eapply unshift_next.
  - right. exists None. split; [done|]. by eapply unshift_next.
Qed.

Lemma new_link oq : is_next (ins L m x) i (S m) oq -> exists oq', oq = shift m <$> oq' /\ forall q, oq' = Some q -> (m < q)%nat.
Proof.
  intros Hn. destruct oq as [q|].
  - pose proof (next_lt _ _ _ _ Hn). exists (Some (q - 1)%nat). simpl. rewrite shift_gt by lia.
    split; [f_equal; lia|]. intros ? [= <-]. lia.
  - by exists None.
Qed.

Lemma not_to_new p c : L !! p = Some c -> (i < lv c)%nat -> p <> p0 -> ~ is_next (ins L m x) i (shift m p) (Some (S m)).
Proof.
  intros Hc Hi Hp (Hlt & _ & Hb). rewrite shift_new in Hlt.
  assert (p <= p0)%nat by (by eapply prev_last). pose proof Hprev as (Hp0 & _ & _). pose proof last_level.
  enough (lv u <= i)%nat by lia. apply (Hb (shift m p0)); [rewrite shift_mono, shift_new; lia|by rewrite ins_old].
Qed.

Lemma link_to_new : (i < lv x)%nat -> chained g (ins L m x) i -> g (ad u) = Some (f0, s0) ->
  f0 = Some (ad x) /\ s0 = Z.of_nat m - Z.of_nat p0 + 1.
Proof.
  intros Hi Hg Hgu. pose proof Hprev as (Hp0 & _ & _).
  destruct (Hg (shift m p0) u) as (oq & s & Hn & Hs & E); [by rewrite ins_old|apply last_level|].
  rewrite shift_le in Hn, Hs by done.
  assert (oq = Some (S m)) as -> by (eapply next_det; [done|by apply next_new]).
  rewrite Hgu in E. injection E as -> ->. simpl in Hs. unfold addr. simpl. rewrite ins_new by done. split; [done|lia].
Qed.

Lemma link_elsewhere : (lv x <= i)%nat -> chained g (ins L m x) i -> g (ad u) = Some (f0, s0) -> f0 <> Some (ad x).
Proof.
  intros Hi Hg Hgu ->. destruct (Hg (shift m p0) u) as (oq & s & Hn & Hs & E); [by rewrite ins_old|apply last_level|].
  rewrite Hgu in E. destruct oq as [q|]; [|done]. injection E as E _. destruct Hn as (_ & (c & Hc & Hic) & _).
  unfold addr in E. simpl in E. rewrite Hc in E. simpl in E. injection E as E.
  destruct (shift_split m q) as [->|[q' ->]].
  - rewrite ins_new in Hc by done. injection Hc as <-. lia.
  - rewrite ins_old in Hc by done. by eapply not_new.
Qed.

Lemma chained_unlink fx sx : (i < lv x)%nat -> chained g (ins L m x) i ->
  g (ad u) = Some (f0, s0) -> g (ad x) = Some (fx, sx) -> chained (respanned g (ad u) fx (s0 + (sx - 1))) L i.
Proof.
  intros Hi Hg Hgu Hgx p c Hc Hic. unfold respanned. pose proof Hprev as (Hp0 & _ & _).
  destruct (Hg (shift m p) c) as (oq & t & Hn & Hs & E); [by rewrite ins_old|done|].
  destruct (link_to_new Hi Hg Hgu) as [-> ->]. case_decide as Ha.
  - assert (p = p0) as -> by (by eapply HL).
    destruct (Hg (S m) x) as (oqx & tx & Hnx & Hsx & Ex); [by apply ins_new|done|].
    rewrite Hgx in Ex. injection Ex as -> ->. destruct (new_link _ Hnx) as (o & -> & Ho).
    exists o, (Z.of_nat m - Z.of_nat p0 + 1 + (tx - 1)). split_and!.
    + eapply skip_new; [done| |done]. rewrite shift_le by done. by apply next_new.
    + apply (crosses_new _ m x); [done..|].
      by replace (Z.of_nat m - Z.of_nat p0 + 1 + (tx - 1) - (Z.of_nat m - Z.of_nat p0)) with tx by lia.
    + by rewrite addr_ins.
  - assert (Hp : p <> p0) by congruence. destruct (old_next _ _ Hn) as [->|(o & -> & Ho)]; [by edestruct not_to_new|].
    exists o, t. split_and!; [done|eapply (crosses_same _ m x); [done|by eapply keep_next|done]|by rewrite <- (addr_ins _ m x)].
Qed.

Lemma chained_narrow : (lv x <= i)%nat -> chained g (ins L m x) i -> g (ad u) = Some (f0, s0) ->
  chained (respanned g (ad u) f0 (s0 - 1)) L i.
Proof.
  intros Hi Hg Hgu p c Hc Hic. unfold respanned. pose proof Hprev as (Hp0 & _ & _).
  destruct (Hg (shift m p) c) as (oq & t & Hn & Hs & E); [by rewrite ins_old|done|].
  destruct (old_next _ _ Hn) as [->|(o & -> & Ho)].
  { destruct Hn as (_ & (d & Hd & ?) & _). rewrite ins_new in Hd by done. injection Hd as <-. lia. }
  exists o. case_decide as Ha.
  - assert (p = p0) as -> by (by eapply HL). assert (c = u) as -> by congruence. rewrite Hgu in E. injection E as -> ->.
    exists (t - 1). split_and!; [done| |by rewrite addr_ins].
    apply (crosses_wider _ m x); [done|by eapply next_beyond|]. by replace (t - 1 + 1) with t by lia.
  - assert (Hp : p <> p0) by congruence.
    exists t. split_and!; [done|eapply (crosses_same _ m x); [done|by eapply keep_next|done]|by rewrite <- (addr_ins _ m x)].
Qed.
End level.

(** ** Views of the heap

    What a level holds at a node, and what the loops over levels leave alone. *)

Definition lvl (h : heap) (j : nat) (a : loc) : option (ptr * Z) := n ← h !! a; f ← forward n !! j; s ← crossed n j; Some (f, s).
Definition stat (h : heap) (a : loc) : option (nat * nat * Sc * option Obj) :=
  (fun n => (length (forward n), length (span n), score n, obj n)) <$> h !! a.
Definition bck (h : heap) (a : loc) : option ptr := backward <$> h !! a.
Definition same (h h' : heap) : Prop := forall a, stat h' a = stat h a /\ bck h' a = bck h a.

Lemma same_refl h : same h h.
Proof. done. Qed.
Lemma same_trans h1 h2 h3 : same h1 h2 -> same h2 h3 -> same h1 h3.
Proof. intros H1 H2 a. destruct (H1 a), (H2 a). split; congruence. Qed.

Lemma lvl_Some h j a f s : lvl h j a = Some (f, s) <-> exists n, h !! a = Some n /\ forward n !! j = Some f /\ crossed n j = Some s.
Proof.
  unfold lvl. split.
  - destruct (h !! a) as [n|]; simpl; [|done]. destruct (forward n !! j) as [f'|] eqn:Hf; simpl; [|done].
    destruct (crossed n j) as [s'|] eqn:Hs; simpl; [|done]. intros [= <- <-]. eauto.
  - intros (n & -> & Hf & Hs). simpl. rewrite Hf. simpl. by rewrite Hs.
Qed.

Lemma get_forward_ok h j a f s : lvl h j a = Some (f, s) -> get_forward h a j = Some f.
Proof. intros (n & Hn & Hf & _)%lvl_Some. unfold get_forward. by rewrite Hn. Qed.
Lemma get_span_ok h j a f s : lvl h j a = Some (f, s) -> (0 < j)%nat -> get_span h a j = Some s.
Proof.
  intros (n & Hn & _ & Hs)%lvl_Some Hj. unfold get_span. rewrite Hn. simpl. destruct j as [|j]; [lia|].
  simpl in *. by rewrite Nat.sub_0_r.
Qed.

(** Changing the level [i] of the node [a]. *)
Definition changed (h h' : heap) (i : nat) (a : loc) (v : ptr * Z) : Prop :=
  same h h' /\ forall j b, lvl h' j b = if decide (j = i /\ b = a) then Some v else lvl h j b.

Lemma same_insert h a n n' : h !! a = Some n -> length (forward n') = length (forward n) -> length (span n') = length (span n) ->
  score n' = score n -> obj n' = obj n -> backward n' = backward n -> same h (<[a := n']> h).
Proof.
  intros Hn Hf Hs H1 H2 H3 b. unfold stat, bck. destruct (decide (a = b)) as [<-|Hb].
  - rewrite lookup_insert_eq, Hn. simpl. split; congruence.
  - by rewrite lookup_insert_ne.
Qed.

Lemma put_ok {A} (l : list A) i x y : l !! i = Some y -> put l i x = Some (<[i := x]> l).
Proof. intros Hi%lookup_lt_Some. unfold put. destruct (Nat.ltb_spec i (length l)); [done|lia]. Qed.

Lemma set_forward_ok h i a p f s : lvl h i a = Some (f, s) -> exists h', set_forward h a i p = Some h' /\ changed h h' i a (p, s).
Proof.
  intros (n & Hn & Hf & Hs)%lvl_Some. unfold set_forward. rewrite Hn. simpl. erewrite put_ok by done. simpl.
  eexists. split; [done|]. split; [eapply same_insert; simpl; [done|by rewrite length_insert|done..]|].
  intros j b. unfold lvl. destruct (decide (a = b)) as [<-|Hb].
  - rewrite lookup_insert_eq, Hn. simpl. destruct (decide (j = i)) as [->|Hj].
    + rewrite list_lookup_insert_eq by (by eapply lookup_lt_Some). rewrite decide_True by done. simpl.
      destruct i; simpl in *; by simplify_eq/=; rewrite ?Hs.
    + rewrite list_lookup_insert_ne by done. rewrite decide_False by naive_solver. by destruct j.
  - rewrite lookup_insert_ne by done. by rewrite decide_False by naive_solver.
Qed.

Lemma set_span_ok h i a v f s : lvl h i a = Some (f, s) -> (0 < i)%nat ->
  exists h', set_span h a i v = Some h' /\ changed h h' i a (f, wrapu 32 v).
Proof.
  intros (n & Hn & Hf & Hs)%lvl_Some Hi. destruct i as [|i]; [lia|]. simpl in Hs.
  unfold set_span. rewrite Hn. simpl. rewrite Nat.sub_0_r. erewrite put_ok by done. simpl.
  eexists. split; [done|]. split; [eapply same_insert; simpl; [done|done|by rewrite length_insert|done..]|].
  intros j b. unfold lvl. destruct (decide (a = b)) as [<-|Hb].
  - rewrite lookup_insert_eq, Hn. simpl. destruct (decide (j = S i)) as [->|Hj].
    + rewrite Hf. simpl. rewrite list_lookup_insert_eq by (by eapply lookup_lt_Some). by rewrite decide_True by done.
    + rewrite decide_False by naive_solver. destruct j as [|j]; simpl; [done|]. by rewrite list_lookup_insert_ne by congruence.
  - rewrite lookup_insert_ne by done. by rewrite decide_False by naive_solver.
Qed.

(** ** Loops over levels *)

(** Each step makes its own level [G i] and leaves the others alone. *)
Definition makes (step : nat -> heap -> option heap) (h : heap) (G : nat -> loc -> option (ptr * Z)) (i : nat) : Prop :=
  forall h1, same h h1 -> (forall a, lvl h1 i a = lvl h i a) ->
  exists h2, step i h1 = Some h2 /\ same h1 h2 /\ forall j a, lvl h2 j a = if decide (j = i) then G i a else lvl h1 j a.

Lemma levels_ok step h G k i h1 :
  (forall j, (i <= j < i + k)%nat -> makes step h G j) -> same h h1 ->
  (forall j a, (i <= j < i + k)%nat -> lvl h1 j a = lvl h j a) ->
  exists h', levels step k i h1 = Some h' /\ same h1 h' /\
    forall j a, lvl h' j a = if decide (i <= j < i + k)%nat then G j a else lvl h1 j a.
Proof.
  revert i h1. induction k as [|k IH]; intros i h1 Hm Hs Hl; simpl.
  { exists h1. split_and!; [done|apply same_refl|]. intros j a. rewrite decide_False by lia. done. }
  destruct (Hm i ltac:(lia) h1 Hs) as (h2 & -> & Hs2 & H2); [intros; apply Hl; lia|]. simpl.
  destruct (IH (S i) h2) as (h' & -> & Hs' & H').
  - intros j Hj. apply Hm. lia.
  - by eapply same_trans.
  - intros j a Hj. rewrite H2, decide_False by lia. apply Hl. lia.
  - exists h'. split_and!; [done|by eapply same_trans|]. intros j a. rewrite H', H2.
    destruct (decide (j = i)) as [->|?]; [rewrite decide_False, decide_True by lia; done|].
    destruct (decide (S i <= j < S i + k)%nat); [by rewrite decide_True by lia|by rewrite decide_False by lia].
Qed.

(** The loops in terms of levels. *)
Lemma changed_level h h1 h2 i u f s : (forall a, lvl h1 i a = lvl h i a) -> changed h1 h2 i u (f, s) ->
  forall j a, lvl h2 j a = if decide (j = i) then respanned (lvl h i) u f s a else lvl h1 j a.
Proof.
  intros Hl [_ Hc] j a. rewrite Hc. unfold respanned. destruct (decide (j = i)) as [->|?].
  - destruct (decide (a = u)); [by rewrite decide_True|]. rewrite decide_False by naive_solver. apply Hl.
  - by rewrite decide_False by naive_solver.
Qed.

Lemma grow_makes h hd len i f s : (0 < i)%nat -> lvl h i hd = Some (f, s) -> in_u 32 len ->
  makes (grow_step hd len) h (fun i => respanned (lvl h i) hd f len) i.
Proof.
  intros Hi Hh Hr h1 _ Hl. unfold grow_step. destruct (set_span_ok h1 i hd len f s) as (h2 & -> & Hc); [by rewrite Hl|done|].
  rewrite wrapu_id in Hc by done. exists h2. split_and!; [done|by apply Hc|by apply changed_level].
Qed.

Lemma widen_makes h ups i u r f s : (0 < i)%nat -> ups !! i = Some (u, r) -> lvl h i u = Some (f, s) ->
  in_u 32 (s + 1) -> makes (widen_step ups) h (fun i => respanned (lvl h i) u f (s + 1)) i.
Proof.
  intros Hi Hu Hh Hr h1 _ Hl. unfold widen_step. rewrite Hu. simpl. erewrite get_span_ok by (rewrite ?Hl; done). simpl.
  destruct (set_span_ok h1 i u (s + 1) f s) as (h2 & -> & Hc); [by rewrite Hl|done|].
  rewrite wrapu_id in Hc by done. exists h2. split_and!; [done|by apply Hc|by apply changed_level].
Qed.

Lemma unlink_makes h ups x i u r f s fx sx : ups !! i = Some (u, r) -> u <> x -> lvl h i u = Some (f, s) ->
  f = Some x -> lvl h i x = Some (fx, sx) -> in_u 32 (s + (sx - 1)) ->
  makes (unlink_step ups x) h (fun i => respanned (lvl h i) u fx (s + (sx - 1))) i.
Proof.
  intros Hu Hne Hh -> Hx Hr h1 _ Hl. unfold unlink_step. rewrite Hu. simpl.
  erewrite get_forward_ok by (rewrite Hl; done). simpl. rewrite decide_True by done. rewrite <- Hl in Hh, Hx.
  destruct (Nat.ltb_spec 0 i) as [Hi|Hi].
  - do 2 (erewrite get_span_ok by done; simpl).
    destruct (set_span_ok h1 i u (s + (sx - 1)) (Some x) s Hh Hi) as (h2 & -> & Hs2 & Hc2). rewrite wrapu_id in Hc2 by done. simpl.
    erewrite get_forward_ok by (rewrite Hc2, decide_False by naive_solver; done). simpl.
    destruct (set_forward_ok h2 i u fx (Some x) (s + (sx - 1))) as (h3 & -> & Hs3 & Hc3); [by rewrite Hc2, decide_True|].
    exists h3. split_and!; [done|by eapply same_trans|]. eapply changed_level; [done|]. split; [by eapply same_trans|].
    intros j b. rewrite Hc3. case_decide; [done|]. by rewrite Hc2, decide_False.
  - simpl. erewrite get_forward_ok by done. simpl.
    destruct (set_forward_ok h1 i u fx (Some x) s Hh) as (h2 & -> & Hc). exists h2. split_and!; [done|by apply Hc|].
    assert (i = O) as -> by lia.
    apply lvl_Some in Hh as (? & _ & _ & [= <-]), Hx as (? & _ & _ & [= <-]). by apply changed_level.
Qed.

Lemma narrow_makes h ups x i u r f s : (0 < i)%nat -> ups !! i = Some (u, r) -> lvl h i u = Some (f, s) ->
  f <> Some x -> in_u 32 (s - 1) -> makes (unlink_step ups x) h (fun i => respanned (lvl h i) u f (s - 1)) i.
Proof.
  intros Hi Hu Hh Hf Hr h1 _ Hl. unfold unlink_step. rewrite Hu. simpl.
  erewrite get_forward_ok by (rewrite Hl; done). simpl. rewrite decide_False by done.
  erewrite get_span_ok by (rewrite ?Hl; done). simpl.
  destruct (set_span_ok h1 i u (s - 1) f s) as (h2 & -> & Hc); [by rewrite Hl|done|].
  rewrite wrapu_id in Hc by done. exists h2. split_and!; [done|by apply Hc|by apply changed_level].
Qed.

Lemma link_makes h ups x rank0 i u r f s fx sx : ups !! i = Some (u, r) -> u <> x -> lvl h i u = Some (f, s) ->
  lvl h i x = Some (fx, sx) -> in_u 32 (s - (rank0 - r)) -> in_u 32 (rank0 - r + 1) -> (i = O -> rank0 = r) ->
  makes (link_step ups x rank0) h (fun i => linked (lvl h i) x u f s (rank0 - r)) i.
Proof.
  intros Hu Hne Hh Hx Hr1 Hr2 Hr0 h1 _ Hl. unfold link_step. rewrite Hu. simpl. rewrite <- Hl in Hh, Hx.
  erewrite get_forward_ok by done. simpl.
  destruct (set_forward_ok h1 i x f fx sx Hx) as (h2 & -> & Hs2 & Hc2). simpl.
  destruct (set_forward_ok h2 i u (Some x) f s) as (h3 & -> & Hs3 & Hc3); [by rewrite Hc2, decide_False by naive_solver|]. simpl.
  assert (Hu3 : lvl h3 i u = Some (Some x, s)) by (by rewrite Hc3, decide_True).
  assert (Hx3 : lvl h3 i x = Some (f, sx)) by (rewrite Hc3, decide_False by naive_solver; by rewrite Hc2, decide_True).
  destruct (Nat.ltb_spec 0 i) as [Hi|Hi].
  - erewrite get_span_ok by done. simpl.
    destruct (set_span_ok h3 i x (s - (rank0 - r)) f sx Hx3 Hi) as (h4 & -> & Hs4 & Hc4). rewrite wrapu_id in Hc4 by done. simpl.
    destruct (set_span_ok h4 i u (rank0 - r + 1) (Some x) s) as (h5 & -> & Hs5 & Hc5); [by rewrite Hc4, decide_False by naive_solver|done|].
    rewrite wrapu_id in Hc5 by done. exists h5. split_and!; [done|by repeat (eapply same_trans; [done|])|].
    intros j a. rewrite Hc5, Hc4, Hc3, Hc2. unfold linked. rewrite <- Hl. repeat case_decide; naive_solver.
  - exists h3. split_and!; [done|by eapply same_trans|]. assert (i = O) as -> by lia. rewrite Hr0 by done.
    apply lvl_Some in Hh as (? & _ & _ & [= <-]), Hx as (? & _ & _ & [= <-]).
    intros j a. rewrite Hc3, Hc2. unfold linked. rewrite <- Hl, Z.sub_diag. repeat case_decide; naive_solver.
Qed.

(** ** The representation *)

(** The backward pointer of the position after [p]. *)
Definition back_of (L : list cell) (p : nat) : ptr := match p with O => None | S _ => ad <$> L !! p end.

Record rep (z : zskiplist) (L : list cell) : Prop := {
  rep_header : exists c, L !! O = Some c /\ ad c = header z /\ lv c = ZSKIPLIST_MAXLEVEL /\ ob c = None;
  rep_levels : (1 <= level z <= ZSKIPLIST_MAXLEVEL)%nat;
  rep_cells p c : L !! S p = Some c -> (1 <= lv c <= level z)%nat /\ is_Some (ob c);
  rep_top : level z = 1%nat \/ exists p c, L !! S p = Some c /\ lv c = level z;
  rep_apart : apart L;
  rep_shape p c : L !! p = Some c -> stat (mem z) (ad c) = Some (lv c, (lv c - 1)%nat, sc c, ob c);
  rep_dom a : is_Some (mem z !! a) -> exists p c, L !! p = Some c /\ ad c = a;
  rep_chain i : (i < level z)%nat -> chained (lvl (mem z) i) L i;
  rep_above i : (level z <= i < ZSKIPLIST_MAXLEVEL)%nat -> exists s, lvl (mem z) i (header z) = Some (None, s);
  rep_back p c : L !! S p = Some c -> bck (mem z) (ad c) = Some (back_of L p);
  rep_tail : tail z = back_of L (length L - 1);
  rep_length : length_ z = Z.of_nat (length L) - 1;
  rep_bound : Z.of_nat (length L) < 2 ^ 32
}.

Lemma stat_Some h a l k s o : stat h a = Some (l, k, s, o) <->
  exists n, h !! a = Some n /\ length (forward n) = l /\ length (span n) = k /\ score n = s /\ obj n = o.
Proof.
  unfold stat. split.
  - intros (n & Hn & [= -> -> -> ->])%fmap_Some. eauto 10.
  - by intros (n & -> & <- & <- & <- & <-).
Qed.

Lemma rep_node z L p c : rep z L -> L !! p = Some c -> exists n, mem z !! ad c = Some n /\ score n = sc c /\ obj n = ob c.
Proof. intros Hr Hc. apply (rep_shape _ _ Hr) in Hc. apply stat_Some in Hc. naive_solver. Qed.

Lemma steps_enough h L : apart L -> (forall p c, L !! p = Some c -> is_Some (h !! ad c)) -> (length L < steps h)%nat.
Proof.
  intros HL Hs. unfold steps.
  assert (Hnd : NoDup (ad <$> L)).
  { apply NoDup_alt. intros i j a (c & -> & Hc)%list_lookup_fmap_Some (d & E & Hd)%list_lookup_fmap_Some. by eapply HL. }
  enough (length (ad <$> L) <= size h)%nat by (rewrite length_fmap in *; lia).
  rewrite <- size_dom, <- (size_list_to_set (C := gset loc)) by done. apply subseteq_size.
  intros a (c & -> & (p & Hc)%list_elem_of_lookup)%elem_of_list_to_set%list_elem_of_fmap. apply elem_of_dom. eauto.
Qed.

Lemma rep_steps z L : rep z L -> (length L < steps (mem z))%nat.
Proof.
  intros Hr. apply steps_enough; [apply Hr|]. intros p c Hc. destruct (rep_node _ _ _ _ Hr Hc) as (n & -> & _). done.
Qed.

(** At level 0 the next position is the next node. *)
Lemma next_zero L p oq : (forall p c, L !! p = Some c -> (1 <= lv c)%nat) -> is_next L 0 p oq -> forall q, oq = Some q -> q = S p.
Proof.
  intros Hl Hn q ->. destruct Hn as (Hlt & (c & Hc & _) & Hb). destruct (decide (q = S p)); [done|].
  destruct (L !! S p) as [d|] eqn:Hd.
  - pose proof (Hb (S p) d ltac:(lia) Hd). pose proof (Hl _ _ Hd). lia.
  - apply lookup_ge_None in Hd. apply lookup_lt_Some in Hc. lia.
Qed.

Lemma prev_zero L m p c : (forall p c, L !! p = Some c -> (1 <= lv c)%nat) -> L !! m = Some c -> is_prev L 0 m p -> p = m.
Proof.
  intros Hl Hc (Hp & _ & Hb). destruct (decide (p = m)); [done|].
  pose proof (Hb m c ltac:(lia) Hc). pose proof (Hl _ _ Hc). lia.
Qed.

Lemma rep_positive z L p c : rep z L -> L !! p = Some c -> (1 <= lv c)%nat.
Proof.
  intros Hr Hc. destruct p as [|p].
  - destruct (rep_header _ _ Hr) as (d & Hd & _ & Hl & _). assert (c = d) as -> by congruence. rewrite Hl. unfold ZSKIPLIST_MAXLEVEL. lia.
  - by apply (rep_cells _ _ Hr) in Hc as [[? ?] _].
Qed.

(** ** Walks *)

(** The test of a walk holds up to the position [m]; [R] is the rank it keeps. *)
Definition follows (go : mover) (h : heap) (L : list cell) (m : nat) (R : nat -> Z) : Prop :=
  forall i p q c d n n', L !! p = Some c -> L !! q = Some d -> (p < q)%nat -> h !! ad c = Some n -> h !! ad d = Some n' ->
    crossed n i = Some (Z.of_nat q - Z.of_nat p) -> go i (R p) n n' = Some (if (q <=? m)%nat then Some (R q) else None).

Section walk.
Context (z : zskiplist) (L : list cell) (Hr : rep z L) (go : mover) (m : nat) (R : nat -> Z).
Context (Hm : (m < length L)%nat) (Hgo : follows go (mem z) L m R).

Lemma walk_ok i p c fuel : (i < level z)%nat -> L !! p = Some c -> (i < lv c)%nat -> (p <= m)%nat -> (m - p < fuel)%nat ->
  exists p' c', walk fuel go (mem z) i (ad c) (R p) = Some (ad c', R p') /\ L !! p' = Some c' /\ is_prev L i m p'.
Proof.
  intros Hi. revert p c. induction fuel as [|fuel IH]; intros p c Hc Hic Hp Hf; [lia|]. cbn [walk].
  destruct (rep_chain _ _ Hr i Hi p c Hc Hic) as (oq & s & Hn & Hs & (n & Hnd & Hfw & Hcr)%lvl_Some).
  rewrite Hnd. cbn [mbind option_bind]. rewrite Hfw. cbn [mbind option_bind].
  destruct oq as [q|]; simpl in Hs; [|exists p, c; split_and!; [done|done|split_and!; [done|eauto|]]; intros; eapply Hn; [|done]; lia].
  pose proof Hn as (Hlt & (d & Hd & Hid) & Hb). unfold addr. simpl. rewrite Hd. simpl.
  destruct (rep_node _ _ _ _ Hr Hd) as (n' & Hn' & _). rewrite Hn'. simpl.
  rewrite (Hgo i p q c d n n') by congruence. simpl. destruct (Nat.leb_spec q m).
  - apply IH; [done..|lia].
  - exists p, c. split_and!; [done|done|split_and!; [done|eauto|]]. intros r e Hre He. eapply Hb; [|done]. lia.
Qed.

(** The arrays [update] and [rank] after the search. *)
Definition found_at (j : nat) (a : loc) (r : Z) : Prop := exists p c, L !! p = Some c /\ a = ad c /\ r = R p /\ is_prev L j m p.

Lemma walk_steps i p c : (i < level z)%nat -> L !! p = Some c -> (i < lv c)%nat -> (p <= m)%nat ->
  exists p' c', walk (steps (mem z)) go (mem z) i (ad c) (R p) = Some (ad c', R p') /\ L !! p' = Some c' /\ is_prev L i m p'.
Proof. intros Hi Hc Hic Hp. apply walk_ok; [done..|]. pose proof (rep_steps _ _ Hr). lia. Qed.

Lemma descend_ok i p c acc : (i <= level z)%nat -> L !! p = Some c -> (i <= lv c)%nat -> (p <= m)%nat -> (0 < i)%nat ->
  exists x r l, descend go (mem z) i (ad c) (R p) acc = Some (x, r, l ++ acc) /\ length l = i /\ found_at 0 x r /\
    forall j, (j < i)%nat -> exists a r, l !! j = Some (a, r) /\ found_at j a r.
Proof.
  revert p c acc. induction i as [|i IH]; intros p c acc Hi Hc Hic Hp Hpos; [lia|]. cbn [descend].
  destruct (walk_steps i p c) as (p' & c' & -> & Hc' & Hprev); [lia|done|lia|done|]. simpl.
  assert (Hfa : found_at i (ad c') (R p')) by (exists p', c'; eauto).
  pose proof Hprev as (Hp' & (d & Hd & Hid) & _). assert (d = c') as -> by congruence.
  destruct i as [|i].
  - exists (ad c'), (R p'), [(ad c', R p')]. split_and!; [done..|]. intros [|j] Hj; [|lia]. simpl. eauto.
  - destruct (IH p' c' ((ad c', R p') :: acc)) as (x & r & l & -> & Hl & Hx & Hlj); [lia|done|lia|done|lia|].
    exists x, r, (l ++ [(ad c', R p')]). rewrite <- app_assoc, length_app. split_and!; [done|simpl; lia|done|].
    intros j Hj. destruct (decide (j < S i)%nat).
    + rewrite lookup_app_l by lia. auto.
    + assert (j = S i) as -> by lia. rewrite lookup_app_r by lia. rewrite Hl, Nat.sub_diag. simpl. eauto.
Qed.

Lemma search_ends : R 0 = 0 ->
  exists c l, search go z = Some (ad c, R m, l) /\ L !! m = Some c /\ length l = level z /\
    forall j, (j < level z)%nat -> exists a r, l !! j = Some (a, r) /\ found_at j a r.
Proof.
  intros HR. destruct (rep_header _ _ Hr) as (hc & Hc & Ha & Hl & _). pose proof (rep_levels _ _ Hr).
  destruct (descend_ok (level z) 0 hc []) as (x & r & l & E & Hlen & (p & c & Hpc & -> & -> & Hprev) & Hj); [lia|done|lia|lia|lia|].
  unfold search. rewrite <- Ha, <- HR, E, app_nil_r.
  destruct (lookup_lt_is_Some_2 L m Hm) as [cm Hcm].
  assert (p = m) as -> by (eapply prev_zero; [by intros; eapply rep_positive|done..]). eauto 10.
Qed.

(** The loops that may stop at a level. *)
Lemma seek_none {A} (found : loc -> zskiplistNode -> Z -> option (option A)) i p c : (i <= level z)%nat -> L !! p = Some c -> (i <= lv c)%nat -> (p <= m)%nat ->
  (forall j p c n, L !! p = Some c -> is_prev L j m p -> mem z !! ad c = Some n -> found (ad c) n (R p) = Some None) ->
  seek go found (mem z) i (ad c) (R p) = Some None.
Proof.
  intros Hi Hc Hic Hp Hfd. revert p c Hi Hc Hic Hp. induction i as [|i IH]; intros p c Hi Hc Hic Hp; [done|]. cbn [seek].
  destruct (walk_steps i p c) as (p' & c' & -> & Hc' & Hprev); [lia|done|lia|done|]. simpl.
  destruct (rep_node _ _ _ _ Hr Hc') as (n & Hn & _). rewrite Hn. simpl. rewrite (Hfd i p') by done. simpl.
  pose proof Hprev as (Hp' & (d & Hd & Hid) & _). assert (d = c') as -> by congruence. apply IH; [lia|done|lia|done].
Qed.

Lemma seek_some {A} (found : loc -> zskiplistNode -> Z -> option (option A)) v i p c : (0 < i <= level z)%nat -> L !! p = Some c -> (i <= lv c)%nat -> (p <= m)%nat ->
  (forall p c n, L !! p = Some c -> (p <= m)%nat -> mem z !! ad c = Some n -> found (ad c) n (R p) = Some (if decide (p = m) then Some v else None)) ->
  seek go found (mem z) i (ad c) (R p) = Some (Some v).
Proof.
  intros Hi Hc Hic Hp Hfd. revert p c Hi Hc Hic Hp. induction i as [|i IH]; intros p c Hi Hc Hic Hp; [lia|]. cbn [seek].
  destruct (walk_steps i p c) as (p' & c' & -> & Hc' & Hprev); [lia|done|lia|done|]. simpl.
  pose proof Hprev as (Hp' & (d & Hd & Hid) & _). assert (d = c') as -> by congruence.
  destruct (rep_node _ _ _ _ Hr Hc') as (n & Hn & _). rewrite Hn. simpl. rewrite (Hfd p' c' n) by done. simpl.
  case_decide as Hpm; [done|]. apply IH; [|done|lia|done]. destruct i as [|i]; [|lia].
  destruct (lookup_lt_is_Some_2 L m Hm) as [cm Hcm]. destruct Hpm. eapply prev_zero; [by intros; eapply rep_positive|done..].
Qed.
End walk.

(** ** Insertion and deletion of a node *)

Lemma makes_ext step h G G' i : (forall a, G i a = G' i a) -> makes step h G i -> makes step h G' i.
Proof.
  intros HG Hm h1 Hs Hl. destruct (Hm h1 Hs Hl) as (h2 & ? & ? & H2). exists h2. split_and!; [done..|].
  intros j a. rewrite H2. case_decide; [apply HG|done].
Qed.

Lemma chained_ext g g' L i : (forall p c, L !! p = Some c -> g' (ad c) = g (ad c)) -> chained g L i -> chained g' L i.
Proof. intros He Hg p c Hc Hi. destruct (Hg p c Hc Hi) as (oq & s & ? & ? & E). exists oq, s. rewrite (He p) by done. eauto. Qed.

(** The spans around [m], as numbers of 32 bits. *)
Lemma span_range h L i m p0 u f s : (forall p c, L !! p = Some c -> (1 <= lv c)%nat) -> (m < length L)%nat ->
  is_prev L i m p0 -> L !! p0 = Some u -> chained (lvl h i) L i -> lvl h i (ad u) = Some (f, s) ->
  0 <= s - (Z.of_nat m - Z.of_nat p0) <= Z.of_nat (length L) /\ s <= Z.of_nat (length L) /\ (p0 <= m)%nat /\
  (i = O -> p0 = m) /\ (m - p0 < length L)%nat.
Proof.
  intros Hl Hm Hprev Hu Hc Hg. pose proof Hprev as (Hp & (c & Hc0 & Hi) & _). assert (c = u) as -> by congruence.
  assert (Hz : i = O -> p0 = m).
  { intros ->. destruct (lookup_lt_is_Some_2 L m Hm) as [cm Hcm]. by eapply prev_zero. }
  destruct (Hc p0 u Hu Hi) as (oq & s' & Hn & Hs & E). rewrite Hg in E. injection E as -> ->.
  pose proof (next_beyond _ _ _ _ _ Hprev Hn) as Hb. destruct oq as [q|]; simpl in Hs.
  - specialize (Hb q eq_refl). destruct Hn as (_ & (d & Hd%lookup_lt_Some & _) & _). split_and!; try lia; done.
  - destruct i as [|i]; [|split_and!; try lia; done]. apply lvl_Some in Hg as (? & _ & _ & [= <-]). specialize (Hz eq_refl).
    split_and!; try lia; done.
Qed.

Lemma forward_zero h L p c : (forall p c, L !! p = Some c -> (1 <= lv c)%nat) -> chained (lvl h 0) L 0 -> L !! p = Some c ->
  get_forward h (ad c) 0 = Some (ad <$> L !! S p).
Proof.
  intros Hl Hg Hc. destruct (Hg p c Hc (Hl _ _ Hc)) as (oq & s & Hn & _ & E). erewrite get_forward_ok by done. f_equal.
  destruct oq as [q|]; unfold addr; simpl.
  - by rewrite (next_zero _ _ _ Hl Hn q).
  - destruct (L !! S p) as [d|] eqn:Hd; [|done]. pose proof (Hn (S p) d ltac:(lia) Hd). pose proof (Hl _ _ Hd). lia.
Qed.

Lemma set_backward_ok h a p : is_Some (stat h a) ->
  exists h', set_backward h a p = Some h' /\ (forall j b, lvl h' j b = lvl h j b) /\ (forall b, stat h' b = stat h b) /\
    forall b, bck h' b = if decide (b = a) then Some p else bck h b.
Proof.
  intros [? (n & Hn & _)%fmap_Some]. unfold set_backward. rewrite Hn. simpl. eexists. split; [done|].
  split_and!.
  - intros j b. unfold lvl. destruct (decide (a = b)) as [<-|?]; [by rewrite lookup_insert_eq, Hn|by rewrite lookup_insert_ne].
  - intros b. unfold stat. destruct (decide (a = b)) as [<-|?]; [by rewrite lookup_insert_eq, Hn|by rewrite lookup_insert_ne].
  - intros b. unfold bck. destruct (decide (a = b)) as [<-|?]; [by rewrite lookup_insert_eq, decide_True|].
    rewrite lookup_insert_ne by done. by rewrite decide_False.
Qed.

(** What the arrays [update] and [rank] must be for the position [m]. *)
Definition updates (L : list cell) (m M : nat) (R : nat -> Z) (ups : list (loc * Z)) : Prop :=
  forall j, (j < M)%nat -> exists p c, ups !! j = Some (ad c, R p) /\ L !! p = Some c /\ is_prev L j m p.

Definition level_of (h : heap) (ups : list (loc * Z)) (j : nat) (k : loc -> Z -> ptr -> Z -> loc -> option (ptr * Z)) (a : loc) : option (ptr * Z) :=
  '(u, r) ← ups !! j; '(f, s) ← lvl h j u; k u r f s a.

Section links.
Context (L : list cell) (m : nat) (x : cell) (Hm : (m < length L)%nat) (HL : apart L).
Context (Hx : forall c, c ∈ L -> ad c <> ad x) (Hlv : (1 <= lv x)%nat) (Hpos : forall p c, L !! p = Some c -> (1 <= lv c)%nat).
Context (Hlen : Z.of_nat (length L) + 1 < 2 ^ 32).
Context (h : heap) (ups : list (loc * Z)) (M : nat).

Lemma link_ok : (forall i, (i < M)%nat -> chained (lvl h i) L i) -> updates L m M Z.of_nat ups -> (lv x <= M)%nat ->
  (forall i, (i < lv x)%nat -> is_Some (lvl h i (ad x))) ->
  exists h', levels (link_step ups (ad x) (Z.of_nat m)) (lv x) 0 h = Some h' /\ same h h' /\
    (forall i, (i < lv x)%nat -> chained (lvl h' i) (ins L m x) i) /\ (forall i a, (lv x <= i)%nat -> lvl h' i a = lvl h i a).
Proof.
  intros Hc Hups HM Hnew.
  destruct (levels_ok (link_step ups (ad x) (Z.of_nat m)) h
    (fun j => level_of h ups j (fun u r f s => linked (lvl h j) (ad x) u f s (Z.of_nat m - r))) (lv x) 0 h) as (h' & E & Hs & Hl).
  - intros j Hj. destruct (Hups j) as (p & c & Hu & Hpc & Hprev); [lia|]. destruct (Hnew j) as [[fx sx] Hfx]; [lia|].
    assert (Hjc : (j < lv c)%nat) by (by eapply last_level).
    destruct (Hc j ltac:(lia) p c Hpc Hjc) as (oq & s & _ & _ & Hg).
    destruct (span_range h L j m p c (addr L oq) s Hpos Hm Hprev Hpc) as (Hr1 & Hr2 & Hr3 & Hr4 & Hr5); [apply Hc; lia|done|].
    eapply makes_ext; [|eapply link_makes; [done|by eapply not_new|done..| | |]]; unfold in_u; try lia.
    intros a. unfold level_of. rewrite Hu. simpl. by rewrite Hg.
  - apply same_refl.
  - done.
  - exists h'. split_and!; [done|done| |]; [|intros i a Hi; rewrite Hl, decide_False by lia; done].
    intros i Hi. destruct (Hups i) as (p & c & Hu & Hpc & Hprev); [lia|].
    assert (Hic : (i < lv c)%nat) by (by eapply last_level).
    destruct (Hc i ltac:(lia) p c Hpc Hic) as (oq & s & _ & _ & Hg).
    eapply chained_ext; [|eapply (chained_link L m x Hm HL Hx (lvl h i) i p c); [done..|apply Hc; lia|exact Hg]].
    intros q d _. rewrite Hl, decide_True by lia. unfold level_of. rewrite Hu. simpl. by rewrite Hg.
Qed.

Lemma widen_ok : (forall i, (lv x <= i < M)%nat -> chained (lvl h i) L i) -> updates L m M Z.of_nat ups -> (lv x <= M)%nat ->
  exists h', levels (widen_step ups) (M - lv x) (lv x) h = Some h' /\ same h h' /\
    (forall i, (lv x <= i < M)%nat -> chained (lvl h' i) (ins L m x) i) /\ (forall i a, (i < lv x \/ M <= i)%nat -> lvl h' i a = lvl h i a).
Proof.
  intros Hc Hups HM.
  destruct (levels_ok (widen_step ups) h (fun j => level_of h ups j (fun u r f s => respanned (lvl h j) u f (s + 1))) (M - lv x) (lv x) h) as (h' & E & Hs & Hl).
  - intros j Hj. destruct (Hups j) as (p & c & Hu & Hpc & Hprev); [lia|].
    assert (Hjc : (j < lv c)%nat) by (by eapply last_level).
    destruct (Hc j ltac:(lia) p c Hpc Hjc) as (oq & s & _ & _ & Hg).
    destruct (span_range h L j m p c (addr L oq) s Hpos Hm Hprev Hpc) as (Hr1 & Hr2 & Hr3 & Hr4 & Hr5); [apply Hc; lia|done|].
    eapply makes_ext; [|eapply widen_makes; [lia|done..|unfold in_u; lia]].
    intros a. unfold level_of. rewrite Hu. simpl. by rewrite Hg.
  - apply same_refl.
  - done.
  - exists h'. split_and!; [done|done| |]; [|intros i a Hi; rewrite Hl, decide_False by lia; done].
    intros i Hi. destruct (Hups i) as (p & c & Hu & Hpc & Hprev); [lia|].
    assert (Hic : (i < lv c)%nat) by (by eapply last_level).
    destruct (Hc i ltac:(lia) p c Hpc Hic) as (oq & s & _ & _ & Hg).
    eapply chained_ext; [|eapply (chained_widen L m x Hm HL (lvl h i) i p c); [done|done|lia|apply Hc; lia|exact Hg]].
    intros q d _. rewrite Hl, decide_True by lia. unfold level_of. rewrite Hu. simpl. by rewrite Hg.
Qed.

Definition unlinked (j : nat) : loc -> option (ptr * Z) :=
  level_of h ups j (fun u r f s a => if decide (f = Some (ad x)) then '(fx, sx) ← lvl h j (ad x); respanned (lvl h j) u fx (s + (sx - 1)) a
                                     else respanned (lvl h j) u f (s - 1) a).

Lemma unlink_level R i : chained (lvl h i) (ins L m x) i -> updates L m M R ups -> (i < M)%nat ->
  makes (unlink_step ups (ad x)) h unlinked i /\ chained (unlinked i) L i /\ unlinked i (ad x) = lvl h i (ad x).
Proof.
  intros Hc Hups Hi. destruct (Hups i Hi) as (p & c & Hu & Hpc & Hprev). pose proof Hprev as (Hp & _ & _).
  assert (Hic : (i < lv c)%nat) by (by eapply last_level). assert (Hne : ad c <> ad x) by (by eapply not_new).
  destruct (Hc (shift m p) c) as (oq & s & Hn & Hs & Hg); [by rewrite ins_old|done|].
  destruct (decide (i < lv x)%nat) as [Hix|Hix].
  - destruct (link_to_new L m x Hm (lvl h i) i p c _ s Hprev Hpc Hix Hc Hg) as [Ef Es]. rewrite Ef in Hg.
    destruct (Hc (S m) x) as (ox & sx & Hnx & Hsx & Hgx); [by apply ins_new|done|].
    assert (Hr : 0 <= s + (sx - 1) <= Z.of_nat (length L)).
    { destruct ox as [q|]; simpl in Hsx.
      - destruct Hnx as (? & (d & Hd%lookup_lt_Some & _) & _). rewrite ins_length in Hd. lia.
      - rewrite ins_length in Hsx. destruct Hsx as [->|?]; [|lia]. apply lvl_Some in Hg as (? & _ & _ & [= <-]), Hgx as (? & _ & _ & [= <-]). lia. }
    assert (EG : forall a, unlinked i a = respanned (lvl h i) (ad c) (addr (ins L m x) ox) (s + (sx - 1)) a).
    { intros a. unfold unlinked, level_of. rewrite Hu. simpl. rewrite Hg. simpl. rewrite decide_True by done. by rewrite Hgx. }
    split_and!.
    + eapply (makes_ext _ _ (fun i => respanned (lvl h i) (ad c) _ _)); [symmetry; apply EG|]. eapply (unlink_makes h ups (ad x) i (ad c)); [done..|]. unfold in_u. lia.
    + eapply chained_ext; [intros; apply EG|]. by eapply (chained_unlink L m x Hm HL).
    + rewrite EG. unfold respanned. by rewrite decide_False.
  - pose proof (link_elsewhere L m x Hm Hx (lvl h i) i p c _ s Hprev Hpc ltac:(lia) Hc Hg) as Hf.
    assert (Hr : 1 <= s <= Z.of_nat (length L) + 1).
    { rewrite shift_le in Hs, Hn by done. destruct oq as [q|]; simpl in Hs.
      - destruct Hn as (? & (d & Hd%lookup_lt_Some & _) & _). rewrite ins_length in Hd. lia.
      - rewrite ins_length in Hs. lia. }
    assert (EG : forall a, unlinked i a = respanned (lvl h i) (ad c) (addr (ins L m x) oq) (s - 1) a).
    { intros a. unfold unlinked, level_of. rewrite Hu. simpl. rewrite Hg. simpl. by rewrite decide_False. }
    split_and!.
    + eapply (makes_ext _ _ (fun i => respanned (lvl h i) (ad c) _ _)); [symmetry; apply EG|]. eapply (narrow_makes h ups (ad x) i (ad c)); [lia|done..|]. unfold in_u. lia.
    + eapply chained_ext; [intros; apply EG|]. eapply (chained_narrow L m x Hm HL); [done|done|lia|done..].
    + rewrite EG. unfold respanned. by rewrite decide_False.
Qed.

Lemma unlink_ok R : (forall i, (i < M)%nat -> chained (lvl h i) (ins L m x) i) -> updates L m M R ups ->
  exists h', levels (unlink_step ups (ad x)) M 0 h = Some h' /\ same h h' /\
    (forall i, (i < M)%nat -> chained (lvl h' i) L i) /\ (forall i a, (M <= i)%nat \/ a = ad x -> lvl h' i a = lvl h i a).
Proof.
  intros Hc Hups.
  destruct (levels_ok (unlink_step ups (ad x)) h unlinked M 0 h) as (h' & E & Hs & Hl); [|apply same_refl|done|].
  { intros j Hj. eapply unlink_level; [apply Hc|done|]; lia. }
  exists h'. split_and!; [done|done| |].
  - intros i Hi. eapply chained_ext; [|eapply unlink_level; [by apply Hc|done..]]. intros. by rewrite Hl, decide_True by lia.
  - intros i a Ha. rewrite Hl. case_decide; [|done]. destruct Ha as [?| ->]; [lia|].
    eapply unlink_level; [apply Hc|done|]; lia.
Qed.
End links.

Lemma header_lookup z L c : rep z L -> L !! O = Some c -> ad c = header z /\ lv c = ZSKIPLIST_MAXLEVEL.
Proof. intros Hr Hc. destruct (rep_header _ _ Hr) as (d & Hd & ? & ? & _). by assert (c = d) as -> by congruence. Qed.

Lemma grow_ok z L k : rep z L -> (k <= ZSKIPLIST_MAXLEVEL)%nat ->
  exists h, levels (grow_step (header z) (length_ z)) (k - level z) (level z) (mem z) = Some h /\ same (mem z) h /\
    (forall i, (i < Nat.max (level z) k)%nat -> chained (lvl h i) L i) /\
    (forall i, (Nat.max (level z) k <= i < ZSKIPLIST_MAXLEVEL)%nat -> exists s, lvl h i (header z) = Some (None, s)).
Proof.
  intros Hr Hk. pose proof (rep_levels _ _ Hr) as Hl. pose proof (rep_length _ _ Hr) as Hlen. pose proof (rep_bound _ _ Hr).
  destruct (rep_header _ _ Hr) as (hc & Hc & Ha & Hlh & _). pose proof (lookup_lt_Some _ _ _ Hc).
  destruct (levels_ok (grow_step (header z) (length_ z)) (mem z) (fun i => respanned (lvl (mem z) i) (header z) None (length_ z))
    (k - level z) (level z) (mem z)) as (h & E & Hs & Hh); [|apply same_refl|done|].
  { intros j Hj. destruct (rep_above _ _ Hr j) as [s Hsj]; [lia|]. eapply grow_makes; [lia|done|unfold in_u; lia]. }
  exists h. split_and!; [done..| |].
  - intros i Hi. destruct (decide (i < level z)%nat).
    { eapply chained_ext; [|by apply (rep_chain _ _ Hr)]. intros. by rewrite Hh, decide_False by lia. }
    intros p c Hpc Hic. destruct p as [|p]; [|apply (rep_cells _ _ Hr) in Hpc as [? _]; lia].
    assert (c = hc) as -> by congruence. exists None, (length_ z). split_and!.
    + intros r d Hr' Hd. destruct r as [|r]; [lia|]. apply (rep_cells _ _ Hr) in Hd as [? _]. lia.
    + right. lia.
    + rewrite Hh, decide_True by lia. unfold respanned. by rewrite decide_True.
  - intros i Hi. rewrite Hh, decide_False by lia. apply (rep_above _ _ Hr). lia.
Qed.

Lemma grow_updates z L m l k : rep z L -> (k <= ZSKIPLIST_MAXLEVEL)%nat -> length l = level z -> updates L m (level z) Z.of_nat l ->
  updates L m (Nat.max (level z) k) Z.of_nat (l ++ replicate (k - level z) (header z, 0)).
Proof.
  intros Hr Hk Hl Hu j Hj. pose proof (rep_levels _ _ Hr). destruct (decide (j < level z)%nat).
  { destruct (Hu j) as (p & c & ? & ? & ?); [done|]. exists p, c. by rewrite lookup_app_l by lia. }
  destruct (rep_header _ _ Hr) as (hc & Hc & Ha & Hlh & _). exists O, hc. split_and!; [|done|].
  - rewrite lookup_app_r by lia. rewrite lookup_replicate_2 by lia. by rewrite <- Ha.
  - split_and!; [lia|exists hc; split; [done|lia]|]. intros r c Hr' Hrc. destruct r as [|r]; [lia|].
    apply (rep_cells _ _ Hr) in Hrc as [? _]. lia.
Qed.

Lemma back_ins_le L m x q : (m < length L)%nat -> (q <= m)%nat -> back_of (ins L m x) q = back_of L q.
Proof. intros Hm Hq. destruct q as [|q]; [done|]. simpl. by rewrite <- (shift_le m (S q)) at 1 by done; rewrite ins_old. Qed.
Lemma back_ins_gt L m x q : (m < length L)%nat -> (m < q)%nat -> back_of (ins L m x) (S q) = back_of L q.
Proof. intros Hm Hq. simpl. rewrite <- (shift_gt m q), ins_old by done. destruct q; [lia|done]. Qed.

(** The list after an insertion, from what its heap holds. *)
Lemma rep_ins z L m x h tl M :
  rep z L -> (m < length L)%nat -> (forall c, c ∈ L -> ad c <> ad x) -> (1 <= lv x <= ZSKIPLIST_MAXLEVEL)%nat -> is_Some (ob x) ->
  Z.of_nat (length L) + 1 < 2 ^ 32 -> M = Nat.max (level z) (lv x) ->
  stat h (ad x) = Some (lv x, (lv x - 1)%nat, sc x, ob x) -> (forall a, a <> ad x -> stat h a = stat (mem z) a) ->
  (forall i, (i < M)%nat -> chained (lvl h i) (ins L m x) i) ->
  (forall i, (M <= i < ZSKIPLIST_MAXLEVEL)%nat -> exists s, lvl h i (header z) = Some (None, s)) ->
  bck h (ad x) = Some (back_of L m) -> (forall c, L !! S m = Some c -> bck h (ad c) = Some (Some (ad x))) ->
  (forall p c, L !! p = Some c -> p <> S m -> bck h (ad c) = bck (mem z) (ad c)) ->
  tl = (if L !! S m then tail z else Some (ad x)) ->
  rep (mk_zsl h (header z) tl (wrapu 32 (length_ z + 1)) M) (ins L m x).
Proof.
  intros Hr Hm Hx Hlv Hob Hlen HM Hsx Hst Hch Hab Hbx Hbn Hbo Htl. pose proof (rep_levels _ _ Hr).
  assert (Hold : forall p c, L !! p = Some c -> ad c <> ad x) by (intros; by eapply not_new).
  pose proof (fun q => back_ins_le L m x q Hm) as Hback. pose proof (fun q => back_ins_gt L m x q Hm) as Hback'.
  split; simpl.
  - destruct (rep_header _ _ Hr) as (c & Hc & ?). exists c. rewrite <- (shift_le m O), ins_old by lia. done.
  - lia.
  - intros p c Hc. destruct (shift_split m (S p)) as [E|[[|q] E]]; rewrite E in Hc.
    + rewrite ins_new in Hc by done. injection Hc as <-. split; [lia|done].
    + by rewrite shift_le in E by lia.
    + rewrite ins_old in Hc by done. apply (rep_cells _ _ Hr) in Hc as [? ?]. split; [lia|done].
  - destruct (decide (level z <= lv x)%nat); [right; exists m, x; rewrite ins_new by done; split; [done|lia]|].
    destruct (rep_top _ _ Hr) as [?|(p & c & Hc & ?)]; [lia|right].
    rewrite <- (ins_old L m x Hm) in Hc. destruct (shift m (S p)) as [|p'] eqn:E; [unfold shift in E; destruct (Nat.leb_spec (S p) m); lia|].
    exists p', c. split; [done|lia].
  - intros p q c d Hc Hd E. destruct (shift_split m p) as [->|[p' ->]], (shift_split m q) as [->|[q' ->]]; rewrite ?ins_new, ?ins_old in Hc by done; rewrite ?ins_new, ?ins_old in Hd by done.
    + done.
    + injection Hc as <-. by destruct (Hold q' d).
    + injection Hd as <-. by destruct (Hold p' c).
    + f_equal. by eapply (rep_apart _ _ Hr).
  - intros p c Hc. destruct (shift_split m p) as [->|[p' ->]]; rewrite ?ins_new, ?ins_old in Hc by done.
    + by injection Hc as <-.
    + rewrite Hst by eauto. by eapply (rep_shape _ _ Hr).
  - intros a Ha. destruct (decide (a = ad x)) as [->|Hne]; [exists (S m), x; by rewrite ins_new|].
    assert (is_Some (stat (mem z) a)) as Hs by (rewrite <- Hst by done; unfold stat; by destruct Ha as [n ->]).
    destruct (rep_dom _ _ Hr a) as (p & c & Hc & ?); [unfold stat in Hs; by destruct (mem z !! a); [|destruct Hs]|].
    exists (shift m p), c. by rewrite ins_old.
  - done.
  - done.
  - intros p c Hc. destruct (shift_split m (S p)) as [E|[[|q] E]]; rewrite E in Hc.
    + rewrite ins_new in Hc by done. injection Hc as <-. injection E as ->. by rewrite Hback.
    + by rewrite shift_le in E by lia.
    + rewrite ins_old in Hc by done. destruct (lt_eq_lt_dec q m) as [[?| ->]|?].
      * rewrite shift_le in E by lia. injection E as ->. rewrite Hback, (Hbo (S q)) by (done || lia). by apply (rep_back _ _ Hr).
      * rewrite shift_gt in E by lia. injection E as ->. simpl. rewrite ins_new by done. by apply Hbn.
      * rewrite shift_gt in E by lia. injection E as ->. rewrite Hback', (Hbo (S q)) by (done || lia). by apply (rep_back _ _ Hr).
  - rewrite ins_length, Htl. destruct (L !! S m) as [c|] eqn:Hc.
    + apply lookup_lt_Some in Hc. replace (S (length L) - 1)%nat with (S (length L - 1)) by lia.
      rewrite Hback' by lia. apply Hr.
    + apply lookup_ge_None in Hc. replace (S (length L) - 1)%nat with (S m) by lia. simpl. by rewrite ins_new.
  - rewrite wrapu_id; rewrite (rep_length _ _ Hr), ?ins_length; [lia|unfold in_u; lia].
  - rewrite ins_length. lia.
Qed.

Lemma lvl_insert h x n j a : lvl (<[x := n]> h) j a = if decide (a = x) then f ← forward n !! j; s ← crossed n j; Some (f, s) else lvl h j a.
Proof. unfold lvl. case_decide as Ha; [by rewrite Ha, lookup_insert_eq|by rewrite lookup_insert_ne by congruence]. Qed.
Lemma stat_insert h x n a : stat (<[x := n]> h) a = if decide (a = x) then Some (length (forward n), length (span n), score n, obj n) else stat h a.
Proof. unfold stat. case_decide as Ha; [by rewrite Ha, lookup_insert_eq|by rewrite lookup_insert_ne by congruence]. Qed.
Lemma bck_insert h x n a : a <> x -> bck (<[x := n]> h) a = bck h a.
Proof. intros. unfold bck. by rewrite lookup_insert_ne by congruence. Qed.

Context (zmalloc_fresh : forall h, h !! zmalloc h = None).

Lemma new_level k s o j : (j < k)%nat -> is_Some (f ← forward (zslCreateNode k s o) !! j; t ← crossed (zslCreateNode k s o) j; Some (f, t)).
Proof.
  intros Hj. simpl. rewrite lookup_replicate_2 by done. simpl. destruct j as [|j]; simpl; [done|]. by rewrite lookup_replicate_2 by lia.
Qed.

(** The linking of a new node [x], from the arrays of the search. *)
Lemma insert_links z L m s o k l :
  rep z L -> (m < length L)%nat -> (1 <= k <= ZSKIPLIST_MAXLEVEL)%nat -> Z.of_nat (length L) + 1 < 2 ^ 32 ->
  length l = level z -> updates L m (level z) Z.of_nat l ->
  exists h x h1 h2 h3, levels (grow_step (header z) (length_ z)) (k - level z) (level z) (mem z) = Some h /\ zmalloc h = ad x /\
    x = mk_cell (ad x) k s (Some o) /\ (forall c, c ∈ L -> ad c <> ad x) /\
    h1 = <[ad x := zslCreateNode k s (Some o)]> h /\
    levels (link_step (l ++ replicate (k - level z) (header z, 0)) (ad x) (Z.of_nat m)) k 0 h1 = Some h2 /\
    levels (widen_step (l ++ replicate (k - level z) (header z, 0))) (Nat.max (level z) k - k) k h2 = Some h3 /\
    stat h3 (ad x) = Some (k, (k - 1)%nat, s, Some o) /\ (forall a, a <> ad x -> stat h3 a = stat (mem z) a /\ bck h3 a = bck (mem z) a) /\
    (forall i, (i < Nat.max (level z) k)%nat -> chained (lvl h3 i) (ins L m x) i) /\
    (forall i, (Nat.max (level z) k <= i < ZSKIPLIST_MAXLEVEL)%nat -> exists t, lvl h3 i (header z) = Some (None, t)).
Proof.
  intros Hr Hm Hk Hlen Hl Hups. destruct (grow_ok z L k Hr) as (h & E & Hs & Hch & Hab); [lia|].
  pose proof (grow_updates z L m l k Hr ltac:(lia) Hl Hups) as Hups'.
  set (x := mk_cell (zmalloc h) k s (Some o)). set (M := Nat.max (level z) k) in *.
  set (h1 := <[ad x := zslCreateNode k s (Some o)]> h).
  assert (Hfresh : stat (mem z) (ad x) = None).
  { rewrite <- (proj1 (Hs _)). unfold stat. simpl. by rewrite zmalloc_fresh. }
  assert (Hx : forall c, c ∈ L -> ad c <> ad x).
  { intros c (p & Hc)%list_elem_of_lookup Ea. apply (rep_shape _ _ Hr) in Hc. congruence. }
  assert (Hhd : header z <> ad x).
  { destruct (rep_header _ _ Hr) as (hc & Hc & <- & _). eapply Hx, list_elem_of_lookup_2, Hc. }
  assert (Hl1 : forall i a, a <> ad x -> lvl h1 i a = lvl h i a) by (intros; unfold h1; by rewrite lvl_insert, decide_False).
  destruct (link_ok L m x Hm (rep_apart _ _ Hr) Hx ltac:(simpl; lia) (fun p c => rep_positive z L p c Hr) Hlen h1 (l ++ replicate (k - level z) (header z, 0)) M)
    as (h2 & E2 & Hs2 & Hch2 & Hab2); [|done|simpl; lia| |].
  { intros i Hi. eapply chained_ext; [|by apply Hch]. intros p c Hc. apply Hl1. by eapply not_new. }
  { intros i Hi. unfold h1. rewrite lvl_insert, decide_True by done. by apply new_level. }
  destruct (widen_ok L m x Hm (rep_apart _ _ Hr) ltac:(simpl; lia) (fun p c => rep_positive z L p c Hr) Hlen h2 (l ++ replicate (k - level z) (header z, 0)) M)
    as (h3 & E3 & Hs3 & Hch3 & Hab3); [|done|simpl; lia|].
  { intros i Hi. eapply chained_ext; [|apply (Hch i); lia]. intros p c Hc. rewrite Hab2 by lia. apply Hl1. by eapply not_new. }
  exists h, x, h1, h2, h3. simpl in *. split_and!; try done.
  - rewrite (proj1 (Hs3 _)), (proj1 (Hs2 _)). unfold h1. rewrite stat_insert, decide_True by done. simpl. by rewrite !length_replicate.
  - intros a Ha. rewrite (proj1 (Hs3 _)), (proj1 (Hs2 _)), (proj2 (Hs3 _)), (proj2 (Hs2 _)). unfold h1.
    rewrite stat_insert, bck_insert, decide_False by done. apply Hs.
  - intros i Hi. destruct (decide (k <= i)%nat); [apply Hch3; lia|].
    eapply chained_ext; [|apply Hch2; lia]. intros. by rewrite Hab3 by lia.
  - intros i Hi. destruct (Hab i Hi) as [t Ht]. exists t. by rewrite Hab3, Hab2, Hl1 by (done || lia).
Qed.

Lemma updates_zero z L m M R l : rep z L -> (m < length L)%nat -> (0 < M)%nat -> updates L m M R l ->
  exists c, l !! O = Some (ad c, R m) /\ L !! m = Some c.
Proof.
  intros Hr Hm HM Hu. destruct (Hu O HM) as (p & c & E & Hc & Hprev). destruct (lookup_lt_is_Some_2 L m Hm) as [cm Hcm].
  assert (p = m) as -> by (eapply prev_zero; [by intros; eapply rep_positive|done..]). eauto.
Qed.

Lemma insert_cells z L m s o k l a r :
  rep z L -> (m < length L)%nat -> (1 <= k <= ZSKIPLIST_MAXLEVEL)%nat -> Z.of_nat (length L) + 1 < 2 ^ 32 ->
  search (go_rank (before s o)) z = Some (a, r, l) -> length l = level z -> updates L m (level z) Z.of_nat l ->
  exists z' x, zslInsert z s o k = Some z' /\ rep z' (ins L m (mk_cell x k s (Some o))).
Proof.
  intros Hr Hm Hk Hlen Hs Hl Hups. unfold zslInsert. rewrite Hs. simpl. pose proof (rep_levels _ _ Hr).
  destruct (insert_links z L m s o k l Hr Hm Hk Hlen Hl Hups)
    as (h & x & h1 & h2 & h3 & -> & Ex & Hxk & Hx & -> & E2 & E3 & Hsx & Hst & Hch & Hab). simpl.
  pose proof (grow_updates z L m l k Hr ltac:(lia) Hl Hups) as Hups'.
  destruct (updates_zero _ _ _ (Nat.max (level z) k) _ _ Hr Hm ltac:(lia) Hups') as (c & -> & Hc). simpl. rewrite Ex, E2. simpl. rewrite E3. simpl.
  destruct (set_backward_ok h3 (ad x) (if decide (ad c = header z) then None else Some (ad c))) as (h4 & -> & Hl4 & Hs4 & Hb4); [by rewrite Hsx|]. simpl.
  assert (Hlx : lv x = k) by (by rewrite Hxk).
  assert (Hbm : (if decide (ad c = header z) then None else Some (ad c)) = back_of L m).
  { destruct (rep_header _ _ Hr) as (hc & Hhc & <- & _). destruct m as [|m]; [assert (c = hc) as -> by congruence; by rewrite decide_True|].
    rewrite decide_False by (intros E; by pose proof (rep_apart _ _ Hr _ _ _ _ Hc Hhc E)). simpl. by rewrite Hc. }
  rewrite (forward_zero h4 (ins L m x) (S m) x); cycle 1.
  { intros p d Hd. destruct (shift_split m p) as [->|[p' ->]]; rewrite ?ins_new, ?ins_old in Hd by done; [injection Hd as <-; lia|by eapply rep_positive]. }
  { eapply chained_ext; [|apply (Hch O); lia]. intros. apply Hl4. }
  { by apply ins_new. }
  rewrite <- (shift_gt m (S m)), ins_old by lia. simpl.
  assert (Hfin : forall h5 tl, (forall j b, lvl h5 j b = lvl h4 j b) -> (forall b, stat h5 b = stat h4 b) ->
    (forall b, bck h5 b = if decide (Some b = ad <$> L !! S m) then Some (Some (ad x)) else bck h4 b) ->
    tl = (if L !! S m then tail z else Some (ad x)) -> rep (mk_zsl h5 (header z) tl (wrapu 32 (length_ z + 1)) (Nat.max (level z) k)) (ins L m x)).
  { intros h5 tl Hl5 Hs5 Hb5 Htl. apply rep_ins; try done; rewrite ?Hlx; try done.
    - rewrite Hxk. done.
    - rewrite Hs5, Hs4, Hsx, Hxk. done.
    - intros b Hb. rewrite Hs5, Hs4. by apply Hst.
    - intros i Hi. eapply chained_ext; [|by apply Hch]. intros. by rewrite Hl5, Hl4.
    - intros i Hi. rewrite Hl5, Hl4. by apply Hab.
    - rewrite Hb5, decide_False; [by rewrite Hb4, decide_True, Hbm|]. intros (d & Hd & E)%eq_sym%fmap_Some. by destruct (Hx d); [eapply list_elem_of_lookup_2|].
    - intros d Hd. rewrite Hb5, Hd. by rewrite decide_True.
    - intros p d Hd Hp. rewrite Hb5, decide_False; [|intros (e & He & E)%eq_sym%fmap_Some; by destruct Hp; eapply (rep_apart _ _ Hr)].
      rewrite Hb4. assert (ad d <> ad x) by (by eapply Hx, list_elem_of_lookup_2). rewrite decide_False by done. by apply Hst. }
  destruct (L !! S m) as [y|] eqn:Hy; simpl.
  - destruct (set_backward_ok h4 (ad y) (Some (ad x))) as (h5 & -> & Hl5 & Hs5 & Hb5).
    { rewrite Hs4. rewrite (proj1 (Hst _ (Hx y (list_elem_of_lookup_2 _ _ _ Hy)))). by erewrite rep_shape. }
    simpl. eexists _, (ad x). split; [done|]. rewrite <- Hxk. apply Hfin; [done..| |done].
    intros b. rewrite Hb5. destruct (decide (b = ad y)); [rewrite decide_True by (simpl; congruence)|rewrite decide_False by (simpl; congruence)]; done.
  - eexists _, (ad x). split; [done|]. rewrite <- Hxk. by apply Hfin.
Qed.

(** ** Deletion *)

Lemma lower_ok h hd k : (1 <= k)%nat -> (forall i, (i < k)%nat -> is_Some (lvl h i hd)) ->
  exists k', lower k h hd = Some k' /\ (1 <= k' <= k)%nat /\ (forall i, (k' <= i < k)%nat -> get_forward h hd i = Some None) /\
    (k' = 1%nat \/ exists a, get_forward h hd (k' - 1) = Some (Some a)).
Proof.
  intros Hk Hh. induction k as [|k IH]; [lia|]. destruct k as [|k]; [exists 1%nat; split_and!; [done|lia..|intros; lia|auto]|].
  change (lower (S (S k)) h hd) with (f ← get_forward h hd (S k); match f with None => lower (S k) h hd | Some _ => Some (S (S k)) end).
  destruct (Hh (S k) ltac:(lia)) as [[f s] Hf]. pose proof (get_forward_ok _ _ _ _ _ Hf) as Hg. rewrite Hg. cbn [mbind option_bind].
  destruct f as [a|].
  - exists (S (S k)). split_and!; [done|lia..|intros; lia|]. right. simpl. eauto.
  - destruct IH as (k' & -> & ? & Hb & ?); [lia|intros; apply Hh; lia|]. exists k'. split_and!; [done|lia|lia| |done].
    intros i Hi. destruct (decide (i = S k)) as [->|]; [done|apply Hb; lia].
Qed.

Lemma without_new z L m x : rep z (ins L m x) -> (m < length L)%nat ->
  apart L /\ (forall c, c ∈ L -> ad c <> ad x) /\ (forall p c, L !! p = Some c -> (1 <= lv c)%nat) /\ (1 <= lv x)%nat.
Proof.
  intros Hr Hm. split_and!.
  - intros p q c d Hc Hd E. rewrite <- (ins_old L m x Hm) in Hc, Hd. pose proof (rep_apart _ _ Hr _ _ _ _ Hc Hd E) as Es.
    unfold shift in Es. destruct (Nat.leb_spec p m), (Nat.leb_spec q m); lia.
  - intros c (p & Hc)%list_elem_of_lookup E. rewrite <- (ins_old L m x Hm) in Hc.
    by eapply shift_not_new, (rep_apart _ _ Hr); [exact Hc|apply ins_new|].
  - intros p c Hc. rewrite <- (ins_old L m x Hm) in Hc. by eapply rep_positive.
  - eapply rep_positive; [done|by apply ins_new].
Qed.

(** The elements of [L] among those of the longer list. *)
Lemma old_cell z L m x p c : rep z (ins L m x) -> (m < length L)%nat -> L !! S p = Some c -> (1 <= lv c <= level z)%nat /\ is_Some (ob c).
Proof.
  intros Hr Hm Hc. rewrite <- (ins_old L m x Hm) in Hc. apply (rep_cells _ _ Hr (if (S p <=? m)%nat then p else S p)). unfold shift in Hc.
  by destruct (Nat.leb_spec (S p) m).
Qed.

(** The header's links after the level has been lowered. *)
Lemma lowered L hc h k k' : L !! O = Some hc -> lv hc = ZSKIPLIST_MAXLEVEL -> (1 <= k' <= k)%nat -> (k <= ZSKIPLIST_MAXLEVEL)%nat ->
  (forall i, (i < k)%nat -> chained (lvl h i) L i) -> (forall p c, L !! S p = Some c -> (1 <= lv c <= k)%nat) ->
  (forall i, (k' <= i < k)%nat -> get_forward h (ad hc) i = Some None) ->
  (k' = 1%nat \/ exists a, get_forward h (ad hc) (k' - 1) = Some (Some a)) ->
  (forall p c, L !! S p = Some c -> (1 <= lv c <= k')%nat) /\ (k' = 1%nat \/ exists p c, L !! S p = Some c /\ lv c = k') /\
  (forall i, (k' <= i < k)%nat -> exists s, lvl h i (ad hc) = Some (None, s)).
Proof.
  intros Hhc Hl Hk Hmax Hch Hcells Hnone Htop.
  assert (Hnext : forall i, (k' <= i < k)%nat -> is_next L i 0 None /\ exists s, lvl h i (ad hc) = Some (None, s)).
  { intros i Hi. destruct (Hch i ltac:(lia) O hc Hhc ltac:(lia)) as (oq & s & Hn & _ & E).
    pose proof (get_forward_ok _ _ _ _ _ E) as Hg. rewrite Hnone in Hg by done. injection Hg as Hg. destruct oq as [q|]; [|by eauto].
    destruct Hn as (_ & (c & Hc & _) & _). unfold addr in Hg. simpl in Hg. by rewrite Hc in Hg. }
  assert (Hle : forall p c, L !! S p = Some c -> (1 <= lv c <= k')%nat).
  { intros p c Hc. pose proof (Hcells _ _ Hc). destruct (decide (lv c <= k')%nat); [lia|].
    destruct (Hnext k' ltac:(lia)) as [Hn _]. pose proof (Hn (S p) c ltac:(lia) Hc). lia. }
  split_and!; [done| |by intros; apply Hnext].
  destruct Htop as [?|[a Ha]]; [by left|]. right.
  destruct (Hch (k' - 1)%nat ltac:(lia) O hc Hhc ltac:(lia)) as (oq & s & Hn & _ & E).
  pose proof (get_forward_ok _ _ _ _ _ E) as Hg. rewrite Ha in Hg. destruct oq as [q|]; [|done].
  destruct Hn as (Hq & (c & Hc & ?) & _). destruct q as [|q]; [lia|]. exists q, c. pose proof (Hle _ _ Hc). split; [done|lia].
Qed.

(** The list after a deletion, from what its heap holds. *)
Lemma rep_del z L m x h tl k' :
  rep z (ins L m x) -> (m < length L)%nat -> (1 <= k' <= level z)%nat ->
  (forall p c, L !! S p = Some c -> (1 <= lv c <= k')%nat) -> (k' = 1%nat \/ exists p c, L !! S p = Some c /\ lv c = k') ->
  (forall a, a <> ad x -> stat h a = stat (mem z) a) -> h !! ad x = None ->
  (forall i, (i < level z)%nat -> chained (lvl h i) L i) ->
  (forall i, (k' <= i < ZSKIPLIST_MAXLEVEL)%nat -> exists s, lvl h i (header z) = Some (None, s)) ->
  (forall c, L !! S m = Some c -> bck h (ad c) = Some (back_of L m)) ->
  (forall p c, L !! p = Some c -> p <> S m -> bck h (ad c) = bck (mem z) (ad c)) ->
  tl = (if L !! S m then tail z else back_of L m) ->
  rep (mk_zsl h (header z) tl (wrapu 32 (length_ z - 1)) k') L.
Proof.
  intros Hr Hm Hk Hle Htop Hst Hgone Hch Hab Hbn Hbo Htl. pose proof (rep_levels _ _ Hr).
  destruct (without_new z L m x Hr Hm) as (HL & Hx & _ & _).
  pose proof (fun q => back_ins_le L m x q Hm) as Hback. pose proof (fun q => back_ins_gt L m x q Hm) as Hback'.
  pose proof (rep_length _ _ Hr) as Hlen. pose proof (rep_bound _ _ Hr) as Hb. rewrite ins_length in Hlen, Hb.
  split; simpl; try done.
  - destruct (rep_header _ _ Hr) as (c & Hc & ?). rewrite <- (shift_le m O), ins_old in Hc by lia. eauto.
  - lia.
  - intros p c Hc. split; [by eapply Hle|]. by eapply old_cell.
  - intros p c Hc. rewrite Hst by (eapply Hx, list_elem_of_lookup_2, Hc). apply (rep_shape _ _ Hr (shift m p)). by rewrite ins_old.
  - intros a Ha. assert (Hne : a <> ad x) by (intros ->; rewrite Hgone in Ha; by destruct Ha).
    assert (is_Some (stat (mem z) a)) as Hs by (rewrite <- Hst by done; unfold stat; by destruct Ha as [n ->]).
    destruct (rep_dom _ _ Hr a) as (p & c & Hc & ?); [unfold stat in Hs; by destruct (mem z !! a); [|destruct Hs]|].
    destruct (shift_split m p) as [->|[p' ->]]; rewrite ?ins_new, ?ins_old in Hc by done; [congruence|eauto].
  - intros i Hi. apply Hch. lia.
  - intros p c Hc. destruct (lt_eq_lt_dec p m) as [[?| ->]|?]; [| by apply Hbn|].
    + rewrite (Hbo (S p)) by (done || lia). rewrite <- Hback by lia. apply (rep_back _ _ Hr).
      by rewrite <- (shift_le m (S p)), ins_old by lia.
    + rewrite (Hbo (S p)) by (done || lia). rewrite <- Hback' by lia. apply (rep_back _ _ Hr).
      by rewrite <- (shift_gt m (S p)), ins_old by lia.
  - rewrite Htl. destruct (L !! S m) as [c|] eqn:Hc.
    + apply lookup_lt_Some in Hc. rewrite (rep_tail _ _ Hr), ins_length. rewrite <- Hback' by lia. f_equal. lia.
    + apply lookup_ge_None in Hc. f_equal. lia.
  - rewrite wrapu_id by (unfold in_u; lia). lia.
  - lia.
Qed.

Lemma lvl_delete h x j a : a <> x -> lvl (delete x h) j a = lvl h j a.
Proof. intros. unfold lvl. by rewrite lookup_delete_ne. Qed.
Lemma stat_delete h x a : a <> x -> stat (delete x h) a = stat h a.
Proof. intros. unfold stat. by rewrite lookup_delete_ne. Qed.
Lemma bck_delete h x a : a <> x -> bck (delete x h) a = bck h a.
Proof. intros. unfold bck. by rewrite lookup_delete_ne. Qed.

(** After the links are mended: the backward pointer, the tail and the level. *)
Lemma delete_finish z L m x h1 h2 tl : rep z (ins L m x) -> (m < length L)%nat -> same (mem z) h1 ->
  (forall i, (i < level z)%nat -> chained (lvl h1 i) L i) -> (forall i a, (level z <= i)%nat \/ a = ad x -> lvl h1 i a = lvl (mem z) i a) ->
  (forall j b, lvl h2 j b = lvl h1 j b) -> (forall b, stat h2 b = stat h1 b) ->
  (forall b, bck h2 b = if decide (Some b = ad <$> L !! S m) then Some (back_of L m) else bck h1 b) ->
  tl = (if L !! S m then tail z else back_of L m) ->
  exists k', lower (level z) h2 (header z) = Some k' /\ (1 <= k' <= level z)%nat /\
    rep (mk_zsl (delete (ad x) h2) (header z) tl (wrapu 32 (length_ z - 1)) k') L.
Proof.
  intros Hr Hm Hs1 Hch1 Hkeep Hl2 Hs2 Hb2 Htl. destruct (without_new z L m x Hr Hm) as (HL & Hx & _ & _). pose proof (rep_levels _ _ Hr) as Hlev.
  destruct (rep_header _ _ Hr) as (hc & Hhc & Hha & Hhl & _). rewrite <- (shift_le m O), ins_old in Hhc by lia.
  assert (Hhx : header z <> ad x) by (rewrite <- Hha; by eapply Hx, list_elem_of_lookup_2).
  assert (Hch2 : forall i, (i < level z)%nat -> chained (lvl h2 i) L i) by (intros; eapply chained_ext; [intros; apply Hl2|auto]).
  destruct (lower_ok h2 (header z) (level z)) as (k' & -> & Hk' & Hnone & Htop); [lia| |].
  { intros i Hi. destruct (Hch2 i Hi O hc Hhc ltac:(lia)) as (? & ? & _ & _ & E). rewrite <- Hha, E. done. }
  rewrite <- Hha in Hnone, Htop.
  destruct (lowered L hc h2 (level z) k' Hhc Hhl Hk' ltac:(lia) Hch2 ltac:(intros; by eapply old_cell) Hnone Htop) as (Hle & Htop' & Hab).
  exists k'. split_and!; [done|lia..|]. eapply rep_del; try done.
  - intros a Ha. rewrite stat_delete, Hs2 by done. apply Hs1.
  - apply lookup_delete_eq.
  - intros i Hi. eapply chained_ext; [|by apply Hch2]. intros q d Hd. apply lvl_delete. eapply Hx, list_elem_of_lookup_2, Hd.
  - intros i Hi. rewrite lvl_delete by done. destruct (decide (i < level z)%nat); [rewrite <- Hha; apply Hab; lia|].
    rewrite Hl2, Hkeep by lia. apply (rep_above _ _ Hr). lia.
  - intros c Hc. rewrite bck_delete, Hb2, Hc by (eapply Hx, list_elem_of_lookup_2, Hc). by rewrite decide_True.
  - intros p c Hc Hp. rewrite bck_delete, Hb2 by (eapply Hx, list_elem_of_lookup_2, Hc). rewrite decide_False; [apply Hs1|]. intros (e & He & E)%eq_sym%fmap_Some. by destruct Hp; eapply HL.
Qed.

(** [zslDeleteNode] of the node after the position [m], then [zslFreeNode]. *)
Lemma delete_cells z L m x R l : rep z (ins L m x) -> (m < length L)%nat -> updates L m (level z) R l ->
  exists z' n, zslDeleteNode z (ad x) l = Some z' /\ mem z' !! ad x = Some n /\ obj n = ob x /\
    rep (zslFreeNode z' (ad x)) L /\ (level (zslFreeNode z' (ad x)) <= level z)%nat.
Proof.
  intros Hr Hm Hups. destruct (without_new z L m x Hr Hm) as (HL & Hx & Hpos & Hlx).
  pose proof (rep_levels _ _ Hr) as Hlev. pose proof (rep_bound _ _ Hr) as Hb. rewrite ins_length in Hb.
  pose proof (ins_new L m x Hm) as Hnew.
  destruct (unlink_ok L m x Hm HL Hx Hlx ltac:(lia) (mem z) l (level z) R) as (h1 & E1 & Hs1 & Hch1 & Hkeep); [apply Hr|done|].
  unfold zslDeleteNode. rewrite E1. simpl.
  (* the node itself *)
  assert (Hsx : stat h1 (ad x) = Some (lv x, (lv x - 1)%nat, sc x, ob x)) by (rewrite (proj1 (Hs1 _)); by eapply rep_shape).
  assert (Hbx : bck h1 (ad x) = Some (back_of (ins L m x) m)) by (rewrite (proj2 (Hs1 _)); by apply (rep_back _ _ Hr)).
  assert (Hfx : get_forward h1 (ad x) 0 = Some (ad <$> L !! S m)).
  { rewrite <- (ins_old L m x Hm (S m)), shift_gt by lia. rewrite <- (forward_zero (mem z) (ins L m x) (S m) x); [|by intros; eapply rep_positive|apply Hr; lia|done].
    destruct (rep_chain _ _ Hr O ltac:(lia) (S m) x Hnew ltac:(lia)) as (oq & s & _ & _ & E).
    erewrite get_forward_ok by (rewrite Hkeep by auto; done). by erewrite get_forward_ok. }
  apply stat_Some in Hsx as (n & Hn & _ & _ & _ & Hob).
  unfold bck in Hbx. rewrite Hn in Hbx. injection Hbx as Hbx. unfold get_forward in Hfx. rewrite Hn in Hfx. simpl in Hfx. rewrite Hn. simpl. rewrite Hfx. simpl.
  rewrite back_ins_le in Hbx by lia.
  destruct (L !! S m) as [y|] eqn:Hy; simpl in Hfx |- *.
  - destruct (set_backward_ok h1 (ad y) (backward n)) as (h2 & -> & Hl2 & Hs2 & Hb2).
    { rewrite (proj1 (Hs1 _)). rewrite <- (ins_old L m x Hm) in Hy. by erewrite rep_shape. }
    simpl. destruct (delete_finish z L m x h1 h2 (tail z)) as (k' & -> & Hk' & Hrep); [done..| |by rewrite Hy|].
    { intros b. rewrite Hb2, Hbx, Hy. simpl. repeat case_decide; (done || congruence). }
    simpl. assert (is_Some (h2 !! ad x)) as [n2 Hn2].
    { pose proof (Hs2 (ad x)) as E. unfold stat in E. rewrite Hn in E. by destruct (h2 !! ad x). }
    eexists _, n2. split_and!; [done|done| |done|simpl; lia].
    pose proof (Hs2 (ad x)) as E. unfold stat in E. rewrite Hn, Hn2 in E. simpl in E. congruence.
  - simpl. rewrite Hbx. destruct (delete_finish z L m x h1 h1 (back_of L m)) as (k' & -> & Hk' & Hrep); [done..|intros; by rewrite Hy|by rewrite Hy|]. simpl.
    eexists _, n. split_and!; [done..|simpl; lia].
Qed.

(** ** The sorted list of elements *)

Context `{!ScoreOrder Sc} `{!ObjOrder Obj}.

Abbreviation elt := (Sc * Obj)%type.

(** The order of the list: by score, then by object. *)
Definition klt (a b : elt) : bool := slt a.1 b.1 || seq_ a.1 b.1 && (cmp a.2 b.2 <? 0).
Definition keq (a b : elt) : bool := seq_ a.1 b.1 && (cmp a.2 b.2 =? 0).
Definition sorted (es : list elt) : Prop := forall p q a b, (p < q)%nat -> es !! p = Some a -> es !! q = Some b -> klt a b = true.

Definition describes (L : list cell) (es : list elt) : Prop := Forall2 (fun c e => sc c = e.1 /\ ob c = Some e.2) (drop 1 L) es.
Definition holds (z : zskiplist) (es : list elt) : Prop := sorted es /\ exists L, rep z L /\ describes L es.

Lemma seq_not_slt x y : seq_ x y = true <-> slt x y = false /\ slt y x = false.
Proof. by rewrite seq_spec, andb_true_iff, !negb_true_iff. Qed.
Lemma slt_seq_trans x y w : slt x y = true -> seq_ y w = true -> slt x w = true.
Proof. rewrite seq_not_slt. intros Hxy [? ?]. destruct (slt_total x y w Hxy); [done|congruence]. Qed.
Lemma seq_slt_trans x y w : seq_ x y = true -> slt y w = true -> slt x w = true.
Proof. rewrite seq_not_slt. intros [? ?] Hyw. destruct (slt_total y w x Hyw); [congruence|done]. Qed.
Lemma seq_trans x y w : seq_ x y = true -> seq_ y w = true -> seq_ x w = true.
Proof.
  rewrite !seq_not_slt. intros [? ?] [? ?]. split; apply not_true_is_false; intros Hs;
    destruct (slt_total _ _ y Hs); congruence.
Qed.
Lemma seq_sym x y : seq_ x y = seq_ y x.
Proof. by rewrite !seq_spec, andb_comm. Qed.

Lemma cmp_zero_sym x y : cmp x y = 0 -> cmp y x = 0.
Proof. intros E. pose proof (cmp_anti x y). pose proof (cmp_anti y x). lia. Qed.
Lemma cmp_zero_lt x y w : cmp x y = 0 -> cmp y w < 0 -> cmp x w < 0.
Proof. intros E Hl. destruct (cmp_total y w x Hl) as [Hy|]; [|done]. apply cmp_zero_sym in E. lia. Qed.
Lemma cmp_lt_zero x y w : cmp x y < 0 -> cmp y w = 0 -> cmp x w < 0.
Proof. intros Hl E. destruct (cmp_total x y w Hl) as [|Hy]; [done|]. apply cmp_zero_sym in E. lia. Qed.

Lemma klt_trans a b c : klt a b = true -> klt b c = true -> klt a c = true.
Proof.
  unfold klt. rewrite !orb_true_iff, !andb_true_iff, !Z.ltb_lt. intros [H1|[H1 H1']] [H2|[H2 H2']].
  - left. by eapply slt_trans.
  - left. by eapply slt_seq_trans.
  - left. by eapply seq_slt_trans.
  - right. split; [by eapply seq_trans|by eapply cmp_trans].
Qed.

Lemma keq_klt a b c : keq a b = true -> klt b c = true -> klt a c = true.
Proof.
  unfold keq, klt. rewrite !orb_true_iff, !andb_true_iff, !Z.ltb_lt, Z.eqb_eq. intros [H1 H1'] [H2|[H2 H2']].
  - left. by eapply seq_slt_trans.
  - right. split; [by eapply seq_trans|by eapply cmp_zero_lt].
Qed.

Lemma klt_irrefl a : klt a a = false.
Proof. unfold klt. rewrite slt_irrefl, cmp_refl. simpl. apply andb_false_r. Qed.

Lemma keq_sym a b : keq a b = true -> keq b a = true.
Proof. unfold keq. rewrite !andb_true_iff, !Z.eqb_eq. intros [H1 H2%cmp_zero_sym]. by rewrite seq_sym. Qed.

Lemma klt_total a b : klt a b = false -> keq a b = false -> klt b a = true.
Proof.
  unfold klt, keq. rewrite orb_false_iff, !andb_false_iff, Z.ltb_ge, Z.eqb_neq, orb_true_iff, andb_true_iff, Z.ltb_lt.
  intros [H1 H2] H3. destruct (slt b.1 a.1) eqn:E; [by left|right].
  assert (Hs : seq_ a.1 b.1 = true) by (by rewrite seq_spec, H1, E).
  split; [by rewrite seq_sym|]. rewrite Hs in H2, H3. destruct H2 as [?|H2], H3 as [?|H3]; try done. apply cmp_anti. lia.
Qed.

(** A test that holds on a prefix. *)
Definition splits (t : elt -> bool) (m : nat) (es : list elt) : Prop :=
  (m <= length es)%nat /\ forall p e, es !! p = Some e -> t e = (p <? m)%nat.

Lemma split_point t es : (forall p q a b, (p < q)%nat -> es !! p = Some a -> es !! q = Some b -> t b = true -> t a = true) ->
  exists m, splits t m es.
Proof.
  induction es as [|e es IH]; intros Hmono; [exists O; split; [done|intros ? ? ?]; done|].
  destruct IH as (m & Hm & Ht); [intros p q a b Hpq Ha Hb; by apply (Hmono (S p) (S q)); [lia|..]|].
  destruct (t e) eqn:He.
  - exists (S m). split; [simpl; lia|]. intros [|p] a Ha; simpl in Ha; [injection Ha as <-; by rewrite He|]. rewrite (Ht p) by done.
    by destruct (Nat.ltb_spec p m), (Nat.ltb_spec (S p) (S m)); try lia.
  - exists O. split; [lia|]. intros p a Ha. destruct p as [|p]; simpl in Ha; [injection Ha as <-; by rewrite He|].
    apply not_true_is_false. intros E. rewrite (Hmono O (S p) e a) in He by (done || lia). done.
Qed.

Lemma filter_split t m es : splits t m es -> filter (fun e => t e = true) es = take m es /\ filter (fun e => t e = false) es = drop m es.
Proof.
  intros [Hm Ht]. rewrite <- (take_drop m es) at 1 3. rewrite !filter_app.
  assert (H1 : forall e, e ∈ take m es -> t e = true).
  { intros e (p & Hp)%list_elem_of_lookup. apply lookup_take_Some in Hp as [Hp Hlt]. rewrite (Ht _ _ Hp). by apply Nat.ltb_lt. }
  assert (H2 : forall e, e ∈ drop m es -> t e = false).
  { intros e (p & Hp)%list_elem_of_lookup. rewrite lookup_drop in Hp. rewrite (Ht _ _ Hp). apply Nat.ltb_ge. lia. }
  split.
  - rewrite (filter_every _ (take m es)) by (by apply Forall_forall). rewrite (filter_none _ (drop m es)), app_nil_r; [done|].
    intros e He. rewrite H2 by done. done.
  - rewrite (filter_none _ (take m es)); [|intros e He; rewrite H1 by done; done]. apply filter_every. by apply Forall_forall.
Qed.

(** ** Cells and elements *)

Lemma describes_lookup L es p c : describes L es -> L !! S p = Some c -> exists e, es !! p = Some e /\ sc c = e.1 /\ ob c = Some e.2.
Proof. intros Hd Hc. eapply Forall2_lookup_l in Hd as (e & ? & ? & ?); [eauto|]. by rewrite lookup_drop. Qed.
Lemma describes_lookup_r L es p e : describes L es -> es !! p = Some e -> exists c, L !! S p = Some c /\ sc c = e.1 /\ ob c = Some e.2.
Proof. intros Hd Hc. eapply Forall2_lookup_r in Hd as (c & Hc' & ? & ?); [|done]. rewrite lookup_drop in Hc'. eauto. Qed.
Lemma describes_length z L es : rep z L -> describes L es -> length L = S (length es).
Proof.
  intros Hr Hd%Forall2_length. destruct (rep_header _ _ Hr) as (c & Hc%lookup_lt_Some & _). rewrite length_drop in Hd. lia.
Qed.

Lemma describes_ins L es m x e : describes L es -> (m < length L)%nat -> sc x = e.1 -> ob x = Some e.2 ->
  describes (ins L m x) (take m es ++ e :: drop m es).
Proof.
  intros Hd Hm H1 H2. destruct L as [|c L]; [simpl in Hm; lia|]. unfold describes, ins in *. simpl in *. rewrite drop_0 in *.
  apply Forall2_app; [by apply Forall2_take|]. constructor; [done|by apply Forall2_drop].
Qed.

Lemma describes_del L es m x : describes (ins L m x) es -> (m < length L)%nat -> describes L (take m es ++ drop (S m) es).
Proof.
  intros Hd Hm. destruct L as [|c L]; [simpl in Hm; lia|]. unfold describes, ins in *. simpl in *. rewrite drop_0 in *.
  apply Forall2_app_inv_l in Hd as (es1 & es2 & Hd1 & Hd2 & ->). pose proof (Forall2_length _ _ _ Hd1) as Hl1. rewrite length_take in Hl1.
  apply Forall2_cons_inv_l in Hd2 as (e & es2' & _ & Hd2 & ->).
  rewrite take_app_length' by lia. rewrite drop_app_ge by lia. replace (S m - length es1)%nat with 1%nat by lia. simpl. rewrite drop_0.
  rewrite <- (take_drop m L). by apply Forall2_app.
Qed.

Lemma lookup_mid (es : list elt) m e p : (m <= length es)%nat ->
  (take m es ++ e :: drop m es) !! p = if (p <? m)%nat then es !! p else if (p =? m)%nat then Some e else es !! (p - 1)%nat.
Proof.
  intros Hm. destruct (Nat.ltb_spec p m).
  - rewrite lookup_app_l by (rewrite length_take; lia). by apply lookup_take_lt.
  - rewrite lookup_app_r by (rewrite length_take; lia). rewrite length_take, Nat.min_l by lia.
    destruct (Nat.eqb_spec p m) as [->|]; [by rewrite Nat.sub_diag|].
    replace (p - m)%nat with (S (p - 1 - m)) by lia. simpl. rewrite lookup_drop. f_equal. lia.
Qed.

Lemma lookup_cut (es : list elt) m k p : (m <= length es)%nat ->
  (take m es ++ drop k es) !! p = if (p <? m)%nat then es !! p else es !! (p - m + k)%nat.
Proof.
  intros Hm. destruct (Nat.ltb_spec p m).
  - rewrite lookup_app_l by (rewrite length_take; lia). by apply lookup_take_lt.
  - rewrite lookup_app_r by (rewrite length_take; lia). rewrite length_take, Nat.min_l, lookup_drop by lia. f_equal. lia.
Qed.

Lemma sorted_mid es m e : sorted es -> splits (fun a => klt a e) m es -> (forall a, a ∈ es -> keq a e = false) ->
  sorted (take m es ++ e :: drop m es).
Proof.
  intros Hs [Hm Ht] Hn p q a b Hpq Ha Hb. rewrite lookup_mid in Ha, Hb by done.
  assert (Hbelow : forall p a, (p < m)%nat -> es !! p = Some a -> klt a e = true) by (intros p' a' ? Hp'; rewrite (Ht _ _ Hp'); by apply Nat.ltb_lt).
  assert (Habove : forall p a, (m <= p)%nat -> es !! p = Some a -> klt e a = true).
  { intros p' a' ? Hp'. apply klt_total; [rewrite (Ht _ _ Hp'); by apply Nat.ltb_ge|]. apply Hn. by eapply list_elem_of_lookup_2. }
  destruct (Nat.ltb_spec p m), (Nat.ltb_spec q m); [by apply (Hs p q)| |lia|].
  - destruct (Nat.eqb_spec q m); [injection Hb as <-; by eapply Hbelow|]. by apply (Hs p (q - 1)%nat); [lia|..].
  - destruct (Nat.eqb_spec q m); [lia|]. destruct (Nat.eqb_spec p m); [injection Ha as <-; by eapply Habove; [|done]; lia|].
    by apply (Hs (p - 1)%nat (q - 1)%nat); [lia|..].
Qed.

Lemma sorted_cut es m k : sorted es -> (m <= k)%nat -> (m <= length es)%nat -> sorted (take m es ++ drop k es).
Proof.
  intros Hs Hk Hm p q a b Hpq Ha Hb. rewrite lookup_cut in Ha, Hb by done.
  destruct (Nat.ltb_spec p m), (Nat.ltb_spec q m); [by apply (Hs p q)| |lia|]; (eapply Hs; [|done..]; lia).
Qed.

(** ** Searches *)

Definition agrees (test : zskiplistNode -> option bool) (t : elt -> bool) : Prop :=
  forall n o, obj n = Some o -> test n = Some (t (score n, o)).

Lemma before_agrees s o : agrees (before s o) (fun a => klt a (s, o)).
Proof. intros n o' Ho. unfold before, klt. simpl. destruct (slt (score n) s); [done|]. destruct (seq_ (score n) s); [by rewrite Ho|done]. Qed.

Section searches.
Context (z : zskiplist) (L : list cell) (es : list elt) (Hr : rep z L) (Hd : describes L es).

Lemma node_elt q d n' : L !! S q = Some d -> mem z !! ad d = Some n' -> exists e, es !! q = Some e /\ score n' = e.1 /\ obj n' = Some e.2.
Proof.
  intros Hq Hn. destruct (describes_lookup _ _ _ _ Hd Hq) as (e & He & Hs & Ho).
  destruct (rep_node _ _ _ _ Hr Hq) as (n & Hn' & ? & ?). assert (n = n') as -> by congruence. exists e. split_and!; congruence.
Qed.

Lemma test_next test t m q d n' : agrees test t -> splits t m es -> L !! S q = Some d -> mem z !! ad d = Some n' ->
  test n' = Some (S q <=? m)%nat.
Proof.
  intros Ha [Hm Ht] Hq Hn. destruct (node_elt _ _ _ Hq Hn) as (e & He & Hs & Ho). rewrite (Ha _ _ Ho), Hs. f_equal.
  replace (e.1, e.2) with e by (by destruct e). by rewrite (Ht _ _ He).
Qed.

Lemma follows_plain test t m : agrees test t -> splits t m es -> follows (go_plain test) (mem z) L m (fun _ => 0).
Proof.
  intros Ha Ht i p q c d n n' Hc Hq Hpq Hn Hn' Hcr. destruct q as [|q]; [lia|]. unfold go_plain.
  erewrite test_next by done. simpl. by destruct (S q <=? m)%nat.
Qed.

Lemma follows_rank test t m : agrees test t -> splits t m es -> follows (go_rank test) (mem z) L m Z.of_nat.
Proof.
  intros Ha Ht i p q c d n n' Hc Hq Hpq Hn Hn' Hcr. destruct q as [|q]; [lia|]. unfold go_rank.
  erewrite test_next by done. cbn [mbind option_bind]. destruct (S q <=? m)%nat; [|done]. rewrite Hcr. cbn [mbind option_bind].
  pose proof (rep_bound _ _ Hr). pose proof (lookup_lt_Some _ _ _ Hq). rewrite wrapu_id; [do 2 f_equal; lia|unfold in_u; lia].
Qed.

Lemma follows_below (test : Z -> bool) m : (forall q, (0 < q <= length es)%nat -> test (Z.of_nat q) = (q <=? m)%nat) ->
  follows (go_below test) (mem z) L m Z.of_nat.
Proof.
  intros Ht i p q c d n n' Hc Hq Hpq Hn Hn' Hcr. unfold go_below. rewrite Hcr. cbn [mbind option_bind].
  pose proof (rep_bound _ _ Hr). pose proof (lookup_lt_Some _ _ _ Hq) as Hlt. rewrite (describes_length _ _ _ Hr Hd) in Hlt.
  rewrite wrapu_id by (rewrite (describes_length _ _ _ Hr Hd) in *; unfold in_u; lia).
  replace (Z.of_nat p + (Z.of_nat q - Z.of_nat p)) with (Z.of_nat q) by lia. by rewrite Ht by lia.
Qed.

(** A search ends at [m], with the arrays for [m]. *)
Lemma search_at go m R : (m <= length es)%nat -> follows go (mem z) L m R -> R 0%nat = 0 ->
  exists c l, search go z = Some (ad c, R m, l) /\ L !! m = Some c /\ length l = level z /\ updates L m (level z) R l.
Proof.
  intros Hm Hgo HR. pose proof (describes_length _ _ _ Hr Hd) as Hlen.
  destruct (search_ends z L Hr go m R ltac:(lia) Hgo HR) as (c & l & ? & ? & ? & Hl). exists c, l. split_and!; [done..|].
  intros j Hj. destruct (Hl j Hj) as (a & r & Hlj & p & c' & ? & -> & -> & ?). eauto.
Qed.

Lemma next_of m c : L !! m = Some c -> get_forward (mem z) (ad c) 0 = Some (ad <$> L !! S m).
Proof. pose proof (rep_levels _ _ Hr). apply forward_zero; [by intros; eapply rep_positive|apply Hr; lia]. Qed.
End searches.

Lemma klt_splits es e : sorted es -> exists m, splits (fun a => klt a e) m es.
Proof. intros Hs. apply split_point. intros p q a b Hpq Ha Hb Hbe. eapply klt_trans; [by eapply (Hs p q)|done]. Qed.

Lemma klt_slt a b s : klt a b = true -> slt b.1 s = true -> slt a.1 s = true.
Proof. unfold klt. rewrite orb_true_iff, andb_true_iff. intros [?|[? _]] ?; [by eapply slt_trans|by eapply seq_slt_trans]. Qed.

Lemma slt_splits es s : sorted es -> exists m, splits (fun a => slt a.1 s) m es.
Proof. intros Hs. apply split_point. intros p q a b Hpq Ha Hb. by eapply klt_slt, (Hs p q). Qed.

(** ** The operations on the elements *)

Definition spec_insert (e : elt) (es : list elt) : list elt :=
  filter (fun a => klt a e = true) es ++ e :: filter (fun a => klt a e = false) es.

Lemma insert_refines z es s o k : holds z es -> (1 <= k <= ZSKIPLIST_MAXLEVEL)%nat -> Z.of_nat (length es) + 2 < 2 ^ 32 ->
  (forall a, a ∈ es -> keq a (s, o) = false) ->
  exists z', zslInsert z s o k = Some z' /\ holds z' (spec_insert (s, o) es).
Proof.
  intros (Hs & L & Hr & Hd) Hk Hlen Hnew. destruct (klt_splits es (s, o) Hs) as [m Hm]. pose proof Hm as [Hml _].
  pose proof (describes_length _ _ _ Hr Hd) as HL.
  destruct (search_at z L es Hr Hd _ m Z.of_nat Hml (follows_rank z L es Hr Hd _ _ m (before_agrees s o) Hm) eq_refl)
    as (c & l & E & Hc & Hl & Hu).
  destruct (insert_cells z L m s o k l (ad c) (Z.of_nat m)) as (z' & x & -> & Hr'); [done|lia|done|lia|done..|].
  exists z'. split; [done|]. unfold spec_insert. destruct (filter_split _ _ _ Hm) as [-> ->].
  split; [by apply sorted_mid|]. eexists. split; [done|]. by apply describes_ins; [|lia|..].
Qed.

Lemma klt_keq a b c : klt a b = true -> keq b c = true -> klt a c = true.
Proof.
  unfold keq, klt. rewrite !orb_true_iff, !andb_true_iff, !Z.ltb_lt, Z.eqb_eq. intros [H1|[H1 H1']] [H2 H2'].
  - left. by eapply slt_seq_trans.
  - right. split; [by eapply seq_trans|by eapply cmp_lt_zero].
Qed.

(** An element equal to the key can only be at the split. *)
Lemma keq_only es e m p a : sorted es -> splits (fun a => klt a e) m es -> es !! p = Some a -> keq a e = true -> p = m.
Proof.
  intros Hs [Hm Ht] Hp He. destruct (lt_eq_lt_dec p m) as [[Hlt|?]|Hlt]; [|done|].
  - pose proof (Ht _ _ Hp) as E. assert (klt a e = true) as Hk by (rewrite E; by apply Nat.ltb_lt).
    pose proof (keq_klt e a e (keq_sym _ _ He) Hk) as F. by rewrite klt_irrefl in F.
  - pose proof (lookup_lt_Some _ _ _ Hp). destruct (lookup_lt_is_Some_2 es m) as [b Hb]; [lia|].
    assert (klt b e = true) as Hk by (eapply klt_keq; [by eapply (Hs m p)|done]).
    rewrite (Ht _ _ Hb), Nat.ltb_irrefl in Hk. done.
Qed.

Definition cut (L : list cell) (m : nat) : list cell := take (S m) L ++ drop (S (S m)) L.

Lemma cut_ok L m x : L !! S m = Some x -> ins (cut L m) m x = L /\ (m < length (cut L m))%nat.
Proof.
  intros Hx. pose proof (lookup_lt_Some _ _ _ Hx) as Hlt. unfold cut, ins. split; [|rewrite length_app, length_take; lia].
  rewrite take_app_length' by (rewrite length_take; lia). rewrite drop_app_length' by (rewrite length_take; lia).
  by apply take_drop_middle.
Qed.

Lemma updates_cut L m x M R l : (m < length L)%nat -> updates (ins L m x) m M R l -> updates L m M R l.
Proof.
  intros Hm Hu j Hj. destruct (Hu j Hj) as (p & c & E & Hc & Hp & (d & Hd & Hdj) & Hb).
  exists p, c. rewrite <- (shift_le m p) in Hc, Hd by done. rewrite ins_old in Hc, Hd by done. split_and!; [done..|].
  split_and!; [done|eauto|]. intros r e Hr He. apply (Hb r); [done|]. by rewrite <- (shift_le m r), ins_old by lia.
Qed.

(** One node after the split is deleted. *)
Lemma delete_at z L es m x R l : rep z L -> describes L es -> L !! S m = Some x -> updates L m (level z) R l ->
  exists z' n, zslDeleteNode z (ad x) l = Some z' /\ mem z' !! ad x = Some n /\ obj n = ob x /\
    rep (zslFreeNode z' (ad x)) (cut L m) /\ describes (cut L m) (take m es ++ drop (S m) es) /\
    updates (cut L m) m (level (zslFreeNode z' (ad x))) R l.
Proof.
  intros Hr Hd Hx Hu. destruct (cut_ok _ _ _ Hx) as [E Hm]. rewrite <- E in Hr, Hd, Hu.
  apply updates_cut in Hu; [|done].
  destruct (delete_cells _ _ _ _ _ _ Hr Hm Hu) as (z' & n & ? & ? & ? & ? & Hlev). exists z', n. split_and!; try done.
  - by eapply describes_del.
  - intros j Hj. apply Hu. lia.
Qed.

Definition spec_delete (e : elt) (es : list elt) : list elt := filter (fun a => keq a e = false) es.
Definition present (e : elt) (es : list elt) : bool := existsb (fun a => keq a e) es.

Lemma present_false e es : present e es = false <-> forall p a, es !! p = Some a -> keq a e = false.
Proof.
  unfold present. split.
  - intros Hp p a Ha. apply not_true_is_false. intros E. apply not_true_iff_false in Hp. apply Hp. apply existsb_exists.
    exists a. split; [|done]. by eapply list_elem_of_In, list_elem_of_lookup_2.
  - intros Hn. apply not_true_is_false. intros (a & Ha & E)%existsb_exists. apply list_elem_of_In, list_elem_of_lookup in Ha as [p Hp].
    by rewrite (Hn _ _ Hp) in E.
Qed.

Lemma delete_mid es e m b : sorted es -> splits (fun a => klt a e) m es -> es !! m = Some b -> keq b e = true ->
  spec_delete e es = take m es ++ drop (S m) es /\ present e es = true.
Proof.
  intros Hs Hm Hb He. split.
  - unfold spec_delete. rewrite <- (take_drop_middle es m b Hb) at 1. rewrite filter_app, filter_cons, decide_False by (rewrite He; done).
    rewrite !filter_every; [done| |]; apply Forall_forall; intros a (p & Hp)%list_elem_of_lookup; apply not_true_is_false; intros Ha.
    + rewrite lookup_drop in Hp. pose proof (keq_only _ _ _ _ _ Hs Hm Hp Ha). lia.
    + apply lookup_take_Some in Hp as [Hp Hlt]. pose proof (keq_only _ _ _ _ _ Hs Hm Hp Ha). lia.
  - destruct (present e es) eqn:E; [done|]. rewrite present_false in E. by rewrite (E _ _ Hb) in He.
Qed.

Lemma delete_refines z es s o : holds z es ->
  exists z', zslDelete z s o = Some (z', if present (s, o) es then 1 else 0) /\ holds z' (spec_delete (s, o) es).
Proof.
  intros (Hs & L & Hr & Hd). destruct (klt_splits es (s, o) Hs) as [m Hm]. pose proof Hm as [Hml _].
  pose proof (describes_length _ _ _ Hr Hd) as HL.
  destruct (search_at z L es Hr Hd _ m _ Hml (follows_plain z L es Hr Hd _ _ m (before_agrees s o) Hm) eq_refl) as (c & l & E & Hc & Hl & Hu).
  unfold zslDelete. rewrite E. simpl. rewrite (next_of z L Hr m c Hc). simpl.
  assert (Hno : (forall b, es !! m = Some b -> keq b (s, o) = false) -> present (s, o) es = false /\ spec_delete (s, o) es = es).
  { intros Hb. assert (Hp : present (s, o) es = false).
    { apply present_false. intros p a Ha. apply not_true_is_false. intros Ek.
      pose proof (keq_only _ _ _ _ _ Hs Hm Ha Ek) as ->. by rewrite (Hb _ Ha) in Ek. }
    split; [done|]. unfold spec_delete. apply filter_every, Forall_forall. intros a (p & Hp')%list_elem_of_lookup. rewrite present_false in Hp. eauto. }
  destruct (L !! S m) as [y|] eqn:Hy; simpl; cycle 1.
  { destruct Hno as [-> ->]; [|exists z; split; [done|split; eauto]]. intros b Hb.
    destruct (describes_lookup_r _ _ _ _ Hd Hb) as (d & Hd' & _). congruence. }
  destruct (rep_node _ _ _ _ Hr Hy) as (n & Hn & _). rewrite Hn. simpl.
  destruct (node_elt z L es Hr Hd m y n Hy Hn) as (b & Hb & Hsc & Hob). rewrite Hsc, Hob. simpl.
  replace (if seq_ s b.1 then Some (equal b.2 o) else Some false) with (Some (keq b (s, o))); cycle 1.
  { unfold keq. simpl. rewrite (seq_sym s), equal_spec. by destruct (seq_ b.1 s). }
  simpl. destruct (keq b (s, o)) eqn:Ek.
  - destruct (delete_at z L es m y _ l Hr Hd Hy Hu) as (z' & n' & -> & _ & _ & Hr' & Hd' & _). simpl.
    destruct (delete_mid _ _ _ _ Hs Hm Hb Ek) as [-> ->]. eexists. split; [done|].
    split; [apply sorted_cut; [done|lia|lia]|eauto].
  - destruct Hno as [-> ->]; [|exists z; split; [done|split; eauto]]. intros b' Hb'. congruence.
Qed.

(** The loop of the range deletions removes the [k] elements after the split. *)
Lemma delete_loop_ok k fuel test z L es m t R l :
  sorted es -> rep z L -> describes L es -> updates L m (level z) R l -> (m + k <= length es)%nat -> (k < fuel)%nat ->
  0 <= t -> t + Z.of_nat k < 2 ^ 32 ->
  (forall j e n, (j < k)%nat -> es !! (m + j)%nat = Some e -> score n = e.1 -> test (t + Z.of_nat j) n = true) ->
  (forall e n, es !! (m + k)%nat = Some e -> score n = e.1 -> test (t + Z.of_nat k) n = false) ->
  exists z', delete_loop fuel test z (ad <$> L !! S m) t l = Some (z', (take k (drop m es)).*2) /\ holds z' (take m es ++ drop (m + k) es).
Proof.
  revert fuel z L es t. induction k as [|k IH]; intros fuel z L es t Hs Hr Hd Hu Hk Hf Ht Htk Hin Hout.
  - destruct fuel as [|fuel]; [lia|]. exists z. rewrite Nat.add_0_r, take_drop. split; [|split; [done|eauto]]. cbn [delete_loop].
    destruct (L !! S m) as [x|] eqn:Hx; simpl; [|done]. destruct (rep_node _ _ _ _ Hr Hx) as (n & Hn & _). rewrite Hn. simpl.
    destruct (node_elt z L es Hr Hd m x n Hx Hn) as (b & Hb & Hsc & Hob).
    assert (test t n = false) as -> by (rewrite <- (Z.add_0_r t); apply (Hout b); [by rewrite Nat.add_0_r|done]). done.
  - destruct fuel as [|fuel]; [lia|]. destruct (lookup_lt_is_Some_2 es m) as [b Hb]; [lia|].
    destruct (describes_lookup_r _ _ _ _ Hd Hb) as (x & Hx & _ & Hbo). rewrite Hx. cbn [delete_loop fmap option_fmap option_map].
    destruct (rep_node _ _ _ _ Hr Hx) as (n & Hn & Hsc & _). rewrite Hn. cbn [mbind option_bind].
    destruct (node_elt z L es Hr Hd m x n Hx Hn) as (b' & Hb' & Hsc' & _). assert (b' = b) as -> by congruence.
    assert (test t n = true) as -> by (rewrite <- (Z.add_0_r t); apply (Hin O b); [lia|by rewrite Nat.add_0_r|done]).
    pose proof (next_of z L Hr (S m) x Hx) as Hnx. unfold get_forward in Hnx. rewrite Hn in Hnx. simpl in Hnx. rewrite Hnx. cbn [mbind option_bind].
    destruct (delete_at z L es m x R l Hr Hd Hx Hu) as (z' & n' & -> & Hn' & Hob' & Hr' & Hd' & Hu'). cbn [mbind option_bind].
    rewrite Hn'. cbn [mbind option_bind]. rewrite Hob', Hbo. cbn [mbind option_bind]. clear Hnx.
    destruct (cut_ok _ _ _ Hx) as [Ecut Hm]. rewrite wrapu_id by (unfold in_u; lia).
    replace (L !! S (S m)) with (cut L m !! S m) by (rewrite <- (ins_old (cut L m) m x Hm), shift_gt, Ecut by lia; done).
    pose proof (fun p => lookup_cut es m (S m) p ltac:(lia)) as Hlk.
    destruct (IH fuel _ _ (take m es ++ drop (S m) es) (t + 1) ltac:(by apply sorted_cut; [|lia..]) Hr' Hd' Hu') as (z2 & -> & Hz2); [| lia..| | |].
    + rewrite length_app, length_take, length_drop. lia.
    + intros j e n2 Hj He Hs2. rewrite Hlk in He. destruct (Nat.ltb_spec (m + j) m); [lia|].
      replace (t + 1 + Z.of_nat j) with (t + Z.of_nat (S j)) by lia. apply (Hin (S j) e); [lia| |done]. by replace (m + S j)%nat with (m + j - m + S m)%nat by lia.
    + intros e n2 He Hs2. rewrite Hlk in He. destruct (Nat.ltb_spec (m + k) m); [lia|].
      replace (t + 1 + Z.of_nat k) with (t + Z.of_nat (S k)) by lia. apply (Hout e); [|done]. by replace (m + S k)%nat with (m + k - m + S m)%nat by lia.
    + rewrite take_app_length', drop_app_ge in Hz2 by (rewrite length_take; lia). rewrite length_take, Nat.min_l, drop_drop in Hz2 by lia.
      rewrite drop_app_length' by (rewrite length_take; lia). rewrite (drop_S _ _ _ Hb). cbn [mbind option_bind].
      exists z2. split; [done|]. by replace (m + S k)%nat with (S m + (m + k - m))%nat by lia.
Qed.

Lemma filter_range (t : elt -> bool) m k es : (m + k <= length es)%nat -> (forall p e, es !! p = Some e -> t e = (m <=? p)%nat && (p <? m + k)%nat) ->
  filter (fun e => t e = true) es = take k (drop m es) /\ filter (fun e => t e = false) es = take m es ++ drop (m + k) es.
Proof.
  intros Hm Ht. rewrite <- (take_drop m es) at 1 3. rewrite <- (take_drop k (drop m es)) at 1 3. rewrite !filter_app, drop_drop.
  assert (H1 : forall e, e ∈ take m es -> t e = false).
  { intros e (p & Hp)%list_elem_of_lookup. apply lookup_take_Some in Hp as [Hp Hlt]. rewrite (Ht _ _ Hp). destruct (Nat.leb_spec m p); [lia|done]. }
  assert (H2 : forall e, e ∈ take k (drop m es) -> t e = true).
  { intros e (p & Hp)%list_elem_of_lookup. apply lookup_take_Some in Hp as [Hp Hlt]. rewrite lookup_drop in Hp. rewrite (Ht _ _ Hp).
    apply andb_true_iff. split; [apply Nat.leb_le|apply Nat.ltb_lt]; lia. }
  assert (H3 : forall e, e ∈ drop (m + k) es -> t e = false).
  { intros e (p & Hp)%list_elem_of_lookup. rewrite lookup_drop in Hp. rewrite (Ht _ _ Hp). apply andb_false_iff. right. apply Nat.ltb_ge. lia. }
  split.
  - rewrite (filter_none _ (take m es)), (filter_none _ (drop (m + k) es)), (filter_every _ (take k _)), app_nil_r; [done|by apply Forall_forall|..];
      intros e He; rewrite ?H1, ?H3 by done; done.
  - rewrite (filter_every _ (take m es)), (filter_every _ (drop (m + k) es)), (filter_none _ (take k _)); [done|..];
      [intros e He; rewrite H2 by done; done|by apply Forall_forall..].
Qed.

Definition in_range (min max : Sc) (a : elt) : bool := negb (slt a.1 min) && (slt a.1 max || seq_ a.1 max).
Definition spec_score_range (min max : Sc) (es : list elt) : list elt * list elt :=
  (filter (fun a => in_range min max a = false) es, filter (fun a => in_range min max a = true) es).

Lemma le_splits es s : sorted es -> exists m, splits (fun a => slt a.1 s || seq_ a.1 s) m es.
Proof.
  intros Hs. apply split_point. intros p q a b Hpq Ha Hb. pose proof (Hs p q a b Hpq Ha Hb) as Hk. revert Hk. unfold klt.
  rewrite !orb_true_iff, andb_true_iff. intros [?|[? _]] [?|?]; [left; by eapply slt_trans|left; by eapply slt_seq_trans|left; by eapply seq_slt_trans|right; by eapply seq_trans].
Qed.

Lemma plain_agrees s : agrees (fun n => Some (slt (score n) s)) (fun a => slt a.1 s).
Proof. done. Qed.

Lemma score_range_refines z es min max : holds z es ->
  exists z', zslDeleteRangeByScore z min max = Some (z', (spec_score_range min max es).2.*2) /\ holds z' (spec_score_range min max es).1.
Proof.
  intros (Hs & L & Hr & Hd). destruct (slt_splits es min Hs) as [m Hm], (le_splits es max Hs) as [m2 [Hm2 Ht2]]. pose proof Hm as [Hml Ht].
  pose proof (describes_length _ _ _ Hr Hd) as HL. pose proof (rep_bound _ _ Hr) as Hb. pose proof (rep_steps _ _ Hr).
  destruct (search_at z L es Hr Hd _ m _ Hml (follows_plain z L es Hr Hd _ _ m (plain_agrees min) Hm) eq_refl) as (c & l & E & Hc & Hl & Hu).
  unfold zslDeleteRangeByScore. rewrite E. cbn [mbind option_bind]. rewrite (next_of z L Hr m c Hc). cbn [mbind option_bind].
  destruct (filter_range (in_range min max) m (m2 - m) es) as [F1 F2]; [lia| |].
  { intros p e He. unfold in_range. rewrite (Ht _ _ He), (Ht2 _ _ He).
    destruct (Nat.ltb_spec p m), (Nat.leb_spec m p), (Nat.ltb_spec p m2), (Nat.ltb_spec p (m + (m2 - m))); (lia || done). }
  unfold spec_score_range. cbn [fst snd]. rewrite F1, F2.
  eapply (delete_loop_ok (m2 - m)); try done; try lia.
  - intros j e n Hj He ->. rewrite (Ht2 _ _ He). apply Nat.ltb_lt. lia.
  - intros e n He ->. rewrite (Ht2 _ _ He). apply Nat.ltb_ge. lia.
Qed.

Definition spec_rank_range (start end_ : Z) (es : list elt) : list elt * list elt :=
  let a := Z.to_nat (start - 1) in let b := Z.to_nat end_ in
  (take a es ++ drop (Nat.max a b) es, take (b - a) (drop a es)).

Lemma rank_range_refines z es start end_ : holds z es -> in_u 32 start -> in_u 32 end_ ->
  exists z', zslDeleteRangeByRank z start end_ = Some (z', (spec_rank_range start end_ es).2.*2) /\ holds z' (spec_rank_range start end_ es).1.
Proof.
  intros (Hs & L & Hr & Hd) Hst Hen. unfold in_u in *. set (a := Z.to_nat (start - 1)). set (b := Z.to_nat end_). set (n := length es).
  set (m := Nat.min a n). set (k := (Nat.min b n - m)%nat).
  pose proof (describes_length _ _ _ Hr Hd) as HL. pose proof (rep_bound _ _ Hr) as Hb. pose proof (rep_steps _ _ Hr).
  destruct (search_at z L es Hr Hd (go_below (fun r => r <? start)) m Z.of_nat ltac:(lia)) as (c & l & E & Hc & Hl & Hu); [|done|].
  { apply (follows_below z L es Hr Hd). intros q Hq. destruct (Z.ltb_spec (Z.of_nat q) start), (Nat.leb_spec q m); lia. }
  unfold zslDeleteRangeByRank. rewrite E. cbn [mbind option_bind]. rewrite (next_of z L Hr m c Hc). cbn [mbind option_bind].
  rewrite wrapu_id by (unfold in_u; lia).
  assert (spec_rank_range start end_ es = (take m es ++ drop (m + k) es, take k (drop m es))) as ->.
  { unfold spec_rank_range. fold a b. destruct (decide (a <= n)%nat) as [Ha|Ha].
    - replace a with m by lia. f_equal; [f_equal|].
      + destruct (decide (Nat.max m b <= n)%nat); [f_equal; lia|]. rewrite !drop_ge by lia. done.
      + destruct (decide (b <= n)%nat); [f_equal; lia|]. rewrite !take_ge by (rewrite length_drop; lia). done.
    - rewrite !(take_ge es), !(drop_ge es), !take_nil by lia. done. }
  cbn [fst snd]. eapply (delete_loop_ok k); try done; try lia.
  intros e n' He%lookup_lt_Some _. apply Z.leb_gt. lia.
Qed.

(** ** Queries *)

(** The node at an address holds an element. *)
Definition points (z : zskiplist) (r : ptr) (oe : option elt) : Prop :=
  match r, oe with
  | Some a, Some e => exists n, mem z !! a = Some n /\ score n = e.1 /\ obj n = Some e.2
  | None, None => True
  | _, _ => False
  end.

Lemma points_cell z L es p : rep z L -> describes L es -> points z (ad <$> L !! S p) (es !! p).
Proof.
  intros Hr Hd. destruct (L !! S p) as [c|] eqn:Hc; simpl.
  - destruct (describes_lookup _ _ _ _ Hd Hc) as (e & -> & ? & ?). destruct (rep_node _ _ _ _ Hr Hc) as (n & ? & ? & ?). exists n. split_and!; congruence.
  - destruct (es !! p) as [e|] eqn:He; [|done]. destruct (describes_lookup_r _ _ _ _ Hd He) as (c & ? & _). congruence.
Qed.

Lemma first_refines z es s : holds z es ->
  exists r, zslFirstWithScore z s = Some r /\ points z r (head (filter (fun a => slt a.1 s = false) es)).
Proof.
  intros (Hs & L & Hr & Hd). destruct (slt_splits es s Hs) as [m Hm]. pose proof Hm as [Hml _].
  destruct (search_at z L es Hr Hd _ m _ Hml (follows_plain z L es Hr Hd _ _ m (plain_agrees s) Hm) eq_refl) as (c & l & E & Hc & Hl & Hu).
  unfold zslFirstWithScore. rewrite E. simpl. rewrite (next_of z L Hr m c Hc). eexists. split; [done|].
  destruct (filter_split _ _ _ Hm) as [_ ->]. rewrite head_lookup, lookup_drop, Nat.add_0_r. by apply points_cell.
Qed.

Lemma by_rank_refines z es rank : holds z es -> 1 <= rank < 2 ^ 32 ->
  exists r, zslistTypeGetElementByRank z rank = Some r /\ points z r (es !! Z.to_nat (rank - 1)).
Proof.
  intros (Hs & L & Hr & Hd) Hrank. pose proof (describes_length _ _ _ Hr Hd) as HL. pose proof (rep_levels _ _ Hr).
  destruct (rep_header _ _ Hr) as (hc & Hhc & Hha & Hhl & _). unfold zslistTypeGetElementByRank.
  set (m := Nat.min (Z.to_nat rank) (length es)).
  assert (Hgo : follows (go_below (fun r => r <=? rank)) (mem z) L m Z.of_nat).
  { apply (follows_below z L es Hr Hd). intros q Hq. destruct (Z.leb_spec (Z.of_nat q) rank), (Nat.leb_spec q m); lia. }
  rewrite <- Hha. destruct (decide (Z.to_nat rank <= length es)%nat) as [Hin|Hout].
  - destruct (lookup_lt_is_Some_2 L m) as [x Hx]; [lia|].
    exists (Some (ad x)). split.
    + apply (seek_some z L Hr _ m Z.of_nat ltac:(lia) Hgo _ (ad x) (level z) O hc); [lia|done|lia|lia|].
      intros p c n Hp Hpm Hn. f_equal. case_decide as Hd'.
      * subst p. assert (c = x) as -> by congruence. destruct (Z.eqb_spec (Z.of_nat m) rank); [done|lia].
      * destruct (Z.eqb_spec (Z.of_nat p) rank); [lia|done].
    + replace (Some (ad x)) with (ad <$> L !! S (Z.to_nat (rank - 1))); [by apply points_cell|].
      replace (S (Z.to_nat (rank - 1))) with m by lia. by rewrite Hx.
  - exists None. split.
    + apply (seek_none z L Hr _ m Z.of_nat ltac:(lia) Hgo _ (level z) O hc); [lia|done|lia|lia|].
      intros j p c n Hp (Hpm & _) Hn. destruct (Z.eqb_spec (Z.of_nat p) rank); [lia|done].
    + replace None with (ad <$> L !! S (Z.to_nat (rank - 1))); [by apply points_cell|]. by rewrite lookup_ge_None_2 by lia.
Qed.

Definition kle (a b : elt) : bool := slt a.1 b.1 || seq_ a.1 b.1 && (cmp a.2 b.2 <=? 0).

Lemma upto_agrees s o : agrees (upto s o) (fun a => kle a (s, o)).
Proof. intros n o' Ho. unfold upto, kle. simpl. destruct (slt (score n) s); [done|]. destruct (seq_ (score n) s); [by rewrite Ho|done]. Qed.

Lemma kle_split a b : kle a b = klt a b || keq a b.
Proof.
  unfold kle, klt, keq. destruct (slt a.1 b.1), (seq_ a.1 b.1); simpl; [done..| |done].
  destruct (Z.leb_spec (cmp a.2 b.2) 0), (Z.ltb_spec (cmp a.2 b.2) 0), (Z.eqb_spec (cmp a.2 b.2) 0); (done || lia).
Qed.

Lemma kle_splits es e : sorted es -> exists m, splits (fun a => kle a e) m es.
Proof.
  intros Hs. apply split_point. intros p q a b Hpq Ha Hb. rewrite !kle_split, !orb_true_iff. pose proof (Hs p q a b Hpq Ha Hb).
  intros [?|?]; left; [by eapply klt_trans|by eapply klt_keq].
Qed.

(** The element itself is the last one up to its key. *)
Lemma kle_last es e m p a : sorted es -> splits (fun a => kle a e) m es -> es !! p = Some a -> keq a e = true -> m = S p.
Proof.
  intros Hs [Hm Ht] Hp He. assert (p < m)%nat by (apply Nat.ltb_lt; rewrite <- (Ht _ _ Hp), kle_split, He; apply orb_true_r).
  destruct (decide (m = S p)); [done|]. destruct (lookup_lt_is_Some_2 es (S p)) as [b Hb]; [lia|].
  assert (Hk : kle b e = true) by (rewrite (Ht _ _ Hb); apply Nat.ltb_lt; lia). rewrite kle_split, orb_true_iff in Hk.
  pose proof (Hs p (S p) a b ltac:(lia) Hp Hb) as Hab. pose proof (keq_klt _ _ _ (keq_sym _ _ He) Hab) as Heb.
  assert (klt e e = true) as F by (destruct Hk; [by eapply klt_trans|by eapply klt_keq]). by rewrite klt_irrefl in F.
Qed.

(** No object, up to its comparison, twice. *)
Definition distinct (es : list elt) : Prop := forall p q a b, es !! p = Some a -> es !! q = Some b -> cmp a.2 b.2 = 0 -> p = q.

Lemma cmp_zero_trans x y w : cmp x y = 0 -> cmp y w = 0 -> cmp x w = 0.
Proof.
  intros E F. destruct (decide (cmp x w < 0)) as [Hl|]; [pose proof (cmp_zero_lt _ _ _ (cmp_zero_sym _ _ E) Hl); lia|].
  destruct (decide (cmp w x < 0)) as [Hl|]; [pose proof (cmp_zero_lt _ _ _ F Hl); apply cmp_zero_sym in E; lia|].
  pose proof (cmp_anti w x). lia.
Qed.

(** The rank of an element of a list without repeated objects. *)
Lemma rank_refines z es s o : holds z es -> distinct es ->
  (forall p e, es !! p = Some e -> keq e (s, o) = true -> zslistTypeGetRank z s o = Some (Z.of_nat p + 1)) /\
  ((forall e, e ∈ es -> cmp e.2 o <> 0) -> zslistTypeGetRank z s o = Some 0).
Proof.
  intros (Hs & L & Hr & Hd) Hnd. pose proof (describes_length _ _ _ Hr Hd) as HL. pose proof (rep_levels _ _ Hr).
  destruct (rep_header _ _ Hr) as (hc & Hhc & Hha & Hhl & Hho). destruct (kle_splits es (s, o) Hs) as [m Hm]. pose proof Hm as [Hml _].
  pose proof (follows_rank z L es Hr Hd _ _ m (upto_agrees s o) Hm) as Hgo. unfold zslistTypeGetRank. rewrite <- Hha.
  assert (Hobj : forall p c n, L !! p = Some c -> mem z !! ad c = Some n -> match p with O => obj n = None | S q => exists e, es !! q = Some e /\ obj n = Some e.2 end).
  { intros [|q] c n Hc Hn; [|destruct (node_elt z L es Hr Hd q c n Hc Hn) as (e & ? & ? & ?); eauto].
    destruct (rep_node _ _ _ _ Hr Hc) as (n' & ? & _ & ?). congruence. }
  split.
  - intros p e Hp He. pose proof (kle_last _ _ _ _ _ Hs Hm Hp He) as ->. erewrite (seek_some z L Hr _ (S p) Z.of_nat ltac:(lia) Hgo _ (Z.of_nat (S p)) (level z) O hc); [simpl; f_equal; lia|lia|done|lia|lia|].
    intros p' c n Hc Hle Hn. pose proof (Hobj _ _ _ Hc Hn) as Ho. unfold keq in He. apply andb_true_iff in He as [_ He%Z.eqb_eq]. simpl in He.
    destruct p' as [|q]; [rewrite Ho; by rewrite decide_False|]. destruct Ho as (e' & Hq & ->). f_equal. rewrite equal_spec. case_decide as Hpq.
    + injection Hpq as ->. assert (e' = e) as -> by congruence. rewrite He. done.
    + destruct (Z.eqb_spec (cmp e'.2 o) 0) as [Ec|]; [|done]. destruct Hpq. f_equal.
      eapply Hnd; [done..|]. eapply cmp_zero_trans; [done|by apply cmp_zero_sym].
  - intros Hno. erewrite (seek_none z L Hr _ m Z.of_nat ltac:(lia) Hgo _ (level z) O hc); [done|lia|done|lia|lia|].
    intros j p c n Hc _ Hn. pose proof (Hobj _ _ _ Hc Hn) as Ho. destruct p as [|q]; [by rewrite Ho|]. destruct Ho as (e & Hq & ->). f_equal.
    rewrite equal_spec. destruct (Z.eqb_spec (cmp e.2 o) 0) as [Ec|]; [|done]. destruct (Hno e); [by eapply list_elem_of_lookup_2|done].
Qed.

(** ** Creation, release and levels *)

Lemma create_holds sc0 : holds (zslCreate sc0) [].
Proof.
  set (a := zmalloc ∅). split; [intros ? ? ? ? _ ?; done|]. exists [mk_cell a ZSKIPLIST_MAXLEVEL sc0 None]. split; [|constructor].
  assert (Hl : forall i, (i < ZSKIPLIST_MAXLEVEL)%nat -> exists s, lvl (mem (zslCreate sc0)) i a = Some (None, s)).
  { intros i Hi. unfold lvl, zslCreate. cbn [mem]. rewrite lookup_insert_eq. cbn [mbind option_bind forward crossed span].
    rewrite lookup_replicate_2 by done. cbn [mbind option_bind]. destruct i as [|i]; [by eexists|]. cbn [crossed span].
    rewrite lookup_replicate_2 by lia. by eexists. }
  split; simpl; try done; try (intros; simplify_eq/=; fail); try (intros [|p] ?; done).
  - eauto 10.
  - unfold ZSKIPLIST_MAXLEVEL. lia.
  - by left.
  - intros [|p] [|q] c d Hc Hd _; simplify_eq/=; done.
  - intros [|p] c Hc; simplify_eq/=. unfold stat. by rewrite lookup_insert_eq.
  - intros b [n Hn]. exists O. eexists. split; [done|]. simpl. destruct (decide (b = a)) as [->|]; [done|]. by rewrite lookup_insert_ne, lookup_empty in Hn.
  - intros i Hi [|p] c Hc Hi'; simplify_eq/=. destruct (Hl i Hi') as [s Hs]. exists None, s. split_and!; [|left; lia|done].
    intros [|r] d Hr Hd; [lia|done].
  - intros i Hi. apply Hl. lia.
Qed.

Lemma free_loop_ok L fuel h : apart L -> (forall p c, L !! p = Some c -> is_Some (h !! ad c)) ->
  (forall p c, L !! p = Some c -> exists n, h !! ad c = Some n /\ forward n !! O = Some (ad <$> L !! S p) /\ obj n = ob c) -> (length L < fuel)%nat ->
  exists h', free_loop fuel h (ad <$> L !! O) = Some (h', ob <$> L) /\ forall a, h' !! a = (if decide (a ∈ ad <$> L) then None else h !! a).
Proof.
  revert fuel h. induction L as [|c L IH]; intros fuel h HL Hin Hn Hf; (destruct fuel as [|fuel]; [simpl in Hf; lia|]); cbn [free_loop lookup list_lookup fmap option_fmap option_map].
  { exists h. split; [done|]. intros a. rewrite decide_False; [done|]. simpl. set_solver. }
  destruct (Hn O c eq_refl) as (n & Hc & Hf0 & Ho). rewrite Hc. cbn [mbind option_bind]. rewrite Hf0. cbn [mbind option_bind].
  assert (Hne : forall p d, L !! p = Some d -> ad d <> ad c).
  { intros p d Hd E. by pose proof (HL (S p) O d c Hd eq_refl E). }
  destruct (IH fuel (delete (ad c) h)) as (h' & E & Hh').
  - intros p q d e Hd He Ea. by pose proof (HL (S p) (S q) d e Hd He Ea) as [= ->].
  - intros p d Hd. rewrite lookup_delete_ne by (apply not_eq_sym; by eapply Hne). by apply (Hin (S p)).
  - intros p d Hd. rewrite lookup_delete_ne by (apply not_eq_sym; by eapply Hne). by apply (Hn (S p)).
  - simpl in Hf. lia.
  - replace ((c :: L) !! 1%nat) with (L !! O) by done. rewrite E. cbn [mbind option_bind]. rewrite Ho. exists h'. split; [done|].
    intros a. rewrite Hh'. simpl. destruct (decide (a = ad c)) as [->|Ha].
    + rewrite (decide_True (P := _ ∈ ad c :: _)) by set_solver. case_decide; [done|apply lookup_delete_eq].
    + rewrite lookup_delete_ne by done. repeat case_decide; set_solver.
Qed.

Lemma free_refines z es : holds z es -> zslFree z = Some (∅, (fun e => Some e.2) <$> es).
Proof.
  intros (Hs & L & Hr & Hd). destruct (rep_header _ _ Hr) as (hc & Hhc & Hha & Hhl & Hho). pose proof (rep_steps _ _ Hr).
  unfold zslFree. rewrite <- Hha. rewrite (next_of z L Hr O hc Hhc). cbn [mbind option_bind].
  assert (HLne : L = hc :: drop 1 L) by (destruct L as [|d L]; [done|simpl in *; rewrite drop_0; congruence]).
  assert (Hne : forall p c, drop 1 L !! p = Some c -> ad c <> ad hc).
  { intros p c Hc E. rewrite lookup_drop in Hc. by pose proof (rep_apart _ _ Hr _ _ _ _ Hc Hhc E). }
  assert (Hnodes : forall p c, drop 1 L !! p = Some c -> exists n, delete (ad hc) (mem z) !! ad c = Some n /\ forward n !! O = Some (ad <$> drop 1 L !! S p) /\ obj n = ob c).
  { intros p c Hc. rewrite lookup_delete_ne by (apply not_eq_sym; by eapply Hne). rewrite lookup_drop in Hc |- *.
    destruct (rep_node _ _ _ _ Hr Hc) as (n & Hn & _ & Ho). exists n. split_and!; [done| |done].
    pose proof (next_of z L Hr _ c Hc) as Hx. unfold get_forward in Hx. by rewrite Hn in Hx. }
  destruct (free_loop_ok (drop 1 L) (steps (mem z)) (delete (ad hc) (mem z))) as (h' & E & Hh').
  - intros p q c d Hc Hd' Ea. rewrite lookup_drop in Hc, Hd'. pose proof (rep_apart _ _ Hr _ _ _ _ Hc Hd' Ea). lia.
  - intros p c Hc. destruct (Hnodes p c Hc) as (n & -> & _). done.
  - done.
  - rewrite length_drop. lia.
  - rewrite lookup_drop in E. change (1 + 0)%nat with 1%nat in E. rewrite E. f_equal. f_equal.
    + apply map_eq. intros a. rewrite Hh', lookup_empty. case_decide as Ha; [done|]. destruct (decide (a = ad hc)) as [->|Hah]; [apply lookup_delete_eq|].
      rewrite lookup_delete_ne by done. apply eq_None_not_Some. intros (p & c & Hc & <-)%(rep_dom _ _ Hr). destruct p as [|p]; [congruence|].
      apply Ha. apply list_elem_of_fmap. exists c. split; [done|]. apply list_elem_of_lookup. exists p. by rewrite lookup_drop.
    + clear -Hd. induction Hd as [|c e cs es [_ Ho] _ IH]; [done|]. simpl. rewrite Ho. by f_equal.
Qed.

Lemma random_loop_ge rs k r : random_loop rs k = Some r -> k <= r.
Proof. revert k. induction rs as [|x rs IH]; intros k; simpl; [done|]. destruct (Z.land x 65535 <? 16384); [intros E%IH; lia|intros [= <-]; lia]. Qed.

Lemma random_level_range rs k : zslRandomLevel rs = Some k -> (1 <= k <= ZSKIPLIST_MAXLEVEL)%nat.
Proof.
  unfold zslRandomLevel. destruct (random_loop rs 1) as [r|] eqn:E; simpl; [|done]. apply random_loop_ge in E. intros [= <-].
  destruct (Z.ltb_spec r (Z.of_nat ZSKIPLIST_MAXLEVEL)); unfold ZSKIPLIST_MAXLEVEL in *; lia.
Qed.

(** ** Sequences of operations *)

(** The calls that change a list, with the numbers drawn for an insertion. *)
Inductive request : Type :=
  | Insert (s : Sc) (o : Obj) (rs : list Z)
  | Delete (s : Sc) (o : Obj)
  | RangeByScore (min max : Sc)
  | RangeByRank (start end_ : Z).

(** What they give back: the flag of [zslDelete], or the removed objects. *)
Definition serve (z : zskiplist) (q : request) : option (zskiplist * (Z + list Obj)) :=
  match q with
  | Insert s o rs => k ← zslRandomLevel rs; z ← zslInsert z s o k; Some (z, inr [])
  | Delete s o => '(z, r) ← zslDelete z s o; Some (z, inl r)
  | RangeByScore min max => '(z, os) ← zslDeleteRangeByScore z min max; Some (z, inr os)
  | RangeByRank start end_ => '(z, os) ← zslDeleteRangeByRank z start end_; Some (z, inr os)
  end.

Fixpoint serve_all (z : zskiplist) (qs : list request) : option (zskiplist * list (Z + list Obj)) :=
  match qs with
  | [] => Some (z, [])
  | q :: qs => '(z, r) ← serve z q; '(z, rs) ← serve_all z qs; Some (z, r :: rs)
  end.

(** The same on a sorted list. *)
Definition spec_serve (es : list elt) (q : request) : list elt * (Z + list Obj) :=
  match q with
  | Insert s o _ => (spec_insert (s, o) es, inr [])
  | Delete s o => (spec_delete (s, o) es, inl (if present (s, o) es then 1 else 0))
  | RangeByScore min max => let '(l, r) := spec_score_range min max es in (l, inr r.*2)
  | RangeByRank start end_ => let '(l, r) := spec_rank_range start end_ es in (l, inr r.*2)
  end.

Fixpoint spec_all (es : list elt) (qs : list request) : list elt * list (Z + list Obj) :=
  match qs with
  | [] => (es, [])
  | q :: qs => let '(es, r) := spec_serve es q in let '(es, rs) := spec_all es qs in (es, r :: rs)
  end.

(** What the callers must respect: no element twice, drawing until a level is
    chosen, ranks of 32 bits. *)
Definition legal (es : list elt) (q : request) : bool :=
  match q with
  | Insert s o rs => negb (present (s, o) es) && (Z.of_nat (length es) + 2 <? 2 ^ 32) && (if zslRandomLevel rs then true else false)
  | RangeByRank start end_ => (0 <=? start) && (start <? 2 ^ 32) && (0 <=? end_) && (end_ <? 2 ^ 32)
  | _ => true
  end.
Fixpoint legal_all (es : list elt) (qs : list request) : bool :=
  match qs with [] => true | q :: qs => legal es q && legal_all (spec_serve es q).1 qs end.

Lemma serve_refines z es q : holds z es -> legal es q = true ->
  exists z', serve z q = Some (z', (spec_serve es q).2) /\ holds z' (spec_serve es q).1.
Proof.
  intros Hz Hq. destruct q as [s o rs|s o|min max|start end_]; simpl in Hq |- *.
  - bsimp. destruct (zslRandomLevel rs) as [k|] eqn:Ek; [|done]. apply random_level_range in Ek. rename select (present _ _ = false) into Hp.
    rewrite present_false in Hp. cbn [mbind option_bind]. destruct (insert_refines z es s o k Hz Ek) as (z' & -> & ?); [lia| |by exists z'].
    intros a [p Ha]%list_elem_of_lookup. eauto.
  - destruct (delete_refines z es s o Hz) as (z' & -> & ?). by exists z'.
  - destruct (score_range_refines z es min max Hz) as (z' & -> & ?). by exists z'.
  - bsimp. destruct (rank_range_refines z es start end_ Hz) as (z' & -> & ?); [unfold in_u; lia..|]. by exists z'.
Qed.

Lemma serve_all_refines z es qs : holds z es -> legal_all es qs = true ->
  exists z', serve_all z qs = Some (z', (spec_all es qs).2) /\ holds z' (spec_all es qs).1.
Proof.
  revert z es. induction qs as [|q qs IH]; intros z es Hz Hq; simpl in *; [by exists z|]. apply andb_true_iff in Hq as [Hq Hqs].
  destruct (serve_refines z es q Hz Hq) as (z1 & -> & Hz1). simpl. destruct (spec_serve es q) as [es1 r]. simpl in *.
  destruct (IH z1 es1 Hz1 Hqs) as (z2 & -> & Hz2). destruct (spec_all es1 qs). by exists z2.
Qed.

(** C35. Skip lists implement sorted lists: any legal sequence of insertions,
    deletions and range deletions on a new list runs without a bad access,
    whatever the levels drawn, and answers as the same operations on a sorted
    list; afterwards the element of each rank, the first element from a score on
    and the objects freed at the end are those of that sorted list. *)
Theorem skiplist_refines sc0 qs : legal_all [] qs = true ->
  exists z, serve_all (zslCreate sc0) qs = Some (z, (spec_all [] qs).2) /\
    let es := (spec_all [] qs).1 in
    sorted es /\
    (forall rank, 1 <= rank < 2 ^ 32 -> exists r, zslistTypeGetElementByRank z rank = Some r /\ points z r (es !! Z.to_nat (rank - 1))) /\
    (forall s, exists r, zslFirstWithScore z s = Some r /\ points z r (head (filter (fun a => slt a.1 s = false) es))) /\
    zslFree z = Some (∅, (fun e => Some e.2) <$> es).
Proof.
  intros Hq. destruct (serve_all_refines _ _ _ (create_holds sc0) Hq) as (z & E & Hz). exists z. split; [done|]. simpl. split_and!.
  - apply Hz.
  - intros. by apply by_rank_refines.
  - intros. by apply first_refines.
  - by apply free_refines.
Qed.

(** C36. Ranks are positions: after any legal sequence of operations that leaves no
    object twice, the rank of an element, counted through the spans of the links
    it crosses, is its position in the sorted list, an object not in the list has
    rank 0, and looking the rank up again finds the element. *)
Theorem rank_roundtrip sc0 qs : legal_all [] qs = true -> distinct (spec_all [] qs).1 ->
  exists z rs, serve_all (zslCreate sc0) qs = Some (z, rs) /\
    (forall p e, (spec_all [] qs).1 !! p = Some e ->
      zslistTypeGetRank z e.1 e.2 = Some (Z.of_nat p + 1) /\
      exists r, zslistTypeGetElementByRank z (Z.of_nat p + 1) = Some r /\ points z r (Some e)) /\
    (forall s o, (forall e, e ∈ (spec_all [] qs).1 -> cmp e.2 o <> 0) -> zslistTypeGetRank z s o = Some 0).
Proof.
  intros Hq Hnd. destruct (serve_all_refines _ _ _ (create_holds sc0) Hq) as (z & E & Hz). exists z, (spec_all [] qs).2. split_and!; [done| |].
  - intros p e Hp. split.
    + destruct (rank_refines z _ e.1 e.2 Hz Hnd) as [Hk _]. apply (Hk p e Hp). unfold keq. cbn [fst snd]. rewrite seq_spec, slt_irrefl, cmp_refl. done.
    + destruct Hz as (Hs & L & Hr & Hd). pose proof (describes_length _ _ _ Hr Hd). pose proof (rep_bound _ _ Hr). pose proof (lookup_lt_Some _ _ _ Hp).
      destruct (by_rank_refines z (spec_all [] qs).1 (Z.of_nat p + 1)) as (r & ? & Hpt); [split; eauto|lia|].
      exists r. split; [done|]. replace (Z.to_nat (Z.of_nat p + 1 - 1)) with p in Hpt by lia. by rewrite Hp in Hpt.
  - intros s o Ho. by apply (rank_refines z _ s o Hz Hnd).
Qed.

End skiplist.

(** ** An instance *)

#[global] Instance Z_scores : ScoreOps Z := {| slt := Z.ltb; seq_ := Z.eqb |}.
#[global] Instance Z_score_order : ScoreOrder Z.
Proof. split; simpl; intros; lia. Qed.
#[global] Instance Z_objects : ObjOps Z := {| cmp := Z.sub; equal := Z.eqb |}.
#[global] Instance Z_obj_order : ObjOrder Z.
Proof. split; simpl; intros; lia. Qed.

(** Five insertions of several levels, a deletion and two range deletions. *)
Definition ex_requests : list (@request Z Z) :=
  [Insert 5 50 [0; 0; 65535]; Insert 3 30 [65535]; Insert 5 40 [0; 0; 0; 20000]; Insert 9 90 [16384]; Insert 1 10 [16383; 65535];
   Delete 3 30; Delete 3 31; RangeByScore 6 9; RangeByRank 3 7].

Lemma skiplist_refines_witness :
  exists z, serve_all bump_alloc None 7 (zslCreate bump_alloc 0) ex_requests =
      Some (z, [inr []; inr []; inr []; inr []; inr []; inl 1; inl 0; inr [90]; inr [50]]) /\
    zslFree z = Some (∅, [Some 10; Some 40]).
Proof.
  assert (Hl : legal_all [] ex_requests = true) by (vm_compute; reflexivity).
  destruct (skiplist_refines bump_alloc None 7 bump_alloc_fresh 0 ex_requests Hl) as (z & E & Hz).
  exists z. split; [rewrite E; vm_compute; reflexivity|].
  cbv zeta in Hz. destruct Hz as (_ & _ & _ & F). rewrite F. vm_compute. reflexivity.
Defined.

Lemma rank_roundtrip_witness :
  exists z rs, serve_all bump_alloc None 7 (zslCreate bump_alloc 0) ex_requests = Some (z, rs) /\ zslistTypeGetRank z 5 40 = Some 2.
Proof.
  assert (Hl : legal_all [] ex_requests = true) by (vm_compute; reflexivity).
  assert (Hn : distinct (spec_all [] ex_requests).1).
  { vm_compute. intros [|[|p]] [|[|q]] a b [= <-] [= <-]; done. }
  destruct (rank_roundtrip bump_alloc None 7 bump_alloc_fresh 0 ex_requests Hl Hn) as (z & rs & E & Hr & _).
  exists z, rs. split; [exact E|]. apply (Hr 1%nat (5, 40)). vm_compute. reflexivity.
Defined.

End Skiplist.
