(* ===== verification/StrObj.v ===== *)
(** * String objects

    [redis/src/object.c]: string objects, raw or integer-encoded, their encoding
    and decoding, and the comparisons sorted sets rest on.  An object is what its
    [encoding] and [ptr] hold; [refcount] is an argument where it is read, and
    the shared integers are integer objects like any other.

    The theorems: encoding and decoding keep the text, the comparison is the
    lexicographic order of the texts, also across encodings, as long as no text
    has a NUL byte, so such objects are the lawful keys that skip lists require;
    with NUL bytes and both encodings it is no order, and a skip list deletes the
    wrong element. *)

From S2P Require Import Prelude Bytes Sds Util Skiplist.
Local Open Scope Z_scope.

Module StrObj.
Import Bytes Sds Util.

(** [REDIS_ENCODING_RAW] and [REDIS_ENCODING_INT]. *)
Inductive strobj : Type := Raw (s : sdshdr) | Int (v : Z).

Section strobj.
Context (junk : Z).

Definition createStringObject (p : block) (n : Z) : option strobj := s ← sdsnewlen junk (Some p) n; Some (Raw s).

Definition createStringObjectFromLongLong (value : Z) : option strobj :=
  if (LONG_MIN <=? value) && (value <=? LONG_MAX) then Some (Int value) else s ← sdsfromlonglong junk value; Some (Raw s).

(** [None]: the assertion that the object is raw. *)
Definition dupStringObject (o : strobj) : option strobj :=
  match o with Raw s => createStringObject (buf s) (sdslen s) | Int _ => None end.

Definition tryObjectEncoding (o : strobj) (refcount : Z) : option strobj :=
  match o with
  | Int _ => Some o
  | Raw s =>
    if 1 <? refcount then Some o
    else r ← isStringRepresentableAsLong junk s; Some (match r with Some value => Int value | None => o end)
  end.

Definition getDecodedObject (o : strobj) : option strobj :=
  match o with
  | Raw _ => Some o
  | Int v => '(b, _) ← ll2string junk (replicate 32 junk) 32 v; n ← strlen b; createStringObject b n
  end.

(** [strcmp], up to the magnitude of its result. *)
Definition strcmp (a b : block) : option Z := x ← cstr a; y ← cstr b; Some (lex x y).

(** The characters an object is compared by, on the stack for an integer. *)
Definition chars (o : strobj) : option block :=
  match o with Raw s => Some (buf s) | Int v => '(b, _) ← ll2string junk (replicate 128 junk) 128 v; Some b end.

(** [same] is [a == b]. *)
Definition compareStringObjects (same : bool) (a b : strobj) : option Z :=
  if same then Some 0
  else
    astr ← chars a; bstr ← chars b;
    match a, b with Raw s, Raw t => sdscmp s t | _, _ => strcmp astr bstr end.

Definition equalStringObjects (same : bool) (a b : strobj) : option bool :=
  match a, b with
  | Int v, Int w => Some (v =? w)
  | _, _ => r ← compareStringObjects same a b; Some (r =? 0)
  end.

Definition stringObjectLen (o : strobj) : option Z :=
  match o with Raw s => Some (sdslen s) | Int v => '(_, n) ← ll2string junk (replicate 32 junk) 32 v; Some n end.

(** ** Texts *)

Definition text (o : strobj) (st : list Z) : Prop := match o with Raw s => rep s st | Int v => in_s 32 v /\ st = dec v end.

Lemma long_longlong v : in_s 32 v -> in_s 64 v.
Proof. unfold in_s. lia. Qed.

Lemma dec_no_nul v : in_s 64 v -> 0 ∉ dec v.
Proof.
  intros [Hl Hh]. change (64 - 1) with 63 in *. unfold dec.
  assert (Hd : forall w, 0 <= w < 2 ^ 64 -> 0 ∉ digs 20 w).
  { intros w Hw Hz. destruct (digs_ok w Hw) as (Hf & _). rewrite Forall_forall in Hf. specialize (Hf _ Hz). unfold digit in Hf. lia. }
  destruct (Z.ltb_spec v 0); [|apply Hd; lia]. intros [?|Hz]%elem_of_cons; [done|]. by eapply Hd; [|exact Hz]; lia.
Qed.

(** A buffer of [n] bytes filled by [ll2string]. *)
Lemma ll2string_text n v : in_s 64 v -> 22 <= n ->
  exists rest, ll2string junk (replicate (Z.to_nat n) junk) n v = Some (dec v ++ 0 :: rest, Z.of_nat (length (dec v))).
Proof.
  intros Hv Hn. pose proof (dec_length v Hv) as Hd. pose proof (ll2string_ok junk (replicate (Z.to_nat n) junk) n v Hv) as E.
  cbv zeta in E. rewrite length_replicate, Z2Nat.id in E by lia. rewrite E by lia. clear E. rewrite Z.min_l by lia. rewrite Nat2Z.id, firstn_all. eexists. done.
Qed.

Lemma chars_ok o st : text o st -> exists b rest, chars o = Some b /\ b = st ++ 0 :: rest.
Proof.
  destruct o as [s|v]; cbn [chars text].
  - intros (rest & -> & _). eexists _, rest. done.
  - intros [Hv ->]. destruct (ll2string_text 128 v (long_longlong v Hv) ltac:(lia)) as (rest & E).
    change (Z.to_nat 128) with 128%nat in E. rewrite E. eauto.
Qed.

(** The lexicographic order. *)
Lemma lex_zero a : forall b, lex a b = 0 <-> a = b.
Proof.
  induction a as [|x a IH]; intros [|y b]; simpl; [done..|]. destruct (Z.eqb_spec x y) as [->|].
  - rewrite IH. split; [by intros ->|by intros [=]].
  - destruct (x <? y); split; try done; by intros [=].
Qed.
Lemma lex_opp a : forall b, lex b a = - lex a b.
Proof.
  induction a as [|x a IH]; intros [|y b]; simpl; [done..|]. destruct (Z.eqb_spec x y), (Z.eqb_spec y x); [apply IH|lia|lia|].
  destruct (Z.ltb_spec x y), (Z.ltb_spec y x); lia.
Qed.
Lemma lex_trans a : forall b c, lex a b < 0 -> lex b c < 0 -> lex a c < 0.
Proof.
  induction a as [|x a IH]; intros [|y b] [|w c]; simpl; try done; try lia.
  destruct (Z.eqb_spec x y) as [->|], (Z.eqb_spec y w) as [->|].
  - apply IH.
  - by intros _.
  - destruct (Z.eqb_spec x w); [done|]. by intros ? _.
  - destruct (Z.ltb_spec x y), (Z.ltb_spec y w); try lia. intros _ _. destruct (Z.eqb_spec x w); [lia|]. destruct (Z.ltb_spec x w); lia.
Qed.

(** No NUL byte, or no integer among the two. *)
Definition comparable (a b : strobj) (sa sb : list Z) : Prop :=
  match a, b with Raw _, Raw _ => True | _, _ => 0 ∉ sa /\ 0 ∉ sb end.

Lemma compare_lex same a b sa sb : text a sa -> text b sb -> comparable a b sa sb -> (same = true -> a = b) ->
  exists r, compareStringObjects same a b = Some r /\ Z.sgn r = lex sa sb.
Proof.
  intros Ha Hb Hc Hs. destruct same.
  - specialize (Hs eq_refl) as <-. exists 0. split; [done|]. symmetry. apply lex_zero. destruct a as [s|v]; simpl in *; [|naive_solver].
    destruct Ha as (r1 & -> & _), Hb as (r2 & E & _). injection E as E1 _ E2. by eapply app_inj_1 in E2 as [-> _]; [|lia].
  - unfold compareStringObjects. destruct (chars_ok a sa Ha) as (ba & ra & -> & Ea), (chars_ok b sb Hb) as (bb & rb & -> & Eb). simpl.
    assert (Hstr : 0 ∉ sa /\ 0 ∉ sb -> exists r, strcmp ba bb = Some r /\ Z.sgn r = lex sa sb).
    { intros [H1 H2]. unfold strcmp. rewrite Ea, Eb, !cstr_app by done. simpl. eexists. split; [done|].
      clear. revert sb. induction sa as [|x sa IH]; intros [|y sb]; simpl; [done..|]. destruct (x =? y); [apply IH|by destruct (x <? y)]. }
    destruct a as [s|v], b as [t|w]; simpl in Hc; [|by apply Hstr..]. by apply cmp_ok.
Qed.

Lemma equal_texts same a b sa sb : text a sa -> text b sb -> comparable a b sa sb -> (same = true -> a = b) ->
  equalStringObjects same a b = Some (bool_decide (sa = sb)).
Proof.
  intros Ha Hb Hc Hs. destruct (compare_lex same a b sa sb Ha Hb Hc Hs) as (r & E & Hr).
  assert (Hz : (r =? 0) = bool_decide (sa = sb)).
  { pose proof (lex_zero sa sb) as Hl. rewrite <- Hr in Hl. pose proof (Z.sgn_null_iff r). case_bool_decide; [apply Z.eqb_eq; naive_solver|apply Z.eqb_neq; naive_solver]. }
  unfold equalStringObjects. rewrite E. cbn [mbind option_bind]. rewrite Hz. destruct a as [s|v], b as [t|w]; [done..|].
  simpl in Ha, Hb. destruct Ha as [Hv ->], Hb as [Hw ->]. f_equal. case_bool_decide as Hd; [|apply Z.eqb_neq; by intros ->].
  apply Z.eqb_eq. pose proof (strtoll_dec v 0 [] (long_longlong v Hv) eq_refl) as E1.
  pose proof (strtoll_dec w 0 [] (long_longlong w Hw) eq_refl) as E2. rewrite Hd in E1. congruence.
Qed.

Lemma encode_text o st refcount : text o st ->
  exists o', tryObjectEncoding o refcount = Some o' /\ text o' st /\
    (refcount <= 1 -> forall v, in_s 32 v -> st = dec v -> o' = Int v).
Proof.
  intros Ho. assert (Hinj : forall v w, in_s 32 v -> in_s 32 w -> dec v = dec w -> v = w).
  { intros v w Hv Hw E. pose proof (strtoll_dec v 0 [] (long_longlong v Hv) eq_refl) as E1.
    pose proof (strtoll_dec w 0 [] (long_longlong w Hw) eq_refl) as E2. rewrite E in E1. congruence. }
  destruct o as [s|w]; cbn [tryObjectEncoding]; cycle 1.
  { exists (Int w). split_and!; [done|done|]. destruct Ho as [Hw ->]. intros _ v Hv E. f_equal. by apply Hinj. }
  destruct (Z.ltb_spec 1 refcount); [exists (Raw s); split_and!; [done|done|lia]|].
  unfold isStringRepresentableAsLong. destruct (representable_iff junk s st Ho) as (r & -> & Hr). cbn [mbind option_bind].
  destruct r as [v|].
  - destruct (Hr v) as [Hv _]. destruct (Hv eq_refl) as [Hv64 ->]. unfold LONG_MIN, LONG_MAX.
    destruct (Z.ltb_spec v (- 2 ^ 31)), (Z.ltb_spec (2 ^ 31 - 1) v); cbn [orb mbind option_bind].
    4:{ assert (in_s 32 v) by (unfold in_s; lia). exists (Int v). split_and!; [done|done|]. intros _ w Hw E. f_equal. by apply Hinj. }
    all: exists (Raw s); split_and!; [done|done|]; intros _ w Hw E; exfalso.
    all: pose proof (strtoll_dec v 0 [] Hv64 eq_refl) as E1; pose proof (strtoll_dec w 0 [] (long_longlong w Hw) eq_refl) as E2;
      rewrite E in E1; unfold in_s in Hw; simplify_eq; lia.
  - exists (Raw s). split_and!; [done|done|]. intros _ w Hw E. by pose proof (proj2 (Hr w) (conj (long_longlong w Hw) E)).
Qed.

Lemma decode_text o st : text o st -> exists s, getDecodedObject o = Some (Raw s) /\ rep s st.
Proof.
  destruct o as [s|v]; cbn [getDecodedObject text]; [by exists s|]. intros [Hv%long_longlong ->].
  destruct (ll2string_text 32 v Hv ltac:(lia)) as (rest & E). change (Z.to_nat 32) with 32%nat in E. rewrite E. cbn [mbind option_bind].
  rewrite strlen_app by (by apply dec_no_nul). cbn [mbind option_bind]. pose proof (dec_length v Hv). unfold createStringObject.
  destruct (newlen_ok junk (dec v ++ 0 :: rest) (Z.of_nat (length (dec v)))) as (s & -> & Hs); [lia|rewrite length_app; lia|].
  exists s. split; [done|]. by rewrite Nat2Z.id, take_app_length in Hs.
Qed.

Lemma length_text o st : text o st -> stringObjectLen o = Some (Z.of_nat (length st)).
Proof.
  destruct o as [s|v]; cbn [stringObjectLen text]; [by intros ->%rep_len|]. intros [Hv%long_longlong ->].
  destruct (ll2string_text 32 v Hv ltac:(lia)) as (rest & E). change (Z.to_nat 32) with 32%nat in E. by rewrite E.
Qed.

(** String objects are their texts, whatever the encoding: trying to encode an
    object keeps its text and makes every unshared text of a [long] an integer,
    decoding gives a raw object of the same text, the length is that of the text,
    and two objects, NUL-free or both raw, are equal exactly when their texts are
    and compare like them lexicographically. *)
Theorem string_objects a b sa sb refcount : text a sa -> text b sb -> comparable a b sa sb ->
  (exists a', tryObjectEncoding a refcount = Some a' /\ text a' sa /\ (refcount <= 1 -> forall v, in_s 32 v -> sa = dec v -> a' = Int v)) /\
  (exists s, getDecodedObject a = Some (Raw s) /\ rep s sa) /\
  stringObjectLen a = Some (Z.of_nat (length sa)) /\
  equalStringObjects false a b = Some (bool_decide (sa = sb)) /\
  exists r, compareStringObjects false a b = Some r /\ Z.sgn r = lex sa sb.
Proof.
  intros Ha Hb Hc. split_and!.
  - by apply encode_text.
  - by apply decode_text.
  - by apply length_text.
  - by apply equal_texts.
  - by apply compare_lex.
Qed.

(** ** Keys of skip lists *)

(** The comparisons of the objects themselves. *)
Definition strobj_ops : ObjOps strobj :=
  {| cmp a b := default 0 (compareStringObjects false a b); equal a b := default false (equalStringObjects false a b) |}.

(** Objects whose texts have no NUL byte. *)
Definition key : Type := { o : strobj | exists st, text o st /\ 0 ∉ st }.
Definition key_ops : ObjOps key := {| cmp a b := @cmp _ strobj_ops (`a) (`b); equal a b := @equal _ strobj_ops (`a) (`b) |}.

Lemma key_compare (a b : key) : exists sa sb, text (`a) sa /\ text (`b) sb /\
  Z.sgn (@cmp _ key_ops a b) = lex sa sb /\ @equal _ key_ops a b = bool_decide (sa = sb).
Proof.
  destruct a as [a (sa & Ha & Na)], b as [b (sb & Hb & Nb)]. exists sa, sb. split_and!; [done..| |]; cbn [cmp equal key_ops strobj_ops proj1_sig].
  - destruct (compare_lex false a b sa sb) as (r & -> & ?); [done..| |done|done]. by destruct a, b.
  - rewrite (equal_texts false a b sa sb); [done..| |done]. by destruct a, b.
Qed.

(** One text to an object. *)
Lemma text_fun o s t : text o s -> text o t -> s = t.
Proof.
  destruct o as [h|v]; simpl; [|naive_solver]. intros (r1 & -> & _) (r2 & E & _). injection E as E1 _ E2.
  by eapply app_inj_1 in E2 as [-> _]; [|lia].
Qed.

(** The order that skip lists require of their objects. *)
Lemma key_order : @ObjOrder key key_ops.
Proof.
  assert (Hlt : forall a b sa sb, text (`a) sa -> text (`b) sb -> (@cmp _ key_ops a b < 0 <-> lex sa sb < 0)).
  { intros a b sa sb Ha Hb. destruct (key_compare a b) as (sa' & sb' & Ha' & Hb' & E & _).
    rewrite (text_fun _ _ _ Ha Ha'), (text_fun _ _ _ Hb Hb'), <- E. lia. }
  assert (Hex : forall a : key, exists sa, text (`a) sa) by (intros [a (sa & Ha & Hn)]; eauto).
  split.
  - intros x. destruct (key_compare x x) as (sa & sb & Ha & Hb & E & _). rewrite (text_fun _ _ _ Ha Hb), (proj2 (lex_zero sb sb) eq_refl) in E. lia.
  - intros x y w. destruct (Hex x) as [sx Hx], (Hex y) as [sy Hy], (Hex w) as [sw Hw]. rewrite (Hlt x y sx sy), (Hlt y w sy sw), (Hlt x w sx sw) by done. apply lex_trans.
  - intros x y. destruct (key_compare x y) as (sx & sy & Hx & Hy & E & _), (key_compare y x) as (sy' & sx' & Hy' & Hx' & E' & _).
    rewrite (text_fun _ _ _ Hx' Hx), (text_fun _ _ _ Hy' Hy), lex_opp, <- E in E'. lia.
  - intros x y w. destruct (Hex x) as [sx Hx], (Hex y) as [sy Hy], (Hex w) as [sw Hw]. rewrite (Hlt x y sx sy), (Hlt x w sx sw), (Hlt w y sw sy) by done.
    intros Hxy. destruct (decide (lex sx sw < 0)); [by left|right]. destruct (decide (sx = sw)) as [->|Hne]; [done|].
    eapply lex_trans; [|exact Hxy]. rewrite lex_opp. assert (lex sx sw <> 0) by (by rewrite lex_zero). lia.
  - intros x y. destruct (key_compare x y) as (sx & sy & Hx & Hy & E & ->). pose proof (lex_zero sx sy) as Hz.
    rewrite <- E, Z.sgn_null_iff in Hz. case_bool_decide; symmetry; [apply Z.eqb_eq|apply Z.eqb_neq]; by rewrite Hz.
Qed.

(** Skip lists over such objects are sorted lists. *)
Lemma keyed_skiplist (zmalloc : gmap positive (@Skiplist.zskiplistNode Z key) -> positive) (junk_ptr : option positive) (junk_span : Z) qs :
  (forall h, h !! zmalloc h = None) -> Skiplist.legal_all (H0 := key_ops) [] qs = true ->
  exists z, Skiplist.serve_all (H0 := key_ops) zmalloc junk_ptr junk_span (Skiplist.zslCreate zmalloc 0) qs =
      Some (z, (Skiplist.spec_all (H0 := key_ops) [] qs).2) /\
    Skiplist.holds (H0 := key_ops) z (Skiplist.spec_all (H0 := key_ops) [] qs).1.
Proof.
  intros Hz Hq. pose proof key_order. apply Skiplist.serve_all_refines; [done|apply _|done|apply Skiplist.create_holds|done].
Qed.
End strobj.

(** ** Encodings mixed with NUL bytes *)

(** ["12"] as an integer, and the raw ["12\0a"], ["12\0b"]. *)
Definition twelve : strobj := Int 12.
Definition twelve_a : strobj := Raw (mk_sds 4 0 [49; 50; 0; 97; 0]).
Definition twelve_b : strobj := Raw (mk_sds 4 0 [49; 50; 0; 98; 0]).

#[local] Instance mixed_ops : ObjOps strobj := strobj_ops 9.
Definition obj_alloc (h : gmap positive (@Skiplist.zskiplistNode Z strobj)) : positive := map_fold (fun a _ r => Pos.max (Pos.succ a) r) 1%positive h.

(** An integer object equals every raw one that continues its text after a NUL
    byte, while those differ among themselves; deleting ["12"] from a skip list
    that holds ["12\0a"] with the same score deletes that other element. *)
Theorem mixed_encodings_no_order :
  equalStringObjects 9 false twelve_a twelve = Some true /\ equalStringObjects 9 false twelve twelve_b = Some true /\
  compareStringObjects 9 false twelve_a twelve_b = Some (-1) /\
  exists z z', Skiplist.zslInsert obj_alloc None 9 (Skiplist.zslCreate obj_alloc 0) 1 twelve_a 1 = Some z /\
    Skiplist.length_ z = 1 /\ Skiplist.zslDelete z 1 twelve = Some (z', 1) /\ Skiplist.length_ z' = 0.
Proof.
  split_and!; [vm_compute; reflexivity..|]. eexists _, _. split; [vm_compute; reflexivity|]. split; [reflexivity|].
  split; [vm_compute; reflexivity|reflexivity].
Qed.

(** ** Examples *)

Lemma string_objects_witness :
  exists a', tryObjectEncoding 9 (Raw (mk_sds 2 0 [49; 50; 0])) 1 = Some a' /\ text a' [49; 50].
Proof.
  destruct (string_objects 9 (Raw (mk_sds 2 0 [49; 50; 0])) twelve [49; 50] [49; 50] 1) as ((a' & E & Ht & _) & _).
  - exists []. split; [reflexivity|]. simpl. lia.
  - split; [unfold in_s; lia|vm_compute; reflexivity].
  - split; intros Hin; repeat (apply elem_of_cons in Hin as [Hin|Hin]; [lia|]); by apply elem_of_nil in Hin.
  - exists a'. split; [exact E|exact Ht].
Defined.

End StrObj.
